(* ===== verification/_CoqProject ===== *)
-Q . S2P
Prelude.v
Models.v
SymbolScale.v
Chrono.v
MarketHours.v
OhlcBuilder.v
Indicators.v
MonoDeque.v
RangeBar.v
BarStore.v
Trade.v
TradeManager.v
ExitRules.v
Double.v
Json.v
JsonFloat.v
JsonDump.v
JsonParse.v
JsonRoundTrip.v
Base64.v
StdText.v
Config.v
ConfigJson.v
EntryConditions.v
Strategy.v
OhlcBreakout.v
KeltnerFade.v
Fvg.v
OpenRange.v
Squeeze.v
LiquiditySweep.v
RangeVelocity.v
StrategyFactory.v
Tracker.v
ChainMatcher.v
ExperimentJson.v
Redis.v
RedisStore.v
TradeLocks.v
Positions.v
PositionText.v
Clusters.v
Queue.v
RedisLoader.v
ThreadPool.v
Env.v
IsoTime.v
Elastic.v
Sweep.v
SweepConfigs.v
LoadCommand.v
ExperimentsCommand.v
RollingWindow.v
TickCache.v
WireTime.v
QuestDb.v
RunnerBridge.v
ResultsSummary.v
RateWindow.v
Effects.v
RunLoop.v
Reports.v
Percentile.v
Evaluate.v
ExperimentReport.v
TickPacket.v
Ingest.v
LiveWorker.v
LiveRunner.v
Markets.v
IgMarkets.v
IgRest.v
IgRequests.v
OrderChannel.v
LiveWiring.v
Operations.v
Winners.v
PositionSync.v
DealTracking.v
LiveCommand.v
