(* ===== verification/Prelude.v ===== *)
(** * A verification library for the C++ backtesting engine

    This development models the decision-making core of the engine under
    [src/source] as executable Rocq definitions and proves what makes it correct.
    The definitions are translated from the C++ modules, one file per component,
    and keep the source's names; each file opens with the modules it models.

    ** The program

    Work enters through [load/loadCommand.cppm] and
    [experiments/experimentsCommand.cppm]: a sweep expands a parameter grid
    ([load/sweep]) into configurations, serialises each as JSON in base64 and
    streams them into Redis ([load/redisLoader.cpp]), then advertises a run
    descriptor on a queue.  A worker ([run/queue/drainRuns.cpp]) peeks a
    descriptor, obtains the ticks of its window through the tick cache
    ([run/execution/runnerBridge.cpp], [tickCache.cppm]) from QuestDB
    ([shared/questdb]), claims the strategies of the run one by one and hands each
    to a thread pool.

    A backtest ([run/operations.cppm]) builds a strategy from a configuration
    ([strategies/strategyFactory.cppm]) and replays a time-ordered tick stream
    through [trading::runTicks] ([run/trading/runLoop.cppm]).  For each tick the
    loop marks the symbol's open trade to market and reviews its stop and limit
    ([tradeManager], [exitRules], [reviewStopAndLimit]), feeds the shared bar
    pipeline ([barStore], over [ohlcBuilder] and [rangeBarBuilder]), checks the
    account loss limit, gates entries (session, open-trade cap, entry rate,
    ATR conditions), asks the strategy for a signal, opens the trade, and gives
    the strategy its per-tick management hook.  When the ticks end, the book is
    closed, summarised and scored ([run/reporting/resultsSummary.cppm]); the
    outcome is queued as documents for Elasticsearch
    ([run/reporting/elasticClient.cppm], [elasticPublisher.cpp]), and a run that
    passed its gate is queued again for the next window of the ladder
    ([run/queue/rollingWindow.cppm]).  Beside it, the analysis worker replays
    chains of price activities over the same ticks
    ([shared/experiments/chainMatcher.cppm]).  The live process
    ([live/execution/liveStrategyRunner.cppm]) routes received ticks to a worker per
    strategy, which runs the same bars, gates and strategies, keeps its book in step
    with the broker's deals and hands orders and closes to the broker calls
    ([live/broker]); it trades the winners of past runs ([live/winners]).  It shares
    trade locks, positions and correlation clusters through Redis ([shared/redis]),
    where two more processes keep the broker's book ([positions], [tracking]).

    ** The files

    - [Prelude]: machine integers with their wrap-around ([i32], [i64] and the
      notations with the width as subscript), the [result] type of code that may
      throw, spans ([last_n], [but_last]), the binary search over constant tables,
      [eq64] (equality modulo [2^64]) with its [Proper] instances, and tactics.
    - [Models]: the enumeration and records of [shared/models]; times and durations
      are microsecond counts, the resolution of the standard library's system clock.
    - [SymbolScale], [Chrono], [MarketHours]: the two constant tables, the calendar
      arithmetic the session filter relies on, and the filter.
    - [OhlcBuilder], [Indicators], [MonoDeque], [RangeBar], [BarStore]: time bars,
      EMA/ATR/swing pivots, the monotonic deque shared by the range bars and the
      trackers, range bars, and the store that feeds every registered series.
    - [Trade], [TradeManager], [ExitRules]: the trade record, the book with its
      running sums and drawdown, and the three ways a trade is closed.
    - [Double], [Json], [JsonFloat], [JsonDump], [JsonParse], [JsonRoundTrip]: IEEE
      doubles (SpecFloat, 53 bits) and the bundled JSON library: values and their
      conversions, the Grisu2 printer, the serializer, the lexer and the parser's
      state machine, and the theorem that joins them.
    - [Base64], [StdText], [Config], [ConfigJson], [ExperimentJson]: the payload
      codec, the number and text formats of the standard library, the configuration
      records, and their parsers and printers.
    - [EntryConditions], [Strategy]: the ATR entry gate and the strategy interface,
      a type class [IStrategy] with a law [ClosesOnly] that the run loop's theorems
      assume and every concrete strategy discharges.
    - [OhlcBreakout], [KeltnerFade], [Fvg], [OpenRange] (London and New York),
      [Squeeze], [LiquiditySweep], [RangeVelocity], [StrategyFactory]: the concrete
      strategies and the factory that builds them behind the interface.
    - [Tracker], [ChainMatcher], [Percentile], [Evaluate], [ExperimentReport]: the
      windowed trackers, the chain state machine, nearest-rank percentiles over
      doubles, the evaluation of an experiment over a stream, and its document.
    - [Redis], [RedisStore]: the server as a class with the documented behaviour of
      each command as laws, the synchronous client with its deadline and circuit
      breaker, the operations; and one instance, a store of keys with lifetimes.
    - [TradeLocks], [Positions], [Clusters]: the modules of [shared/redis] over the
      operations; [PositionText]: the decimal text of a double, and the stored position
      records.
    - [Markets], [IgMarkets], [IgRest], [IgRequests]: the broker's markets and
      messages, the retried exchange and its session, the request budget and the gated
      open and close calls ([live/broker], [shared/ig], [shared/aws]).
    - [RateWindow], [LiveWorker], [LiveRunner]: the minute window both rate caps keep,
      one live worker over the functions it is wired to ([LiveWorker.Seams]), and the
      routing, bounded queues and stop of all workers as one step relation.
    - [Effects], [OrderChannel], [LiveWiring]: calls that may throw and keep what they
      did, the order channel over injected calls, the clock of every call going forward,
      and what the live process hands a worker ([LiveWiring.live_seams]).
    - [Winners], [LiveCommand]: which past runs the live process trades, the workers it
      builds for them, its settings, its start, and its trace and log documents.
    - [PositionSync], [DealTracking]: the two processes beside it, one
      mirroring the broker's book into Redis, one following the account updates.
    - [Queue], [RedisLoader], [ThreadPool]: the queues and both drain loops as one
      step machine, the loader, and the pool.
    - [Env], [IsoTime], [Elastic]: the environment, the time stamps and week labels,
      and the Elasticsearch publisher.
    - [Sweep], [SweepConfigs], [LoadCommand], [ExperimentsCommand]: the grid, the
      sweeps the repository defines, and the two commands that seed the queues.
    - [RollingWindow], [TickCache], [WireTime], [QuestDb], [RunnerBridge]: the
      ladder, and how a worker gets the ticks of a window.
    - [TickPacket], [Ingest]: the tick datagram and its decoder, and the process that
      writes the received ticks to QuestDB, as one step relation.
    - [ResultsSummary], [RunLoop], [Reports], [Operations]: the statistics and score,
      the run loop, the documents, and one backtest from end to end.

    ** How state and effects are modelled

    Objects with mutable fields are records; a method is a function from the
    object (and its arguments) to the new object and the returned value, called in
    the order the code calls it.  Code that may throw returns [result]; an element
    read the code does not check is a checked read here ([Strategy.read],
    [SwingPivots.read_left]) that yields [UndefinedRead], and the theorems prove it
    never happens.  Vectors and spans are lists with the newest element last,
    [unordered_map] is stdpp's [gmap].  The order in which the book iterates its
    hash map is a parameter ([HashOrder], any permutation of the entries).

    Integers keep their width: [int32_t] and [int64_t] arithmetic is integer
    arithmetic followed by an explicit wrap, including where C++ leaves signed
    overflow undefined; the theorems state the ranges in which no wrap occurs,
    usually prices below [2^23], the bound the engine documents.  Container sizes
    are natural numbers.

    Parameters stand for what the engine calls but does not define: the process
    environment and the tick database behind the warm-up ([OhlcBuilder.World]), the
    64-bit decimal type of an external library ([Config.Decimal64], its text in
    [ConfigJson.DecimalText] and its conversion in [ResultsSummary.DecimalDouble]),
    the random generator of the random strategy, the Redis server
    ([Redis.RedisServer], with laws), the rows QuestDB answers a query with
    ([QuestDb.Pqxx], with laws), the loaders and the clock of the tick cache
    ([TickCache.CacheWorld]), and the exchanges of the HTTP transport
    ([Elastic.net], a stream of attempts; [IgRest.Exchange] and [IgRest.Pull] for the
    broker and its session table), and the functions and the steady clock a live
    worker is wired to ([LiveWorker.Seams], over any environment).  [RedisStore] and the demonstrations at
    the end of the files instantiate them.  What a connection does while a call
    waits is a list of events: replies that arrive at their times, the deadline, a
    lost connection.  Server and client read one clock.  In ingest, what a receive
    completes with, the signal and what a POST returns label the steps.  A worker is a step machine
    whose environment chooses what each awaited command meets.  Logging and console
    output are left out.

    ** What the theorems show

    - Run loop: a finished run is settled and its status is the one the final
      profit warrants ([RunLoop.run_settles]); the entry caps, session filter and
      distance limits hold after every tick of every run ([RunLoop.entry_caps]).
    - Book: the running sums are the sums over the trades whatever the sequence of
      operations ([TradeManager.book_ledger]), the drawdown is that of the equity
      curve, closing the book realises what was floating, an entry costs exactly
      spread plus slippage, and the bracket orders and the time cap fire exactly
      when they should ([ExitRules]).
    - Bars: the store serves, for every symbol and series, the tail of an isolated
      reference builder ([BarStore.find_reference]); time bars partition the ticks;
      range bars are well formed and their deques compute the sliding range.
    - Indicators: bounds and absence of overflow for the EMA, the exact mean for
      the ATR, the fractal definition for swing pivots.
    - Strategies: each [decide] signals exactly under a declarative condition on the
      windows it reads, never reads out of range and never throws on a
      configuration its constructor accepts; the factory and the list of live
      strategies agree.
    - Session filter: the whole-day summer-time test is exact for every instant the
      filter permits, and the two symbol tables agree.
    - Experiments: trackers report the true extremes and coverage of their window;
      the chain matcher's counters always balance; a valid experiment's outcome adds
      up, by symbol, month and hour ([Evaluate.experiment_outcome_exact]), and its
      task reports exactly once, whatever happens
      ([ExperimentReport.experiment_reported]).
    - Ingest: a tick's datagram decodes to the tick that was quoted
      ([TickPacket.tick_packet_exact]); every row is persisted, or counted as shed or
      failed, in order and once ([Ingest.ingest_accounts]), and shutting down drains
      the queue ([Ingest.shutdown_drains]).
    - JSON and payloads: what the serializer prints the parser reads back, the
      parser always returns, the escaper never leaves its buffer, base64 inverts, and
      a configuration survives the whole codec; what is accepted is well typed.
    - Redis: a lock excludes every other holder, the cluster gate admits exactly
      below its limits, a refresh keeps the live positions, a sync publishes the book.
    - Broker: an open is put at most once and reported as the exchanges warrant
      ([IgRequests.open_sent_once]); a close counts as done, gone or failed exactly
      on what its exchanges show ([IgRequests.close_reported]).
    - Live runner: under every interleaving the orders keep to the caps, the session,
      the volatility gate and the lock ([LiveRunner.runner_orders_capped]), each book
      mirrors a deal of the broker ([LiveRunner.runner_books_mirror]), every routed tick
      is processed, queued or shed ([LiveRunner.runner_accounts]), and a stop processes
      what is queued ([LiveRunner.stop_drains]).
    - Live wiring: the record of an order reads back as the deal
      ([LiveWiring.order_reads_back]) and reaches the worker's feed
      ([LiveWiring.accepted_open_booked]), the gate lets one order through per lifetime
      of the lock ([LiveWiring.gate_grants_once]), and a deal is closed by one market
      order ([LiveWiring.deal_closed_once]).
    - Live start: the runs traded are the best ones that differ from each other
      ([Winners.winners_best]), each of their workers starts with every series it reads
      ([LiveCommand.cached_workers_start]), and the settings can be used whatever the
      environment ([LiveCommand.settings_usable]).
    - Beside it: a book that could not be read changes nothing
      ([PositionSync.unreadable_book_untouched]), of one that could every deal is
      handled once ([PositionSync.every_deal_handled]); a deal's datagram decodes to the
      deal ([DealTracking.deal_packet_exact]), and an update that closes nothing is
      recorded and changes nothing ([DealTracking.update_recorded]).
    - Queues: a payload is handed to one worker at most ([Queue.payload_once]), an
      undisturbed worker empties its queues ([Queue.worker_drains]), a stream
      publishes names only after their payloads ([RedisLoader.stream_publishes]), a
      load advertises only complete runs ([LoadCommand.load_advertises_complete]),
      and every strategy it seeds is one a worker builds.
    - Sweeps: the lazy decoder agrees with the eager expansion.
    - Ticks: the cache serves exactly the window a run asks for and the ladder's
      slices cover the history; time stamps round trip; only the engine's own symbols
      reach a query.
    - Reports: no report is lost, every run queues exactly the documents its outcome
      calls for ([Operations.run_outcome]), and a next window is advertised only when
      it can be claimed ([Operations.next_window_claimable]).
    - Statistics: every trade is counted once and no reported score is a NaN or an
      infinity.

    ** Fuel and bounds

    Recursion is structural on the data or on a count the code's own loop bound
    gives (for instance the number of candidates of a scan).  Where it is not, fuel
    is an argument with a proof that it is enough: the binary searches take the
    length plus one ([SymbolScale.findEntry_linear], [TickCache.lower_bound]), the
    parser twice its input ([JsonParse.parse_chars_outcome]), the eviction loop
    the number of entries, a chunk source one more than its combinations, and a
    linear range, whose loop depends on doubles, returns [None] when its fuel runs
    out, which the sweeps of the repository never do.

    ** What is not modelled

    The thread that prints the live counters, the loop that repeats the position cycle,
    the connection set-up of the Redis library, the process control socket and the
    processes' entry points are input and output around the parts above.  Of the modelled
    modules, console output and [ResultsSummary::summarise] (which only prints) are left
    out.  Of the JSON library, binary formats, pointers, patches, iterators, comments,
    pretty printing and diagnostics are left out: the engine uses none of them on these
    paths. *)
From stdpp Require Export base list gmap strings pretty numbers sorting.
From Stdlib Require Export ZArith Lia.
From Stdlib Require OrdersEx.
Open Scope Z_scope.

(** * Machine integers *)

Declare Scope engine_scope.
Delimit Scope engine_scope with engine.
Open Scope engine_scope.

(** [wrap w z] is the two's complement value of the low [w] bits of [z]. *)
Definition wrap (w z : Z) : Z := (z + 2 ^ (w - 1)) mod 2 ^ w - 2 ^ (w - 1).

Definition i32 (z : Z) : Z := wrap 32 z.
Definition i64 (z : Z) : Z := wrap 64 z.

Definition in_i32 (z : Z) : Prop := -2147483648 <= z <= 2147483647.
Definition in_i64 (z : Z) : Prop := -9223372036854775808 <= z <= 9223372036854775807.

Definition INT32_MIN : Z := -2147483648.
Definition INT32_MAX : Z := 2147483647.
Definition INT64_MAX : Z := 9223372036854775807.

(** [std::int32_t] and [std::int64_t] arithmetic as the code writes it. *)
Notation "a +₃₂ b" := (i32 (a + b)) (at level 50, left associativity) : engine_scope.
Notation "a -₃₂ b" := (i32 (a - b)) (at level 50, left associativity) : engine_scope.
Notation "a *₃₂ b" := (i32 (a * b)) (at level 40, left associativity) : engine_scope.
Notation "a +₆₄ b" := (i64 (a + b)) (at level 50, left associativity) : engine_scope.
Notation "a -₆₄ b" := (i64 (a - b)) (at level 50, left associativity) : engine_scope.
Notation "a *₆₄ b" := (i64 (a * b)) (at level 40, left associativity) : engine_scope.

(** C++ integer division truncates towards zero. *)
Notation "a ÷ b" := (Z.quot a b) (at level 40, left associativity) : engine_scope.

(** * Errors *)

(** The exceptions the modelled code throws, with no payload: the messages are
    for the log only. [JsonError id] is the JSON library's exception with its
    documented number (101 a parse error, 302 and 304 type errors, 403 a
    missing key, ...). [UndefinedRead] is no exception of the code: it marks an
    out-of-range element access, which C++ leaves undefined. *)
Inductive exn : Type :=
| InvalidArgument
| LogicError
| OutOfRange
| RuntimeError
| JsonError (id : Z)
| UnknownStrategyError (name : string)
| UndefinedRead.

Inductive result (A : Type) : Type :=
| Ok (a : A)
| Throw (e : exn).
Arguments Ok {A} a.
Arguments Throw {A} e.

Definition result_bind {A B : Type} (m : result A) (k : A -> result B) : result B :=
  match m with Ok a => k a | Throw e => Throw e end.

Notation "x <~ m ; k" := (result_bind m (fun x => k))
  (at level 60, m at next level, right associativity) : engine_scope.
Notation "' p <~ m ; k" := (result_bind m (fun x => match x with p => k end))
  (at level 60, p pattern, m at next level, right associativity) : engine_scope.

(** * Spans and vectors *)

(** [std::span(l).last(n)] and the front-erasing idiom
    [v.erase(v.begin(), v.end() - n)] on a vector no shorter than [n]. *)
Definition last_n {A : Type} (n : nat) (l : list A) : list A := drop (length l - n) l.

(** [l.first(l.size() - 1)]: everything but the last element. *)
Definition but_last {A : Type} (l : list A) : list A := take (length l - 1) l.

(** Replaces the last element ([v.back() = f(v.back())]). *)
Definition update_last {A : Type} (f : A -> A) (l : list A) : list A :=
  match last l with
  | Some x => but_last l ++ [f x]
  | None => l
  end.

Definition sum_list_Z (l : list Z) : Z := foldr Z.add 0 l.

(** * Sorted string tables *)

(** The binary search every [kTable] of the code uses: [lo, hi) is the
    half-open range still in play. *)
Section TableSearch.
Context {E : Type} (key : E -> string).

Fixpoint table_search_from (fuel : nat) (table : list E) (symbol : string)
    (lo hi : nat) : option E :=
  match fuel with
  | O => None
  | S fuel' =>
      if (lo <? hi)%nat then
        let mid := (lo + Nat.div2 (hi - lo))%nat in
        match table !! mid with
        | None => None
        | Some entry =>
            if String.ltb (key entry) symbol
            then table_search_from fuel' table symbol (mid + 1) hi
            else if String.ltb symbol (key entry)
            then table_search_from fuel' table symbol lo mid
            else Some entry
        end
      else None
  end.

Definition table_search (table : list E) (symbol : string) : option E :=
  table_search_from (S (length table)) table symbol 0 (length table).

(** The compile-time check beside every table. *)
Fixpoint table_sorted (table : list E) : bool :=
  match table with
  | [] => true
  | e :: rest =>
      match rest with
      | [] => true
      | e' :: _ => String.ltb (key e) (key e') && table_sorted rest
      end
  end.
End TableSearch.

(** * Lemmas: machine integers *)

Lemma wrap_id w z : 0 < w -> - 2 ^ (w - 1) <= z < 2 ^ (w - 1) -> wrap w z = z.
Proof.
  intros Hw Hz. unfold wrap.
  assert (2 ^ w = 2 * 2 ^ (w - 1)) by (rewrite <- Z.pow_succ_r by lia; f_equal; lia).
  rewrite Z.mod_small; lia.
Qed.

Lemma i32_id z : in_i32 z -> i32 z = z.
Proof. unfold in_i32. intros. apply wrap_id; lia. Qed.

Lemma i64_id z : in_i64 z -> i64 z = z.
Proof. unfold in_i64. intros. apply wrap_id; lia. Qed.

Lemma i32_range z : in_i32 (i32 z).
Proof.
  unfold in_i32, i32, wrap. pose proof (Z.mod_pos_bound (z + 2 ^ (32 - 1)) (2 ^ 32)). lia.
Qed.

Lemma i64_range z : in_i64 (i64 z).
Proof.
  unfold in_i64, i64, wrap. pose proof (Z.mod_pos_bound (z + 2 ^ (64 - 1)) (2 ^ 64)). lia.
Qed.

Lemma i32_product a b : in_i32 a -> in_i32 b -> in_i64 (a * b).
Proof.
  unfold in_i32, in_i64. intros Ha Hb.
  assert (Z.abs a * Z.abs b <= 2147483648 * 2147483648) as H
    by (apply Z.mul_le_mono_nonneg; lia).
  rewrite <- Z.abs_mul in H. lia.
Qed.

(** Equality modulo [2^64], the relation that 64-bit running sums respect. *)
Definition eq64 (a b : Z) : Prop := i64 a = i64 b.

#[export] Instance eq64_equivalence : Equivalence eq64.
Proof. unfold eq64. split; congruence. Qed.

Lemma eq64_mod a b : eq64 a b <-> a mod 2 ^ 64 = b mod 2 ^ 64.
Proof.
  unfold eq64, i64, wrap. split; intros H.
  - replace a with ((a + 2 ^ (64 - 1)) - 2 ^ (64 - 1)) by lia.
    replace b with ((b + 2 ^ (64 - 1)) - 2 ^ (64 - 1)) by lia.
    rewrite Zminus_mod, (Zminus_mod (b + _)).
    f_equal. f_equal. lia.
  - f_equal. rewrite Zplus_mod, (Zplus_mod b), H. reflexivity.
Qed.

#[export] Instance eq64_add : Proper (eq64 ==> eq64 ==> eq64) Z.add.
Proof.
  intros a a' Ha b b' Hb. apply eq64_mod in Ha, Hb. apply eq64_mod.
  rewrite Zplus_mod, Ha, Hb, <- Zplus_mod. reflexivity.
Qed.

#[export] Instance eq64_sub : Proper (eq64 ==> eq64 ==> eq64) Z.sub.
Proof.
  intros a a' Ha b b' Hb. apply eq64_mod in Ha, Hb. apply eq64_mod.
  rewrite Zminus_mod, Ha, Hb, <- Zminus_mod. reflexivity.
Qed.

#[export] Instance eq64_mul : Proper (eq64 ==> eq64 ==> eq64) Z.mul.
Proof.
  intros a a' Ha b b' Hb. apply eq64_mod in Ha, Hb. apply eq64_mod.
  rewrite Zmult_mod, Ha, Hb, <- Zmult_mod. reflexivity.
Qed.

#[export] Instance i64_eq64 : Proper (eq64 ==> eq) i64.
Proof. intros a b H. exact H. Qed.

Lemma eq64_i64 a : eq64 (i64 a) a.
Proof. unfold eq64. apply i64_id, i64_range. Qed.

Lemma eq64_id a b : eq64 a b -> in_i64 a -> in_i64 b -> a = b.
Proof. unfold eq64. intros H Ha Hb. now rewrite !i64_id in H. Qed.

Create HintDb engine.
#[export] Hint Rewrite i32_id i64_id using (unfold in_i32, in_i64 in *; lia) : engine.
#[export] Hint Resolve i32_range i64_range : engine.

(** Linear arithmetic that sees through the width predicates. *)
Ltac ilia := unfold in_i32, in_i64, INT32_MIN, INT32_MAX, INT64_MAX in *; lia.

(** Drops every wrap whose argument is provably in range. *)
Ltac unwrap :=
  repeat match goal with
  | |- context [i32 ?z] => rewrite (i32_id z) by ilia
  | |- context [i64 ?z] => rewrite (i64_id z) by ilia
  end.
Ltac unwrap_in H :=
  repeat match type of H with
  | context [i32 ?z] => rewrite (i32_id z) in H by ilia
  | context [i64 ?z] => rewrite (i64_id z) in H by ilia
  end.

(** Turns the boolean tests of the code into propositions. *)
Ltac zbool :=
  repeat first
    [ rewrite Z.ltb_lt in * | rewrite Z.leb_le in * | rewrite Z.eqb_eq in *
    | rewrite Z.ltb_ge in * | rewrite Z.leb_gt in * | rewrite Z.eqb_neq in *
    | rewrite Nat.ltb_lt in * | rewrite Nat.leb_le in * | rewrite Nat.eqb_eq in *
    | rewrite Nat.ltb_ge in * | rewrite Nat.leb_gt in * | rewrite Nat.eqb_neq in *
    | rewrite Z.gtb_ltb in * | rewrite Z.geb_leb in *
    | rewrite andb_true_iff in * | rewrite andb_false_iff in *
    | rewrite orb_true_iff in * | rewrite orb_false_iff in *
    | rewrite negb_true_iff in * | rewrite negb_false_iff in * ].

(** Splits the first test or match the goal is stuck on, keeping its equation. *)
Ltac split_test :=
  match goal with
  | |- context [if ?b then _ else _] =>
      lazymatch b with
      | context [if _ then _ else _] => fail
      | context [match _ with _ => _ end] => fail
      | _ => let E := fresh "E" in destruct b eqn:E
      end
  end.

(** * Lemmas: lists *)

Section Lists.
Context {A : Type}.
Implicit Types (l : list A).

Lemma last_n_length n l : length (last_n n l) = Nat.min n (length l).
Proof. unfold last_n. rewrite length_drop. lia. Qed.

Lemma last_n_all n l : (length l <= n)%nat -> last_n n l = l.
Proof. intros. unfold last_n. now replace (length l - n)%nat with 0%nat by lia. Qed.

Lemma last_n_app n l1 l2 :
  (n <= length l2)%nat -> last_n n (l1 ++ l2) = last_n n l2.
Proof.
  intros. unfold last_n. rewrite length_app, drop_app_ge by lia. f_equal. lia.
Qed.

Lemma last_n_last_n n m l : (n <= m)%nat -> last_n n (last_n m l) = last_n n l.
Proof.
  intros. unfold last_n at 1 3. rewrite last_n_length. unfold last_n.
  rewrite drop_drop. f_equal. lia.
Qed.

Lemma last_n_suffix n l : last_n n l `suffix_of` l.
Proof.
  exists (take (length l - n) l). unfold last_n. now rewrite take_drop.
Qed.

Lemma last_last_n n l : (0 < n)%nat -> last (last_n n l) = last l.
Proof.
  intros. destruct l as [|x l] using rev_ind; [now rewrite last_n_all by (simpl; lia)|].
  unfold last_n. rewrite length_app, drop_app_le by (simpl; lia).
  now rewrite !last_snoc.
Qed.

Lemma but_last_snoc l x : but_last (l ++ [x]) = l.
Proof.
  unfold but_last. rewrite length_app. simpl.
  rewrite take_app_le by lia. rewrite firstn_all2; [done|lia].
Qed.

Lemma update_last_snoc f l x : update_last f (l ++ [x]) = l ++ [f x].
Proof. unfold update_last. now rewrite last_snoc, but_last_snoc. Qed.

Lemma update_last_length f l : length (update_last f l) = length l.
Proof.
  destruct l as [|x l] using rev_ind; [done|].
  rewrite update_last_snoc, !length_app. done.
Qed.

Lemma filter_permutation (p : A -> bool) l l' :
  l ≡ₚ l' -> List.filter p l ≡ₚ List.filter p l'.
Proof.
  induction 1 as [|x l l' H IH|x y l|l1 l2 l3 _ IH1 _ IH2]; simpl; [done| | |etrans; eauto].
  - destruct (p x); [now constructor|done].
  - destruct (p x), (p y); try done. constructor.
Qed.

Lemma app_two l x y : l ++ [x; y] = (l ++ [x]) ++ [y].
Proof. now rewrite <- app_assoc. Qed.

Lemma snoc_cases l : l = [] \/ exists l' x, l = l' ++ [x].
Proof. destruct l using rev_ind; eauto. Qed.
End Lists.

Lemma sum_list_Z_app l1 l2 : sum_list_Z (l1 ++ l2) = sum_list_Z l1 + sum_list_Z l2.
Proof. unfold sum_list_Z. induction l1; simpl; lia. Qed.

Lemma sum_list_Z_bound lo hi l :
  Forall (fun z => lo <= z <= hi) l ->
  lo * Z.of_nat (length l) <= sum_list_Z l <= hi * Z.of_nat (length l).
Proof.
  induction 1; cbn [sum_list_Z foldr length]; [lia|].
  fold (sum_list_Z l). rewrite Nat2Z.inj_succ. nia.
Qed.

(** * Lemmas: sorted string tables *)

Lemma string_ltb_lt s t : String.ltb s t = true <-> OrdersEx.String_as_OT.lt s t.
Proof.
  unfold String.ltb, OrdersEx.String_as_OT.lt.
  change (OrdersEx.String_as_OT.compare s t) with (String.compare s t).
  destruct (String.compare s t); split; congruence.
Qed.

Lemma string_ltb_irrefl s : String.ltb s s = false.
Proof.
  apply not_true_is_false. rewrite string_ltb_lt. apply StrictOrder_Irreflexive.
Qed.

Lemma string_ltb_trans s t u :
  String.ltb s t = true -> String.ltb t u = true -> String.ltb s u = true.
Proof. rewrite !string_ltb_lt. apply StrictOrder_Transitive. Qed.

Lemma string_ltb_total s t :
  String.ltb s t = false -> String.ltb t s = false -> s = t.
Proof.
  unfold String.ltb. rewrite (String.compare_antisym t s).
  destruct (String.compare s t) eqn:E; simpl; try congruence.
  intros _ _. now apply String.compare_eq_iff.
Qed.

Section TableSearchFacts.
Context {E : Type} (key : E -> string).
Implicit Types (table : list E) (symbol : string).

Lemma table_sorted_cons e table :
  table_sorted key (e :: table) = true ->
  table_sorted key table = true /\
  Forall (fun e' => String.ltb (key e) (key e') = true) table.
Proof.
  revert e. induction table as [|e' table IH]; intros e H; [done|].
  cbn [table_sorted] in H. apply andb_true_iff in H as [Hlt H].
  destruct (IH e' H) as [_ Hall]. split; [done|].
  constructor; [done|]. eapply Forall_impl; [exact Hall|].
  intros x Hx. eapply string_ltb_trans; eauto.
Qed.

Lemma table_sorted_lookup table i j e e' :
  table_sorted key table = true -> (i < j)%nat ->
  table !! i = Some e -> table !! j = Some e' ->
  String.ltb (key e) (key e') = true.
Proof.
  revert i j. induction table as [|x table IH]; intros i j Hs Hij Hi Hj; [done|].
  apply table_sorted_cons in Hs as [Hs Hall].
  destruct j as [|j]; [lia|]. destruct i as [|i]; simpl in *.
  - injection Hi as ->. rewrite Forall_lookup in Hall. eauto.
  - apply (IH i j); auto. lia.
Qed.

(** The loop invariant: whatever carries the symbol lies in [lo, hi). *)
Lemma table_search_from_spec table symbol fuel lo hi :
  table_sorted key table = true -> (hi <= length table)%nat ->
  (hi - lo < 2 ^ fuel)%nat ->
  (forall i e, table !! i = Some e -> key e = symbol -> (lo <= i < hi)%nat) ->
  match table_search_from key fuel table symbol lo hi with
  | Some e => e ∈ table /\ key e = symbol
  | None => forall e, e ∈ table -> key e <> symbol
  end.
Proof.
  intros Hs. revert lo hi. induction fuel as [|fuel IH]; intros lo hi Hhi Hf Hin; simpl.
  { intros e [i Hi]%list_elem_of_lookup Hk. specialize (Hin i e Hi Hk).
    simpl in Hf. lia. }
  destruct (Nat.ltb_spec lo hi) as [Hlt|Hge].
  2: { intros e [i Hi]%list_elem_of_lookup Hk. specialize (Hin i e Hi Hk). lia. }
  pose proof (Nat.div2_odd (hi - lo)) as Hodd.
  set (half := Nat.div2 (hi - lo)) in *.
  assert (Nat.b2n (Nat.odd (hi - lo)) <= 1)%nat by (destruct Nat.odd; simpl; lia).
  cbn [Nat.pow] in Hf.
  destruct (lookup_lt_is_Some_2 table (lo + half)%nat) as [e He]; [lia|].
  rewrite He.
  destruct (String.ltb (key e) symbol) eqn:E1; [|destruct (String.ltb symbol (key e)) eqn:E2].
  - apply IH; [lia|lia|]. intros i e' Hi Hk. specialize (Hin i e' Hi Hk) as Hr.
    assert (~ (i < lo + half)%nat /\ i <> (lo + half)%nat); [|lia]. split.
    + intros Hlt'. pose proof (table_sorted_lookup table i _ _ _ Hs Hlt' Hi He) as Hlt2.
      rewrite Hk in Hlt2. pose proof (string_ltb_trans _ _ _ E1 Hlt2) as Hc.
      now rewrite string_ltb_irrefl in Hc.
    + intros ->. rewrite Hi in He. injection He as ->.
      rewrite Hk in E1. now rewrite string_ltb_irrefl in E1.
  - apply IH; [lia|lia|]. intros i e' Hi Hk. specialize (Hin i e' Hi Hk) as Hr.
    assert (~ (lo + half < i)%nat /\ i <> (lo + half)%nat); [|lia]. split.
    + intros Hlt'. pose proof (table_sorted_lookup table _ i _ _ Hs Hlt' He Hi) as Hlt2.
      rewrite Hk in Hlt2. pose proof (string_ltb_trans _ _ _ E2 Hlt2) as Hc.
      now rewrite string_ltb_irrefl in Hc.
    + intros ->. rewrite Hi in He. injection He as ->.
      rewrite Hk in E2. now rewrite string_ltb_irrefl in E2.
  - split; [now apply list_elem_of_lookup_2 in He|].
    now apply string_ltb_total.
Qed.

Lemma table_sorted_inj table e e' :
  table_sorted key table = true -> e ∈ table -> e' ∈ table -> key e = key e' -> e = e'.
Proof.
  intros Hs [i Hi]%list_elem_of_lookup [j Hj]%list_elem_of_lookup Hk.
  destruct (Nat.lt_trichotomy i j) as [H|[->|H]]; [| congruence |].
  all: eapply table_sorted_lookup in H; eauto;
    rewrite Hk in H; now rewrite string_ltb_irrefl in H.
Qed.

(** With [2^fuel] above the table's size the search is the linear lookup. *)
Lemma table_search_from_find table symbol fuel :
  table_sorted key table = true -> (length table < 2 ^ fuel)%nat ->
  table_search_from key fuel table symbol 0 (length table) =
  List.find (fun e => String.eqb (key e) symbol) table.
Proof.
  intros Hs Hf.
  pose proof (table_search_from_spec table symbol fuel 0 (length table) Hs) as H.
  specialize (H ltac:(lia) ltac:(lia)).
  assert (forall i e, table !! i = Some e -> key e = symbol -> (0 <= i < length table)%nat)
    as Hin by (intros i e Hi _; apply lookup_lt_Some in Hi; lia).
  specialize (H Hin). clear Hin.
  destruct (table_search_from _ _ _ _ _ _) as [e|];
    destruct (List.find _ table) as [e'|] eqn:Hfind.
  - apply List.find_some in Hfind as [Hin Heq]. apply String.eqb_eq in Heq.
    destruct H as [He Hk]. f_equal. eapply table_sorted_inj; eauto; [|congruence].
    now apply list_elem_of_In.
  - destruct H as [He Hk]. eapply List.find_none in Hfind;
      [|apply list_elem_of_In, He]. now rewrite Hk, String.eqb_refl in Hfind.
  - apply List.find_some in Hfind as [Hin Heq]. apply String.eqb_eq in Heq.
    exfalso. eapply H; eauto. now apply list_elem_of_In.
  - done.
Qed.

Lemma table_search_find table symbol :
  table_sorted key table = true ->
  table_search key table symbol =
  List.find (fun e => String.eqb (key e) symbol) table.
Proof.
  intros Hs. apply table_search_from_find; [done|].
  pose proof (Nat.pow_gt_lin_r 2 (S (length table))). lia.
Qed.
End TableSearchFacts.
