(* ===== verification/Models.v ===== *)
(** The records shared by every component: one tick ([PriceData]), one bar
    ([OhlcObject]) and the trade direction.

    Prices are the engine's scaled [int32] points, kept as [Z]. A time point is
    [system_clock]'s count of microseconds since the Unix epoch, the period of
    the C++ library the build selects; durations are microseconds too. *)
From S2P Require Import Prelude.

Inductive Direction : Type := LONG | SHORT.

#[export] Instance direction_eq_dec : EqDecision Direction.
Proof. solve_decision. Defined.

Record PriceData : Type := mkPriceData {
  ask : Z;
  bid : Z;
  timestamp : Z;
  symbol : string;
}.

Record OhlcObject : Type := mkOhlcObject {
  date : Z;
  open : Z;
  close : Z;
  high : Z;
  low : Z;
  complete : bool;
}.

#[export] Instance ohlc_eq_dec : EqDecision OhlcObject.
Proof. solve_decision. Defined.

(** The member initialisers of [OhlcObject]. *)
Definition defaultOhlcObject : OhlcObject :=
  mkOhlcObject 0 0 0 INT32_MIN INT32_MAX false.

(** The price range the engine documents: the largest scaled price sits around
    4.5 million points, below [2^23]. *)
Definition price_ok (p : Z) : Prop := 0 <= p < 8388608.

Definition tick_ok (t : PriceData) : Prop := price_ok (ask t) /\ price_ok (bid t).

(** std::chrono durations in microseconds. *)
Definition seconds (n : Z) : Z := n * 1000000.
Definition minutes (n : Z) : Z := n * 60000000.
Definition hours (n : Z) : Z := n * 3600000000.
Definition days (n : Z) : Z := n * 86400000000.

(** A bar whose prices are in range and whose extremes enclose its open and
    close. *)
Definition bar_ok (b : OhlcObject) : Prop :=
  price_ok (low b) /\ price_ok (high b) /\
  low b <= open b <= high b /\ low b <= close b <= high b.
