(* ===== verification/SymbolScale.v ===== *)
(** symbolScale.cppm: the sorted symbol table, its binary search, and the two
    scales read from it. *)
From S2P Require Import Prelude.

Record Entry : Type := mkEntry { entry_symbol : string; scale : Z; priceScale : Z }.

Definition kTable : list Entry :=
  [ mkEntry "AUDNZD"          10  100000;
    mkEntry "AUDUSD"          10  100000;
    mkEntry "AUSIDXAUD"      100     100;
    mkEntry "BRENTCMDUSD"    100     100;
    mkEntry "COPPERCMDUSD"   100     100;
    mkEntry "DEUIDXEUR"      100     100;
    mkEntry "EURAUD"          10  100000;
    mkEntry "EURCHF"          10  100000;
    mkEntry "EURGBP"          10  100000;
    mkEntry "EURJPY"          10    1000;
    mkEntry "EURNOK"          10  100000;
    mkEntry "EURUSD"          10  100000;
    mkEntry "FRAIDXEUR"      100     100;
    mkEntry "GBPJPY"          10    1000;
    mkEntry "GBPUSD"          10  100000;
    mkEntry "GBRIDXGBP"      100     100;
    mkEntry "HKGIDXHKD"      100     100;
    mkEntry "JPNIDXJPY"      100     100;
    mkEntry "LIGHTCMDUSD"    100     100;
    mkEntry "NZDUSD"          10  100000;
    mkEntry "USA30IDXUSD"    100     100;
    mkEntry "USA500IDXUSD"   100     100;
    mkEntry "USATECHIDXUSD"  100     100;
    mkEntry "USDCAD"          10  100000;
    mkEntry "USDCHF"          10  100000;
    mkEntry "USDJPY"          10    1000;
    mkEntry "USDSEK"          10  100000;
    mkEntry "XAGUSD"        1000    1000;
    mkEntry "XAUUSD"        1000    1000 ]%string.

Definition kUnknown : Z := 0.

Definition findEntry (symbol : string) : option Entry :=
  table_search entry_symbol kTable symbol.

Definition get (symbol : string) : Z :=
  match findEntry symbol with Some entry => scale entry | None => kUnknown end.

Definition getPriceScale (symbol : string) : Z :=
  match findEntry symbol with Some entry => priceScale entry | None => kUnknown end.

(** The [static_assert] under the table. *)
Lemma scale_table_sorted : table_sorted entry_symbol kTable = true.
Proof. vm_compute. reflexivity. Qed.

Lemma findEntry_find s :
  findEntry s = List.find (fun e => String.eqb (entry_symbol e) s) kTable.
Proof. apply table_search_find, scale_table_sorted. Qed.

Lemma findEntry_in s e : findEntry s = Some e -> e ∈ kTable /\ entry_symbol e = s.
Proof.
  rewrite findEntry_find. intros [Hin Heq]%List.find_some.
  split; [now apply list_elem_of_In | now apply String.eqb_eq].
Qed.

(** Every scale in the table is a multiple of ten, at most a thousand. *)
Lemma get_cases s : get s = 0 \/ get s = 10 \/ get s = 100 \/ get s = 1000.
Proof.
  unfold get. destruct (findEntry s) as [e|] eqn:E; [|auto].
  apply findEntry_in in E as [Hin _].
  assert (forallb (fun e => (scale e =? 10) || (scale e =? 100) || (scale e =? 1000))%bool
    kTable = true) as Hall by (vm_compute; reflexivity).
  rewrite forallb_forall in Hall. apply list_elem_of_In in Hin.
  specialize (Hall e Hin). zbool. tauto.
Qed.

(** The binary search over the symbol table returns exactly what a linear
    scan of the table returns, for every symbol, known or not, and five probes
    are enough (a fuel of five gives the same answer), as the comment on the
    loop says. *)
Theorem findEntry_linear (s : string) :
  findEntry s = List.find (fun e => String.eqb (entry_symbol e) s) kTable /\
  table_search_from entry_symbol 5 kTable s 0 (length kTable) = findEntry s.
Proof.
  rewrite findEntry_find. split; [done|].
  apply table_search_from_find; [apply scale_table_sorted|vm_compute; lia].
Qed.
