(* ===== verification/Chrono.v ===== *)
(** The part of [std::chrono]'s calendar the engine uses: days since the epoch,
    weekdays, the proleptic Gregorian calendar in both directions, and the two
    weekday-in-month forms ([Sunday[last]], [Sunday[n]]). *)
From S2P Require Import Prelude Models.

Definition day_length : Z := 86400000000.

(** [floor<days>(tp)], as a count of days since 1970-01-01. *)
Definition floor_days (tp : Z) : Z := tp / day_length.

(** [weekday{day}] with [c_encoding]: Sunday is 0. 1970-01-01 was a Thursday. *)
Definition weekday (day : Z) : Z := (day + 4) mod 7.
Definition Sunday : Z := 0.
Definition Monday : Z := 1.
Definition Friday : Z := 5.

(** [sys_days{year/month/day}]. Years are counted from March, so that the leap
    day comes last; the division is the floor division. *)
Definition days_from_civil (y m d : Z) : Z :=
  let y' := if m <=? 2 then y - 1 else y in
  let mp := (m + 9) mod 12 in
  365 * y' + y' / 4 - y' / 100 + y' / 400 + (153 * mp + 2) / 5 + d - 1 - 719468.

(** [year_month_day{day}]. *)
Definition civil_from_days (day : Z) : Z * Z * Z :=
  let z := day + 719468 in
  let era := z / 146097 in
  let doe := z mod 146097 in
  let yoe := (doe - doe / 1460 + doe / 36524 - doe / 146096) / 365 in
  let doy := doe - (365 * yoe + yoe / 4 - yoe / 100) in
  let mp := (5 * doy + 2) / 153 in
  let d := doy - (153 * mp + 2) / 5 + 1 in
  let m := if mp <? 10 then mp + 3 else mp - 9 in
  let y := yoe + era * 400 in
  (if m <=? 2 then y + 1 else y, m, d).

Definition year_of (day : Z) : Z := (civil_from_days day).1.1.
Definition month_of (day : Z) : Z := (civil_from_days day).1.2.

Definition last_day_of_month (y m : Z) : Z :=
  if m =? 12 then days_from_civil (y + 1) 1 1 - 1 else days_from_civil y (m + 1) 1 - 1.

(** [sys_days{year_month_weekday_last{y, m, wd[last]}}]. *)
Definition weekday_last (y m wd : Z) : Z :=
  let d := last_day_of_month y m in
  d - (weekday d - wd) mod 7.

(** [sys_days{year_month_weekday{y, m, wd[n]}}]. *)
Definition weekday_nth (y m wd n : Z) : Z :=
  let d := days_from_civil y m 1 in
  d + (wd - weekday d) mod 7 + 7 * (n - 1).

(** * Facts *)

Lemma weekday_sub_self d wd :
  0 <= wd < 7 -> weekday (d - (weekday d - wd) mod 7) = wd.
Proof.
  intros. unfold weekday. Z.div_mod_to_equations. lia.
Qed.

Lemma weekday_add_self d wd n :
  0 <= wd < 7 -> weekday (d + (wd - weekday d) mod 7 + 7 * (n - 1)) = wd.
Proof.
  intros. unfold weekday. Z.div_mod_to_equations. lia.
Qed.

Lemma weekday_last_is y m wd : 0 <= wd < 7 -> weekday (weekday_last y m wd) = wd.
Proof. apply weekday_sub_self. Qed.

Lemma weekday_nth_is y m wd n : 0 <= wd < 7 -> weekday (weekday_nth y m wd n) = wd.
Proof. apply weekday_add_self. Qed.

(** The last [wd] of a month lies in its last seven days. *)
Lemma weekday_last_range y m wd :
  last_day_of_month y m - 6 <= weekday_last y m wd <= last_day_of_month y m.
Proof.
  unfold weekday_last.
  pose proof (Z.mod_pos_bound (weekday (last_day_of_month y m) - wd) 7). lia.
Qed.

Lemma floor_days_bounds tp :
  floor_days tp * day_length <= tp < (floor_days tp + 1) * day_length.
Proof. unfold floor_days, day_length. Z.div_mod_to_equations. lia. Qed.

(** ** The calendar round trip *)

Lemma year_of_era_ok doe :
  0 <= doe < 146097 ->
  let yoe := (doe - doe / 1460 + doe / 36524 - doe / 146096) / 365 in
  0 <= yoe <= 399 /\ 0 <= doe - (365 * yoe + yoe / 4 - yoe / 100) <= 365.
Proof.
  intros H. cbv zeta.
  assert (doe / 146096 = 0 \/ doe / 146096 = 1) as [E|E] by (Z.div_mod_to_equations; lia);
  assert (doe / 36524 = 0 \/ doe / 36524 = 1 \/ doe / 36524 = 2 \/ doe / 36524 = 3 \/
          doe / 36524 = 4) as F by (Z.div_mod_to_equations; lia).
  all: destruct F as [F|[F|[F|[F|F]]]]; rewrite E, F; Z.div_mod_to_equations; lia.
Qed.

Lemma month_day_ok doy :
  0 <= doy <= 365 ->
  let mp := (5 * doy + 2) / 153 in
  0 <= mp <= 11 /\ 1 <= doy - (153 * mp + 2) / 5 + 1 <= 31.
Proof. intros H. cbv zeta. Z.div_mod_to_equations. lia. Qed.

(** [days_from_civil] in terms of the March-based year and month. *)
Lemma days_from_civil_march era yoe mp d :
  0 <= yoe <= 399 -> 0 <= mp <= 11 ->
  let m := if mp <? 10 then mp + 3 else mp - 9 in
  let y := yoe + era * 400 in
  days_from_civil (if m <=? 2 then y + 1 else y) m d =
  146097 * era + 365 * yoe + yoe / 4 - yoe / 100 + (153 * mp + 2) / 5 + d - 1 - 719468.
Proof.
  intros Hy Hm. cbv zeta. unfold days_from_civil.
  destruct (Z.ltb_spec mp 10) as [H|H].
  - rewrite (proj2 (Z.leb_gt (mp + 3) 2)) by lia.
    replace (mp + 3 + 9) with (mp + 1 * 12) by lia. rewrite Z.mod_add, Z.mod_small by lia.
    generalize ((153 * mp + 2) / 5) as days_before. intros. Z.div_mod_to_equations. lia.
  - rewrite (proj2 (Z.leb_le (mp - 9) 2)) by lia.
    replace (mp - 9 + 9) with mp by lia. rewrite Z.mod_small by lia.
    replace (yoe + era * 400 + 1 - 1) with (yoe + era * 400) by lia.
    generalize ((153 * mp + 2) / 5) as days_before. intros. Z.div_mod_to_equations. lia.
Qed.

Lemma civil_round_trip day :
  let '(y, m, d) := civil_from_days day in
  days_from_civil y m d = day /\ 1 <= m <= 12 /\ 1 <= d <= 31.
Proof.
  unfold civil_from_days.
  pose proof (Z.mod_pos_bound (day + 719468) 146097 ltac:(lia)) as Hdoe.
  pose proof (Z.div_mod (day + 719468) 146097 ltac:(lia)) as Hday.
  revert Hdoe Hday. generalize ((day + 719468) mod 146097) as doe.
  generalize ((day + 719468) / 146097) as era. intros era doe Hdoe Hday.
  pose proof (year_of_era_ok doe Hdoe) as [Hyoe Hdoy]. cbv zeta in *.
  revert Hyoe Hdoy.
  generalize ((doe - doe / 1460 + doe / 36524 - doe / 146096) / 365) as yoe.
  intros yoe Hyoe Hdoy.
  remember (doe - (365 * yoe + yoe / 4 - yoe / 100)) as doy eqn:Edoy.
  pose proof (month_day_ok doy Hdoy) as [Hmp Hd]. cbv zeta in *.
  rewrite days_from_civil_march by done.
  split; [lia|]. split; [|lia].
  destruct (Z.ltb_spec ((5 * doy + 2) / 153) 10); lia.
Qed.
