(* ===== verification/MarketHours.v ===== *)
(** marketHours.cppm: the peak-market-hours entry filter. *)
From S2P Require Import Prelude Models Chrono.
From S2P Require SymbolScale.

Inductive Session : Type := Asia | Europe | NewYork | Unknown.

#[export] Instance session_eq_dec : EqDecision Session.
Proof. solve_decision. Defined.

Record Entry : Type := mkEntry { entry_symbol : string; session : Session }.

Definition kTable : list Entry :=
  [ mkEntry "AUDNZD" Asia;
    mkEntry "AUDUSD" Asia;
    mkEntry "AUSIDXAUD" Asia;
    mkEntry "BRENTCMDUSD" NewYork;
    mkEntry "COPPERCMDUSD" NewYork;
    mkEntry "DEUIDXEUR" Europe;
    mkEntry "EURAUD" Asia;
    mkEntry "EURCHF" Europe;
    mkEntry "EURGBP" Europe;
    mkEntry "EURJPY" Asia;
    mkEntry "EURNOK" Europe;
    mkEntry "EURUSD" Europe;
    mkEntry "FRAIDXEUR" Europe;
    mkEntry "GBPJPY" Asia;
    mkEntry "GBPUSD" Europe;
    mkEntry "GBRIDXGBP" Europe;
    mkEntry "HKGIDXHKD" Asia;
    mkEntry "JPNIDXJPY" Asia;
    mkEntry "LIGHTCMDUSD" NewYork;
    mkEntry "NZDUSD" Asia;
    mkEntry "USA30IDXUSD" NewYork;
    mkEntry "USA500IDXUSD" NewYork;
    mkEntry "USATECHIDXUSD" NewYork;
    mkEntry "USDCAD" NewYork;
    mkEntry "USDCHF" Europe;
    mkEntry "USDJPY" Asia;
    mkEntry "USDSEK" Europe;
    mkEntry "XAGUSD" NewYork;
    mkEntry "XAUUSD" NewYork ]%string.

Definition sessionFor (symbol : string) : Session :=
  match table_search entry_symbol kTable symbol with
  | Some entry => session entry
  | None => Unknown
  end.

(** BST: [last Sunday of March, last Sunday of October), by whole days. *)
Definition isLondonSummer (day : Z) : bool :=
  let y := year_of day in
  let start := weekday_last y 3 Sunday in
  let stop := weekday_last y 10 Sunday in
  (start <=? day) && (day <? stop).

(** EDT: [second Sunday of March, first Sunday of November), by whole days. *)
Definition isNewYorkSummer (day : Z) : bool :=
  let y := year_of day in
  let start := weekday_nth y 3 Sunday 2 in
  let stop := weekday_nth y 11 Sunday 1 in
  (start <=? day) && (day <? stop).

Definition tradePermitted (symbol : string) (utcTimestamp : Z) : bool :=
  let day := floor_days utcTimestamp in
  let dow := weekday day in
  let sinceMidnight := utcTimestamp - day * day_length in
  if dow =? Sunday then false
  else if (dow =? Friday) && (hours 16 <=? sinceMidnight) then false
  else if (dow =? Monday) && (sinceMidnight <? hours 2) then false
  else
    match sessionFor symbol with
    | Asia => sinceMidnight <? hours 6
    | Europe =>
        let opening := if isLondonSummer day then hours 7 else hours 8 in
        (opening <=? sinceMidnight) && (sinceMidnight <? opening + hours 3)
    | NewYork =>
        let opening := (if isNewYorkSummer day then hours 13 else hours 14) + minutes 30 in
        (opening <=? sinceMidnight) && (sinceMidnight <? opening + hours 3)
    | Unknown => false
    end.

(** ** Reference: the clocks to the second

    London moves its clocks at 01:00 UTC on both transition days; New York at
    02:00 local time, which is 07:00 UTC in March and 06:00 UTC in November. *)

Definition london_summer_at (ts : Z) : bool :=
  let y := year_of (floor_days ts) in
  (weekday_last y 3 Sunday * day_length + hours 1 <=? ts) &&
  (ts <? weekday_last y 10 Sunday * day_length + hours 1).

Definition new_york_summer_at (ts : Z) : bool :=
  let y := year_of (floor_days ts) in
  (weekday_nth y 3 Sunday 2 * day_length + hours 7 <=? ts) &&
  (ts <? weekday_nth y 11 Sunday 1 * day_length + hours 6).

(** The trading week and the session window, stated on the exact clocks. *)
Definition in_trading_week (ts : Z) : Prop :=
  let dow := weekday (floor_days ts) in
  let time := ts mod day_length in
  dow <> Sunday /\ ~ (dow = Friday /\ hours 16 <= time) /\ ~ (dow = Monday /\ time < hours 2).

Definition in_peak_window (s : Session) (ts : Z) : Prop :=
  let time := ts mod day_length in
  match s with
  | Asia => time < hours 6
  | Europe =>
      let opening := if london_summer_at ts then hours 7 else hours 8 in
      opening <= time < opening + hours 3
  | NewYork =>
      let opening := if new_york_summer_at ts
                     then hours 13 + minutes 30 else hours 14 + minutes 30 in
      opening <= time < opening + hours 3
  | Unknown => False
  end.

(** * Facts *)

Lemma session_table_sorted : table_sorted entry_symbol kTable = true.
Proof. vm_compute. reflexivity. Qed.

Lemma same_universe : map entry_symbol kTable = map SymbolScale.entry_symbol SymbolScale.kTable.
Proof. reflexivity. Qed.

(** A day that is not a Sunday sees no clock change, so the whole-day test and
    the exact test agree on it. *)
Lemma day_range_exact start stop h1 h2 ts :
  weekday start = Sunday -> weekday stop = Sunday ->
  weekday (floor_days ts) <> Sunday ->
  0 <= h1 < day_length -> 0 <= h2 < day_length ->
  (start <=? floor_days ts) && (floor_days ts <? stop) =
  (start * day_length + h1 <=? ts) && (ts <? stop * day_length + h2).
Proof.
  intros Hs He Hd H1 H2.
  assert (floor_days ts <> start) by congruence.
  assert (floor_days ts <> stop) by congruence.
  pose proof (floor_days_bounds ts) as Hb.
  assert (0 < day_length) by (unfold day_length; lia).
  f_equal.
  - apply eq_true_iff_eq. rewrite !Z.leb_le. nia.
  - apply eq_true_iff_eq. rewrite !Z.ltb_lt. nia.
Qed.

Lemma isLondonSummer_exact ts :
  weekday (floor_days ts) <> Sunday -> isLondonSummer (floor_days ts) = london_summer_at ts.
Proof.
  intros H. unfold isLondonSummer, london_summer_at.
  apply day_range_exact; auto; try (apply weekday_last_is; unfold Sunday; lia);
    unfold hours, day_length; lia.
Qed.

Lemma isNewYorkSummer_exact ts :
  weekday (floor_days ts) <> Sunday -> isNewYorkSummer (floor_days ts) = new_york_summer_at ts.
Proof.
  intros H. unfold isNewYorkSummer, new_york_summer_at.
  apply day_range_exact; auto; try (apply weekday_nth_is; unfold Sunday; lia);
    unfold hours, day_length; lia.
Qed.

(** Past the hour of the change the whole-day test agrees with the clock on every
    day, transition days included. *)
Lemma day_range_late start stop h1 h2 ts :
  0 <= h1 <= ts mod day_length -> 0 <= h2 <= ts mod day_length ->
  (start <=? floor_days ts) && (floor_days ts <? stop) =
  (start * day_length + h1 <=? ts) && (ts <? stop * day_length + h2).
Proof.
  intros H1 H2.
  assert (ts = floor_days ts * day_length + ts mod day_length /\
          0 <= ts mod day_length < day_length) as [E Hb].
  { unfold floor_days, day_length. Z.div_mod_to_equations. lia. }
  f_equal.
  - apply eq_true_iff_eq. rewrite !Z.leb_le. nia.
  - apply eq_true_iff_eq. rewrite !Z.ltb_lt. nia.
Qed.

Lemma isLondonSummer_late ts :
  hours 1 <= ts mod day_length -> isLondonSummer (floor_days ts) = london_summer_at ts.
Proof. intros H. apply day_range_late; unfold hours in *; lia. Qed.

Lemma isNewYorkSummer_late ts :
  hours 7 <= ts mod day_length -> isNewYorkSummer (floor_days ts) = new_york_summer_at ts.
Proof. intros H. apply day_range_late; unfold hours in *; lia. Qed.

Lemma since_midnight ts : ts - floor_days ts * day_length = ts mod day_length.
Proof. unfold floor_days, day_length. Z.div_mod_to_equations. lia. Qed.

Lemma find_none_iff {E} (key : E -> string) table s :
  List.find (fun e => String.eqb (key e) s) table = None <-> s ∉ map key table.
Proof.
  rewrite list_elem_of_In, in_map_iff. split.
  - intros H (e & Hk & He). eapply List.find_none in H; [|exact He].
    now rewrite Hk, String.eqb_refl in H.
  - intros H. destruct (List.find _ table) as [e|] eqn:E1; [|done].
    apply List.find_some in E1 as [He Hk]. apply String.eqb_eq in Hk. exfalso; eauto.
Qed.

Lemma sessionFor_unknown s : sessionFor s = Unknown <-> SymbolScale.get s = 0.
Proof.
  unfold sessionFor, SymbolScale.get.
  rewrite SymbolScale.findEntry_find, (table_search_find _ _ _ session_table_sorted).
  assert (forall e, e ∈ kTable -> session e <> Unknown) as Hs.
  { apply Forall_forall. repeat constructor; discriminate. }
  assert (forallb (fun e => negb (SymbolScale.scale e =? 0)) SymbolScale.kTable = true) as Hsc
    by (vm_compute; reflexivity).
  rewrite forallb_forall in Hsc.
  pose proof (find_none_iff entry_symbol kTable s) as H1.
  pose proof (find_none_iff SymbolScale.entry_symbol SymbolScale.kTable s) as H2.
  rewrite same_universe in H1.
  destruct (List.find _ kTable) as [e|] eqn:E1;
    destruct (List.find _ SymbolScale.kTable) as [e'|] eqn:E2.
  - apply List.find_some in E1 as [Hin _], E2 as [Hin' _].
    specialize (Hs e (proj2 (list_elem_of_In _ _) Hin)). specialize (Hsc e' Hin').
    zbool. split; intros; [congruence|lia].
  - exfalso. assert (Some e = None) by tauto. discriminate.
  - exfalso. assert (Some e' = None) by tauto. discriminate.
  - unfold SymbolScale.kUnknown. tauto.
Qed.

(** C39: the filter permits an entry exactly when the instant lies in the
    trading week and in the symbol's peak window measured on the exact clocks,
    although the code only asks whether the DAY is in summer time: both markets
    change their clocks on a Sunday and every Sunday is blocked. *)
Theorem tradePermitted_exact (s : string) (ts : Z) :
  tradePermitted s ts = true <->
  in_trading_week ts /\ in_peak_window (sessionFor s) ts.
Proof.
  unfold tradePermitted, in_trading_week, in_peak_window. cbv zeta.
  rewrite since_midnight.
  destruct (Z.eqb_spec (weekday (floor_days ts)) Sunday) as [Hsun|Hsun].
  { split; [discriminate|tauto]. }
  rewrite (isLondonSummer_exact ts Hsun), (isNewYorkSummer_exact ts Hsun).
  generalize (ts mod day_length) as time. intros time.
  destruct (Z.eqb_spec (weekday (floor_days ts)) Friday) as [Hf|Hf];
    destruct (Z.eqb_spec (weekday (floor_days ts)) Monday) as [Hm|Hm];
    destruct (Z.leb_spec (hours 16) time) as [H16|H16];
    destruct (Z.ltb_spec time (hours 2)) as [H2|H2]; cbn [andb];
    try (split; [discriminate|lia]);
    destruct (sessionFor s); zbool; try destruct (london_summer_at ts);
    try destruct (new_york_summer_at ts); unfold hours, minutes in *;
    split; intros; try discriminate; lia.
Qed.

(** The session table and the symbol-scale table partition the same symbols,
    so the filter blocks (fails closed on) precisely the symbols the engine
    cannot scale, at every instant. *)
Theorem tradePermitted_known_symbols (s : string) (ts : Z) :
  (sessionFor s = Unknown <-> SymbolScale.get s = SymbolScale.kUnknown) /\
  (tradePermitted s ts = true -> SymbolScale.get s <> SymbolScale.kUnknown).
Proof.
  split; [apply sessionFor_unknown|].
  intros Hp Hk. apply sessionFor_unknown in Hk. unfold tradePermitted in Hp.
  rewrite Hk in Hp. cbv zeta in Hp.
  repeat match type of Hp with (if ?b then _ else _) = true => destruct b end; discriminate.
Qed.

(** A Wednesday morning inside the London window, under BST. *)
Lemma tradePermitted_known_symbols_witness :
  let ts := days_from_civil 2026 7 8 * day_length + hours 8 in
  tradePermitted "EURUSD" ts = true /\ SymbolScale.get "EURUSD" <> SymbolScale.kUnknown.
Proof.
  split; [vm_compute; reflexivity|].
  apply (tradePermitted_known_symbols "EURUSD"
    (days_from_civil 2026 7 8 * day_length + hours 8)).
  vm_compute. reflexivity.
Defined.
