(* ===== verification/OhlcBuilder.v ===== *)
(** ohlcBuilder.cppm: incremental tick to OHLC bar aggregation, with the
    optional warm-up query. The database and the process environment are
    parameters ([World]). *)
From S2P Require Import Prelude Models.
From S2P Require SymbolScale.

(** What the bar builders ask of the outside: the value [env::getOr] returns for
    [OHLC_PREPOPULATE], and the two QuestDB calls, [None] when they throw. *)
Class World : Type := {
  env_OHLC_PREPOPULATE : string;
  queryOhlc : string -> option (list OhlcObject);
  executeQuery : string -> option (list PriceData);
}.

(** A world in which warm-up is switched off. *)
Definition quietWorld : World := {|
  env_OHLC_PREPOPULATE := "0";
  queryOhlc := fun _ => None;
  executeQuery := fun _ => None;
|}.

(** The warm-up SQL, ending strictly before [before]. *)
Definition prepopulateQuery (symbol : string) (before barMinutes count : Z) : string :=
  let beforeMicros := before in
  let totalMinutes := barMinutes *₆₄ count in
  let days := ((totalMinutes +₆₄ 1439) ÷ 1440) *₆₄ 6 +₆₄ 10 in
  let fromMicros := beforeMicros -₆₄ (days *₆₄ 86400000000) in
  ("SELECT timestamp, open, high, low, close FROM ("
   +:+ "SELECT timestamp, first(ask) AS open, max(ask) AS high, min(ask) AS low, "
   +:+ "last(ask) AS close, count() AS ticks FROM '" +:+ symbol +:+ "' "
   +:+ "WHERE timestamp >= cast(" +:+ pretty fromMicros
   +:+ "L AS timestamp) AND timestamp < cast(" +:+ pretty beforeMicros
   +:+ "L AS timestamp) "
   +:+ "SAMPLE BY " +:+ pretty barMinutes +:+ "m ALIGN TO CALENDAR"
   +:+ ") WHERE ticks >= 10 ORDER BY timestamp DESC LIMIT " +:+ pretty count)%string.

Definition set_complete (c : bool) (b : OhlcObject) : OhlcObject :=
  mkOhlcObject (date b) (open b) (close b) (high b) (low b) c.

Definition prepopulateOHLC {W : World} (symbol : string) (before barMinutes count : Z)
    : list OhlcObject :=
  if (count <=? 0) || (barMinutes <? 1) then []
  else if negb (String.eqb env_OHLC_PREPOPULATE "1") then []
  else if SymbolScale.get symbol =? SymbolScale.kUnknown then []
  else match queryOhlc (prepopulateQuery symbol before barMinutes count) with
       | Some rows => update_last (set_complete false) (rev rows)
       | None => []
       end.

(** The bar a tick opens. *)
Definition new_bar (ts price : Z) : OhlcObject :=
  mkOhlcObject ts price price price price false.

(** Folds one price into a bar. *)
Definition touch_bar (price : Z) (b : OhlcObject) : OhlcObject :=
  mkOhlcObject (date b) (open b) price
    (if high b <? price then price else high b)
    (if price <? low b then price else low b)
    (complete b).

Definition calculateOHLC {W : World} (tick : PriceData) (price duration : Z)
    (bars : list OhlcObject) (prepopulateCount : Z) : result (list OhlcObject) :=
  if duration <=? 0 then Throw InvalidArgument
  else
    let bars :=
      match bars with
      | [] =>
          let seeded :=
            if 0 <? prepopulateCount
            then prepopulateOHLC (symbol tick) (timestamp tick) (duration ÷ minutes 1)
                   prepopulateCount
            else [] in
          match seeded with
          | [] => [new_bar (timestamp tick) price]
          | _ => seeded
          end
      | _ => bars
      end in
    let bars :=
      match last bars with
      | Some bar =>
          if duration <? timestamp tick - date bar
          then update_last (set_complete true) bars ++ [new_bar (timestamp tick) price]
          else bars
      | None => bars
      end in
    Ok (update_last (touch_bar price) bars).

(** Feeding a stream of ticks, each at its ask, from [bars] on. *)
Fixpoint feed {W : World} (duration count : Z) (bars : list OhlcObject)
    (ticks : list PriceData) : result (list OhlcObject) :=
  match ticks with
  | [] => Ok bars
  | t :: ticks' =>
      bars' <~ calculateOHLC t (ask t) duration bars count;
      feed duration count bars' ticks'
  end.

(** ** Reference: bars as summaries of consecutive groups of ticks *)

Definition group_high (t0 : PriceData) (g : list PriceData) : Z :=
  foldr Z.max (ask t0) (map ask g).
Definition group_low (t0 : PriceData) (g : list PriceData) : Z :=
  foldr Z.min (ask t0) (map ask g).

(** The bar of the group that [t0] opens and [g] continues. *)
Definition summary (c : bool) (g : PriceData * list PriceData) : OhlcObject :=
  let '(t0, ts) := g in
  mkOhlcObject (timestamp t0) (ask t0) (ask (List.last ts t0))
    (group_high t0 ts) (group_low t0 ts) c.

Definition group_ticks (g : PriceData * list PriceData) : list PriceData := g.1 :: g.2.

(** [closed] groups are followed by the open one. *)
Definition bars_of (closed : list (PriceData * list PriceData))
    (current : PriceData * list PriceData) : list OhlcObject :=
  map (summary true) closed ++ [summary false current].

(** Every tick of a group is within [duration] of the tick that opened it. *)
Definition group_within (duration : Z) (g : PriceData * list PriceData) : Prop :=
  Forall (fun t => timestamp t - timestamp g.1 <= duration) g.2.

(** Each group opens on the first tick past its predecessor's duration. *)
Fixpoint groups_spaced (duration : Z) (gs : list (PriceData * list PriceData)) : Prop :=
  match gs with
  | g :: ((g' :: _) as rest) =>
      timestamp g'.1 - timestamp g.1 > duration /\ groups_spaced duration rest
  | _ => True
  end.

(** The well-formedness of one bar, and of a series: nothing before the last bar
    is in progress. *)
Definition bar_wf (b : OhlcObject) : Prop :=
  low b <= open b <= high b /\ low b <= close b <= high b.

Definition series_wf (bars : list OhlcObject) : Prop :=
  Forall bar_wf bars /\ Forall (fun b => complete b = true) (but_last bars).

(** * Facts *)

Lemma touch_max price h : (if h <? price then price else h) = Z.max h price.
Proof. destruct (Z.ltb_spec h price); lia. Qed.

Lemma touch_min price l : (if price <? l then price else l) = Z.min l price.
Proof. destruct (Z.ltb_spec price l); lia. Qed.

Lemma foldr_max_snoc l x p : foldr Z.max x (l ++ [p]) = Z.max (foldr Z.max x l) p.
Proof. induction l; simpl; lia. Qed.

Lemma foldr_min_snoc l x p : foldr Z.min x (l ++ [p]) = Z.min (foldr Z.min x l) p.
Proof. induction l; simpl; lia. Qed.

Lemma touch_summary t0 ts t :
  touch_bar (ask t) (summary false (t0, ts)) = summary false (t0, ts ++ [t]).
Proof.
  unfold touch_bar, summary, group_high, group_low. cbn [date open close high low complete].
  rewrite touch_max, touch_min, map_app. cbn [map].
  rewrite foldr_max_snoc, foldr_min_snoc, List.last_last.
  reflexivity.
Qed.

Lemma touch_new_bar t : touch_bar (ask t) (new_bar (timestamp t) (ask t)) = summary false (t, []).
Proof.
  unfold touch_bar, new_bar, summary, group_high, group_low. simpl.
  rewrite Z.ltb_irrefl. reflexivity.
Qed.

Section Builder.
Context {W : World}.

(** With the warm-up gate off the seed is always empty. *)
Lemma calculateOHLC_first t price d :
  0 < d -> calculateOHLC t price d [] 0 = Ok [touch_bar price (new_bar (timestamp t) price)].
Proof.
  intros Hd. unfold calculateOHLC. rewrite (proj2 (Z.leb_gt d 0)) by lia. simpl.
  rewrite Z.sub_diag. rewrite (proj2 (Z.ltb_ge d 0)) by lia. reflexivity.
Qed.

(** On a non-empty series only the last bar is read or written. *)
Lemma calculateOHLC_snoc t price d bars b n :
  0 < d ->
  calculateOHLC t price d (bars ++ [b]) n =
  Ok (bars ++
      if d <? timestamp t - date b
      then [set_complete true b; touch_bar price (new_bar (timestamp t) price)]
      else [touch_bar price b]).
Proof.
  intros Hd. unfold calculateOHLC. rewrite (proj2 (Z.leb_gt d 0)) by lia.
  destruct (bars ++ [b]) eqn:E; [now destruct bars|]. rewrite <- E.
  rewrite last_snoc. destruct (d <? timestamp t - date b).
  - rewrite update_last_snoc, update_last_snoc, <- app_assoc. reflexivity.
  - now rewrite update_last_snoc.
Qed.

Lemma calculateOHLC_nonempty t price d bars n bars' :
  calculateOHLC t price d bars n = Ok bars' -> bars' <> [].
Proof.
  intros H. destruct (Z_le_dec d 0) as [Hd|Hd].
  { unfold calculateOHLC in H. now rewrite (proj2 (Z.leb_le d 0)) in H by lia. }
  assert (forall bs b, calculateOHLC t price d (bs ++ [b]) n = Ok bars' -> bars' <> []) as Hs.
  { intros bs b E. rewrite calculateOHLC_snoc in E by lia. injection E as <-.
    destruct (d <? _); now destruct bs. }
  destruct (snoc_cases bars) as [->|(bs & b & ->)]; [|eauto].
  unfold calculateOHLC in H. rewrite (proj2 (Z.leb_gt d 0)) in H by lia.
  set (seeded := if 0 <? n then _ else []) in H.
  set (bars0 := match seeded with [] => [new_bar (timestamp t) price] | _ => seeded end) in H.
  destruct (snoc_cases bars0) as [E|(bs & b & E)].
  { unfold bars0 in E. now destruct seeded. }
  apply (Hs bs b). unfold calculateOHLC. rewrite (proj2 (Z.leb_gt d 0)) by lia.
  rewrite <- E. destruct bars0; [now destruct bs|exact H].
Qed.

(** Dropping old bars before a tick or after it leaves the same tail. *)
Lemma calculateOHLC_last_n t price d bars n k bars' :
  (0 < k)%nat -> bars <> [] ->
  calculateOHLC t price d bars n = Ok bars' ->
  exists bars'', calculateOHLC t price d (last_n k bars) n = Ok bars'' /\
                 last_n k bars'' = last_n k bars'.
Proof.
  intros Hk Hne H. destruct (Z_le_dec d 0) as [Hd|Hd].
  { unfold calculateOHLC in H. now rewrite (proj2 (Z.leb_le d 0)) in H by lia. }
  destruct (snoc_cases bars) as [->|(bs & b & ->)]; [done|].
  rewrite calculateOHLC_snoc in H by lia. injection H as <-.
  destruct (last_n_suffix k (bs ++ [b])) as [pre Hpre].
  destruct (snoc_cases (last_n k (bs ++ [b]))) as [E|(bs' & b' & E)].
  { apply (f_equal length) in E. rewrite last_n_length, length_app in E. simpl in E. lia. }
  pose proof (f_equal length E) as Hlen. rewrite last_n_length, !length_app in Hlen.
  rewrite E in Hpre |- *.
  rewrite app_assoc in Hpre. apply app_inj_tail in Hpre as [Hbs Hb]. subst b'.
  rewrite calculateOHLC_snoc by lia. eexists; split; [reflexivity|].
  subst bs. rewrite length_app in Hlen. simpl in Hlen.
  set (tl := if d <? timestamp t - date b then _ else _).
  rewrite <- app_assoc.
  destruct (Nat.eq_dec (length pre) 0) as [E0|E0].
  { apply length_zero_iff_nil in E0. subst pre. reflexivity. }
  rewrite (last_n_app k pre (bs' ++ tl)); [done|].
  rewrite length_app. unfold tl. destruct (d <? _); simpl; lia.
Qed.

Lemma groups_spaced_grow d closed t0 ts t :
  groups_spaced d (closed ++ [(t0, ts)]) -> groups_spaced d (closed ++ [(t0, ts ++ [t])]).
Proof.
  induction closed as [|g closed IH]; [done|].
  destruct closed as [|g' closed]; simpl in *; [done|]. intros [H1 H2].
  split; [exact H1|exact (IH H2)].
Qed.

Lemma groups_spaced_open d closed g t :
  groups_spaced d (closed ++ [g]) -> timestamp t - timestamp g.1 > d ->
  groups_spaced d ((closed ++ [g]) ++ [(t, [])]).
Proof.
  induction closed as [|g0 closed IH]; intros Hs Ht; [simpl; auto|].
  destruct closed as [|g' closed]; simpl in *.
  - destruct Hs as [H1 _]. auto.
  - destruct Hs as [H1 H2]. split; [exact H1|]. now apply IH.
Qed.

(** One tick either grows the open group or closes it and opens the next. *)
Lemma calculateOHLC_bars_of t d closed cur n :
  0 < d ->
  calculateOHLC t (ask t) d (bars_of closed cur) n =
  Ok (if d <? timestamp t - timestamp cur.1
      then bars_of (closed ++ [cur]) (t, [])
      else bars_of closed (cur.1, cur.2 ++ [t])).
Proof.
  intros Hd. unfold bars_of at 1. rewrite calculateOHLC_snoc by lia.
  destruct cur as [t0 ts]. cbn [summary date fst snd].
  destruct (d <? timestamp t - timestamp t0).
  - unfold bars_of. rewrite touch_new_bar, map_app, <- app_assoc. reflexivity.
  - change (mkOhlcObject _ _ _ _ _ _) with (summary false (t0, ts)).
    rewrite touch_summary. reflexivity.
Qed.

Lemma feed_bars_of ticks : forall d n closed cur,
  0 < d ->
  Forall (group_within d) (closed ++ [cur]) -> groups_spaced d (closed ++ [cur]) ->
  exists closed' cur',
    feed d n (bars_of closed cur) ticks = Ok (bars_of closed' cur') /\
    flat_map group_ticks (closed' ++ [cur']) =
      flat_map group_ticks (closed ++ [cur]) ++ ticks /\
    Forall (group_within d) (closed' ++ [cur']) /\ groups_spaced d (closed' ++ [cur']).
Proof.
  induction ticks as [|t ticks IH]; intros d n closed cur Hd Hw Hs; cbn [feed].
  { exists closed, cur. rewrite app_nil_r. auto. }
  rewrite calculateOHLC_bars_of by done. cbn [result_bind].
  destruct (Z.ltb_spec d (timestamp t - timestamp cur.1)) as [Hlt|Hge].
  - destruct (IH d n (closed ++ [cur]) (t, []) Hd) as (c' & u' & Hf & Hc & Hw' & Hs').
    + apply Forall_app_2; [done|]. repeat constructor.
    + apply groups_spaced_open; [done|lia].
    + exists c', u'. rewrite Hf, Hc, !flat_map_app, <- !app_assoc. split_and!; auto.
  - apply Forall_app in Hw as [Hw1 Hw2]. inversion Hw2 as [|? ? Hw3 _]; subst.
    destruct cur as [t0 ts]. cbn [fst snd] in *.
    destruct (IH d n closed (t0, ts ++ [t]) Hd) as (c' & u' & Hf & Hc & Hw' & Hs').
    + apply Forall_app_2; [done|]. repeat constructor. unfold group_within in *.
      cbn [fst snd] in *. apply Forall_app_2; [done|]. repeat constructor. lia.
    + now apply groups_spaced_grow.
    + exists c', u'. rewrite Hf, Hc, !flat_map_app. cbn [flat_map group_ticks fst snd].
      rewrite !app_nil_r, <- !app_assoc. split_and!; auto.
      unfold group_ticks. cbn [fst snd app]. now rewrite <- app_assoc.
Qed.

(** The bars built from a non-empty tick stream are the summaries (first,
    last, highest and lowest ask, opening time) of a partition of that stream
    into consecutive groups: every group stays within the bar duration of its
    first tick, and the next group opens on the first tick strictly beyond it;
    every bar but the last is complete. *)
Theorem feed_partitions (d : Z) (ticks : list PriceData) (Hd : 0 < d) (Hne : ticks <> []) :
  exists closed current,
    feed d 0 [] ticks = Ok (bars_of closed current) /\
    flat_map group_ticks (closed ++ [current]) = ticks /\
    Forall (group_within d) (closed ++ [current]) /\
    groups_spaced d (closed ++ [current]).
Proof.
  destruct ticks as [|t ticks]; [done|]. cbn [feed].
  rewrite calculateOHLC_first, touch_new_bar by done. cbn [result_bind].
  destruct (feed_bars_of ticks d 0 [] (t, []) Hd) as (c & u & Hf & Hc & Hw & Hs);
    [repeat constructor|done|].
  exists c, u. cbn in Hc. split; [exact Hf|]. auto.
Qed.

Lemma touch_bar_wf price b : bar_wf b -> bar_wf (touch_bar price b).
Proof.
  unfold bar_wf, touch_bar. cbn [low open high close]. rewrite touch_max, touch_min. lia.
Qed.

Lemma new_bar_wf ts price : bar_wf (new_bar ts price).
Proof. unfold bar_wf, new_bar. cbn [low open high close]. lia. Qed.

Lemma calculateOHLC_wf t price d bars b n bars' :
  series_wf (bars ++ [b]) -> calculateOHLC t price d (bars ++ [b]) n = Ok bars' ->
  series_wf bars'.
Proof.
  unfold series_wf. rewrite but_last_snoc. intros [Hwf Hc] H.
  destruct (Z_le_dec d 0) as [Hd|Hd].
  { unfold calculateOHLC in H. now rewrite (proj2 (Z.leb_le d 0)) in H by lia. }
  rewrite calculateOHLC_snoc in H by lia. injection H as <-.
  apply Forall_app in Hwf as [Hwf1 Hwf2]. inversion Hwf2 as [|? ? Hb _]; subst.
  destruct (d <? _).
  - rewrite app_two, but_last_snoc. split.
    + apply Forall_app_2; [apply Forall_app_2; [done|]|]; repeat constructor;
        try apply Hb; apply touch_bar_wf, new_bar_wf.
    + apply Forall_app_2; [done|]. now repeat constructor.
  - rewrite but_last_snoc. split; [|done]. apply Forall_app_2; [done|].
    repeat constructor; now apply touch_bar_wf.
Qed.

(** A non-positive duration is refused; any other call succeeds, and keeps
    a warm series well formed: open and close stay inside [low, high] in every
    bar, only the last bar is in progress, that bar closes at the tick's price
    and has the price in its range, and no earlier tick's bar is dropped. *)
Theorem calculateOHLC_series (t : PriceData) (price d : Z) (bars : list OhlcObject) (n : Z)
    (Hne : bars <> []) (Hwf : series_wf bars) :
  (d <= 0 -> calculateOHLC t price d bars n = Throw InvalidArgument) /\
  (0 < d ->
     exists bars' b, calculateOHLC t price d bars n = Ok (bars' ++ [b]) /\
       series_wf (bars' ++ [b]) /\ close b = price /\ low b <= price <= high b /\
       (length bars <= length (bars' ++ [b]) <= length bars + 1)%nat).
Proof.
  split; intros Hd.
  { unfold calculateOHLC. now rewrite (proj2 (Z.leb_le d 0)). }
  destruct (snoc_cases bars) as [->|(bs & b & ->)]; [done|].
  pose proof (calculateOHLC_snoc t price d bs b n Hd) as H.
  rewrite H. pose proof (calculateOHLC_wf _ _ _ _ _ _ _ Hwf H) as Hwf'.
  destruct (d <? _).
  - exists (bs ++ [set_complete true b]), (touch_bar price (new_bar (timestamp t) price)).
    rewrite app_two in *. split_and!; [done|exact Hwf'|done|..].
    all: rewrite ?length_app; cbn -[Z.ltb]; rewrite ?Z.ltb_irrefl; lia.
  - exists bs, (touch_bar price b). split_and!; [done|exact Hwf'|done|..].
    all: rewrite ?length_app; cbn -[Z.ltb]; rewrite ?touch_max, ?touch_min; lia.
Qed.
End Builder.

(** ** Witnesses *)

Definition demo_tick (ts price : Z) : PriceData := mkPriceData price (price - 1) ts "EURUSD".

Lemma feed_partitions_witness :
  exists closed current,
    feed (W := quietWorld) (minutes 1) 0 []
      [demo_tick 0 100; demo_tick (minutes 1) 105; demo_tick (minutes 1 + 1) 99] =
      Ok (bars_of closed current) /\
    length closed = 1%nat.
Proof.
  destruct (feed_partitions (W := quietWorld) (minutes 1)
    [demo_tick 0 100; demo_tick (minutes 1) 105; demo_tick (minutes 1 + 1) 99])
    as (closed & current & Hf & _); [reflexivity|discriminate|].
  exists closed, current. split; [exact Hf|].
  apply (f_equal (fun r => match r with Ok b => length b | Throw _ => 0%nat end)) in Hf.
  unfold bars_of in Hf. rewrite length_app, length_map in Hf.
  change (2 = length closed + 1)%nat in Hf. lia.
Defined.

Lemma calculateOHLC_series_witness :
  exists bars' b,
    calculateOHLC (W := quietWorld) (demo_tick (minutes 2) 105) 105 (minutes 1)
      [new_bar 0 100] 0 = Ok (bars' ++ [b]) /\ close b = 105.
Proof.
  destruct (calculateOHLC_series (W := quietWorld) (demo_tick (minutes 2) 105) 105 (minutes 1)
    [new_bar 0 100] 0) as [_ H]; [discriminate| |].
  - split; [repeat constructor; simpl; lia|constructor].
  - destruct H as (bars' & b & H & _ & Hc & _); [reflexivity|]. eauto.
Defined.
