(* ===== verification/Indicators.v ===== *)
(** ema.cppm, atr.cppm and swingPivots.cppm: the integer indicators computed over
    bars of scaled points. *)
From S2P Require Import Prelude Models.

(** * Exponential moving average, in Q16 fixed point *)
Module Ema.

Definition kFractionBits : Z := 16.
Definition kHalf : Z := Z.shiftl 1 (kFractionBits - 1).

Definition toQ (points : Z) : Z := i64 (Z.shiftl points kFractionBits).

Definition roundToPoints (q : Z) : Z := i32 (Z.shiftr (q +₆₄ kHalf) kFractionBits).

(** The SMA of the first [period] prices, as Q16. *)
Definition seedQ (prices : list Z) (period : Z) : Z :=
  let sum := foldl (fun s p => s +₆₄ p) 0 (take (Z.to_nat period) prices) in
  (i64 (Z.shiftl sum kFractionBits) +₆₄ (period ÷ 2)) ÷ period.

(** alpha = 2/(period+1) as a Q16 multiplier, rounded to nearest. *)
Definition alphaQ (period : Z) : Z :=
  (Z.shiftl 2 kFractionBits +₆₄ ((period +₃₂ 1) ÷ 2)) ÷ (period +₃₂ 1).

Definition step (alpha emaQ price : Z) : Z :=
  let deltaQ := toQ price -₆₄ emaQ in
  emaQ +₆₄ Z.shiftr ((alpha *₆₄ deltaQ) +₆₄ kHalf) kFractionBits.

Fixpoint run (alpha emaQ : Z) (prices : list Z) : list Z :=
  match prices with
  | [] => []
  | p :: prices' =>
      let emaQ' := step alpha emaQ p in
      roundToPoints emaQ' :: run alpha emaQ' prices'
  end.

(** [ema::calculate]: the whole of [out], which the call overwrites. *)
Definition calculate (prices : list Z) (period : Z) : result (list Z) :=
  if period <? 1 then Throw InvalidArgument
  else
    let n := Z.to_nat period in
    if (length prices <? n)%nat then Ok (repeat 0 (length prices))
    else
      let emaQ := seedQ prices period in
      Ok (repeat 0 (n - 1) ++
          roundToPoints emaQ :: run (alphaQ period) emaQ (drop n prices)).
End Ema.

(** * Average true range *)
Module Atr.

Definition true_range (prev cur : OhlcObject) : Z :=
  let highLow := high cur -₆₄ low cur in
  let highGap := Z.abs (high cur -₆₄ close prev) in
  let lowGap := Z.abs (low cur -₆₄ close prev) in
  Z.max (Z.max highLow highGap) lowGap.

(** The true range of every candle that has a predecessor in the list. *)
Fixpoint true_ranges (candles : list OhlcObject) : list Z :=
  match candles with
  | prev :: ((cur :: _) as rest) => true_range prev cur :: true_ranges rest
  | _ => []
  end.

(** [atr::calculate]: the loop reads the last [period + 1] candles. *)
Definition calculate (candles : list OhlcObject) (period : Z) : result Z :=
  if period <? 1 then Throw InvalidArgument
  else
    let n := Z.to_nat period in
    if (length candles <? n + 1)%nat then Ok 0
    else
      let sum := foldl (fun s r => s +₆₄ r) 0 (true_ranges (last_n (n + 1) candles)) in
      Ok (i32 ((sum +₆₄ (period ÷ 2)) ÷ period)).
End Atr.

(** * Fractal swing highs and lows *)
Module SwingPivots.

(** [bars[index - wing]] with [size_t] operands. *)
Definition read_left (bars : list OhlcObject) (index wing : nat) : option OhlcObject :=
  if (wing <=? index)%nat then bars !! (index - wing)%nat else None.

(** The loop over the wings; [beaten b] says that bar [b] disqualifies. The
    right neighbour is read only when the left one passed. *)
Fixpoint wings_clear (beaten : OhlcObject -> bool) (bars : list OhlcObject) (index : nat)
    (wings : list nat) : result bool :=
  match wings with
  | [] => Ok true
  | wing :: wings' =>
      match read_left bars index wing with
      | None => Throw UndefinedRead
      | Some lbar =>
          if beaten lbar then Ok false
          else match bars !! (index + wing)%nat with
               | None => Throw UndefinedRead
               | Some rbar =>
                   if beaten rbar then Ok false
                   else wings_clear beaten bars index wings'
               end
      end
  end.

Definition isSwingHighAt (bars : list OhlcObject) (index : nat) (pivotBars : Z)
    : result bool :=
  if pivotBars <? 1 then Throw InvalidArgument
  else match bars !! index with
       | None => Throw UndefinedRead
       | Some b =>
           wings_clear (fun b' => high b <=? high b') bars index (seq 1 (Z.to_nat pivotBars))
       end.

Definition isSwingLowAt (bars : list OhlcObject) (index : nat) (pivotBars : Z)
    : result bool :=
  if pivotBars <? 1 then Throw InvalidArgument
  else match bars !! index with
       | None => Throw UndefinedRead
       | Some b =>
           wings_clear (fun b' => low b' <=? low b) bars index (seq 1 (Z.to_nat pivotBars))
       end.

(** The reference notion: the bar at [index] beats every other bar within
    [w] positions of it, [better] being strict. *)
Definition pivot_at (better : OhlcObject -> OhlcObject -> Prop) (bars : list OhlcObject)
    (index w : nat) : Prop :=
  forall j b b', bars !! index = Some b -> bars !! j = Some b' ->
    j <> index -> (index - w <= j <= index + w)%nat -> better b b'.
End SwingPivots.

(** * Facts: running sums *)

Lemma foldl_i64_sum l : forall s,
  eq64 (foldl (fun s p => s +₆₄ p) s l) (s + sum_list_Z l).
Proof.
  induction l as [|p l IH]; intros s; cbn [foldl sum_list_Z foldr].
  - now rewrite Z.add_0_r.
  - rewrite IH, eq64_i64. fold (sum_list_Z l). now rewrite Z.add_assoc.
Qed.

Lemma foldl_i64_range l : forall s,
  in_i64 s -> in_i64 (foldl (fun s p => s +₆₄ p) s l).
Proof. induction l; intros; cbn [foldl]; auto using i64_range. Qed.

Lemma foldl_i64_exact l :
  in_i64 (sum_list_Z l) -> foldl (fun s p => s +₆₄ p) 0 l = sum_list_Z l.
Proof.
  intros H. apply eq64_id; [|apply foldl_i64_range; ilia|done].
  rewrite (foldl_i64_sum l 0), Z.add_0_l. reflexivity.
Qed.

(** The rounded mean lies between the least and the greatest element. *)
Lemma rounded_mean_bounds lo hi sum period :
  1 <= period -> lo * period <= sum <= hi * period -> 0 <= sum ->
  lo <= (sum + period ÷ 2) ÷ period <= hi.
Proof.
  intros Hp Hs H0. rewrite (Z.quot_div_nonneg period 2) by lia.
  assert (0 <= period / 2 < period) by (Z.div_mod_to_equations; lia).
  rewrite Z.quot_div_nonneg by lia. split.
  - apply Z.div_le_lower_bound; nia.
  - apply Z.lt_succ_r. apply Z.div_lt_upper_bound; nia.
Qed.

(** * Facts: EMA *)
Section EmaFacts.
Import Ema.

Lemma alphaQ_range period : 1 <= period < 2147483647 -> 0 <= alphaQ period <= 65536.
Proof.
  intros Hp. unfold alphaQ. rewrite (i32_id (period + 1)) by ilia.
  change (Z.shiftl 2 kFractionBits) with 131072.
  assert (0 <= (period + 1) ÷ 2 <= period + 1) by
    (rewrite Z.quot_div_nonneg by lia; Z.div_mod_to_equations; lia).
  rewrite i64_id by ilia. rewrite Z.quot_div_nonneg by lia. split.
  - apply Z.div_pos; lia.
  - apply Z.lt_succ_r. apply Z.div_lt_upper_bound; [lia|].
    rewrite (Z.quot_div_nonneg (period + 1) 2) by lia. Z.div_mod_to_equations. lia.
Qed.

Lemma toQ_eq p : price_ok p -> toQ p = p * 65536.
Proof.
  unfold price_ok. intros. unfold toQ. rewrite Z.shiftl_mul_pow2 by (unfold kFractionBits; lia).
  change (2 ^ kFractionBits) with 65536. apply i64_id. ilia.
Qed.

(** A step moves the average towards the new price and never past it. *)
Lemma step_between alpha emaQ p :
  0 <= alpha <= 65536 -> price_ok p -> 0 <= emaQ <= 8388608 * 65536 ->
  Z.min emaQ (p * 65536) <= step alpha emaQ p <= Z.max emaQ (p * 65536).
Proof.
  intros Ha Hp He. unfold step. rewrite toQ_eq by done. cbv zeta.
  unfold price_ok in Hp. rewrite (i64_id (p * 65536 - emaQ)) by ilia.
  set (delta := p * 65536 - emaQ).
  assert (- 8388608 * 65536 <= delta <= 8388608 * 65536) as Hd by lia.
  assert (- (8388608 * 65536) * 65536 <= alpha * delta <= 8388608 * 65536 * 65536) by nia.
  rewrite (i64_id (alpha * delta)) by ilia.
  change kHalf with 32768. rewrite (i64_id (alpha * delta + 32768)) by ilia.
  rewrite Z.shiftr_div_pow2 by (unfold kFractionBits; lia).
  change (2 ^ kFractionBits) with 65536.
  assert (Z.min 0 delta <= (alpha * delta + 32768) / 65536 <= Z.max 0 delta) as Hb.
  { split.
    - apply Z.div_le_lower_bound; nia.
    - apply Z.lt_succ_r. apply Z.div_lt_upper_bound; nia. }
  rewrite i64_id by ilia. lia.
Qed.

Lemma roundToPoints_bounds lo hi q :
  0 <= lo -> hi <= 8388608 -> lo * 65536 <= q <= hi * 65536 -> lo <= roundToPoints q <= hi.
Proof.
  intros Hl Hh Hq. unfold roundToPoints. change kHalf with 32768.
  rewrite (i64_id (q + 32768)) by ilia.
  rewrite Z.shiftr_div_pow2 by (unfold kFractionBits; lia).
  change (2 ^ kFractionBits) with 65536.
  assert (lo <= (q + 32768) / 65536 <= hi) by (Z.div_mod_to_equations; lia).
  rewrite i32_id by ilia. lia.
Qed.

Lemma run_bounds alpha lo hi prices : forall emaQ,
  0 <= alpha <= 65536 -> 0 <= lo -> hi < 8388608 ->
  Forall (fun p => lo <= p <= hi) prices -> lo * 65536 <= emaQ <= hi * 65536 ->
  Forall (fun x => lo <= x <= hi) (run alpha emaQ prices).
Proof.
  induction prices as [|p prices IH]; intros emaQ Ha Hl Hh Hp He; cbn [run]; [done|].
  inversion Hp as [|? ? Hp1 Hp2]; subst.
  pose proof (step_between alpha emaQ p Ha ltac:(unfold price_ok; lia) ltac:(lia)).
  assert (lo * 65536 <= step alpha emaQ p <= hi * 65536) by lia.
  constructor; [apply roundToPoints_bounds; lia|auto].
Qed.

Lemma run_length alpha prices : forall emaQ, length (run alpha emaQ prices) = length prices.
Proof. induction prices; intros; simpl; auto. Qed.

Lemma seedQ_bounds lo hi prices period :
  1 <= period <= 8388608 -> (Z.to_nat period <= length prices)%nat ->
  0 <= lo -> hi < 8388608 -> Forall (fun p => lo <= p <= hi) prices ->
  lo * 65536 <= seedQ prices period <= hi * 65536.
Proof.
  intros Hp Hn Hl Hh Hall. unfold seedQ.
  pose proof (sum_list_Z_bound lo hi (take (Z.to_nat period) prices)) as Hs.
  specialize (Hs (Forall_take _ _ _ Hall)).
  rewrite length_take, Nat.min_l, Z2Nat.id in Hs by lia.
  rewrite foldl_i64_exact by (unfold in_i64; nia).
  set (sum := sum_list_Z _) in *. cbv zeta.
  rewrite Z.shiftl_mul_pow2 by (unfold kFractionBits; lia).
  change (2 ^ kFractionBits) with 65536.
  assert (0 <= sum <= 8388608 * 8388608) by nia.
  assert (0 <= period ÷ 2 <= period) by
    (rewrite Z.quot_div_nonneg by lia; Z.div_mod_to_equations; lia).
  rewrite (i64_id (sum * 65536)) by ilia. rewrite i64_id by ilia.
  apply rounded_mean_bounds; nia.
Qed.
(** The newest average of a warm series exists and stays among the prices. *)
Lemma calculate_last lo hi prices period :
  1 <= period <= 8388608 -> (Z.to_nat period <= length prices)%nat ->
  0 <= lo -> hi < 8388608 -> Forall (fun p => lo <= p <= hi) prices ->
  exists out e, calculate prices period = Ok out /\ last out = Some e /\ lo <= e <= hi.
Proof.
  intros Hp Hn Hl Hh Hall. unfold calculate.
  rewrite (proj2 (Z.ltb_ge period 1)), (proj2 (Nat.ltb_ge _ _)) by lia.
  pose proof (seedQ_bounds lo hi prices period Hp Hn Hl Hh Hall) as Hseed.
  set (tail := roundToPoints _ :: run _ _ _).
  assert (Forall (fun x => lo <= x <= hi) tail) as Ht.
  { unfold tail. constructor; [apply roundToPoints_bounds; lia|].
    apply run_bounds; auto; [apply alphaQ_range; lia|now apply Forall_drop]. }
  destruct (last tail) as [e|] eqn:E; [|now apply last_None in E].
  exists (repeat 0 (Z.to_nat period - 1) ++ tail), e.
  rewrite last_app, E. split; [done|]. split; [done|].
  rewrite Forall_forall in Ht. apply Ht. now apply last_Some_elem_of in E.
Qed.

(** The 64-bit sum of a seed window cannot overflow, but its shift into Q16 can:
    65537 maximal prices are enough to turn the average negative. *)
Lemma seedQ_shift_overflows : seedQ (repeat INT32_MAX 65537) 65537 < 0.
Proof. vm_compute. reflexivity. Qed.

(** The multiplier reaches zero, which freezes the average, exactly for the
    periods above 2^18. *)
Lemma alphaQ_zero period :
  1 <= period < 2147483647 -> (alphaQ period = 0 <-> 262143 < period).
Proof.
  intros H. unfold alphaQ. change (Z.shiftl 2 kFractionBits) with 131072.
  rewrite (i32_id (period + 1)) by ilia.
  assert (0 <= (period + 1) ÷ 2 <= 1073741824) as Hh.
  { rewrite Z.quot_div_nonneg by lia. split; [apply Z.div_pos; lia|apply Z.div_le_upper_bound; lia]. }
  rewrite i64_id by ilia. rewrite Z.quot_div_nonneg by lia. rewrite Z.quot_div_nonneg by lia.
  rewrite Z.div_small_iff by lia. pose proof (Z.div_mod (period + 1) 2 ltac:(lia)).
  pose proof (Z.mod_pos_bound (period + 1) 2 ltac:(lia)). 
  rewrite Z.quot_div_nonneg in Hh by lia. lia.
Qed.

Lemma toQ_round p : price_ok p -> roundToPoints (p * 65536) = p.
Proof.
  unfold price_ok. intros Hp. pose proof (roundToPoints_bounds p p (p * 65536)). lia.
Qed.

(** At full weight a step lands on the price. *)
Lemma step_full emaQ p :
  price_ok p -> 0 <= emaQ <= 8388608 * 65536 -> step 65536 emaQ p = p * 65536.
Proof.
  intros Hp He. unfold step. rewrite toQ_eq by done. unfold price_ok in Hp. cbv zeta.
  rewrite (i64_id (p * 65536 - emaQ)) by ilia. rewrite (i64_id (65536 * _)) by ilia.
  change kHalf with 32768. rewrite (i64_id (_ + 32768)) by ilia.
  rewrite Z.shiftr_div_pow2 by (unfold kFractionBits; lia).
  change (2 ^ kFractionBits) with 65536.
  rewrite (Z.mul_comm 65536), Z.div_add_l by lia.
  change (32768 / 65536) with 0. rewrite i64_id by ilia. lia.
Qed.

Lemma run_full prices : forall emaQ,
  Forall price_ok prices -> 0 <= emaQ <= 8388608 * 65536 -> run 65536 emaQ prices = prices.
Proof.
  induction prices as [|p prices IH]; intros emaQ Hp He; [done|]. cbn [run].
  inversion Hp as [|? ? Hp1 Hp2]; subst. rewrite step_full, toQ_round by done.
  f_equal. apply IH; [done|]. unfold price_ok in Hp1. lia.
Qed.

(** A period of one is no average at all. *)
Lemma calculate_period_one prices : Forall price_ok prices -> prices <> [] -> calculate prices 1 = Ok prices.
Proof.
  intros Hp Hne. destruct prices as [|p prices]; [done|].
  inversion Hp as [|? ? Hp1 Hp2]; subst. unfold calculate. cbn [Z.ltb Z.compare].
  change (Z.to_nat 1) with 1%nat. rewrite (proj2 (Nat.ltb_ge _ _)) by (simpl; lia).
  assert (seedQ (p :: prices) 1 = p * 65536) as ->.
  { unfold seedQ. change (Z.to_nat 1) with 1%nat. rewrite firstn_cons, firstn_O. cbn [foldl]. cbv zeta.
    rewrite Z.shiftl_mul_pow2 by (unfold kFractionBits; lia).
    change (2 ^ kFractionBits) with 65536. change (1 ÷ 2) with 0. unfold price_ok in Hp1.
    rewrite Z.add_0_l, Z.add_0_r, Z.quot_1_r, (i64_id p) by ilia.
    rewrite (i64_id (p * 65536)), i64_id by ilia. reflexivity. }
  rewrite toQ_round by done. change (alphaQ 1) with 65536. cbn [Nat.sub repeat app drop].
  rewrite run_full; [done|done|unfold price_ok in Hp1; lia].
Qed.
End EmaFacts.

(** C40: on prices inside [lo, hi] (the engine's non-negative points below 2^23)
    the EMA succeeds.  Fewer prices than the period give all zeros.  Otherwise
    there is one output per price, 0 before the seed, and inside [lo, hi] from the
    seed on: no intermediate wraps.  With [lo = hi] this is the stationarity of a
    constant series that the header promises. *)
Theorem ema_calculate_bounds (prices : list Z) (period lo hi : Z)
    (Hperiod : 1 <= period <= 8388608) (Hlo : 0 <= lo) (Hhi : hi < 8388608)
    (Hprices : Forall (fun p => lo <= p <= hi) prices) :
  (Z.of_nat (length prices) < period ->
     Ema.calculate prices period = Ok (repeat 0 (length prices))) /\
  (period <= Z.of_nat (length prices) ->
     exists out, Ema.calculate prices period = Ok out /\
       length out = length prices /\
       Forall (fun x => x = 0) (take (Z.to_nat period - 1) out) /\
       Forall (fun x => lo <= x <= hi) (drop (Z.to_nat period - 1) out)).
Proof.
  unfold Ema.calculate. rewrite (proj2 (Z.ltb_ge period 1)) by lia.
  split; intros Hn.
  { rewrite (proj2 (Nat.ltb_lt _ _)) by lia. done. }
  rewrite (proj2 (Nat.ltb_ge _ _)) by lia.
  assert (Z.to_nat period <= length prices)%nat as Hwarm by lia.
  pose proof (alphaQ_range period ltac:(lia)) as Ha.
  pose proof (seedQ_bounds lo hi prices period Hperiod Hwarm Hlo Hhi Hprices) as Hseed.
  set (n := Z.to_nat period) in *.
  set (tail := Ema.roundToPoints _ :: Ema.run _ _ _).
  exists (repeat 0 (n - 1) ++ tail).
  assert (length (repeat 0 (n - 1)) = (n - 1)%nat) as Hlen by apply repeat_length.
  split; [done|]. split; [|split].
  - rewrite length_app, Hlen. unfold tail. cbn [length]. rewrite run_length, length_drop. lia.
  - rewrite take_app_length' by done. apply Forall_forall. intros x Hx.
    apply list_elem_of_In in Hx. now apply repeat_spec in Hx.
  - rewrite drop_app_length' by done. unfold tail. constructor.
    + apply roundToPoints_bounds; lia.
    + apply run_bounds; auto. now apply Forall_drop.
Qed.

Lemma ema_calculate_bounds_witness :
  exists out, Ema.calculate [110; 104; 107; 108; 101] 3 = Ok out /\
    Forall (fun x => 101 <= x <= 110) (drop 2 out).
Proof.
  destruct (ema_calculate_bounds [110; 104; 107; 108; 101] 3 101 110) as [_ H];
    [lia|lia|lia|repeat constructor; lia|].
  destruct H as (out & H1 & _ & _ & H2); [simpl; lia|]. exists out. split; [exact H1|exact H2].
Defined.

(** * Facts: ATR *)

Lemma true_range_bounds prev cur :
  bar_ok prev -> bar_ok cur -> 0 <= Atr.true_range prev cur < 8388608.
Proof.
  unfold bar_ok, price_ok, Atr.true_range. intros Hp Hc.
  rewrite !i64_id by ilia. lia.
Qed.

Lemma true_ranges_bounds candles :
  Forall bar_ok candles -> Forall (fun r => 0 <= r < 8388608) (Atr.true_ranges candles).
Proof.
  induction candles as [|a candles IH]; intros H; [constructor|].
  destruct candles as [|b candles]; [constructor|].
  inversion H as [|? ? Ha Hrest]; subst. inversion Hrest as [|? ? Hb _]; subst.
  change (Atr.true_ranges (a :: b :: candles))
    with (Atr.true_range a b :: Atr.true_ranges (b :: candles)).
  constructor; [now apply true_range_bounds|auto].
Qed.

Lemma true_ranges_length candles : length (Atr.true_ranges candles) = (length candles - 1)%nat.
Proof.
  induction candles as [|a candles IH]; [done|].
  destruct candles as [|b candles]; [done|].
  change (Atr.true_ranges (a :: b :: candles))
    with (Atr.true_range a b :: Atr.true_ranges (b :: candles)).
  cbn [length] in *. rewrite IH. lia.
Qed.

(** On well-formed bars the warm ATR is the rounded mean, computed exactly. *)
Lemma atr_calculate_exact candles period :
  1 <= period < 2147483648 -> Forall bar_ok candles -> period < Z.of_nat (length candles) ->
  let trs := Atr.true_ranges (last_n (Z.to_nat period + 1) candles) in
  length trs = Z.to_nat period /\ Forall (fun r => 0 <= r < 8388608) trs /\
  Atr.calculate candles period = Ok ((sum_list_Z trs + period / 2) / period).
Proof.
  intros Hp Hok Hlen trs. unfold Atr.calculate.
  rewrite (proj2 (Z.ltb_ge period 1)) by lia. rewrite (proj2 (Nat.ltb_ge _ _)) by lia.
  fold trs.
  assert (length trs = Z.to_nat period) as Htrs
    by (unfold trs; rewrite true_ranges_length, last_n_length; lia).
  assert (Forall (fun r => 0 <= r < 8388608) trs) as Hall.
  { apply true_ranges_bounds. unfold last_n. now apply Forall_drop. }
  split; [done|]. split; [done|].
  pose proof (sum_list_Z_bound 0 8388607 trs) as Hs.
  rewrite Htrs, Z2Nat.id in Hs by lia.
  assert (0 <= sum_list_Z trs <= 8388607 * period) as Hsum.
  { rewrite Z.mul_0_l in Hs. apply Hs. eapply Forall_impl; [exact Hall|]. simpl. lia. }
  rewrite foldl_i64_exact by ilia.
  pose proof (rounded_mean_bounds 0 8388607 (sum_list_Z trs) period) as Hm.
  rewrite (Z.quot_div_nonneg period 2) in * by lia.
  assert (0 <= period / 2 <= period) by (Z.div_mod_to_equations; lia).
  rewrite (i64_id (sum_list_Z trs + period / 2)) by ilia.
  rewrite Z.quot_div_nonneg in * by lia.
  rewrite i32_id; [done|]. ilia.
Qed.

(** The ATR of well-formed bars.  Fewer than [period + 1] candles are not warm
    and give 0.  Otherwise the result is the round-half-up mean of the last
    [period] true ranges, exactly (no wrap), so it is non-negative, lies between
    the smallest and the largest of them, and ignores every earlier candle. *)
Theorem atr_calculate_mean (candles : list OhlcObject) (period : Z)
    (Hperiod : 1 <= period < 2147483648) (Hok : Forall bar_ok candles) :
  (Z.of_nat (length candles) <= period -> Atr.calculate candles period = Ok 0) /\
  (period < Z.of_nat (length candles) ->
     let recent := last_n (Z.to_nat period + 1) candles in
     let trs := Atr.true_ranges recent in
     exists v, Atr.calculate candles period = Ok v /\
       v = (sum_list_Z trs + period / 2) / period /\ 0 <= v /\
       (forall lo hi, Forall (fun r => lo <= r <= hi) trs -> lo <= v <= hi) /\
       (forall older, Atr.calculate (older ++ recent) period = Ok v)).
Proof.
  split.
  { intros Hcold. unfold Atr.calculate. rewrite (proj2 (Z.ltb_ge period 1)) by lia.
    now rewrite (proj2 (Nat.ltb_lt _ _)) by lia. }
  intros Hwarm recent trs.
  destruct (atr_calculate_exact candles period Hperiod Hok Hwarm) as (Hlen & Hall & Hcalc).
  fold recent in Hlen, Hall, Hcalc. fold trs in Hlen, Hall, Hcalc.
  assert (0 <= sum_list_Z trs) as Hnn.
  { pose proof (sum_list_Z_bound 0 8388607 trs) as H. rewrite Z.mul_0_l in H. apply H.
    eapply Forall_impl; [exact Hall|]. simpl. lia. }
  exists ((sum_list_Z trs + period / 2) / period). split; [done|]. split; [done|].
  assert (0 <= period / 2) by (apply Z.div_pos; lia).
  split; [apply Z.div_pos; lia|]. split.
  - intros lo hi Hb. pose proof (sum_list_Z_bound lo hi trs Hb) as Hs.
    rewrite Hlen, Z2Nat.id in Hs by lia.
    pose proof (rounded_mean_bounds lo hi (sum_list_Z trs) period) as Hm.
    rewrite (Z.quot_div_nonneg period 2), Z.quot_div_nonneg in Hm by lia. apply Hm; lia.
  - intros older. rewrite <- Hcalc. unfold Atr.calculate.
    assert (length recent = (Z.to_nat period + 1)%nat)
      by (unfold recent; rewrite last_n_length; lia).
    rewrite length_app, !(proj2 (Nat.ltb_ge _ _)) by lia.
    rewrite last_n_app, last_n_all by lia. reflexivity.
Qed.

Definition flat_bar (ts p : Z) : OhlcObject := mkOhlcObject ts p p (p + 4) p true.

Lemma atr_calculate_mean_witness :
  exists v, Atr.calculate [flat_bar 0 100; flat_bar 1 110; flat_bar 2 100] 2 = Ok v /\ 10 <= v <= 14.
Proof.
  destruct (atr_calculate_mean [flat_bar 0 100; flat_bar 1 110; flat_bar 2 100] 2) as [_ H];
    [lia| |].
  { repeat constructor; simpl; lia. }
  destruct H as (v & H1 & _ & _ & H2 & _); [simpl; lia|].
  exists v. split; [exact H1|]. apply H2. vm_compute. repeat constructor; discriminate.
Defined.

(** * Facts: swing pivots *)
Section SwingFacts.
Import SwingPivots.

(** With both wings in range the loop decides whether any wing bar beats. *)
Lemma wings_clear_spec beaten bars index wings :
  Forall (fun w => (w <= index)%nat /\ (index + w < length bars)%nat) wings ->
  exists r, wings_clear beaten bars index wings = Ok r /\
    (r = true <-> forall w b, w ∈ wings ->
       bars !! (index - w)%nat = Some b \/ bars !! (index + w)%nat = Some b ->
       beaten b = false).
Proof.
  induction wings as [|w wings IH]; intros Hall; cbn [wings_clear].
  { exists true. split; [done|]. split; [intros _ w b Hw; set_solver|done]. }
  inversion Hall as [|? ? [Hw1 Hw2] Hrest]; subst.
  destruct (IH Hrest) as (r & Hr & Hspec). clear IH.
  unfold read_left. rewrite (proj2 (Nat.leb_le _ _) Hw1).
  destruct (lookup_lt_is_Some_2 bars (index - w)%nat) as [bl Hbl]; [lia|].
  destruct (lookup_lt_is_Some_2 bars (index + w)%nat) as [br Hbr]; [lia|].
  rewrite Hbl, Hbr.
  destruct (beaten bl) eqn:El; [|destruct (beaten br) eqn:Er].
  - exists false. split; [done|]. split; [done|]. intros H.
    rewrite (H w bl) in El; [done|set_solver|auto].
  - exists false. split; [done|]. split; [done|]. intros H.
    rewrite (H w br) in Er; [done|set_solver|auto].
  - exists r. split; [exact Hr|]. rewrite Hspec. split; intros H w' b Hw' Hb.
    + apply elem_of_cons in Hw' as [->|Hw']; [|eauto].
      rewrite Hbl, Hbr in Hb. destruct Hb as [[= <-]|[= <-]]; done.
    + apply (H w' b); [set_solver|done].
Qed.

(** A wing scan decides [pivot_at] for the strict order it negates. *)
Lemma wings_clear_pivot (better : OhlcObject -> OhlcObject -> Prop) beaten bars index w b :
  (forall b', beaten b' = false <-> better b b') ->
  bars !! index = Some b -> (w <= index)%nat -> (index + w < length bars)%nat ->
  exists r, wings_clear beaten bars index (seq 1 w) = Ok r /\
    (r = true <-> pivot_at better bars index w).
Proof.
  intros Hbeat Hb Hl Hr.
  destruct (wings_clear_spec beaten bars index (seq 1 w)) as (r & Hrun & Hspec).
  { apply Forall_forall. intros x Hx. apply elem_of_seq in Hx. lia. }
  exists r. split; [done|]. rewrite Hspec. unfold pivot_at. split.
  - intros H j b0 b' Hb0 Hb' Hne Hj. rewrite Hb in Hb0. injection Hb0 as <-.
    apply Hbeat. destruct (le_lt_dec j index).
    + apply (H (index - j)%nat); [apply elem_of_seq; lia|left].
      now replace (index - (index - j))%nat with j by lia.
    + apply (H (j - index)%nat); [apply elem_of_seq; lia|right].
      now replace (index + (j - index))%nat with j by lia.
  - intros H x b' Hx Hb'. apply elem_of_seq in Hx. apply Hbeat.
    destruct Hb' as [Hb'|Hb']; eapply H; eauto; lia.
Qed.
End SwingFacts.

Lemma isSwingHighAt_spec bars index pivotBars :
  1 <= pivotBars -> pivotBars <= Z.of_nat index ->
  Z.of_nat index + pivotBars < Z.of_nat (length bars) ->
  exists r, SwingPivots.isSwingHighAt bars index pivotBars = Ok r /\
    (r = true <->
     SwingPivots.pivot_at (fun b b' => high b' < high b) bars index (Z.to_nat pivotBars)).
Proof.
  intros Hw Hl Hr. unfold SwingPivots.isSwingHighAt.
  destruct (lookup_lt_is_Some_2 bars index) as [b Hb]; [lia|].
  rewrite Hb, (proj2 (Z.ltb_ge pivotBars 1)) by lia.
  eapply wings_clear_pivot; eauto; lia.
Qed.

Lemma isSwingLowAt_spec bars index pivotBars :
  1 <= pivotBars -> pivotBars <= Z.of_nat index ->
  Z.of_nat index + pivotBars < Z.of_nat (length bars) ->
  exists r, SwingPivots.isSwingLowAt bars index pivotBars = Ok r /\
    (r = true <->
     SwingPivots.pivot_at (fun b b' => low b < low b') bars index (Z.to_nat pivotBars)).
Proof.
  intros Hw Hl Hr. unfold SwingPivots.isSwingLowAt.
  destruct (lookup_lt_is_Some_2 bars index) as [b Hb]; [lia|].
  rewrite Hb, (proj2 (Z.ltb_ge pivotBars 1)) by lia.
  eapply wings_clear_pivot; eauto; lia.
Qed.

(** Inside the documented precondition (both wings in range) the two pivot
    predicates never read out of range and decide the fractal definition: the
    bar's high (low) is strictly above (below) every other bar of the two wings;
    and a window without wings is refused. *)
Theorem swing_pivots_decide (bars : list OhlcObject) (index : nat) (pivotBars : Z)
    (Hwing : 1 <= pivotBars) (Hleft : pivotBars <= Z.of_nat index)
    (Hright : Z.of_nat index + pivotBars < Z.of_nat (length bars)) :
  let w := Z.to_nat pivotBars in
  (exists r, SwingPivots.isSwingHighAt bars index pivotBars = Ok r /\
     (r = true <-> SwingPivots.pivot_at (fun b b' => high b' < high b) bars index w)) /\
  (exists r, SwingPivots.isSwingLowAt bars index pivotBars = Ok r /\
     (r = true <-> SwingPivots.pivot_at (fun b b' => low b < low b') bars index w)) /\
  SwingPivots.isSwingHighAt bars index 0 = Throw InvalidArgument /\
  SwingPivots.isSwingLowAt bars index 0 = Throw InvalidArgument.
Proof.
  intros w. split; [now apply isSwingHighAt_spec|]. split; [now apply isSwingLowAt_spec|done].
Qed.

Lemma swing_pivots_decide_witness :
  exists r, SwingPivots.isSwingHighAt [flat_bar 0 100; flat_bar 1 110; flat_bar 2 100] 1 1 = Ok r /\
    (r = true <-> SwingPivots.pivot_at (fun b b' => high b' < high b)
       [flat_bar 0 100; flat_bar 1 110; flat_bar 2 100] 1 1).
Proof.
  apply (swing_pivots_decide [flat_bar 0 100; flat_bar 1 110; flat_bar 2 100] 1 1);
    simpl; lia.
Defined.
