(* ===== verification/MonoDeque.v ===== *)
(** The monotonic deque shared by the range-bar window (rangeBarBuilder.cppm) and
    by the pattern trackers (chainMatcher.cppm): entries carry a key (a tick
    index or a timestamp) and a value, the front is the oldest.

    [push] is the pop-back loop followed by [push_back]; [expire] is the
    pop-front loop. The abstraction is [suffmax w], the entries of the window
    [w] that no later entry dominates: the deque of a window is always its
    [suffmax], so its front is the extreme value of the window. *)
From S2P Require Import Prelude.

(** [dom new old]: a new value makes an old entry useless. *)
Class Dominance (dom : Z -> Z -> bool) : Prop := {
  dom_refl a : dom a a = true;
  dom_trans a b c : dom a b = true -> dom b c = true -> dom a c = true;
  dom_total a b : dom a b = false -> dom b a = true;
}.

(** The maximum deque pops what is at most the new value, the minimum deque what
    is at least the new value. *)
Definition dom_max (new old : Z) : bool := old <=? new.
Definition dom_min (new old : Z) : bool := new <=? old.

#[export] Instance dom_max_dominance : Dominance dom_max.
Proof. unfold dom_max. split; intros; zbool; lia. Qed.

#[export] Instance dom_min_dominance : Dominance dom_min.
Proof. unfold dom_min. split; intros; zbool; lia. Qed.

Fixpoint drop_while {A : Type} (p : A -> bool) (l : list A) : list A :=
  match l with
  | [] => []
  | x :: l' => if p x then drop_while p l' else l
  end.

Section Deque.
Context {V : Type} (value : V -> Z) (dom : Z -> Z -> bool).

Definition push (dq : list V) (e : V) : list V :=
  rev (drop_while (fun old => dom (value e) (value old)) (rev dq)) ++ [e].

Definition expire (dead : V -> bool) (dq : list V) : list V := drop_while dead dq.

Fixpoint suffmax (w : list V) : list V :=
  match w with
  | [] => []
  | x :: w' =>
      if existsb (fun y => dom (value y) (value x)) w' then suffmax w' else x :: suffmax w'
  end.
End Deque.

Lemma strongly_sorted_impl {A} (R S : A -> A -> Prop) l :
  (forall x y, R x y -> S x y) -> StronglySorted R l -> StronglySorted S l.
Proof.
  intros H. induction 1 as [|x l Hl IH Hx]; constructor; [done|].
  eapply Forall_impl; [exact Hx|]. auto.
Qed.

Section DropWhile.
Context {A : Type} (p : A -> bool).
Implicit Types (l : list A).

Lemma drop_while_all l1 l2 :
  Forall (fun x => p x = true) l1 -> drop_while p (l1 ++ l2) = drop_while p l2.
Proof. induction 1 as [|x l H Hl IH]; [done|]. simpl. now rewrite H. Qed.

Lemma drop_while_none l : Forall (fun x => p x = false) l -> drop_while p l = l.
Proof. destruct 1 as [|x l H Hl]; [done|]. simpl. now rewrite H. Qed.

(** When [p] can only hold on a final part of [l], popping that part from the
    back is filtering. *)
Lemma pop_back_filter l :
  StronglySorted (fun x y => p x = true -> p y = true) l ->
  rev (drop_while p (rev l)) = List.filter (fun x => negb (p x)) l.
Proof.
  induction 1 as [|x l Hl IH Hx]; [done|]. cbn [rev List.filter].
  destruct (p x) eqn:E; cbn [negb].
  - assert (Forall (fun y => p y = true) l) as Hall
      by (eapply Forall_impl; [exact Hx|]; simpl; auto).
    rewrite drop_while_all by now apply Forall_rev.
    simpl. rewrite E. symmetry. clear - Hall.
    induction Hall as [|y l Hy _ IHl]; [done|]. simpl. now rewrite Hy.
  - rewrite <- IH. destruct (drop_while p (rev l ++ [x])) eqn:Ed.
    + exfalso. clear - Ed E. induction (rev l) as [|y r IHr]; simpl in Ed; [now rewrite E in Ed|].
      destruct (p y); [auto|discriminate].
    + rewrite <- Ed. clear - E. induction (rev l) as [|y r IHr]; simpl; [now rewrite E|].
      destruct (p y); [exact IHr|]. simpl. now rewrite rev_app_distr.
Qed.
End DropWhile.

Section DequeFacts.
Context {V : Type} (value : V -> Z) (dom : Z -> Z -> bool) {D : Dominance dom}.
Implicit Types (w : list V).
Local Notation suffmax := (suffmax value dom).
Local Notation push := (push value dom).

Lemma suffmax_in w x : x ∈ suffmax w -> x ∈ w.
Proof.
  induction w as [|y w IH]; simpl; [done|].
  destruct (existsb _ w); set_solver.
Qed.

(** Entries of a [suffmax] strictly beat what comes after them. *)
Lemma suffmax_sorted w :
  StronglySorted (fun x y => dom (value y) (value x) = false) (suffmax w).
Proof.
  induction w as [|x w IH]; simpl; [constructor|].
  destruct (existsb _ w) eqn:E; [done|]. constructor; [done|].
  apply Forall_forall. intros y Hy. apply suffmax_in in Hy.
  apply not_true_is_false. intros Hd. apply not_true_iff_false in E. apply E.
  apply existsb_exists. exists y. split; [now apply list_elem_of_In|done].
Qed.

Lemma suffmax_snoc w e :
  suffmax (w ++ [e]) =
  List.filter (fun x => negb (dom (value e) (value x))) (suffmax w) ++ [e].
Proof.
  induction w as [|x w IH]; [done|]. simpl.
  rewrite existsb_app. simpl. rewrite orb_false_r.
  destruct (existsb (fun y => dom (value y) (value x)) w) eqn:Ew; simpl; [done|].
  destruct (dom (value e) (value x)) eqn:Ee; simpl; [done|]. now rewrite IH.
Qed.

Lemma push_suffmax w e : push (suffmax w) e = suffmax (w ++ [e]).
Proof.
  unfold push. rewrite suffmax_snoc, pop_back_filter; [done|].
  eapply strongly_sorted_impl; [|apply suffmax_sorted].
  intros x y Hxy Hx. simpl in *. eapply dom_trans; [exact Hx|]. now apply dom_total.
Qed.

(** Expiry removes the dead prefix of the window and nothing else. *)
Lemma expire_suffmax dead w1 w2 :
  Forall (fun x => dead x = true) w1 -> Forall (fun x => dead x = false) w2 ->
  expire dead (suffmax (w1 ++ w2)) = suffmax w2.
Proof.
  intros H1 H2. induction H1 as [|x w1 Hx H1 IH]; simpl.
  - apply drop_while_none. apply Forall_forall. intros x Hx.
    apply suffmax_in in Hx. rewrite Forall_forall in H2. auto.
  - destruct (existsb _ _); [done|]. simpl. now rewrite Hx.
Qed.

Lemma suffmax_cons_inv w : w <> [] -> exists x dq, suffmax w = x :: dq.
Proof.
  intros Hw. destruct w as [|x w] using rev_ind; [done|].
  rewrite suffmax_snoc. destruct (List.filter _ _) as [|y l]; simpl; eauto.
Qed.

Lemma suffmax_front w x dq :
  suffmax w = x :: dq -> x ∈ w /\ forall y, y ∈ w -> dom (value x) (value y) = true.
Proof.
  intros Hw. split; [apply suffmax_in; rewrite Hw; set_solver|].
  revert x dq Hw. induction w as [|z w IH]; intros x dq Hw y Hy; [set_solver|].
  simpl in Hw. destruct (existsb (fun y => dom (value y) (value z)) w) eqn:E.
  - apply elem_of_cons in Hy as [->|Hy]; [|eauto].
    apply existsb_exists in E as (u & Hu & Hd).
    eapply dom_trans; [|exact Hd]. eapply IH; eauto. now apply list_elem_of_In.
  - injection Hw as <- _. apply elem_of_cons in Hy as [->|Hy]; [apply dom_refl|].
    apply dom_total. apply not_true_is_false. intros Hd.
    apply not_true_iff_false in E. apply E. apply existsb_exists.
    exists y. split; [now apply list_elem_of_In|done].
Qed.
End DequeFacts.

(** * The extreme values of a window *)

(** The maximum and minimum value of a window, 0 when it is empty. *)
Definition max_of (l : list Z) : Z :=
  match l with [] => 0 | x :: l' => foldr Z.max x l' end.
Definition min_of (l : list Z) : Z :=
  match l with [] => 0 | x :: l' => foldr Z.min x l' end.

Lemma max_of_upper l y : y ∈ l -> y <= max_of l.
Proof.
  destruct l as [|x l]; [set_solver|]. simpl. revert y.
  induction l as [|z l IH]; intros y Hy; simpl; [set_solver by lia|].
  apply elem_of_cons in Hy as [->|Hy]; [specialize (IH x ltac:(set_solver)); lia|].
  apply elem_of_cons in Hy as [->|Hy]; [lia|]. specialize (IH y ltac:(set_solver)). lia.
Qed.

Lemma max_of_in l : l <> [] -> max_of l ∈ l.
Proof.
  destruct l as [|x l]; [done|]. intros _. simpl.
  induction l as [|z l IH]; simpl; [set_solver|].
  destruct (Z.max_spec z (foldr Z.max x l)) as [[_ ->]|[_ ->]]; set_solver.
Qed.

Lemma min_of_lower l y : y ∈ l -> min_of l <= y.
Proof.
  destruct l as [|x l]; [set_solver|]. simpl. revert y.
  induction l as [|z l IH]; intros y Hy; simpl; [set_solver by lia|].
  apply elem_of_cons in Hy as [->|Hy]; [specialize (IH x ltac:(set_solver)); lia|].
  apply elem_of_cons in Hy as [->|Hy]; [lia|]. specialize (IH y ltac:(set_solver)). lia.
Qed.

Lemma min_of_in l : l <> [] -> min_of l ∈ l.
Proof.
  destruct l as [|x l]; [done|]. intros _. simpl.
  induction l as [|z l IH]; simpl; [set_solver|].
  destruct (Z.min_spec z (foldr Z.min x l)) as [[_ ->]|[_ ->]]; set_solver.
Qed.

Lemma max_of_spec l m : m ∈ l -> (forall y, y ∈ l -> y <= m) -> max_of l = m.
Proof.
  intros Hm Hmax. pose proof (max_of_upper l m Hm).
  pose proof (Hmax _ (max_of_in l ltac:(intros ->; set_solver))). lia.
Qed.

Lemma min_of_spec l m : m ∈ l -> (forall y, y ∈ l -> m <= y) -> min_of l = m.
Proof.
  intros Hm Hmin. pose proof (min_of_lower l m Hm).
  pose proof (Hmin _ (min_of_in l ltac:(intros ->; set_solver))). lia.
Qed.

Lemma max_deque_front {V} (value : V -> Z) (w : list V) x dq :
  suffmax value dom_max w = x :: dq -> value x = max_of (map value w).
Proof.
  intros H. pose proof (suffmax_front value dom_max w x dq H) as [Hin Hd].
  symmetry. apply max_of_spec.
  - apply list_elem_of_In, in_map, list_elem_of_In, Hin.
  - intros y Hy. apply list_elem_of_In, in_map_iff in Hy as (e & <- & He).
    specialize (Hd e (proj2 (list_elem_of_In _ _) He)). unfold dom_max in Hd. zbool. lia.
Qed.

Lemma min_deque_front {V} (value : V -> Z) (w : list V) x dq :
  suffmax value dom_min w = x :: dq -> value x = min_of (map value w).
Proof.
  intros H. pose proof (suffmax_front value dom_min w x dq H) as [Hin Hd].
  symmetry. apply min_of_spec.
  - apply list_elem_of_In, in_map, list_elem_of_In, Hin.
  - intros y Hy. apply list_elem_of_In, in_map_iff in Hy as (e & <- & He).
    specialize (Hd e (proj2 (list_elem_of_In _ _) He)). unfold dom_min in Hd. zbool. lia.
Qed.
