(* ===== verification/RangeBar.v ===== *)
(** rangeBarBuilder.cppm: event-driven range bars whose threshold comes from the
    rolling high-low range of the last [atrTickWindow] ticks. *)
From S2P Require Import Prelude Models MonoDeque OhlcBuilder.
From S2P Require SymbolScale.

Record RangeBarSpec : Type := mkRangeBarSpec {
  atrTickWindow : Z;
  atrPercent : Z;
  count : Z;
}.

Definition sameIdentity (a b : RangeBarSpec) : bool :=
  (atrTickWindow a =? atrTickWindow b) && (atrPercent a =? atrPercent b).

Definition kMaxPrepopulateTicks : Z := 1000000.

Definition prepopulateTickCap (spec : RangeBarSpec) : Z :=
  let ticksPerBar := ((atrTickWindow spec *₆₄ atrPercent spec) +₆₄ 99) ÷ 100 in
  let margin := (2 *₆₄ count spec) *₆₄ ticksPerBar in
  Z.min (atrTickWindow spec +₆₄ margin) kMaxPrepopulateTicks.

Definition prepopulateTicksQuery (symbol : string) (before : Z) (spec : RangeBarSpec) : string :=
  ("SELECT '" +:+ symbol +:+ "' as symbol, ask, bid, timestamp FROM '" +:+ symbol +:+ "' "
   +:+ "WHERE timestamp < cast(" +:+ pretty before +:+ "L AS timestamp) "
   +:+ "ORDER BY timestamp DESC LIMIT " +:+ pretty (prepopulateTickCap spec))%string.

(** The guard every entry point repeats. *)
Definition spec_positive (spec : RangeBarSpec) : bool :=
  negb ((atrTickWindow spec <? 1) || (atrPercent spec <? 1) || (count spec <? 1)).

Definition prepopulateTicks {W : World} (symbol : string) (before : Z) (spec : RangeBarSpec)
    : list PriceData :=
  if negb (spec_positive spec) then []
  else if negb (String.eqb env_OHLC_PREPOPULATE "1") then []
  else if SymbolScale.get symbol =? SymbolScale.kUnknown then []
  else match executeQuery (prepopulateTicksQuery symbol before spec) with
       | Some rows => rev rows
       | None => []
       end.

(** [RangeSeries::Entry]. *)
Record Entry : Type := mkEntry { idx : Z; price : Z }.

Record RangeSeries : Type := mkSeries {
  spec_ : RangeBarSpec;
  bars_ : list OhlcObject;
  maxDeque_ : list Entry;
  minDeque_ : list Entry;
  tickIndex_ : Z;
  lockedThreshold_ : Z;
  prepopulateAttempted_ : bool;
}.

(** The constructor. *)
Definition makeRangeSeries (spec : RangeBarSpec) : result RangeSeries :=
  if spec_positive spec then Ok (mkSeries spec [] [] [] 0 0 false)
  else Throw InvalidArgument.

Definition warm (s : RangeSeries) : bool := atrTickWindow (spec_ s) <=? tickIndex_ s.

Definition deque_range (maxDeque minDeque : list Entry) : Z :=
  match maxDeque, minDeque with
  | hi :: _, lo :: _ => price hi -₃₂ price lo
  | _, _ => 0
  end.

Definition windowRange (s : RangeSeries) : Z := deque_range (maxDeque_ s) (minDeque_ s).

(** An index fell out of the last-[window] ticks. *)
Definition expired (window tickIndex : Z) (e : Entry) : bool := idx e + window <=? tickIndex.

(** Step (1): the rolling window. *)
Definition advance_window (s : RangeSeries) (price' : Z) : RangeSeries :=
  let tickIndex := tickIndex_ s + 1 in
  let dead := expired (atrTickWindow (spec_ s)) tickIndex in
  let e := mkEntry tickIndex price' in
  mkSeries (spec_ s) (bars_ s)
    (expire dead (push price dom_max (maxDeque_ s) e))
    (expire dead (push price dom_min (minDeque_ s) e))
    tickIndex (lockedThreshold_ s) (prepopulateAttempted_ s).

(** The threshold a bar opening now locks. *)
Definition threshold_of (range percent : Z) : Z :=
  i32 (Z.max 1 (((range *₆₄ percent) +₆₄ 50) ÷ 100)).

(** Folds a price into the open bar and closes it when the range is reached. *)
Definition grow_bar (locked price' : Z) (b : OhlcObject) : OhlcObject :=
  let b := touch_bar price' b in
  if locked <=? (high b -₃₂ low b) then set_complete true b else b.

Definition last_is_open (bars : list OhlcObject) : bool :=
  match last bars with Some b => negb (complete b) | None => false end.

(** Steps (2) and (3), on a warm series. *)
Definition advance_bars (s : RangeSeries) (tick : PriceData) : RangeSeries :=
  let '(bars, locked) :=
    if last_is_open (bars_ s)
    then (update_last (grow_bar (lockedThreshold_ s) (ask tick)) (bars_ s), lockedThreshold_ s)
    else (bars_ s ++ [new_bar (timestamp tick) (ask tick)],
          threshold_of (windowRange s) (atrPercent (spec_ s))) in
  let cap := Z.to_nat (count (spec_ s)) in
  let bars := if (cap <? length bars)%nat then last_n cap bars else bars in
  mkSeries (spec_ s) bars (maxDeque_ s) (minDeque_ s) (tickIndex_ s) locked
    (prepopulateAttempted_ s).

Definition applyTick (s : RangeSeries) (tick : PriceData) : RangeSeries :=
  let s := advance_window s (ask tick) in
  if warm s then advance_bars s tick else s.

Definition set_attempted (s : RangeSeries) : RangeSeries :=
  mkSeries (spec_ s) (bars_ s) (maxDeque_ s) (minDeque_ s) (tickIndex_ s)
    (lockedThreshold_ s) true.

Definition update {W : World} (s : RangeSeries) (tick : PriceData) : RangeSeries :=
  let s :=
    if prepopulateAttempted_ s then s
    else foldl applyTick (set_attempted s)
           (prepopulateTicks (symbol tick) (timestamp tick) (spec_ s)) in
  applyTick s tick.

(** ** Specification of the series after a stream of ticks *)

(** The measure the threshold is taken from. *)
Definition range_of (asks : list Z) : Z := max_of asks - min_of asks.

(** Real prices only: every price of a bar is the ask of a tick fed. *)
Definition real_prices (asks : list Z) (b : OhlcObject) : Prop :=
  open b ∈ asks /\ close b ∈ asks /\ high b ∈ asks /\ low b ∈ asks.

(** A closed bar closes at its extreme, away from its open: it is never a doji. *)
Definition closed_at_extreme (b : OhlcObject) : Prop :=
  complete b = true ->
  (close b = high b /\ open b < close b) \/ (close b = low b /\ close b < open b).

(** The state invariant of the bars: at most [count] of them, well formed, made of
    real prices and closed at an extreme, all but the last complete, and the last one complete
    exactly when it has reached the threshold locked when it opened. *)
Definition bars_inv (s : RangeSeries) (asks : list Z) : Prop :=
  (length (bars_ s) <= Z.to_nat (count (spec_ s)))%nat /\
  Forall (fun b => bar_ok b /\ real_prices asks b /\ closed_at_extreme b) (bars_ s) /\
  Forall (fun b => complete b = true) (but_last (bars_ s)) /\
  match last (bars_ s) with
  | None => True
  | Some b =>
      1 <= lockedThreshold_ s < 2147483648 /\
      (complete b = true <-> lockedThreshold_ s <= high b - low b)
  end.

(** A spec inside the range where the threshold does not wrap. *)
Definition spec_ok (spec : RangeBarSpec) : Prop :=
  1 <= atrTickWindow spec /\ 1 <= atrPercent spec <= 25000 /\ 1 <= count spec.

(** The window invariant: the deques of the last [atrTickWindow] of the ticks
    [asks] fed so far. *)
Fixpoint entries_from (i : Z) (asks : list Z) : list Entry :=
  match asks with
  | [] => []
  | a :: asks' => mkEntry i a :: entries_from (i + 1) asks'
  end.

Definition window_of (s : RangeSeries) (asks : list Z) : list Entry :=
  last_n (Z.to_nat (atrTickWindow (spec_ s))) (entries_from 1 asks).

Definition window_inv (s : RangeSeries) (asks : list Z) : Prop :=
  tickIndex_ s = Z.of_nat (length asks) /\
  maxDeque_ s = suffmax price dom_max (window_of s asks) /\
  minDeque_ s = suffmax price dom_min (window_of s asks).

(** * Facts *)

Lemma entries_from_length i asks : length (entries_from i asks) = length asks.
Proof. revert i; induction asks; intros; simpl; auto. Qed.

Lemma entries_from_snoc i asks a :
  entries_from i (asks ++ [a]) =
  entries_from i asks ++ [mkEntry (i + Z.of_nat (length asks)) a].
Proof.
  revert i; induction asks as [|x asks IH]; intros i; cbn [entries_from app length].
  - now rewrite Z.add_0_r.
  - rewrite IH. do 4 f_equal. lia.
Qed.

Lemma entries_from_prices i asks : map price (entries_from i asks) = asks.
Proof. revert i; induction asks; intros; simpl; f_equal; auto. Qed.

Lemma entries_from_lookup i asks k e :
  entries_from i asks !! k = Some e -> idx e = i + Z.of_nat k.
Proof.
  revert i k; induction asks as [|a asks IH]; intros i k H; [done|].
  destruct k as [|k]; simpl in H; [injection H as <-; simpl; lia|].
  apply IH in H. lia.
Qed.

Lemma window_of_prices s asks :
  map price (window_of s asks) = last_n (Z.to_nat (atrTickWindow (spec_ s))) asks.
Proof.
  unfold window_of, last_n. rewrite entries_from_length.
  rewrite <- skipn_map, entries_from_prices. reflexivity.
Qed.

(** After a tick the dead entries are exactly those before the last [window]. *)
Lemma expired_split window asks :
  1 <= window ->
  let entries := entries_from 1 asks in
  let cut := (length asks - Z.to_nat window)%nat in
  Forall (fun e => expired window (Z.of_nat (length asks)) e = true) (take cut entries) /\
  Forall (fun e => expired window (Z.of_nat (length asks)) e = false) (drop cut entries).
Proof.
  intros Hw entries cut. unfold expired. split; apply Forall_lookup; intros k e Hk.
  - pose proof (lookup_lt_Some _ _ _ Hk) as Hlt. rewrite length_take in Hlt.
    rewrite lookup_take_lt in Hk by lia. apply entries_from_lookup in Hk. zbool. lia.
  - pose proof (lookup_lt_Some _ _ _ Hk) as Hlt. rewrite length_drop in Hlt.
    unfold entries in Hlt. rewrite entries_from_length in Hlt.
    rewrite lookup_drop in Hk. apply entries_from_lookup in Hk. zbool. lia.
Qed.

(** One deque through one tick. *)
Lemma deque_step (dom : Z -> Z -> bool) {D : Dominance dom} window asks a :
  1 <= window ->
  expire (expired window (Z.of_nat (length asks) + 1))
    (push price dom
       (suffmax price dom (last_n (Z.to_nat window) (entries_from 1 asks)))
       (mkEntry (Z.of_nat (length asks) + 1) a)) =
  suffmax price dom (last_n (Z.to_nat window) (entries_from 1 (asks ++ [a]))).
Proof.
  intros Hw. rewrite push_suffmax by apply _.
  set (w := last_n _ (entries_from 1 asks)).
  pose proof (expired_split window (asks ++ [a]) Hw) as [Hdead Hlive]. cbv zeta in *.
  rewrite !length_app in Hdead, Hlive. cbn [length] in Hdead, Hlive.
  rewrite Nat2Z.inj_add in Hdead, Hlive. change (Z.of_nat 1) with 1 in *.
  set (all := entries_from 1 (asks ++ [a])) in *.
  set (cut := (length asks + 1 - Z.to_nat window)%nat) in *.
  assert (last_n (Z.to_nat window) all = drop cut all) as ->.
  { unfold last_n, all, cut. rewrite entries_from_length, length_app. done. }
  assert (all = entries_from 1 asks ++ [mkEntry (Z.of_nat (length asks) + 1) a]) as Hall.
  { unfold all. rewrite entries_from_snoc. do 2 f_equal. f_equal. lia. }
  set (cut0 := (length asks - Z.to_nat window)%nat).
  assert (w ++ [mkEntry (Z.of_nat (length asks) + 1) a] =
          drop cut0 (take cut all) ++ drop cut all) as ->.
  { unfold w, last_n. rewrite entries_from_length. fold cut0.
    rewrite <- (drop_app_le (take cut all)), take_drop, Hall
      by (rewrite length_take, Hall, length_app, entries_from_length; simpl; lia).
    rewrite drop_app_le by (rewrite entries_from_length; lia). reflexivity. }
  apply (expire_suffmax price dom); [now apply Forall_drop|exact Hlive].
Qed.

Lemma advance_window_inv s asks a :
  1 <= atrTickWindow (spec_ s) -> window_inv s asks ->
  window_inv (advance_window s a) (asks ++ [a]).
Proof.
  intros Hw (Hi & Hmax & Hmin). unfold window_inv, advance_window, window_of. cbn.
  rewrite length_app. cbn [length]. split; [lia|].
  rewrite Hmax, Hmin, Hi. unfold window_of.
  split; apply deque_step; auto; apply _.
Qed.

Lemma windowRange_of_window s asks :
  asks <> [] -> 1 <= atrTickWindow (spec_ s) -> window_inv s asks ->
  windowRange s = i32 (range_of (last_n (Z.to_nat (atrTickWindow (spec_ s))) asks)).
Proof.
  intros Hne Hw (_ & Hmax & Hmin). unfold windowRange, deque_range, range_of.
  assert (window_of s asks <> []) as Hwne.
  { intros E. apply (f_equal length) in E. unfold window_of in E.
    rewrite last_n_length, entries_from_length in E. destruct asks; [done|]. simpl in E. lia. }
  destruct (suffmax_cons_inv price dom_max (window_of s asks) Hwne) as (hi & d1 & E1).
  destruct (suffmax_cons_inv price dom_min (window_of s asks) Hwne) as (lo & d2 & E2).
  rewrite Hmax, Hmin, E1, E2.
  apply max_deque_front in E1. apply min_deque_front in E2.
  now rewrite E1, E2, window_of_prices.
Qed.

Definition asks_of (ticks : list PriceData) : list Z := map ask ticks.

(** Everything that holds of a series that has been fed [ticks]. *)
Definition series_inv (s : RangeSeries) (ticks : list PriceData) : Prop :=
  spec_ok (spec_ s) /\ Forall tick_ok ticks /\
  window_inv s (asks_of ticks) /\ bars_inv s (asks_of ticks) /\
  (warm s = false -> bars_ s = []).

Lemma range_of_bounds l :
  l <> [] -> Forall price_ok l -> 0 <= range_of l < 8388608.
Proof.
  intros Hne Hl. unfold range_of. rewrite Forall_forall in Hl.
  pose proof (Hl _ (max_of_in l Hne)). pose proof (Hl _ (min_of_in l Hne)).
  pose proof (max_of_upper l _ (min_of_in l Hne)). unfold price_ok in *. lia.
Qed.

Lemma windowRange_exact s ticks :
  ticks <> [] -> spec_ok (spec_ s) -> Forall tick_ok ticks -> window_inv s (asks_of ticks) ->
  windowRange s = range_of (last_n (Z.to_nat (atrTickWindow (spec_ s))) (asks_of ticks)) /\
  0 <= windowRange s < 8388608.
Proof.
  intros Hne (Hw & _) Hok Hinv.
  assert (asks_of ticks <> []) as Hane by (destruct ticks; done).
  rewrite (windowRange_of_window s (asks_of ticks)) by (auto; lia).
  set (recent := last_n _ (asks_of ticks)).
  assert (0 <= range_of recent < 8388608) as Hr.
  { apply range_of_bounds.
    - intros E. apply (f_equal length) in E. unfold recent in E.
      rewrite last_n_length in E. unfold asks_of in *. rewrite length_map in E.
      destruct ticks; [done|]. simpl in E. lia.
    - unfold recent, last_n. apply Forall_drop. unfold asks_of.
      apply Forall_fmap. eapply Forall_impl; [exact Hok|]. intros t Ht. apply Ht. }
  rewrite i32_id by ilia. auto.
Qed.

Lemma threshold_of_range range percent :
  0 <= range < 8388608 -> 1 <= percent <= 25000 ->
  1 <= threshold_of range percent < 2147483648.
Proof.
  intros Hr Hp. unfold threshold_of.
  assert (0 <= range * percent <= 8388607 * 25000) by nia.
  rewrite (i64_id (range * percent)), i64_id by ilia. rewrite Z.quot_div_nonneg by lia.
  assert (0 <= (range * percent + 50) / 100 < 2147483648) by (Z.div_mod_to_equations; lia).
  rewrite i32_id by ilia. lia.
Qed.

Lemma real_prices_grow asks a b : real_prices asks b -> real_prices (asks ++ [a]) b.
Proof. unfold real_prices. set_solver. Qed.

Lemma grow_bar_facts locked asks t b :
  tick_ok t -> bar_ok b -> real_prices asks b ->
  bar_ok (grow_bar locked (ask t) b) /\ real_prices (asks ++ [ask t]) (grow_bar locked (ask t) b) /\
  (complete b = false ->
   (complete (grow_bar locked (ask t) b) = true <->
    locked <= high (grow_bar locked (ask t) b) - low (grow_bar locked (ask t) b))) /\
  (complete b = false -> high b - low b < locked -> closed_at_extreme (grow_bar locked (ask t) b)).
Proof.
  intros [Ht _] Hb Hr. unfold grow_bar, touch_bar, closed_at_extreme. cbn [high low].
  rewrite touch_max, touch_min. unfold bar_ok, price_ok, real_prices in *.
  assert (Z.max (high b) (ask t) ∈ asks ++ [ask t]).
  { destruct (Z.max_spec (high b) (ask t)) as [[_ ->]|[_ ->]]; set_solver. }
  assert (Z.min (low b) (ask t) ∈ asks ++ [ask t]).
  { destruct (Z.min_spec (low b) (ask t)) as [[_ ->]|[_ ->]]; set_solver. }
  rewrite i32_id by ilia.
  destruct (Z.leb_spec locked (Z.max (high b) (ask t) - Z.min (low b) (ask t)));
    unfold set_complete; cbn [open close high low complete];
    (split; [lia|split; [split_and!; set_solver|
      split; [intros Hc; rewrite ?Hc; split; intros; (done || lia)|intros Hc; rewrite ?Hc; intros; (done || lia)]]]).
Qed.

(** The warm-up query always covers the window, except where the clamp of a
    million rows is below the window itself. *)
Lemma prepopulateTickCap_covers spec :
  1 <= atrTickWindow spec <= INT32_MAX -> 1 <= atrPercent spec <= 1000 -> 1 <= count spec <= 1000 ->
  (atrTickWindow spec <= prepopulateTickCap spec <-> atrTickWindow spec <= kMaxPrepopulateTicks).
Proof.
  intros H1 H2 H3. unfold prepopulateTickCap, kMaxPrepopulateTicks.
  assert (1 <= atrTickWindow spec * atrPercent spec <= INT32_MAX * 1000) by (unfold INT32_MAX in *; nia).
  rewrite (i64_id (atrTickWindow spec * _)) by ilia.
  rewrite (i64_id (_ + 99)) by ilia. rewrite Z.quot_div_nonneg by ilia.
  set (t := (_ + 99) / 100).
  assert (0 <= t <= INT32_MAX * 11) as Ht.
  { subst t. split; [apply Z.div_pos; ilia|apply Z.div_le_upper_bound; ilia]. }
  assert (0 <= 2 * count spec * t <= 2000 * (INT32_MAX * 11)) by (unfold INT32_MAX in *; nia).
  rewrite (i64_id (2 * count spec)) by ilia.
  rewrite (i64_id (2 * count spec * t)) by ilia. rewrite i64_id by ilia. lia.
Qed.

Lemma but_last_last_n {A} n (l : list A) (P : A -> Prop) :
  (0 < n)%nat -> Forall P (but_last l) -> Forall P (but_last (last_n n l)).
Proof.
  intros Hn H. destruct (snoc_cases l) as [->|(l' & x & ->)].
  { now rewrite last_n_all by (simpl; lia). }
  rewrite but_last_snoc in H. unfold last_n.
  rewrite length_app, drop_app_le by (simpl; lia). rewrite but_last_snoc. now apply Forall_drop.
Qed.

Lemma trim_bars {A} (cap : nat) (bars : list A) :
  (if (cap <? length bars)%nat then last_n cap bars else bars) = last_n cap bars.
Proof. destruct (Nat.ltb_spec cap (length bars)); [done|]. now rewrite last_n_all. Qed.

Lemma applyTick_inv s ticks t :
  series_inv s ticks -> tick_ok t -> series_inv (applyTick s t) (ticks ++ [t]).
Proof.
  intros (Hspec & Hok & Hwin & Hbars & Hcold) Ht.
  pose proof (advance_window_inv s (asks_of ticks) (ask t) (proj1 Hspec) Hwin) as Hwin'.
  set (s1 := advance_window s (ask t)) in *.
  assert (asks_of (ticks ++ [t]) = asks_of ticks ++ [ask t]) as Hasks
    by (unfold asks_of; now rewrite map_app).
  assert (Forall tick_ok (ticks ++ [t])) as Hok' by (apply Forall_app_2; auto).
  unfold applyTick. fold s1. unfold series_inv. rewrite !Hasks.
  destruct Hbars as (Hlen & Hall & Hcomp & Hlast).
  assert (Forall (fun b => bar_ok b /\ real_prices (asks_of ticks ++ [ask t]) b /\ closed_at_extreme b)
    (bars_ s)) as Hall'.
  { eapply Forall_impl; [exact Hall|]. intros b (H1 & H2 & H3).
    split_and!; [done|now apply real_prices_grow|done]. }
  destruct (warm s1) eqn:Ewarm.
  2: { assert (bars_ s = []) as Hnil.
       { apply Hcold. unfold warm in *. cbn in Ewarm. zbool. lia. }
       split_and!; try done; unfold bars_inv; cbn; rewrite Hnil; simpl; split_and!; auto; lia. }
  assert (ticks ++ [t] <> []) as Hne by (now destruct ticks).
  rewrite <- Hasks in Hwin'.
  destruct (windowRange_exact s1 (ticks ++ [t]) Hne Hspec Hok' Hwin') as [_ Hrange].
  rewrite Hasks in Hwin'.
  pose proof (threshold_of_range _ (atrPercent (spec_ s)) Hrange (proj1 (proj2 Hspec))) as Hthr.
  assert (0 < Z.to_nat (count (spec_ s)))%nat as Hcap by (destruct Hspec; lia).
  unfold advance_bars. change (bars_ s1) with (bars_ s). change (spec_ s1) with (spec_ s).
  change (lockedThreshold_ s1) with (lockedThreshold_ s).
  assert (forall b, tick_ok t -> b = new_bar (timestamp t) (ask t) ->
    bar_ok b /\ real_prices (asks_of ticks ++ [ask t]) b /\ closed_at_extreme b) as Hnew.
  { intros b [Ha _] ->. unfold bar_ok, real_prices, closed_at_extreme, new_bar, price_ok in *. cbn.
    split; [lia|split; [split_and!; set_solver|done]]. }
  destruct (last_is_open (bars_ s)) eqn:Eopen.
  - unfold last_is_open in Eopen. destruct (snoc_cases (bars_ s)) as [E|(bs & b & E)];
      [now rewrite E in Eopen|].
    rewrite E in *. rewrite last_snoc in Eopen, Hlast. apply negb_true_iff in Eopen.
    rewrite but_last_snoc in Hcomp. rewrite update_last_snoc. rewrite length_app in Hlen.
    apply Forall_app in Hall as [_ Hb]. inversion Hb as [|? ? (Hb1 & Hb2 & Hb3) _]; subst.
    destruct (grow_bar_facts (lockedThreshold_ s) (asks_of ticks) t b Ht Hb1 Hb2) as (G1 & G2 & G3 & G4).
    rewrite trim_bars, last_n_all by (rewrite length_app; simpl in *; lia).
    split_and!; [done..| |intros Hc; change (warm s1 = false) in Hc; congruence].
    unfold bars_inv. cbn [bars_ spec_ lockedThreshold_].
    rewrite last_snoc, but_last_snoc, length_app. cbn [length] in *.
    split_and!; [lia| |done|apply Hlast|apply Hlast|apply G3, Eopen].
    apply Forall_app_2; [now apply Forall_app in Hall' as [? _]|].
    apply Forall_singleton. split; [exact G1|]. split; [exact G2|]. apply G4; [done|]. destruct Hlast as [_ Hlast]. rewrite Eopen in Hlast.
    destruct (Z.lt_ge_cases (high b - low b) (lockedThreshold_ s)) as [|Hge]; [done|].
    apply Hlast in Hge. done.
  - assert (Forall (fun b => complete b = true) (bars_ s)) as Hcl.
    { destruct (snoc_cases (bars_ s)) as [E|(bs & b & E)]; [rewrite E; constructor|].
      unfold last_is_open in Eopen. rewrite E in *. rewrite last_snoc in Eopen.
      rewrite but_last_snoc in Hcomp. apply Forall_app_2; [done|].
      repeat constructor. now apply negb_false_iff in Eopen. }
    rewrite trim_bars.
    split_and!; [done..| |intros Hc; change (warm s1 = false) in Hc; congruence].
    unfold bars_inv. cbn [bars_ spec_ lockedThreshold_].
    rewrite last_last_n, last_snoc, last_n_length by done.
    split_and!; [lia| | |lia|lia|cbn; split; [done|lia]].
    + unfold last_n. apply Forall_drop, Forall_app_2; [done|]. now apply Forall_singleton, Hnew.
    + apply but_last_last_n; [done|]. now rewrite but_last_snoc.
Qed.

Lemma makeRangeSeries_inv spec s :
  spec_ok spec -> makeRangeSeries spec = Ok s -> series_inv s [] /\ spec_ s = spec.
Proof.
  intros Hs H. unfold makeRangeSeries in H. destruct (spec_positive spec); [|done].
  injection H as <-. split; [|done].
  assert (window_of (mkSeries spec [] [] [] 0 0 false) [] = []) as Hw
    by (unfold window_of; now rewrite last_n_all by (simpl; lia)).
  split; [done|]. split; [constructor|]. split; [|split; [|done]].
  - unfold window_inv, asks_of. cbn [map tickIndex_ maxDeque_ minDeque_]. rewrite Hw. done.
  - unfold bars_inv. simpl. split_and!; auto. lia.
Qed.

Lemma applyTick_spec s t : spec_ (applyTick s t) = spec_ s.
Proof.
  unfold applyTick, advance_bars. destruct (warm _); [|done].
  destruct (last_is_open _); reflexivity.
Qed.

Lemma replay_inv ticks : forall s fed,
  series_inv s fed -> Forall tick_ok ticks ->
  series_inv (foldl applyTick s ticks) (fed ++ ticks) /\
  spec_ (foldl applyTick s ticks) = spec_ s.
Proof.
  induction ticks as [|t ticks IH]; intros s fed Hs Ht; cbn [foldl].
  { rewrite app_nil_r. auto. }
  inversion Ht as [|? ? Ht1 Ht2]; subst.
  destruct (IH (applyTick s t) (fed ++ [t])) as [H1 H2]; [now apply applyTick_inv|done|].
  rewrite <- app_assoc in H1. rewrite applyTick_spec in H2. auto.
Qed.

(** The two monotonic deques compute the rolling range.  After any stream of
    in-range ticks the window range of the series is the highest minus the lowest
    ask of the last [atrTickWindow] ticks (all of them while warming), however
    long the stream. *)
Theorem windowRange_sliding (spec : RangeBarSpec) (s0 : RangeSeries) (ticks : list PriceData)
    (Hspec : spec_ok spec) (Hs0 : makeRangeSeries spec = Ok s0)
    (Hticks : Forall tick_ok ticks) (Hne : ticks <> []) :
  windowRange (foldl applyTick s0 ticks) =
  range_of (last_n (Z.to_nat (atrTickWindow spec)) (map ask ticks)).
Proof.
  destruct (makeRangeSeries_inv spec s0 Hspec Hs0) as [Hinv Hsp].
  destruct (replay_inv ticks s0 [] Hinv Hticks) as [(H1 & H2 & H3 & _) H4].
  rewrite app_nil_l in *. rewrite <- Hsp, <- H4.
  now apply windowRange_exact.
Qed.

(** Range bars are well formed after any stream of in-range ticks: at most
    [count] bars, each made of asks that were really ticked (no synthetic
    prices), every bar but the last complete, the last one complete exactly when
    its range has reached the threshold locked at its opening (at least one point,
    so no bar is born complete), every complete bar closed at its high or low and
    away from its open (never a doji), and no bar before the window is warm. *)
Theorem range_bars_well_formed (spec : RangeBarSpec) (s0 : RangeSeries) (ticks : list PriceData)
    (Hspec : spec_ok spec) (Hs0 : makeRangeSeries spec = Ok s0) (Hticks : Forall tick_ok ticks) :
  let s := foldl applyTick s0 ticks in
  bars_inv s (map ask ticks) /\
  (Z.of_nat (length ticks) < atrTickWindow spec -> bars_ s = []).
Proof.
  intros s. destruct (makeRangeSeries_inv spec s0 Hspec Hs0) as [Hinv Hsp].
  destruct (replay_inv ticks s0 [] Hinv Hticks) as [(_ & _ & (H3 & _) & H4 & H5) H6].
  rewrite app_nil_l in *. split; [exact H4|]. intros Hlt. apply H5.
  unfold warm. rewrite H3, H6, Hsp. unfold asks_of. rewrite length_map. zbool. lia.
Qed.

Definition demo_spec : RangeBarSpec := mkRangeBarSpec 3 50 2.
Definition demo_series : RangeSeries := mkSeries demo_spec [] [] [] 0 0 false.
Definition demo_stream : list PriceData :=
  map (fun p => demo_tick p p) [100; 108; 104; 101; 101; 106; 90; 90].

Lemma demo_stream_ok : Forall tick_ok demo_stream.
Proof. repeat constructor; simpl; lia. Defined.

Lemma windowRange_sliding_witness :
  windowRange (foldl applyTick demo_series demo_stream) = 16.
Proof.
  rewrite (windowRange_sliding demo_spec demo_series demo_stream);
    [reflexivity|unfold spec_ok; simpl; lia|reflexivity|apply demo_stream_ok|discriminate].
Defined.

Lemma range_bars_well_formed_witness :
  bars_inv (foldl applyTick demo_series demo_stream) (map ask demo_stream).
Proof.
  apply (range_bars_well_formed demo_spec demo_series demo_stream);
    [unfold spec_ok; simpl; lia|reflexivity|apply demo_stream_ok].
Defined.
