(* ===== verification/BarStore.v ===== *)
(** barStore.cppm: the per-symbol pipeline that feeds every tick into every
    registered OHLC and range-bar series. *)
From S2P Require Import Prelude Models OhlcBuilder.
From S2P Require RangeBar.

Record SeriesSpec : Type := mkSeriesSpec { ssMinutes : Z; ssCount : Z }.

Record BarStore : Type := mkBarStore {
  specs_ : list SeriesSpec;
  bySymbol_ : gmap string (list (list OhlcObject));
  rangeSpecs_ : list RangeBar.RangeBarSpec;
  rangeBySymbol_ : gmap string (list RangeBar.RangeSeries);
}.

Definition emptyStore : BarStore := mkBarStore [] ∅ [] ∅.

(** The merge loop of [registerSeries]. *)
Fixpoint merge_spec (specs : list SeriesSpec) (minutes count : Z) : list SeriesSpec :=
  match specs with
  | [] => [mkSeriesSpec minutes count]
  | spec :: rest =>
      if ssMinutes spec =? minutes
      then mkSeriesSpec (ssMinutes spec) (Z.max (ssCount spec) count) :: rest
      else spec :: merge_spec rest minutes count
  end.

Definition registerSeries (st : BarStore) (minutes count : Z) : result BarStore :=
  if (minutes <? 1) || (count <? 1) then Throw InvalidArgument
  else Ok (mkBarStore (merge_spec (specs_ st) minutes count) (bySymbol_ st)
             (rangeSpecs_ st) (rangeBySymbol_ st)).

Fixpoint merge_range_spec (specs : list RangeBar.RangeBarSpec) (spec : RangeBar.RangeBarSpec)
    : list RangeBar.RangeBarSpec :=
  match specs with
  | [] => [spec]
  | existing :: rest =>
      if RangeBar.sameIdentity existing spec
      then RangeBar.mkRangeBarSpec (RangeBar.atrTickWindow existing)
             (RangeBar.atrPercent existing)
             (Z.max (RangeBar.count existing) (RangeBar.count spec)) :: rest
      else existing :: merge_range_spec rest spec
  end.

Definition registerRangeSeries (st : BarStore) (spec : RangeBar.RangeBarSpec) : result BarStore :=
  if negb (RangeBar.spec_positive spec) then Throw InvalidArgument
  else Ok (mkBarStore (specs_ st) (bySymbol_ st)
             (merge_range_spec (rangeSpecs_ st) spec) (rangeBySymbol_ st)).

Section Update.
Context {W : World}.

(** The body of the per-spec loop: build, then roll the window. *)
Definition update_one (tick : PriceData) (spec : SeriesSpec) (series : list OhlcObject)
    : result (list OhlcObject) :=
  series <~ calculateOHLC tick (ask tick) (minutes (ssMinutes spec)) series (ssCount spec);
  let cap := Z.to_nat (ssCount spec) in
  Ok (if (cap <? length series)%nat then last_n cap series else series).

Fixpoint update_series (tick : PriceData) (specs : list SeriesSpec)
    (all : list (list OhlcObject)) : result (list (list OhlcObject)) :=
  match specs, all with
  | spec :: specs', series :: all' =>
      series <~ update_one tick spec series;
      all' <~ update_series tick specs' all';
      Ok (series :: all')
  | _, _ => Ok all
  end.

(** [emplace] on a symbol's first tick, [resize] after a late registration. *)
Definition cold_series (n : nat) (known : option (list (list OhlcObject)))
    : list (list OhlcObject) :=
  let all := default (replicate n []) known in
  all ++ replicate (n - length all) [].

Definition update_ohlc (st : BarStore) (tick : PriceData) : result BarStore :=
  match specs_ st with
  | [] => Ok st
  | specs =>
      let all := cold_series (length specs) (bySymbol_ st !! symbol tick) in
      all <~ update_series tick specs all;
      Ok (mkBarStore specs (<[symbol tick := all]> (bySymbol_ st))
            (rangeSpecs_ st) (rangeBySymbol_ st))
  end.

(** The [emplace_back] loop: one new series per spec that has none yet. *)
Fixpoint emplace_series (specs : list RangeBar.RangeBarSpec)
    : result (list RangeBar.RangeSeries) :=
  match specs with
  | [] => Ok []
  | spec :: rest =>
      series <~ RangeBar.makeRangeSeries spec;
      all <~ emplace_series rest;
      Ok (series :: all)
  end.

Definition update_range (st : BarStore) (tick : PriceData) : result BarStore :=
  match rangeSpecs_ st with
  | [] => Ok st
  | specs =>
      let known := default [] (rangeBySymbol_ st !! symbol tick) in
      added <~ emplace_series (drop (length known) specs);
      let all := map (fun series => RangeBar.update series tick) (known ++ added) in
      Ok (mkBarStore (specs_ st) (bySymbol_ st) specs
            (<[symbol tick := all]> (rangeBySymbol_ st)))
  end.

Definition update (st : BarStore) (tick : PriceData) : result BarStore :=
  st <~ update_ohlc st tick;
  update_range st tick.

Fixpoint update_all (st : BarStore) (ticks : list PriceData) : result BarStore :=
  match ticks with
  | [] => Ok st
  | t :: ticks' => st' <~ update st t; update_all st' ticks'
  end.
End Update.

(** The index scan of [find] and [findRange]. *)
Fixpoint index_of {A : Type} (p : A -> bool) (l : list A) : option nat :=
  match l with
  | [] => None
  | x :: l' => if p x then Some 0%nat else S <$> index_of p l'
  end.

Definition find (st : BarStore) (symbol : string) (minutes : Z) : option (list OhlcObject) :=
  match index_of (fun spec => ssMinutes spec =? minutes) (specs_ st) with
  | None => None
  | Some index =>
      match bySymbol_ st !! symbol with
      | None => None
      | Some all => all !! index
      end
  end.

Definition findRange (st : BarStore) (symbol : string) (spec : RangeBar.RangeBarSpec)
    : option (list OhlcObject) :=
  match index_of (fun existing => RangeBar.sameIdentity existing spec) (rangeSpecs_ st) with
  | None => None
  | Some index =>
      match rangeBySymbol_ st !! symbol with
      | None => None
      | Some all => RangeBar.bars_ <$> all !! index
      end
  end.

(** ** Specification *)

Definition ticks_of (sym : string) (ticks : list PriceData) : list PriceData :=
  List.filter (fun t => String.eqb (symbol t) sym) ticks.

Definition spec_pos (spec : SeriesSpec) : Prop := 1 <= ssMinutes spec /\ 1 <= ssCount spec.

(** What a series should hold after a symbol's ticks: the last [count] bars of
    the bar builder run on those ticks alone, with no window. *)
Definition reference_bars {W : World} (spec : SeriesSpec) (ticks : list PriceData)
    : list OhlcObject :=
  match feed (minutes (ssMinutes spec)) (ssCount spec) [] ticks with
  | Ok bars => last_n (Z.to_nat (ssCount spec)) bars
  | Throw _ => []
  end.

Definition fresh_range (spec : RangeBar.RangeBarSpec) : RangeBar.RangeSeries :=
  RangeBar.mkSeries spec [] [] [] 0 0 false.

Definition reference_range {W : World} (spec : RangeBar.RangeBarSpec) (ticks : list PriceData)
    : RangeBar.RangeSeries :=
  foldl RangeBar.update (fresh_range spec) ticks.

Definition by_symbol_ref {A B : Type} (specs : list A) (series : A -> list PriceData -> B)
    (ticks : list PriceData) : option (list B) :=
  match specs, ticks with
  | [], _ | _, [] => None
  | _, _ => Some (map (fun spec => series spec ticks) specs)
  end.

(** The state of a store that was fed [ticks] after its registrations. *)
Definition store_inv {W : World} (st : BarStore) (ticks : list PriceData) : Prop :=
  Forall spec_pos (specs_ st) /\
  Forall (fun s => RangeBar.spec_positive s = true) (rangeSpecs_ st) /\
  forall sym,
    bySymbol_ st !! sym = by_symbol_ref (specs_ st) reference_bars (ticks_of sym ticks) /\
    rangeBySymbol_ st !! sym = by_symbol_ref (rangeSpecs_ st) reference_range (ticks_of sym ticks).

(** * Facts *)

Lemma ticks_of_snoc sym ticks t :
  ticks_of sym (ticks ++ [t]) =
  ticks_of sym ticks ++ (if String.eqb (symbol t) sym then [t] else []).
Proof. unfold ticks_of. rewrite List.filter_app. reflexivity. Qed.

Section Facts.
Context {W : World}.

Lemma calculateOHLC_ok t price d bars n :
  0 < d -> exists bars', calculateOHLC t price d bars n = Ok bars'.
Proof.
  intros Hd. unfold calculateOHLC. rewrite (proj2 (Z.leb_gt d 0)) by lia. eauto.
Qed.

Lemma feed_snoc d n ticks : forall bars t,
  feed d n bars (ticks ++ [t]) =
  (bars' <~ feed d n bars ticks; calculateOHLC t (ask t) d bars' n).
Proof.
  induction ticks as [|t' ticks IH]; intros bars t; cbn [feed app result_bind].
  - destruct (calculateOHLC t (ask t) d bars n); reflexivity.
  - destruct (calculateOHLC t' (ask t') d bars n); cbn [result_bind]; [apply IH|done].
Qed.

Lemma feed_ok d n ticks : forall bars,
  0 < d -> exists bars', feed d n bars ticks = Ok bars' /\ (ticks <> [] -> bars' <> []).
Proof.
  induction ticks as [|t ticks IH] using rev_ind; intros bars Hd; [now eexists|].
  destruct (IH bars Hd) as (bars' & E & _). rewrite feed_snoc, E. cbn [result_bind].
  destruct (calculateOHLC_ok t (ask t) d bars' n Hd) as [b Eb]. exists b. split; [done|].
  intros _. eapply calculateOHLC_nonempty, Eb.
Qed.

(** One tick of one series keeps it equal to its reference. *)
Lemma update_one_ref t spec ticks :
  spec_pos spec ->
  update_one t spec (reference_bars spec ticks) = Ok (reference_bars spec (ticks ++ [t])).
Proof.
  intros [Hm Hc]. assert (0 < minutes (ssMinutes spec)) as Hd by (unfold minutes; lia).
  unfold update_one, reference_bars. rewrite feed_snoc.
  destruct (feed_ok (minutes (ssMinutes spec)) (ssCount spec) ticks [] Hd) as (bars & E & Hne).
  rewrite E. cbn [result_bind]. set (d := minutes (ssMinutes spec)) in *.
  set (cap := Z.to_nat (ssCount spec)) in *.
  destruct (calculateOHLC_ok t (ask t) d bars (ssCount spec) Hd) as [bars' E'].
  rewrite E'.
  destruct (snoc_cases bars) as [->|(bs & b & ->)].
  - rewrite (last_n_all cap []), E' by apply Nat.le_0_l.
    cbn [result_bind]. now rewrite RangeBar.trim_bars.
  - destruct (calculateOHLC_last_n t (ask t) d (bs ++ [b]) (ssCount spec) cap bars'
                ltac:(lia) ltac:(now destruct bs) E') as (b2 & E2 & Hl).
    rewrite E2. cbn [result_bind]. now rewrite RangeBar.trim_bars, Hl.
Qed.

Lemma update_series_ref t specs ticks :
  Forall spec_pos specs ->
  update_series t specs (map (fun s => reference_bars s ticks) specs) =
  Ok (map (fun s => reference_bars s (ticks ++ [t])) specs).
Proof.
  induction 1 as [|spec specs Hs Hall IH]; [done|]. cbn [map update_series].
  rewrite update_one_ref by done. cbn [result_bind]. now rewrite IH.
Qed.

Lemma reference_bars_nil spec : reference_bars spec [] = [].
Proof. unfold reference_bars. cbn [feed]. now rewrite last_n_all by (simpl; lia). Qed.

(** A symbol's first tick starts every series from empty. *)
Lemma cold_series_ref specs ticks :
  specs <> [] ->
  cold_series (length specs) (by_symbol_ref specs reference_bars ticks) =
  map (fun s => reference_bars s ticks) specs.
Proof.
  intros Hne. unfold cold_series, by_symbol_ref.
  assert (map (fun s => reference_bars s []) specs = replicate (length specs) []) as Hnil.
  { clear. induction specs as [|s specs IH]; [done|]. simpl. rewrite IH.
    now rewrite reference_bars_nil. }
  destruct specs as [|s specs]; [done|]. destruct ticks as [|t ticks]; cbn [from_option id].
  - rewrite Hnil, length_replicate, Nat.sub_diag. apply app_nil_r.
  - rewrite length_map, Nat.sub_diag. apply app_nil_r.
Qed.

Lemma emplace_series_ok specs :
  Forall (fun s => RangeBar.spec_positive s = true) specs ->
  emplace_series specs = Ok (map fresh_range specs).
Proof.
  induction 1 as [|s specs Hs Hall IH]; [done|]. cbn [emplace_series map].
  unfold RangeBar.makeRangeSeries. rewrite Hs. cbn [result_bind]. now rewrite IH.
Qed.

Lemma range_known specs ticks :
  Forall (fun s => RangeBar.spec_positive s = true) specs -> specs <> [] ->
  let known := default [] (by_symbol_ref specs reference_range ticks) in
  exists added, emplace_series (drop (length known) specs) = Ok added /\
                known ++ added = map (fun s => reference_range s ticks) specs.
Proof.
  intros Hpos Hne known. unfold known, by_symbol_ref.
  destruct specs as [|s specs]; [done|]. destruct ticks as [|t ticks]; cbn [from_option id].
  - exists (map fresh_range (s :: specs)). split; [now apply emplace_series_ok|done].
  - exists []. rewrite length_map, drop_all. split; [done|apply app_nil_r].
Qed.

Lemma by_symbol_ref_snoc {A B} (specs : list A) (series : A -> list PriceData -> B) ticks t :
  specs <> [] ->
  by_symbol_ref specs series (ticks ++ [t]) =
  Some (map (fun s => series s (ticks ++ [t])) specs).
Proof. intros. unfold by_symbol_ref. destruct specs; [done|]. now destruct ticks. Qed.

(** One insert refreshes the tick's symbol and leaves every other alone. *)
Lemma by_symbol_insert {A B} (m : gmap string (list B)) (specs : list A)
    (series : A -> list PriceData -> B) ticks t all :
  specs <> [] ->
  (forall sym, m !! sym = by_symbol_ref specs series (ticks_of sym ticks)) ->
  all = map (fun s => series s (ticks_of (symbol t) ticks ++ [t])) specs ->
  forall sym, <[symbol t := all]> m !! sym =
              by_symbol_ref specs series (ticks_of sym (ticks ++ [t])).
Proof.
  intros Hne Hm -> sym. rewrite ticks_of_snoc.
  destruct (String.eqb_spec (symbol t) sym) as [<-|Hs].
  - rewrite lookup_insert_eq. now rewrite by_symbol_ref_snoc.
  - rewrite lookup_insert_ne, app_nil_r by done. apply Hm.
Qed.

Lemma update_inv st ticks t :
  store_inv st ticks -> exists st', update st t = Ok st' /\ store_inv st' (ticks ++ [t]) /\
    specs_ st' = specs_ st /\ rangeSpecs_ st' = rangeSpecs_ st.
Proof.
  intros (Hs & Hr & Hm).
  assert (exists st1, update_ohlc st t = Ok st1 /\ specs_ st1 = specs_ st /\
    rangeSpecs_ st1 = rangeSpecs_ st /\ rangeBySymbol_ st1 = rangeBySymbol_ st /\
    forall sym, bySymbol_ st1 !! sym =
      by_symbol_ref (specs_ st) reference_bars (ticks_of sym (ticks ++ [t])))
    as (st1 & E1 & F1 & F2 & F3 & F4).
  { unfold update_ohlc. destruct (specs_ st) as [|s specs] eqn:Es.
    - exists st. split_and!; auto. intros sym. now rewrite (proj1 (Hm sym)).
    - rewrite (proj1 (Hm (symbol t))), cold_series_ref, update_series_ref by done.
      eexists. cbn [result_bind]. split_and!; [reflexivity..|].
      apply by_symbol_insert; [done| |done]. intros sym. apply (Hm sym). }
  unfold update. rewrite E1. cbn [result_bind]. unfold update_range. rewrite F2, F3.
  destruct (rangeSpecs_ st) as [|s specs] eqn:Es.
  - exists st1. split; [done|]. unfold store_inv. rewrite F1, F2, F3.
    split_and!; auto. intros sym. split; [apply F4|]. rewrite (proj2 (Hm sym)). done.
  - rewrite (proj2 (Hm (symbol t))).
    destruct (range_known (s :: specs) (ticks_of (symbol t) ticks)) as (added & E & Hk);
      [done..|].
    cbv zeta in *. rewrite E. cbn [result_bind]. rewrite Hk, map_map.
    eexists. split; [reflexivity|]. unfold store_inv.
    cbn [specs_ bySymbol_ rangeSpecs_ rangeBySymbol_]. rewrite F1. split_and!; auto.
    intros sym. split; [apply F4|]. apply by_symbol_insert; [done|intros; apply Hm|].
    unfold reference_range. apply map_ext. intros a. now rewrite foldl_app.
Qed.

Lemma update_all_inv ticks : forall st fed,
  store_inv st fed -> exists st', update_all st ticks = Ok st' /\ store_inv st' (fed ++ ticks) /\
    specs_ st' = specs_ st /\ rangeSpecs_ st' = rangeSpecs_ st.
Proof.
  induction ticks as [|t ticks IH]; intros st fed H; cbn [update_all].
  { exists st. rewrite app_nil_r. auto. }
  destruct (update_inv st fed t H) as (st1 & E1 & H1 & F1 & F2). rewrite E1. cbn [result_bind].
  destruct (IH st1 _ H1) as (st2 & E2 & H2 & F3 & F4).
  exists st2. rewrite <- app_assoc in H2. split_and!; congruence || auto.
Qed.
End Facts.

(** ** Registration *)

(** The demands of several consumers, registered in order. *)
Fixpoint register_all (st : BarStore) (reqs : list (Z * Z)) : result BarStore :=
  match reqs with
  | [] => Ok st
  | (m, c) :: rest => st' <~ registerSeries st m c; register_all st' rest
  end.

(** What one duration was asked for: the largest count, 0 for none. *)
Definition demand (reqs : list (Z * Z)) (m : Z) : Z :=
  foldr (fun r acc => if r.1 =? m then Z.max r.2 acc else acc) 0 reqs.

Definition spec_count (specs : list SeriesSpec) (m : Z) : Z :=
  match List.find (fun s => ssMinutes s =? m) specs with Some s => ssCount s | None => 0 end.

Definition durations_distinct (specs : list SeriesSpec) : Prop := NoDup (map ssMinutes specs).

Lemma spec_count_merge specs m c m' :
  Forall spec_pos specs -> 1 <= c ->
  spec_count (merge_spec specs m c) m' =
  if m' =? m then Z.max (spec_count specs m') c else spec_count specs m'.
Proof.
  intros Hs Hc. unfold spec_count.
  induction Hs as [|s specs Hs Hall IH]; cbn [merge_spec List.find ssMinutes].
  - rewrite (Z.eqb_sym m m'). destruct (m' =? m); simpl; lia.
  - destruct (Z.eqb_spec (ssMinutes s) m) as [E|E]; cbn [List.find ssMinutes].
    + subst m. rewrite (Z.eqb_sym m'). destruct (ssMinutes s =? m') eqn:E2; [reflexivity|done].
    + destruct (Z.eqb_spec (ssMinutes s) m') as [E2|E2].
      * subst m'. rewrite (proj2 (Z.eqb_neq _ _)) by done. done.
      * exact IH.
Qed.

Lemma merge_spec_in specs m c s :
  s ∈ merge_spec specs m c -> ssMinutes s = m \/ s ∈ specs.
Proof.
  induction specs as [|s0 specs IH]; cbn [merge_spec]; intros H.
  - apply list_elem_of_singleton in H as ->. now left.
  - destruct (Z.eqb_spec (ssMinutes s0) m) as [E|E].
    + apply elem_of_cons in H as [->|H]; [left; exact E|right; set_solver].
    + apply elem_of_cons in H as [->|H]; [right; set_solver|].
      destruct (IH H); [now left|right; set_solver].
Qed.

Lemma merge_spec_wf specs m c :
  1 <= m -> 1 <= c -> Forall spec_pos specs -> durations_distinct specs ->
  Forall spec_pos (merge_spec specs m c) /\ durations_distinct (merge_spec specs m c).
Proof.
  unfold durations_distinct. intros Hm Hc.
  induction specs as [|s specs IH]; intros Hs Hd; cbn [merge_spec].
  { split; [repeat constructor; done|repeat constructor; set_solver]. }
  inversion Hs as [|? ? Hs1 Hs2]; subst. cbn [map] in Hd. apply NoDup_cons in Hd as [Hd1 Hd2].
  destruct (Z.eqb_spec (ssMinutes s) m) as [E|E].
  - split; [constructor; [|done]|cbn; now constructor].
    destruct Hs1. split; simpl; lia.
  - destruct (IH Hs2 Hd2) as [H1 H2]. split; [now constructor|]. cbn [map].
    constructor; [|done]. intros Hin. apply list_elem_of_In, in_map_iff in Hin as (s' & Es & Hin).
    apply list_elem_of_In, merge_spec_in in Hin as [H|H]; [congruence|].
    apply Hd1. rewrite <- Es. now apply list_elem_of_In, in_map, list_elem_of_In.
Qed.

Lemma register_all_wf reqs : forall st,
  Forall (fun r => 1 <= r.1 /\ 1 <= r.2) reqs ->
  Forall spec_pos (specs_ st) -> durations_distinct (specs_ st) ->
  exists st', register_all st reqs = Ok st' /\
    Forall spec_pos (specs_ st') /\ durations_distinct (specs_ st') /\
    (forall m, spec_count (specs_ st') m = Z.max (spec_count (specs_ st) m) (demand reqs m)) /\
    bySymbol_ st' = bySymbol_ st /\ rangeSpecs_ st' = rangeSpecs_ st /\
    rangeBySymbol_ st' = rangeBySymbol_ st.
Proof.
  induction reqs as [|[m c] reqs IH]; intros st Hr Hs Hd; cbn [register_all].
  { exists st. split_and!; auto. intros m. unfold demand, spec_count. simpl.
    destruct (List.find _ _) as [s|] eqn:E; [|done].
    apply List.find_some in E as [Hin _]. apply list_elem_of_In in Hin.
    rewrite Forall_forall in Hs. destruct (Hs s Hin). lia. }
  inversion Hr as [|? ? [H1 H2] Hr']; subst. cbn [fst snd] in *.
  unfold registerSeries.
  rewrite (proj2 (Z.ltb_ge m 1)), (proj2 (Z.ltb_ge c 1)) by lia. cbn [orb result_bind].
  destruct (merge_spec_wf (specs_ st) m c H1 H2 Hs Hd) as [Hs' Hd'].
  match goal with |- context [register_all ?s reqs] => destruct (IH s Hr' Hs' Hd')
    as (st' & E & G1 & G2 & G3 & G4) end.
  exists st'. split_and!; try done; try apply G4. intros m'. rewrite G3. cbn [specs_].
  rewrite spec_count_merge by done. unfold demand. cbn [foldr fst snd].
  rewrite (Z.eqb_sym m m'). destruct (m' =? m); lia.
Qed.

Lemma index_of_spec specs m :
  durations_distinct specs ->
  match index_of (fun s => ssMinutes s =? m) specs with
  | Some i => exists s, specs !! i = Some s /\ ssMinutes s = m /\ ssCount s = spec_count specs m
  | None => spec_count specs m = 0
  end.
Proof.
  unfold durations_distinct, spec_count.
  induction specs as [|s specs IH]; intros Hd; cbn [index_of List.find]; [done|].
  cbn [map] in Hd. apply NoDup_cons in Hd as [Hd1 Hd2].
  destruct (Z.eqb_spec (ssMinutes s) m) as [E|E]; [now exists s|].
  specialize (IH Hd2). destruct (index_of _ specs) as [i|]; [exact IH|exact IH].
Qed.

Lemma demand_nonneg reqs m : 0 <= demand reqs m.
Proof.
  induction reqs as [|[a b] l IH]; [done|]. unfold demand in *. simpl. destruct (a =? m); lia.
Qed.

(** Registration into an empty store leaves exactly the demands. *)
Lemma register_all_empty reqs :
  Forall (fun r => 1 <= r.1 /\ 1 <= r.2) reqs ->
  exists st, register_all emptyStore reqs = Ok st /\
    Forall spec_pos (specs_ st) /\ durations_distinct (specs_ st) /\
    (forall m, spec_count (specs_ st) m = demand reqs m) /\
    bySymbol_ st = ∅ /\ rangeSpecs_ st = [] /\ rangeBySymbol_ st = ∅.
Proof.
  intros Hreqs.
  destruct (register_all_wf reqs emptyStore Hreqs) as (st & E & Hs & Hd & Hc & F);
    [constructor|constructor|].
  exists st. split_and!; try done; try apply F. intros m. rewrite Hc.
  unfold spec_count. pose proof (demand_nonneg reqs m). simpl. lia.
Qed.

(** Independent consumers share one history per duration.  Registering any
    list of positive demands succeeds, and leaves one series per duration with
    the largest count anyone asked for (no series where nobody asked); a
    non-positive demand is refused whatever the store holds. *)
Theorem registerSeries_merges (reqs : list (Z * Z))
    (Hreqs : Forall (fun r => 1 <= r.1 /\ 1 <= r.2) reqs) :
  (exists st, register_all emptyStore reqs = Ok st /\ durations_distinct (specs_ st) /\
     forall m, spec_count (specs_ st) m = demand reqs m) /\
  (forall st m c, m < 1 \/ c < 1 -> registerSeries st m c = Throw InvalidArgument).
Proof.
  split.
  - destruct (register_all_empty reqs Hreqs) as (st & E & _ & Hd & Hc & _). eauto.
  - intros st m c H. unfold registerSeries.
    destruct (Z.ltb_spec m 1), (Z.ltb_spec c 1); try reflexivity. lia.
Qed.

(** C19: what [find] serves, after any registrations and any interleaving of
    symbols, is exactly the tail of an isolated reference: the last [count] bars
    (the largest demand for that duration) of the bar builder run with no window
    over that symbol's own ticks, and nothing where the duration was never
    registered or the symbol has not ticked.  Other symbols and other series
    never interfere, the rolling trim never changes a later bar, and no call
    throws. *)
Theorem find_reference {W : World} (reqs : list (Z * Z)) (ticks : list PriceData)
    (Hreqs : Forall (fun r => 1 <= r.1 /\ 1 <= r.2) reqs) :
  exists st0 st, register_all emptyStore reqs = Ok st0 /\ update_all st0 ticks = Ok st /\
    forall sym m,
      find st sym m =
      match ticks_of sym ticks with
      | [] => None
      | own => if demand reqs m =? 0 then None
               else Some (reference_bars (mkSeriesSpec m (demand reqs m)) own)
      end.
Proof.
  destruct (register_all_empty reqs Hreqs) as (st0 & E & Hs & Hd & Hc & F1 & F2 & F3).
  assert (store_inv st0 []) as Hinv.
  { split_and!; [done|now rewrite F2; constructor|]. intros sym. rewrite F1, F2, F3. simpl.
    split; [|done]. unfold by_symbol_ref. now destruct (specs_ st0). }
  destruct (update_all_inv ticks st0 [] Hinv) as (st & E2 & (_ & _ & Hm) & G1 & G2).
  exists st0, st. split_and!; auto. intros sym m. unfold find. rewrite (proj1 (Hm sym)), G1.
  rewrite <- Hc.
  pose proof (index_of_spec (specs_ st0) m Hd) as Hi. rewrite app_nil_l.
  destruct (index_of _ (specs_ st0)) as [i|].
  - destruct Hi as (s & Hl & Hm' & Hcnt). destruct (ticks_of sym ticks) as [|t own] eqn:Et.
    + unfold by_symbol_ref. now destruct (specs_ st0).
    + rewrite Forall_forall in Hs. pose proof (Hs s (list_elem_of_lookup_2 _ _ _ Hl)) as [_ Hp].
      rewrite <- Hcnt. rewrite (proj2 (Z.eqb_neq _ _)) by lia.
      unfold by_symbol_ref. destruct (specs_ st0) as [|s0 rest] eqn:Es; [done|].
      rewrite <- Es in *. rewrite list_lookup_fmap, Hl. simpl. destruct s. cbn in *. now subst.
  - rewrite Hi. destruct (ticks_of sym ticks); done.
Qed.

Definition demo_demands : list (Z * Z) := [(1, 2); (5, 10); (1, 3)].

Lemma registerSeries_merges_witness :
  Forall (fun r => 1 <= r.1 /\ 1 <= r.2) demo_demands /\
  exists st, register_all emptyStore demo_demands = Ok st /\ spec_count (specs_ st) 1 = 3.
Proof.
  assert (Forall (fun r => 1 <= r.1 /\ 1 <= r.2) demo_demands) as H
    by (repeat constructor; simpl; lia).
  split; [exact H|]. destruct (registerSeries_merges demo_demands H) as [(st & E & _ & Hc) _].
  exists st. split; [exact E|]. rewrite Hc. reflexivity.
Defined.

Lemma find_reference_witness :
  exists st0 st,
    register_all emptyStore demo_demands = Ok st0 /\
    update_all (W := quietWorld) st0 [demo_tick 0 100; demo_tick 1 103] = Ok st /\
    find st "EURUSD" 1 = Some [mkOhlcObject 0 100 103 103 100 false].
Proof.
  destruct (find_reference (W := quietWorld) demo_demands [demo_tick 0 100; demo_tick 1 103])
    as (st0 & st & E1 & E2 & Hf); [repeat constructor; simpl; lia|].
  exists st0, st. split; [exact E1|]. split; [exact E2|]. rewrite Hf. reflexivity.
Defined.
