(* ===== verification/Trade.v ===== *)
(** shared/models/trade.cppm: the trade record and its constructors. The file is
    required, not imported, so its fields read [Trade.symbol] and so on. *)
From S2P Require Import Prelude Models.
From S2P Require SymbolScale.

Record Trade : Type := mkTrade {
  id : string;
  entryPrice : Z;
  entryBid : Z;
  entryAsk : Z;
  size : Z;
  openTime : Z;
  direction : Direction;
  dealReference : string;
  symbol : string;
  scalingFactor : Z;
  stopDistancePips : Z;
  limitDistancePips : Z;
  exitReferencePrice : Z;
  stopPrice : Z;
  limitPrice : Z;
  strategyId : string;
  strategyName : string;
  closePrice : Z;
  closeTime : Z;
  pnl : Z;
  lastMarkPrice : Z;
  floatingPnl : Z;
  liquidated : bool;
}.

(** The four-argument constructor. *)
Definition newTrade (price quantity : Z) (dir : Direction) (tradeSymbol : string) : Trade := {|
  id := ""; entryPrice := price; entryBid := 0; entryAsk := 0; size := quantity;
  openTime := 0; direction := dir; dealReference := ""; symbol := tradeSymbol;
  scalingFactor := SymbolScale.get tradeSymbol;
  stopDistancePips := 0; limitDistancePips := 0; exitReferencePrice := 0;
  stopPrice := 0; limitPrice := 0; strategyId := ""; strategyName := "";
  closePrice := 0; closeTime := 0; pnl := 0; lastMarkPrice := 0; floatingPnl := 0;
  liquidated := false;
|}.

(** Field assignments, one per group the trade manager writes together. *)
Definition set_entry (t : Trade) (price : Z) : Trade :=
  mkTrade (id t) price (entryBid t) (entryAsk t) (size t) (openTime t) (direction t)
    (dealReference t) (symbol t) (scalingFactor t) (stopDistancePips t) (limitDistancePips t)
    (exitReferencePrice t) (stopPrice t) (limitPrice t) (strategyId t) (strategyName t)
    (closePrice t) (closeTime t) (pnl t) (lastMarkPrice t) (floatingPnl t) (liquidated t).

Definition set_opening (t : Trade) (newId : string) (time bid ask : Z)
    (stopPips limitPips reference stop limit : Z) : Trade :=
  mkTrade newId (entryPrice t) bid ask (size t) time (direction t)
    (dealReference t) (symbol t) (scalingFactor t) stopPips limitPips
    reference stop limit (strategyId t) (strategyName t)
    (closePrice t) (closeTime t) (pnl t) (lastMarkPrice t) (floatingPnl t) (liquidated t).

Definition set_mark (t : Trade) (mark floating : Z) : Trade :=
  mkTrade (id t) (entryPrice t) (entryBid t) (entryAsk t) (size t) (openTime t) (direction t)
    (dealReference t) (symbol t) (scalingFactor t) (stopDistancePips t) (limitDistancePips t)
    (exitReferencePrice t) (stopPrice t) (limitPrice t) (strategyId t) (strategyName t)
    (closePrice t) (closeTime t) (pnl t) mark floating (liquidated t).

Definition set_closed (t : Trade) (price time realised : Z) (forced : bool) : Trade :=
  mkTrade (id t) (entryPrice t) (entryBid t) (entryAsk t) (size t) (openTime t) (direction t)
    (dealReference t) (symbol t) (scalingFactor t) (stopDistancePips t) (limitDistancePips t)
    (exitReferencePrice t) (stopPrice t) (limitPrice t) (strategyId t) (strategyName t)
    price time realised (lastMarkPrice t) 0 forced.
