(* ===== verification/TradeManager.v ===== *)
(** run/trading/tradeManager.cppm: the account book of one run. Open trades are
    keyed by symbol, closed ones are appended in closing order; running sums
    carry the realised and the floating profit, and the drawdown extremes are
    sampled whenever equity moves. *)
From S2P Require Import Prelude Models.
From S2P Require Trade SymbolScale.
Import Trade(Trade).

Record TradeManager : Type := mkTradeManager {
  activeTrades : gmap string Trade;
  closedTrades : list Trade;
  tradeCounter : Z;
  closedPnl : Z;
  openPnl : Z;
  peakEquity : Z;
  maxDrawdown : Z;
  entrySlippageTenthPips : Z;
}.

Definition newTradeManager (slippage : Z) : TradeManager :=
  mkTradeManager ∅ [] 0 0 0 0 0 slippage.

(** The iteration order of [std::unordered_map], which the language leaves open:
    some permutation of the entries. *)
Class HashOrder : Type := {
  hash_order : gmap string Trade -> list (string * Trade);
  hash_order_perm m : hash_order m ≡ₚ map_to_list m;
}.

Definition canonicalOrder : HashOrder :=
  {| hash_order := map_to_list; hash_order_perm := fun m => Permutation_refl _ |}.

(** The close side of the spread for a direction. *)
Definition exit_side (d : Direction) (tick : PriceData) : Z :=
  match d with LONG => bid tick | SHORT => ask tick end.

Definition floatingPnlAt (trade : Trade) (mark : Z) : Z :=
  let diff := mark -₃₂ Trade.entryPrice trade in
  let diff := match Trade.direction trade with SHORT => i32 (- diff) | LONG => diff end in
  diff *₆₄ Trade.size trade.

Definition equity (m : TradeManager) : Z := closedPnl m +₆₄ openPnl m.

Definition updateDrawdown (m : TradeManager) : TradeManager :=
  let e := closedPnl m +₆₄ openPnl m in
  let peak := if peakEquity m <? e then e else peakEquity m in
  let drop := peak -₆₄ e in
  mkTradeManager (activeTrades m) (closedTrades m) (tradeCounter m) (closedPnl m) (openPnl m)
    peak (if maxDrawdown m <? drop then drop else maxDrawdown m) (entrySlippageTenthPips m).

(** Replaces the book and the running sums, keeping the rest. *)
Definition set_book (m : TradeManager) (active : gmap string Trade) (closed : list Trade)
    (realised floating : Z) : TradeManager :=
  mkTradeManager active closed (tradeCounter m) realised floating
    (peakEquity m) (maxDrawdown m) (entrySlippageTenthPips m).

Definition count_trade (m : TradeManager) : TradeManager :=
  mkTradeManager (activeTrades m) (closedTrades m) ((tradeCounter m + 1) mod 2 ^ 64)
    (closedPnl m) (openPnl m) (peakEquity m) (maxDrawdown m) (entrySlippageTenthPips m).

(** The entry price after the slippage stress. *)
Definition slipped_entry (slippage scaling : Z) (direction : Direction) (price : Z) : Z :=
  if (0 <? slippage) && (0 <? scaling) then
    let slipPoints := (slippage *₃₂ scaling) ÷ 10 in
    price +₃₂ (match direction with LONG => slipPoints | SHORT => i32 (- slipPoints) end)
  else price.

(** The trade [openTrade] builds before it touches the book. *)
Definition build_trade (m : TradeManager) (tick : PriceData) (size : Z) (direction : Direction)
    (stopDistancePips limitDistancePips : Z) : Trade :=
  let price := match direction with LONG => ask tick | SHORT => bid tick end in
  let trade := Trade.newTrade price size direction (symbol tick) in
  let scaling := Trade.scalingFactor trade in
  let trade := Trade.set_entry trade
    (slipped_entry (entrySlippageTenthPips m) scaling direction price) in
  let reference := match direction with LONG => bid tick | SHORT => ask tick end in
  let stopOffset := stopDistancePips *₃₂ scaling in
  let limitOffset := limitDistancePips *₃₂ scaling in
  let stop := match direction with
              | LONG => reference -₃₂ stopOffset | SHORT => reference +₃₂ stopOffset end in
  let limit := match direction with
               | LONG => reference +₃₂ limitOffset | SHORT => reference -₃₂ limitOffset end in
  let trade := Trade.set_opening trade ("T" +:+ pretty (tradeCounter m)) (timestamp tick)
                 (bid tick) (ask tick) stopDistancePips limitDistancePips reference stop limit in
  Trade.set_mark trade reference (floatingPnlAt trade reference).

Definition openTrade (m : TradeManager) (tick : PriceData) (size : Z) (direction : Direction)
    (stopDistancePips limitDistancePips : Z) : string * TradeManager :=
  let trade := build_trade m tick size direction stopDistancePips limitDistancePips in
  let m := count_trade m in
  match activeTrades m !! symbol tick with
  | Some existing => (Trade.id existing, m)
  | None =>
      (Trade.id trade,
       updateDrawdown
         (set_book m (<[symbol tick := trade]> (activeTrades m)) (closedTrades m)
            (closedPnl m) (openPnl m +₆₄ Trade.floatingPnl trade)))
  end.

Definition markToMarket (m : TradeManager) (tick : PriceData) : TradeManager :=
  match activeTrades m !! symbol tick with
  | None => m
  | Some trade =>
      let mark := exit_side (Trade.direction trade) tick in
      let updated := floatingPnlAt trade mark in
      updateDrawdown
        (set_book m (<[symbol tick := Trade.set_mark trade mark updated]> (activeTrades m))
           (closedTrades m) (closedPnl m)
           (openPnl m +₆₄ (updated -₆₄ Trade.floatingPnl trade)))
  end.

Definition reviewAccount (m : TradeManager) : nat := base.size (activeTrades m).

Definition findActiveTrade (m : TradeManager) (symbol : string) : option Trade :=
  activeTrades m !! symbol.

Definition hasActiveTradeForSymbol (m : TradeManager) (symbol : string) : bool :=
  match findActiveTrade m symbol with Some _ => true | None => false end.

Definition closeTrade (m : TradeManager) (symbol : string) (closePrice : Z) (tick : PriceData)
    (liquidated : bool) : bool * TradeManager :=
  match activeTrades m !! symbol with
  | None => (false, m)
  | Some trade =>
      let diff := closePrice -₃₂ Trade.entryPrice trade in
      let diff := match Trade.direction trade with SHORT => i32 (- diff) | LONG => diff end in
      let pnl := diff *₆₄ Trade.size trade in
      let closed := Trade.set_closed trade closePrice (timestamp tick) pnl liquidated in
      let m' := updateDrawdown
        (set_book m (delete symbol (activeTrades m)) (closedTrades m)
           (closedPnl m +₆₄ pnl) (openPnl m -₆₄ Trade.floatingPnl trade)) in
      (true, set_book m' (activeTrades m') (closedTrades m' ++ [closed])
               (closedPnl m') (openPnl m'))
  end.

Definition closeAllTrades {H : HashOrder} (m : TradeManager) (tick : PriceData)
    (liquidated : bool) : TradeManager :=
  let toClose := map (fun e => (e.1, Trade.lastMarkPrice e.2)) (hash_order (activeTrades m)) in
  foldl (fun m e => (closeTrade m e.1 e.2 tick liquidated).2) m toClose.

Definition calculatePnl (m : TradeManager) : Z := closedPnl m.
Definition unrealizedPnl (m : TradeManager) : Z := openPnl m.
Definition maxDrawdownPoints (m : TradeManager) : Z := maxDrawdown m.

(** ** Operations as a sequence of steps *)

Inductive Op : Type :=
| OpOpen (tick : PriceData) (size : Z) (direction : Direction) (stopPips limitPips : Z)
| OpMark (tick : PriceData)
| OpClose (symbol : string) (price : Z) (tick : PriceData) (liquidated : bool)
| OpCloseAll (tick : PriceData) (liquidated : bool).

Definition apply_op {H : HashOrder} (m : TradeManager) (op : Op) : TradeManager :=
  match op with
  | OpOpen tick size direction stopPips limitPips =>
      (openTrade m tick size direction stopPips limitPips).2
  | OpMark tick => markToMarket m tick
  | OpClose symbol price tick liquidated => (closeTrade m symbol price tick liquidated).2
  | OpCloseAll tick liquidated => closeAllTrades m tick liquidated
  end.

Definition apply_ops {H : HashOrder} (m : TradeManager) (ops : list Op) : TradeManager :=
  foldl apply_op m ops.

(** The equity curve: the equity after each operation. *)
Fixpoint equity_curve {H : HashOrder} (m : TradeManager) (ops : list Op) : list Z :=
  match ops with
  | [] => []
  | op :: ops' => let m' := apply_op m op in equity m' :: equity_curve m' ops'
  end.

(** ** Specification *)

Definition floating_sum (active : gmap string Trade) : Z :=
  map_fold (fun _ t acc => Trade.floatingPnl t + acc) 0 active.

Definition realised_sum (closed : list Trade) : Z := sum_list_Z (map Trade.pnl closed).

Definition active_ok (symbol : string) (t : Trade) : Prop :=
  Trade.symbol t = symbol /\ Trade.floatingPnl t = floatingPnlAt t (Trade.lastMarkPrice t).

Definition closed_ok (t : Trade) : Prop :=
  Trade.floatingPnl t = 0 /\ Trade.pnl t = floatingPnlAt t (Trade.closePrice t).

(** The ledger: every running sum is the sum of what it stands for. *)
Record ledger (m : TradeManager) : Prop := mkLedger {
  ledger_active : map_Forall active_ok (activeTrades m);
  ledger_closed : Forall closed_ok (closedTrades m);
  ledger_open : openPnl m = i64 (floating_sum (activeTrades m));
  ledger_realised : closedPnl m = i64 (realised_sum (closedTrades m));
}.

(** The reference drawdown of an equity curve: the deepest fall below the
    running peak, from a given peak and drawdown on. *)
Fixpoint drawdown_from (peak deepest : Z) (curve : list Z) : Z :=
  match curve with
  | [] => deepest
  | e :: curve' =>
      let peak := Z.max peak e in drawdown_from peak (Z.max deepest (peak - e)) curve'
  end.

Arguments realised_sum : simpl never.
Arguments floating_sum : simpl never.
Arguments floatingPnlAt : simpl never.

(** * Facts *)

Lemma floating_sum_empty : floating_sum ∅ = 0.
Proof. reflexivity. Qed.

Lemma floating_sum_insert active k t :
  active !! k = None -> floating_sum (<[k := t]> active) = Trade.floatingPnl t + floating_sum active.
Proof. intros Hk. unfold floating_sum. rewrite map_fold_insert_L; [done|intros; lia|done]. Qed.

Lemma floating_sum_delete active k t :
  active !! k = Some t -> floating_sum (delete k active) = floating_sum active - Trade.floatingPnl t.
Proof.
  intros Hk. rewrite <- (insert_delete_id active k t Hk) at 2.
  rewrite floating_sum_insert by apply lookup_delete_eq. lia.
Qed.

Lemma floating_sum_replace active k t t' :
  active !! k = Some t ->
  floating_sum (<[k := t']> active) = floating_sum active + (Trade.floatingPnl t' - Trade.floatingPnl t).
Proof.
  intros Hk. rewrite <- insert_delete_eq, floating_sum_insert, (floating_sum_delete _ _ t Hk)
    by apply lookup_delete_eq. lia.
Qed.

Lemma realised_sum_snoc closed t : realised_sum (closed ++ [t]) = realised_sum closed + Trade.pnl t.
Proof. unfold realised_sum. rewrite map_app, sum_list_Z_app. simpl. lia. Qed.

(** The drawdown bookkeeping never touches the ledger. *)
Lemma updateDrawdown_ledger m : ledger (updateDrawdown m) <-> ledger m.
Proof. split; intros [H1 H2 H3 H4]; split; assumption. Qed.

Lemma floatingPnlAt_set_mark t mark f price :
  floatingPnlAt (Trade.set_mark t mark f) price = floatingPnlAt t price.
Proof. reflexivity. Qed.

Lemma floatingPnlAt_set_closed t p time r l price :
  floatingPnlAt (Trade.set_closed t p time r l) price = floatingPnlAt t price.
Proof. reflexivity. Qed.

#[export] Hint Rewrite floatingPnlAt_set_mark floatingPnlAt_set_closed : engine.

Lemma ledger_new slippage : ledger (newTradeManager slippage).
Proof. split; [apply map_Forall_empty|constructor|done|done]. Qed.

Lemma openTrade_ledger m tick size d sp lp : ledger m -> ledger (openTrade m tick size d sp lp).2.
Proof.
  intros [H1 H2 H3 H4]. unfold openTrade. cbn [activeTrades count_trade].
  destruct (activeTrades m !! symbol tick) eqn:E; [now split|].
  cbn [snd]. apply updateDrawdown_ledger. split; cbn; [|done| |done].
  - apply map_Forall_insert_2; [split; reflexivity|done].
  - rewrite floating_sum_insert by done. change (i64 ?a = i64 ?b) with (eq64 a b).
    rewrite H3, eq64_i64, Z.add_comm. reflexivity.
Qed.

Lemma markToMarket_ledger m tick : ledger m -> ledger (markToMarket m tick).
Proof.
  intros [H1 H2 H3 H4]. unfold markToMarket.
  destruct (activeTrades m !! symbol tick) as [t|] eqn:E; [|now split].
  apply updateDrawdown_ledger. split; cbn; [|done| |done].
  - apply map_Forall_insert_2; [|done]. split; [|reflexivity]. apply (H1 _ _ E).
  - rewrite (floating_sum_replace _ _ t) by done. change (i64 ?a = i64 ?b) with (eq64 a b).
    rewrite H3, !eq64_i64. reflexivity.
Qed.

Lemma closeTrade_ledger m s price tick l : ledger m -> ledger (closeTrade m s price tick l).2.
Proof.
  intros [H1 H2 H3 H4]. unfold closeTrade.
  destruct (activeTrades m !! s) as [t|] eqn:E; [|now split].
  split; cbn.
  - now apply map_Forall_delete.
  - apply Forall_app_2; [done|]. repeat constructor.
  - rewrite (floating_sum_delete _ _ t) by done. change (i64 ?a = i64 ?b) with (eq64 a b).
    rewrite H3, eq64_i64. reflexivity.
  - rewrite realised_sum_snoc. change (i64 ?a = i64 ?b) with (eq64 a b).
    rewrite H4, eq64_i64. reflexivity.
Qed.

(** Closing at the last mark realises exactly the floating profit. *)
Lemma closeTrade_at_mark m s tick l t :
  ledger m -> activeTrades m !! s = Some t ->
  equity (closeTrade m s (Trade.lastMarkPrice t) tick l).2 = equity m.
Proof.
  intros [H1 _ _ _] E. unfold closeTrade. rewrite E. unfold equity. cbn.
  destruct (H1 _ _ E) as [_ Hf].
  change (i64 (_ *  Trade.size t)) with (floatingPnlAt t (Trade.lastMarkPrice t)).
  rewrite <- Hf. change (eq64 (i64 (closedPnl m + Trade.floatingPnl t) +
                               i64 (openPnl m - Trade.floatingPnl t)) (closedPnl m + openPnl m)).
  rewrite !eq64_i64. unfold eq64. f_equal. lia.
Qed.

(** ** The drawdown extremes *)

Definition small (z : Z) : Prop := - 2 ^ 62 <= z < 2 ^ 62.

(** The extremes already account for the current equity. *)
Definition settled (m : TradeManager) : Prop :=
  small (peakEquity m) /\ small (equity m) /\
  equity m <= peakEquity m /\ peakEquity m - equity m <= maxDrawdown m.

(** [m'] is [m] with its new equity folded into the extremes. *)
Definition samples (m m' : TradeManager) : Prop :=
  peakEquity m' = Z.max (peakEquity m) (equity m') /\
  maxDrawdown m' = Z.max (maxDrawdown m) (peakEquity m' - equity m').

Lemma updateDrawdown_samples m :
  small (peakEquity m) -> small (equity m) ->
  samples m (updateDrawdown m) /\ settled (updateDrawdown m).
Proof.
  unfold samples, settled, small, updateDrawdown, equity.
  cbn [peakEquity maxDrawdown closedPnl openPnl].
  set (e := i64 (closedPnl m + openPnl m)). intros Hp He.
  destruct (Z.ltb_spec (peakEquity m) e); rewrite i64_id by ilia;
    match goal with |- context [?a <? ?b] => destruct (Z.ltb_spec a b) end; lia.
Qed.

Lemma settled_samples m : settled m -> samples m m.
Proof. unfold settled, samples. lia. Qed.

(** An update whose equity did not move changes nothing on a settled manager. *)
Lemma samples_same m m' :
  settled m -> equity m' = equity m -> samples m m' ->
  peakEquity m' = peakEquity m /\ maxDrawdown m' = maxDrawdown m.
Proof. unfold settled, samples. lia. Qed.

(** An operation that only moves the book and the sums, then samples. *)
Lemma sampled_book m m0 :
  peakEquity m0 = peakEquity m -> maxDrawdown m0 = maxDrawdown m ->
  settled m -> small (equity m0) ->
  samples m (updateDrawdown m0) /\ settled (updateDrawdown m0).
Proof.
  intros Hp Hd Hs He. destruct (updateDrawdown_samples m0) as [[H1 H2] H3];
    [rewrite Hp; apply Hs|exact He|].
  split; [split; congruence|exact H3].
Qed.

Lemma openTrade_samples m tick size d sp lp :
  settled m -> small (equity (openTrade m tick size d sp lp).2) ->
  samples m (openTrade m tick size d sp lp).2 /\ settled (openTrade m tick size d sp lp).2.
Proof.
  intros Hs He. unfold openTrade in *. cbn [activeTrades count_trade] in *.
  destruct (activeTrades m !! symbol tick); cbn [snd] in *.
  - split; [exact (settled_samples m Hs)|exact Hs].
  - apply sampled_book; [done..|exact He].
Qed.

Lemma markToMarket_samples m tick :
  settled m -> small (equity (markToMarket m tick)) ->
  samples m (markToMarket m tick) /\ settled (markToMarket m tick).
Proof.
  intros Hs He. unfold markToMarket in *. destruct (activeTrades m !! symbol tick).
  - apply sampled_book; [done..|exact He].
  - split; [exact (settled_samples m Hs)|exact Hs].
Qed.

Lemma closeTrade_samples m s price tick l :
  settled m -> small (equity (closeTrade m s price tick l).2) ->
  samples m (closeTrade m s price tick l).2 /\ settled (closeTrade m s price tick l).2.
Proof.
  intros Hs He. unfold closeTrade in *. destruct (activeTrades m !! s); cbn [snd] in *.
  - exact (sampled_book m (set_book m (delete s (activeTrades m)) (closedTrades m) _ _)
             eq_refl eq_refl Hs He).
  - split; [exact (settled_samples m Hs)|exact Hs].
Qed.

(** ** Closing the whole book *)

(** The trade an open one becomes when it is closed at its last mark. *)
Definition closed_at_mark (tick : PriceData) (l : bool) (t : Trade) : Trade :=
  Trade.set_closed t (Trade.lastMarkPrice t) (timestamp tick) (Trade.floatingPnl t) l.

Lemma closeTrade_closed m s t tick l :
  ledger m -> activeTrades m !! s = Some t ->
  closedTrades (closeTrade m s (Trade.lastMarkPrice t) tick l).2 =
  closedTrades m ++ [closed_at_mark tick l t].
Proof.
  intros [H1 _ _ _] E. unfold closeTrade, closed_at_mark. rewrite E. cbn.
  destruct (H1 _ _ E) as [_ Hf].
  change (i64 (_ *  Trade.size t)) with (floatingPnlAt t (Trade.lastMarkPrice t)).
  now rewrite <- Hf.
Qed.

Lemma closeTrade_active m s price tick l :
  activeTrades (closeTrade m s price tick l).2 = delete s (activeTrades m).
Proof.
  unfold closeTrade. destruct (activeTrades m !! s) eqn:E; [done|].
  cbn [snd]. now rewrite delete_id.
Qed.

Definition close_listed (tick : PriceData) (l : bool) (m : TradeManager)
    (entries : list (string * Trade)) : TradeManager :=
  foldl (fun m e => (closeTrade m e.1 e.2 tick l).2) m
    (map (fun e => (e.1, Trade.lastMarkPrice e.2)) entries).

Lemma close_listed_book tick l entries : forall m,
  ledger m -> NoDup entries.*1 ->
  (forall s t, (s, t) ∈ entries -> activeTrades m !! s = Some t) ->
  let m' := close_listed tick l m entries in
  ledger m' /\ equity m' = equity m /\
  (settled m -> settled m' /\ peakEquity m' = peakEquity m /\ maxDrawdown m' = maxDrawdown m) /\
  closedTrades m' = closedTrades m ++ map (fun e => closed_at_mark tick l e.2) entries /\
  forall s, s ∈ entries.*1 \/ activeTrades m !! s = None -> activeTrades m' !! s = None.
Proof.
  induction entries as [|[s t] entries IH]; intros m Hl Hnd Hin m'.
  { unfold m', close_listed. simpl. rewrite app_nil_r. split_and!; auto. set_solver. }
  rewrite fmap_cons in Hnd. apply NoDup_cons in Hnd as [Hns Hnd]. simpl in Hns.
  pose proof (Hin s t ltac:(set_solver)) as E.
  pose proof (closeTrade_at_mark m s tick l t Hl E) as Heq.
  unfold m', close_listed. cbn [map foldl fst snd].
  set (m1 := (closeTrade m s (Trade.lastMarkPrice t) tick l).2) in *.
  assert (ledger m1) as Hl1 by now apply closeTrade_ledger.
  destruct (IH m1 Hl1 Hnd) as (G1 & G3 & G2 & G6 & G7).
  { intros s' t' Hin'. unfold m1. rewrite closeTrade_active, lookup_delete_ne; [apply Hin; set_solver|].
    intros <-. apply Hns. apply list_elem_of_fmap. now exists (s, t'). }
  fold (close_listed tick l m1 entries). split_and!; [done|congruence|..].
  - intros Hs. destruct (closeTrade_samples m s (Trade.lastMarkPrice t) tick l Hs) as [Hsm Hs1].
    { fold m1. rewrite Heq. apply Hs. }
    destruct (samples_same _ _ Hs Heq Hsm) as [Hp Hd]. fold m1 in Hs1, Hp, Hd.
    destruct (G2 Hs1) as (? & ? & ?). split_and!; congruence.
  - rewrite G6. unfold m1. rewrite (closeTrade_closed m s t) by done.
    now rewrite <- app_assoc.
  - intros s' Hs'. apply G7. unfold m1. rewrite closeTrade_active.
    destruct (decide (s' = s)) as [->|Hne]; [right; apply lookup_delete_eq|].
    rewrite lookup_delete_ne by done. set_solver.
Qed.

Section HashOrdered.
Context {H : HashOrder}.

Lemma hash_order_entries m :
  NoDup (hash_order m).*1 /\ (forall s t, (s, t) ∈ hash_order m <-> m !! s = Some t).
Proof.
  split.
  - rewrite (hash_order_perm m). apply NoDup_fst_map_to_list.
  - intros s t. rewrite (hash_order_perm m). apply elem_of_map_to_list.
Qed.

Lemma closeAllTrades_book m tick l :
  ledger m ->
  let m' := closeAllTrades m tick l in
  ledger m' /\ equity m' = equity m /\
  (settled m -> settled m' /\ peakEquity m' = peakEquity m /\ maxDrawdown m' = maxDrawdown m) /\
  closedTrades m' = closedTrades m ++
    map (fun e => closed_at_mark tick l e.2) (hash_order (activeTrades m)) /\
  activeTrades m' = ∅.
Proof.
  intros Hl. destruct (hash_order_entries (activeTrades m)) as [Hnd Hin].
  destruct (close_listed_book tick l (hash_order (activeTrades m)) m Hl Hnd)
    as (G1 & G3 & G2 & G6 & G7); [intros s t; apply Hin|].
  split_and!; try done. apply map_empty. intros s. apply G7.
  destruct (activeTrades m !! s) as [t|] eqn:E; [left|now right].
  apply Hin in E. apply list_elem_of_fmap. now exists (s, t).
Qed.

(** With the book empty, all of the equity is realised. *)
Lemma closeAllTrades_pnl m tick l :
  ledger m -> calculatePnl (closeAllTrades m tick l) = equity m /\
              unrealizedPnl (closeAllTrades m tick l) = 0.
Proof.
  intros Hl. destruct (closeAllTrades_book m tick l Hl) as (G1 & G2 & _ & _ & G5).
  assert (openPnl (closeAllTrades m tick l) = 0) as Ho
    by (rewrite (ledger_open _ G1), G5, floating_sum_empty; reflexivity).
  split; [|exact Ho]. rewrite <- G2. unfold equity, calculatePnl.
  rewrite Ho, Z.add_0_r, (ledger_realised _ G1). symmetry. apply eq64_i64.
Qed.

Lemma apply_op_ledger m op : ledger m -> ledger (apply_op m op).
Proof.
  intros Hl. destruct op; cbn [apply_op].
  - now apply openTrade_ledger.
  - now apply markToMarket_ledger.
  - now apply closeTrade_ledger.
  - unfold closeAllTrades. generalize (map (fun e => (e.1, Trade.lastMarkPrice e.2))
      (hash_order (activeTrades m))) as entries. intros entries. revert m Hl.
    induction entries as [|[s p] entries IH]; intros m Hl; [done|]. cbn [foldl fst snd].
    apply IH. now apply closeTrade_ledger.
Qed.

Lemma apply_op_samples m op :
  ledger m -> settled m -> small (equity (apply_op m op)) ->
  samples m (apply_op m op) /\ settled (apply_op m op).
Proof.
  intros Hl Hs He. destruct op; cbn [apply_op] in *.
  - now apply openTrade_samples.
  - now apply markToMarket_samples.
  - now apply closeTrade_samples.
  - destruct (closeAllTrades_book m tick liquidated Hl) as (_ & G3 & G & _).
    destruct (G Hs) as (G2 & G4 & G5). split; [|exact G2]. destruct (settled_samples m Hs). split; congruence.
Qed.

Lemma drawdown_curve ops : forall m,
  ledger m -> settled m -> Forall small (equity_curve m ops) ->
  maxDrawdown (apply_ops m ops) = drawdown_from (peakEquity m) (maxDrawdown m) (equity_curve m ops).
Proof.
  induction ops as [|op ops IH]; intros m Hl Hs Hc; [done|].
  cbn [equity_curve drawdown_from] in *. inversion Hc as [|? ? H1 H2]; subst.
  destruct (apply_op_samples m op Hl Hs H1) as [[Hp Hd] Hs'].
  unfold apply_ops. cbn [foldl]. fold (apply_ops (apply_op m op) ops).
  rewrite (IH (apply_op m op) (apply_op_ledger m op Hl) Hs' H2). now rewrite <- Hp, <- Hd.
Qed.
End HashOrdered.

Lemma settled_new slippage : settled (newTradeManager slippage).
Proof. unfold settled, small. repeat split; vm_compute; congruence. Qed.

(** C17: the book never drifts.  After any sequence of opens (also refused ones),
    marks, closes (also of symbols with no trade) and whole-book closes, in any
    hash order and with no bound on prices or sizes: every open trade sits under
    its own symbol with the floating profit of its last mark, every closed trade
    carries the profit of its closing price, and the two running sums the
    loss limit reads are, as 64-bit integers, the sums over the open and over
    the closed trades. *)
Theorem book_ledger {H : HashOrder} (slippage : Z) (ops : list Op) :
  ledger (apply_ops (newTradeManager slippage) ops).
Proof.
  induction ops as [|op ops IH] using rev_ind; [apply ledger_new|].
  unfold apply_ops. rewrite foldl_app. now apply apply_op_ledger.
Qed.

(** The reported drawdown is the true one.  For any sequence of operations
    whose equity stays within 62 bits, [maxDrawdownPoints] is the deepest fall of
    the equity curve below its running peak (the peak starting at zero); the
    intermediate equities of a whole-book close add nothing. *)
Theorem maxDrawdown_exact {H : HashOrder} (slippage : Z) (ops : list Op)
    (Hsmall : Forall small (equity_curve (newTradeManager slippage) ops)) :
  maxDrawdownPoints (apply_ops (newTradeManager slippage) ops) =
  drawdown_from 0 0 (equity_curve (newTradeManager slippage) ops).
Proof. apply drawdown_curve; [apply ledger_new|apply settled_new|exact Hsmall]. Qed.

(** Closing the whole book realises exactly what was floating.  On a book
    reached by any operations, [closeAllTrades] leaves no open trade, appends
    each open trade once, closed at its last mark with its floating profit as
    the realised one and with the given liquidation flag, and moves neither
    equity nor the drawdown. *)
Theorem closeAllTrades_realises {H : HashOrder} (slippage : Z) (ops : list Op)
    (tick : PriceData) (l : bool)
    (Hsmall : Forall small (equity_curve (newTradeManager slippage) ops)) :
  let m := apply_ops (newTradeManager slippage) ops in
  let m' := closeAllTrades m tick l in
  activeTrades m' = ∅ /\
  (exists closed, closedTrades m' = closedTrades m ++ closed /\
     closed ≡ₚ map (fun e => closed_at_mark tick l e.2) (map_to_list (activeTrades m))) /\
  calculatePnl m' = calculatePnl m +₆₄ unrealizedPnl m /\
  maxDrawdownPoints m' = maxDrawdownPoints m.
Proof.
  intros m m'.
  assert (ledger m /\ settled m) as [Hl Hs].
  { revert Hsmall. unfold m. generalize (ledger_new slippage) (settled_new slippage).
    generalize (newTradeManager slippage) as m0. clear.
    induction ops as [|op ops IH]; intros m0 Hl Hs Hc; [done|].
    inversion Hc as [|? ? H1 H2]; subst. unfold apply_ops. cbn [foldl].
    apply IH; [now apply apply_op_ledger|now apply apply_op_samples|exact H2]. }
  destruct (closeAllTrades_book m tick l Hl) as (_ & _ & G & G6 & G7).
  destruct (closeAllTrades_pnl m tick l Hl) as [G3 _].
  split_and!; [exact G7| |exact G3|apply (G Hs)].
  eexists. split; [exact G6|]. now rewrite (hash_order_perm (activeTrades m)).
Qed.

(** ** The cost of opening *)

(** The slippage in points that an entry on this symbol pays. *)
Definition slip_points (slippage : Z) (symbol : string) : Z :=
  if (0 <? slippage) && (0 <? SymbolScale.get symbol)
  then slippage * SymbolScale.get symbol ÷ 10 else 0.

Definition fill_sign (d : Direction) : Z := match d with LONG => 1 | SHORT => -1 end.

(** The price an entry pays before slippage. *)
Definition entry_side (d : Direction) (tick : PriceData) : Z :=
  match d with LONG => ask tick | SHORT => bid tick end.

Lemma slip_points_range slippage symbol :
  0 <= slippage <= 10000 -> 0 <= slip_points slippage symbol <= 1000000.
Proof.
  intros Hs. unfold slip_points. destruct (Z.ltb_spec 0 slippage), (Z.ltb_spec 0 (SymbolScale.get symbol));
    cbn [andb]; try lia.
  pose proof (SymbolScale.get_cases symbol) as Hc.
  rewrite Z.quot_div_nonneg by nia. Z.div_mod_to_equations. nia.
Qed.

Lemma slipped_entry_exact slippage symbol d price :
  0 <= slippage <= 10000 -> price_ok price ->
  slipped_entry slippage (SymbolScale.get symbol) d price =
  price + fill_sign d * slip_points slippage symbol.
Proof.
  intros Hs Hp. pose proof (slip_points_range slippage symbol Hs) as Hr.
  unfold slipped_entry, slip_points, price_ok in *.
  destruct ((0 <? slippage) && (0 <? SymbolScale.get symbol)) eqn:E; [|destruct d; simpl; lia].
  zbool. pose proof (SymbolScale.get_cases symbol) as Hc.
  rewrite (i32_id (slippage * _)) by (unfold in_i32; nia).
  destruct d; cbn [fill_sign]; [|rewrite (i32_id (- _)) by ilia]; rewrite i32_id by ilia; lia.
Qed.

Lemma build_trade_floating m tick size d sp lp :
  tick_ok tick -> in_i32 size -> 0 <= entrySlippageTenthPips m <= 10000 ->
  let t := build_trade m tick size d sp lp in
  Trade.entryPrice t =
    entry_side d tick + fill_sign d * slip_points (entrySlippageTenthPips m) (symbol tick) /\
  Trade.floatingPnl t =
    - (ask tick - bid tick + slip_points (entrySlippageTenthPips m) (symbol tick)) * size.
Proof.
  intros [Ha Hb] Hsz Hsl t.
  assert (Trade.entryPrice t = entry_side d tick +
            fill_sign d * slip_points (entrySlippageTenthPips m) (symbol tick)) as He.
  { unfold t, build_trade. cbn. unfold entry_side.
    destruct d; apply slipped_entry_exact; auto. }
  split; [exact He|].
  pose proof (slip_points_range (entrySlippageTenthPips m) (symbol tick) Hsl) as Hr.
  change (Trade.floatingPnl t) with (floatingPnlAt t (exit_side d tick)).
  unfold floatingPnlAt. rewrite He. change (Trade.size t) with size.
  change (Trade.direction t) with d. unfold price_ok, exit_side, entry_side, in_i32 in *.
  destruct d; cbn [fill_sign]; rewrite (i32_id (_ - _)) by ilia;
    [|rewrite i32_id by ilia]; rewrite i64_id by (unfold in_i64; nia); nia.
Qed.

Lemma openTrade_free m tick sz d sp lp :
  activeTrades m !! symbol tick = None ->
  openTrade m tick sz d sp lp =
  (Trade.id (build_trade m tick sz d sp lp),
   updateDrawdown
     (set_book (count_trade m) (<[symbol tick := build_trade m tick sz d sp lp]> (activeTrades m))
        (closedTrades m) (closedPnl m)
        (openPnl m +₆₄ Trade.floatingPnl (build_trade m tick sz d sp lp)))).
Proof. intros E. unfold openTrade. cbn [activeTrades count_trade]. now rewrite E. Qed.

(** Booking a floating profit moves equity by that profit. *)
Lemma equity_booked m active closed f :
  equity (updateDrawdown (set_book (count_trade m) active closed (closedPnl m) (openPnl m +₆₄ f))) =
  i64 (equity m + f).
Proof.
  unfold equity. cbn [closedPnl openPnl updateDrawdown set_book count_trade].
  match goal with |- i64 ?a = i64 ?b => change (eq64 a b) end. rewrite !eq64_i64.
  unfold eq64. f_equal. lia.
Qed.

(** What an entry costs.  Opening on a symbol with no open trade stores a
    trade in the requested direction and size, filled at the ask (long) or the bid
    (short) worsened by the configured slippage, and lowers equity at once by
    exactly (spread + slippage) x size; opening on a symbol that already has a
    trade changes neither the book nor the sums and hands back that trade's id. *)
Theorem openTrade_cost (m : TradeManager) (tick : PriceData) (sz : Z) (d : Direction) (sp lp : Z)
    (Htick : tick_ok tick) (Hsz : in_i32 sz) (Hslip : 0 <= entrySlippageTenthPips m <= 10000) :
  let slip := slip_points (entrySlippageTenthPips m) (symbol tick) in
  let '(tid, m') := openTrade m tick sz d sp lp in
  match findActiveTrade m (symbol tick) with
  | None =>
      exists t, activeTrades m' = <[symbol tick := t]> (activeTrades m) /\
        closedTrades m' = closedTrades m /\ Trade.id t = tid /\
        Trade.direction t = d /\ Trade.size t = sz /\ Trade.openTime t = timestamp tick /\
        Trade.entryPrice t = entry_side d tick + fill_sign d * slip /\
        equity m' = i64 (equity m - (ask tick - bid tick + slip) * sz)
  | Some existing =>
      tid = Trade.id existing /\ activeTrades m' = activeTrades m /\
      closedTrades m' = closedTrades m /\ closedPnl m' = closedPnl m /\ openPnl m' = openPnl m
  end.
Proof.
  intros slip. unfold findActiveTrade.
  destruct (activeTrades m !! symbol tick) as [existing|] eqn:E.
  { unfold openTrade. cbn [activeTrades count_trade]. rewrite E. done. }
  rewrite openTrade_free by done.
  destruct (build_trade_floating m tick sz d sp lp Htick Hsz Hslip) as [He Hf].
  exists (build_trade m tick sz d sp lp). split_and!; [done|done|done|done|done|done|exact He|].
  rewrite equity_booked, Hf. fold slip. f_equal. lia.
Qed.

(** ** The entries of a run *)

(** What is fixed about a trade once it is opened. *)
Record Opening : Type := mkOpening {
  op_symbol : string;
  op_time : Z;
  op_size : Z;
  op_direction : Direction;
  op_stop : Z;
  op_limit : Z;
}.

Definition opening (t : Trade) : Opening :=
  mkOpening (Trade.symbol t) (Trade.openTime t) (Trade.size t) (Trade.direction t)
    (Trade.stopDistancePips t) (Trade.limitDistancePips t).

(** Every trade a book has ever opened, closed or not. *)
Definition openings (m : TradeManager) : list Opening :=
  map opening (closedTrades m) ++ map (fun e => opening e.2) (map_to_list (activeTrades m)).

Lemma openings_book m active closed realised floating :
  openings (updateDrawdown (set_book m active closed realised floating)) =
  map opening closed ++ map (fun e => opening e.2) (map_to_list active).
Proof. reflexivity. Qed.

Lemma openTrade_openings m tick sz d sp lp :
  activeTrades m !! symbol tick = None ->
  openings (openTrade m tick sz d sp lp).2 ≡ₚ
  mkOpening (symbol tick) (timestamp tick) sz d sp lp :: openings m.
Proof.
  intros E. rewrite openTrade_free by done. cbn [snd]. rewrite openings_book.
  rewrite map_to_list_insert by done. cbn [map]. rewrite <- Permutation_middle. reflexivity.
Qed.

Lemma markToMarket_openings m tick : openings (markToMarket m tick) ≡ₚ openings m.
Proof.
  unfold markToMarket. destruct (activeTrades m !! symbol tick) as [t|] eqn:E; [|done].
  rewrite openings_book. unfold openings. f_equiv.
  rewrite <- (insert_delete_id (activeTrades m) (symbol tick) t E) at 2.
  rewrite <- insert_delete_eq, !map_to_list_insert by apply lookup_delete_eq. reflexivity.
Qed.

Lemma closeTrade_openings m s price tick l :
  openings (closeTrade m s price tick l).2 ≡ₚ openings m.
Proof.
  unfold closeTrade. destruct (activeTrades m !! s) as [t|] eqn:E; [|done].
  unfold openings. cbn [closedTrades activeTrades snd updateDrawdown set_book].
  rewrite map_app, <- app_assoc. f_equiv.
  rewrite <- (insert_delete_id (activeTrades m) s t E) at 2.
  rewrite map_to_list_insert by apply lookup_delete_eq. reflexivity.
Qed.

Lemma closeAllTrades_openings {H : HashOrder} m tick l :
  openings (closeAllTrades m tick l) ≡ₚ openings m.
Proof.
  unfold closeAllTrades. generalize (map (fun e => (e.1, Trade.lastMarkPrice e.2))
    (hash_order (activeTrades m))) as entries. intros entries. revert m.
  induction entries as [|[s p] entries IH]; intros m; [done|]. cbn [foldl fst snd].
  now rewrite IH, closeTrade_openings.
Qed.

(** ** Witnesses *)

Definition book_tick (symbol : string) (ts price : Z) : PriceData :=
  mkPriceData price (price - 2) ts symbol.

Definition demo_ops : list Op :=
  [OpOpen (book_tick "EURUSD" 0 1000) 3 LONG 10 20;
   OpOpen (book_tick "GBPUSD" 1 2000) 1 SHORT 10 20;
   OpMark (book_tick "EURUSD" 2 950);
   OpClose "GBPUSD" 1990 (book_tick "GBPUSD" 3 1990) false;
   OpMark (book_tick "EURUSD" 4 1100)].

Lemma demo_ops_small :
  Forall small (equity_curve (H := canonicalOrder) (newTradeManager 5) demo_ops).
Proof.
  match goal with |- Forall _ ?l => let v := eval vm_compute in l in change l with v end.
  unfold small. repeat constructor; discriminate.
Defined.

Lemma maxDrawdown_exact_witness :
  maxDrawdownPoints (apply_ops (H := canonicalOrder) (newTradeManager 5) demo_ops) = 178.
Proof.
  rewrite (maxDrawdown_exact (H := canonicalOrder) 5 demo_ops demo_ops_small).
  vm_compute. reflexivity.
Defined.

Lemma closeAllTrades_realises_witness :
  activeTrades (closeAllTrades (H := canonicalOrder)
    (apply_ops (H := canonicalOrder) (newTradeManager 5) demo_ops)
    (book_tick "EURUSD" 5 1) true) = ∅.
Proof.
  exact (proj1 (closeAllTrades_realises (H := canonicalOrder) 5 demo_ops
    (book_tick "EURUSD" 5 1) true demo_ops_small)).
Defined.

Lemma openTrade_cost_witness :
  equity (openTrade (newTradeManager 3) (book_tick "EURUSD" 0 110000) 2 LONG 10 20).2 = -10.
Proof.
  pose proof (openTrade_cost (newTradeManager 3) (book_tick "EURUSD" 0 110000) 2 LONG 10 20) as H.
  specialize (H ltac:(split; split; simpl; lia) ltac:(split; lia) ltac:(split; simpl; lia)).
  cbv zeta in H. destruct (openTrade _ _ _ _ _ _) as [tid m'] eqn:E.
  destruct H as (t & _ & _ & _ & _ & _ & _ & _ & He). cbn [snd]. rewrite He.
  vm_compute. reflexivity.
Defined.
