(* ===== verification/ExitRules.v ===== *)
(** exitRules.cppm, reviewStopAndLimit.cppm and timeCapExit.cppm: the exits that
    close one symbol's trade on a tick. *)
From S2P Require Import Prelude Models TradeManager.
From S2P Require Trade SymbolScale.
Import Trade(Trade).

Definition checkExit (trade : Trade) (tick : PriceData) : option Z :=
  if Trade.scalingFactor trade =? 0 then None
  else match Trade.direction trade with
       | LONG =>
           if negb (Trade.stopDistancePips trade =? 0) && (bid tick <=? Trade.stopPrice trade)
           then Some (bid tick)
           else if negb (Trade.limitDistancePips trade =? 0) && (Trade.limitPrice trade <=? bid tick)
           then Some (bid tick)
           else None
       | SHORT =>
           if negb (Trade.stopDistancePips trade =? 0) && (Trade.stopPrice trade <=? ask tick)
           then Some (ask tick)
           else if negb (Trade.limitDistancePips trade =? 0) && (ask tick <=? Trade.limitPrice trade)
           then Some (ask tick)
           else None
       end.

Definition reviewStopAndLimit (m : TradeManager) (tick : PriceData) : TradeManager :=
  match findActiveTrade m (symbol tick) with
  | None => m
  | Some trade =>
      match checkExit trade tick with
      | Some exitPrice => (closeTrade m (symbol tick) exitPrice tick false).2
      | None => m
      end
  end.

Definition closeIfPastCap (price : PriceData) (m : TradeManager) (cap : Z)
    : bool * TradeManager :=
  if cap <=? 0 then (false, m)
  else match findActiveTrade m (symbol price) with
       | None => (false, m)
       | Some trade =>
           if timestamp price - Trade.openTime trade <=? cap then (false, m)
           else
             let closePrice := exit_side (Trade.direction trade) price in
             (true, (closeTrade m (symbol price) closePrice price false).2)
       end.

(** ** Specification *)

(** The favourable move of the exit side since the opening tick, in points. *)
Definition favourable_move (d : Direction) (opening tick : PriceData) : Z :=
  fill_sign d * (exit_side d tick - exit_side d opening).

(** The bracket has fired: the loss reached the stop or the gain the limit; a
    zero distance disarms its leg. *)
Definition bracket_fires (d : Direction) (stopPips limitPips pointsPerPip : Z)
    (opening tick : PriceData) : Prop :=
  (stopPips <> 0 /\ favourable_move d opening tick <= - (stopPips * pointsPerPip)) \/
  (limitPips <> 0 /\ favourable_move d opening tick >= limitPips * pointsPerPip).

(** A pip distance for which no trigger price wraps. *)
Definition pips_ok (p : Z) : Prop := 0 <= p <= 1000000.

(** The trade [openTrade] built on [opening], however often it was marked. *)
Definition marked_trade (m0 : TradeManager) (opening : PriceData) (size : Z) (d : Direction)
    (stopPips limitPips : Z) (t : Trade) : Prop :=
  exists mark floating,
    t = Trade.set_mark (build_trade m0 opening size d stopPips limitPips) mark floating.

(** * Facts *)

Lemma checkExit_bracket m0 opening size d sp lp t tick :
  marked_trade m0 opening size d sp lp t -> tick_ok opening -> tick_ok tick ->
  pips_ok sp -> pips_ok lp ->
  match checkExit t tick with
  | Some price => SymbolScale.get (symbol opening) <> 0 /\ price = exit_side d tick /\
      bracket_fires d sp lp (SymbolScale.get (symbol opening)) opening tick
  | None => SymbolScale.get (symbol opening) = 0 \/
      ~ bracket_fires d sp lp (SymbolScale.get (symbol opening)) opening tick
  end.
Proof.
  intros (mark & fl & ->) [Ha Hb] [Ha' Hb'] Hsp Hlp.
  pose proof (SymbolScale.get_cases (symbol opening)) as Hc.
  unfold checkExit, bracket_fires, favourable_move, pips_ok, price_ok in *. cbn.
  set (k := SymbolScale.get (symbol opening)) in *.
  assert (0 <= sp * k <= 1000000000) as Hs by nia. assert (0 <= lp * k <= 1000000000) as Hl by nia.
  rewrite (i32_id (sp * k)), (i32_id (lp * k)) by ilia.
  destruct (Z.eqb_spec k 0) as [Ek|Ek]; [now left|].
  destruct d; cbn [exit_side fill_sign];
    rewrite !i32_id by ilia; repeat split_test; zbool; lia.
Qed.

(** What a close of one symbol's trade does to the book. *)
Lemma closeTrade_book m s price tick l t :
  activeTrades m !! s = Some t ->
  let m' := (closeTrade m s price tick l).2 in
  activeTrades m' = delete s (activeTrades m) /\
  exists closed, closedTrades m' = closedTrades m ++ [closed] /\
    Trade.id closed = Trade.id t /\ Trade.closePrice closed = price /\
    Trade.closeTime closed = timestamp tick /\ Trade.liquidated closed = l /\
    Trade.pnl closed = floatingPnlAt t price.
Proof.
  intros E m'. split; [apply closeTrade_active|]. unfold m', closeTrade. rewrite E. cbn.
  eexists. split; [reflexivity|]. split_and!; done.
Qed.

Lemma floating_of_bracket m0 opening size d sp lp t tick :
  marked_trade m0 opening size d sp lp t -> tick_ok opening -> tick_ok tick -> in_i32 size ->
  0 <= entrySlippageTenthPips m0 <= 10000 ->
  floatingPnlAt t (exit_side d tick) =
  (favourable_move d opening tick - (ask opening - bid opening)
   - slip_points (entrySlippageTenthPips m0) (symbol opening)) * size.
Proof.
  intros (mark & fl & ->) Ho [Ha Hb] Hsz Hsl. rewrite floatingPnlAt_set_mark.
  destruct (build_trade_floating m0 opening size d sp lp Ho Hsz Hsl) as [He _].
  cbv zeta in He. pose proof (slip_points_range _ (symbol opening) Hsl) as Hr.
  destruct Ho as [Hoa Hob]. unfold floatingPnlAt. rewrite He.
  change (Trade.direction (build_trade m0 opening size d sp lp)) with d.
  change (Trade.size (build_trade m0 opening size d sp lp)) with size.
  unfold favourable_move, exit_side, entry_side, price_ok, in_i32 in *.
  destruct d; cbn [fill_sign]; rewrite (i32_id (_ - _)) by ilia;
    [|rewrite i32_id by ilia]; rewrite i64_id by (unfold in_i64; nia); nia.
Qed.

(** C18: the bracket orders do what their pip distances say.  For the trade that
    [openTrade] built, after any number of marks and on any in-range tick of its
    symbol: the review closes it exactly when its exit side has moved against it
    by at least the stop, or in favour by at least the limit, measured from the
    exit side of the opening tick (a zero distance disarms its leg); the close
    is at the tick's own exit-side price, so a gap through the level fills at the
    gap, and the profit is the favourable move less spread and slippage.  In
    every other case, the opening tick itself included, nothing changes. *)
Theorem bracket_exit (m m0 : TradeManager) (opening tick : PriceData) (size : Z) (d : Direction)
    (sp lp : Z) (t : Trade)
    (Hfind : findActiveTrade m (symbol tick) = Some t)
    (Ht : marked_trade m0 opening size d sp lp t)
    (Hknown : SymbolScale.get (symbol opening) <> 0)
    (Hopening : tick_ok opening) (Htick : tick_ok tick) (Hsz : in_i32 size)
    (Hslip : 0 <= entrySlippageTenthPips m0 <= 10000) (Hsp : pips_ok sp) (Hlp : pips_ok lp) :
  let m' := reviewStopAndLimit m tick in
  let ppp := SymbolScale.get (symbol opening) in
  (bracket_fires d sp lp ppp opening tick ->
     activeTrades m' = delete (symbol tick) (activeTrades m) /\
     exists closed, closedTrades m' = closedTrades m ++ [closed] /\
       Trade.closePrice closed = exit_side d tick /\ Trade.liquidated closed = false /\
       Trade.pnl closed =
         (favourable_move d opening tick - (ask opening - bid opening)
          - slip_points (entrySlippageTenthPips m0) (symbol opening)) * size) /\
  (~ bracket_fires d sp lp ppp opening tick -> m' = m) /\
  ~ bracket_fires d sp lp ppp opening opening.
Proof.
  intros m' ppp.
  pose proof (checkExit_bracket _ _ _ _ _ _ _ tick Ht Hopening Htick Hsp Hlp) as Hc.
  unfold m', reviewStopAndLimit. rewrite Hfind. split_and!.
  - intros Hf. destruct (checkExit t tick) as [price|]; [|now destruct Hc].
    destruct Hc as (_ & -> & _).
    destruct (closeTrade_book m (symbol tick) (exit_side d tick) tick false t Hfind)
      as (H1 & closed & H2 & _ & H3 & _ & H4 & H5).
    split; [exact H1|]. exists closed. split_and!; auto.
    rewrite H5. eapply floating_of_bracket; eauto.
  - intros Hf. destruct (checkExit t tick); [now destruct Hc as (_ & _ & Hb)|done].
  - unfold bracket_fires, favourable_move, pips_ok in *. rewrite Z.sub_diag, Z.mul_0_r.
    pose proof (SymbolScale.get_cases (symbol opening)). unfold ppp in *. nia.
Qed.

(** The time cap.  With a positive cap, the tick symbol's trade is closed
    exactly when it has been open strictly longer than the cap, at the tick's
    exit side and not as a liquidation; a non-positive cap, a symbol with no
    trade and a trade exactly at the cap leave the book untouched, and other
    symbols' trades are never touched. *)
Theorem time_cap_exit (price : PriceData) (m : TradeManager) (cap : Z) :
  let '(fired, m') := closeIfPastCap price m cap in
  (fired = true <->
     0 < cap /\ exists t, findActiveTrade m (symbol price) = Some t /\
                          timestamp price - Trade.openTime t > cap) /\
  (fired = false -> m' = m) /\
  (fired = true -> exists t closed, findActiveTrade m (symbol price) = Some t /\
     closedTrades m' = closedTrades m ++ [closed] /\
     Trade.id closed = Trade.id t /\ Trade.liquidated closed = false /\
     Trade.closePrice closed = exit_side (Trade.direction t) price /\
     forall s, findActiveTrade m' s = if decide (s = symbol price) then None else findActiveTrade m s).
Proof.
  unfold closeIfPastCap. destruct (Z.leb_spec cap 0) as [Hc|Hc].
  { split_and!; try done. split; [done|lia]. }
  destruct (findActiveTrade m (symbol price)) as [t|] eqn:E.
  2: { split_and!; try done. split; [done|]. intros (_ & t & Ht & _). done. }
  destruct (Z.leb_spec (timestamp price - Trade.openTime t) cap) as [Hle|Hgt].
  { split_and!; try done. split; [done|]. intros (_ & t' & [= <-] & Ht). lia. }
  destruct (closeTrade_book m (symbol price) (exit_side (Trade.direction t) price) price false t E)
    as (H1 & closed & H2 & H3 & H4 & _ & H5 & _).
  split_and!; [|done|].
  - split; [|done]. intros _. split; [done|]. exists t. split; [done|lia].
  - intros _. exists t, closed. split_and!; auto. intros s. unfold findActiveTrade. rewrite H1.
    destruct (decide (s = symbol price)) as [->|Hne]; [apply lookup_delete_eq|].
    now apply lookup_delete_ne.
Qed.

Definition bracket_book : TradeManager :=
  (openTrade (newTradeManager 0) (book_tick "EURUSD" 0 110000) 2 LONG 10 20).2.

Lemma bracket_exit_witness :
  bracket_fires LONG 10 20 10 (book_tick "EURUSD" 0 110000) (book_tick "EURUSD" 1 109800) /\
  activeTrades (reviewStopAndLimit bracket_book (book_tick "EURUSD" 1 109800)) =
  delete "EURUSD"%string (activeTrades bracket_book).
Proof.
  assert (bracket_fires LONG 10 20 10 (book_tick "EURUSD" 0 110000) (book_tick "EURUSD" 1 109800))
    as Hf by (left; split; [lia|discriminate]).
  split; [exact Hf|].
  destruct (bracket_exit bracket_book (newTradeManager 0) (book_tick "EURUSD" 0 110000)
    (book_tick "EURUSD" 1 109800) 2 LONG 10 20
    (build_trade (newTradeManager 0) (book_tick "EURUSD" 0 110000) 2 LONG 10 20))
    as [H _]; [reflexivity| |discriminate|..|exact (proj1 (H Hf))].
  - exists 109998, (-4). reflexivity.
  - split; split; simpl; lia.
  - split; split; simpl; lia.
  - split; lia.
  - split; simpl; lia.
  - split; lia.
  - split; lia.
Defined.
