(* ===== verification/Double.v ===== *)
(** [double] arithmetic, modelled with the standard library's binary64 floats
    ([SpecFloat]: 53 bits of precision, exponent bound 1024, round to nearest
    even), and the rounding conversions the sources use. *)
From S2P Require Import Prelude.
From Stdlib Require Import SpecFloat.

Definition double : Type := spec_float.

Definition dbl_of_Z (z : Z) : double := binary_normalize 53 1024 z 0 false.
Definition dbl_add : double -> double -> double := SFadd 53 1024.
Definition dbl_sub : double -> double -> double := SFsub 53 1024.
Definition dbl_mul : double -> double -> double := SFmul 53 1024.
Definition dbl_div : double -> double -> double := SFdiv 53 1024.
Definition dbl_sqrt : double -> double := SFsqrt 53 1024.
Definition dbl_abs : double -> double := SFabs.
Definition dbl_eqb : double -> double -> bool := SFeqb.
Definition dbl_ltb : double -> double -> bool := SFltb.
Definition dbl_leb : double -> double -> bool := SFleb.

(** [std::max] on doubles. *)
Definition dbl_max (a b : double) : double := if dbl_ltb a b then b else a.

Definition dbl_isfinite (v : double) : bool :=
  match v with S754_zero _ | S754_finite _ _ _ => true | S754_infinity _ | S754_nan => false end.

Definition dbl_zero : double := dbl_of_Z 0.

(** [std::llround]: to nearest, halves away from zero; unspecified by the
    language on a NaN, an infinity or a result outside 64 bits. *)
Definition dbl_llround (v : double) : option Z :=
  match v with
  | S754_zero _ => Some 0
  | S754_finite s m e =>
      let magnitude :=
        if 0 <=? e then Zpos m * 2 ^ e else (Zpos m + 2 ^ (- e - 1)) / 2 ^ (- e) in
      let r := if s then - magnitude else magnitude in
      if (- 9223372036854775808 <=? r) && (r <=? INT64_MAX) then Some r else None
  | S754_infinity _ | S754_nan => None
  end.

(** A decimal literal with [d] fractional digits. *)
Definition dbl_decimal (n d : Z) : double := dbl_div (dbl_of_Z n) (dbl_of_Z (10 ^ d)).

(** * Lemmas: integers as doubles *)

Lemma digits2_pos_shift n p : digits2_pos (shift_pos n p) = (n + digits2_pos p)%positive.
Proof.
  unfold shift_pos. induction n as [|n IH] using Pos.peano_ind.
  - simpl. lia.
  - rewrite Pos.iter_succ. simpl. rewrite IH. lia.
Qed.

Lemma shift_pos_value n p : Zpos (shift_pos n p) = Zpos p * 2 ^ Zpos n.
Proof. rewrite shift_pos_correct, Z.pow_pos_fold. lia. Qed.

Lemma digits2_pos_bounds p : 2 ^ (Zpos (digits2_pos p) - 1) <= Zpos p < 2 ^ Zpos (digits2_pos p).
Proof.
  assert (forall q, 2 ^ (Zpos (Pos.succ (digits2_pos q)) - 1) = 2 * 2 ^ (Zpos (digits2_pos q) - 1) /\
    2 ^ Zpos (Pos.succ (digits2_pos q)) = 2 * 2 ^ Zpos (digits2_pos q)) as Hs.
  { intros q. rewrite Pos2Z.inj_succ, <- !Z.pow_succ_r by lia. split; f_equal; lia. }
  induction p as [p IH|p IH|]; cbn [digits2_pos]; [| |simpl; lia];
    destruct (Hs p) as [-> ->]; lia.
Qed.

(** The significand and exponent a positive integer below [2^53] has: 53
    significant bits. *)
Definition int_significand (p : positive) : positive :=
  match (53 - Zpos (digits2_pos p))%Z with Zpos n => shift_pos n p | _ => p end.

Lemma digits_of_int p : Zpos p < 2 ^ 53 -> Zpos (digits2_pos p) <= 53.
Proof.
  intros H. destruct (Z.leb_spec (Zpos (digits2_pos p)) 53) as [|Hd]; [done|].
  pose proof (digits2_pos_bounds p) as [Hb _].
  pose proof (Z.pow_le_mono_r 2 53 (Zpos (digits2_pos p) - 1)). lia.
Qed.

Lemma int_significand_digits p :
  Zpos p < 2 ^ 53 -> Zpos (digits2_pos (int_significand p)) = 53.
Proof.
  intros H%digits_of_int. unfold int_significand.
  destruct (53 - Zpos (digits2_pos p)) as [|n|n] eqn:E; [lia| |lia].
  rewrite digits2_pos_shift. lia.
Qed.

Lemma int_significand_value p :
  Zpos p < 2 ^ 53 -> Zpos (int_significand p) = Zpos p * 2 ^ (53 - Zpos (digits2_pos p)).
Proof.
  intros H%digits_of_int. unfold int_significand.
  destruct (53 - Zpos (digits2_pos p)) as [|n|n] eqn:E; [simpl; lia| |lia].
  apply shift_pos_value.
Qed.

Lemma binary_round_int s p :
  Zpos p < 2 ^ 53 ->
  binary_round 53 1024 s p 0 =
  S754_finite s (int_significand p) (Zpos (digits2_pos p) - 53).
Proof.
  intros H. pose proof (digits_of_int p H) as Hd. pose proof (int_significand_digits p H) as Hs.
  unfold binary_round, shl_align.
  assert (fexp 53 1024 (Zpos (digits2_pos p) + 0) - 0 = Zpos (digits2_pos p) - 53) as Hf
    by (unfold fexp, emin; lia).
  assert ((match fexp 53 1024 (Zpos (digits2_pos p) + 0) - 0 with
     | Z.neg d => (Pos.iter xO p d, fexp 53 1024 (Zpos (digits2_pos p) + 0))
     | _ => (p, 0)
     end) = (int_significand p, Zpos (digits2_pos p) - 53)) as ->.
  { rewrite Hf. unfold int_significand.
    destruct (Zpos (digits2_pos p) - 53) as [|n|n] eqn:E; [|lia|].
    - now replace (53 - Zpos (digits2_pos p)) with 0 by lia.
    - replace (53 - Zpos (digits2_pos p)) with (Zpos n) by lia. f_equal. lia. }
  assert (forall l, shr_fexp 53 1024 (Zpos (int_significand p)) (Zpos (digits2_pos p) - 53) l =
    (shr_record_of_loc (Zpos (int_significand p)) l, Zpos (digits2_pos p) - 53)) as Hshr.
  { intros l. unfold shr_fexp. cbn [Zdigits2]. rewrite Hs.
    replace (fexp 53 1024 (53 + (Zpos (digits2_pos p) - 53)) - (Zpos (digits2_pos p) - 53)) with 0
      by (unfold fexp, emin; lia).
    done. }
  unfold binary_round_aux. rewrite Hshr. cbn [shr_record_of_loc shr_m loc_of_shr_record round_nearest_even].
  rewrite Hshr. cbn [shr_record_of_loc shr_m].
  rewrite (proj2 (Z.leb_le _ _)) by lia. done.
Qed.

Lemma dbl_of_Z_pos p :
  Zpos p < 2 ^ 53 ->
  dbl_of_Z (Zpos p) = S754_finite false (int_significand p) (Zpos (digits2_pos p) - 53).
Proof. apply binary_round_int. Qed.

Lemma dbl_of_Z_neg p :
  Zpos p < 2 ^ 53 ->
  dbl_of_Z (Zneg p) = S754_finite true (int_significand p) (Zpos (digits2_pos p) - 53).
Proof. apply binary_round_int. Qed.

Lemma dbl_of_Z_finite z : Z.abs z < 2 ^ 53 -> dbl_isfinite (dbl_of_Z z) = true.
Proof.
  intros H. destruct z as [|p|p]; [done|rewrite dbl_of_Z_pos by lia; done|].
  rewrite dbl_of_Z_neg by lia. done.
Qed.

Lemma int_magnitude p :
  Zpos p < 2 ^ 53 ->
  let e := Zpos (digits2_pos p) - 53 in
  (if 0 <=? e then Zpos (int_significand p) * 2 ^ e
   else (Zpos (int_significand p) + 2 ^ (- e - 1)) / 2 ^ (- e)) = Zpos p.
Proof.
  intros H e. pose proof (digits_of_int p H) as Hd. rewrite int_significand_value by done.
  destruct (Z.leb_spec 0 e) as [He|He].
  - replace (53 - Zpos (digits2_pos p)) with 0 by lia. replace e with 0 by lia. lia.
  - replace (53 - Zpos (digits2_pos p)) with (- e) by lia.
    rewrite Z.div_add_l by (apply Z.pow_nonzero; lia).
    rewrite Z.div_small; [lia|]. split; [apply Z.pow_nonneg; lia|].
    apply Z.pow_lt_mono_r; lia.
Qed.

(** An integer below [2^53] in magnitude survives the conversion and rounds
    back to itself. *)
Lemma dbl_llround_of_Z z : Z.abs z < 2 ^ 53 -> dbl_llround (dbl_of_Z z) = Some z.
Proof.
  intros H. destruct z as [|p|p]; [done|rewrite dbl_of_Z_pos by lia|rewrite dbl_of_Z_neg by lia];
    unfold dbl_llround; rewrite int_magnitude by lia; unfold INT64_MAX;
    rewrite (proj2 (Z.leb_le _ _)), (proj2 (Z.leb_le _ _)) by lia; done.
Qed.

(** Comparing two such doubles is comparing the integers. *)
Lemma int_compare p q :
  Zpos p < 2 ^ 53 -> Zpos q < 2 ^ 53 ->
  match Z.compare (Zpos (digits2_pos p) - 53) (Zpos (digits2_pos q) - 53) with
  | Lt => Lt
  | Gt => Gt
  | Eq => Pos.compare (int_significand p) (int_significand q)
  end = Pos.compare p q.
Proof.
  intros Hp Hq. pose proof (digits2_pos_bounds p) as [Hp1 Hp2].
  pose proof (digits2_pos_bounds q) as [Hq1 Hq2].
  destruct (Z.compare_spec (Zpos (digits2_pos p) - 53) (Zpos (digits2_pos q) - 53)) as [E|E|E].
  - change (Z.compare (Zpos (int_significand p)) (Zpos (int_significand q)) = Z.compare (Zpos p) (Zpos q)).
    rewrite !int_significand_value by done.
    replace (Zpos (digits2_pos q)) with (Zpos (digits2_pos p)) by lia.
    pose proof (digits_of_int p Hp).
    symmetry. apply Zmult_compare_compat_r. apply Z.lt_gt, Z.pow_pos_nonneg; lia.
  - symmetry. change (Z.compare (Zpos p) (Zpos q) = Lt). apply Z.compare_lt_iff.
    pose proof (Z.pow_le_mono_r 2 (Zpos (digits2_pos p)) (Zpos (digits2_pos q) - 1)). lia.
  - symmetry. change (Z.compare (Zpos p) (Zpos q) = Gt). apply Z.compare_gt_iff.
    pose proof (Z.pow_le_mono_r 2 (Zpos (digits2_pos q)) (Zpos (digits2_pos p) - 1)). lia.
Qed.

Lemma dbl_compare_of_Z a b :
  Z.abs a < 2 ^ 53 -> Z.abs b < 2 ^ 53 ->
  SFcompare (dbl_of_Z a) (dbl_of_Z b) = Some (Z.compare a b).
Proof.
  intros Ha Hb. destruct a as [|p|p]; destruct b as [|q|q];
    rewrite ?dbl_of_Z_pos, ?dbl_of_Z_neg by lia; try done;
    cbn [SFcompare]; f_equal.
  - apply (int_compare p q); lia.
  - change (Z.compare (Zneg p) (Zneg q)) with (CompOpp (Pos.compare p q)).
    rewrite <- (int_compare p q) by lia.
    destruct (Z.compare _ _); try done.
Qed.

Lemma dbl_ltb_of_Z a b :
  Z.abs a < 2 ^ 53 -> Z.abs b < 2 ^ 53 -> dbl_ltb (dbl_of_Z a) (dbl_of_Z b) = (a <? b).
Proof.
  intros. unfold dbl_ltb, SFltb. rewrite dbl_compare_of_Z by done.
  unfold Z.ltb. now destruct (a ?= b).
Qed.
