(* ===== verification/Json.v ===== *)
(** The JSON value of the vendored [nlohmann/json] library, as the engine uses
    it: the tagged union, the sorted object map, element access with its type
    errors, and the typed getters with their conversions. Binary and discarded
    values, which the engine never builds, have no constructor. *)
From S2P Require Import Prelude Double.
From Stdlib Require Import SpecFloat.

(** * Bytes *)

Definition byte_of (c : Ascii.ascii) : Z := Z.of_N (Ascii.N_of_ascii c).

(** A narrowing cast to [char]. *)
Definition char_of (z : Z) : Ascii.ascii := Ascii.ascii_of_N (Z.to_N (z mod 256)).

Definition chars (s : string) : list Ascii.ascii := String.list_ascii_of_string s.
Definition text (l : list Ascii.ascii) : string := String.string_of_list_ascii l.

Definition quote_char : Ascii.ascii := Ascii.ascii_of_nat 34.
Definition backslash : Ascii.ascii := Ascii.ascii_of_nat 92.

(** * Values *)

(** An object is the contents of its [std::map], in key order. *)
Inductive json : Type :=
| JNull
| JBoolean (b : bool)
| JInteger (z : Z)
| JUnsigned (z : Z)
| JFloat (d : double)
| JString (s : string)
| JArray (elements : list json)
| JObject (members : list (string * json)).

(** [std::map::find]. *)
Fixpoint obj_find (key : string) (m : list (string * json)) : option json :=
  match m with
  | [] => None
  | (k, v) :: rest => if String.eqb k key then Some v else obj_find key rest
  end.

(** [m[key] = v]: the assignment through [operator[]]. *)
Fixpoint obj_set (key : string) (v : json) (m : list (string * json))
    : list (string * json) :=
  match m with
  | [] => [(key, v)]
  | (k, w) :: rest =>
      if String.eqb k key then (key, v) :: rest
      else if String.ltb key k then (key, v) :: (k, w) :: rest
      else (k, w) :: obj_set key v rest
  end.

(** [map::emplace]: an existing key keeps its value. *)
Definition obj_emplace (key : string) (v : json) (m : list (string * json))
    : list (string * json) :=
  match obj_find key m with Some _ => m | None => obj_set key v m end.

(** The members a braced list of key/value pairs builds. *)
Definition json_object (pairs : list (string * json)) : json :=
  JObject (foldl (fun m kv => obj_emplace kv.1 kv.2 m) [] pairs).

Definition is_object (j : json) : bool :=
  match j with JObject _ => true | _ => false end.
Definition is_array (j : json) : bool :=
  match j with JArray _ => true | _ => false end.
Definition is_string (j : json) : bool :=
  match j with JString _ => true | _ => false end.
Definition is_boolean (j : json) : bool :=
  match j with JBoolean _ => true | _ => false end.
Definition is_null (j : json) : bool :=
  match j with JNull => true | _ => false end.
Definition is_number_integer (j : json) : bool :=
  match j with JInteger _ | JUnsigned _ => true | _ => false end.
Definition is_number (j : json) : bool :=
  match j with JInteger _ | JUnsigned _ | JFloat _ => true | _ => false end.

(** [j[key] = v] on a mutable value: null becomes an object. *)
Definition json_set (key : string) (v : json) (j : json) : result json :=
  match j with
  | JNull => Ok (JObject (obj_set key v []))
  | JObject m => Ok (JObject (obj_set key v m))
  | _ => Throw (JsonError 305)
  end.

(** [j.push_back(v)]: null becomes an array. *)
Definition json_push_back (v : json) (j : json) : result json :=
  match j with
  | JNull => Ok (JArray [v])
  | JArray l => Ok (JArray (l ++ [v]))
  | _ => Throw (JsonError 308)
  end.

Definition contains (key : string) (j : json) : bool :=
  match j with
  | JObject m => match obj_find key m with Some _ => true | None => false end
  | _ => false
  end.

Definition json_find (key : string) (j : json) : option json :=
  match j with JObject m => obj_find key m | _ => None end.

Definition json_at (key : string) (j : json) : result json :=
  match j with
  | JObject m =>
      match obj_find key m with Some v => Ok v | None => Throw (JsonError 403) end
  | _ => Throw (JsonError 304)
  end.

(** * Typed getters *)

(** The truncation a conversion from floating point makes; [None] where the
    language leaves it undefined for the 64-bit result. *)
Definition dbl_trunc (d : double) : option Z :=
  match d with
  | S754_zero _ => Some 0
  | S754_finite s m e =>
      let magnitude := if 0 <=? e then Zpos m * 2 ^ e else Zpos m / 2 ^ (- e) in
      Some (if s then - magnitude else magnitude)
  | S754_infinity _ | S754_nan => None
  end.

(** A [static_cast] to a signed integer of [w] bits. *)
Definition cast_float (w : Z) (d : double) : result Z :=
  match dbl_trunc d with
  | Some z =>
      if (- 2 ^ (w - 1) <=? z) && (z <? 2 ^ (w - 1)) then Ok z else Throw UndefinedRead
  | None => Throw UndefinedRead
  end.

(** [get<std::int64_t>]: a number of any kind, converted. *)
Definition get_int64 (j : json) : result Z :=
  match j with
  | JUnsigned z | JInteger z => Ok (i64 z)
  | JFloat d => cast_float 64 d
  | _ => Throw (JsonError 302)
  end.

(** [get<int>]: the overload for the other arithmetic types, which takes a
    boolean too. *)
Definition get_int (j : json) : result Z :=
  match j with
  | JUnsigned z | JInteger z => Ok (i32 z)
  | JFloat d => cast_float 32 d
  | JBoolean b => Ok (if b then 1 else 0)
  | _ => Throw (JsonError 302)
  end.

(** [get<double>]. *)
Definition get_double (j : json) : result double :=
  match j with
  | JUnsigned z | JInteger z => Ok (dbl_of_Z z)
  | JFloat d => Ok d
  | _ => Throw (JsonError 302)
  end.

Definition get_bool (j : json) : result bool :=
  match j with JBoolean b => Ok b | _ => Throw (JsonError 302) end.

Definition get_string (j : json) : result string :=
  match j with JString s => Ok s | _ => Throw (JsonError 302) end.

(** [get<std::vector<T>>]: every element converted in order. *)
Fixpoint get_list {A} (get : json -> result A) (l : list json) : result (list A) :=
  match l with
  | [] => Ok []
  | j :: rest => x <~ get j ; xs <~ get_list get rest ; Ok (x :: xs)
  end.

Definition get_vector {A} (get : json -> result A) (j : json) : result (list A) :=
  match j with JArray l => get_list get l | _ => Throw (JsonError 302) end.

(** [j.value(key, default)]. *)
Definition json_value {A} (get : json -> result A) (key : string) (default : A) (j : json)
    : result A :=
  match j with
  | JObject m => match obj_find key m with Some v => get v | None => Ok default end
  | _ => Throw (JsonError 306)
  end.

(** The field reader of the with-default macros: the default object stands in
    for a null. *)
Definition from_with_default {A} (get : json -> result A) (key : string) (default : A)
    (j : json) : result A :=
  if negb (is_null j) then json_value get key default j else Ok default.

(** The field reader of the strict macros. *)
Definition from_strict {A} (get : json -> result A) (key : string) (j : json) : result A :=
  v <~ json_at key j ; get v.

(** * Induction and well-formedness *)

Section JsonInd.
Context (P : json -> Prop).
Hypothesis (Hnull : P JNull).
Hypothesis (Hbool : forall b, P (JBoolean b)).
Hypothesis (Hint : forall z, P (JInteger z)).
Hypothesis (Huns : forall z, P (JUnsigned z)).
Hypothesis (Hflt : forall d, P (JFloat d)).
Hypothesis (Hstr : forall s, P (JString s)).
Hypothesis (Harr : forall l, Forall P l -> P (JArray l)).
Hypothesis (Hobj : forall m, Forall (fun kv => P kv.2) m -> P (JObject m)).

Fixpoint json_ind' (j : json) : P j :=
  match j with
  | JNull => Hnull
  | JBoolean b => Hbool b
  | JInteger z => Hint z
  | JUnsigned z => Huns z
  | JFloat d => Hflt d
  | JString s => Hstr s
  | JArray l =>
      Harr l ((fix all (l : list json) : Forall P l :=
                 match l with
                 | [] => Forall_nil_2 P
                 | x :: rest => Forall_cons_2 P x rest (json_ind' x) (all rest)
                 end) l)
  | JObject m =>
      Hobj m ((fix all (m : list (string * json)) : Forall (fun kv => P kv.2) m :=
                 match m with
                 | [] => Forall_nil_2 _
                 | x :: rest => Forall_cons_2 _ x rest (json_ind' x.2) (all rest)
                 end) m)
  end.
End JsonInd.

(** Keys strictly increasing in byte order: the invariant of the object map. *)
Fixpoint keys_above (k : string) (m : list (string * json)) : bool :=
  match m with
  | [] => true
  | (k', _) :: rest => String.ltb k k' && keys_above k' rest
  end.

Definition sorted_members (m : list (string * json)) : bool :=
  match m with [] => true | (k, _) :: rest => keys_above k rest end.

(** * Lemmas: the object map *)

Lemma obj_find_set key key' v m :
  obj_find key (obj_set key' v m) =
  if String.eqb key' key then Some v else obj_find key m.
Proof.
  induction m as [|[k w] m IH]; simpl; [done|].
  destruct (String.eqb_spec k key') as [->|Hne]; simpl.
  - destruct (String.eqb key' key); reflexivity.
  - destruct (String.ltb key' k); simpl; [done|].
    rewrite IH. destruct (String.eqb_spec k key) as [->|]; [|done].
    destruct (String.eqb_spec key' key) as [->|]; [congruence|done].
Qed.

Lemma obj_find_set_eq key v m : obj_find key (obj_set key v m) = Some v.
Proof. now rewrite obj_find_set, String.eqb_refl. Qed.

Lemma keys_above_lt k k' m : keys_above k m = true -> k' = k \/ String.ltb k' k = true ->
  keys_above k' m = true.
Proof.
  intros H [->|Hlt]; [done|]. destruct m as [|[k0 v0] m]; [done|]. simpl in *.
  apply andb_true_iff in H as [H1 H2]. apply andb_true_iff; split; [|done].
  eapply string_ltb_trans; eauto.
Qed.

Lemma obj_set_keys_above k key v m :
  keys_above k m = true -> String.ltb k key = true -> keys_above k (obj_set key v m) = true.
Proof.
  revert k. induction m as [|[k0 w] m IH]; intros k; simpl; [now intros _ ->|].
  intros [H1 H2]%andb_true_iff Hk.
  destruct (String.eqb_spec k0 key) as [->|Hne]; simpl; [now rewrite H1, H2|].
  destruct (String.ltb key k0) eqn:E; simpl; [now rewrite Hk, E, H2|].
  rewrite H1. simpl. apply IH; [done|].
  destruct (String.ltb k0 key) eqn:E'; [done|]. destruct Hne. now apply string_ltb_total.
Qed.

(** The insertion keeps the key order of the map. *)
Lemma obj_set_sorted key v m :
  sorted_members m = true -> sorted_members (obj_set key v m) = true.
Proof.
  destruct m as [|[k w] m]; simpl; [done|]. intros H.
  destruct (String.eqb_spec k key) as [->|Hne]; simpl; [done|].
  destruct (String.ltb key k) eqn:E; simpl; [now rewrite E|].
  apply obj_set_keys_above; [done|].
  destruct (String.ltb k key) eqn:E'; [done|]. destruct Hne. now apply string_ltb_total.
Qed.

Lemma obj_set_snoc key v m :
  sorted_members (m ++ [(key, v)]) = true -> obj_set key v m = m ++ [(key, v)].
Proof.
  destruct m as [|[k0 w0] m]; [done|]. simpl.
  assert (forall k0 m, keys_above k0 (m ++ [(key, v)]) = true ->
    String.ltb k0 key = true /\ obj_set key v m = m ++ [(key, v)]) as Haux.
  { clear. intros k0 m. revert k0. induction m as [|[k w] m IH]; intros k0; simpl.
    - intros [H _]%andb_true_iff. done.
    - intros [H1 H2]%andb_true_iff. destruct (IH _ H2) as [H3 H4]. split.
      + eapply string_ltb_trans; eauto.
      + destruct (String.eqb_spec k key) as [->|_]; [now rewrite string_ltb_irrefl in H3|].
        destruct (String.ltb key k) eqn:E; [|now rewrite H4].
        pose proof (string_ltb_trans _ _ _ H3 E) as Hc. now rewrite string_ltb_irrefl in Hc. }
  intros H. destruct (Haux _ _ H) as [H1 H2].
  destruct (String.eqb_spec k0 key) as [->|_]; [now rewrite string_ltb_irrefl in H1|].
  destruct (String.ltb key k0) eqn:E; [|now rewrite H2].
  pose proof (string_ltb_trans _ _ _ H1 E) as Hc. now rewrite string_ltb_irrefl in Hc.
Qed.

Lemma keys_above_prefix k m m' : keys_above k (m ++ m') = true -> keys_above k m = true.
Proof.
  revert k. induction m as [|[k' w] m IH]; intros k; [done|]. simpl.
  intros [-> H]%andb_true_iff. now apply IH.
Qed.

Lemma sorted_members_prefix m m' :
  sorted_members (m ++ m') = true -> sorted_members m = true.
Proof. destruct m as [|[k v] m]; [done|]. apply keys_above_prefix. Qed.

(** Every sequence of assignments builds a sorted map. *)
Lemma obj_emplace_sorted key v m :
  sorted_members m = true -> sorted_members (obj_emplace key v m) = true.
Proof.
  unfold obj_emplace. destruct (obj_find key m); [done|]. apply obj_set_sorted.
Qed.

Lemma text_chars s : text (chars s) = s.
Proof. apply String.string_of_list_ascii_of_string. Qed.

Lemma chars_text l : chars (text l) = l.
Proof. apply String.list_ascii_of_string_of_list_ascii. Qed.

Lemma byte_of_range c : 0 <= byte_of c < 256.
Proof.
  unfold byte_of. pose proof (Ascii.N_ascii_bounded c). lia.
Qed.

Lemma char_of_byte_of c : char_of (byte_of c) = c.
Proof.
  unfold char_of. rewrite Z.mod_small by apply byte_of_range. unfold byte_of.
  now rewrite N2Z.id, Ascii.ascii_N_embedding.
Qed.

Lemma byte_of_char_of z : 0 <= z < 256 -> byte_of (char_of z) = z.
Proof.
  intros Hz. unfold char_of, byte_of. rewrite Z.mod_small by lia.
  rewrite Ascii.N_ascii_embedding by lia. lia.
Qed.

#[export] Hint Rewrite text_chars chars_text char_of_byte_of : engine.
