(* ===== verification/JsonFloat.v ===== *)
(** Floating-point text: the Grisu2 printer of the vendored [nlohmann/json]
    (short digits in a safe interval, then fixed or exponential formatting) and
    the correctly rounded decimal reader the C library's [strtod] is. *)
From S2P Require Import Prelude Double Json.
From Stdlib Require Import SpecFloat.

Definition u64 (z : Z) : Z := z mod 2 ^ 64.

(** * Extended floats *)

Record diyfp : Type := mkDiyfp { fp_f : Z; fp_e : Z }.

Definition diyfp_sub (x y : diyfp) : diyfp := mkDiyfp (u64 (fp_f x - fp_f y)) (fp_e x).

(** The upper 64 bits of the product, rounded, from 32-bit halves. *)
Definition diyfp_mul (x y : diyfp) : diyfp :=
  let u_lo := Z.land (fp_f x) 0xFFFFFFFF in
  let u_hi := Z.shiftr (fp_f x) 32 in
  let v_lo := Z.land (fp_f y) 0xFFFFFFFF in
  let v_hi := Z.shiftr (fp_f y) 32 in
  let p0 := u64 (u_lo * v_lo) in
  let p1 := u64 (u_lo * v_hi) in
  let p2 := u64 (u_hi * v_lo) in
  let p3 := u64 (u_hi * v_hi) in
  let p0_hi := Z.shiftr p0 32 in
  let p1_lo := Z.land p1 0xFFFFFFFF in
  let p1_hi := Z.shiftr p1 32 in
  let p2_lo := Z.land p2 0xFFFFFFFF in
  let p2_hi := Z.shiftr p2 32 in
  let Q := u64 (p0_hi + p1_lo + p2_lo) in
  let Q := u64 (Q + Z.shiftl 1 31) in
  let h := u64 (p3 + p2_hi + p1_hi + Z.shiftr Q 32) in
  mkDiyfp h (fp_e x + fp_e y + 64).

(** Shifts left until the top bit is set: at most 63 times for a nonzero
    significand. *)
Fixpoint normalize_from (fuel : nat) (x : diyfp) : diyfp :=
  match fuel with
  | O => x
  | S fuel' =>
      if Z.shiftr (fp_f x) 63 =? 0
      then normalize_from fuel' (mkDiyfp (u64 (Z.shiftl (fp_f x) 1)) (fp_e x - 1))
      else x
  end.

Definition normalize (x : diyfp) : diyfp := normalize_from 64 x.

Definition normalize_to (x : diyfp) (target_exponent : Z) : diyfp :=
  mkDiyfp (u64 (Z.shiftl (fp_f x) (fp_e x - target_exponent))) target_exponent.

Record boundaries : Type := mkBoundaries {
  b_w : diyfp;
  b_minus : diyfp;
  b_plus : diyfp;
}.

(** The IEEE fields of a positive finite double: biased exponent and fraction. *)
Definition ieee_fields (m : positive) (ex : Z) : Z * Z :=
  if Zpos m <? 2 ^ 52 then (0, Zpos m) else (ex + 1075, Zpos m - 2 ^ 52).

Definition compute_boundaries (m : positive) (ex : Z) : boundaries :=
  let kBias := 1075 in
  let kMinExp := 1 - kBias in
  let kHiddenBit := 2 ^ 52 in
  let '(E, F) := ieee_fields m ex in
  let v := if E =? 0 then mkDiyfp F kMinExp else mkDiyfp (F + kHiddenBit) (E - kBias) in
  let lower_boundary_is_closer := (F =? 0) && (1 <? E) in
  let m_plus := mkDiyfp (2 * fp_f v + 1) (fp_e v - 1) in
  let m_minus :=
    if lower_boundary_is_closer
    then mkDiyfp (4 * fp_f v - 1) (fp_e v - 2)
    else mkDiyfp (2 * fp_f v - 1) (fp_e v - 1) in
  let w_plus := normalize m_plus in
  let w_minus := normalize_to m_minus (fp_e w_plus) in
  mkBoundaries (normalize v) w_minus w_plus.

(** * Cached powers of ten *)

Record cached_power : Type := mkCached { cp_f : Z; cp_e : Z; cp_k : Z }.

Definition kCachedPowers : list cached_power :=
  [mkCached 0xAB70FE17C79AC6CA (-1060) (-300);
   mkCached 0xFF77B1FCBEBCDC4F (-1034) (-292);
   mkCached 0xBE5691EF416BD60C (-1007) (-284);
   mkCached 0x8DD01FAD907FFC3C (-980) (-276);
   mkCached 0xD3515C2831559A83 (-954) (-268);
   mkCached 0x9D71AC8FADA6C9B5 (-927) (-260);
   mkCached 0xEA9C227723EE8BCB (-901) (-252);
   mkCached 0xAECC49914078536D (-874) (-244);
   mkCached 0x823C12795DB6CE57 (-847) (-236);
   mkCached 0xC21094364DFB5637 (-821) (-228);
   mkCached 0x9096EA6F3848984F (-794) (-220);
   mkCached 0xD77485CB25823AC7 (-768) (-212);
   mkCached 0xA086CFCD97BF97F4 (-741) (-204);
   mkCached 0xEF340A98172AACE5 (-715) (-196);
   mkCached 0xB23867FB2A35B28E (-688) (-188);
   mkCached 0x84C8D4DFD2C63F3B (-661) (-180);
   mkCached 0xC5DD44271AD3CDBA (-635) (-172);
   mkCached 0x936B9FCEBB25C996 (-608) (-164);
   mkCached 0xDBAC6C247D62A584 (-582) (-156);
   mkCached 0xA3AB66580D5FDAF6 (-555) (-148);
   mkCached 0xF3E2F893DEC3F126 (-529) (-140);
   mkCached 0xB5B5ADA8AAFF80B8 (-502) (-132);
   mkCached 0x87625F056C7C4A8B (-475) (-124);
   mkCached 0xC9BCFF6034C13053 (-449) (-116);
   mkCached 0x964E858C91BA2655 (-422) (-108);
   mkCached 0xDFF9772470297EBD (-396) (-100);
   mkCached 0xA6DFBD9FB8E5B88F (-369) (-92);
   mkCached 0xF8A95FCF88747D94 (-343) (-84);
   mkCached 0xB94470938FA89BCF (-316) (-76);
   mkCached 0x8A08F0F8BF0F156B (-289) (-68);
   mkCached 0xCDB02555653131B6 (-263) (-60);
   mkCached 0x993FE2C6D07B7FAC (-236) (-52);
   mkCached 0xE45C10C42A2B3B06 (-210) (-44);
   mkCached 0xAA242499697392D3 (-183) (-36);
   mkCached 0xFD87B5F28300CA0E (-157) (-28);
   mkCached 0xBCE5086492111AEB (-130) (-20);
   mkCached 0x8CBCCC096F5088CC (-103) (-12);
   mkCached 0xD1B71758E219652C (-77) (-4);
   mkCached 0x9C40000000000000 (-50) (4);
   mkCached 0xE8D4A51000000000 (-24) (12);
   mkCached 0xAD78EBC5AC620000 (3) (20);
   mkCached 0x813F3978F8940984 (30) (28);
   mkCached 0xC097CE7BC90715B3 (56) (36);
   mkCached 0x8F7E32CE7BEA5C70 (83) (44);
   mkCached 0xD5D238A4ABE98068 (109) (52);
   mkCached 0x9F4F2726179A2245 (136) (60);
   mkCached 0xED63A231D4C4FB27 (162) (68);
   mkCached 0xB0DE65388CC8ADA8 (189) (76);
   mkCached 0x83C7088E1AAB65DB (216) (84);
   mkCached 0xC45D1DF942711D9A (242) (92);
   mkCached 0x924D692CA61BE758 (269) (100);
   mkCached 0xDA01EE641A708DEA (295) (108);
   mkCached 0xA26DA3999AEF774A (322) (116);
   mkCached 0xF209787BB47D6B85 (348) (124);
   mkCached 0xB454E4A179DD1877 (375) (132);
   mkCached 0x865B86925B9BC5C2 (402) (140);
   mkCached 0xC83553C5C8965D3D (428) (148);
   mkCached 0x952AB45CFA97A0B3 (455) (156);
   mkCached 0xDE469FBD99A05FE3 (481) (164);
   mkCached 0xA59BC234DB398C25 (508) (172);
   mkCached 0xF6C69A72A3989F5C (534) (180);
   mkCached 0xB7DCBF5354E9BECE (561) (188);
   mkCached 0x88FCF317F22241E2 (588) (196);
   mkCached 0xCC20CE9BD35C78A5 (614) (204);
   mkCached 0x98165AF37B2153DF (641) (212);
   mkCached 0xE2A0B5DC971F303A (667) (220);
   mkCached 0xA8D9D1535CE3B396 (694) (228);
   mkCached 0xFB9B7CD9A4A7443C (720) (236);
   mkCached 0xBB764C4CA7A44410 (747) (244);
   mkCached 0x8BAB8EEFB6409C1A (774) (252);
   mkCached 0xD01FEF10A657842C (800) (260);
   mkCached 0x9B10A4E5E9913129 (827) (268);
   mkCached 0xE7109BFBA19C0C9D (853) (276);
   mkCached 0xAC2820D9623BF429 (880) (284);
   mkCached 0x80444B5E7AA7CF85 (907) (292);
   mkCached 0xBF21E44003ACDD2D (933) (300);
   mkCached 0x8E679C2F5E44FF8F (960) (308);
   mkCached 0xD433179D9C8CB841 (986) (316);
   mkCached 0x9E19DB92B4E31BA9 (1013) (324)].

Definition kAlpha : Z := -60.

(** [None] when the index leaves the table, which the asserted range of the
    exponent excludes. *)
Definition get_cached_power_for_binary_exponent (ex : Z) : option cached_power :=
  let fe := kAlpha - ex - 1 in
  let k := (fe * 78913) ÷ 2 ^ 18 + (if 0 <? fe then 1 else 0) in
  let index := (300 + k + 7) ÷ 8 in
  if index <? 0 then None else kCachedPowers !! Z.to_nat index.

(** * Digit generation *)

(** The number of decimal digits and the power of ten below [n]. *)
Definition find_largest_pow10 (n : Z) : Z * Z :=
  if 1000000000 <=? n then (10, 1000000000)
  else if 100000000 <=? n then (9, 100000000)
  else if 10000000 <=? n then (8, 10000000)
  else if 1000000 <=? n then (7, 1000000)
  else if 100000 <=? n then (6, 100000)
  else if 10000 <=? n then (5, 10000)
  else if 1000 <=? n then (4, 1000)
  else if 100 <=? n then (3, 100)
  else if 10 <=? n then (2, 10)
  else (1, 1).

(** The decrements of the last digit; a digit allows at most nine. *)
Fixpoint grisu2_round (fuel : nat) (buf : list Z) (dist delta rest ten_k : Z) : list Z :=
  match fuel with
  | O => buf
  | S fuel' =>
      if (rest <? dist) && (ten_k <=? u64 (delta - rest)) &&
         ((u64 (rest + ten_k) <? dist) ||
          (u64 (u64 (rest + ten_k) - dist) <? u64 (dist - rest)))
      then grisu2_round fuel' (update_last (fun d => d - 1) buf) dist delta
             (u64 (rest + ten_k)) ten_k
      else buf
  end.

(** Digits of the integral part: [inl] when enough digits are out. *)
Fixpoint digit_gen_integral (n : nat) (buf : list Z) (p1 p2 pow10 one_e delta dist : Z)
    : (list Z * Z) + list Z :=
  match n with
  | O => inr buf
  | S n' =>
      let d := p1 / pow10 in
      let r := p1 mod pow10 in
      let buf := buf ++ [d] in
      let rest := u64 (u64 (Z.shiftl r (- one_e)) + p2) in
      if rest <=? delta then
        let ten_n := u64 (Z.shiftl pow10 (- one_e)) in
        inl (grisu2_round 10 buf dist delta rest ten_n, Z.of_nat n')
      else digit_gen_integral n' buf r p2 (pow10 / 10) one_e delta dist
  end.

(** Digits of the fractional part. Every turn multiplies [delta] by ten while
    the remainder stays below [2^60], so that twenty turns are enough. *)
Fixpoint digit_gen_fraction (fuel : nat) (buf : list Z) (m p2 one_f one_e delta dist : Z)
    : option (list Z * Z) :=
  match fuel with
  | O => None
  | S fuel' =>
      let p2 := u64 (p2 * 10) in
      let d := Z.shiftr p2 (- one_e) in
      let r := Z.land p2 (one_f - 1) in
      let buf := buf ++ [d] in
      let m := m + 1 in
      let delta := u64 (delta * 10) in
      let dist := u64 (dist * 10) in
      if r <=? delta then Some (grisu2_round 10 buf dist delta r one_f, m)
      else digit_gen_fraction fuel' buf m r one_f one_e delta dist
  end.

Definition grisu2_digit_gen (decimal_exponent : Z) (M_minus wv M_plus : diyfp)
    : option (list Z * Z) :=
  let delta := fp_f (diyfp_sub M_plus M_minus) in
  let dist := fp_f (diyfp_sub M_plus wv) in
  let one_e := fp_e M_plus in
  let one_f := Z.shiftl 1 (- one_e) in
  let p1 := Z.shiftr (fp_f M_plus) (- one_e) mod 2 ^ 32 in
  let p2 := Z.land (fp_f M_plus) (one_f - 1) in
  let '(k, pow10) := find_largest_pow10 p1 in
  match digit_gen_integral (Z.to_nat k) [] p1 p2 pow10 one_e delta dist with
  | inl (buf, n) => Some (buf, decimal_exponent + n)
  | inr buf =>
      match digit_gen_fraction 20 buf 0 p2 one_f one_e delta dist with
      | Some (buf, m) => Some (buf, decimal_exponent - m)
      | None => None
      end
  end.

(** The digits and the decimal exponent of a positive finite double. *)
Definition grisu2 (m : positive) (ex : Z) : option (list Z * Z) :=
  let b := compute_boundaries m ex in
  match get_cached_power_for_binary_exponent (fp_e (b_plus b)) with
  | None => None
  | Some cached =>
      let c_minus_k := mkDiyfp (cp_f cached) (cp_e cached) in
      let wv := diyfp_mul (b_w b) c_minus_k in
      let w_minus := diyfp_mul (b_minus b) c_minus_k in
      let w_plus := diyfp_mul (b_plus b) c_minus_k in
      let M_minus := mkDiyfp (u64 (fp_f w_minus + 1)) (fp_e w_minus) in
      let M_plus := mkDiyfp (u64 (fp_f w_plus - 1)) (fp_e w_plus) in
      grisu2_digit_gen (- cp_k cached) M_minus wv M_plus
  end.

(** * Formatting *)

Definition dec_digit (d : Z) : Ascii.ascii := char_of (48 + d).

Definition append_exponent (ex : Z) : list Ascii.ascii :=
  let '(sign, k) := if ex <? 0 then (char_of 45, - ex) else (char_of 43, ex) in
  sign ::
  (if k <? 10 then [dec_digit 0; dec_digit k]
   else if k <? 100 then [dec_digit (k / 10); dec_digit (k mod 10)]
   else [dec_digit (k / 100); dec_digit (k mod 100 / 10); dec_digit (k mod 100 mod 10)]).

Definition zeros (n : Z) : list Ascii.ascii := repeat (dec_digit 0) (Z.to_nat n).

Definition format_buffer (buf : list Ascii.ascii) (decimal_exponent min_exp max_exp : Z)
    : list Ascii.ascii :=
  let k := Z.of_nat (length buf) in
  let n := k + decimal_exponent in
  if (k <=? n) && (n <=? max_exp) then
    buf ++ zeros (n - k) ++ [char_of 46; dec_digit 0]
  else if (0 <? n) && (n <=? max_exp) then
    take (Z.to_nat n) buf ++ [char_of 46] ++ drop (Z.to_nat n) buf
  else if (min_exp <? n) && (n <=? 0) then
    [dec_digit 0; char_of 46] ++ zeros (- n) ++ buf
  else
    (if k =? 1 then buf else take 1 buf ++ [char_of 46] ++ drop 1 buf)
    ++ [char_of 101] ++ append_exponent (n - 1).

(** [to_chars]: a finite value. *)
Definition float_to_chars (d : double) : list Ascii.ascii :=
  match d with
  | S754_zero s =>
      (if s then [char_of 45] else []) ++ [dec_digit 0; char_of 46; dec_digit 0]
  | S754_finite s m ex =>
      (if s then [char_of 45] else []) ++
      match grisu2 m ex with
      | Some (digits, decimal_exponent) =>
          format_buffer (map dec_digit digits) decimal_exponent (-4) 15
      | None => []
      end
  | S754_infinity _ | S754_nan => []
  end.

Definition dump_float (d : double) : list Ascii.ascii :=
  if negb (dbl_isfinite d) then chars "null" else float_to_chars d.

(** * Reading decimals *)

(** The double nearest to [m * 10^ex], ties to even. *)
Definition dbl_of_decimal (s : bool) (m ex : Z) : double :=
  if m =? 0 then S754_zero s
  else if 0 <=? ex then
    let v := binary_normalize 53 1024 (m * 10 ^ ex) 0 false in
    if s then SFopp v else v
  else
    match m, 10 ^ (- ex) with
    | Zpos pm, Zpos pd =>
        let '(mz, ez, lz) := SFdiv_core_binary 53 1024 (Zpos pm) 0 (Zpos pd) 0 in
        binary_round_aux 53 1024 s mz ez lz
    | _, _ => S754_zero s
    end.

Definition is_digit (c : Ascii.ascii) : bool :=
  let b := byte_of c in (48 <=? b) && (b <=? 57).

Definition digit_value (c : Ascii.ascii) : Z := byte_of c - 48.

Definition digits_value (l : list Ascii.ascii) : Z :=
  fold_left (fun acc c => acc * 10 + digit_value c) l 0.

(** The leading digits of a text and what follows. *)
Fixpoint span_digits (l : list Ascii.ascii) : list Ascii.ascii * list Ascii.ascii :=
  match l with
  | c :: rest =>
      if is_digit c
      then let '(ds, tail) := span_digits rest in (c :: ds, tail)
      else ([], l)
  | [] => ([], [])
  end.

(** [strtod] on the texts of the JSON number grammar: sign, digits, optional
    fraction, optional exponent, in the C locale. *)
Definition strtod (l : list Ascii.ascii) : double :=
  let '(s, l) :=
    match l with
    | c :: rest => if byte_of c =? 45 then (true, rest) else (false, l)
    | [] => (false, l)
    end in
  let '(int, l) := span_digits l in
  let '(frac, l) :=
    match l with
    | c :: rest => if byte_of c =? 46 then span_digits rest else ([], l)
    | [] => ([], l)
    end in
  let ex :=
    match l with
    | c :: rest =>
        if (byte_of c =? 101) || (byte_of c =? 69) then
          match rest with
          | c' :: rest' =>
              if byte_of c' =? 45 then - digits_value (span_digits rest').1
              else if byte_of c' =? 43 then digits_value (span_digits rest').1
              else digits_value (span_digits rest).1
          | [] => 0
          end
        else 0
    | [] => 0
    end in
  dbl_of_decimal s (digits_value (int ++ frac)) (ex - Z.of_nat (length frac)).
