(* ===== verification/JsonDump.v ===== *)
(** The serialiser of the vendored [nlohmann/json]: escaping with its UTF-8
    automaton and its 512-byte buffer, integers, and the traversal. Floating
    point is in [JsonFloat]; binary values do not occur. *)
From S2P Require Import Prelude Double Json JsonFloat.

(** * UTF-8 *)

Definition UTF8_ACCEPT : Z := 0.
Definition UTF8_REJECT : Z := 1.

(** The character classes of the 256 bytes, then the transition rows. *)
Definition utf8d : list Z :=
  [0; 0; 0; 0; 0; 0; 0; 0; 0; 0; 0; 0; 0; 0; 0; 0; 0; 0; 0; 0; 0; 0; 0; 0; 0; 0; 0; 0; 0; 0; 0; 0;
   0; 0; 0; 0; 0; 0; 0; 0; 0; 0; 0; 0; 0; 0; 0; 0; 0; 0; 0; 0; 0; 0; 0; 0; 0; 0; 0; 0; 0; 0; 0; 0;
   0; 0; 0; 0; 0; 0; 0; 0; 0; 0; 0; 0; 0; 0; 0; 0; 0; 0; 0; 0; 0; 0; 0; 0; 0; 0; 0; 0; 0; 0; 0; 0;
   0; 0; 0; 0; 0; 0; 0; 0; 0; 0; 0; 0; 0; 0; 0; 0; 0; 0; 0; 0; 0; 0; 0; 0; 0; 0; 0; 0; 0; 0; 0; 0;
   1; 1; 1; 1; 1; 1; 1; 1; 1; 1; 1; 1; 1; 1; 1; 1; 9; 9; 9; 9; 9; 9; 9; 9; 9; 9; 9; 9; 9; 9; 9; 9;
   7; 7; 7; 7; 7; 7; 7; 7; 7; 7; 7; 7; 7; 7; 7; 7; 7; 7; 7; 7; 7; 7; 7; 7; 7; 7; 7; 7; 7; 7; 7; 7;
   8; 8; 2; 2; 2; 2; 2; 2; 2; 2; 2; 2; 2; 2; 2; 2; 2; 2; 2; 2; 2; 2; 2; 2; 2; 2; 2; 2; 2; 2; 2; 2;
   10; 3; 3; 3; 3; 3; 3; 3; 3; 3; 3; 3; 3; 4; 3; 3; 11; 6; 6; 6; 5; 8; 8; 8; 8; 8; 8; 8; 8; 8; 8; 8;
   0; 1; 2; 3; 5; 8; 7; 1; 1; 1; 4; 6; 1; 1; 1; 1; 1; 1; 1; 1; 1; 1; 1; 1; 1; 1; 1; 1; 1; 1; 1; 1;
   1; 0; 1; 1; 1; 1; 1; 0; 1; 0; 1; 1; 1; 1; 1; 1; 1; 2; 1; 1; 1; 1; 1; 2; 1; 2; 1; 1; 1; 1; 1; 1;
   1; 1; 1; 1; 1; 1; 1; 2; 1; 1; 1; 1; 1; 1; 1; 1; 1; 2; 1; 1; 1; 1; 1; 1; 1; 2; 1; 1; 1; 1; 1; 1;
   1; 1; 1; 1; 1; 1; 1; 3; 1; 3; 1; 1; 1; 1; 1; 1; 1; 3; 1; 1; 1; 1; 1; 3; 1; 3; 1; 1; 1; 1; 1; 1;
   1; 3; 1; 1; 1; 1; 1; 1; 1; 1; 1; 1; 1; 1; 1; 1].

Definition u32 (z : Z) : Z := z mod 2 ^ 32.

(** The next state and the code point so far. *)
Definition decode (state codep byte : Z) : Z * Z :=
  let type := nth (Z.to_nat byte) utf8d 0 in
  let codep' :=
    if negb (state =? UTF8_ACCEPT)
    then Z.lor (Z.land byte 63) (u32 (Z.shiftl codep 6))
    else Z.land (Z.shiftr 255 type) byte in
  (nth (Z.to_nat (256 + state * 16 + type)) utf8d 0, codep').

(** * Escaping *)

Inductive error_handler : Type := strict | replace | ignore.

(** The locals of [dump_escaped] and the output so far. *)
Record escape_state : Type := mkEscape {
  es_state : Z;
  es_codepoint : Z;
  string_buffer : list Ascii.ascii;
  bytes_after_last_accept : nat;
  undumped_chars : nat;
  es_out : list Ascii.ascii;
}.

Definition string_buffer_size : nat := 512.

Definition set_buffer (buf : list Ascii.ascii) (st : escape_state) : escape_state :=
  mkEscape (es_state st) (es_codepoint st) buf (bytes_after_last_accept st)
    (undumped_chars st) (es_out st).

(** [string_buffer[bytes++] = c], for each character of [cs]. *)
Definition put (cs : list Ascii.ascii) (st : escape_state) : result escape_state :=
  if (length (string_buffer st) + length cs <=? string_buffer_size)%nat
  then Ok (set_buffer (string_buffer st ++ cs) st)
  else Throw UndefinedRead.

(** [snprintf] into the buffer: the terminating zero needs room too. *)
Definition put_printf (cs : list Ascii.ascii) (st : escape_state) : result escape_state :=
  if (length (string_buffer st) + length cs + 1 <=? string_buffer_size)%nat
  then Ok (set_buffer (string_buffer st ++ cs) st)
  else Throw UndefinedRead.

Definition hex_digit (n : Z) : Ascii.ascii :=
  if n <? 10 then char_of (48 + n) else char_of (87 + n).

(** The format [\\u%04x] of a 16-bit value. *)
Definition unicode_escape (cp : Z) : list Ascii.ascii :=
  let n := cp mod 65536 in
  [backslash; char_of 117; hex_digit (n / 4096); hex_digit (n / 256 mod 16);
   hex_digit (n / 16 mod 16); hex_digit (n mod 16)].

(** The write-out when fewer than 13 bytes are left. *)
Definition flush_if_full (st : escape_state) : escape_state :=
  if (string_buffer_size - length (string_buffer st) <? 13)%nat
  then mkEscape (es_state st) (es_codepoint st) [] (bytes_after_last_accept st)
         (undumped_chars st) (es_out st ++ string_buffer st)
  else st.

(** The body of the accepting case: [c] is the byte just read. *)
Definition accept_codepoint (ensure_ascii : bool) (c : Ascii.ascii) (st : escape_state)
    : result escape_state :=
  let cp := es_codepoint st in
  let escape ch := put [backslash; ch] st in
  if cp =? 8 then escape (char_of 98)
  else if cp =? 9 then escape (char_of 116)
  else if cp =? 10 then escape (char_of 110)
  else if cp =? 12 then escape (char_of 102)
  else if cp =? 13 then escape (char_of 114)
  else if cp =? 34 then escape quote_char
  else if cp =? 92 then escape backslash
  else if (cp <=? 31) || (ensure_ascii && (127 <=? cp)) then
    if cp <=? 65535 then put_printf (unicode_escape cp) st
    else put_printf (unicode_escape (55232 + Z.shiftr cp 10)
                     ++ unicode_escape (56320 + Z.land cp 1023)) st
  else put [c] st.

(** The replacement character, as the [replace] handler writes it. *)
Definition replacement (ensure_ascii : bool) : list Ascii.ascii :=
  if ensure_ascii
  then [backslash; char_of 117; char_of 102; char_of 102; char_of 102; char_of 100]
  else [char_of 239; char_of 191; char_of 189].

(** One turn of the loop; the flag asks to read the same byte again. *)
Definition escape_step (handler : error_handler) (ensure_ascii : bool) (c : Ascii.ascii)
    (st : escape_state) : result (escape_state * bool) :=
  let '(s, cp) := decode (es_state st) (es_codepoint st) (byte_of c) in
  let st := mkEscape s cp (string_buffer st) (bytes_after_last_accept st)
              (undumped_chars st) (es_out st) in
  if s =? UTF8_ACCEPT then
    st <~ accept_codepoint ensure_ascii c st ;
    let st := flush_if_full st in
    Ok (mkEscape s cp (string_buffer st) (length (string_buffer st)) 0 (es_out st), false)
  else if s =? UTF8_REJECT then
    match handler with
    | strict => Throw (JsonError 316)
    | _ =>
        let again := (0 <? undumped_chars st)%nat in
        let st := set_buffer (take (bytes_after_last_accept st) (string_buffer st)) st in
        st <~ match handler with
              | replace =>
                  st <~ put (replacement ensure_ascii) st ;
                  let st := flush_if_full st in
                  Ok (mkEscape s cp (string_buffer st) (length (string_buffer st))
                        (undumped_chars st) (es_out st))
              | _ => Ok st
              end ;
        Ok (mkEscape UTF8_ACCEPT cp (string_buffer st) (bytes_after_last_accept st) 0
              (es_out st), again)
    end
  else
    st <~ (if negb ensure_ascii then put [c] st else Ok st) ;
    Ok (mkEscape s cp (string_buffer st) (bytes_after_last_accept st)
          (S (undumped_chars st)) (es_out st), false).

(** The loop over the bytes. A byte is read at most twice: the second reading
    starts with no undumped bytes. *)
Fixpoint escape_loop (handler : error_handler) (ensure_ascii : bool) (s : list Ascii.ascii)
    (st : escape_state) : result escape_state :=
  match s with
  | [] => Ok st
  | c :: rest =>
      '(st, again) <~ escape_step handler ensure_ascii c st ;
      if (again : bool) then
        '(st, _) <~ escape_step handler ensure_ascii c st ;
        escape_loop handler ensure_ascii rest st
      else escape_loop handler ensure_ascii rest st
  end.

Definition dump_escaped (handler : error_handler) (ensure_ascii : bool) (s : list Ascii.ascii)
    : result (list Ascii.ascii) :=
  st <~ escape_loop handler ensure_ascii s (mkEscape UTF8_ACCEPT 0 [] 0 0 []) ;
  if es_state st =? UTF8_ACCEPT then Ok (es_out st ++ string_buffer st)
  else
    let accepted := es_out st ++ take (bytes_after_last_accept st) (string_buffer st) in
    match handler with
    | strict => Throw (JsonError 316)
    | ignore => Ok accepted
    | replace => Ok (accepted ++ replacement ensure_ascii)
    end.

(** * Integers *)

(** [count_digits]: the loop of four comparisons per division by 10000. *)
Fixpoint count_digits_from (fuel : nat) (n_digits x : Z) : Z :=
  match fuel with
  | O => n_digits
  | S fuel' =>
      if x <? 10 then n_digits
      else if x <? 100 then n_digits + 1
      else if x <? 1000 then n_digits + 2
      else if x <? 10000 then n_digits + 3
      else count_digits_from fuel' (n_digits + 4) (x / 10000)
  end.

(** A 64-bit value is below ten after four divisions. *)
Definition count_digits (x : Z) : Z := count_digits_from 6 1 x.

(** The absolute value of a negative 64-bit integer, in unsigned arithmetic. *)
Definition remove_sign (x : Z) : Z := ((- (x + 1)) mod 2 ^ 64 + 1) mod 2 ^ 64.

Definition digit_char (d : Z) : Ascii.ascii := char_of (48 + d).

(** The digit pairs of the table, written backwards from the end. *)
Fixpoint dump_digits (fuel : nat) (abs_value : Z) (acc : list Ascii.ascii)
    : list Ascii.ascii :=
  match fuel with
  | O => acc
  | S fuel' =>
      if 100 <=? abs_value then
        let index := abs_value mod 100 in
        dump_digits fuel' (abs_value / 100)
          (digit_char (index / 10) :: digit_char (index mod 10) :: acc)
      else if 10 <=? abs_value then
        digit_char (abs_value / 10) :: digit_char (abs_value mod 10) :: acc
      else digit_char abs_value :: acc
  end.

(** The digits are written backwards from position [n_chars] of the number
    buffer and [n_chars] characters are output; were the digit count wrong, the
    output would hold stale or overwritten characters. *)
Definition dump_integer (x : Z) : result (list Ascii.ascii) :=
  if x =? 0 then Ok [digit_char 0]
  else
    let negative := x <? 0 in
    let abs_value := if negative then remove_sign x else x in
    let digits := dump_digits 11 abs_value [] in
    if Z.of_nat (length digits) =? count_digits abs_value
    then Ok ((if negative then [char_of 45] else []) ++ digits)
    else Throw UndefinedRead.

(** * Values *)

Section DumpMembers.
Context (ensure_ascii : bool) (handler : error_handler).
Context (dump_value : json -> result (list Ascii.ascii)).

Definition dump_member (key : string) (value : json) : result (list Ascii.ascii) :=
  k <~ dump_escaped handler ensure_ascii (chars key) ;
  v <~ dump_value value ;
  Ok ([quote_char] ++ k ++ [quote_char; char_of 58] ++ v).

(** All but the last element carry the comma. *)
Fixpoint dump_members (m : list (string * json)) : result (list Ascii.ascii) :=
  match m with
  | [] => Ok []
  | (k, v) :: rest =>
      t <~ dump_member k v ;
      match rest with
      | [] => Ok t
      | _ => ts <~ dump_members rest ; Ok (t ++ [char_of 44] ++ ts)
      end
  end.

Fixpoint dump_elements (l : list json) : result (list Ascii.ascii) :=
  match l with
  | [] => Ok []
  | v :: rest =>
      t <~ dump_value v ;
      match rest with
      | [] => Ok t
      | _ => ts <~ dump_elements rest ; Ok (t ++ [char_of 44] ++ ts)
      end
  end.
End DumpMembers.

(** The compact form, the only one the engine asks for. *)
Fixpoint dump_json (handler : error_handler) (ensure_ascii : bool) (j : json)
    : result (list Ascii.ascii) :=
  match j with
  | JObject [] => Ok (chars "{}")
  | JObject m =>
      t <~ dump_members ensure_ascii handler (dump_json handler ensure_ascii) m ;
      Ok ([char_of 123] ++ t ++ [char_of 125])
  | JArray [] => Ok (chars "[]")
  | JArray l =>
      t <~ dump_elements (dump_json handler ensure_ascii) l ;
      Ok ([char_of 91] ++ t ++ [char_of 93])
  | JString s =>
      t <~ dump_escaped handler ensure_ascii (chars s) ;
      Ok ([quote_char] ++ t ++ [quote_char])
  | JBoolean b => Ok (chars (if b then "true" else "false"))
  | JInteger x | JUnsigned x => dump_integer x
  | JFloat d => Ok (dump_float d)
  | JNull => Ok (chars "null")
  end.

(** [j.dump()]. *)
Definition dump (j : json) : result string :=
  t <~ dump_json strict false j ; Ok (text t).

(** * Lemmas: the UTF-8 automaton *)

(** A test that every byte passes. *)
Definition all_bytes (P : Z -> bool) : bool := forallb P (seqZ 0 256).

Lemma all_bytes_spec P c : all_bytes P = true -> P (byte_of c) = true.
Proof.
  unfold all_bytes. rewrite forallb_forall. intros H. apply H.
  apply list_elem_of_In, elem_of_seqZ. pose proof (byte_of_range c). lia.
Qed.

Definition utf8_step (s b : Z) : Z := (decode s 0 b).1.

Lemma decode_state s cp b : (decode s cp b).1 = utf8_step s b.
Proof. reflexivity. Qed.

(** The states a byte can leave the automaton in, other than the rejecting one. *)
Definition live_states : list Z := [0; 2; 3; 4; 5; 6; 7; 8].

(** Bytes of an unfinished sequence, at most, by state. *)
Definition pending_bytes (s : Z) : nat :=
  if s =? 0 then 0%nat else if s =? 2 then 3%nat else if s =? 3 then 2%nat else 1%nat.

Definition transition_ok (s b : Z) : bool :=
  let s' := utf8_step s b in
  (s' =? 0) || (s' =? 1) ||
  (bool_decide (s' ∈ live_states) && (pending_bytes s <? pending_bytes s')%nat).

Lemma transitions_ok : forallb (fun s => all_bytes (transition_ok s)) live_states = true.
Proof. vm_compute. reflexivity. Qed.

Lemma utf8_step_live s c : s ∈ live_states ->
  let s' := utf8_step s (byte_of c) in
  s' = 0 \/ s' = 1 \/ (s' ∈ live_states /\ (pending_bytes s < pending_bytes s')%nat).
Proof.
  intros Hs s'. pose proof transitions_ok as H. rewrite forallb_forall in H.
  apply list_elem_of_In, H, (all_bytes_spec _ c) in Hs. unfold transition_ok in Hs.
  fold s' in Hs. zbool. destruct Hs as [[Hs|Hs]|[Hs1 Hs2]]; auto.
  apply bool_decide_eq_true in Hs1. auto.
Qed.

(** * Lemmas: the buffer *)

(** What holds between two bytes: a live state, and room for the longest
    escape once the pending bytes are in. *)
Definition escape_inv (ensure_ascii : bool) (st : escape_state) : Prop :=
  es_state st ∈ live_states /\
  (length (string_buffer st) <=
     499 + (if ensure_ascii then 0 else pending_bytes (es_state st)))%nat /\
  (bytes_after_last_accept st <= 499)%nat.

Lemma put_ok cs st : (length (string_buffer st) + length cs <= 512)%nat ->
  put cs st = Ok (set_buffer (string_buffer st ++ cs) st).
Proof. intros H. unfold put, string_buffer_size. now rewrite (proj2 (Nat.leb_le _ _) H). Qed.

Lemma put_printf_ok cs st : (length (string_buffer st) + length cs + 1 <= 512)%nat ->
  put_printf cs st = Ok (set_buffer (string_buffer st ++ cs) st).
Proof. intros H. unfold put_printf, string_buffer_size. now rewrite (proj2 (Nat.leb_le _ _) H). Qed.

Lemma flush_if_full_room st : (length (string_buffer st) <= 512)%nat ->
  (length (string_buffer (flush_if_full st)) <= 499)%nat.
Proof.
  unfold flush_if_full, string_buffer_size. intros H.
  destruct (_ <? 13)%nat eqn:E; zbool; simpl; lia.
Qed.

Lemma accept_codepoint_ok (ensure_ascii : bool) c st :
  (length (string_buffer st) <= 499 + (if ensure_ascii then 0 else 3))%nat ->
  exists cs, accept_codepoint ensure_ascii c st = Ok (set_buffer (string_buffer st ++ cs) st) /\
             (length (string_buffer st) + length cs <= 512)%nat.
Proof.
  intros Hl. assert (length (string_buffer st) <= 502)%nat as Hl' by (destruct ensure_ascii; lia).
  unfold accept_codepoint.
  repeat match goal with
  | |- context [if es_codepoint st =? ?n then _ else _] => destruct (es_codepoint st =? n)
  end; try (eexists; split; [apply put_ok; simpl; lia|simpl; lia]).
  destruct ((_ <=? 31) || _) eqn:E.
  - destruct (es_codepoint st <=? 65535) eqn:E2.
    + eexists; split; [apply put_printf_ok; simpl; lia|simpl; lia].
    + destruct ensure_ascii.
      * eexists; split; [apply put_printf_ok; simpl; lia|simpl; lia].
      * zbool. simpl in E. exfalso. destruct E as [E|[E ?]]; [lia|discriminate].
  - eexists; split; [apply put_ok; simpl; lia|simpl; lia].
Qed.

Lemma escape_step_inv handler ensure_ascii c st :
  escape_inv ensure_ascii st ->
  match escape_step handler ensure_ascii c st with
  | Ok (st', again) => escape_inv ensure_ascii st'
  | Throw x => x = JsonError 316
  end.
Proof.
  intros (Hs & Hb & Ha). unfold escape_step.
  pose proof (utf8_step_live _ c Hs) as Hstep.
  rewrite <- (decode_state _ (es_codepoint st)) in Hstep.
  destruct (decode _ _ _) as [s cp] eqn:Ed. simpl in Hstep.
  assert (pending_bytes (es_state st) <= 3)%nat as Hp.
  { unfold pending_bytes. repeat destruct (_ =? _); lia. }
  destruct Hstep as [->|[->|[Hl Hlt]]]; cbn [Z.eqb UTF8_ACCEPT UTF8_REJECT].
  - destruct (accept_codepoint_ok ensure_ascii c
      (mkEscape 0 cp (string_buffer st) (bytes_after_last_accept st) (undumped_chars st)
         (es_out st))) as (cs & -> & Hcs); [destruct ensure_ascii; simpl in *; lia|].
    simpl. match goal with |- context [flush_if_full ?x] =>
      pose proof (flush_if_full_room x) as Hr; destruct (flush_if_full x) end.
    simpl in *. rewrite length_app in Hr. split; [simpl; set_solver|]. simpl. lia.
  - destruct handler; [done| |].
    + simpl. rewrite put_ok; [|simpl; rewrite length_take; destruct ensure_ascii; simpl; lia].
      simpl. match goal with |- context [flush_if_full ?x] =>
        pose proof (flush_if_full_room x) as Hr; destruct (flush_if_full x) end.
      simpl in *. rewrite length_app, length_take in Hr.
      assert (length (replacement ensure_ascii) <= 6)%nat by (destruct ensure_ascii; simpl; lia).
      split; [simpl; set_solver|]. simpl. lia.
    + simpl. split; [simpl; set_solver|]. simpl. rewrite length_take. lia.
  - assert (s <> 0 /\ s <> 1) as [H0 H1].
    { split; intros ->; [cbn in Hlt; lia|]. apply (bool_decide_eq_true_2 _) in Hl. discriminate Hl. }
    unfold UTF8_ACCEPT, UTF8_REJECT.
    rewrite (proj2 (Z.eqb_neq _ _) H0), (proj2 (Z.eqb_neq _ _) H1).
    destruct ensure_ascii; simpl.
    + split; [done|]. simpl in *. lia.
    + rewrite put_ok by (simpl; lia). simpl. split; [done|]. simpl. rewrite length_app. simpl. lia.
Qed.

Lemma escape_loop_inv handler ensure_ascii l st :
  escape_inv ensure_ascii st ->
  match escape_loop handler ensure_ascii l st with
  | Ok st' => escape_inv ensure_ascii st'
  | Throw x => x = JsonError 316
  end.
Proof.
  revert st. induction l as [|c l IH]; intros st Hst; [done|]. simpl.
  pose proof (escape_step_inv handler ensure_ascii c st Hst) as H1.
  destruct (escape_step _ _ c st) as [[st1 again]|x]; [|done]. simpl.
  destruct again; [|now apply IH].
  pose proof (escape_step_inv handler ensure_ascii c st1 H1) as H2.
  destruct (escape_step _ _ c st1) as [[st2 again]|x]; [|done]. simpl. now apply IH.
Qed.

Lemma escape_start_inv ensure_ascii : escape_inv ensure_ascii (mkEscape UTF8_ACCEPT 0 [] 0 0 []).
Proof. split; [simpl; set_solver|]. simpl. lia. Qed.

(** Printing a string never writes past the serializer's 512-byte buffer,
    whatever the text, the error handler and the escaping of non-ASCII
    characters: the 13 bytes kept free after each code point are enough. *)
Theorem dump_escaped_no_overflow handler ensure_ascii l :
  dump_escaped handler ensure_ascii l <> Throw UndefinedRead.
Proof.
  unfold dump_escaped.
  pose proof (escape_loop_inv handler ensure_ascii l _ (escape_start_inv ensure_ascii)) as H.
  destruct (escape_loop _ _ l _) as [st|x]; simpl; [|now rewrite H].
  destruct (_ =? _); [done|]. now destruct handler.
Qed.

(** ** The strict handler, exactly *)

(** The state after a text. *)
Definition utf8_run (s : Z) (l : list Ascii.ascii) : Z :=
  foldl (fun s c => utf8_step s (byte_of c)) s l.

Definition utf8_valid (l : list Ascii.ascii) : bool := utf8_run UTF8_ACCEPT l =? UTF8_ACCEPT.

(** What one byte of a valid text becomes. *)
Definition escape_byte (c : Ascii.ascii) : list Ascii.ascii :=
  let b := byte_of c in
  if b =? 8 then [backslash; char_of 98]
  else if b =? 9 then [backslash; char_of 116]
  else if b =? 10 then [backslash; char_of 110]
  else if b =? 12 then [backslash; char_of 102]
  else if b =? 13 then [backslash; char_of 114]
  else if b =? 34 then [backslash; quote_char]
  else if b =? 92 then [backslash; backslash]
  else if b <=? 31 then unicode_escape b
  else [c].

Definition escape_text (l : list Ascii.ascii) : list Ascii.ascii := flat_map escape_byte l.

Lemma utf8_step_reject c : utf8_step 1 (byte_of c) = 1.
Proof. apply Z.eqb_eq, (all_bytes_spec (fun b => utf8_step 1 b =? 1)). vm_compute. reflexivity. Qed.

Lemma utf8_run_reject l : utf8_run 1 l = 1.
Proof. induction l as [|c l IH]; [done|]. unfold utf8_run in *. simpl. now rewrite utf8_step_reject. Qed.

(** The bounds of the code point so far, by state: what is left to shift in
    keeps it in 32 bits, and an unfinished sequence cannot end below [U+0080]. *)
Definition codepoint_lo (s : Z) : Z :=
  if s =? 2 then 2 else if (s =? 4) || (s =? 6) then 0 else 1.
Definition codepoint_hi (s : Z) : Z :=
  if s =? 2 then 2 ^ 15 else if (s =? 3) || (s =? 4) || (s =? 5) then 2 ^ 9 else 2 ^ 3.

Definition codepoint_ok (s cp : Z) : bool :=
  (s =? 0) || ((codepoint_lo s <=? cp) && (cp <? codepoint_hi s)).

Definition lead_ok (b : Z) : bool :=
  let '(s, cp) := decode 0 0 b in
  if s =? 0 then (cp =? b) && (b <? 128) else (s =? 1) || (codepoint_ok s cp && (128 <=? b)).

Definition continuation_ok (s b : Z) : bool :=
  let s' := utf8_step s b in
  (s' =? 1) ||
  (((if s =? 2 then s' =? 0
     else if (s =? 3) || (s =? 5) then s' =? 2
     else if s =? 4 then (s' =? 2) && (2 <=? Z.land b 63)
     else if s =? 6 then (s' =? 3) && (1 <=? Z.land b 63)
     else s' =? 3)) && (128 <=? b)).

Lemma leads_ok : all_bytes lead_ok = true.
Proof. vm_compute. reflexivity. Qed.

Lemma continuations_ok :
  forallb (fun s => all_bytes (continuation_ok s)) (tail live_states) = true.
Proof. vm_compute. reflexivity. Qed.

Lemma decode_lead cp c :
  let '(s, cp') := decode 0 cp (byte_of c) in
  s = 1 \/ (s = 0 /\ cp' = byte_of c /\ byte_of c < 128) \/
  (s <> 0 /\ codepoint_ok s cp' = true /\ 128 <= byte_of c).
Proof.
  pose proof (all_bytes_spec _ c leads_ok) as H. unfold lead_ok in H.
  change (decode 0 cp (byte_of c)) with (decode 0 0 (byte_of c)).
  destruct (decode 0 0 (byte_of c)) as [s cp']. destruct (Z.eqb_spec s 0) as [->|Hs]; zbool; tauto.
Qed.

Lemma lor_shift_add b cp :
  0 <= b -> 0 <= cp < 2 ^ 26 -> Z.lor (Z.land b 63) (u32 (Z.shiftl cp 6)) = cp * 64 + Z.land b 63.
Proof.
  intros Hb Hcp. unfold u32.
  change 63 with (Z.ones 6). rewrite Z.land_ones, Z.shiftl_mul_pow2 by lia.
  rewrite (Z.mod_small (cp * 2 ^ 6)) by lia. rewrite Z.lor_comm.
  assert (Z.land (cp * 2 ^ 6) (b mod 2 ^ 6) = 0) as H0.
  { apply Z.bits_inj'. intros n Hn. rewrite Z.land_spec, Z.bits_0.
    destruct (Z.ltb_spec n 6).
    - rewrite Z.mul_pow2_bits_low by lia. done.
    - rewrite Z.mod_pow2_bits_high by lia. apply andb_false_r. }
  rewrite <- Z.lxor_lor, <- Z.add_nocarry_lxor by done. lia.
Qed.

Lemma decode_continuation s cp c :
  s ∈ tail live_states -> codepoint_ok s cp = true ->
  let '(s', cp') := decode s cp (byte_of c) in
  s' = 1 \/ (128 <= byte_of c /\ codepoint_ok s' cp' = true /\ (s' = 0 -> 128 <= cp')).
Proof.
  intros Hs Hcp. pose proof continuations_ok as H. rewrite forallb_forall in H.
  pose proof Hs as Hs'. apply list_elem_of_In, H, (all_bytes_spec _ c) in Hs'.
  unfold continuation_ok in Hs'. rewrite <- (decode_state s cp) in Hs'.
  assert (s <> 0) as H0. { intros ->. apply (bool_decide_eq_true_2 _) in Hs. discriminate Hs. }
  assert (0 <= cp < 2 ^ 26) as Hr.
  { unfold codepoint_ok, codepoint_lo, codepoint_hi in Hcp.
    repeat match type of Hcp with context [if ?b then _ else _] => destruct b eqn:? end; zbool; lia. }
  unfold decode, UTF8_ACCEPT in *. rewrite (proj2 (Z.eqb_neq _ _) H0) in *. cbn [negb fst] in *.
  pose proof (byte_of_range c) as Hb. rewrite lor_shift_add in * by lia.
  pose proof (Z.land_nonneg (byte_of c) 63) as Hl1.
  assert (0 <= Z.land (byte_of c) 63 < 64) as Hl.
  { change 63 with (Z.ones 6). rewrite Z.land_ones by lia. apply Z.mod_pos_bound. lia. }
  set (s' := nth _ utf8d 0) in *. clearbody s'.
  apply orb_true_iff in Hs' as [Hs'|[Hs' H128]%andb_true_iff]; [left; now apply Z.eqb_eq|right].
  zbool. split; [done|]. unfold codepoint_ok, codepoint_lo, codepoint_hi in *.
  unfold live_states in Hs. cbn in Hs.
  repeat (apply elem_of_cons in Hs as [->|Hs]); [..|now apply elem_of_nil in Hs];
    cbn in Hs', Hcp |- *; zbool; try match type of Hs' with _ /\ _ => destruct Hs' as [Hs' ?] end; subst s';
    cbn; zbool; split; try lia; intros; lia.
Qed.

(** The loop state seen as the text it has produced. *)
Definition escape_output (st : escape_state) : list Ascii.ascii := es_out st ++ string_buffer st.

Lemma flush_if_full_output st : escape_output (flush_if_full st) = escape_output st.
Proof.
  unfold flush_if_full, escape_output. destruct (_ <? 13)%nat; [|done]. simpl. now rewrite app_nil_r.
Qed.

Lemma accept_codepoint_output c st st' :
  accept_codepoint false c st = Ok st' ->
  (es_codepoint st = byte_of c /\ byte_of c < 128) \/ (128 <= es_codepoint st /\ 128 <= byte_of c) ->
  escape_output st' = escape_output st ++ escape_byte c.
Proof.
  unfold accept_codepoint, escape_byte. intros H [[Hcp Hb]|[Hcp Hb]].
  - rewrite Hcp in H. rewrite andb_false_l, orb_false_r in H.
    replace (byte_of c <=? 65535) with true in H by (symmetry; apply Z.leb_le; lia).
    repeat match goal with |- context [if byte_of c =? ?n then _ else _] =>
      destruct (byte_of c =? n) end;
    try (destruct (byte_of c <=? 31));
    unfold put, put_printf in H; destruct (_ <=? _)%nat in H; try discriminate;
    injection H as <-; unfold escape_output; simpl; now rewrite <- app_assoc.
  - repeat match type of H with context [if es_codepoint st =? ?n then _ else _] =>
      rewrite (proj2 (Z.eqb_neq (es_codepoint st) n)) in H by lia end.
    rewrite (proj2 (Z.leb_gt _ _)) in H by lia. simpl in H.
    repeat match goal with |- context [if byte_of c =? ?n then _ else _] =>
      rewrite (proj2 (Z.eqb_neq (byte_of c) n)) by lia end.
    rewrite (proj2 (Z.leb_gt (byte_of c) 31)) by lia.
    unfold put in H. destruct (_ <=? _)%nat in H; [|discriminate].
    injection H as <-. unfold escape_output. simpl. now rewrite <- app_assoc.
Qed.

Definition strict_inv (st : escape_state) : Prop :=
  escape_inv false st /\ codepoint_ok (es_state st) (es_codepoint st) = true.

Lemma live_tail s : s ∈ live_states -> s = 0 \/ s ∈ tail live_states.
Proof. unfold live_states. simpl. rewrite elem_of_cons. tauto. Qed.

(** One byte in strict mode: rejection, or its escape appended. *)
Lemma escape_step_strict c st :
  strict_inv st ->
  let s' := utf8_step (es_state st) (byte_of c) in
  (s' = 1 /\ escape_step strict false c st = Throw (JsonError 316)) \/
  (s' <> 1 /\ exists st', escape_step strict false c st = Ok (st', false) /\
     strict_inv st' /\ es_state st' = s' /\
     escape_output st' = escape_output st ++ escape_byte c).
Proof.
  intros [Hinv Hcp] s'. pose proof (escape_step_inv strict false c st Hinv) as Hnext.
  pose proof (decode_state (es_state st) (es_codepoint st) (byte_of c)) as Hd. fold s' in Hd.
  assert (let '(s, cp) := decode (es_state st) (es_codepoint st) (byte_of c) in
    s = 1 \/ (s = 0 /\ cp = byte_of c /\ byte_of c < 128) \/
    (128 <= byte_of c /\ codepoint_ok s cp = true /\ (s = 0 -> 128 <= cp))) as Hc.
  { destruct (live_tail _ (proj1 Hinv)) as [Hs|Hs].
    - rewrite Hs. pose proof (decode_lead (es_codepoint st) c) as H.
      destruct (decode 0 _ _) as [s cp]. destruct H as [H|[H|(H1 & H2 & H3)]]; [auto|auto|]. right; right. split; [done|]. split; [done|lia].
    - pose proof (decode_continuation _ _ c Hs Hcp) as H.
      destruct (decode _ _ _) as [s cp]. tauto. }
  unfold escape_step in *. destruct (decode _ _ _) as [s cp]. simpl in Hd. subst s.
  destruct (Z.eqb_spec s' UTF8_ACCEPT) as [E|E].
  - right. split; [unfold UTF8_ACCEPT in E; lia|].
    destruct (accept_codepoint _ _ _) as [st1|x] eqn:Ea; simpl in *.
    + eexists; split; [done|]. split; [split; [done|]|split; [done|]].
      { simpl. rewrite E. done. }
      transitivity (escape_output (flush_if_full st1)); [reflexivity|].
      rewrite flush_if_full_output. apply accept_codepoint_output in Ea; [done|].
      simpl. unfold UTF8_ACCEPT in E. destruct Hc as [Hc|[Hc|Hc]]; [lia|left; lia|right; lia].
    + subst x. exfalso. unfold accept_codepoint, put, put_printf in Ea.
      repeat match type of Ea with (if ?b then _ else _) = _ => destruct b end; discriminate.
  - destruct (Z.eqb_spec s' UTF8_REJECT) as [E1|E1]; [left; done|right].
    split; [done|]. simpl in *. unfold put in *.
    destruct (_ <=? _)%nat; simpl in *; [|discriminate].
    eexists; split; [done|]. unfold UTF8_ACCEPT, UTF8_REJECT in *.
    destruct Hc as [Hc|[Hc|(Hb & Hc & _)]]; [lia|lia|].
    split; [split; [done|exact Hc]|split; [done|]].
    unfold escape_output, escape_byte. simpl.
    repeat match goal with |- context [if byte_of c =? ?n then _ else _] =>
      rewrite (proj2 (Z.eqb_neq (byte_of c) n)) by lia end.
    rewrite (proj2 (Z.leb_gt (byte_of c) 31)) by lia. apply app_assoc.
Qed.

Lemma escape_loop_strict l st :
  strict_inv st ->
  let s' := utf8_run (es_state st) l in
  (s' = 1 /\ escape_loop strict false l st = Throw (JsonError 316)) \/
  (s' <> 1 /\ exists st', escape_loop strict false l st = Ok st' /\ es_state st' = s' /\
     escape_output st' = escape_output st ++ escape_text l).
Proof.
  revert st. induction l as [|c l IH]; intros st Hst s'.
  - right. simpl in s'. split.
    + subst s'. destruct Hst as [[Hs _] _]. intros E. rewrite E in Hs.
      apply (bool_decide_eq_true_2 _) in Hs. discriminate Hs.
    + eexists; split; [done|]. split; [done|]. simpl. now rewrite app_nil_r.
  - simpl. unfold utf8_run in s'. simpl in s'.
    destruct (escape_step_strict c st Hst) as [[E ->]|(E & st1 & -> & Hst1 & Hs1 & Ho1)]; simpl.
    + left. split; [|done]. subst s'. rewrite E. apply utf8_run_reject.
    + specialize (IH st1 Hst1). rewrite Hs1 in IH. fold (utf8_run (utf8_step (es_state st) (byte_of c)) l) in s'.
      destruct IH as [[E2 ->]|(E2 & st2 & -> & Hs2 & Ho2)]; [left; done|right].
      split; [done|]. eexists; split; [done|]. split; [done|].
      rewrite Ho2, Ho1, <- app_assoc. done.
Qed.

(** With the strict handler: the escapes of the bytes of a valid text, error 316
    for every other text. *)
Lemma dump_escaped_strict l :
  dump_escaped strict false l =
  if utf8_valid l then Ok (escape_text l) else Throw (JsonError 316).
Proof.
  unfold dump_escaped, utf8_valid.
  pose proof (escape_loop_strict l (mkEscape UTF8_ACCEPT 0 [] 0 0 [])) as H. simpl in H.
  destruct H as [[-> ->]|(Hne & st & -> & Hs & Ho)]; [|done|].
  { split; [apply escape_start_inv|done]. }
  simpl. rewrite Hs. destruct (_ =? _); [|done]. f_equal. exact Ho.
Qed.

(** * Lemmas: integers *)

Definition is_digits (l : list Ascii.ascii) : Prop := Forall (fun c => is_digit c = true) l.

Lemma digit_char_byte d : 0 <= d < 10 -> byte_of (digit_char d) = 48 + d.
Proof. intros. apply byte_of_char_of. lia. Qed.

Lemma digit_char_is_digit d : 0 <= d < 10 -> is_digit (digit_char d) = true.
Proof. intros. unfold is_digit. rewrite digit_char_byte by done. apply andb_true_iff. lia. Qed.

Lemma digits_value_snoc l c : digits_value (l ++ [c]) = digits_value l * 10 + digit_value c.
Proof. unfold digits_value. now rewrite fold_left_app. Qed.

Lemma digit_value_digit d : 0 <= d < 10 -> digit_value (digit_char d) = d.
Proof. intros. unfold digit_value. rewrite digit_char_byte by done. lia. Qed.

(** The shape of a printed positive number. *)
Definition prints (v : Z) (ds : list Ascii.ascii) : Prop :=
  is_digits ds /\ digits_value ds = v /\
  10 ^ (Z.of_nat (length ds) - 1) <= v < 10 ^ Z.of_nat (length ds) /\
  (exists c tl, ds = c :: tl /\ 49 <= byte_of c).

Lemma prints_digit d : 0 < d < 10 -> prints d [digit_char d].
Proof.
  intros Hd. split; [|split; [|split]].
  - constructor; [apply digit_char_is_digit; lia|constructor].
  - unfold digits_value. simpl. apply digit_value_digit. lia.
  - simpl. lia.
  - exists (digit_char d), []. rewrite digit_char_byte by lia. split; [done|lia].
Qed.

Lemma prints_snoc v ds d : prints v ds -> 0 <= d < 10 -> prints (v * 10 + d) (ds ++ [digit_char d]).
Proof.
  intros (H1 & H2 & H3 & c & tl & -> & H4) Hd. split; [|split; [|split]].
  - apply Forall_app; split; [done|]. constructor; [now apply digit_char_is_digit|constructor].
  - now rewrite digits_value_snoc, H2, digit_value_digit.
  - rewrite length_app. simpl length in *.
    replace (Z.of_nat (S (length tl) + 1) - 1) with (Z.succ (Z.of_nat (S (length tl)) - 1)) by lia.
    replace (Z.of_nat (S (length tl) + 1)) with (Z.succ (Z.of_nat (S (length tl)))) by lia.
    rewrite !Z.pow_succ_r by lia. lia.
  - exists c, (tl ++ [digit_char d]). done.
Qed.

Lemma dump_digits_prints fuel v acc :
  0 < v < 100 ^ Z.of_nat fuel ->
  exists ds, dump_digits fuel v acc = ds ++ acc /\ prints v ds.
Proof.
  revert v acc. induction fuel as [|fuel IH]; intros v acc Hv; [simpl in Hv; lia|].
  cbn [dump_digits]. rewrite Nat2Z.inj_succ, Z.pow_succ_r in Hv by lia.
  destruct (Z.leb_spec 100 v).
  - destruct (IH (v / 100) (digit_char (v mod 100 / 10) :: digit_char (v mod 100 mod 10) :: acc))
      as (ds & -> & Hp).
    { split; [apply Z.div_str_pos; lia|]. apply Z.div_lt_upper_bound; lia. }
    exists ((ds ++ [digit_char (v mod 100 / 10)]) ++ [digit_char (v mod 100 mod 10)]).
    split; [now rewrite <- !app_assoc|].
    pose proof (Z.mod_pos_bound v 100). 
    pose proof (Z.div_mod v 100). pose proof (Z.div_mod (v mod 100) 10).
    pose proof (Z.mod_pos_bound (v mod 100) 10).
    replace v with ((v / 100 * 10 + v mod 100 / 10) * 10 + v mod 100 mod 10) at 1 by lia.
    apply prints_snoc; [apply prints_snoc; [done|]|lia].
    split; [apply Z.div_pos; lia|apply Z.div_lt_upper_bound; lia].
  - destruct (Z.leb_spec 10 v).
    + exists ([digit_char (v / 10)] ++ [digit_char (v mod 10)]). split; [done|].
      pose proof (Z.mod_pos_bound v 10). pose proof (Z.div_mod v 10).
      replace v with (v / 10 * 10 + v mod 10) at 1 by lia.
      apply prints_snoc; [|lia]. apply prints_digit.
      split; [apply Z.div_str_pos; lia|apply Z.div_lt_upper_bound; lia].
    + exists [digit_char v]. split; [done|]. now apply prints_digit.
Qed.

Lemma count_digits_bounds fuel n v :
  0 < v < 10000 ^ Z.of_nat fuel ->
  10 ^ (count_digits_from fuel n v - n) <= v < 10 ^ (count_digits_from fuel n v - n + 1) /\
  n <= count_digits_from fuel n v.
Proof.
  revert n v. induction fuel as [|fuel IH]; intros n v Hv; [simpl in Hv; lia|].
  cbn [count_digits_from]. rewrite Nat2Z.inj_succ, Z.pow_succ_r in Hv by lia.
  destruct (Z.ltb_spec v 10); [replace (n - n) with 0 by lia; simpl; lia|].
  destruct (Z.ltb_spec v 100); [replace (n + 1 - n) with 1 by lia; simpl; lia|].
  destruct (Z.ltb_spec v 1000); [replace (n + 2 - n) with 2 by lia; simpl; lia|].
  destruct (Z.ltb_spec v 10000); [replace (n + 3 - n) with 3 by lia; simpl; lia|].
  destruct (IH (n + 4) (v / 10000)) as [[H3 H4] H5].
  { split; [apply Z.div_str_pos; lia|apply Z.div_lt_upper_bound; lia]. }
  set (c := count_digits_from fuel (n + 4) (v / 10000)) in *. clearbody c.
  replace (c - n) with (4 + (c - (n + 4))) by lia.
  replace (4 + (c - (n + 4)) + 1) with (4 + (c - (n + 4) + 1)) by lia.
  rewrite !(Z.pow_add_r 10 4) by lia. change (10 ^ 4) with 10000.
  pose proof (Z.div_mod v 10000). pose proof (Z.mod_pos_bound v 10000). split; [nia|lia].
Qed.

Lemma count_digits_length v ds : v < 2 ^ 64 -> prints v ds -> count_digits v = Z.of_nat (length ds).
Proof.
  intros Hv (_ & _ & H & c & tl & -> & _). unfold count_digits.
  assert (0 < v) as Hpos.
  { pose proof (Z.pow_nonneg 10 (Z.of_nat (length (c :: tl)) - 1)). simpl length in *.
    assert (0 < 10 ^ (Z.of_nat (S (length tl)) - 1)) by (apply Z.pow_pos_nonneg; lia). lia. }
  destruct (count_digits_bounds 6 1 v) as [[H1 H2] H3]; [simpl; lia|].
  set (k := count_digits_from 6 1 v) in *. clearbody k.
  set (n := Z.of_nat (length (c :: tl))) in *. assert (1 <= n) by (subst n; simpl; lia). clearbody n.
  destruct (Z.lt_trichotomy k n) as [Hlt|[->|Hlt]]; [|done|].
  - pose proof (Z.pow_le_mono_r 10 (k - 1 + 1) (n - 1)). lia.
  - pose proof (Z.pow_le_mono_r 10 n (k - 1)). lia.
Qed.

Lemma remove_sign_abs x : in_i64 x -> x < 0 -> remove_sign x = - x.
Proof.
  unfold in_i64, remove_sign. intros. rewrite (Z.mod_small (- (x + 1))) by lia.
  rewrite Z.mod_small by lia. lia.
Qed.

(** The printed form of every 64-bit integer, signed or unsigned. *)
Lemma dump_integer_prints x :
  - 2 ^ 63 <= x < 2 ^ 64 ->
  (x = 0 /\ dump_integer x = Ok [digit_char 0]) \/
  (0 < x /\ exists ds, dump_integer x = Ok ds /\ prints x ds) \/
  (x < 0 /\ exists ds, dump_integer x = Ok (char_of 45 :: ds) /\ prints (- x) ds).
Proof.
  intros Hx. unfold dump_integer. destruct (Z.eqb_spec x 0) as [->|H0]; [auto|right].
  destruct (Z.ltb_spec x 0).
  - right. split; [done|]. rewrite remove_sign_abs by (unfold in_i64; lia).
    destruct (dump_digits_prints 11 (- x) []) as (ds & -> & Hp); [simpl; lia|].
    rewrite app_nil_r. rewrite (count_digits_length _ ds), Z.eqb_refl by (done || lia). eauto.
  - left. split; [lia|].
    destruct (dump_digits_prints 11 x []) as (ds & -> & Hp); [simpl; lia|].
    rewrite app_nil_r. rewrite (count_digits_length _ ds), Z.eqb_refl by (done || lia). eauto.
Qed.
