(* ===== verification/JsonParse.v ===== *)
(** The reader of the vendored [nlohmann/json]: the lexer and the strict parser
    that builds the value. Every syntax error is the library's [parse_error],
    number 101; its message and position are not modelled. *)
From S2P Require Import Prelude Double Json JsonFloat.

(** * Tokens *)

Inductive token_type : Type :=
| literal_true
| literal_false
| literal_null
| value_string (s : list Ascii.ascii)
| value_unsigned (z : Z)
| value_integer (z : Z)
| value_float (d : double)
| begin_array
| begin_object
| end_array
| end_object
| name_separator
| value_separator
| parse_error
| end_of_input.

Notation input := (list Ascii.ascii).

(** * Strings *)

Definition hex_value (c : Ascii.ascii) : option Z :=
  let current := byte_of c in
  if (48 <=? current) && (current <=? 57) then Some (current - 0x30)
  else if (65 <=? current) && (current <=? 70) then Some (current - 0x37)
  else if (97 <=? current) && (current <=? 102) then Some (current - 0x57)
  else None.

(** The four digits after an escape's [u]; [None] is the code's -1. *)
Definition get_codepoint (a b c d : Ascii.ascii) : option Z :=
  match hex_value a, hex_value b, hex_value c, hex_value d with
  | Some x, Some y, Some z, Some t =>
      Some (Z.shiftl x 12 + Z.shiftl y 8 + Z.shiftl z 4 + t)
  | _, _, _, _ => None
  end.

(** The single-character escapes. *)
Definition simple_escape (c : Ascii.ascii) : option Ascii.ascii :=
  let current := byte_of c in
  if current =? 34 then Some (char_of 34)
  else if current =? 92 then Some (char_of 92)
  else if current =? 47 then Some (char_of 47)
  else if current =? 98 then Some (char_of 8)
  else if current =? 102 then Some (char_of 12)
  else if current =? 110 then Some (char_of 10)
  else if current =? 114 then Some (char_of 13)
  else if current =? 116 then Some (char_of 9)
  else None.

(** A code point in UTF-8. *)
Definition codepoint_bytes (codepoint : Z) : list Ascii.ascii :=
  if codepoint <? 0x80 then [char_of codepoint]
  else if codepoint <=? 0x7FF then
    [char_of (Z.lor 0xC0 (Z.shiftr codepoint 6));
     char_of (Z.lor 0x80 (Z.land codepoint 0x3F))]
  else if codepoint <=? 0xFFFF then
    [char_of (Z.lor 0xE0 (Z.shiftr codepoint 12));
     char_of (Z.lor 0x80 (Z.land (Z.shiftr codepoint 6) 0x3F));
     char_of (Z.lor 0x80 (Z.land codepoint 0x3F))]
  else
    [char_of (Z.lor 0xF0 (Z.shiftr codepoint 18));
     char_of (Z.lor 0x80 (Z.land (Z.shiftr codepoint 12) 0x3F));
     char_of (Z.lor 0x80 (Z.land (Z.shiftr codepoint 6) 0x3F));
     char_of (Z.lor 0x80 (Z.land codepoint 0x3F))].

(** The case labels of the scanner's switch, by group: control characters,
    which must be escaped; plain ASCII; and the lead bytes of two-byte
    sequences. *)
Definition control_character (current : Z) : bool := current <? 0x20.

Definition ascii_character (current : Z) : bool := (0x20 <=? current) && (current <=? 0x7F).

Definition two_byte_lead (current : Z) : bool := (0xC2 <=? current) && (current <=? 0xDF).

(** The ranges the following bytes must lie in, by the lead byte; [None] for
    the control characters and the bytes no sequence starts with. *)
Definition utf8_ranges (c : Ascii.ascii) : option (list (Z * Z)) :=
  let current := byte_of c in
  if control_character current then None
  else if ascii_character current then Some []
  else if two_byte_lead current then Some [(0x80, 0xBF)]
  else if current =? 0xE0 then Some [(0xA0, 0xBF); (0x80, 0xBF)]
  else if current =? 0xED then Some [(0x80, 0x9F); (0x80, 0xBF)]
  else if (0xE1 <=? current) && (current <=? 0xEF) then Some [(0x80, 0xBF); (0x80, 0xBF)]
  else if current =? 0xF0 then Some [(0x90, 0xBF); (0x80, 0xBF); (0x80, 0xBF)]
  else if (0xF1 <=? current) && (current <=? 0xF3)
  then Some [(0x80, 0xBF); (0x80, 0xBF); (0x80, 0xBF)]
  else if current =? 0xF4 then Some [(0x80, 0x8F); (0x80, 0xBF); (0x80, 0xBF)]
  else None.

Definition in_byte_range (r : Z * Z) (c : Ascii.ascii) : bool :=
  (r.1 <=? byte_of c) && (byte_of c <=? r.2).

Definition add_all (cs : list Ascii.ascii) (r : option (list Ascii.ascii * input))
    : option (list Ascii.ascii * input) :=
  match r with Some (buf, rest) => Some (cs ++ buf, rest) | None => None end.

(** From after the opening quote: the decoded bytes and the input after the
    closing quote; [None] is a parse error. *)
Fixpoint scan_string (l : input) : option (list Ascii.ascii * input) :=
  match l with
  | [] => None
  | c :: l1 =>
      if byte_of c =? 34 then Some ([], l1)
      else if byte_of c =? 92 then
        match l1 with
        | [] => None
        | e :: l2 =>
            match simple_escape e with
            | Some b => add_all [b] (scan_string l2)
            | None =>
                if byte_of e =? 117 then
                  match l2 with
                  | h1 :: h2 :: h3 :: h4 :: l3 =>
                      match get_codepoint h1 h2 h3 h4 with
                      | None => None
                      | Some codepoint1 =>
                          if (0xD800 <=? codepoint1) && (codepoint1 <=? 0xDBFF) then
                            match l3 with
                            | b :: u :: k1 :: k2 :: k3 :: k4 :: l4 =>
                                if (byte_of b =? 92) && (byte_of u =? 117) then
                                  match get_codepoint k1 k2 k3 k4 with
                                  | None => None
                                  | Some codepoint2 =>
                                      if (0xDC00 <=? codepoint2) && (codepoint2 <=? 0xDFFF)
                                      then add_all
                                             (codepoint_bytes
                                                (Z.shiftl codepoint1 10 + codepoint2
                                                 - 0x35FDC00))
                                             (scan_string l4)
                                      else None
                                  end
                                else None
                            | _ => None
                            end
                          else if (0xDC00 <=? codepoint1) && (codepoint1 <=? 0xDFFF) then None
                          else add_all (codepoint_bytes codepoint1) (scan_string l3)
                      end
                  | _ => None
                  end
                else None
            end
        end
      else
        match utf8_ranges c with
        | None => None
        | Some [] => add_all [c] (scan_string l1)
        | Some [r1] =>
            match l1 with
            | c1 :: l2 =>
                if in_byte_range r1 c1 then add_all [c; c1] (scan_string l2) else None
            | _ => None
            end
        | Some [r1; r2] =>
            match l1 with
            | c1 :: c2 :: l3 =>
                if in_byte_range r1 c1 && in_byte_range r2 c2
                then add_all [c; c1; c2] (scan_string l3) else None
            | _ => None
            end
        | Some (r1 :: r2 :: r3 :: _) =>
            match l1 with
            | c1 :: c2 :: c3 :: l4 =>
                if in_byte_range r1 c1 && in_byte_range r2 c2 && in_byte_range r3 c3
                then add_all [c; c1; c2; c3] (scan_string l4) else None
            | _ => None
            end
        end
  end.

(** * Numbers *)

(** The labels of the state machine. *)
Inductive number_state : Type :=
| scan_number_init
| scan_number_minus
| scan_number_zero
| scan_number_any1
| scan_number_decimal1
| scan_number_decimal2
| scan_number_exponent
| scan_number_sign
| scan_number_any2.

Inductive number_kind : Type := kind_unsigned | kind_integer | kind_float.

Inductive number_move : Type :=
| Goto (s : number_state)
| Done
| Bad.

Definition nonzero_digit (c : Ascii.ascii) : bool := (49 <=? byte_of c) && (byte_of c <=? 57).
Definition exponent_char (c : Ascii.ascii) : bool := (byte_of c =? 101) || (byte_of c =? 69).

(** The switch at each label. *)
Definition init_step (c : Ascii.ascii) : number_move :=
  if byte_of c =? 45 then Goto scan_number_minus
  else if byte_of c =? 48 then Goto scan_number_zero
  else if nonzero_digit c then Goto scan_number_any1 else Bad.

Definition minus_step (c : Ascii.ascii) : number_move :=
  if byte_of c =? 48 then Goto scan_number_zero
  else if nonzero_digit c then Goto scan_number_any1 else Bad.

Definition zero_step (c : Ascii.ascii) : number_move :=
  if byte_of c =? 46 then Goto scan_number_decimal1
  else if exponent_char c then Goto scan_number_exponent else Done.

Definition any1_step (c : Ascii.ascii) : number_move :=
  if is_digit c then Goto scan_number_any1
  else if byte_of c =? 46 then Goto scan_number_decimal1
  else if exponent_char c then Goto scan_number_exponent else Done.

Definition decimal1_step (c : Ascii.ascii) : number_move :=
  if is_digit c then Goto scan_number_decimal2 else Bad.

Definition decimal2_step (c : Ascii.ascii) : number_move :=
  if is_digit c then Goto scan_number_decimal2
  else if exponent_char c then Goto scan_number_exponent else Done.

Definition exponent_step (c : Ascii.ascii) : number_move :=
  if (byte_of c =? 43) || (byte_of c =? 45) then Goto scan_number_sign
  else if is_digit c then Goto scan_number_any2 else Bad.

Definition sign_step (c : Ascii.ascii) : number_move :=
  if is_digit c then Goto scan_number_any2 else Bad.

Definition any2_step (c : Ascii.ascii) : number_move :=
  if is_digit c then Goto scan_number_any2 else Done.

Definition number_step (s : number_state) : Ascii.ascii -> number_move :=
  match s with
  | scan_number_init => init_step
  | scan_number_minus => minus_step
  | scan_number_zero => zero_step
  | scan_number_any1 => any1_step
  | scan_number_decimal1 => decimal1_step
  | scan_number_decimal2 => decimal2_step
  | scan_number_exponent => exponent_step
  | scan_number_sign => sign_step
  | scan_number_any2 => any2_step
  end.

(** The move at the end of the input. *)
Definition number_eof (s : number_state) : number_move :=
  match s with
  | scan_number_zero | scan_number_any1 | scan_number_decimal2 | scan_number_any2 => Done
  | _ => Bad
  end.

(** The assignments of [number_type] at the labels. *)
Definition kind_at (s : number_state) (k : number_kind) : number_kind :=
  match s with
  | scan_number_minus => kind_integer
  | scan_number_decimal1 | scan_number_exponent => kind_float
  | _ => k
  end.

(** The walk: the number's kind, its characters and the input from the
    character that ended it. *)
Fixpoint scan_number_from (s : number_state) (k : number_kind) (l : input)
    : option (number_kind * list Ascii.ascii * input) :=
  match l with
  | [] => match number_eof s with Done => Some (k, [], []) | _ => None end
  | c :: rest =>
      match number_step s c with
      | Done => Some (k, [], l)
      | Bad => None
      | Goto s' =>
          match scan_number_from s' (kind_at s' k) rest with
          | Some (k', buf, rest') => Some (k', c :: buf, rest')
          | None => None
          end
      end
  end.

(** The value of an optionally signed run of digits. *)
Definition integer_value (l : list Ascii.ascii) : Z :=
  match l with
  | c :: rest => if byte_of c =? 45 then - digits_value rest else digits_value l
  | [] => 0
  end.

(** Integers first; out of the 64-bit range, and for every other form, a
    double. *)
Definition number_token (k : number_kind) (buf : list Ascii.ascii) : token_type :=
  let z := integer_value buf in
  match k with
  | kind_unsigned =>
      if z <? 18446744073709551616 then value_unsigned z else value_float (strtod buf)
  | kind_integer =>
      if (-9223372036854775808 <=? z) && (z <=? 9223372036854775807)
      then value_integer z else value_float (strtod buf)
  | kind_float => value_float (strtod buf)
  end.

Definition scan_number (l : input) : token_type * input :=
  match scan_number_from scan_number_init kind_unsigned l with
  | Some (k, buf, rest) => (number_token k buf, rest)
  | None => (parse_error, [])
  end.

(** * The scanner *)

Fixpoint skip_whitespace (l : input) : input :=
  match l with
  | c :: rest =>
      let b := byte_of c in
      if (b =? 32) || (b =? 9) || (b =? 10) || (b =? 13) then skip_whitespace rest else l
  | [] => []
  end.

(** The characters after the first of a literal. *)
Fixpoint literal_rest (expected l : list Ascii.ascii) : option input :=
  match expected with
  | [] => Some l
  | x :: expected' =>
      match l with
      | c :: rest => if byte_of c =? byte_of x then literal_rest expected' rest else None
      | [] => None
      end
  end.

Definition scan_literal (expected : list Ascii.ascii) (t : token_type) (l : input)
    : token_type * input :=
  match literal_rest expected l with
  | Some rest => (t, rest)
  | None => (parse_error, [])
  end.

(** [None] is a byte order mark that is not one. *)
Definition skip_bom (l : input) : option input :=
  match l with
  | c :: rest =>
      if byte_of c =? 0xEF then
        match rest with
        | c1 :: c2 :: rest' =>
            if (byte_of c1 =? 0xBB) && (byte_of c2 =? 0xBF) then Some rest' else None
        | _ => None
        end
      else Some l
  | [] => Some []
  end.

(** One token and the input after it. The input after an error is not looked
    at again. A zero byte ends the input. *)
Definition scan (l : input) : token_type * input :=
  let l := skip_whitespace l in
  match l with
  | [] => (end_of_input, [])
  | c :: rest =>
      let b := byte_of c in
      if b =? 91 then (begin_array, rest)
      else if b =? 93 then (end_array, rest)
      else if b =? 123 then (begin_object, rest)
      else if b =? 125 then (end_object, rest)
      else if b =? 58 then (name_separator, rest)
      else if b =? 44 then (value_separator, rest)
      else if b =? 116 then scan_literal (chars "rue") literal_true rest
      else if b =? 102 then scan_literal (chars "alse") literal_false rest
      else if b =? 110 then scan_literal (chars "ull") literal_null rest
      else if b =? 34 then
        match scan_string rest with
        | Some (s, rest') => (value_string s, rest')
        | None => (parse_error, [])
        end
      else if (b =? 45) || is_digit c then scan_number l
      else if b =? 0 then (end_of_input, rest)
      else (parse_error, [])
  end.

(** * The parser *)

(** The containers being filled: the library's stack of states and of
    references. An object frame holds the key its next value goes under. *)
Inductive frame : Type :=
| array_frame (elements : list json)
| object_frame (members : list (string * json)) (key : string).

(** Where the loop is: before the switch on the last token, or at the state
    evaluation with a finished value. *)
Inductive mode : Type :=
| at_token (t : token_type)
| at_value (v : json).

Notation parse_failed := (Throw (JsonError 101)).

(** A key, its colon and the first token of its value. *)
Definition scan_key (t : token_type) (l : input) : option (string * token_type * input) :=
  match t with
  | value_string k =>
      match scan l with
      | (name_separator, l) => let '(t, l) := scan l in Some (text k, t, l)
      | _ => None
      end
  | _ => None
  end.

(** One turn of the loop: where it goes on, or how it ends. *)
Inductive parse_move : Type :=
| Continue (stack : list frame) (m : mode) (l : input)
| Return (r : result (json * input)).

Definition begin_object_step (stack : list frame) (l : input) : parse_move :=
  let '(t, l) := scan l in
  match t with
  | end_object => Continue stack (at_value (JObject [])) l
  | _ =>
      match scan_key t l with
      | Some (k, t, l) => Continue (object_frame [] k :: stack) (at_token t) l
      | None => Return parse_failed
      end
  end.

Definition begin_array_step (stack : list frame) (l : input) : parse_move :=
  let '(t, l) := scan l in
  match t with
  | end_array => Continue stack (at_value (JArray [])) l
  | _ => Continue (array_frame [] :: stack) (at_token t) l
  end.

(** The switch on the last token. *)
Definition token_step (stack : list frame) (t : token_type) (l : input) : parse_move :=
  match t with
  | begin_object => begin_object_step stack l
  | begin_array => begin_array_step stack l
  | value_float d =>
      if negb (dbl_isfinite d) then Return (Throw (JsonError 406))
      else Continue stack (at_value (JFloat d)) l
  | literal_false => Continue stack (at_value (JBoolean false)) l
  | literal_null => Continue stack (at_value JNull) l
  | literal_true => Continue stack (at_value (JBoolean true)) l
  | value_integer z => Continue stack (at_value (JInteger z)) l
  | value_string s => Continue stack (at_value (JString (text s))) l
  | value_unsigned z => Continue stack (at_value (JUnsigned z)) l
  | parse_error | end_of_input | end_array | end_object | name_separator
  | value_separator => Return parse_failed
  end.

(** The state evaluation inside an array: a comma or the end. *)
Definition array_step (elements : list json) (stack : list frame) (v : json) (l : input)
    : parse_move :=
  let elements := elements ++ [v] in
  match scan l with
  | (value_separator, l) =>
      let '(t, l) := scan l in Continue (array_frame elements :: stack) (at_token t) l
  | (end_array, l) => Continue stack (at_value (JArray elements)) l
  | _ => Return parse_failed
  end.

(** And inside an object: a comma and the next key, or the end. *)
Definition object_step (members : list (string * json)) (key : string) (stack : list frame)
    (v : json) (l : input) : parse_move :=
  let members := obj_set key v members in
  match scan l with
  | (value_separator, l) =>
      let '(t, l) := scan l in
      match scan_key t l with
      | Some (k, t, l) => Continue (object_frame members k :: stack) (at_token t) l
      | None => Return parse_failed
      end
  | (end_object, l) => Continue stack (at_value (JObject members)) l
  | _ => Return parse_failed
  end.

Definition parse_step (stack : list frame) (m : mode) (l : input) : parse_move :=
  match m with
  | at_token t => token_step stack t l
  | at_value v =>
      match stack with
      | [] => Return (Ok (v, l))
      | array_frame elements :: stack' => array_step elements stack' v l
      | object_frame members key :: stack' => object_step members key stack' v l
      end
  end.

(** The loop; [None] is an exhausted fuel. *)
Fixpoint sax_parse_internal (fuel : nat) (stack : list frame) (m : mode) (l : input)
    : option (result (json * input)) :=
  match fuel with
  | O => None
  | S fuel' =>
      match parse_step stack m l with
      | Continue stack' m' l' => sax_parse_internal fuel' stack' m' l'
      | Return r => Some r
      end
  end.

(** Each turn consumes a character or turns a token into a value. *)
Definition parse_fuel (l : input) : nat := 2 * length l + 2.

(** [json::parse]: the value and nothing but the end of the input after it. *)
Definition parse_chars (l : input) : result json :=
  match skip_bom l with
  | None => parse_failed
  | Some l =>
      let '(t, l) := scan l in
      match sax_parse_internal (parse_fuel l) [] (at_token t) l with
      | None => Throw UndefinedRead
      | Some r =>
          '(v, l) <~ r ;
          match scan l with
          | (end_of_input, _) => Ok v
          | _ => parse_failed
          end
      end
  end.

Definition parse (s : string) : result json := parse_chars (chars s).

(** * Termination *)

Lemma skip_whitespace_length l : (length (skip_whitespace l) <= length l)%nat.
Proof. induction l as [|c l IH]; simpl; [lia|]. destruct (_ || _); simpl; lia. Qed.

Lemma scan_string_length fuel l s r :
  (length l <= fuel)%nat -> scan_string l = Some (s, r) -> (length r < length l)%nat.
Proof.
  revert l s r. induction fuel as [|fuel IH]; intros l s r Hl H.
  { destruct l; simpl in *; [discriminate|lia]. }
  assert (forall cs l' s' r', add_all cs (scan_string l') = Some (s', r') ->
    (length l' <= fuel)%nat -> (length r' < length l')%nat) as Hadd.
  { intros cs l' s' r' Ha Hle. destruct (scan_string l') as [[s0 r0]|] eqn:E; [|discriminate].
    simpl in Ha. injection Ha as _ <-. eapply IH; eauto. }
  destruct l as [|c l1]; [discriminate|]. cbn -[utf8_ranges get_codepoint simple_escape] in H, Hl.
  repeat match type of H with
  | match ?x with _ => _ end = _ => destruct x; try discriminate
  | (if ?b then _ else _) = _ => destruct b; try discriminate
  end;
  first [ injection H as _ <-; simpl; lia
        | apply Hadd in H; simpl in *; lia ].
Qed.

Lemma scan_number_from_length s k l k' buf r :
  scan_number_from s k l = Some (k', buf, r) -> l = buf ++ r.
Proof.
  revert s k k' buf r. induction l as [|c l IH]; intros s k k' buf r; simpl.
  - destruct (number_eof s); [discriminate| |discriminate]. now intros [= <- <- <-].
  - destruct (number_step s c) as [s'| |]; [|now intros [= <- <- <-]|discriminate].
    destruct (scan_number_from s' _ l) as [[[k0 b0] r0]|] eqn:E; [|discriminate].
    intros [= <- <- <-]. now rewrite (IH _ _ _ _ _ E).
Qed.

Lemma literal_rest_length x l r :
  literal_rest x l = Some r -> (length r <= length l)%nat.
Proof.
  revert l. induction x as [|a x IH]; intros l; simpl; [intros [= <-]; lia|].
  destruct l as [|c l]; [discriminate|]. destruct (_ =? _); [|discriminate].
  intros H%IH. simpl. lia.
Qed.

(** A token that can continue a text was read from at least one character. *)
Definition final_token (t : token_type) : bool :=
  match t with parse_error | end_of_input => true | _ => false end.

Lemma scan_length l t r :
  scan l = (t, r) -> (length r <= length l)%nat /\
  (final_token t = false -> (length r < length l)%nat).
Proof.
  unfold scan. pose proof (skip_whitespace_length l) as Hw.
  destruct (skip_whitespace l) as [|c rest]; simpl in Hw.
  { intros [= <- <-]. simpl. split; [lia|discriminate]. }
  repeat match goal with
  | |- (if ?b then _ else _) = _ -> _ => destruct b
  end; unfold scan_literal, scan_number;
  repeat match goal with
  | |- context [match literal_rest ?a ?b with _ => _ end] =>
      let E := fresh "E" in destruct (literal_rest a b) eqn:E;
      [apply literal_rest_length in E|]
  end;
  try (intros [= <- <-]; simpl; split; [lia|intros; first [discriminate|lia]]; fail).
  - destruct (scan_string rest) as [[s r0]|] eqn:E; intros [= <- <-]; simpl; [|split; [lia|discriminate]].
    apply (scan_string_length _ _ _ _ (Nat.le_refl _)) in E. split; lia.
  - destruct (scan_number_from _ _ _) as [[[k buf] r0]|] eqn:E; intros [= <- <-];
      [|simpl; split; [lia|discriminate]].
    pose proof (scan_number_from_length _ _ _ _ _ _ E) as Hl.
    destruct buf as [|b buf].
    + exfalso. cbn [scan_number_from] in E. destruct (number_step scan_number_init c) eqn:Es; try discriminate.
      * destruct (scan_number_from s _ rest) as [[[? ?] ?]|] in E; discriminate.
      * unfold number_step, init_step in Es. destruct (_ =? _) in Es; [discriminate|].
        destruct (_ =? _) in Es; [discriminate|]. destruct (nonzero_digit c) in Es; discriminate.
    + apply (f_equal length) in Hl. rewrite length_app in Hl. simpl in Hl. split; lia.
Qed.

Lemma scan_key_length t l k t' l' :
  scan_key t l = Some (k, t', l') ->
  (length l' <= length l - 1)%nat /\ (0 < length l)%nat.
Proof.
  unfold scan_key. destruct t; try discriminate.
  destruct (scan l) as [t1 l1] eqn:E1. destruct t1; try discriminate.
  destruct (scan l1) as [t2 l2] eqn:E2. intros [= <- <- <-].
  apply scan_length in E1 as [_ E1]. apply scan_length in E2 as [E2 _].
  specialize (E1 eq_refl). lia.
Qed.

(** The measure that every turn of the loop decreases. *)
Definition turns_left (m : mode) (l : input) : nat :=
  match m with
  | at_token t => if final_token t then 1 else 2 * length l + 2
  | at_value _ => 2 * length l + 1
  end.

Lemma turns_left_token t l : (turns_left (at_token t) l <= 2 * length l + 2)%nat.
Proof. simpl. destruct (final_token t); lia. Qed.

(** What the parser can do: return, or report a syntax error or an overflow. *)
Definition parse_outcome {A} (r : result A) : Prop :=
  (exists v, r = Ok v) \/ r = Throw (JsonError 101) \/ r = Throw (JsonError 406).

Lemma parse_outcome_ok {A} (v : A) : parse_outcome (Ok v).
Proof. left. eauto. Qed.
Lemma parse_outcome_101 {A} : parse_outcome (Throw (JsonError 101) : result A).
Proof. right. now left. Qed.
Lemma parse_outcome_406 {A} : parse_outcome (Throw (JsonError 406) : result A).
Proof. right. now right. Qed.
#[export] Hint Resolve parse_outcome_ok parse_outcome_101 parse_outcome_406 : engine.

Ltac scan_case :=
  match goal with
  | |- context [scan ?l] =>
      let E := fresh "E" in let t := fresh "t" in let r := fresh "r" in
      destruct (scan l) as [t r] eqn:E; apply scan_length in E as [? ?]
  | |- context [scan_key ?t ?l] =>
      let E := fresh "E" in
      destruct (scan_key t l) as [[[? ?] ?]|] eqn:E;
      [apply scan_key_length in E as [? ?]|]
  end.

(** What a turn may do: go on with fewer turns left, or end. *)
Definition move_ok (n : nat) (mv : parse_move) : Prop :=
  match mv with
  | Continue _ m l => (turns_left m l < n)%nat
  | Return r => parse_outcome r
  end.

Lemma continue_token n t l stack :
  (2 * length l + 2 < n)%nat -> move_ok n (Continue stack (at_token t) l).
Proof. intros H. pose proof (turns_left_token t l). unfold move_ok. lia. Qed.

Ltac move_case :=
  first [ apply continue_token; lia
        | cbn [move_ok turns_left]; lia
        | cbn [move_ok]; auto with engine ].

Lemma token_step_ok stack t l : move_ok (turns_left (at_token t) l) (token_step stack t l).
Proof.
  destruct t; cbn [turns_left final_token token_step]; try move_case.
  - destruct (negb _); move_case.
  - unfold begin_array_step. scan_case. destruct t; cbn [final_token] in *;
      try (specialize (H0 eq_refl)); cbn [move_ok turns_left final_token]; lia.
  - unfold begin_object_step. scan_case. destruct t; try (scan_case; move_case); move_case.
Qed.

Lemma parse_step_ok stack m l : move_ok (turns_left m l) (parse_step stack m l).
Proof.
  destruct m as [t|v]; [apply token_step_ok|]. cbn [turns_left parse_step].
  destruct stack as [|[elements|members key] stack']; [move_case| |];
    unfold array_step, object_step; scan_case; destruct t; try move_case; specialize (H0 eq_refl).
  - move_case.
  - scan_case. move_case.
  - move_case.
  - scan_case. scan_case; move_case.
Qed.

(** Enough fuel always gives a result. *)
Lemma sax_parse_internal_total fuel stack m l :
  (turns_left m l <= fuel)%nat ->
  exists r, sax_parse_internal fuel stack m l = Some r /\ parse_outcome r.
Proof.
  revert stack m l. induction fuel as [|fuel IH]; intros stack m l Hf.
  { destruct m as [t|v]; simpl in Hf; [destruct (final_token t)|]; lia. }
  cbn [sax_parse_internal]. pose proof (parse_step_ok stack m l) as Hm.
  destruct (parse_step stack m l) as [stack' m' l'|r]; [|now exists r].
  apply IH. cbn [move_ok] in Hm. lia.
Qed.

(** Fuel beyond what is needed changes nothing. *)
Lemma sax_parse_internal_more fuel fuel' stack m l r :
  (fuel <= fuel')%nat -> sax_parse_internal fuel stack m l = Some r ->
  sax_parse_internal fuel' stack m l = Some r.
Proof.
  revert fuel' stack m l r. induction fuel as [|fuel IH]; intros fuel' stack m l r Hle; [discriminate|].
  destruct fuel' as [|fuel']; [lia|]. apply le_S_n in Hle. cbn [sax_parse_internal].
  destruct (parse_step stack m l); [now apply IH|done].
Qed.

(** ** Parsing terminates *)

(** C24: parsing terminates on every text: [json::parse] returns a value, throws a
    syntax error (101) or throws a number overflow (406), and nothing else; the
    loop's fuel never runs out. *)
Theorem parse_chars_outcome l : parse_outcome (parse_chars l).
Proof.
  unfold parse_chars. destruct (skip_bom l) as [l0|]; [|auto with engine].
  destruct (scan l0) as [t l1] eqn:E. apply scan_length in E as [Hl _].
  destruct (sax_parse_internal_total (parse_fuel l1) [] (at_token t) l1) as (r & -> & Hr).
  { pose proof (turns_left_token t l1). unfold parse_fuel. lia. }
  destruct Hr as [[[v l2] ->]|[->| ->]]; simpl; auto with engine.
  destruct (scan l2) as [[] ?]; auto with engine.
Qed.
