(* ===== verification/JsonRoundTrip.v ===== *)
(** Printing then parsing a JSON value: what [dump] writes, [parse] reads back,
    up to the one difference the reader makes (a non-negative integer is read
    as unsigned, and a value that is not a finite number as null). *)
From S2P Require Import Prelude Double Json JsonFloat JsonDump JsonParse.
From Stdlib Require Import SpecFloat.

(** * Readable values *)

Definition dbl_same (a b : double) : bool :=
  match a, b with
  | S754_zero s, S754_zero s' => Bool.eqb s s'
  | S754_infinity s, S754_infinity s' => Bool.eqb s s'
  | S754_nan, S754_nan => true
  | S754_finite s m ex, S754_finite s' m' ex' => Bool.eqb s s' && Pos.eqb m m' && Z.eqb ex ex'
  | _, _ => false
  end.

(** The printed digits of [d] are read back as [d]. *)
Definition float_round_trips (d : double) : bool :=
  match scan (dump_float d) with
  | (value_float d', []) => dbl_same d' d && dbl_isfinite d
  | _ => false
  end.

(** The values the round trip covers: integers of their width, valid UTF-8,
    objects in key order and doubles whose digits read back. *)
Fixpoint json_ok (j : json) : bool :=
  match j with
  | JNull | JBoolean _ => true
  | JInteger z => (-9223372036854775808 <=? z) && (z <=? 9223372036854775807)
  | JUnsigned z => (0 <=? z) && (z <? 18446744073709551616)
  | JFloat d => negb (dbl_isfinite d) || float_round_trips d
  | JString s => utf8_valid (chars s)
  | JArray l => forallb json_ok l
  | JObject m =>
      sorted_members m && forallb (fun kv => utf8_valid (chars kv.1) && json_ok kv.2) m
  end.

(** What is read back. *)
Fixpoint canon (j : json) : json :=
  match j with
  | JInteger z => if 0 <=? z then JUnsigned z else JInteger z
  | JFloat d => if dbl_isfinite d then JFloat d else JNull
  | JArray l => JArray (map canon l)
  | JObject m => JObject (map (fun kv => (kv.1, canon kv.2)) m)
  | _ => j
  end.

(** * Strings *)

(** The ranges still expected, by automaton state. *)
Definition pending_ranges (s : Z) : list (Z * Z) :=
  if s =? 2 then [(0x80, 0xBF)]
  else if s =? 3 then [(0x80, 0xBF); (0x80, 0xBF)]
  else if s =? 4 then [(0xA0, 0xBF); (0x80, 0xBF)]
  else if s =? 5 then [(0x80, 0x9F); (0x80, 0xBF)]
  else if s =? 6 then [(0x90, 0xBF); (0x80, 0xBF); (0x80, 0xBF)]
  else if s =? 7 then [(0x80, 0xBF); (0x80, 0xBF); (0x80, 0xBF)]
  else if s =? 8 then [(0x80, 0x8F); (0x80, 0xBF); (0x80, 0xBF)]
  else [].

(** The state that expects the ranges after the first. *)
Definition next_state (s : Z) : Z :=
  match pending_ranges s with [_; _; _] => 3 | [_; _] => 2 | _ => 0 end.

Definition same_ranges (a b : list (Z * Z)) : bool := bool_decide (a = b).

Definition lead_ranges_ok (b : Z) : bool :=
  (b <? 128) || (utf8_step 0 b =? 1) ||
  (bool_decide (utf8_step 0 b ∈ tail live_states) &&
   match utf8_ranges (char_of b) with
   | Some rs => same_ranges rs (pending_ranges (utf8_step 0 b))
   | None => false
   end).

Definition pending_ok (s b : Z) : bool :=
  match pending_ranges s with
  | r :: _ =>
      if (r.1 <=? b) && (b <=? r.2) then (utf8_step s b =? next_state s) && (128 <=? b)
      else utf8_step s b =? 1
  | [] => false
  end.

Lemma all_lead_ranges_ok : all_bytes lead_ranges_ok = true.
Proof. vm_compute. reflexivity. Qed.

Lemma all_pending_ok : forallb (fun s => all_bytes (pending_ok s)) (tail live_states) = true.
Proof. vm_compute. reflexivity. Qed.

(** In an unfinished state, a text that ends valid continues in the range. *)
Lemma utf8_run_pending s l :
  s ∈ tail live_states -> utf8_run s l = 0 ->
  exists r c l', hd_error (pending_ranges s) = Some r /\ l = c :: l' /\
    in_byte_range r c = true /\ 128 <= byte_of c /\ utf8_run (next_state s) l' = 0.
Proof.
  intros Hs H. pose proof all_pending_ok as Hok. rewrite forallb_forall in Hok.
  assert (s <> 0) as H0. { intros ->. apply (bool_decide_eq_true_2 _) in Hs. discriminate Hs. }
  apply list_elem_of_In, Hok in Hs. destruct l as [|c l']; [done|].
  apply (all_bytes_spec _ c) in Hs. unfold pending_ok in Hs.
  destruct (pending_ranges s) as [|r rs]; [discriminate|].
  exists r, c, l'. unfold utf8_run in *. simpl in *. unfold in_byte_range.
  destruct (_ && _); zbool.
  - destruct Hs as [Hs ?]. rewrite Hs in H. done.
  - rewrite Hs in H. fold (utf8_run 1 l') in H. rewrite utf8_run_reject in H. discriminate.
Qed.

(** A valid text starts with an ASCII byte or with one whole sequence. *)
Lemma utf8_run_cons c l :
  utf8_run 0 (c :: l) = 0 ->
  (byte_of c < 128 /\ utf8_run 0 l = 0) \/
  (128 <= byte_of c /\ exists rs cs l', utf8_ranges c = Some rs /\ (1 <= length rs <= 3)%nat /\
     l = cs ++ l' /\ Forall2 (fun r c => in_byte_range r c = true) rs cs /\
     Forall (fun c => 128 <= byte_of c) cs /\ utf8_run 0 l' = 0).
Proof.
  intros H. unfold utf8_run in H. simpl in H. fold (utf8_run (utf8_step 0 (byte_of c)) l) in H.
  pose proof (decode_lead 0 c) as Hl. pose proof (decode_state 0 0 (byte_of c)) as Hd.
  destruct (decode 0 0 (byte_of c)) as [s cp]. simpl in Hd. subst s.
  destruct Hl as [Hl|[(Hl & _ & Hb)|(Hl & _ & Hb)]].
  { rewrite Hl, utf8_run_reject in H. discriminate. }
  { left. rewrite Hl in H. done. }
  right. split; [done|]. pose proof (all_bytes_spec _ c all_lead_ranges_ok) as Hr.
  unfold lead_ranges_ok in Hr. rewrite char_of_byte_of in Hr.
  set (s := utf8_step 0 (byte_of c)) in *. clearbody s.
  rewrite (proj2 (Z.ltb_ge _ _) Hb) in Hr. simpl in Hr.
  destruct (Z.eqb_spec s 1) as [->|_]; [rewrite utf8_run_reject in H; discriminate|].
  simpl in Hr. apply andb_true_iff in Hr as [Hs Hr]. apply bool_decide_eq_true in Hs.
  destruct (utf8_ranges c) as [rs|]; [|discriminate]. apply bool_decide_eq_true in Hr. subst rs.
  exists (pending_ranges s). clear Hb Hl.
  assert (2 ∈ tail live_states /\ 3 ∈ tail live_states) as [H2 H3] by (split; set_solver).
  assert (forall l, utf8_run 2 l = 0 -> exists c1 l', l = c1 :: l' /\
    in_byte_range (0x80, 0xBF) c1 = true /\ 128 <= byte_of c1 /\ utf8_run 0 l' = 0) as Hr2.
  { intros l0 Hl0. apply (utf8_run_pending _ _ H2) in Hl0 as (r & c1 & l' & [= <-] & -> & ? & ? & ?).
    exists c1, l'. done. }
  assert (forall l, utf8_run 3 l = 0 -> exists c1 c2 l', l = c1 :: c2 :: l' /\
    in_byte_range (0x80, 0xBF) c1 = true /\ in_byte_range (0x80, 0xBF) c2 = true /\
    128 <= byte_of c1 /\ 128 <= byte_of c2 /\ utf8_run 0 l' = 0) as Hr3.
  { intros l0 Hl0. apply (utf8_run_pending _ _ H3) in Hl0 as (r & c1 & l' & [= <-] & -> & ? & ? & Hl0).
    apply Hr2 in Hl0 as (c2 & l'' & -> & ? & ? & ?). exists c1, c2, l''. done. }
  pose proof (utf8_run_pending s l Hs H) as (r & c1 & l1 & Hhd & -> & Hin & Hb1 & Hrun).
  unfold next_state in Hrun.
  unfold live_states in Hs. cbn in Hs.
  repeat (apply elem_of_cons in Hs as [->|Hs]); [..|now apply elem_of_nil in Hs];
    cbn in Hhd, Hrun |- *; injection Hhd as <-;
    try (apply Hr2 in Hrun as (c2 & l2 & -> & ? & ? & Hrun));
    try (apply Hr3 in Hrun as (c2 & c3 & l2 & -> & ? & ? & ? & ? & Hrun)).
  - exists [c1], l1. repeat split; auto.
  - exists [c1; c2], l2. repeat split; auto 6.
  - exists [c1; c2], l2. repeat split; auto 6.
  - exists [c1; c2], l2. repeat split; auto 6.
  - exists [c1; c2; c3], l2. repeat split; auto 8.
  - exists [c1; c2; c3], l2. repeat split; auto 8.
  - exists [c1; c2; c3], l2. repeat split; auto 8.
Qed.

Lemma escape_byte_high c : 128 <= byte_of c -> escape_byte c = [c].
Proof.
  intros H. unfold escape_byte.
  repeat match goal with |- context [if byte_of c =? ?n then _ else _] =>
    rewrite (proj2 (Z.eqb_neq (byte_of c) n)) by lia end.
  now rewrite (proj2 (Z.leb_gt (byte_of c) 31)) by lia.
Qed.

Lemma escape_text_high cs : Forall (fun c => 128 <= byte_of c) cs -> escape_text cs = cs.
Proof. induction 1 as [|c cs Hc _ IH]; [done|]. simpl. now rewrite escape_byte_high, IH. Qed.

(** An ASCII byte's escape is read back as the byte. *)
Lemma scan_string_ascii c rest :
  byte_of c < 128 -> scan_string (escape_byte c ++ rest) = add_all [c] (scan_string rest).
Proof.
  destruct c as [[] [] [] [] [] [] [] []]; intros H; try reflexivity; vm_compute in H; discriminate.
Qed.

Lemma scan_string_high c rs cs rest :
  128 <= byte_of c -> utf8_ranges c = Some rs -> (1 <= length rs <= 3)%nat ->
  Forall2 (fun r c => in_byte_range r c = true) rs cs ->
  scan_string (c :: cs ++ rest) = add_all (c :: cs) (scan_string rest).
Proof.
  intros Hb Hr Hl Hf. cbn [scan_string].
  rewrite (proj2 (Z.eqb_neq (byte_of c) 34)), (proj2 (Z.eqb_neq (byte_of c) 92)), Hr by lia.
  destruct rs as [|r1 [|r2 [|r3 [|r4 rs]]]]; simpl in Hl; try lia;
    repeat match goal with H : Forall2 _ (_ :: _) _ |- _ => inversion H; clear H; subst
                         | H : Forall2 _ [] _ |- _ => inversion H; clear H; subst end;
    cbn [app]; repeat match goal with H : in_byte_range _ _ = true |- _ => rewrite H; clear H end;
    reflexivity.
Qed.

Lemma scan_string_escape_text l tail :
  utf8_valid l = true -> scan_string (escape_text l ++ quote_char :: tail) = Some (l, tail).
Proof.
  unfold utf8_valid, UTF8_ACCEPT. rewrite Z.eqb_eq.
  remember (length l) as n eqn:Hn. assert (length l <= n)%nat as Hle by lia. clear Hn.
  revert l Hle. induction n as [|n IH]; intros l Hle Hv.
  { destruct l; [reflexivity|simpl in Hle; lia]. }
  destruct l as [|c l]; [reflexivity|]. simpl in Hle.
  destruct (utf8_run_cons _ _ Hv) as [[Hb Hl]|(Hb & rs & cs & l' & Hr & Hlen & -> & Hf & Hhi & Hl)].
  - simpl. rewrite <- app_assoc, scan_string_ascii by done. rewrite IH by (done || lia). done.
  - rewrite length_app in Hle.
    replace (escape_text (c :: cs ++ l')) with (c :: cs ++ escape_text l').
    2:{ unfold escape_text. cbn [flat_map]. rewrite flat_map_app. fold (escape_text cs).
        rewrite escape_byte_high, (escape_text_high cs) by done. done. }
    cbn [app]. rewrite <- app_assoc, (scan_string_high _ rs) by done.
    rewrite IH by (done || lia). done.
Qed.

(** * Numbers *)

(** What may follow a value inside a compact document. *)
Definition value_tail (tail : list Ascii.ascii) : bool :=
  match tail with
  | [] => true
  | c :: _ => (byte_of c =? 44) || (byte_of c =? 93) || (byte_of c =? 125)
  end.

Lemma number_step_tail s c tail :
  value_tail (c :: tail) = true -> number_eof s = Done -> number_step s c = Done.
Proof.
  simpl. intros H Hs. zbool. unfold number_step, is_digit.
  destruct s; try discriminate;
    unfold number_step, zero_step, any1_step, decimal2_step, any2_step, exponent_char, is_digit;
    assert (byte_of c = 44 \/ byte_of c = 93 \/ byte_of c = 125) as [-> |[-> | ->]] by lia;
    reflexivity.
Qed.

(** A number that ends with the text also ends before a separator. *)
Lemma scan_number_from_tail s k l k' buf tail :
  value_tail tail = true -> scan_number_from s k l = Some (k', buf, []) ->
  scan_number_from s k (l ++ tail) = Some (k', buf, tail).
Proof.
  intros Ht. revert s k k' buf. induction l as [|c l IH]; intros s k k' buf; simpl.
  - destruct (number_eof s) eqn:E; try discriminate. intros [= <- <-].
    destruct tail as [|c tail]; simpl; [now rewrite E|].
    now rewrite (number_step_tail s c tail).
  - destruct (number_step s c) as [s'| |]; [|discriminate|discriminate].
    destruct (scan_number_from s' _ l) as [[[k0 b0] r0]|] eqn:E; [|discriminate].
    intros [= <- <- ->]. now rewrite (IH _ _ _ _ E).
Qed.

Lemma scan_number_tail l t tail :
  value_tail tail = true -> final_token t = false -> scan_number l = (t, []) ->
  scan_number (l ++ tail) = (t, tail).
Proof.
  intros Ht Hf. unfold scan_number.
  destruct (scan_number_from _ _ l) as [[[k buf] r]|] eqn:E; intros Hs;
    [|injection Hs as <-; discriminate].
  injection Hs as <- ->. now rewrite (scan_number_from_tail _ _ _ _ _ _ Ht E).
Qed.

Lemma scan_number_all_digits k ds :
  is_digits ds -> scan_number_from scan_number_any1 k ds = Some (k, ds, []).
Proof.
  induction 1 as [|c ds Hc _ IH]; simpl; [done|]. unfold number_step, any1_step. rewrite Hc. cbn [kind_at]. now rewrite IH.
Qed.

Lemma scan_number_digits c ds k :
  is_digits (c :: ds) -> 49 <= byte_of c ->
  (forall s, s = scan_number_init \/ s = scan_number_minus ->
   scan_number_from s k (c :: ds) = Some (k, c :: ds, [])).
Proof.
  intros Hd Hc s Hs. inversion Hd as [|? ? H1 H2]; subst. unfold is_digit in H1. zbool.
  assert (number_step s c = Goto scan_number_any1) as E.
  { destruct Hs as [-> | ->]; unfold number_step, init_step, minus_step, nonzero_digit;
      rewrite ?(proj2 (Z.eqb_neq (byte_of c) 45)), (proj2 (Z.eqb_neq (byte_of c) 48)) by lia;
      rewrite (proj2 (Z.leb_le 49 (byte_of c))), (proj2 (Z.leb_le (byte_of c) 57)) by lia; done. }
  cbn [scan_number_from]. rewrite E. simpl. now rewrite scan_number_all_digits.
Qed.

Lemma head_is_not_minus c ds : is_digits (c :: ds) -> byte_of c =? 45 = false.
Proof.
  intros H. inversion H as [|? ? H1 _]; subst. unfold is_digit in H1. zbool. lia.
Qed.

(** Every printed integer is read back, as unsigned where it is not negative. *)
Lemma scan_number_integer x t tail :
  - 2 ^ 63 <= x < 2 ^ 64 -> dump_integer x = Ok t -> value_tail tail = true ->
  scan_number (t ++ tail) = (if 0 <=? x then value_unsigned x else value_integer x, tail).
Proof.
  intros Hx Ht Htail. apply scan_number_tail; [done|now destruct (0 <=? x)|].
  destruct (dump_integer_prints x Hx) as [[-> Hd]|[(Hp & ds & Hd & H1)|(Hn & ds & Hd & H1)]];
    rewrite Hd in Ht; injection Ht as <-.
  - reflexivity.
  - destruct H1 as (Hds & Hv & _ & c & tl & -> & Hc).
    unfold scan_number. rewrite (scan_number_digits c tl _ Hds Hc) by auto.
    unfold number_token, integer_value. rewrite (head_is_not_minus c tl Hds), Hv.
    rewrite (proj2 (Z.leb_le 0 x)), (proj2 (Z.ltb_lt x _)) by lia. done.
  - destruct H1 as (Hds & Hv & _ & c & tl & -> & Hc).
    unfold scan_number.
    assert (scan_number_from scan_number_init kind_unsigned (char_of 45 :: c :: tl) =
      match scan_number_from scan_number_minus kind_integer (c :: tl) with
      | Some (k', buf, r) => Some (k', char_of 45 :: buf, r)
      | None => None
      end) as -> by reflexivity.
    rewrite (scan_number_digits c tl _ Hds Hc) by auto.
    unfold number_token, integer_value. change (byte_of (char_of 45) =? 45) with true. cbv iota.
    rewrite Hv, Z.opp_involutive, (proj2 (Z.leb_gt 0 x)) by lia.
    rewrite (proj2 (Z.leb_le _ x)), (proj2 (Z.leb_le x _)) by lia. done.
Qed.

Lemma dump_integer_head x t :
  - 2 ^ 63 <= x < 2 ^ 64 -> dump_integer x = Ok t ->
  exists c tl, t = c :: tl /\ (byte_of c = 45 \/ is_digit c = true).
Proof.
  intros Hx Ht. destruct (dump_integer_prints x Hx) as [[-> Hd]|[(Hp & ds & Hd & H1)|(Hn & ds & Hd & H1)]];
    rewrite Hd in Ht; injection Ht as <-.
  - eexists _, _. split; [done|]. right. reflexivity.
  - destruct H1 as (Hds & _ & _ & c & tl & -> & _). inversion Hds; subst. eauto 6.
  - eexists _, _. split; [done|]. left. reflexivity.
Qed.

Lemma is_digit_range c : is_digit c = true -> 48 <= byte_of c <= 57.
Proof. unfold is_digit. intros. zbool. lia. Qed.

(** The scanner hands a text that starts like a number to the number scanner. *)
Lemma scan_number_start c l :
  byte_of c = 45 \/ is_digit c = true -> scan (c :: l) = scan_number (c :: l).
Proof.
  intros H. unfold scan. cbn [skip_whitespace].
  assert (byte_of c = 45 \/ 48 <= byte_of c <= 57) as Hr.
  { destruct H as [H|H%is_digit_range]; [left|right]; lia. }
  repeat match goal with |- context [byte_of c =? ?n] =>
    first [ rewrite (proj2 (Z.eqb_neq (byte_of c) n)) by lia
          | lazymatch n with 45 => fail end ]
  end; cbn [orb];
  repeat match goal with |- context [byte_of c =? ?n] =>
    first [ rewrite (proj2 (Z.eqb_neq (byte_of c) n)) by lia
          | lazymatch n with 45 => fail end ]
  end; cbn [orb].
  replace ((byte_of c =? 45) || is_digit c) with true; [done|].
  symmetry. apply orb_true_iff. destruct H as [H|H]; [left; lia|now right].
Qed.

Lemma scan_dumped_integer x t tail :
  - 2 ^ 63 <= x < 2 ^ 64 -> dump_integer x = Ok t -> value_tail tail = true ->
  scan (t ++ tail) = (if 0 <=? x then value_unsigned x else value_integer x, tail).
Proof.
  intros Hx Ht Htail. destruct (dump_integer_head x t Hx Ht) as (c & tl & -> & Hc).
  cbn [app]. rewrite scan_number_start by done. now apply (scan_number_integer x (c :: tl)).
Qed.

Lemma dbl_same_eq a b : dbl_same a b = true -> a = b.
Proof.
  destruct a, b; simpl; try discriminate; rewrite ?andb_true_iff, ?Bool.eqb_true_iff, ?Pos.eqb_eq, ?Z.eqb_eq;
    intros; destruct_and?; now subst.
Qed.

Lemma scan_whitespace l : scan (skip_whitespace l) = scan l.
Proof.
  unfold scan. f_equal. assert (skip_whitespace (skip_whitespace l) = skip_whitespace l) as ->; [|done].
  induction l as [|c l IH]; [done|]. simpl. destruct (_ || _) eqn:E; [done|]. simpl. now rewrite E.
Qed.

Lemma skip_whitespace_app l tail :
  skip_whitespace l <> [] -> skip_whitespace (l ++ tail) = skip_whitespace l ++ tail.
Proof.
  induction l as [|c l IH]; [done|]. simpl. destruct (_ || _); [done|]. done.
Qed.

(** A double that reads back alone reads back before a separator. *)
Lemma scan_float_tail l d tail :
  value_tail tail = true -> scan l = (value_float d, []) -> scan (l ++ tail) = (value_float d, tail).
Proof.
  intros Ht. rewrite <- scan_whitespace, <- (scan_whitespace (l ++ tail)).
  destruct (skip_whitespace l) as [|c r] eqn:E; [discriminate|].
  rewrite skip_whitespace_app by (now rewrite E). rewrite E. cbn [app].
  assert (skip_whitespace (c :: r) = c :: r) as Ew.
  { rewrite <- E. clear. induction l as [|c l IH]; [done|]. simpl.
    destruct (_ || _) eqn:E; [done|]. simpl. now rewrite E. }
  assert (skip_whitespace (c :: r ++ tail) = c :: r ++ tail) as Ew2.
  { cbn [skip_whitespace] in *. destruct (_ || _); [|done].
    exfalso. apply (f_equal length) in Ew. pose proof (skip_whitespace_length r). simpl in Ew. lia. }
  unfold scan. rewrite Ew, Ew2.
  repeat match goal with
  | |- (if ?b then _ else _) = _ -> _ => destruct b
  end; unfold scan_literal; try (destruct (literal_rest _ _)); try discriminate.
  - destruct (scan_string r) as [[? ?]|]; discriminate.
  - intros H. now apply (scan_number_tail (c :: r)).
Qed.

(** * Documents *)

(** [t] is read as [v], before any tail a document puts after a value: the
    scanner finds a first token, and the parser loop reaches the value. *)
Definition reads (t : list Ascii.ascii) (v : json) : Prop :=
  forall tail, value_tail tail = true ->
  exists tok l n, scan (t ++ tail) = (tok, l) /\ tok <> end_array /\
    forall fuel stack,
      sax_parse_internal (n + fuel) stack (at_token tok) l =
      sax_parse_internal fuel stack (at_value v) tail.

Lemma reads_scalar t v :
  (forall tail, value_tail tail = true -> exists tok, scan (t ++ tail) = (tok, tail) /\
     tok <> end_array /\
     forall fuel stack, sax_parse_internal (S fuel) stack (at_token tok) tail =
                        sax_parse_internal fuel stack (at_value v) tail) ->
  reads t v.
Proof.
  intros H tail Ht. destruct (H tail Ht) as (tok & Hs & Hne & Hrun). exists tok, tail, 1%nat. auto.
Qed.

Lemma reads_integer x t v :
  - 2 ^ 63 <= x < 2 ^ 64 -> dump_integer x = Ok t ->
  v = (if 0 <=? x then JUnsigned x else JInteger x) -> reads t v.
Proof.
  intros Hx Ht ->. apply reads_scalar. intros tail Htail. eexists.
  split; [now apply scan_dumped_integer|]. destruct (0 <=? x); split; done.
Qed.

Lemma reads_literal (t : list Ascii.ascii) v tok :
  (forall tail, scan (t ++ tail) = (tok, tail)) -> tok <> end_array ->
  (forall fuel stack tail, sax_parse_internal (S fuel) stack (at_token tok) tail =
                           sax_parse_internal fuel stack (at_value v) tail) ->
  reads t v.
Proof. intros H1 H2 H3. apply reads_scalar. intros tail _. exists tok. auto. Qed.

Lemma scan_quoted s tail :
  utf8_valid s = true ->
  scan (quote_char :: escape_text s ++ quote_char :: tail) = (value_string s, tail).
Proof.
  intros Hs. change (scan (quote_char :: escape_text s ++ quote_char :: tail)) with
    (match scan_string (escape_text s ++ quote_char :: tail) with
     | Some (s, rest') => (value_string s, rest')
     | None => (parse_error, [])
     end).
  now rewrite scan_string_escape_text.
Qed.

(** Texts joined by commas. *)
Fixpoint join_commas (ts : list (list Ascii.ascii)) : list Ascii.ascii :=
  match ts with
  | [] => []
  | t :: rest => match rest with [] => t | _ => t ++ [char_of 44] ++ join_commas rest end
  end.

Lemma join_commas_cons t t' ts tail :
  join_commas (t :: t' :: ts) ++ tail = t ++ char_of 44 :: (join_commas (t' :: ts) ++ tail).
Proof. simpl. now rewrite <- app_assoc. Qed.

Lemma reads_elements ts vs tail :
  Forall2 reads ts vs -> ts <> [] ->
  exists tok l n, scan (join_commas ts ++ char_of 93 :: tail) = (tok, l) /\
    tok <> end_array /\
    forall fuel stack acc,
      sax_parse_internal (n + fuel) (array_frame acc :: stack) (at_token tok) l =
      sax_parse_internal fuel stack (at_value (JArray (acc ++ vs))) tail.
Proof.
  induction 1 as [|t v ts vs Ht Hts IH]; [done|]. intros _. destruct ts as [|t' ts].
  - inversion Hts; subst.
    destruct (Ht (char_of 93 :: tail) eq_refl) as (tok & l & n & Hs & Hne & Hrun).
    exists tok, l, (n + 1)%nat. split; [done|]. split; [done|]. intros fuel stack acc.
    rewrite <- Nat.add_assoc, Hrun. reflexivity.
  - destruct (IH ltac:(done)) as (tok2 & l2 & n2 & Hs2 & Hne2 & Hrun2).
    rewrite join_commas_cons. destruct (Ht (char_of 44 ::
      (join_commas (t' :: ts) ++ char_of 93 :: tail)) eq_refl) as (tok & l & n & Hs & Hne & Hrun).
    exists tok, l, (n + (1 + n2))%nat. split; [done|]. split; [done|]. intros fuel stack acc.
    rewrite <- !Nat.add_assoc, Hrun. cbn [Nat.add sax_parse_internal parse_step token_step]; unfold array_step, object_step, begin_array_step, begin_object_step.
    change (scan (char_of 44 :: ?l)) with (value_separator, l). cbv iota beta.
    rewrite Hs2, Hrun2. now rewrite <- app_assoc.
Qed.

Lemma reads_array ts vs :
  Forall2 reads ts vs -> ts <> [] -> reads (char_of 91 :: join_commas ts ++ [char_of 93]) (JArray vs).
Proof.
  intros Hts Hne tail _. destruct (reads_elements ts vs tail Hts Hne) as (tok & l & n & Hs & Ht & Hrun).
  exists begin_array, (join_commas ts ++ char_of 93 :: tail), (S n).
  cbn [app]. rewrite <- app_assoc. split; [done|]. split; [done|]. intros fuel stack.
  cbn [Nat.add sax_parse_internal parse_step token_step]; unfold array_step, object_step, begin_array_step, begin_object_step. rewrite Hs. specialize (Hrun fuel stack []).
  destruct tok; try exact Hrun. done.
Qed.

(** ** Objects *)

Definition member_text (k : string) (t : list Ascii.ascii) : list Ascii.ascii :=
  [quote_char] ++ escape_text (chars k) ++ [quote_char; char_of 58] ++ t.

Definition reads_member (t : list Ascii.ascii) (kv : string * json) : Prop :=
  exists t', t = member_text kv.1 t' /\ utf8_valid (chars kv.1) = true /\ reads t' kv.2.

(** A member's text: its key is scanned, then its value is read. *)
Lemma reads_member_scan t kv tail :
  reads_member t kv -> value_tail tail = true ->
  exists l1 tok l n, scan (t ++ tail) = (value_string (chars kv.1), l1) /\
    scan_key (value_string (chars kv.1)) l1 = Some (kv.1, tok, l) /\
    forall fuel stack,
      sax_parse_internal (n + fuel) stack (at_token tok) l =
      sax_parse_internal fuel stack (at_value kv.2) tail.
Proof.
  intros (t' & -> & Hk & Hr) Ht. destruct (Hr tail Ht) as (tok & l & n & Hs & _ & Hrun).
  exists (char_of 58 :: t' ++ tail), tok, l, n. split; [|split; [|done]].
  - unfold member_text. rewrite <- !app_assoc. cbn [app]. now apply scan_quoted.
  - unfold scan_key. change (scan (char_of 58 :: t' ++ tail)) with (name_separator, t' ++ tail).
    cbv iota beta. now rewrite Hs, text_chars.
Qed.

Lemma reads_members ts m tail :
  Forall2 reads_member ts m -> ts <> [] ->
  exists l1 k tok l n, scan (join_commas ts ++ char_of 125 :: tail) = (value_string (chars k), l1) /\
    scan_key (value_string (chars k)) l1 = Some (k, tok, l) /\
    forall fuel stack acc, sorted_members (acc ++ m) = true ->
      sax_parse_internal (n + fuel) (object_frame acc k :: stack) (at_token tok) l =
      sax_parse_internal fuel stack (at_value (JObject (acc ++ m))) tail.
Proof.
  induction 1 as [|t kv ts m Ht Hts IH]; [done|]. intros _. destruct ts as [|t' ts].
  - inversion Hts; subst.
    destruct (reads_member_scan t kv (char_of 125 :: tail) Ht eq_refl)
      as (l1 & tok & l & n & Hs & Hk & Hrun).
    exists l1, kv.1, tok, l, (n + 1)%nat. split; [done|]. split; [done|]. intros fuel stack acc Hsort.
    rewrite <- Nat.add_assoc, Hrun. cbn [Nat.add sax_parse_internal parse_step token_step]; unfold array_step, object_step, begin_array_step, begin_object_step.
    destruct kv as [k v]. rewrite obj_set_snoc by done. reflexivity.
  - destruct (IH ltac:(done)) as (l2 & k2 & tok2 & l2' & n2 & Hs2 & Hk2 & Hrun2).
    rewrite join_commas_cons. destruct (reads_member_scan t kv (char_of 44 ::
      (join_commas (t' :: ts) ++ char_of 125 :: tail)) Ht eq_refl)
      as (l1 & tok & l & n & Hs & Hk & Hrun).
    exists l1, kv.1, tok, l, (n + (1 + n2))%nat. split; [done|]. split; [done|].
    intros fuel stack acc Hsort. destruct kv as [k v].
    assert (acc ++ (k, v) :: m = (acc ++ [(k, v)]) ++ m) as Hacc by now rewrite <- app_assoc.
    rewrite Hacc in Hsort |- *.
    rewrite <- !Nat.add_assoc, Hrun. cbn [Nat.add sax_parse_internal parse_step fst snd]; unfold object_step.
    change (scan (char_of 44 :: ?l)) with (value_separator, l). cbv iota beta.
    rewrite Hs2, Hk2. rewrite obj_set_snoc by (eapply sorted_members_prefix; exact Hsort).
    now apply Hrun2.
Qed.

Lemma reads_object ts m :
  Forall2 reads_member ts m -> ts <> [] -> sorted_members m = true ->
  reads (char_of 123 :: join_commas ts ++ [char_of 125]) (JObject m).
Proof.
  intros Hts Hne Hsort tail _.
  destruct (reads_members ts m tail Hts Hne) as (l1 & k & tok & l & n & Hs & Hk & Hrun).
  exists begin_object, (join_commas ts ++ char_of 125 :: tail), (S n).
  cbn [app]. rewrite <- app_assoc. split; [done|]. split; [done|]. intros fuel stack.
  cbn [Nat.add sax_parse_internal parse_step token_step]; unfold array_step, object_step, begin_array_step, begin_object_step. rewrite Hs, Hk. now apply (Hrun fuel stack []).
Qed.

(** ** Every readable value *)

Lemma dump_elements_cons f j j' l :
  dump_elements f (j :: j' :: l) =
  (t <~ f j ; ts <~ dump_elements f (j' :: l) ; Ok (t ++ [char_of 44] ++ ts)).
Proof. reflexivity. Qed.

Lemma dump_members_cons f k v kv m :
  dump_members false strict f ((k, v) :: kv :: m) =
  (t <~ dump_member false strict f k v ;
   ts <~ dump_members false strict f (kv :: m) ; Ok (t ++ [char_of 44] ++ ts)).
Proof. reflexivity. Qed.

Lemma dump_elements_join (f : json -> result (list Ascii.ascii)) l ts :
  Forall2 (fun j t => f j = Ok t) l ts -> dump_elements f l = Ok (join_commas ts).
Proof.
  induction 1 as [|j t l ts Hj Hts IH]; [done|]. inversion Hts; subst.
  - simpl. now rewrite Hj.
  - rewrite dump_elements_cons, Hj. cbn [result_bind]. now rewrite IH.
Qed.

Lemma dump_members_join (f : json -> result (list Ascii.ascii)) m ts :
  Forall2 (fun kv t => dump_member false strict f kv.1 kv.2 = Ok t) m ts ->
  dump_members false strict f m = Ok (join_commas ts).
Proof.
  induction 1 as [|[k v] t m ts Hj Hts IH]; [done|]. inversion Hts; subst.
  - simpl in *. now rewrite Hj.
  - rewrite dump_members_cons. cbn [fst snd] in Hj. rewrite Hj. cbn [result_bind]. now rewrite IH.
Qed.

Lemma sorted_members_map (g : json -> json) m :
  sorted_members (map (fun kv => (kv.1, g kv.2)) m) = sorted_members m.
Proof.
  destruct m as [|[k v] m]; [done|]. simpl. revert k.
  induction m as [|[k' v'] m IH]; intros k; simpl; [done|]. now rewrite IH.
Qed.

Lemma Forall_exists_Forall2 {A B} (P : A -> B -> Prop) l :
  Forall (fun x => exists y, P x y) l -> exists ys, Forall2 P l ys.
Proof.
  induction 1 as [|x l [y Hy] _ [ys Hys]]; [now exists []|]. exists (y :: ys). now constructor.
Qed.

Definition printed (j : json) (t : list Ascii.ascii) : Prop :=
  dump_json strict false j = Ok t /\ reads t (canon j).

Lemma printed_array l :
  Forall (fun j => exists t, printed j t) l -> exists t, printed (JArray l) t.
Proof.
  intros Hl. apply Forall_exists_Forall2 in Hl as [ts Hts]. destruct l as [|j l].
  { eexists. split; [done|]. intros tail _. now exists begin_array, (char_of 93 :: tail), 1%nat. }
  exists (char_of 91 :: join_commas ts ++ [char_of 93]). split.
  - change (dump_json strict false (JArray (j :: l))) with
      (t <~ dump_elements (dump_json strict false) (j :: l) ;
       Ok ([char_of 91] ++ t ++ [char_of 93])).
    rewrite (dump_elements_join _ _ ts); [done|].
    eapply Forall2_impl; [exact Hts|]. now intros ? ? [? _].
  - apply reads_array; [|now inversion Hts].
    apply Forall2_fmap_r, Forall2_flip. eapply Forall2_impl; [exact Hts|]. now intros ? ? [_ ?].
Qed.

Lemma printed_object m :
  sorted_members m = true ->
  Forall (fun kv => utf8_valid (chars kv.1) = true /\ exists t, printed kv.2 t) m ->
  exists t, printed (JObject m) t.
Proof.
  intros Hsort Hm.
  assert (exists ts, Forall2 (fun kv t => dump_member false strict (dump_json strict false) kv.1 kv.2 = Ok t
    /\ reads_member t (kv.1, canon kv.2)) m ts) as [ts Hts].
  { apply Forall_exists_Forall2. eapply Forall_impl; [exact Hm|].
    intros [k v] (Hk & t & Hd & Hr). exists (member_text k t). cbn [fst snd] in *. split.
    - unfold dump_member. now rewrite dump_escaped_strict, Hk, Hd.
    - exists t. done. }
  destruct m as [|kv m].
  { eexists. split; [done|]. intros tail _. now exists begin_object, (char_of 125 :: tail), 1%nat. }
  exists (char_of 123 :: join_commas ts ++ [char_of 125]). split.
  - change (dump_json strict false (JObject (kv :: m))) with
      (t <~ dump_members false strict (dump_json strict false) (kv :: m) ;
       Ok ([char_of 123] ++ t ++ [char_of 125])).
    rewrite (dump_members_join _ _ ts); [done|].
    eapply Forall2_impl; [exact Hts|]. now intros ? ? [? _].
  - apply reads_object; [|now inversion Hts|now rewrite sorted_members_map].
    apply Forall2_fmap_r, Forall2_flip. eapply Forall2_impl; [exact Hts|]. now intros ? ? [_ ?].
Qed.

Lemma json_ok_printed j : json_ok j = true -> exists t, printed j t.
Proof.
  induction j as [|b|z|z|d|s|l IH|m IH] using json_ind'; intros Hok; simpl in Hok.
  - exists (chars "null"). split; [done|]. now apply (reads_literal _ _ literal_null).
  - exists (chars (if b then "true" else "false")). split; [done|].
    destruct b; [now apply (reads_literal _ _ literal_true)|now apply (reads_literal _ _ literal_false)].
  - zbool. destruct (dump_integer_prints z) as [[? E]|[(? & ds & E & _)|(? & ds & E & _)]]; [lia|..];
      (eexists; split; [exact E|]; apply (reads_integer z); [lia|exact E|done]).
  - zbool. assert (canon (JUnsigned z) = if 0 <=? z then JUnsigned z else JInteger z) as Hc
      by (rewrite (proj2 (Z.leb_le 0 z)) by lia; done).
    destruct (dump_integer_prints z) as [[? E]|[(? & ds & E & _)|(? & ds & E & _)]]; [lia|..];
      (eexists; split; [exact E|]; apply (reads_integer z); [lia|exact E|done]).
  - eexists. split; [done|]. simpl. destruct (dbl_isfinite d) eqn:Hf.
    + simpl in Hok. unfold float_round_trips in Hok.
      destruct (scan (dump_float d)) as [tok r] eqn:E. destruct tok; try discriminate.
      destruct r; [|discriminate]. apply andb_true_iff in Hok as [->%dbl_same_eq _].
      apply reads_scalar. intros tail Ht. exists (value_float d).
      split; [now apply scan_float_tail|]. split; [done|]. intros fuel stack.
      cbn [sax_parse_internal parse_step token_step]. now rewrite Hf.
    + unfold dump_float. rewrite Hf. now apply (reads_literal _ _ literal_null).
  - exists (quote_char :: escape_text (chars s) ++ [quote_char]). split.
    + cbn [dump_json]. now rewrite dump_escaped_strict, Hok.
    + apply (reads_literal _ _ (value_string (chars s))); [|done|].
      * intros tail. cbn [app]. rewrite <- app_assoc. now apply scan_quoted.
      * intros. cbn [sax_parse_internal parse_step token_step canon]. now rewrite text_chars.
  - apply printed_array. rewrite forallb_forall in Hok. rewrite Forall_forall in IH |- *.
    intros j Hj. apply IH; [done|]. apply Hok. now apply list_elem_of_In.
  - apply andb_true_iff in Hok as [Hsort Hok]. apply printed_object; [done|].
    rewrite forallb_forall in Hok. rewrite Forall_forall in IH |- *.
    intros kv Hkv. specialize (Hok kv ltac:(now apply list_elem_of_In)).
    apply andb_true_iff in Hok as [Hk Hv]. split; [done|]. now apply IH.
Qed.

(** A text that starts a document is not a byte order mark. *)
Lemma skip_bom_scan t tok l :
  scan t = (tok, l) -> tok <> parse_error -> skip_bom t = Some t.
Proof.
  destruct t as [|c t]; [done|]. unfold scan, skip_bom.
  destruct (Z.eqb_spec (byte_of c) 0xEF) as [E|]; [|done].
  cbn [skip_whitespace]. rewrite !E. cbn. rewrite !E. unfold is_digit. rewrite E. cbn.
  intros [= <- <-]. done.
Qed.

(** A whole text that reads as a value parses to it. *)
Lemma reads_parse t v : reads t v -> parse (text t) = Ok v.
Proof.
  intros Hr. unfold parse. rewrite chars_text. destruct (Hr [] eq_refl) as (tok & l & n & Hs & _ & Hrun).
  rewrite app_nil_r in Hs. specialize (Hrun 1%nat []). cbn [sax_parse_internal parse_step token_step] in Hrun.
  assert (tok <> parse_error) as Hne.
  { intros ->. rewrite Nat.add_1_r in Hrun. discriminate Hrun. }
  unfold parse_chars. rewrite (skip_bom_scan _ _ _ Hs Hne), Hs.
  destruct (sax_parse_internal_total (parse_fuel l) [] (at_token tok) l) as (r & Hf & _).
  { pose proof (turns_left_token tok l). unfold parse_fuel. lia. }
  assert (r = Ok (v, [])) as ->.
  { apply (sax_parse_internal_more _ (Nat.max (parse_fuel l) (n + 1))) in Hrun, Hf; [|lia..].
    congruence. }
  rewrite Hf. done.
Qed.

Lemma dump_parse_canon j :
  json_ok j = true -> exists s, dump j = Ok s /\ parse s = Ok (canon j).
Proof.
  intros (t & Hd & Hr)%json_ok_printed. exists (text t). unfold dump. rewrite Hd. split; [done|].
  now apply reads_parse.
Qed.

(** * The round trip *)

(** C20: what [dump] writes for a value (integers of their width, valid UTF-8
    strings, objects in key order, doubles whose printed digits read back) is
    accepted by [parse] and read back as the same value, a non-negative signed
    integer becoming unsigned and a non-finite double null. *)
Theorem json_round_trip j :
  json_ok j = true -> exists s, dump j = Ok s /\ parse s = Ok (canon j).
Proof. apply dump_parse_canon. Qed.

(** A document with every kind of value, escapes and multi-byte characters. *)
Definition sample_document : json :=
  JObject
    [("SIGNED", JInteger (-9223372036854775808));
     ("STOP", JFloat (dbl_decimal 25 1));
     ("TAGS", JArray [JString (text (map char_of [34; 92; 10; 1; 195; 169; 226; 130; 172]));
                      JArray []; JObject []; JNull]);
     ("UNSIGNED", JUnsigned 18446744073709551615);
     ("YEARS", JArray [JInteger 3; JBoolean true; JBoolean false])].

Lemma json_round_trip_witness :
  json_ok sample_document = true /\
  exists s, dump sample_document = Ok s /\ parse s = Ok (canon sample_document).
Proof.
  assert (json_ok sample_document = true) as H by (vm_compute; reflexivity).
  split; [exact H|exact (json_round_trip sample_document H)].
Defined.
