(* ===== verification/Base64.v ===== *)
(** The queue's base64 codec ([shared/utilities/base64.cpp]). A string's bytes
    are readable up to and including the terminating zero; reading further, or
    before the start, is [UndefinedRead]. *)
From S2P Require Import Prelude Double Json.

Definition B64chars : list Ascii.ascii :=
  chars "ABCDEFGHIJKLMNOPQRSTUVWXYZabcdefghijklmnopqrstuvwxyz0123456789+/".

Definition B64index : list Z :=
  [0;  0;  0;  0;  0;  0;  0;  0;  0;  0;  0;  0;  0;  0;  0;  0;
   0;  0;  0;  0;  0;  0;  0;  0;  0;  0;  0;  0;  0;  0;  0;  0;
   0;  0;  0;  0;  0;  0;  0;  0;  0;  0;  0;  62; 63; 62; 62; 63;
   52; 53; 54; 55; 56; 57; 58; 59; 60; 61; 0;  0;  0;  0;  0;  0;
   0;  0;  1;  2;  3;  4;  5;  6;  7;  8;  9;  10; 11; 12; 13; 14;
   15; 16; 17; 18; 19; 20; 21; 22; 23; 24; 25; 0;  0;  0;  0;  63;
   0;  26; 27; 28; 29; 30; 31; 32; 33; 34; 35; 36; 37; 38; 39; 40;
   41; 42; 43; 44; 45; 46; 47; 48; 49; 50; 51].

(** The rest of the 256 entries are zero. *)
Definition index_of (b : Z) : Z := nth (Z.to_nat b) B64index 0.

Definition b64char (n : Z) : Ascii.ascii := nth (Z.to_nat n) B64chars (char_of 0).

Definition pad_char : Ascii.ascii := char_of 61.

(** * Encoding *)

Definition encode_block (a b c : Ascii.ascii) : list Ascii.ascii :=
  let n := Z.lor (Z.lor (Z.shiftl (byte_of a) 16) (Z.shiftl (byte_of b) 8)) (byte_of c) in
  [b64char (Z.shiftr n 18); b64char (Z.land (Z.shiftr n 12) 0x3F);
   b64char (Z.land (Z.shiftr n 6) 0x3F); b64char (Z.land n 0x3F)].

(** Whole blocks, then the one or two bytes left with their padding. *)
Fixpoint encode_chars (p : list Ascii.ascii) : list Ascii.ascii :=
  match p with
  | a :: b :: c :: rest => encode_block a b c ++ encode_chars rest
  | [a; b] =>
      let n := Z.lor (Z.shiftl (byte_of a) 8) (byte_of b) in
      [b64char (Z.land (Z.shiftr n 10) 0x3F); b64char (Z.land (Z.shiftr n 4) 0x3F);
       b64char (Z.land (Z.shiftl n 2) 0x3F); pad_char]
  | [a] =>
      let n := byte_of a in
      [b64char (Z.shiftr n 2); b64char (Z.land (Z.shiftl n 4) 0x3F); pad_char; pad_char]
  | [] => []
  end.

Definition b64encode (str : string) : string := text (encode_chars (chars str)).

(** * Decoding *)

(** [p[i]] of a string's data. *)
Definition read_byte (p : list Ascii.ascii) (i : Z) : result Z :=
  if i <? 0 then Throw UndefinedRead
  else
    match p !! Z.to_nat i with
    | Some c => Ok (byte_of c)
    | None => if i =? Z.of_nat (length p) then Ok 0 else Throw UndefinedRead
    end.

Definition decode_block (a b c d : Ascii.ascii) : list Ascii.ascii :=
  let n := Z.lor (Z.lor (Z.lor (Z.shiftl (index_of (byte_of a)) 18)
                               (Z.shiftl (index_of (byte_of b)) 12))
                        (Z.shiftl (index_of (byte_of c)) 6)) (index_of (byte_of d)) in
  [char_of (Z.shiftr n 16); char_of (Z.land (Z.shiftr n 8) 0xFF); char_of (Z.land n 0xFF)].

(** The loop over the whole blocks, and the data from [last] on. *)
Fixpoint decode_blocks (blocks : nat) (p : list Ascii.ascii)
    : list Ascii.ascii * list Ascii.ascii :=
  match blocks, p with
  | S blocks', a :: b :: c :: d :: rest =>
      let '(out, tail) := decode_blocks blocks' rest in (decode_block a b c d ++ out, tail)
  | _, _ => ([], p)
  end.

Definition decode_chars (p : list Ascii.ascii) : result (list Ascii.ascii) :=
  let len := Z.of_nat (length p) in
  if len =? 0 then Ok []
  else
    last_byte <~ read_byte p (len - 1) ;
    let pad1 := negb (len mod 4 =? 0) || (last_byte =? 61) in
    pad2 <~ (if pad1 then
               if 2 <? len mod 4 then Ok true
               else b <~ read_byte p (len - 2) ; Ok (negb (b =? 61))
             else Ok false) ;
    let '(out, tail) := decode_blocks (Z.to_nat ((len - (if pad1 then 1 else 0)) / 4)) p in
    if pad1 then
      b0 <~ read_byte tail 0 ;
      b1 <~ read_byte tail 1 ;
      let n := Z.lor (Z.shiftl (index_of b0) 18) (Z.shiftl (index_of b1) 12) in
      let out := out ++ [char_of (Z.shiftr n 16)] in
      if (pad2 : bool) then
        b2 <~ read_byte tail 2 ;
        let n := Z.lor n (Z.shiftl (index_of b2) 6) in
        Ok (out ++ [char_of (Z.land (Z.shiftr n 8) 0xFF)])
      else Ok out
    else Ok out.

Definition b64decode (str64 : string) : result string :=
  out <~ decode_chars (chars str64) ; Ok (text out).

(** * Lemmas *)

Lemma lor_add x y k : 0 <= k -> 0 <= y < 2 ^ k -> Z.lor (Z.shiftl x k) y = x * 2 ^ k + y.
Proof.
  intros Hk Hy. rewrite Z.shiftl_mul_pow2 by done.
  assert (Z.land (x * 2 ^ k) y = 0) as H0.
  { apply Z.bits_inj'. intros n Hn. rewrite Z.land_spec, Z.bits_0.
    destruct (Z.ltb_spec n k).
    - rewrite Z.mul_pow2_bits_low by lia. done.
    - rewrite <- (Z.mod_small y (2 ^ k)) by done. rewrite Z.mod_pow2_bits_high by lia.
      apply andb_false_r. }
  rewrite <- Z.lxor_lor, <- Z.add_nocarry_lxor by done. done.
Qed.

Lemma land_63 x : Z.land x 0x3F = x mod 64.
Proof. change 0x3F with (Z.ones 6). now rewrite Z.land_ones. Qed.

Lemma land_255 x : Z.land x 0xFF = x mod 256.
Proof. change 0xFF with (Z.ones 8). now rewrite Z.land_ones. Qed.

Definition alphabet_ok (n : Z) : bool :=
  (index_of (byte_of (b64char n)) =? n) && negb (byte_of (b64char n) =? 61).

Lemma alphabet n : 0 <= n < 64 ->
  index_of (byte_of (b64char n)) = n /\ byte_of (b64char n) <> 61.
Proof.
  intros Hn. assert (forallb alphabet_ok (seqZ 0 64) = true) as H by (vm_compute; reflexivity).
  rewrite forallb_forall in H. specialize (H n).
  assert (In n (seqZ 0 64)) as Hin by (apply list_elem_of_In, elem_of_seqZ; lia).
  apply H in Hin. unfold alphabet_ok in Hin. zbool. lia.
Qed.

Lemma index_b64char n : 0 <= n < 64 -> index_of (byte_of (b64char n)) = n.
Proof. intros. now apply alphabet. Qed.

Lemma encode_number a b c :
  0 <= b < 256 -> 0 <= c < 256 ->
  Z.lor (Z.lor (Z.shiftl a 16) (Z.shiftl b 8)) c = a * 65536 + b * 256 + c.
Proof.
  intros. rewrite (Z.shiftl_mul_pow2 b) by lia. rewrite lor_add by lia.
  replace (a * 2 ^ 16 + b * 2 ^ 8) with (Z.shiftl (a * 256 + b) 8)
    by (rewrite Z.shiftl_mul_pow2 by lia; lia).
  rewrite lor_add by lia. lia.
Qed.

Lemma decode_number i j k l :
  0 <= j < 64 -> 0 <= k < 64 -> 0 <= l < 64 ->
  Z.lor (Z.lor (Z.lor (Z.shiftl i 18) (Z.shiftl j 12)) (Z.shiftl k 6)) l =
  i * 262144 + j * 4096 + k * 64 + l.
Proof.
  intros. rewrite (Z.shiftl_mul_pow2 j), (Z.shiftl_mul_pow2 k) by lia.
  rewrite lor_add by lia.
  replace (i * 2 ^ 18 + j * 2 ^ 12) with (Z.shiftl (i * 64 + j) 12)
    by (rewrite Z.shiftl_mul_pow2 by lia; lia).
  rewrite lor_add by lia.
  replace ((i * 64 + j) * 2 ^ 12 + k * 2 ^ 6) with (Z.shiftl ((i * 64 + j) * 64 + k) 6)
    by (rewrite Z.shiftl_mul_pow2 by lia; lia).
  rewrite lor_add by lia. lia.
Qed.

(** Four sextets put back together. *)
Lemma sextets n : 0 <= n < 2 ^ 24 ->
  n / 262144 * 262144 + (n / 4096 mod 64) * 4096 + (n / 64 mod 64) * 64 + n mod 64 = n.
Proof.
  intros Hn. pose proof (Z.div_mod n 64). pose proof (Z.div_mod (n / 64) 64).
  pose proof (Z.div_mod (n / 4096) 64).
  replace (n / 262144) with (n / 4096 / 64) by (rewrite Z.div_div; [f_equal|lia..]).
  replace (n / 4096) with (n / 64 / 64) in * by (rewrite Z.div_div; [f_equal|lia..]). lia.
Qed.

Ltac to_arith :=
  rewrite ?land_63, ?land_255, ?Z.shiftr_div_pow2 by lia;
  change (2 ^ 18) with 262144; change (2 ^ 16) with 65536; change (2 ^ 12) with 4096;
  change (2 ^ 10) with 1024; change (2 ^ 8) with 256; change (2 ^ 6) with 64;
  change (2 ^ 4) with 16; change (2 ^ 2) with 4.

(** Decoding a block gives back the three bytes it encodes. *)
Lemma decode_encode_block a b c :
  exists w x y z, encode_block a b c = [w; x; y; z] /\
    decode_block w x y z = [a; b; c] /\ byte_of z <> 61.
Proof.
  unfold encode_block.
  pose proof (byte_of_range a) as Ha. pose proof (byte_of_range b) as Hb.
  pose proof (byte_of_range c) as Hc.
  rewrite encode_number by lia.
  set (n := byte_of a * 65536 + byte_of b * 256 + byte_of c).
  assert (0 <= n < 2 ^ 24) as Hn by (subst n; lia).
  eexists _, _, _, _. split; [reflexivity|]. to_arith.
  assert (0 <= n / 262144 < 64)
    by (split; [apply Z.div_pos; lia|apply Z.div_lt_upper_bound; lia]).
  pose proof (Z.mod_pos_bound (n / 4096) 64). pose proof (Z.mod_pos_bound (n / 64) 64).
  pose proof (Z.mod_pos_bound n 64).
  split; [|apply alphabet; lia].
  unfold decode_block. rewrite !index_b64char by lia. rewrite decode_number, sextets by lia.
  to_arith.
  replace (n / 65536) with (byte_of a) by (subst n; apply Z.div_unique with (byte_of b * 256 + byte_of c); lia).
  replace (n / 256 mod 256) with (byte_of b).
  2:{ replace (n / 256) with (byte_of a * 256 + byte_of b)
        by (subst n; apply Z.div_unique with (byte_of c); lia).
      apply Z.mod_unique with (byte_of a); lia. }
  replace (n mod 256) with (byte_of c) by (subst n; apply Z.mod_unique with (byte_of a * 256 + byte_of b); lia).
  now rewrite !char_of_byte_of.
Qed.

(** Every text is whole blocks and a remainder of fewer than three bytes. *)
Lemma split_blocks (p : list Ascii.ascii) :
  exists k w r, p = w ++ r /\ length w = (3 * k)%nat /\ (length r < 3)%nat.
Proof.
  exists (length p / 3)%nat, (take (3 * (length p / 3)) p), (drop (3 * (length p / 3)) p).
  pose proof (Nat.div_mod_eq (length p) 3). pose proof (Nat.mod_upper_bound (length p) 3).
  rewrite take_drop, length_take, length_drop. split; [done|lia].
Qed.

(** The encoding of the whole blocks, and what decoding it gives. *)
Lemma encode_blocks k w r :
  length w = (3 * k)%nat ->
  exists E, encode_chars (w ++ r) = E ++ encode_chars r /\ length E = (4 * k)%nat /\
    (forall t, decode_blocks k (E ++ t) = (w, t)) /\
    (k = 0%nat \/ exists E' z, E = E' ++ [z] /\ byte_of z <> 61).
Proof.
  revert w. induction k as [|k IH]; intros w Hw.
  { destruct w; [|simpl in Hw; lia]. exists []. repeat split; auto. }
  destruct w as [|a [|b [|c w]]]; simpl in Hw; try lia.
  destruct (IH w ltac:(lia)) as (E & He & Hl & Hd & Hz).
  destruct (decode_encode_block a b c) as (e1 & e2 & e3 & e4 & Hblock & Hdec & Hne).
  exists ([e1; e2; e3; e4] ++ E). split; [|split; [|split]].
  - cbn [app encode_chars]. rewrite Hblock, He. done.
  - simpl. lia.
  - intros t. cbn [app decode_blocks]. now rewrite Hd, Hdec.
  - right. destruct Hz as [->|(E' & z & -> & Hz)].
    + exists [e1; e2; e3], e4. destruct E; [done|simpl in Hl; lia].
    + exists ([e1; e2; e3; e4] ++ E'), z. split; [|done]. now rewrite <- app_assoc.
Qed.

Lemma read_byte_app_r E t i :
  0 <= i -> read_byte (E ++ t) (Z.of_nat (length E) + i) = read_byte t i.
Proof.
  intros Hi. unfold read_byte.
  rewrite (proj2 (Z.ltb_ge i 0)), (proj2 (Z.ltb_ge _ 0)) by lia.
  rewrite Z2Nat.inj_add, Nat2Z.id by lia. rewrite lookup_app_r by lia.
  replace (length E + Z.to_nat i - length E)%nat with (Z.to_nat i) by lia.
  destruct (t !! Z.to_nat i); [done|]. rewrite length_app.
  destruct (Z.eqb_spec i (Z.of_nat (length t))); destruct (Z.eqb_spec (Z.of_nat (length E) + i)
    (Z.of_nat (length E + length t))); done || lia.
Qed.

Lemma mod4 k : Z.of_nat (4 * k) mod 4 = 0.
Proof. rewrite Nat2Z.inj_mul, Z.mul_comm. apply Z.mod_mul. lia. Qed.

(** No remainder: no padding. *)
Lemma decode_no_tail k E w :
  length E = (4 * k)%nat -> (forall t, decode_blocks k (E ++ t) = (w, t)) ->
  (k = 0%nat \/ exists E' z, E = E' ++ [z] /\ byte_of z <> 61) -> decode_chars E = Ok w.
Proof.
  intros Hl Hd Hz. unfold decode_chars. specialize (Hd []). rewrite app_nil_r in Hd.
  destruct Hz as [->|(E' & z & HE & Hz)].
  { simpl in Hl. rewrite Hl. simpl in Hd. destruct E; [|done]. injection Hd as <-. done. }
  assert (0 < k)%nat by (subst E; rewrite length_app in Hl; simpl in Hl; lia).
  rewrite (proj2 (Z.eqb_neq _ 0)) by lia.
  assert (read_byte E (Z.of_nat (length E) - 1) = Ok (byte_of z)) as ->.
  { subst E. rewrite length_app. simpl length.
    replace (Z.of_nat (length E' + 1) - 1) with (Z.of_nat (length E') + 0) by lia.
    now rewrite read_byte_app_r by lia. }
  cbn [result_bind]. rewrite Hl, mod4. cbn [Z.eqb negb orb].
  rewrite (proj2 (Z.eqb_neq _ 61)) by done. cbn [result_bind].
  replace (Z.to_nat ((Z.of_nat (4 * k) - 0) / 4)) with k.
  2:{ rewrite Z.sub_0_r, Nat2Z.inj_mul, Z.mul_comm, Z.div_mul by lia. now rewrite Nat2Z.id. }
  now rewrite Hd.
Qed.

(** A padded last block. *)
Lemma decode_padded k E w x y z out :
  length E = (4 * k)%nat -> (forall t, decode_blocks k (E ++ t) = (w, t)) ->
  (let n := Z.lor (Z.shiftl (index_of (byte_of x)) 18) (Z.shiftl (index_of (byte_of y)) 12) in
   out = char_of (Z.shiftr n 16) ::
         (if negb (byte_of z =? 61)
          then [char_of (Z.land (Z.shiftr (Z.lor n (Z.shiftl (index_of (byte_of z)) 6)) 8) 0xFF)]
          else [])) ->
  decode_chars (E ++ [x; y; z; pad_char]) = Ok (w ++ out).
Proof.
  intros Hl Hd Hout. unfold decode_chars.
  assert (Z.of_nat (length (E ++ [x; y; z; pad_char])) = Z.of_nat (length E) + 4) as ->
    by (rewrite length_app; simpl; lia).
  rewrite (proj2 (Z.eqb_neq _ 0)) by lia.
  replace (Z.of_nat (length E) + 4 - 1) with (Z.of_nat (length E) + 3) by lia.
  replace (Z.of_nat (length E) + 4 - 2) with (Z.of_nat (length E) + 2) by lia.
  rewrite !read_byte_app_r by lia. change (read_byte [x; y; z; pad_char] 3) with (Ok 61).
  change (read_byte [x; y; z; pad_char] 2) with (Ok (byte_of z)). cbn [result_bind].
  replace ((Z.of_nat (length E) + 4) mod 4) with 0
    by (rewrite Hl, Zplus_mod, mod4; reflexivity).
  cbn [Z.eqb negb orb Pos.eqb Z.ltb Z.compare result_bind].
  replace (Z.to_nat ((Z.of_nat (length E) + 4 - 1) / 4)) with k.
  2:{ rewrite Hl. replace (Z.of_nat (4 * k) + 4 - 1) with (3 + Z.of_nat k * 4) by lia.
      rewrite Z.div_add by lia. change (3 / 4) with 0. lia. }
  rewrite Hd.
  change (read_byte [x; y; z; pad_char] 0) with (Ok (byte_of x)).
  change (read_byte [x; y; z; pad_char] 1) with (Ok (byte_of y)).
  change (read_byte [x; y; z; pad_char] 2) with (Ok (byte_of z)). cbn [result_bind].
  rewrite Hout. destruct (negb _); [|done]. now rewrite <- app_assoc.
Qed.

Lemma decode_encode_chars p : decode_chars (encode_chars p) = Ok p.
Proof.
  destruct (split_blocks p) as (k & w & r & -> & Hw & Hr).
  destruct (encode_blocks k w r Hw) as (E & -> & Hl & Hd & Hz).
  destruct r as [|a [|b [|c r]]]; simpl in Hr; try lia.
  - rewrite !app_nil_r. eapply decode_no_tail; eauto.
  - apply (decode_padded k); [done..|]. cbv zeta. change (byte_of pad_char) with 61. cbn [negb Z.eqb Pos.eqb].
    f_equal. pose proof (byte_of_range a). to_arith.
    assert (0 <= byte_of a / 4 < 64)
      by (split; [apply Z.div_pos; lia|apply Z.div_lt_upper_bound; lia]).
    rewrite (Z.shiftl_mul_pow2 (byte_of a)) by lia. change (2 ^ 4) with 16.
    pose proof (Z.mod_pos_bound (byte_of a * 16) 64).
    rewrite !index_b64char by lia.
    assert (byte_of a * 16 mod 64 = byte_of a mod 4 * 16) as ->
      by (rewrite (Z.mul_mod_distr_r _ 4 16); lia).
    pose proof (Z.mod_pos_bound (byte_of a) 4). pose proof (Z.div_mod (byte_of a) 4).
    rewrite (Z.shiftl_mul_pow2 (_ * 16)) by lia. rewrite lor_add by lia.
    replace (byte_of a / 4 * 2 ^ 18 + byte_of a mod 4 * 16 * 2 ^ 12) with (byte_of a * 65536) by lia.
    rewrite Z.div_mul by lia. now rewrite char_of_byte_of.
  - apply (decode_padded k); [done..|]. cbv zeta.
    pose proof (byte_of_range a). pose proof (byte_of_range b).
    rewrite (lor_add (byte_of a) (byte_of b) 8) by lia. change (2 ^ 8) with 256.
    set (n := byte_of a * 256 + byte_of b). assert (0 <= n < 65536) by (subst n; lia). to_arith.
    rewrite (Z.shiftl_mul_pow2 n) by lia. change (2 ^ 2) with 4.
    pose proof (Z.mod_pos_bound (n / 1024) 64). pose proof (Z.mod_pos_bound (n / 16) 64).
    pose proof (Z.mod_pos_bound (n * 4) 64).
    destruct (alphabet (n * 4 mod 64)) as [Hi Hne]; [lia|].
    rewrite Hi, (proj2 (Z.eqb_neq _ 61) Hne). cbn [negb].
    rewrite !index_b64char by lia.
    rewrite (Z.mod_small (n / 1024)) by (split; [apply Z.div_pos; lia|apply Z.div_lt_upper_bound; lia]).
    assert (n * 4 mod 64 = n mod 16 * 4) as -> by (rewrite (Z.mul_mod_distr_r _ 16 4); lia).
    pose proof (Z.mod_pos_bound n 16). pose proof (Z.div_mod n 16).
    pose proof (Z.div_mod (n / 16) 64).
    replace (n / 1024) with (n / 16 / 64) by (rewrite Z.div_div; [f_equal|lia..]).
    rewrite (Z.shiftl_mul_pow2 (_ mod 64)), (Z.shiftl_mul_pow2 (_ * 4)) by lia.
    rewrite lor_add by lia.
    replace (n / 16 / 64 * 2 ^ 18 + n / 16 mod 64 * 2 ^ 12) with (Z.shiftl (n / 16) 12)
      by (rewrite Z.shiftl_mul_pow2 by lia; lia).
    rewrite lor_add by lia.
    replace (n / 16 * 2 ^ 12 + n mod 16 * 4 * 2 ^ 6) with (n * 256) by lia.
    rewrite Z.div_mul by lia. rewrite Z.shiftl_mul_pow2 by lia.
    replace (n / 16 * 2 ^ 12 / 65536) with (byte_of a).
    2:{ assert (n / 16 * 2 ^ 12 / 65536 = n / 256) as ->.
        { replace (n / 256) with (n / 16 / 16) by (rewrite Z.div_div; [f_equal|lia..]).
          change 65536 with (16 * 2 ^ 12). rewrite Z.div_mul_cancel_r by lia. done. }
        subst n. apply Z.div_unique with (byte_of b); lia. }
    replace (n mod 256) with (byte_of b) by (subst n; apply Z.mod_unique with (byte_of a); lia).
    now rewrite !char_of_byte_of.
Qed.

(** ** Properties *)

(** Decoding what was encoded gives the text back, whatever its bytes. *)
Theorem base64_round_trip s : b64decode (b64encode s) = Ok s.
Proof.
  unfold b64decode, b64encode. rewrite chars_text, decode_encode_chars. cbn [result_bind].
  now rewrite text_chars.
Qed.

(** A text of one character, or of one more than a multiple of four with no
    padding before its last character, makes the decoder read outside it. *)
Lemma decode_reads_outside :
  b64decode "A" = Throw UndefinedRead /\ b64decode "AAAAA" = Throw UndefinedRead.
Proof. split; vm_compute; reflexivity. Qed.
