(* ===== verification/StdText.v ===== *)
(** The standard library's number texts the sources use: [std::to_string] of an
    integer, and [std::stod] in the C locale. *)
From S2P Require Import Prelude Double Json JsonFloat JsonDump.
From Stdlib Require Import SpecFloat.

(** [std::to_string] of a 64-bit integer. *)
Definition to_string_chars (z : Z) : list Ascii.ascii :=
  if z =? 0 then [digit_char 0]
  else if z <? 0 then char_of 45 :: dump_digits 11 (- z) []
  else dump_digits 11 z [].

Definition to_string (z : Z) : string := text (to_string_chars z).

(** [std::isspace] in the C locale. *)
Definition is_space (c : Ascii.ascii) : bool :=
  let b := byte_of c in (b =? 32) || ((9 <=? b) && (b <=? 13)).

Fixpoint skip_space (l : list Ascii.ascii) : list Ascii.ascii :=
  match l with
  | c :: rest => if is_space c then skip_space rest else l
  | [] => []
  end.

Definition lower (c : Ascii.ascii) : Z :=
  let b := byte_of c in if (65 <=? b) && (b <=? 90) then b + 32 else b.

(** A case-insensitive prefix, and what follows it. *)
Fixpoint word_prefix (word l : list Ascii.ascii) : option (list Ascii.ascii) :=
  match word, l with
  | [], _ => Some l
  | w :: word', c :: rest => if lower c =? byte_of w then word_prefix word' rest else None
  | _, [] => None
  end.

Definition hex_digit_value (c : Ascii.ascii) : option Z :=
  let b := lower c in
  if is_digit c then Some (b - 48)
  else if (97 <=? b) && (b <=? 102) then Some (b - 87) else None.

Fixpoint span_hex (l : list Ascii.ascii) : list Z * list Ascii.ascii :=
  match l with
  | c :: rest =>
      match hex_digit_value c with
      | Some d => let '(ds, tail) := span_hex rest in (d :: ds, tail)
      | None => ([], l)
      end
  | [] => ([], [])
  end.

(** [std::from_chars] to an [int]: an optional minus sign and the digits after
    it, and what follows them. Nothing when there is no digit or the value does
    not fit. *)
Definition from_chars (l : list Ascii.ascii) : option (Z * list Ascii.ascii) :=
  let '(negative, l) := match l with
                        | c :: l => if byte_of c =? 45 then (true, l) else (false, c :: l)
                        | [] => (false, [])
                        end in
  match span_digits l with
  | ([], _) => None
  | (ds, rest) =>
      let v := if (negative : bool) then - digits_value ds else digits_value ds in
      if (INT32_MIN <=? v) && (v <=? INT32_MAX) then Some (v, rest) else None
  end.

(** A text that is one integer and nothing else. *)
Definition from_chars_all (s : string) : option Z :=
  match from_chars (chars s) with Some (v, []) => Some v | _ => None end.

(** The optional fraction after a point. *)
Definition span_fraction {A} (span : list Ascii.ascii -> list A * list Ascii.ascii)
    (l : list Ascii.ascii) : list A * list Ascii.ascii :=
  match l with
  | c :: rest => if byte_of c =? 46 then span rest else ([], l)
  | [] => ([], [])
  end.

(** The optional exponent introduced by [letter]: its value, zero when no digit
    follows. *)
Definition exponent_value (letter : Z) (l : list Ascii.ascii) : Z :=
  match l with
  | c :: rest =>
      if lower c =? letter then
        match rest with
        | c' :: rest' =>
            if byte_of c' =? 45 then - digits_value (span_digits rest').1
            else if byte_of c' =? 43 then digits_value (span_digits rest').1
            else digits_value (span_digits rest).1
        | [] => 0
        end
      else 0
  | [] => 0
  end.

(** A finite conversion: an overflow is out of range, and so is an underflow
    (the C library reports both through [ERANGE]). *)
Definition ranged (nonzero : bool) (v : double) : result double :=
  match v with
  | S754_infinity _ => Throw OutOfRange
  | S754_zero _ => if nonzero then Throw OutOfRange else Ok v
  | S754_finite _ m _ => if Zpos m <? 2 ^ 52 then Throw OutOfRange else Ok v
  | S754_nan => Ok v
  end.

Definition hex_number (s : bool) (l : list Ascii.ascii) : option (result double) :=
  let '(int, l) := span_hex l in
  let '(frac, l) := span_fraction span_hex l in
  match int ++ frac with
  | [] => None
  | ds =>
      let m := fold_left (fun acc d => acc * 16 + d) ds 0 in
      let v := binary_normalize 53 1024 m
                 (exponent_value 112 l - 4 * Z.of_nat (length frac)) false in
      Some (ranged (negb (m =? 0)) (if s then SFopp v else v))
  end.

Definition decimal_number (s : bool) (l : list Ascii.ascii) : result double :=
  let '(int, l) := span_digits l in
  let '(frac, l) := span_fraction span_digits l in
  match int ++ frac with
  | [] => Throw InvalidArgument
  | ds =>
      let m := digits_value ds in
      ranged (negb (m =? 0))
        (dbl_of_decimal s m (exponent_value 101 l - Z.of_nat (length frac)))
  end.

(** [std::stod]: the longest numeric prefix; nothing numeric is an
    [invalid_argument]. *)
Definition stod (str : string) : result double :=
  let l := skip_space (chars str) in
  let '(s, l) :=
    match l with
    | c :: rest =>
        if byte_of c =? 45 then (true, rest)
        else if byte_of c =? 43 then (false, rest) else (false, l)
    | [] => (false, l)
    end in
  match word_prefix (chars "inf") l, word_prefix (chars "nan") l, word_prefix (chars "0x") l with
  | Some _, _, _ => Ok (S754_infinity s)
  | _, Some _, _ => Ok S754_nan
  | _, _, Some hex =>
      match hex_number s hex with Some r => r | None => Ok (S754_zero s) end
  | _, _, _ => decimal_number s l
  end.

(** * Lemmas *)

Lemma chars_append s t : chars (String.append s t) = chars s ++ chars t.
Proof. unfold chars. induction s as [|c s IH]; [done|]. simpl. now rewrite <- IH. Qed.

Lemma to_string_chars_prints z :
  - 2 ^ 63 <= z < 2 ^ 63 ->
  (z = 0 /\ to_string_chars z = [digit_char 0]) \/
  (0 < z /\ prints z (to_string_chars z)) \/
  (z < 0 /\ exists ds, to_string_chars z = char_of 45 :: ds /\ prints (- z) ds).
Proof.
  intros Hz. unfold to_string_chars. destruct (Z.eqb_spec z 0) as [->|H0]; [auto|right].
  destruct (Z.ltb_spec z 0).
  - right. split; [done|]. destruct (dump_digits_prints 11 (- z) []) as (ds & -> & Hp); [simpl; lia|].
    rewrite app_nil_r. eauto.
  - left. split; [lia|]. destruct (dump_digits_prints 11 z []) as (ds & -> & Hp); [simpl; lia|].
    now rewrite app_nil_r.
Qed.

(** Printed integers are plain ASCII. *)
Lemma to_string_ascii z :
  - 2 ^ 63 <= z < 2 ^ 63 -> Forall (fun c => byte_of c < 128) (to_string_chars z).
Proof.
  intros Hz. assert (forall ds, is_digits ds -> Forall (fun c => byte_of c < 128) ds) as Hd.
  { intros ds H. eapply Forall_impl; [exact H|]. intros c Hc. unfold is_digit in Hc. zbool. lia. }
  destruct (to_string_chars_prints z Hz) as [[_ ->]|[[_ Hp]|(_ & ds & -> & Hp)]].
  - repeat constructor.
  - apply Hd, Hp.
  - constructor; [done|]. apply Hd, Hp.
Qed.

Lemma is_digit_bounds c : is_digit c = true -> 48 <= byte_of c <= 57.
Proof. unfold is_digit. intros. zbool. lia. Qed.

Lemma span_digits_all ds : is_digits ds -> span_digits ds = (ds, []).
Proof. induction 1 as [|c ds Hc _ IH]; [done|]. simpl. now rewrite Hc, IH. Qed.

Lemma dbl_of_decimal_int s z :
  0 < z < 2 ^ 53 -> dbl_of_decimal s z 0 = dbl_of_Z (if s then - z else z).
Proof.
  intros Hz. unfold dbl_of_decimal. rewrite (proj2 (Z.eqb_neq z 0)) by lia.
  cbn [Z.leb Z.compare]. rewrite Z.mul_1_r. fold (dbl_of_Z z).
  destruct z as [|p|p]; [lia| |lia]. destruct s; [|done].
  rewrite dbl_of_Z_pos by lia. change (- Zpos p) with (Zneg p). now rewrite dbl_of_Z_neg by lia.
Qed.

Lemma ranged_int nonzero z : 0 < Z.abs z < 2 ^ 53 -> ranged nonzero (dbl_of_Z z) = Ok (dbl_of_Z z).
Proof.
  intros Hz. assert (forall p, Zpos p < 2 ^ 53 -> Zpos (int_significand p) <? 2 ^ 52 = false) as Hs.
  { intros p Hp. apply Z.ltb_ge. pose proof (digits2_pos_bounds (int_significand p)) as [Hb _].
    rewrite int_significand_digits in Hb by done. exact Hb. }
  destruct z as [|p|p]; [lia|rewrite dbl_of_Z_pos by lia|rewrite dbl_of_Z_neg by lia];
    unfold ranged; now rewrite Hs by lia.
Qed.

Lemma decimal_number_prints s v ds :
  prints v ds -> 0 < v < 2 ^ 53 -> decimal_number s ds = Ok (dbl_of_Z (if s then - v else v)).
Proof.
  intros (Hd & Hv & _ & c & tl & -> & _) Hr. unfold decimal_number.
  rewrite span_digits_all by done. cbn [span_fraction exponent_value length Z.of_nat].
  rewrite app_nil_r, Hv, Z.sub_0_r, dbl_of_decimal_int by lia.
  apply ranged_int. destruct s; lia.
Qed.

Lemma stod_digits s c ds :
  is_digit c = true -> 49 <= byte_of c ->
  match word_prefix (chars "inf") (c :: ds), word_prefix (chars "nan") (c :: ds),
        word_prefix (chars "0x") (c :: ds) with
  | Some _, _, _ => Ok (S754_infinity s)
  | _, Some _, _ => Ok S754_nan
  | _, _, Some hex =>
      match hex_number s hex with Some r => r | None => Ok (S754_zero s) end
  | _, _, _ => decimal_number s (c :: ds)
  end = decimal_number s (c :: ds).
Proof.
  intros H1 H2. unfold is_digit in H1. zbool.
  assert (lower c = byte_of c) as Hl.
  { unfold lower. now rewrite (proj2 (Z.leb_gt 65 (byte_of c))) by lia. }
  cbn [chars String.list_ascii_of_string word_prefix]. rewrite Hl.
  rewrite !(proj2 (Z.eqb_neq (byte_of c) _)); [done|..]; unfold byte_of at 2; simpl; lia.
Qed.

(** Reading back a printed integer gives its value exactly. *)
Lemma stod_to_string z : Z.abs z < 2 ^ 53 -> stod (to_string z) = Ok (dbl_of_Z z).
Proof.
  intros Hz. unfold stod, to_string. rewrite chars_text.
  assert (forall c l, is_digit c = true -> skip_space (c :: l) = c :: l) as Hsp.
  { intros c l Hc. simpl. unfold is_digit in Hc. zbool. unfold is_space.
    rewrite (proj2 (Z.eqb_neq (byte_of c) 32)), (proj2 (Z.leb_gt (byte_of c) 13)) by lia.
    now rewrite andb_false_r. }
  destruct (to_string_chars_prints z ltac:(lia)) as [[-> ->]|[[Hp Hpr]|(Hn & ds & -> & Hpr)]].
  - reflexivity.
  - pose proof Hpr as (Hd & _ & _ & c & tl & Hc & H49). rewrite Hc in *.
    inversion Hd as [|? ? Hdc Hdt]; subst. rewrite Hsp by done.
    pose proof (is_digit_bounds c Hdc).
    rewrite (proj2 (Z.eqb_neq (byte_of c) 45)), (proj2 (Z.eqb_neq (byte_of c) 43)) by lia.
    cbv iota beta. rewrite stod_digits by done. apply (decimal_number_prints false z); [done|lia].
  - pose proof Hpr as (Hd & _ & _ & c & tl & Hc & H49). rewrite Hc in *.
    inversion Hd as [|? ? Hdc Hdt]; subst.
    change (skip_space (char_of 45 :: c :: tl)) with (char_of 45 :: c :: tl).
    etransitivity; [exact (stod_digits true c tl Hdc H49)|]. rewrite (decimal_number_prints true (- z)) by (done || lia).
    now rewrite Z.opp_involutive.
Qed.
