(* ===== verification/Config.v ===== *)
(** shared/tradingDefinitions/: the configuration records a run is built from,
    with the sign guards of their JSON readers. Money and percentages are
    boost's decimal64, a library type: [Decimal64] names the operations the
    sources apply to it, and what they rely on is stated where it is used. *)
From S2P Require Import Prelude.

Class Decimal64 : Type := {
  decimal64_t : Type;
  dec_of_Z : Z -> decimal64_t;
  dec_add : decimal64_t -> decimal64_t -> decimal64_t;
  dec_mul : decimal64_t -> decimal64_t -> decimal64_t;
  dec_div : decimal64_t -> decimal64_t -> decimal64_t;
  dec_ltb : decimal64_t -> decimal64_t -> bool;
  dec_leb : decimal64_t -> decimal64_t -> bool;
  (** [static_cast<std::int64_t>]. *)
  dec_to_Z : decimal64_t -> Z;
}.

Record OHLCVariables : Type := mkOHLCVariables { OHLC_COUNT : Z; OHLC_MINUTES : Z }.

(** The guard of [from_json]: negative fields are refused. *)
Definition checkOHLCVariables (v : OHLCVariables) : result OHLCVariables :=
  if (OHLC_COUNT v <? 0) || (OHLC_MINUTES v <? 0) then Throw InvalidArgument else Ok v.

Record RangeBarVariables : Type := mkRangeBarVariables {
  RANGE_ATR_TICK_WINDOW : Z;
  RANGE_ATR_PERCENT : Z;
  RANGE_COUNT : Z;
}.

Definition checkRangeBarVariables (v : RangeBarVariables) : result RangeBarVariables :=
  if (RANGE_ATR_TICK_WINDOW v <? 0) || (RANGE_ATR_PERCENT v <? 0) || (RANGE_COUNT v <? 0)
  then Throw InvalidArgument else Ok v.

Record TradingVariables : Type := mkTradingVariables {
  STRATEGY : string;
  STOP_DISTANCE_IN_ATR : Z;
  LIMIT_DISTANCE_IN_ATR : Z;
  TRADING_SIZE : Z;
}.

Record OHLCRSIVariables : Type := mkOHLCRSIVariables { RSI_LONG : Z; RSI_SHORT : Z }.

Record OHLCBreakoutVariables : Type := mkOHLCBreakoutVariables {
  ob_BUFFER_PIPS : Z;
  ob_MAX_TRADE_DURATION_MINUTES : Z;
}.

Record FVGStrategyVariables : Type := mkFVGStrategyVariables {
  fvg_LOOKBACK_BARS : Z;
  fvg_MIN_GAP_PIPS : Z;
  fvg_HTF_SMA_PERIOD : Z;
  fvg_MIN_GAP_AGE_BARS : Z;
  fvg_MAX_TRADE_DURATION_MINUTES : Z;
}.

Record KeltnerFadeVariables : Type := mkKeltnerFadeVariables {
  kf_BAND_SMA_PERIOD : Z;
  kf_BAND_ATR_MULT_TENTHS : Z;
  kf_MAX_TRADE_DURATION_MINUTES : Z;
}.

Record SessionRangeBreakoutVariables : Type := mkSessionRangeBreakoutVariables {
  sr_BUFFER_PIPS : Z;
  sr_ENTRY_WINDOW_MINUTES : Z;
  sr_MAX_TRADE_DURATION_MINUTES : Z;
}.

Record SqueezeBreakoutVariables : Type := mkSqueezeBreakoutVariables {
  sq_NR_LOOKBACK : Z;
  sq_VALID_BARS : Z;
  sq_BUFFER_PIPS : Z;
  sq_MAX_TRADE_DURATION_MINUTES : Z;
}.

Record NyOpenRangeBreakoutVariables : Type := mkNyOpenRangeBreakoutVariables {
  ny_RANGE_HOURS : Z;
  ny_BUFFER_PIPS : Z;
  ny_ENTRY_WINDOW_MINUTES : Z;
  ny_MAX_TRADE_DURATION_MINUTES : Z;
}.

Record LiquiditySweepReversalVariables : Type := mkLiquiditySweepReversalVariables {
  ls_PIVOT_BARS : Z;
  ls_LOOKBACK_BARS : Z;
  ls_MIN_SWEEP_PIPS : Z;
  ls_DISPLACEMENT_ATR_TENTHS : Z;
  ls_VALID_BARS : Z;
  ls_MAX_TRADE_DURATION_MINUTES : Z;
}.

Record RangeVelocityVariables : Type := mkRangeVelocityVariables {
  rv_RUN_BARS : Z;
  rv_SPEED_LOOKBACK_BARS : Z;
  rv_SPEED_RATIO_PERCENT : Z;
  rv_EXIT_RUN_BARS : Z;
  rv_MAX_TRADE_DURATION_MINUTES : Z;
}.

Record StrategyVariables : Type := mkStrategyVariables {
  OHLC_RSI_VARIABLES : option OHLCRSIVariables;
  OHLC_BREAKOUT_VARIABLES : option OHLCBreakoutVariables;
  FVG_STRATEGY_VARIABLES : option FVGStrategyVariables;
  KELTNER_FADE_VARIABLES : option KeltnerFadeVariables;
  SESSION_RANGE_BREAKOUT_VARIABLES : option SessionRangeBreakoutVariables;
  SQUEEZE_BREAKOUT_VARIABLES : option SqueezeBreakoutVariables;
  NY_OPEN_RANGE_BREAKOUT_VARIABLES : option NyOpenRangeBreakoutVariables;
  LIQUIDITY_SWEEP_REVERSAL_VARIABLES : option LiquiditySweepReversalVariables;
  RANGE_VELOCITY_VARIABLES : option RangeVelocityVariables;
}.

Definition noVariables : StrategyVariables :=
  mkStrategyVariables None None None None None None None None None.

Record StrategyConfig : Type := mkStrategyConfig {
  UUID : string;
  TRADING_VARIABLES : TradingVariables;
  OHLC_VARIABLES : list OHLCVariables;
  RANGE_VARIABLES : list RangeBarVariables;
  STRATEGY_VARIABLES : StrategyVariables;
}.

(** [RunConfiguration]; [Configuration] is the same record with its strategy. *)
Record RunConfiguration {D : Decimal64} : Type := mkRunConfiguration {
  RUN_ID : string;
  SYMBOLS : string;
  BATCH : string;
  EXECUTION_TS : string;
  LAST_MONTHS : Z;
  OFFSET_MONTHS : Z;
  STARTING_BALANCE : decimal64_t;
  MAX_LOSS_PERCENT : decimal64_t;
  MAX_OPEN_TRADES : Z;
  MAX_TRADES_PER_MINUTE : Z;
  REPORT_FAILURES : bool;
  PEAK_HOURS_ONLY : bool;
  ENTRY_SLIPPAGE_TENTH_PIPS : Z;
}.
Arguments RunConfiguration _ : clear implicits.

Record Configuration {D : Decimal64} : Type := mkConfiguration {
  RUN : RunConfiguration D;
  STRATEGY_CONFIG : StrategyConfig;
}.
Arguments Configuration _ : clear implicits.
