(* ===== verification/ConfigJson.v ===== *)
(** The JSON forms of the configuration records
    ([shared/tradingDefinitions/**], [shared/utilities/decimalJson.hpp]) and the
    base64 payload parser ([shared/utilities/jsonParser.cpp]).

    [JsonCodec] is what a serialisable record promises: a readable JSON value,
    and a reader that gives the record back. The payload round trip is proved
    once, against that interface. *)
From S2P Require Import Prelude Double Json JsonFloat JsonDump JsonParse JsonRoundTrip Base64 StdText Config.

(** * The interface *)

Class JsonCodec (T : Type) : Type := {
  to_json : T -> json;
  from_json : json -> result T;
  (** The values the code serialises: fields of their width, valid text. *)
  codec_ok : T -> Prop;
  codec_object v : is_object (to_json v) = true;
  codec_json_ok v : codec_ok v -> json_ok (to_json v) = true;
  codec_reads v : codec_ok v -> from_json (canon (to_json v)) = Ok v;
}.

(** [json::parse(Base64::b64decode(input)).get<T>()]. *)
Definition parseFromBase64 {T} `{JsonCodec T} (input : string) : result T :=
  s <~ b64decode input ; j <~ parse s ; from_json j.

(** A producer dumps and encodes, the worker decodes, parses and reads: the
    record arrives unchanged. *)
Lemma payload_round_trip {T} `{JsonCodec T} (v : T) :
  codec_ok v ->
  exists s, dump (to_json v) = Ok s /\ parseFromBase64 (b64encode s) = Ok v.
Proof.
  intros Hv. destruct (dump_parse_canon _ (codec_json_ok v Hv)) as (s & Hd & Hp).
  exists s. split; [done|]. unfold parseFromBase64.
  unfold b64decode, b64encode. rewrite chars_text, decode_encode_chars. cbn [result_bind].
  rewrite text_chars, Hp. now apply codec_reads.
Qed.

(** * Objects seen through [canon] *)

Definition canon_members (m : list (string * json)) : list (string * json) :=
  map (fun kv => (kv.1, canon kv.2)) m.

Lemma obj_find_canon key m : obj_find key (canon_members m) = canon <$> obj_find key m.
Proof.
  induction m as [|[k v] m IH]; [done|]. simpl. now destruct (String.eqb k key).
Qed.

(** The value a list of pairs gives a key: the first. *)
Fixpoint assoc (key : string) (pairs : list (string * json)) : option json :=
  match pairs with
  | [] => None
  | (k, v) :: rest => if String.eqb k key then Some v else assoc key rest
  end.

(** An object a macro's [to_json] fills, key by key, from null. *)
Definition assigned_object (pairs : list (string * json)) : json :=
  JObject (foldl (fun m kv => obj_set kv.1 kv.2 m) [] pairs).

Lemma obj_find_emplace key k v m :
  obj_find key (obj_emplace k v m) =
  match obj_find key m with
  | Some w => Some w
  | None => if String.eqb k key then Some v else None
  end.
Proof.
  unfold obj_emplace. destruct (obj_find k m) eqn:E.
  - destruct (obj_find key m) eqn:E2; [done|].
    destruct (String.eqb_spec k key) as [->|]; [congruence|done].
  - rewrite obj_find_set. destruct (String.eqb_spec k key) as [->|].
    + now rewrite E.
    + now destruct (obj_find key m).
Qed.

Lemma obj_find_emplaced key pairs m :
  obj_find key (foldl (fun m kv => obj_emplace kv.1 kv.2 m) m pairs) =
  match obj_find key m with Some w => Some w | None => assoc key pairs end.
Proof.
  revert m. induction pairs as [|[k v] pairs IH]; intros m; simpl; [now destruct (obj_find key m)|].
  rewrite IH, obj_find_emplace. destruct (obj_find key m); [done|]. now destruct (String.eqb k key).
Qed.

Lemma obj_find_assigned key pairs m :
  obj_find key (foldl (fun m kv => obj_set kv.1 kv.2 m) m pairs) =
  match assoc key (rev pairs) with Some w => Some w | None => obj_find key m end.
Proof.
  assert (forall l k v, assoc key (l ++ [(k, v)]) =
    match assoc key l with Some w => Some w | None => if String.eqb k key then Some v else None end) as Ha.
  { induction l as [|[k' v'] l IH]; intros k v; [done|]. simpl. rewrite IH. now destruct (String.eqb k' key). }
  revert m. induction pairs as [|[k v] pairs IH]; intros m; [done|]. simpl.
  rewrite IH, Ha, obj_find_set. destruct (assoc key (rev pairs)); [done|]. now destruct (String.eqb k key).
Qed.

(** Reading a field back from a braced object. *)
Lemma from_strict_object {A} (get : json -> result A) key pairs :
  from_strict get key (canon (json_object pairs)) =
  match assoc key pairs with Some v => get (canon v) | None => Throw (JsonError 403) end.
Proof.
  unfold from_strict, json_object. cbn [canon json_at]. fold (canon_members
    (foldl (fun m kv => obj_emplace kv.1 kv.2 m) [] pairs)).
  rewrite obj_find_canon, obj_find_emplaced. simpl. now destruct (assoc key pairs).
Qed.

Lemma json_value_object {A} (get : json -> result A) key default pairs :
  json_value get key default (canon (json_object pairs)) =
  match assoc key pairs with Some v => get (canon v) | None => Ok default end.
Proof.
  unfold json_value, json_object. cbn [canon]. fold (canon_members
    (foldl (fun m kv => obj_emplace kv.1 kv.2 m) [] pairs)).
  rewrite obj_find_canon, obj_find_emplaced. simpl. now destruct (assoc key pairs).
Qed.

Lemma from_strict_assigned {A} (get : json -> result A) key pairs :
  from_strict get key (canon (assigned_object pairs)) =
  match assoc key (rev pairs) with Some v => get (canon v) | None => Throw (JsonError 403) end.
Proof.
  unfold from_strict, assigned_object. cbn [canon json_at]. fold (canon_members
    (foldl (fun m kv => obj_set kv.1 kv.2 m) [] pairs)).
  rewrite obj_find_canon, obj_find_assigned. now destruct (assoc key (rev pairs)).
Qed.

Lemma from_with_default_assigned {A} (get : json -> result A) key default pairs :
  from_with_default get key default (canon (assigned_object pairs)) =
  match assoc key (rev pairs) with Some v => get (canon v) | None => Ok default end.
Proof.
  unfold from_with_default, json_value, assigned_object. cbn [canon is_null negb]. fold (canon_members
    (foldl (fun m kv => obj_set kv.1 kv.2 m) [] pairs)).
  rewrite obj_find_canon, obj_find_assigned. now destruct (assoc key (rev pairs)).
Qed.

Lemma contains_assigned key pairs :
  contains key (canon (assigned_object pairs)) =
  match assoc key (rev pairs) with Some _ => true | None => false end.
Proof.
  unfold assigned_object. cbn [canon contains]. fold (canon_members
    (foldl (fun m kv => obj_set kv.1 kv.2 m) [] pairs)).
  rewrite obj_find_canon, obj_find_assigned. now destruct (assoc key (rev pairs)).
Qed.

(** ** Readable objects *)

Definition text_ok (s : string) : Prop := utf8_valid (chars s) = true.

Definition pair_ok (kv : string * json) : bool := utf8_valid (chars kv.1) && json_ok kv.2.

Lemma obj_set_pairs_ok k v m :
  pair_ok (k, v) = true -> forallb pair_ok m = true -> forallb pair_ok (obj_set k v m) = true.
Proof.
  intros Hkv. induction m as [|[k' v'] m IH]; [simpl; now rewrite Hkv|].
  cbn [obj_set forallb]. intros [H1 H2]%andb_true_iff.
  destruct (String.eqb k' k); [cbn [forallb]; now rewrite Hkv, H2|].
  destruct (String.ltb k k'); cbn [forallb]; rewrite ?Hkv, H1; [now rewrite H2|now rewrite IH].
Qed.

Lemma obj_emplace_pairs_ok k v m :
  pair_ok (k, v) = true -> forallb pair_ok m = true -> forallb pair_ok (obj_emplace k v m) = true.
Proof. intros. unfold obj_emplace. destruct (obj_find k m); [done|]. now apply obj_set_pairs_ok. Qed.

Lemma json_object_ok pairs : forallb pair_ok pairs = true -> json_ok (json_object pairs) = true.
Proof.
  unfold json_object. cbn [json_ok]. intros H.
  assert (forall m, sorted_members m = true -> forallb pair_ok m = true ->
    let m' := foldl (fun m kv => obj_emplace kv.1 kv.2 m) m pairs in
    sorted_members m' && forallb pair_ok m' = true) as Hgen.
  { induction pairs as [|[k v] pairs IH]; intros m Hs Hm; cbn [foldl fst snd].
    - cbv zeta. now rewrite Hs, Hm.
    - cbn [forallb] in H. apply andb_true_iff in H as [Hkv H].
      apply IH; [done|now apply obj_emplace_sorted|now apply obj_emplace_pairs_ok]. }
  now apply Hgen.
Qed.

Lemma assigned_object_ok pairs :
  forallb pair_ok pairs = true -> json_ok (assigned_object pairs) = true.
Proof.
  unfold assigned_object. cbn [json_ok]. intros H.
  assert (forall m, sorted_members m = true -> forallb pair_ok m = true ->
    let m' := foldl (fun m kv => obj_set kv.1 kv.2 m) m pairs in
    sorted_members m' && forallb pair_ok m' = true) as Hgen.
  { induction pairs as [|[k v] pairs IH]; intros m Hs Hm; cbn [foldl fst snd].
    - cbv zeta. now rewrite Hs, Hm.
    - cbn [forallb] in H. apply andb_true_iff in H as [Hkv H].
      apply IH; [done|now apply obj_set_sorted|now apply obj_set_pairs_ok]. }
  now apply Hgen.
Qed.

(** A text of ASCII characters is valid. *)
Lemma ascii_valid l : Forall (fun c => byte_of c < 128) l -> utf8_valid l = true.
Proof.
  unfold utf8_valid, utf8_run, UTF8_ACCEPT. induction 1 as [|c l Hc _ IH]; [done|]. simpl.
  assert (utf8_step 0 (byte_of c) = 0) as ->; [|done].
  pose proof (all_bytes_spec (fun b => (128 <=? b) || (utf8_step 0 b =? 0)) c) as H.
  cbv beta in H. rewrite (proj2 (Z.leb_gt _ _)) in H by done. apply Z.eqb_eq, H.
  vm_compute. reflexivity.
Qed.

Lemma to_string_valid z : - 2 ^ 63 <= z < 2 ^ 63 -> utf8_valid (chars (to_string z)) = true.
Proof. intros. unfold to_string. rewrite chars_text. now apply ascii_valid, to_string_ascii. Qed.

(** ** Integers *)

Lemma get_int_canon z : in_i32 z -> get_int (canon (JInteger z)) = Ok z.
Proof. intros Hz. cbn [canon]. destruct (0 <=? z); cbn [get_int]; now rewrite i32_id. Qed.

Lemma json_ok_int z : in_i32 z -> json_ok (JInteger z) = true.
Proof. unfold in_i32. intros. cbn [json_ok]. apply andb_true_iff. lia. Qed.

(** Projects the fields of a record whose constructor is visible. *)
Ltac open_record :=
  cbn -[canon json_object assigned_object from_strict from_with_default json_value json_at get_int
        get_vector in_i32 Z.le Z.ltb json_ok to_string result_bind] in *.

(** Reads the fields of an object built from known pairs. *)
Ltac read_fields :=
  rewrite ?from_strict_object, ?json_value_object, ?from_strict_assigned, ?from_with_default_assigned;
  cbn [assoc rev app String.eqb Ascii.eqb Bool.eqb];
  rewrite ?get_int_canon by done;
  cbn [result_bind canon get_string get_bool].

(** Every pair of a known list is readable. *)
Ltac pairs_ok :=
  lazymatch goal with
  | |- json_ok (json_object _) = true => apply json_object_ok
  | |- json_ok (assigned_object _) = true => apply assigned_object_ok
  end;
  cbn [forallb]; unfold pair_ok; cbn [fst snd];
  repeat rewrite andb_true_iff; repeat match goal with |- _ /\ _ => split end;
  lazymatch goal with
  | |- utf8_valid (chars (String _ _)) = true => vm_compute; reflexivity
  | |- json_ok (JInteger _) = true => now apply json_ok_int
  | |- true = true => reflexivity
  | |- _ => idtac
  end.

(** * Lists *)

Fixpoint list_to_json {T} (f : T -> json) (l : list T) : list json :=
  match l with [] => [] | x :: rest => f x :: list_to_json f rest end.

Lemma get_list_canon {T} (f : T -> json) (g : json -> result T) l :
  Forall (fun x => g (canon (f x)) = Ok x) l ->
  get_vector g (canon (JArray (list_to_json f l))) = Ok l.
Proof.
  cbn [canon get_vector]. induction 1 as [|x l Hx _ IH]; [done|]. simpl. now rewrite Hx, IH.
Qed.

Lemma list_json_ok {T} (f : T -> json) l :
  Forall (fun x => json_ok (f x) = true) l -> json_ok (JArray (list_to_json f l)) = true.
Proof. induction 1 as [|x l Hx _ IH]; [done|]. simpl in *. now rewrite Hx, IH. Qed.

(** * OHLC and range-bar feeds *)

Definition OHLCVariables_to_json (v : OHLCVariables) : json :=
  json_object [("OHLC_COUNT", JInteger (OHLC_COUNT v)); ("OHLC_MINUTES", JInteger (OHLC_MINUTES v))].

Definition OHLCVariables_from_json (j : json) : result OHLCVariables :=
  c <~ from_strict get_int "OHLC_COUNT" j ;
  m <~ from_strict get_int "OHLC_MINUTES" j ;
  checkOHLCVariables (mkOHLCVariables c m).

#[export, program] Instance OHLCVariables_codec : JsonCodec OHLCVariables := {|
  to_json := OHLCVariables_to_json;
  from_json := OHLCVariables_from_json;
  codec_ok v :=
    in_i32 (OHLC_COUNT v) /\ in_i32 (OHLC_MINUTES v) /\ 0 <= OHLC_COUNT v /\ 0 <= OHLC_MINUTES v;
  codec_object _ := eq_refl;
|}.
Next Obligation. intros [c m] (? & ? & _). unfold OHLCVariables_to_json. open_record. pairs_ok. Qed.
Next Obligation.
  intros [c m] (? & ? & Hc & Hm). unfold OHLCVariables_from_json, OHLCVariables_to_json.
  open_record. repeat read_fields. unfold checkOHLCVariables. open_record.
  now rewrite (proj2 (Z.ltb_ge c 0)), (proj2 (Z.ltb_ge m 0)) by lia.
Qed.

Definition RangeBarVariables_to_json (v : RangeBarVariables) : json :=
  json_object
    [("RANGE_ATR_TICK_WINDOW", JInteger (RANGE_ATR_TICK_WINDOW v));
     ("RANGE_ATR_PERCENT", JInteger (RANGE_ATR_PERCENT v));
     ("RANGE_COUNT", JInteger (RANGE_COUNT v))].

Definition RangeBarVariables_from_json (j : json) : result RangeBarVariables :=
  w <~ from_strict get_int "RANGE_ATR_TICK_WINDOW" j ;
  p <~ from_strict get_int "RANGE_ATR_PERCENT" j ;
  c <~ from_strict get_int "RANGE_COUNT" j ;
  checkRangeBarVariables (mkRangeBarVariables w p c).

#[export, program] Instance RangeBarVariables_codec : JsonCodec RangeBarVariables := {|
  to_json := RangeBarVariables_to_json;
  from_json := RangeBarVariables_from_json;
  codec_ok v :=
    in_i32 (RANGE_ATR_TICK_WINDOW v) /\ in_i32 (RANGE_ATR_PERCENT v) /\ in_i32 (RANGE_COUNT v) /\
    0 <= RANGE_ATR_TICK_WINDOW v /\ 0 <= RANGE_ATR_PERCENT v /\ 0 <= RANGE_COUNT v;
  codec_object _ := eq_refl;
|}.
Next Obligation. intros [w p c] (? & ? & ? & _). unfold RangeBarVariables_to_json. open_record. pairs_ok. Qed.
Next Obligation.
  intros [w p c] (? & ? & ? & Hw & Hp & Hc). unfold RangeBarVariables_from_json, RangeBarVariables_to_json.
  open_record. repeat read_fields. unfold checkRangeBarVariables. open_record.
  now rewrite (proj2 (Z.ltb_ge w 0)), (proj2 (Z.ltb_ge p 0)), (proj2 (Z.ltb_ge c 0)) by lia.
Qed.

(** * Strategy parameters

    Every group but the RSI one is declared with the library's with-default
    macro: a missing key, or a null object, gives the zero defaults. *)

Ltac macro_codec := intros [] ?; open_record; repeat match goal with H : _ /\ _ |- _ => destruct H end.

Definition OHLCRSIVariables_to_json (v : OHLCRSIVariables) : json :=
  assigned_object
    [("RSI_LONG", JInteger (RSI_LONG v));
     ("RSI_SHORT", JInteger (RSI_SHORT v))].

Definition OHLCRSIVariables_from_json (j : json) : result OHLCRSIVariables :=
  x0 <~ from_strict get_int "RSI_LONG" j ;
  x1 <~ from_strict get_int "RSI_SHORT" j ;
  Ok (mkOHLCRSIVariables x0 x1).

#[export, program] Instance OHLCRSIVariables_codec : JsonCodec OHLCRSIVariables := {|
  to_json := OHLCRSIVariables_to_json;
  from_json := OHLCRSIVariables_from_json;
  codec_ok v :=
    in_i32 (RSI_LONG v) /\
    in_i32 (RSI_SHORT v);
  codec_object _ := eq_refl;
|}.
Next Obligation. unfold OHLCRSIVariables_to_json. macro_codec. pairs_ok. Qed.
Next Obligation.
  unfold OHLCRSIVariables_from_json, OHLCRSIVariables_to_json. macro_codec. now repeat read_fields.
Qed.

Definition OHLCBreakoutVariables_to_json (v : OHLCBreakoutVariables) : json :=
  assigned_object
    [("BUFFER_PIPS", JInteger (ob_BUFFER_PIPS v));
     ("MAX_TRADE_DURATION_MINUTES", JInteger (ob_MAX_TRADE_DURATION_MINUTES v))].

Definition OHLCBreakoutVariables_from_json (j : json) : result OHLCBreakoutVariables :=
  x0 <~ from_with_default get_int "BUFFER_PIPS" 0 j ;
  x1 <~ from_with_default get_int "MAX_TRADE_DURATION_MINUTES" 0 j ;
  Ok (mkOHLCBreakoutVariables x0 x1).

#[export, program] Instance OHLCBreakoutVariables_codec : JsonCodec OHLCBreakoutVariables := {|
  to_json := OHLCBreakoutVariables_to_json;
  from_json := OHLCBreakoutVariables_from_json;
  codec_ok v :=
    in_i32 (ob_BUFFER_PIPS v) /\
    in_i32 (ob_MAX_TRADE_DURATION_MINUTES v);
  codec_object _ := eq_refl;
|}.
Next Obligation. unfold OHLCBreakoutVariables_to_json. macro_codec. pairs_ok. Qed.
Next Obligation.
  unfold OHLCBreakoutVariables_from_json, OHLCBreakoutVariables_to_json. macro_codec. now repeat read_fields.
Qed.

Definition FVGStrategyVariables_to_json (v : FVGStrategyVariables) : json :=
  assigned_object
    [("LOOKBACK_BARS", JInteger (fvg_LOOKBACK_BARS v));
     ("MIN_GAP_PIPS", JInteger (fvg_MIN_GAP_PIPS v));
     ("HTF_SMA_PERIOD", JInteger (fvg_HTF_SMA_PERIOD v));
     ("MIN_GAP_AGE_BARS", JInteger (fvg_MIN_GAP_AGE_BARS v));
     ("MAX_TRADE_DURATION_MINUTES", JInteger (fvg_MAX_TRADE_DURATION_MINUTES v))].

Definition FVGStrategyVariables_from_json (j : json) : result FVGStrategyVariables :=
  x0 <~ from_with_default get_int "LOOKBACK_BARS" 0 j ;
  x1 <~ from_with_default get_int "MIN_GAP_PIPS" 0 j ;
  x2 <~ from_with_default get_int "HTF_SMA_PERIOD" 0 j ;
  x3 <~ from_with_default get_int "MIN_GAP_AGE_BARS" 0 j ;
  x4 <~ from_with_default get_int "MAX_TRADE_DURATION_MINUTES" 0 j ;
  Ok (mkFVGStrategyVariables x0 x1 x2 x3 x4).

#[export, program] Instance FVGStrategyVariables_codec : JsonCodec FVGStrategyVariables := {|
  to_json := FVGStrategyVariables_to_json;
  from_json := FVGStrategyVariables_from_json;
  codec_ok v :=
    in_i32 (fvg_LOOKBACK_BARS v) /\
    in_i32 (fvg_MIN_GAP_PIPS v) /\
    in_i32 (fvg_HTF_SMA_PERIOD v) /\
    in_i32 (fvg_MIN_GAP_AGE_BARS v) /\
    in_i32 (fvg_MAX_TRADE_DURATION_MINUTES v);
  codec_object _ := eq_refl;
|}.
Next Obligation. unfold FVGStrategyVariables_to_json. macro_codec. pairs_ok. Qed.
Next Obligation.
  unfold FVGStrategyVariables_from_json, FVGStrategyVariables_to_json. macro_codec. now repeat read_fields.
Qed.

Definition KeltnerFadeVariables_to_json (v : KeltnerFadeVariables) : json :=
  assigned_object
    [("BAND_SMA_PERIOD", JInteger (kf_BAND_SMA_PERIOD v));
     ("BAND_ATR_MULT_TENTHS", JInteger (kf_BAND_ATR_MULT_TENTHS v));
     ("MAX_TRADE_DURATION_MINUTES", JInteger (kf_MAX_TRADE_DURATION_MINUTES v))].

Definition KeltnerFadeVariables_from_json (j : json) : result KeltnerFadeVariables :=
  x0 <~ from_with_default get_int "BAND_SMA_PERIOD" 0 j ;
  x1 <~ from_with_default get_int "BAND_ATR_MULT_TENTHS" 0 j ;
  x2 <~ from_with_default get_int "MAX_TRADE_DURATION_MINUTES" 0 j ;
  Ok (mkKeltnerFadeVariables x0 x1 x2).

#[export, program] Instance KeltnerFadeVariables_codec : JsonCodec KeltnerFadeVariables := {|
  to_json := KeltnerFadeVariables_to_json;
  from_json := KeltnerFadeVariables_from_json;
  codec_ok v :=
    in_i32 (kf_BAND_SMA_PERIOD v) /\
    in_i32 (kf_BAND_ATR_MULT_TENTHS v) /\
    in_i32 (kf_MAX_TRADE_DURATION_MINUTES v);
  codec_object _ := eq_refl;
|}.
Next Obligation. unfold KeltnerFadeVariables_to_json. macro_codec. pairs_ok. Qed.
Next Obligation.
  unfold KeltnerFadeVariables_from_json, KeltnerFadeVariables_to_json. macro_codec. now repeat read_fields.
Qed.

Definition SessionRangeBreakoutVariables_to_json (v : SessionRangeBreakoutVariables) : json :=
  assigned_object
    [("BUFFER_PIPS", JInteger (sr_BUFFER_PIPS v));
     ("ENTRY_WINDOW_MINUTES", JInteger (sr_ENTRY_WINDOW_MINUTES v));
     ("MAX_TRADE_DURATION_MINUTES", JInteger (sr_MAX_TRADE_DURATION_MINUTES v))].

Definition SessionRangeBreakoutVariables_from_json (j : json) : result SessionRangeBreakoutVariables :=
  x0 <~ from_with_default get_int "BUFFER_PIPS" 0 j ;
  x1 <~ from_with_default get_int "ENTRY_WINDOW_MINUTES" 0 j ;
  x2 <~ from_with_default get_int "MAX_TRADE_DURATION_MINUTES" 0 j ;
  Ok (mkSessionRangeBreakoutVariables x0 x1 x2).

#[export, program] Instance SessionRangeBreakoutVariables_codec : JsonCodec SessionRangeBreakoutVariables := {|
  to_json := SessionRangeBreakoutVariables_to_json;
  from_json := SessionRangeBreakoutVariables_from_json;
  codec_ok v :=
    in_i32 (sr_BUFFER_PIPS v) /\
    in_i32 (sr_ENTRY_WINDOW_MINUTES v) /\
    in_i32 (sr_MAX_TRADE_DURATION_MINUTES v);
  codec_object _ := eq_refl;
|}.
Next Obligation. unfold SessionRangeBreakoutVariables_to_json. macro_codec. pairs_ok. Qed.
Next Obligation.
  unfold SessionRangeBreakoutVariables_from_json, SessionRangeBreakoutVariables_to_json. macro_codec. now repeat read_fields.
Qed.

Definition SqueezeBreakoutVariables_to_json (v : SqueezeBreakoutVariables) : json :=
  assigned_object
    [("NR_LOOKBACK", JInteger (sq_NR_LOOKBACK v));
     ("VALID_BARS", JInteger (sq_VALID_BARS v));
     ("BUFFER_PIPS", JInteger (sq_BUFFER_PIPS v));
     ("MAX_TRADE_DURATION_MINUTES", JInteger (sq_MAX_TRADE_DURATION_MINUTES v))].

Definition SqueezeBreakoutVariables_from_json (j : json) : result SqueezeBreakoutVariables :=
  x0 <~ from_with_default get_int "NR_LOOKBACK" 0 j ;
  x1 <~ from_with_default get_int "VALID_BARS" 0 j ;
  x2 <~ from_with_default get_int "BUFFER_PIPS" 0 j ;
  x3 <~ from_with_default get_int "MAX_TRADE_DURATION_MINUTES" 0 j ;
  Ok (mkSqueezeBreakoutVariables x0 x1 x2 x3).

#[export, program] Instance SqueezeBreakoutVariables_codec : JsonCodec SqueezeBreakoutVariables := {|
  to_json := SqueezeBreakoutVariables_to_json;
  from_json := SqueezeBreakoutVariables_from_json;
  codec_ok v :=
    in_i32 (sq_NR_LOOKBACK v) /\
    in_i32 (sq_VALID_BARS v) /\
    in_i32 (sq_BUFFER_PIPS v) /\
    in_i32 (sq_MAX_TRADE_DURATION_MINUTES v);
  codec_object _ := eq_refl;
|}.
Next Obligation. unfold SqueezeBreakoutVariables_to_json. macro_codec. pairs_ok. Qed.
Next Obligation.
  unfold SqueezeBreakoutVariables_from_json, SqueezeBreakoutVariables_to_json. macro_codec. now repeat read_fields.
Qed.

Definition NyOpenRangeBreakoutVariables_to_json (v : NyOpenRangeBreakoutVariables) : json :=
  assigned_object
    [("RANGE_HOURS", JInteger (ny_RANGE_HOURS v));
     ("BUFFER_PIPS", JInteger (ny_BUFFER_PIPS v));
     ("ENTRY_WINDOW_MINUTES", JInteger (ny_ENTRY_WINDOW_MINUTES v));
     ("MAX_TRADE_DURATION_MINUTES", JInteger (ny_MAX_TRADE_DURATION_MINUTES v))].

Definition NyOpenRangeBreakoutVariables_from_json (j : json) : result NyOpenRangeBreakoutVariables :=
  x0 <~ from_with_default get_int "RANGE_HOURS" 0 j ;
  x1 <~ from_with_default get_int "BUFFER_PIPS" 0 j ;
  x2 <~ from_with_default get_int "ENTRY_WINDOW_MINUTES" 0 j ;
  x3 <~ from_with_default get_int "MAX_TRADE_DURATION_MINUTES" 0 j ;
  Ok (mkNyOpenRangeBreakoutVariables x0 x1 x2 x3).

#[export, program] Instance NyOpenRangeBreakoutVariables_codec : JsonCodec NyOpenRangeBreakoutVariables := {|
  to_json := NyOpenRangeBreakoutVariables_to_json;
  from_json := NyOpenRangeBreakoutVariables_from_json;
  codec_ok v :=
    in_i32 (ny_RANGE_HOURS v) /\
    in_i32 (ny_BUFFER_PIPS v) /\
    in_i32 (ny_ENTRY_WINDOW_MINUTES v) /\
    in_i32 (ny_MAX_TRADE_DURATION_MINUTES v);
  codec_object _ := eq_refl;
|}.
Next Obligation. unfold NyOpenRangeBreakoutVariables_to_json. macro_codec. pairs_ok. Qed.
Next Obligation.
  unfold NyOpenRangeBreakoutVariables_from_json, NyOpenRangeBreakoutVariables_to_json. macro_codec. now repeat read_fields.
Qed.

Definition LiquiditySweepReversalVariables_to_json (v : LiquiditySweepReversalVariables) : json :=
  assigned_object
    [("PIVOT_BARS", JInteger (ls_PIVOT_BARS v));
     ("LOOKBACK_BARS", JInteger (ls_LOOKBACK_BARS v));
     ("MIN_SWEEP_PIPS", JInteger (ls_MIN_SWEEP_PIPS v));
     ("DISPLACEMENT_ATR_TENTHS", JInteger (ls_DISPLACEMENT_ATR_TENTHS v));
     ("VALID_BARS", JInteger (ls_VALID_BARS v));
     ("MAX_TRADE_DURATION_MINUTES", JInteger (ls_MAX_TRADE_DURATION_MINUTES v))].

Definition LiquiditySweepReversalVariables_from_json (j : json) : result LiquiditySweepReversalVariables :=
  x0 <~ from_with_default get_int "PIVOT_BARS" 0 j ;
  x1 <~ from_with_default get_int "LOOKBACK_BARS" 0 j ;
  x2 <~ from_with_default get_int "MIN_SWEEP_PIPS" 0 j ;
  x3 <~ from_with_default get_int "DISPLACEMENT_ATR_TENTHS" 0 j ;
  x4 <~ from_with_default get_int "VALID_BARS" 0 j ;
  x5 <~ from_with_default get_int "MAX_TRADE_DURATION_MINUTES" 0 j ;
  Ok (mkLiquiditySweepReversalVariables x0 x1 x2 x3 x4 x5).

#[export, program] Instance LiquiditySweepReversalVariables_codec : JsonCodec LiquiditySweepReversalVariables := {|
  to_json := LiquiditySweepReversalVariables_to_json;
  from_json := LiquiditySweepReversalVariables_from_json;
  codec_ok v :=
    in_i32 (ls_PIVOT_BARS v) /\
    in_i32 (ls_LOOKBACK_BARS v) /\
    in_i32 (ls_MIN_SWEEP_PIPS v) /\
    in_i32 (ls_DISPLACEMENT_ATR_TENTHS v) /\
    in_i32 (ls_VALID_BARS v) /\
    in_i32 (ls_MAX_TRADE_DURATION_MINUTES v);
  codec_object _ := eq_refl;
|}.
Next Obligation. unfold LiquiditySweepReversalVariables_to_json. macro_codec. pairs_ok. Qed.
Next Obligation.
  unfold LiquiditySweepReversalVariables_from_json, LiquiditySweepReversalVariables_to_json. macro_codec. now repeat read_fields.
Qed.

Definition RangeVelocityVariables_to_json (v : RangeVelocityVariables) : json :=
  assigned_object
    [("RUN_BARS", JInteger (rv_RUN_BARS v));
     ("SPEED_LOOKBACK_BARS", JInteger (rv_SPEED_LOOKBACK_BARS v));
     ("SPEED_RATIO_PERCENT", JInteger (rv_SPEED_RATIO_PERCENT v));
     ("EXIT_RUN_BARS", JInteger (rv_EXIT_RUN_BARS v));
     ("MAX_TRADE_DURATION_MINUTES", JInteger (rv_MAX_TRADE_DURATION_MINUTES v))].

Definition RangeVelocityVariables_from_json (j : json) : result RangeVelocityVariables :=
  x0 <~ from_with_default get_int "RUN_BARS" 0 j ;
  x1 <~ from_with_default get_int "SPEED_LOOKBACK_BARS" 0 j ;
  x2 <~ from_with_default get_int "SPEED_RATIO_PERCENT" 0 j ;
  x3 <~ from_with_default get_int "EXIT_RUN_BARS" 0 j ;
  x4 <~ from_with_default get_int "MAX_TRADE_DURATION_MINUTES" 0 j ;
  Ok (mkRangeVelocityVariables x0 x1 x2 x3 x4).

#[export, program] Instance RangeVelocityVariables_codec : JsonCodec RangeVelocityVariables := {|
  to_json := RangeVelocityVariables_to_json;
  from_json := RangeVelocityVariables_from_json;
  codec_ok v :=
    in_i32 (rv_RUN_BARS v) /\
    in_i32 (rv_SPEED_LOOKBACK_BARS v) /\
    in_i32 (rv_SPEED_RATIO_PERCENT v) /\
    in_i32 (rv_EXIT_RUN_BARS v) /\
    in_i32 (rv_MAX_TRADE_DURATION_MINUTES v);
  codec_object _ := eq_refl;
|}.
Next Obligation. unfold RangeVelocityVariables_to_json. macro_codec. pairs_ok. Qed.
Next Obligation.
  unfold RangeVelocityVariables_from_json, RangeVelocityVariables_to_json. macro_codec. now repeat read_fields.
Qed.

(** ** The optional groups *)

(** One group of [to_json]: the value, or null. *)
Definition group_to_json {T} `{JsonCodec T} (v : option T) : json :=
  match v with Some x => to_json x | None => JNull end.

(** One group of [from_json]: absent and null are both none. *)
Definition group_from_json {T} `{JsonCodec T} (key : string) (j : json) : result (option T) :=
  if contains key j then
    v <~ json_at key j ;
    if negb (is_null v) then x <~ from_json v ; Ok (Some x) else Ok None
  else Ok None.

Definition group_ok {T} `{JsonCodec T} (v : option T) : Prop :=
  match v with Some x => codec_ok x | None => True end.

Lemma group_json_ok {T} `{JsonCodec T} (v : option T) :
  group_ok v -> json_ok (group_to_json v) = true.
Proof. destruct v as [x|]; [|done]. intros Hx. now apply codec_json_ok. Qed.

Lemma group_reads {T} `{JsonCodec T} key pairs (v : option T) :
  assoc key (rev pairs) = Some (group_to_json v) -> group_ok v ->
  group_from_json key (canon (assigned_object pairs)) = Ok v.
Proof.
  intros Ha Hv. unfold group_from_json. rewrite contains_assigned, Ha.
  assert (json_at key (canon (assigned_object pairs)) = Ok (canon (group_to_json v))) as ->.
  { unfold assigned_object. cbn [canon json_at]. fold (canon_members
      (foldl (fun m kv => obj_set kv.1 kv.2 m) [] pairs)).
    now rewrite obj_find_canon, obj_find_assigned, Ha. }
  cbn [result_bind]. destruct v as [x|]; [|done]. cbn [group_to_json group_ok] in *.
  assert (is_null (canon (to_json x)) = false) as ->
    by (pose proof (codec_object x); destruct (to_json x); done).
  cbn [negb]. now rewrite codec_reads.
Qed.

Definition StrategyVariables_to_json (s : StrategyVariables) : json :=
  assigned_object
    [("OHLC_RSI_VARIABLES", group_to_json (OHLC_RSI_VARIABLES s));
     ("OHLC_BREAKOUT_VARIABLES", group_to_json (OHLC_BREAKOUT_VARIABLES s));
     ("FVG_STRATEGY_VARIABLES", group_to_json (FVG_STRATEGY_VARIABLES s));
     ("KELTNER_FADE_VARIABLES", group_to_json (KELTNER_FADE_VARIABLES s));
     ("SESSION_RANGE_BREAKOUT_VARIABLES", group_to_json (SESSION_RANGE_BREAKOUT_VARIABLES s));
     ("SQUEEZE_BREAKOUT_VARIABLES", group_to_json (SQUEEZE_BREAKOUT_VARIABLES s));
     ("NY_OPEN_RANGE_BREAKOUT_VARIABLES", group_to_json (NY_OPEN_RANGE_BREAKOUT_VARIABLES s));
     ("LIQUIDITY_SWEEP_REVERSAL_VARIABLES", group_to_json (LIQUIDITY_SWEEP_REVERSAL_VARIABLES s));
     ("RANGE_VELOCITY_VARIABLES", group_to_json (RANGE_VELOCITY_VARIABLES s))].

Definition StrategyVariables_from_json (j : json) : result StrategyVariables :=
  g0 <~ group_from_json "OHLC_RSI_VARIABLES" j ;
  g1 <~ group_from_json "OHLC_BREAKOUT_VARIABLES" j ;
  g2 <~ group_from_json "FVG_STRATEGY_VARIABLES" j ;
  g3 <~ group_from_json "KELTNER_FADE_VARIABLES" j ;
  g4 <~ group_from_json "SESSION_RANGE_BREAKOUT_VARIABLES" j ;
  g5 <~ group_from_json "SQUEEZE_BREAKOUT_VARIABLES" j ;
  g6 <~ group_from_json "NY_OPEN_RANGE_BREAKOUT_VARIABLES" j ;
  g7 <~ group_from_json "LIQUIDITY_SWEEP_REVERSAL_VARIABLES" j ;
  g8 <~ group_from_json "RANGE_VELOCITY_VARIABLES" j ;
  Ok (mkStrategyVariables g0 g1 g2 g3 g4 g5 g6 g7 g8).

#[export, program] Instance StrategyVariables_codec : JsonCodec StrategyVariables := {|
  to_json := StrategyVariables_to_json;
  from_json := StrategyVariables_from_json;
  codec_ok s :=
    group_ok (OHLC_RSI_VARIABLES s) /\
    group_ok (OHLC_BREAKOUT_VARIABLES s) /\
    group_ok (FVG_STRATEGY_VARIABLES s) /\
    group_ok (KELTNER_FADE_VARIABLES s) /\
    group_ok (SESSION_RANGE_BREAKOUT_VARIABLES s) /\
    group_ok (SQUEEZE_BREAKOUT_VARIABLES s) /\
    group_ok (NY_OPEN_RANGE_BREAKOUT_VARIABLES s) /\
    group_ok (LIQUIDITY_SWEEP_REVERSAL_VARIABLES s) /\
    group_ok (RANGE_VELOCITY_VARIABLES s);
  codec_object _ := eq_refl;
|}.
Next Obligation.
  intros s Hs. cbn beta in Hs. unfold StrategyVariables_to_json. repeat match goal with H : _ /\ _ |- _ => destruct H end.
  pairs_ok; now apply group_json_ok.
Qed.
Next Obligation.
  intros s Hs. cbn beta in Hs. unfold StrategyVariables_from_json, StrategyVariables_to_json.
  repeat match goal with H : _ /\ _ |- _ => destruct H end.
  repeat (erewrite group_reads; [cbn [result_bind]|reflexivity|done]). now destruct s.
Qed.


(** * Trading variables *)

(** An integer that travels as a number or as text: parsed as a double,
    refused outside 32 bits, rounded half away from zero. *)
Definition readIntField (j : json) : result Z :=
  value <~ (if is_string j then s <~ get_string j ; stod s else get_double j) ;
  if negb (dbl_isfinite value) || dbl_ltb value (dbl_of_Z INT32_MIN) ||
     dbl_ltb (dbl_of_Z INT32_MAX) value
  then Throw InvalidArgument
  else
    match dbl_llround value with
    | Some z => Ok (i32 z)
    | None => Throw UndefinedRead
    end.

Definition TradingVariables_to_json (v : TradingVariables) : json :=
  json_object
    [("STRATEGY", JString (STRATEGY v));
     ("STOP_DISTANCE_IN_ATR", JString (to_string (STOP_DISTANCE_IN_ATR v)));
     ("LIMIT_DISTANCE_IN_ATR", JString (to_string (LIMIT_DISTANCE_IN_ATR v)));
     ("TRADING_SIZE", JString (to_string (TRADING_SIZE v)))].

Definition TradingVariables_from_json (j : json) : result TradingVariables :=
  s <~ from_strict get_string "STRATEGY" j ;
  sl <~ from_strict readIntField "STOP_DISTANCE_IN_ATR" j ;
  tp <~ from_strict readIntField "LIMIT_DISTANCE_IN_ATR" j ;
  size <~ from_strict readIntField "TRADING_SIZE" j ;
  Ok (mkTradingVariables s sl tp size).

(** An integer text is read back exactly. *)
Lemma readIntField_to_string z : in_i32 z -> readIntField (JString (to_string z)) = Ok z.
Proof.
  unfold in_i32. intros Hz. unfold readIntField. cbn [is_string get_string result_bind].
  rewrite stod_to_string by lia. cbn [result_bind]. unfold INT32_MIN, INT32_MAX.
  rewrite dbl_of_Z_finite, !dbl_ltb_of_Z, dbl_llround_of_Z by lia.
  rewrite (proj2 (Z.ltb_ge _ _)), (proj2 (Z.ltb_ge _ _)) by lia. cbn [negb orb].
  now rewrite i32_id.
Qed.

#[export, program] Instance TradingVariables_codec : JsonCodec TradingVariables := {|
  to_json := TradingVariables_to_json;
  from_json := TradingVariables_from_json;
  codec_ok v :=
    text_ok (STRATEGY v) /\ in_i32 (STOP_DISTANCE_IN_ATR v) /\
    in_i32 (LIMIT_DISTANCE_IN_ATR v) /\ in_i32 (TRADING_SIZE v);
  codec_object _ := eq_refl;
|}.
Next Obligation.
  intros [s sl tp size] (? & ? & ? & ?). unfold TradingVariables_to_json. open_record. pairs_ok;
    [done| |  |]; cbn [json_ok]; apply to_string_valid; unfold in_i32 in *; lia.
Qed.
Next Obligation.
  intros [s sl tp size] (? & ? & ? & ?).
  unfold TradingVariables_from_json, TradingVariables_to_json. open_record. read_fields.
  repeat (rewrite readIntField_to_string by done; cbn [result_bind]; read_fields). done.
Qed.

(** * Strategies *)

Definition StrategyConfig_to_json (c : StrategyConfig) : json :=
  json_object
    [("UUID", JString (UUID c));
     ("TRADING_VARIABLES", to_json (TRADING_VARIABLES c));
     ("OHLC_VARIABLES", JArray (list_to_json to_json (OHLC_VARIABLES c)));
     ("RANGE_VARIABLES", JArray (list_to_json to_json (RANGE_VARIABLES c)));
     ("STRATEGY_VARIABLES", to_json (STRATEGY_VARIABLES c))].

(** [RANGE_VARIABLES] alone may be missing. *)
Definition StrategyConfig_from_json (j : json) : result StrategyConfig :=
  uuid <~ from_strict get_string "UUID" j ;
  tv <~ from_strict from_json "TRADING_VARIABLES" j ;
  ohlc <~ from_strict (get_vector from_json) "OHLC_VARIABLES" j ;
  range <~ json_value (get_vector from_json) "RANGE_VARIABLES" [] j ;
  sv <~ from_strict from_json "STRATEGY_VARIABLES" j ;
  Ok (mkStrategyConfig uuid tv ohlc range sv).

Lemma vector_reads {T} `{JsonCodec T} (l : list T) :
  Forall codec_ok l -> get_vector from_json (canon (JArray (list_to_json to_json l))) = Ok l.
Proof. intros Hl. apply get_list_canon. eapply Forall_impl; [exact Hl|]. apply codec_reads. Qed.

Lemma vector_json_ok {T} `{JsonCodec T} (l : list T) :
  Forall codec_ok l -> json_ok (JArray (list_to_json to_json l)) = true.
Proof. intros Hl. apply list_json_ok. eapply Forall_impl; [exact Hl|]. apply codec_json_ok. Qed.

#[export, program] Instance StrategyConfig_codec : JsonCodec StrategyConfig := {|
  to_json := StrategyConfig_to_json;
  from_json := StrategyConfig_from_json;
  codec_ok c :=
    text_ok (UUID c) /\ codec_ok (TRADING_VARIABLES c) /\ Forall codec_ok (OHLC_VARIABLES c) /\
    Forall codec_ok (RANGE_VARIABLES c) /\ codec_ok (STRATEGY_VARIABLES c);
  codec_object _ := eq_refl;
|}.
Next Obligation.
  intros c (? & ? & ? & ? & ?). unfold StrategyConfig_to_json. pairs_ok;
    [done|now apply codec_json_ok|now apply vector_json_ok|now apply vector_json_ok|
     now apply codec_json_ok].
Qed.
Next Obligation.
  intros c (? & ? & ? & ? & ?). unfold StrategyConfig_from_json, StrategyConfig_to_json.
  rewrite !from_strict_object, json_value_object.
  cbn [assoc String.eqb Ascii.eqb Bool.eqb].
  rewrite !vector_reads, !codec_reads by done. now destruct c.
Qed.

(** * Decimals and runs *)

(** boost's decimal text conversions, which live outside the sources. *)
Class DecimalText (D : Decimal64) : Type := {
  dec_to_chars : decimal64_t -> option string;
  dec_from_chars : string -> option decimal64_t;
}.

Section Runs.
Context {D : Decimal64} {T : DecimalText D}.

Definition decimal_to_json (value : decimal64_t) : result json :=
  match dec_to_chars value with Some s => Ok (JString s) | None => Throw RuntimeError end.

Definition decimal_from_json (j : json) : result decimal64_t :=
  match j with
  | JString s => match dec_from_chars s with Some d => Ok d | None => Throw RuntimeError end
  | _ => Throw (JsonError 303)
  end.

(** A decimal whose text is valid and reads back as itself, as boost documents
    of the text [to_chars] writes. *)
Definition decimal_ok (d : decimal64_t) : Prop :=
  exists s, dec_to_chars d = Some s /\ text_ok s /\ dec_from_chars s = Some d.

Definition defaultRun : RunConfiguration D :=
  mkRunConfiguration D EmptyString EmptyString EmptyString EmptyString 0 0
    (dec_of_Z 10000) (dec_of_Z 0) 0 60 true false 0.

Definition RunConfiguration_pairs (c : RunConfiguration D) (balance loss : json)
    : list (string * json) :=
  [("RUN_ID", JString (RUN_ID c));
   ("SYMBOLS", JString (SYMBOLS c));
   ("BATCH", JString (BATCH c));
   ("EXECUTION_TS", JString (EXECUTION_TS c));
   ("LAST_MONTHS", JInteger (LAST_MONTHS c));
   ("OFFSET_MONTHS", JInteger (OFFSET_MONTHS c));
   ("STARTING_BALANCE", balance);
   ("MAX_LOSS_PERCENT", loss);
   ("MAX_OPEN_TRADES", JInteger (MAX_OPEN_TRADES c));
   ("MAX_TRADES_PER_MINUTE", JInteger (MAX_TRADES_PER_MINUTE c));
   ("REPORT_FAILURES", JBoolean (REPORT_FAILURES c));
   ("PEAK_HOURS_ONLY", JBoolean (PEAK_HOURS_ONLY c));
   ("ENTRY_SLIPPAGE_TENTH_PIPS", JInteger (ENTRY_SLIPPAGE_TENTH_PIPS c))].

Definition RunConfiguration_to_json (c : RunConfiguration D) : result json :=
  balance <~ decimal_to_json (STARTING_BALANCE c) ;
  loss <~ decimal_to_json (MAX_LOSS_PERCENT c) ;
  Ok (json_object (RunConfiguration_pairs c balance loss)).

(** The optional fields, with the defaults of the struct. *)
Definition RunConfiguration_optional (j : json) (run_id symbols : string) (last_months : Z)
    : result (RunConfiguration D) :=
  batch <~ json_value get_string "BATCH" (BATCH defaultRun) j ;
  ts <~ json_value get_string "EXECUTION_TS" (EXECUTION_TS defaultRun) j ;
  offset <~ json_value get_int "OFFSET_MONTHS" (OFFSET_MONTHS defaultRun) j ;
  balance <~ json_value decimal_from_json "STARTING_BALANCE" (STARTING_BALANCE defaultRun) j ;
  loss <~ json_value decimal_from_json "MAX_LOSS_PERCENT" (MAX_LOSS_PERCENT defaultRun) j ;
  trades <~ json_value get_int "MAX_OPEN_TRADES" (MAX_OPEN_TRADES defaultRun) j ;
  rate <~ json_value get_int "MAX_TRADES_PER_MINUTE" (MAX_TRADES_PER_MINUTE defaultRun) j ;
  report <~ json_value get_bool "REPORT_FAILURES" (REPORT_FAILURES defaultRun) j ;
  peak <~ json_value get_bool "PEAK_HOURS_ONLY" (PEAK_HOURS_ONLY defaultRun) j ;
  slip <~ json_value get_int "ENTRY_SLIPPAGE_TENTH_PIPS"
            (ENTRY_SLIPPAGE_TENTH_PIPS defaultRun) j ;
  Ok (mkRunConfiguration D run_id symbols batch ts last_months offset balance loss trades rate
        report peak slip).

Definition RunConfiguration_from_json (j : json) : result (RunConfiguration D) :=
  run_id <~ from_strict get_string "RUN_ID" j ;
  symbols <~ from_strict get_string "SYMBOLS" j ;
  last_months <~ from_strict get_int "LAST_MONTHS" j ;
  RunConfiguration_optional j run_id symbols last_months.

(** [Configuration]: the run's fields and the strategy. *)
Definition Configuration_to_json (c : Configuration D) : result json :=
  balance <~ decimal_to_json (STARTING_BALANCE (RUN c)) ;
  loss <~ decimal_to_json (MAX_LOSS_PERCENT (RUN c)) ;
  Ok (json_object (RunConfiguration_pairs (RUN c) balance loss
                   ++ [("STRATEGY", to_json (STRATEGY_CONFIG c))])).

Definition Configuration_from_json (j : json) : result (Configuration D) :=
  run_id <~ from_strict get_string "RUN_ID" j ;
  symbols <~ from_strict get_string "SYMBOLS" j ;
  last_months <~ from_strict get_int "LAST_MONTHS" j ;
  strategy <~ from_strict from_json "STRATEGY" j ;
  run <~ RunConfiguration_optional j run_id symbols last_months ;
  Ok (mkConfiguration D run strategy).

Definition run_ok (c : RunConfiguration D) : Prop :=
  text_ok (RUN_ID c) /\ text_ok (SYMBOLS c) /\ text_ok (BATCH c) /\ text_ok (EXECUTION_TS c) /\
  in_i32 (LAST_MONTHS c) /\ in_i32 (OFFSET_MONTHS c) /\
  decimal_ok (STARTING_BALANCE c) /\ decimal_ok (MAX_LOSS_PERCENT c) /\
  in_i32 (MAX_OPEN_TRADES c) /\ in_i32 (MAX_TRADES_PER_MINUTE c) /\
  in_i32 (ENTRY_SLIPPAGE_TENTH_PIPS c).

Lemma run_pairs_ok c balance loss :
  run_ok c -> json_ok balance = true -> json_ok loss = true ->
  forallb pair_ok (RunConfiguration_pairs c balance loss) = true.
Proof.
  intros (? & ? & ? & ? & ? & ? & _ & _ & ? & ? & ?) Hb Hl. unfold RunConfiguration_pairs.
  cbn [forallb]. unfold pair_ok. cbn [fst snd].
  repeat rewrite andb_true_iff; repeat match goal with |- _ /\ _ => split end;
    lazymatch goal with
    | |- utf8_valid (chars (String _ _)) = true => vm_compute; reflexivity
    | |- json_ok (JInteger _) = true => now apply json_ok_int
    | |- _ => done
    end.
Qed.

(** Reading the optional fields of an object that starts with a run's pairs. *)
Lemma run_optional_reads c sb sl rest :
  run_ok c ->
  dec_from_chars sb = Some (STARTING_BALANCE c) -> dec_from_chars sl = Some (MAX_LOSS_PERCENT c) ->
  RunConfiguration_optional
    (canon (json_object (RunConfiguration_pairs c (JString sb) (JString sl) ++ rest)))
    (RUN_ID c) (SYMBOLS c) (LAST_MONTHS c) = Ok c.
Proof.
  intros (? & ? & ? & ? & ? & ? & _ & _ & ? & ? & ?) Hb Hl.
  unfold RunConfiguration_optional, RunConfiguration_pairs. cbn [app].
  rewrite !json_value_object. cbn [assoc String.eqb Ascii.eqb Bool.eqb].
  rewrite !get_int_canon by done.
  cbn [canon get_string get_bool decimal_from_json result_bind]. rewrite Hb, Hl.
  cbn [result_bind]. now destruct c.
Qed.

Lemma RunConfiguration_round_trip c :
  run_ok c ->
  exists j, RunConfiguration_to_json c = Ok j /\ json_ok j = true /\
            RunConfiguration_from_json (canon j) = Ok c.
Proof.
  intros Hc. pose proof Hc as (? & ? & ? & ? & ? & ? & (sb & Hsb & Hbt & Hbr) & (sl & Hsl & Hlt & Hlr) & _).
  unfold RunConfiguration_to_json, decimal_to_json. rewrite Hsb, Hsl. cbn [result_bind].
  eexists. split; [done|]. split; [apply json_object_ok, run_pairs_ok; done|].
  unfold RunConfiguration_from_json. rewrite <- (app_nil_r (RunConfiguration_pairs _ _ _)).
  rewrite !from_strict_object. unfold RunConfiguration_pairs at 1 2 3.
  cbn [app assoc String.eqb Ascii.eqb Bool.eqb]. rewrite !get_int_canon by done.
  cbn [canon get_string result_bind]. now apply run_optional_reads.
Qed.

Lemma Configuration_round_trip c :
  run_ok (RUN c) -> codec_ok (STRATEGY_CONFIG c) ->
  exists j, Configuration_to_json c = Ok j /\ json_ok j = true /\
            Configuration_from_json (canon j) = Ok c.
Proof.
  intros Hc Hs. pose proof Hc as (? & ? & ? & ? & ? & ? & (sb & Hsb & Hbt & Hbr) & (sl & Hsl & Hlt & Hlr) & _).
  unfold Configuration_to_json, decimal_to_json. rewrite Hsb, Hsl. cbn [result_bind].
  eexists. split; [done|]. split.
  - apply json_object_ok. rewrite forallb_app, run_pairs_ok by done. cbn [forallb andb].
    unfold pair_ok. cbn [fst snd]. rewrite codec_json_ok by done. vm_compute. reflexivity.
  - unfold Configuration_from_json. rewrite !from_strict_object.
    unfold RunConfiguration_pairs at 1 2 3 4.
    cbn [app assoc String.eqb Ascii.eqb Bool.eqb]. rewrite !get_int_canon, codec_reads by done.
    cbn [canon get_string result_bind]. rewrite run_optional_reads by done. now destruct c.
Qed.

(** * The payload parsers *)

Definition parseConfigurationFromBase64 (input : string) : result (Configuration D) :=
  s <~ b64decode input ; j <~ parse s ; Configuration_from_json j.

Definition parseRunConfigurationFromBase64 (input : string) : result (RunConfiguration D) :=
  s <~ b64decode input ; j <~ parse s ; RunConfiguration_from_json j.

Lemma b64_parse_round_trip {A} (read : json -> result A) j a :
  json_ok j = true -> read (canon j) = Ok a ->
  exists s, dump j = Ok s /\
    (t <~ b64decode (b64encode s) ; j <~ parse t ; read j) = Ok a.
Proof.
  intros Hj Ha. destruct (dump_parse_canon _ Hj) as (s & Hd & Hp). exists s. split; [done|].
  unfold b64decode, b64encode. rewrite chars_text, decode_encode_chars. cbn [result_bind].
  now rewrite text_chars, Hp.
Qed.
End Runs.

Definition parseStrategyFromBase64 (input : string) : result StrategyConfig :=
  parseFromBase64 input.

(** * What an accepted payload satisfies *)

(** A record of integers whose reader only returns well-formed values. *)
Class TypedCodec (T : Type) `{JsonCodec T} : Prop :=
  codec_typed (j : json) (v : T) : from_json j = Ok v -> codec_ok v.

Lemma cast_float_range d z : cast_float 32 d = Ok z -> in_i32 z.
Proof.
  unfold cast_float. destruct (dbl_trunc d) as [x|]; [|discriminate].
  destruct (_ && _) eqn:E; [|discriminate]. intros [= <-]. zbool. unfold in_i32. lia.
Qed.

Lemma get_int_range j z : get_int j = Ok z -> in_i32 z.
Proof.
  destruct j; cbn [get_int]; try discriminate.
  - intros [= <-]. destruct b; unfold in_i32; lia.
  - intros [= <-]. apply i32_range.
  - intros [= <-]. apply i32_range.
  - apply cast_float_range.
Qed.

Lemma default_int_range key j z : from_with_default get_int key 0 j = Ok z -> in_i32 z.
Proof.
  unfold from_with_default, json_value. destruct (negb (is_null j)).
  - destruct j; try discriminate. destruct (obj_find key members); [apply get_int_range|].
    intros [= <-]. unfold in_i32. lia.
  - intros [= <-]. unfold in_i32. lia.
Qed.

Lemma strict_int_range key j z : from_strict get_int key j = Ok z -> in_i32 z.
Proof.
  unfold from_strict. destruct (json_at key j); [|discriminate]. apply get_int_range.
Qed.

Lemma readIntField_range j z : readIntField j = Ok z -> in_i32 z.
Proof.
  unfold readIntField. destruct (if is_string j then _ else _) as [v|]; [|discriminate].
  cbn [result_bind]. destruct (_ || _); [discriminate|].
  destruct (dbl_llround v); [|discriminate]. intros [= <-]. apply i32_range.
Qed.

Lemma strict_readInt_range key j z : from_strict readIntField key j = Ok z -> in_i32 z.
Proof.
  unfold from_strict. destruct (json_at key j); [|discriminate]. apply readIntField_range.
Qed.

(** Splits a reader that returned into the fields it read. *)
Ltac read_back H :=
  repeat match type of H with
  | result_bind ?m _ = Ok _ =>
      let E := fresh "E" in destruct m eqn:E; [cbn [result_bind] in H|discriminate]
  end.

Ltac typed_codec H :=
  read_back H; injection H as <-; open_record;
  repeat match goal with |- _ /\ _ => split end;
  first [eapply default_int_range; eassumption | eapply strict_int_range; eassumption].

#[export] Instance OHLCRSIVariables_typed : TypedCodec OHLCRSIVariables.
Proof.
  intros j v H. cbn [from_json OHLCRSIVariables_codec] in H. unfold OHLCRSIVariables_from_json in H. typed_codec H.
Qed.
#[export] Instance OHLCBreakoutVariables_typed : TypedCodec OHLCBreakoutVariables.
Proof.
  intros j v H. cbn [from_json OHLCBreakoutVariables_codec] in H. unfold OHLCBreakoutVariables_from_json in H. typed_codec H.
Qed.
#[export] Instance FVGStrategyVariables_typed : TypedCodec FVGStrategyVariables.
Proof.
  intros j v H. cbn [from_json FVGStrategyVariables_codec] in H. unfold FVGStrategyVariables_from_json in H. typed_codec H.
Qed.
#[export] Instance KeltnerFadeVariables_typed : TypedCodec KeltnerFadeVariables.
Proof.
  intros j v H. cbn [from_json KeltnerFadeVariables_codec] in H. unfold KeltnerFadeVariables_from_json in H. typed_codec H.
Qed.
#[export] Instance SessionRangeBreakoutVariables_typed : TypedCodec SessionRangeBreakoutVariables.
Proof.
  intros j v H. cbn [from_json SessionRangeBreakoutVariables_codec] in H. unfold SessionRangeBreakoutVariables_from_json in H. typed_codec H.
Qed.
#[export] Instance SqueezeBreakoutVariables_typed : TypedCodec SqueezeBreakoutVariables.
Proof.
  intros j v H. cbn [from_json SqueezeBreakoutVariables_codec] in H. unfold SqueezeBreakoutVariables_from_json in H. typed_codec H.
Qed.
#[export] Instance NyOpenRangeBreakoutVariables_typed : TypedCodec NyOpenRangeBreakoutVariables.
Proof.
  intros j v H. cbn [from_json NyOpenRangeBreakoutVariables_codec] in H. unfold NyOpenRangeBreakoutVariables_from_json in H. typed_codec H.
Qed.
#[export] Instance LiquiditySweepReversalVariables_typed : TypedCodec LiquiditySweepReversalVariables.
Proof.
  intros j v H. cbn [from_json LiquiditySweepReversalVariables_codec] in H. unfold LiquiditySweepReversalVariables_from_json in H. typed_codec H.
Qed.
#[export] Instance RangeVelocityVariables_typed : TypedCodec RangeVelocityVariables.
Proof.
  intros j v H. cbn [from_json RangeVelocityVariables_codec] in H. unfold RangeVelocityVariables_from_json in H. typed_codec H.
Qed.

#[export] Instance OHLCVariables_typed : TypedCodec OHLCVariables.
Proof.
  intros j v H. cbn [from_json OHLCVariables_codec] in H. unfold OHLCVariables_from_json in H. read_back H.
  unfold checkOHLCVariables in H. destruct (_ || _) eqn:Eg; [discriminate|]. injection H as <-.
  apply strict_int_range in E, E0. open_record. zbool. ilia.
Qed.

#[export] Instance RangeBarVariables_typed : TypedCodec RangeBarVariables.
Proof.
  intros j v H. cbn [from_json RangeBarVariables_codec] in H. unfold RangeBarVariables_from_json in H. read_back H.
  unfold checkRangeBarVariables in H. destruct (_ || _) eqn:Eg; [discriminate|]. injection H as <-.
  apply strict_int_range in E, E0, E1. open_record. zbool. ilia.
Qed.

Lemma group_typed {T} `{TypedCodec T} key j v : group_from_json key j = Ok v -> group_ok v.
Proof.
  unfold group_from_json. destruct (contains key j); [|now intros [= <-]].
  destruct (json_at key j) as [x|]; [|discriminate]. cbn [result_bind].
  destruct (negb (is_null x)); [|now intros [= <-]].
  destruct (from_json x) as [y|] eqn:E; [|discriminate]. intros [= <-]. eapply codec_typed, E.
Qed.

#[export] Instance StrategyVariables_typed : TypedCodec StrategyVariables.
Proof.
  intros j v H. cbn [from_json StrategyVariables_codec] in H. unfold StrategyVariables_from_json in H.
  read_back H. injection H as <-. cbn. repeat match goal with |- _ /\ _ => split end;
  eapply group_typed; eassumption.
Qed.

Lemma vector_typed {T} `{TypedCodec T} j l : get_vector from_json j = Ok l -> Forall codec_ok l.
Proof.
  destruct j; try discriminate. cbn [get_vector]. revert l.
  induction elements as [|x elements IH]; intros l; cbn [get_list]; [intros [= <-]; constructor|].
  intros H1. read_back H1. injection H1 as <-. constructor; [eapply codec_typed; eassumption|].
  now apply IH.
Qed.

(** Every integer field in 32 bits, no negative feed dimension. *)
Definition strategy_typed (c : StrategyConfig) : Prop :=
  in_i32 (STOP_DISTANCE_IN_ATR (TRADING_VARIABLES c)) /\
  in_i32 (LIMIT_DISTANCE_IN_ATR (TRADING_VARIABLES c)) /\
  in_i32 (TRADING_SIZE (TRADING_VARIABLES c)) /\
  Forall codec_ok (OHLC_VARIABLES c) /\ Forall codec_ok (RANGE_VARIABLES c) /\
  codec_ok (STRATEGY_VARIABLES c).

Lemma strategy_from_json_typed j c : from_json j = Ok c -> strategy_typed c.
Proof.
  intros H. cbn [from_json StrategyConfig_codec] in H. unfold StrategyConfig_from_json in H.
  read_back H. injection H as <-. unfold strategy_typed. cbn [TRADING_VARIABLES OHLC_VARIABLES RANGE_VARIABLES STRATEGY_VARIABLES].
  unfold from_strict, json_value in E0, E1, E2, E3.
  repeat match goal with H : result_bind (json_at ?k j) _ = Ok _ |- _ =>
    let E := fresh "F" in destruct (json_at k j) eqn:E; [cbn [result_bind] in H|discriminate] end.
  assert (Forall codec_ok a2) as Hr.
  { destruct j; try discriminate E2. destruct (obj_find _ members); [|injection E2 as <-; constructor].
    eapply vector_typed, E2. }
  cbn [from_json TradingVariables_codec] in E0. unfold TradingVariables_from_json in E0. read_back E0.
  injection E0 as <-. cbn [STOP_DISTANCE_IN_ATR LIMIT_DISTANCE_IN_ATR TRADING_SIZE].
  repeat match goal with H : from_strict readIntField _ _ = Ok _ |- _ => apply strict_readInt_range in H end.
  split; [done|]. split; [done|]. split; [done|].
  split; [eapply vector_typed; eassumption|]. split; [done|]. eapply codec_typed; eassumption.
Qed.

(** * Properties *)

(** C21: a strategy the loader serialises (fields of their width, valid text, no
    negative feed dimension), dumped and base64-encoded onto the queue, is
    decoded, parsed and read back by the worker as the same strategy. *)
Theorem strategy_payload_round_trip (c : StrategyConfig) :
  codec_ok c ->
  exists s, dump (to_json c) = Ok s /\ parseStrategyFromBase64 (b64encode s) = Ok c.
Proof. apply payload_round_trip. Qed.

Definition sample_strategy : StrategyConfig :=
  mkStrategyConfig "7b0c" (mkTradingVariables "FVGStrategy" 2 (-3) 1)
    [mkOHLCVariables 30 5; mkOHLCVariables 50 60] [mkRangeBarVariables 2000 15 40]
    (mkStrategyVariables None None (Some (mkFVGStrategyVariables 20 3 50 0 240)) None None None
       None None (Some (mkRangeVelocityVariables 3 20 80 2 0))).

Lemma sample_strategy_ok : codec_ok sample_strategy.
Proof.
  cbn. unfold text_ok, in_i32. repeat match goal with
  | |- _ /\ _ => split | |- Forall _ _ => constructor | |- utf8_valid _ = true => vm_compute; reflexivity
  | |- True => exact I | |- _ => lia end; cbn; lia.
Qed.

Lemma strategy_payload_round_trip_witness :
  codec_ok sample_strategy /\
  exists s, dump (to_json sample_strategy) = Ok s /\
            parseStrategyFromBase64 (b64encode s) = Ok sample_strategy.
Proof.
  split; [exact sample_strategy_ok|].
  exact (strategy_payload_round_trip sample_strategy sample_strategy_ok).
Defined.


Definition sample_input : string :=
  b64encode (match dump (to_json sample_strategy) with Ok s => s | Throw _ => EmptyString end).


(** A run descriptor, and a whole configuration, survive their payload: with
    decimals whose text boost reads back, the descriptor dumped and encoded is
    decoded, parsed and read back unchanged, optional fields included. *)
Theorem configuration_payload_round_trip {D : Decimal64} {T : DecimalText D}
    (run : RunConfiguration D) (strategy : StrategyConfig) :
  run_ok run -> codec_ok strategy ->
  (exists j s, RunConfiguration_to_json run = Ok j /\ dump j = Ok s /\
     parseRunConfigurationFromBase64 (b64encode s) = Ok run) /\
  (exists j s, Configuration_to_json (mkConfiguration D run strategy) = Ok j /\ dump j = Ok s /\
     parseConfigurationFromBase64 (b64encode s) = Ok (mkConfiguration D run strategy)).
Proof.
  intros Hr Hs. split.
  - destruct (RunConfiguration_round_trip run Hr) as (j & Hj & Hok & Hread).
    destruct (b64_parse_round_trip _ j run Hok Hread) as (s & Hd & Hp). eauto.
  - destruct (Configuration_round_trip (mkConfiguration D run strategy) Hr Hs) as (j & Hj & Hok & Hread).
    destruct (b64_parse_round_trip _ j _ Hok Hread) as (s & Hd & Hp). eauto.
Qed.

(** Integers as decimals, written as plain digits. *)
Definition plainDecimal : Decimal64 := {|
  decimal64_t := Z; dec_of_Z := fun z => z; dec_add := Z.add; dec_mul := Z.mul;
  dec_div := Z.quot; dec_ltb := Z.ltb; dec_leb := Z.leb; dec_to_Z := fun z => z;
|}.

Definition plainText : DecimalText plainDecimal :=
  @Build_DecimalText plainDecimal (fun d => Some (to_string d))
    (fun s => match stod s with Ok v => dbl_llround v | Throw _ => None end).

Definition sample_run : RunConfiguration plainDecimal :=
  mkRunConfiguration plainDecimal "r1" "EURUSD,GBPUSD" "2026-28" "2026-07-08T10:00:00.000Z" 6 0
    10000 25 3 60 false true 3.

Lemma configuration_payload_round_trip_witness :
  run_ok (T := plainText) sample_run /\
  (exists j s, RunConfiguration_to_json (T := plainText) sample_run = Ok j /\ dump j = Ok s /\
     parseRunConfigurationFromBase64 (T := plainText) (b64encode s) = Ok sample_run).
Proof.
  assert (run_ok (T := plainText) sample_run) as H.
  { unfold run_ok. split_and!;
      lazymatch goal with
      | |- text_ok _ => vm_compute; reflexivity
      | |- decimal_ok ?d => exists (to_string d); split_and!; vm_compute; reflexivity
      | |- _ => vm_compute; split; discriminate
      end. }
  split; [exact H|].
  exact (proj1 (configuration_payload_round_trip (T := plainText) sample_run sample_strategy H
    sample_strategy_ok)).
Defined.
