(* ===== verification/EntryConditions.v ===== *)
(** strategies/conditions/entryConditions.cppm: the volatility gate in front of
    every entry, and the exit distances it derives from the ATR. *)
From S2P Require Import Prelude Models Config OhlcBuilder Indicators BarStore.
From S2P Require SymbolScale.

Definition kAtrPeriod : Z := 10.
Definition kFallbackBarMinutes : Z := 15.
Definition kMaxSpreadNum : Z := 3.
Definition kMaxSpreadDen : Z := 10.
Definition kMinStopPips : Z := 10.
Definition kMaxStopPips : Z := 80.
Definition kMinLimitPips : Z := 3.
Definition kMaxLimitPips : Z := 300.

Record Distances : Type := mkDistances { stopPips : Z; limitPips : Z }.

(** [std::clamp]. *)
Definition clamp (v lo hi : Z) : Z := if v <? lo then lo else if hi <? v then hi else v.

Definition gateSeriesFor (config : StrategyConfig) : SeriesSpec :=
  match OHLC_VARIABLES config with
  | primary :: _ =>
      if 1 <=? OHLC_MINUTES primary
      then mkSeriesSpec (OHLC_MINUTES primary) (Z.max (OHLC_COUNT primary) (kAtrPeriod + 1))
      else mkSeriesSpec kFallbackBarMinutes (kAtrPeriod + 1)
  | [] => mkSeriesSpec kFallbackBarMinutes (kAtrPeriod + 1)
  end.

Definition check (store : BarStore) (gateSeries : SeriesSpec) (tick : PriceData)
    (stopMultiplier limitMultiplier : Z) : result (option Distances) :=
  let pointsPerPip := SymbolScale.get (symbol tick) in
  if pointsPerPip =? SymbolScale.kUnknown then Ok None
  else match find store (symbol tick) (ssMinutes gateSeries) with
       | None => Ok None
       | Some candles =>
           atrPoints <~ Atr.calculate candles kAtrPeriod;
           if atrPoints <=? 0 then Ok None
           else
             let spreadPoints := ask tick -₆₄ bid tick in
             if (atrPoints *₆₄ kMaxSpreadNum) <? (spreadPoints *₆₄ kMaxSpreadDen) then Ok None
             else
               let stopPointsRaw := atrPoints *₆₄ stopMultiplier in
               let limitPointsRaw := atrPoints *₆₄ limitMultiplier in
               if (stopPointsRaw <? (kMinStopPips *₆₄ pointsPerPip))
                  || (limitPointsRaw <? (kMinLimitPips *₆₄ pointsPerPip))
               then Ok None
               else Ok (Some (mkDistances
                      (clamp (i32 (stopPointsRaw ÷ pointsPerPip)) kMinStopPips kMaxStopPips)
                      (clamp (i32 (limitPointsRaw ÷ pointsPerPip)) kMinLimitPips kMaxLimitPips)))
       end.

(** The clamps bound whatever passes. *)
Lemma check_clamped store gate tick sm lm d :
  check store gate tick sm lm = Ok (Some d) -> 10 <= stopPips d <= 80 /\ 3 <= limitPips d <= 300.
Proof.
  unfold check. destruct (_ =? SymbolScale.kUnknown); [done|]. destruct (find _ _ _); [|done].
  destruct (Atr.calculate _ _) as [atr|]; [|done]. cbn [result_bind].
  destruct (atr <=? 0); [done|]. destruct (_ <? _); [done|]. destruct (_ || _); [done|].
  intros [= <-]. cbn [stopPips limitPips]. unfold clamp, kMinStopPips, kMaxStopPips,
    kMinLimitPips, kMaxLimitPips. repeat split_test; zbool; lia.
Qed.

(** ** Specification *)

(** The average true range of the last eleven candles, rounded to nearest. *)
Definition gate_atr (candles : list OhlcObject) : Z :=
  if (length candles <? 11)%nat then 0
  else (sum_list_Z (Atr.true_ranges (last_n 11 candles)) + 5) / 10.

(** The market conditions under which an entry is allowed. *)
Definition entry_allowed (atr pointsPerPip spread stopMultiplier limitMultiplier : Z) : Prop :=
  0 < atr /\ 10 * spread <= 3 * atr /\
  10 * pointsPerPip <= atr * stopMultiplier /\ 3 * pointsPerPip <= atr * limitMultiplier.

#[export] Instance entry_allowed_dec a p s sm lm : Decision (entry_allowed a p s sm lm).
Proof. unfold entry_allowed. apply _. Defined.

(** The distances, in whole pips: the floors never bind once the gate is passed. *)
Definition entry_distances (atr pointsPerPip stopMultiplier limitMultiplier : Z) : Distances :=
  mkDistances (Z.min 80 (atr * stopMultiplier / pointsPerPip))
              (Z.min 300 (atr * limitMultiplier / pointsPerPip)).

(** * Facts *)

Lemma gate_atr_exact candles :
  Forall bar_ok candles ->
  Atr.calculate candles kAtrPeriod = Ok (gate_atr candles) /\ 0 <= gate_atr candles < 8388608.
Proof.
  intros Hok. unfold gate_atr. destruct (Nat.ltb_spec (length candles) 11) as [Hc|Hc].
  - split; [|lia]. unfold Atr.calculate, kAtrPeriod. cbn [Z.ltb Z.compare].
    change (Z.to_nat 10 + 1)%nat with 11%nat. rewrite (proj2 (Nat.ltb_lt _ _)) by lia. reflexivity.
  - destruct (atr_calculate_exact candles 10) as (Hl & Hb & E); [lia|done|lia|].
    change (Z.to_nat 10 + 1)%nat with 11%nat in *. change (Z.to_nat 10) with 10%nat in Hl.
    split; [exact E|]. pose proof (sum_list_Z_bound 0 8388607 _
      (Forall_impl _ _ _ Hb (fun r (H : 0 <= r < 8388608) => ltac:(lia) : 0 <= r <= 8388607))) as Hs.
    rewrite Hl in Hs. Z.div_mod_to_equations. lia.
Qed.

Lemma clamp_min v lo hi : lo <= hi -> lo <= v -> clamp v lo hi = Z.min hi v.
Proof.
  intros. unfold clamp. destruct (Z.ltb_spec v lo), (Z.ltb_spec hi v); lia.
Qed.

(** A raw distance that clears its floor in points clears it in pips. *)
Lemma distance_pips raw floor cap ppp :
  0 < ppp <= 1000 -> 0 < floor <= cap -> floor * ppp <= raw < 2147483648 ->
  clamp (i32 (raw ÷ ppp)) floor cap = Z.min cap (raw / ppp).
Proof.
  intros Hp Hf Hr. assert (0 <= raw) by nia. rewrite Z.quot_div_nonneg by lia.
  assert (floor <= raw / ppp) by (apply Z.div_le_lower_bound; lia).
  assert (raw / ppp <= raw) by (apply Z.div_le_upper_bound; nia).
  rewrite i32_id by ilia. apply clamp_min; lia.
Qed.

(** The gate decides exactly what its documentation says.  Over a store
    whose gate series holds in-range candles and for multipliers up to 100, an
    entry passes exactly when the symbol is known and ATR(10) over the last
    eleven candles is positive, the spread is at most 30 percent of it, and the
    stop and limit distances reach 10 and 3 pips; the distances are then the
    whole pips of ATR x multiplier capped at 80 and 300 pips, so a stop is always
    in [10, 80] and a limit in [3, 300]. It never throws. *)
Theorem check_exact (store : BarStore) (gate : SeriesSpec) (tick : PriceData) (sm lm : Z)
    (candles : list OhlcObject)
    (Hfind : find store (symbol tick) (ssMinutes gate) = Some candles)
    (Hok : Forall bar_ok candles) (Htick : tick_ok tick)
    (Hsm : -100 <= sm <= 100) (Hlm : -100 <= lm <= 100) :
  let ppp := SymbolScale.get (symbol tick) in
  let atr := gate_atr candles in
  check store gate tick sm lm =
    Ok (if decide (ppp <> 0 /\ entry_allowed atr ppp (ask tick - bid tick) sm lm)
        then Some (entry_distances atr ppp sm lm) else None) /\
  (ppp <> 0 -> entry_allowed atr ppp (ask tick - bid tick) sm lm ->
     let d := entry_distances atr ppp sm lm in
     10 <= stopPips d <= 80 /\ 3 <= limitPips d <= 300).
Proof.
  intros ppp atr. pose proof (SymbolScale.get_cases (symbol tick)) as Hc. fold ppp in Hc.
  destruct (gate_atr_exact candles Hok) as [Ha Hr]. fold atr in Ha, Hr. split.
  2: { intros Hp (_ & _ & Hs & Hl). unfold entry_distances. cbn [stopPips limitPips].
       assert (10 <= atr * sm / ppp) by (apply Z.div_le_lower_bound; lia).
       assert (3 <= atr * lm / ppp) by (apply Z.div_le_lower_bound; lia). lia. }
  unfold check. fold ppp. unfold SymbolScale.kUnknown.
  destruct (Z.eqb_spec ppp 0) as [E|E]; [rewrite decide_False by tauto; done|].
  rewrite Hfind, Ha. cbn [result_bind].
  destruct Htick as [Hpa Hpb]. unfold price_ok in *.
  assert (-1000000000 <= atr * sm <= 1000000000) by nia.
  assert (-1000000000 <= atr * lm <= 1000000000) by nia.
  unfold kMaxSpreadNum, kMaxSpreadDen, kMinStopPips, kMinLimitPips, kMaxStopPips, kMaxLimitPips.
  rewrite (i64_id (ask tick - bid tick)), !i64_id by ilia.
  destruct (decide _) as [[_ Hall]|Hnot]; unfold entry_allowed in *.
  - rewrite (proj2 (Z.leb_gt atr 0)), !(proj2 (Z.ltb_ge _ _)) by lia. cbn [orb].
    unfold entry_distances. rewrite !distance_pips by lia. reflexivity.
  - destruct (Z.leb_spec atr 0), (Z.ltb_spec (atr * 3) ((ask tick - bid tick) * 10)),
      (Z.ltb_spec (atr * sm) (10 * ppp)), (Z.ltb_spec (atr * lm) (3 * ppp));
      cbn [orb]; try reflexivity. exfalso. apply Hnot. lia.
Qed.

Definition demo_candles : list OhlcObject :=
  replicate 11 (mkOhlcObject 0 110050 110050 110100 110000 true).

Definition demo_store : BarStore :=
  mkBarStore [mkSeriesSpec 15 11] {["EURUSD"%string := [demo_candles]]} [] ∅.

Lemma check_exact_witness :
  check demo_store (mkSeriesSpec 15 11) (demo_tick 0 110050) 1 2 = Ok (Some (mkDistances 10 20)).
Proof.
  destruct (check_exact demo_store (mkSeriesSpec 15 11) (demo_tick 0 110050) 1 2 demo_candles)
    as [H _]; [vm_compute; reflexivity| | |lia|lia|].
  - unfold demo_candles. apply Forall_replicate. unfold bar_ok, price_ok. simpl. lia.
  - split; split; simpl; lia.
  - rewrite H. vm_compute. reflexivity.
Defined.
