(* ===== verification/Strategy.v ===== *)
(** strategies/strategy.cppm: the interface every concrete strategy implements,
    and the law of its per-tick hook that the run loop's theorems rely on. *)
From S2P Require Import Prelude Models Config Indicators BarStore TradeManager ExitRules.
From S2P Require Trade.

(** [decide] may throw; [during] borrows the trade manager. *)
Class IStrategy (S : Type) : Type := {
  decide : S -> PriceData -> BarStore -> result (option Direction * S);
  during : S -> PriceData -> BarStore -> TradeManager -> S * TradeManager;
}.

(** What a hook did to the book: nothing, or one ordinary close of the tick
    symbol's trade at its exit side. *)
Definition closed_own (tick : PriceData) (m m' : TradeManager) : Prop :=
  m' = m \/
  exists t, findActiveTrade m (symbol tick) = Some t /\
    m' = (closeTrade m (symbol tick) (exit_side (Trade.direction t) tick) tick false).2.

(** The promise of a well-behaved strategy: its hook never opens, never touches
    another symbol, never invents a price. *)
Class ClosesOnly (S : Type) {I : IStrategy S} : Prop := {
  during_closes_own s tick store m : closed_own tick m (during s tick store m).2;
}.

Lemma closeIfPastCap_closes_own price m cap : closed_own price m (closeIfPastCap price m cap).2.
Proof.
  unfold closeIfPastCap. destruct (cap <=? 0); [now left|].
  destruct (findActiveTrade m (symbol price)) as [t|] eqn:E; [|now left].
  destruct (_ <=? cap); [now left|]. right. exists t. split; [done|reflexivity].
Qed.

(** ** RandomStrategy: a fair coin. The generator is a parameter: an opaque state
    and its draw. *)
Section RandomStrategy.
Context {G : Type} (coin : G -> bool * G).

Definition random_decide (rng : G) (tick : PriceData) (store : BarStore)
    : result (option Direction * G) :=
  let '(heads, rng') := coin rng in
  Ok (Some (if heads then LONG else SHORT), rng').

Definition random_during (rng : G) (price : PriceData) (store : BarStore) (m : TradeManager)
    : G * TradeManager := (rng, m).

Definition RandomStrategy : IStrategy G :=
  {| decide := random_decide; during := random_during |}.

Lemma RandomStrategy_closes_only : ClosesOnly G (I := RandomStrategy).
Proof. split. intros s tick store m. now left. Qed.
End RandomStrategy.

(** ** What the bar strategies share *)

(** One timeframe's own tail: nothing before the series exists and is full. *)
Definition warm_tail (store : BarStore) (symbol : string) (cfg : OHLCVariables)
    : option (list OhlcObject) :=
  match find store symbol (OHLC_MINUTES cfg) with
  | None => None
  | Some series =>
      let count := Z.to_nat (OHLC_COUNT cfg) in
      if (length series <? count)%nat then None else Some (last_n count series)
  end.

(** The extremes of a window, from the seeds the code starts with. *)
Definition highest_high (bars : list OhlcObject) : Z :=
  foldl (fun h bar => Z.max h (high bar)) INT32_MIN bars.
Definition lowest_low (bars : list OhlcObject) : Z :=
  foldl (fun l bar => Z.min l (low bar)) INT32_MAX bars.

(** The trend filter: the newest close of the trend window and the newest value of
    its EMA over half the window. *)
Definition trend_reading (trendBars : list OhlcObject) : result (Z * Z) :=
  let closes := map close trendBars in
  let emaPeriod := Z.of_nat (length closes / 2) in
  emas <~ Ema.calculate closes emaPeriod;
  match last closes, last emas with
  | Some currentClose, Some currentEma => Ok (currentClose, currentEma)
  | _, _ => Throw UndefinedRead
  end.

(** A checked element read: C++ leaves an out-of-range one undefined. *)
Definition read (bars : list OhlcObject) (i : Z) : result OhlcObject :=
  if i <? 0 then Throw UndefinedRead
  else match bars !! Z.to_nat i with Some b => Ok b | None => Throw UndefinedRead end.

(** [for (j = from; ...) if (p(bars[j])) { found = true; break; }] over [n] bars. *)
Fixpoint any_bar (p : OhlcObject -> bool) (bars : list OhlcObject) (from : Z) (n : nat)
    : result bool :=
  match n with
  | O => Ok false
  | S n' => bar <~ read bars from; if p bar then Ok true else any_bar p bars (from + 1) n'
  end.

Lemma read_ok bars i :
  0 <= i < Z.of_nat (length bars) ->
  exists b, read bars i = Ok b /\ bars !! Z.to_nat i = Some b.
Proof.
  intros H. unfold read. rewrite (proj2 (Z.ltb_ge i 0)) by lia.
  destruct (lookup_lt_is_Some_2 bars (Z.to_nat i)) as [b Hb]; [lia|]. rewrite Hb. eauto.
Qed.

Lemma any_bar_spec p bars n : forall from,
  0 <= from -> from + Z.of_nat n <= Z.of_nat (length bars) ->
  any_bar p bars from n = Ok (existsb p (take n (drop (Z.to_nat from) bars))).
Proof.
  induction n as [|n IH]; intros from Hf Hn; [done|]. cbn [any_bar].
  destruct (read_ok bars from) as (b & E & El); [lia|]. rewrite E. cbn [result_bind].
  rewrite (drop_S _ _ _ El). cbn [take existsb].
  destruct (p b); [done|]. rewrite IH by lia. cbn [orb].
  now replace (Z.to_nat (from + 1)) with (S (Z.to_nat from)) by lia.
Qed.

Lemma warm_tail_length store sym cfg bars :
  0 <= OHLC_COUNT cfg -> warm_tail store sym cfg = Some bars ->
  Z.of_nat (length bars) = OHLC_COUNT cfg.
Proof.
  unfold warm_tail. intros Hc. destruct (find _ _ _) as [series|]; [|done].
  destruct (Nat.ltb_spec (length series) (Z.to_nat (OHLC_COUNT cfg))); [done|].
  intros [= <-]. rewrite last_n_length. lia.
Qed.

Lemma highest_high_lt bars x :
  INT32_MIN < x -> (highest_high bars < x <-> Forall (fun b => high b < x) bars).
Proof.
  intros Hx. unfold highest_high.
  assert (forall h, foldl (fun h bar => Z.max h (high bar)) h bars < x <->
    h < x /\ Forall (fun b => high b < x) bars) as H; [|rewrite H; tauto].
  induction bars as [|b bars IH]; intros h; cbn [foldl]; [split; [auto|tauto]|].
  rewrite IH, Forall_cons, Z.max_lub_lt_iff. tauto.
Qed.

Lemma lowest_low_gt bars x :
  x < INT32_MAX -> (x < lowest_low bars <-> Forall (fun b => x < low b) bars).
Proof.
  intros Hx. unfold lowest_low.
  assert (forall l, x < foldl (fun l bar => Z.min l (low bar)) l bars <->
    x < l /\ Forall (fun b => x < low b) bars) as H; [|rewrite H; tauto].
  induction bars as [|b bars IH]; intros l; cbn [foldl]; [split; [auto|tauto]|].
  rewrite IH, Forall_cons, Z.min_glb_lt_iff. tauto.
Qed.

Lemma extremes_range bars :
  bars <> [] -> Forall bar_ok bars ->
  0 <= highest_high bars < 8388608 /\ 0 <= lowest_low bars < 8388608.
Proof.
  intros Hne Hok.
  assert (Forall (fun b => high b < 8388608) bars) as H1
    by (eapply Forall_impl; [exact Hok|]; unfold bar_ok, price_ok; intros; simpl in *; lia).
  assert (Forall (fun b => -1 < low b) bars) as H2
    by (eapply Forall_impl; [exact Hok|]; unfold bar_ok, price_ok; intros; simpl in *; lia).
  apply highest_high_lt in H1; [|ilia]. apply lowest_low_gt in H2; [|ilia].
  destruct bars as [|b bars]; [done|]. inversion Hok as [|? ? Hb _]; subst.
  assert (~ highest_high (b :: bars) < 0) as H3.
  { rewrite highest_high_lt by ilia. intros H. inversion H; subst.
    unfold bar_ok, price_ok in Hb. lia. }
  assert (~ 8388607 < lowest_low (b :: bars)) as H4.
  { rewrite lowest_low_gt by ilia. intros H. inversion H; subst.
    unfold bar_ok, price_ok in Hb. lia. }
  lia.
Qed.

Lemma closes_ok bars : Forall bar_ok bars -> Forall price_ok (map close bars).
Proof.
  intros H. apply Forall_fmap. eapply Forall_impl; [exact H|].
  unfold bar_ok, price_ok. intros b Hb. simpl in *. lia.
Qed.

(** The trend filter on a window of at least two in-range bars. *)
Lemma trend_reading_spec trendBars :
  (2 <= length trendBars)%nat -> Z.of_nat (length trendBars) <= 8388608 ->
  Forall bar_ok trendBars ->
  exists c emas e,
    trend_reading trendBars = Ok (c, e) /\
    last (map close trendBars) = Some c /\
    Ema.calculate (map close trendBars) (Z.of_nat (length trendBars / 2)) = Ok emas /\
    last emas = Some e /\ price_ok e.
Proof.
  intros Hlt Hlz Hok. pose proof (closes_ok _ Hok) as Hcl. unfold trend_reading.
  rewrite length_map.
  destruct (last (map close trendBars)) as [c|] eqn:Ec.
  2: { apply last_None, (f_equal length) in Ec. rewrite length_map in Ec. simpl in Ec. lia. }
  assert (2 * (length trendBars / 2) <= length trendBars)%nat as Hhalf
    by (apply Nat.Div0.mul_div_le).
  assert (1 <= length trendBars / 2)%nat as Hone by (apply Nat.div_le_lower_bound; lia).
  destruct (calculate_last 0 8388607 (map close trendBars) (Z.of_nat (length trendBars / 2)))
    as (emas & e & Ee & El & He); [lia|rewrite length_map; lia|lia|lia| |].
  { eapply Forall_impl; [exact Hcl|]. unfold price_ok. intros; simpl in *; lia. }
  exists c, emas, e. rewrite Ee. cbn [result_bind]. rewrite El.
  unfold price_ok. split_and!; (done || lia).
Qed.

(** A level every bar of a non-empty window stays away from is one its extremes
    stay away from. *)
Lemma above_all bars x buffer :
  price_ok x -> -1000000000 <= buffer <= 1000000000 ->
  Forall (fun b => high b + buffer < x) bars <-> highest_high bars + buffer < x.
Proof.
  intros Hx Hb. rewrite Z.lt_add_lt_sub_r, highest_high_lt by (unfold price_ok in *; ilia).
  apply Forall_iff. intros b. lia.
Qed.

Lemma below_all bars x buffer :
  price_ok x -> -1000000000 <= buffer <= 1000000000 ->
  Forall (fun b => x < low b - buffer) bars <-> x < lowest_low bars - buffer.
Proof.
  intros Hx Hb. rewrite <- Z.lt_add_lt_sub_r, lowest_low_gt by (unfold price_ok in *; ilia).
  apply Forall_iff. intros b. lia.
Qed.
