(* ===== verification/OhlcBreakout.v ===== *)
(** strategies/ohlcBreakout/ohlcBreakoutStrategy.cppm: range breakout with an EMA
    trend filter. *)
From S2P Require Import Prelude Models Config Indicators BarStore TradeManager ExitRules Strategy.
From S2P Require OhlcBuilder SymbolScale.

Record OhlcBreakoutStrategy : Type := mkOhlcBreakout {
  breakoutCfg : OHLCVariables;
  trendCfg : OHLCVariables;
  bufferPips : Z;
  maxTradeDuration : Z;
}.

(** The constructor. *)
Definition makeOhlcBreakout (config : StrategyConfig) : result OhlcBreakoutStrategy :=
  match OHLC_VARIABLES config with
  | breakout :: trend :: _ =>
      if (OHLC_COUNT breakout <? 2) || (OHLC_MINUTES breakout <? 1)
         || (OHLC_COUNT trend <? 2) || (OHLC_MINUTES trend <? 1)
      then Throw InvalidArgument
      else match OHLC_BREAKOUT_VARIABLES (STRATEGY_VARIABLES config) with
           | None => Throw InvalidArgument
           | Some v => Ok (mkOhlcBreakout breakout trend (ob_BUFFER_PIPS v)
                             (minutes (ob_MAX_TRADE_DURATION_MINUTES v)))
           end
  | _ => Throw InvalidArgument
  end.

(** The decision once both windows are full. *)
Definition breakout_signal (bufferPoints : Z) (tick : PriceData)
    (breakoutBars trendBars : list OhlcObject) : result (option Direction) :=
  let closedBars := but_last breakoutBars in
  let highestHigh := highest_high closedBars in
  let lowestLow := lowest_low closedBars in
  ' (currentClose, currentEma) <~ trend_reading trendBars;
  if ((highestHigh +₃₂ bufferPoints) <? bid tick) && (currentEma <? currentClose)
  then Ok (Some LONG)
  else if (ask tick <? (lowestLow -₃₂ bufferPoints)) && (currentClose <? currentEma)
  then Ok (Some SHORT)
  else Ok None.

Definition breakout_decide (s : OhlcBreakoutStrategy) (tick : PriceData) (store : BarStore)
    : result (option Direction) :=
  match find store (symbol tick) (OHLC_MINUTES (breakoutCfg s)),
        find store (symbol tick) (OHLC_MINUTES (trendCfg s)) with
  | Some breakoutSeries, Some trendSeries =>
      let breakoutCount := Z.to_nat (OHLC_COUNT (breakoutCfg s)) in
      let trendCount := Z.to_nat (OHLC_COUNT (trendCfg s)) in
      if (length breakoutSeries <? breakoutCount)%nat || (length trendSeries <? trendCount)%nat
      then Ok None
      else breakout_signal (bufferPips s *₃₂ SymbolScale.get (symbol tick)) tick
             (last_n breakoutCount breakoutSeries) (last_n trendCount trendSeries)
  | _, _ => Ok None
  end.

Definition breakout_during (s : OhlcBreakoutStrategy) (price : PriceData) (store : BarStore)
    (m : TradeManager) : OhlcBreakoutStrategy * TradeManager :=
  (s, (closeIfPastCap price m (maxTradeDuration s)).2).

#[export] Instance OhlcBreakout_IStrategy : IStrategy OhlcBreakoutStrategy := {|
  decide s tick store := signal <~ breakout_decide s tick store; Ok (signal, s);
  during := breakout_during;
|}.

#[export] Instance OhlcBreakout_closes_only : ClosesOnly OhlcBreakoutStrategy.
Proof. split. intros s tick store m. apply closeIfPastCap_closes_own. Qed.

(** * Facts *)

(** The signal on full windows, with every read in range and no wrap. *)
Lemma breakout_signal_spec buffer tick breakoutBars trendBars :
  tick_ok tick -> - 1000000000 <= buffer <= 1000000000 ->
  (2 <= length breakoutBars)%nat -> (2 <= length trendBars)%nat ->
  Z.of_nat (length trendBars) <= 8388608 ->
  Forall bar_ok breakoutBars -> Forall bar_ok trendBars ->
  exists c emas e signal,
    last (map close trendBars) = Some c /\
    Ema.calculate (map close trendBars) (Z.of_nat (length trendBars / 2)) = Ok emas /\
    last emas = Some e /\ price_ok e /\
    breakout_signal buffer tick breakoutBars trendBars = Ok signal /\
    (signal = Some LONG <->
       Forall (fun b => high b + buffer < bid tick) (but_last breakoutBars) /\ e < c) /\
    (signal = Some SHORT <->
       Forall (fun b => ask tick < low b - buffer) (but_last breakoutBars) /\ c < e).
Proof.
  intros [Ha Hb] Hbuf Hlb Hlt Hlz Hokb Hokt.
  destruct (trend_reading_spec trendBars) as (c & emas & e & Er & Ec & Ee & El & He); [done..|].
  assert (but_last breakoutBars <> []) as Hne.
  { intros E. apply (f_equal length) in E. unfold but_last in E. rewrite length_take in E.
    simpl in E. lia. }
  assert (Forall bar_ok (but_last breakoutBars)) as Hokc by (now apply Forall_take).
  destruct (extremes_range _ Hne Hokc) as [Hhi Hlo].
  setoid_rewrite above_all; [|done|done]. setoid_rewrite below_all; [|done|done].
  unfold breakout_signal. rewrite Er. cbn [result_bind]. rewrite !i32_id by ilia.
  destruct (Z.ltb_spec (highest_high (but_last breakoutBars) + buffer) (bid tick));
    destruct (Z.ltb_spec e c); cbn [andb];
    destruct (Z.ltb_spec (ask tick) (lowest_low (but_last breakoutBars) - buffer));
    destruct (Z.ltb_spec c e); cbn [andb];
    try (exfalso; lia);
    (eexists c, emas, e, _; split_and!;
     [done|done|done|done|reflexivity|split; intros; (done || lia || (exfalso; lia))..]).
Qed.

(** Full windows whose closes are in range. *)
Definition windows_full (s : OhlcBreakoutStrategy) (tick : PriceData) (store : BarStore)
    (breakoutBars trendBars : list OhlcObject) : Prop :=
  exists series1 series2,
    find store (symbol tick) (OHLC_MINUTES (breakoutCfg s)) = Some series1 /\
    find store (symbol tick) (OHLC_MINUTES (trendCfg s)) = Some series2 /\
    OHLC_COUNT (breakoutCfg s) <= Z.of_nat (length series1) /\
    OHLC_COUNT (trendCfg s) <= Z.of_nat (length series2) /\
    Forall bar_ok series1 /\ Forall bar_ok series2 /\
    breakoutBars = last_n (Z.to_nat (OHLC_COUNT (breakoutCfg s))) series1 /\
    trendBars = last_n (Z.to_nat (OHLC_COUNT (trendCfg s))) series2.

Lemma makeOhlcBreakout_ok config s :
  makeOhlcBreakout config = Ok s ->
  2 <= OHLC_COUNT (breakoutCfg s) /\ 2 <= OHLC_COUNT (trendCfg s).
Proof.
  unfold makeOhlcBreakout. destruct (OHLC_VARIABLES config) as [|b [|t rest]]; try done.
  destruct (Z.ltb_spec (OHLC_COUNT b) 2), (Z.ltb_spec (OHLC_MINUTES b) 1),
    (Z.ltb_spec (OHLC_COUNT t) 2), (Z.ltb_spec (OHLC_MINUTES t) 1); cbn [orb]; try done.
  destruct (OHLC_BREAKOUT_VARIABLES _); [|done]. intros [= <-]. cbn. lia.
Qed.

(** The decision on full windows is the signal on the strategy's own tails. *)
Lemma breakout_decide_full s tick store bs ts :
  windows_full s tick store bs ts ->
  2 <= OHLC_COUNT (breakoutCfg s) -> 2 <= OHLC_COUNT (trendCfg s) ->
  breakout_decide s tick store =
    breakout_signal (bufferPips s *₃₂ SymbolScale.get (symbol tick)) tick bs ts /\
  (2 <= length bs)%nat /\ length ts = Z.to_nat (OHLC_COUNT (trendCfg s)) /\
  Forall bar_ok bs /\ Forall bar_ok ts.
Proof.
  intros (s1 & s2 & F1 & F2 & L1 & L2 & O1 & O2 & -> & ->) H1 H2.
  unfold breakout_decide. rewrite F1, F2. rewrite !(proj2 (Nat.ltb_ge _ _)) by lia.
  cbn [orb]. rewrite !last_n_length. unfold last_n.
  split_and!; [done|lia|lia|now apply Forall_drop|now apply Forall_drop].
Qed.

(** The breakout strategy signals exactly what its header describes.  For a
    strategy its constructor accepts and full windows of in-range bars: a long
    needs the bid above every closed breakout bar's high by more than the buffer
    and the current trend close above the EMA of the trend window, a short the
    mirror image, anything else is no trade; the EMA read is the newest of the
    half-window average and stays in price range, and the call never throws or
    reads out of range. *)
Theorem breakout_decide_exact (config : StrategyConfig) (s : OhlcBreakoutStrategy)
    (tick : PriceData) (store : BarStore) (breakoutBars trendBars : list OhlcObject)
    (Hmake : makeOhlcBreakout config = Ok s)
    (Hfull : windows_full s tick store breakoutBars trendBars)
    (Htick : tick_ok tick) (Hbuf : 0 <= bufferPips s <= 1000000)
    (Htrend : OHLC_COUNT (trendCfg s) <= 8388608) :
  let buffer := bufferPips s * SymbolScale.get (symbol tick) in
  exists close ema signal,
    breakout_decide s tick store = Ok signal /\
    last (map Models.close trendBars) = Some close /\
    (exists emas, Ema.calculate (map Models.close trendBars) (OHLC_COUNT (trendCfg s) / 2) = Ok emas /\
                  last emas = Some ema /\ price_ok ema) /\
    (signal = Some LONG <->
       Forall (fun b => high b + buffer < bid tick) (but_last breakoutBars) /\ ema < close) /\
    (signal = Some SHORT <->
       Forall (fun b => ask tick < low b - buffer) (but_last breakoutBars) /\ close < ema).
Proof.
  intros buffer. destruct (makeOhlcBreakout_ok config s Hmake) as [H1 H2].
  destruct (breakout_decide_full s tick store _ _ Hfull H1 H2) as (E & L1 & L2 & O1 & O2).
  pose proof (SymbolScale.get_cases (symbol tick)) as Hc.
  assert (0 <= buffer <= 1000000000) as Hb by (unfold buffer; nia).
  rewrite (i32_id (bufferPips s * _)) in E by (fold buffer; ilia). fold buffer in E.
  destruct (breakout_signal_spec buffer tick breakoutBars trendBars)
    as (c & emas & e & signal & G1 & G2 & G3 & G4 & G5 & G6 & G7);
    [done|lia|done|lia|lia|done|done|].
  exists c, e, signal. split_and!; [congruence|done| |done|done].
  exists emas. split_and!; [|done|done].
  rewrite <- G2. f_equal. rewrite L2, Nat2Z.inj_div, Z2Nat.id by lia. reflexivity.
Qed.

(** The trend window's minimum is not tradable.  The constructor accepts a
    trend window of two or three bars, whose EMA period is then one: the average
    is the current close itself, neither above nor below it, and the strategy
    never signals, whatever the market does. *)
Theorem short_trend_window_never_signals (config : StrategyConfig) (s : OhlcBreakoutStrategy)
    (tick : PriceData) (store : BarStore) (breakoutBars trendBars : list OhlcObject)
    (Hmake : makeOhlcBreakout config = Ok s)
    (Hfull : windows_full s tick store breakoutBars trendBars)
    (Hshort : OHLC_COUNT (trendCfg s) <= 3) :
  breakout_decide s tick store = Ok None.
Proof.
  destruct (makeOhlcBreakout_ok config s Hmake) as [H1 H2].
  destruct (breakout_decide_full s tick store _ _ Hfull H1 H2) as (-> & L1 & L2 & O1 & O2).
  unfold breakout_signal, trend_reading. rewrite length_map, L2.
  assert (Z.of_nat (Z.to_nat (OHLC_COUNT (trendCfg s)) / 2) = 1) as ->.
  { rewrite Nat2Z.inj_div, Z2Nat.id by lia. Z.div_mod_to_equations. lia. }
  rewrite calculate_period_one; [|now apply closes_ok|].
  2: { intros E. apply (f_equal length) in E. rewrite length_map in E. simpl in E. lia. }
  cbn [result_bind]. destruct (last (map close trendBars)) as [c|] eqn:Ec.
  2: { apply last_None, (f_equal length) in Ec. rewrite length_map in Ec. simpl in Ec. lia. }
  cbn [result_bind]. now rewrite Z.ltb_irrefl, !andb_false_r.
Qed.

(** ** Witnesses *)

Definition breakout_config (trendCount : Z) : StrategyConfig :=
  mkStrategyConfig "u" (mkTradingVariables "OhlcBreakoutStrategy" 1 2 1)
    [mkOHLCVariables 3 15; mkOHLCVariables trendCount 60] []
    (mkStrategyVariables None (Some (mkOHLCBreakoutVariables 1 0)) None None None None None None None).

Definition bar_at (p : Z) : OhlcObject := mkOhlcObject 0 p p (p + 5) (p - 5) true.

Definition breakout_store : BarStore :=
  mkBarStore [mkSeriesSpec 15 3; mkSeriesSpec 60 4]
    {["EURUSD"%string := [[bar_at 1000; bar_at 1010; bar_at 1100];
                          [bar_at 900; bar_at 950; bar_at 1000; bar_at 1100]]]} [] ∅.

Definition breakout_strategy (trendCount : Z) : OhlcBreakoutStrategy :=
  mkOhlcBreakout (mkOHLCVariables 3 15) (mkOHLCVariables trendCount 60) 1 0.

Lemma breakout_windows trendCount :
  2 <= trendCount <= 4 ->
  windows_full (breakout_strategy trendCount) (OhlcBuilder.demo_tick 0 1100) breakout_store
    [bar_at 1000; bar_at 1010; bar_at 1100]
    (last_n (Z.to_nat trendCount) [bar_at 900; bar_at 950; bar_at 1000; bar_at 1100]).
Proof.
  intros H. exists [bar_at 1000; bar_at 1010; bar_at 1100],
    [bar_at 900; bar_at 950; bar_at 1000; bar_at 1100].
  split_and!; try reflexivity; try (simpl; lia);
    repeat constructor; simpl; lia.
Qed.

Lemma breakout_decide_exact_witness :
  exists signal, breakout_decide (breakout_strategy 4) (OhlcBuilder.demo_tick 0 1100) breakout_store
                 = Ok signal /\ signal = Some LONG.
Proof.
  destruct (breakout_decide_exact (breakout_config 4) (breakout_strategy 4)
    (OhlcBuilder.demo_tick 0 1100) breakout_store _ _ eq_refl (breakout_windows 4 ltac:(lia)))
    as (c & e & signal & E & Ec & (emas & Ee & El & _) & [_ HL] & _);
    [split; split; simpl; lia|simpl; lia|simpl; lia|].
  exists signal. split; [exact E|]. apply HL. clear HL. vm_compute in Ec. injection Ec as <-.
  vm_compute in Ee. injection Ee as <-. vm_compute in El. injection El as <-.
  split; [|lia]. change (but_last _) with [bar_at 1000; bar_at 1010].
  repeat constructor; vm_compute; reflexivity.
Defined.

Lemma short_trend_window_never_signals_witness :
  breakout_decide (breakout_strategy 3) (OhlcBuilder.demo_tick 0 1100) breakout_store = Ok None.
Proof.
  apply (short_trend_window_never_signals (breakout_config 3) _ _ _ _ _ eq_refl
    (breakout_windows 3 ltac:(lia))). simpl. lia.
Defined.
