(* ===== verification/KeltnerFade.v ===== *)
(** strategies/keltnerFade/keltnerFadeStrategy.cppm: fading stretches beyond a
    volatility band. *)
From S2P Require Import Prelude Models Config Indicators BarStore TradeManager ExitRules Strategy.
From S2P Require OhlcBuilder.
From Stdlib Require QArith.
Import QArith.QArith_base(Q, Qmake, Qlt, Qminus, Qplus, Qmult, Qopp, inject_Z, Qnum, Qden).

Record KeltnerFadeStrategy : Type := mkKeltnerFade {
  signalCfg : OHLCVariables;
  bandSmaPeriod : Z;
  bandAtrMultTenths : Z;
  maxTradeDuration : Z;
}.

(** The constructor. *)
Definition makeKeltnerFade (config : StrategyConfig) : result KeltnerFadeStrategy :=
  match OHLC_VARIABLES config with
  | [] => Throw InvalidArgument
  | signal :: _ =>
      if OHLC_MINUTES signal <? 1 then Throw InvalidArgument
      else match KELTNER_FADE_VARIABLES (STRATEGY_VARIABLES config) with
           | None => Throw InvalidArgument
           | Some v =>
               if (kf_BAND_SMA_PERIOD v <? 1) || (kf_BAND_ATR_MULT_TENTHS v <? 1)
               then Throw InvalidArgument
               else if OHLC_COUNT signal <? (kf_BAND_SMA_PERIOD v +₃₂ 2)
               then Throw InvalidArgument
               else Ok (mkKeltnerFade signal (kf_BAND_SMA_PERIOD v) (kf_BAND_ATR_MULT_TENTHS v)
                          (minutes (kf_MAX_TRADE_DURATION_MINUTES v)))
           end
  end.

(** The decision on a full window. *)
Definition fade_signal (period mult : Z) (tick : PriceData) (signalBars : list OhlcObject)
    : result (option Direction) :=
  let closedBars := but_last signalBars in
  if (length closedBars <? Z.to_nat period)%nat then Throw UndefinedRead
  else
    let closeSum := foldl (fun s bar => s +₆₄ close bar) 0 (last_n (Z.to_nat period) closedBars) in
    atrPoints <~ Atr.calculate closedBars period;
    if atrPoints <=? 0 then Ok None
    else
      let bandOffset := (mult *₆₄ atrPoints) *₆₄ period in
      let centreScaled := closeSum *₆₄ 10 in
      if ((ask tick *₆₄ period) *₆₄ 10) <? (centreScaled -₆₄ bandOffset) then Ok (Some LONG)
      else if (centreScaled +₆₄ bandOffset) <? ((bid tick *₆₄ period) *₆₄ 10) then Ok (Some SHORT)
      else Ok None.

Definition fade_decide (s : KeltnerFadeStrategy) (tick : PriceData) (store : BarStore)
    : result (option Direction) :=
  match warm_tail store (symbol tick) (signalCfg s) with
  | None => Ok None
  | Some signalBars => fade_signal (bandSmaPeriod s) (bandAtrMultTenths s) tick signalBars
  end.

Definition fade_during (s : KeltnerFadeStrategy) (price : PriceData) (store : BarStore)
    (m : TradeManager) : KeltnerFadeStrategy * TradeManager :=
  (s, (closeIfPastCap price m (maxTradeDuration s)).2).

#[export] Instance KeltnerFade_IStrategy : IStrategy KeltnerFadeStrategy := {|
  decide s tick store := signal <~ fade_decide s tick store; Ok (signal, s);
  during := fade_during;
|}.

#[export] Instance KeltnerFade_closes_only : ClosesOnly KeltnerFadeStrategy.
Proof. split. intros s tick store m. apply closeIfPastCap_closes_own. Qed.

(** ** Specification: the band over the closed bars, in exact rationals *)

Definition band_sma (period : Z) (closedBars : list OhlcObject) : Q :=
  Qmake (sum_list_Z (map close (last_n (Z.to_nat period) closedBars))) (Z.to_pos period).

Definition band_offset (mult atr : Z) : Q := Qmult (Qmake mult 10) (inject_Z atr).

(** The ATR over the last [period + 1] closed bars. *)
Definition band_atr (period : Z) (closedBars : list OhlcObject) : Z :=
  (sum_list_Z (Atr.true_ranges (last_n (Z.to_nat period + 1) closedBars)) + period / 2) / period.

(** * Facts *)

Lemma closeSum_exact bars :
  Forall bar_ok bars -> Z.of_nat (length bars) <= 1000000 ->
  foldl (fun s bar => s +₆₄ close bar) 0 bars = sum_list_Z (map close bars) /\
  0 <= sum_list_Z (map close bars) <= 8388607 * Z.of_nat (length bars).
Proof.
  intros Hok Hn.
  assert (Forall (fun p => 0 <= p <= 8388607) (map close bars)) as Hp.
  { apply Forall_fmap. eapply Forall_impl; [exact Hok|].
    unfold bar_ok, price_ok. intros b Hb. simpl in *. lia. }
  pose proof (sum_list_Z_bound _ _ _ Hp) as Hs. rewrite length_map in Hs.
  split; [|lia]. rewrite <- foldl_i64_exact by ilia. clear. generalize 0 as s.
  induction bars as [|b bars IH]; intros s; [done|]. cbn [map foldl]. apply IH.
Qed.

Lemma band_below (ask sum mult atr period : Z) :
  0 < period ->
  (ask * period * 10 < sum * 10 - mult * atr * period <->
   Qlt (inject_Z ask) (Qminus (Qmake sum (Z.to_pos period)) (band_offset mult atr))).
Proof.
  intros Hp. unfold Qlt, Qminus, Qplus, Qopp, band_offset, Qmult, inject_Z. cbn [Qnum Qden].
  rewrite !Pos2Z.inj_mul, Z2Pos.id by lia. split; intros; lia.
Qed.

Lemma band_above (bid sum mult atr period : Z) :
  0 < period ->
  (sum * 10 + mult * atr * period < bid * period * 10 <->
   Qlt (Qplus (Qmake sum (Z.to_pos period)) (band_offset mult atr)) (inject_Z bid)).
Proof.
  intros Hp. unfold Qlt, Qplus, band_offset, Qmult, inject_Z. cbn [Qnum Qden].
  rewrite !Pos2Z.inj_mul, Z2Pos.id by lia. split; intros; lia.
Qed.

Lemma makeKeltnerFade_ok config s :
  makeKeltnerFade config = Ok s -> bandSmaPeriod s <= 2000000000 ->
  1 <= bandSmaPeriod s /\ 1 <= bandAtrMultTenths s /\
  bandSmaPeriod s + 2 <= OHLC_COUNT (signalCfg s).
Proof.
  unfold makeKeltnerFade. destruct (OHLC_VARIABLES config) as [|cfg rest]; [done|].
  destruct (OHLC_MINUTES cfg <? 1); [done|].
  destruct (KELTNER_FADE_VARIABLES _) as [v|]; [|done].
  destruct (Z.ltb_spec (kf_BAND_SMA_PERIOD v) 1), (Z.ltb_spec (kf_BAND_ATR_MULT_TENTHS v) 1);
    cbn [orb]; try done.
  destruct (Z.ltb_spec (OHLC_COUNT cfg) (kf_BAND_SMA_PERIOD v +₃₂ 2)) as [Hl|Hl]; [done|].
  intros [= <-]. cbn [bandSmaPeriod bandAtrMultTenths signalCfg]. intros Hp.
  rewrite i32_id in Hl by ilia. lia.
Qed.

(** The fade strategy compares prices with the true band.  For a strategy its
    constructor accepts, on a full window of in-range bars, with band periods up to
    100,000 and multipliers up to 10,000 tenths: a dead-flat window (ATR zero) is
    no trade; otherwise it goes long exactly when the ask is strictly below
    SMA - mult/10 x ATR and short exactly when the bid is strictly above
    SMA + mult/10 x ATR, both over the closed bars only and as exact rationals: no
    truncating division moves the band's edge. It never throws or reads out of
    range. *)
Theorem fade_decide_exact (config : StrategyConfig) (s : KeltnerFadeStrategy)
    (tick : PriceData) (store : BarStore) (bars : list OhlcObject)
    (Hmake : makeKeltnerFade config = Ok s)
    (Hwarm : warm_tail store (symbol tick) (signalCfg s) = Some bars)
    (Hok : Forall bar_ok bars) (Htick : tick_ok tick) (Hspread : bid tick <= ask tick)
    (Hperiod : bandSmaPeriod s <= 100000) (Hmult : bandAtrMultTenths s <= 10000) :
  let closed := but_last bars in
  let atr := band_atr (bandSmaPeriod s) closed in
  let sma := band_sma (bandSmaPeriod s) closed in
  let offset := band_offset (bandAtrMultTenths s) atr in
  exists signal,
    fade_decide s tick store = Ok signal /\
    (signal = Some LONG <-> 0 < atr /\ Qlt (inject_Z (ask tick)) (Qminus sma offset)) /\
    (signal = Some SHORT <-> 0 < atr /\ Qlt (Qplus sma offset) (inject_Z (bid tick))).
Proof.
  intros closed atr sma offset.
  destruct (makeKeltnerFade_ok config s Hmake) as (H1 & H2 & H3); [lia|].
  pose proof (warm_tail_length store (symbol tick) (signalCfg s) bars ltac:(lia) Hwarm) as Hlen.
  unfold fade_decide. rewrite Hwarm. unfold fade_signal. fold closed.
  assert (length closed = (length bars - 1)%nat) as Hlc
    by (unfold closed, but_last; rewrite length_take; lia).
  rewrite (proj2 (Nat.ltb_ge _ _)) by lia.
  assert (Forall bar_ok closed) as Hokc by (now apply Forall_take).
  destruct (atr_calculate_exact closed (bandSmaPeriod s)) as (La & Ba & Ea); [lia|done|lia|].
  fold (band_atr (bandSmaPeriod s) closed) in Ea. fold atr in Ea. rewrite Ea. cbn [result_bind].
  destruct (closeSum_exact (last_n (Z.to_nat (bandSmaPeriod s)) closed)) as [-> Hs];
    [now apply Forall_drop|rewrite last_n_length; lia|].
  rewrite last_n_length in Hs.
  assert (0 < bandSmaPeriod s) as Hper by lia. unfold sma, offset, band_sma.
  setoid_rewrite <- (band_below _ _ _ _ _ Hper). setoid_rewrite <- (band_above _ _ _ _ _ Hper).
  set (sum := sum_list_Z (map close _)) in *.
  assert (0 <= atr <= 8388607) as Hatr.
  { unfold atr, band_atr. pose proof (sum_list_Z_bound 0 8388607
      (Atr.true_ranges (last_n (Z.to_nat (bandSmaPeriod s) + 1) closed))) as Hb.
    rewrite La in Hb. assert (0 <= bandSmaPeriod s / 2 < bandSmaPeriod s)
      by (Z.div_mod_to_equations; lia).
    assert (Forall (fun z => 0 <= z <= 8388607)
      (Atr.true_ranges (last_n (Z.to_nat (bandSmaPeriod s) + 1) closed))) as Hf
      by (eapply Forall_impl; [exact Ba|]; intros; simpl in *; lia).
    specialize (Hb Hf). split; [apply Z.div_pos; lia|].
    apply Z.lt_succ_r, Z.div_lt_upper_bound; nia. }
  destruct Htick as [Hpa Hpb]. unfold price_ok in *.
  assert (0 <= bandAtrMultTenths s * atr <= 10000 * 8388607) by nia.
  assert (0 <= bandAtrMultTenths s * atr * bandSmaPeriod s <= 10000 * 8388607 * 100000) by nia.
  assert (0 <= ask tick * bandSmaPeriod s <= 8388607 * 100000) by nia.
  assert (0 <= bid tick * bandSmaPeriod s <= 8388607 * 100000) by nia.
  assert (0 <= sum <= 8388607 * 100000) by nia.
  assert (bid tick * bandSmaPeriod s <= ask tick * bandSmaPeriod s) by nia.
  unwrap.
  destruct (Z.leb_spec atr 0).
  { exists None. split_and!; [done|..]; split; try done; lia. }
  match goal with |- context [if ?a <? ?b then _ else _] => destruct (Z.ltb_spec a b) end.
  { exists (Some LONG). split_and!; [done|split; [lia|done]|split; [done|lia]]. }
  match goal with |- context [if ?a <? ?b then _ else _] => destruct (Z.ltb_spec a b) end.
  { exists (Some SHORT). split_and!; [done|split; [done|lia]|split; [lia|done]]. }
  exists None. split_and!; [done|split; [done|lia]|split; [done|lia]].
Qed.

(** ** Witness *)

Definition fade_config : StrategyConfig :=
  mkStrategyConfig "u" (mkTradingVariables "KeltnerFadeStrategy" 1 2 1)
    [mkOHLCVariables 5 15] []
    (mkStrategyVariables None None None (Some (mkKeltnerFadeVariables 2 15 60))
       None None None None None).

Definition fade_strategy : KeltnerFadeStrategy :=
  mkKeltnerFade (mkOHLCVariables 5 15) 2 15 (minutes 60).

Definition fade_bars : list OhlcObject :=
  map (fun p => mkOhlcObject 0 p p (p + 10) (p - 10) true) [1000; 1000; 1000; 1000; 950].

Definition fade_store : BarStore :=
  mkBarStore [mkSeriesSpec 15 5] {["EURUSD"%string := [fade_bars]]} [] ∅.

Lemma fade_decide_exact_witness :
  fade_decide fade_strategy (OhlcBuilder.demo_tick 0 950) fade_store = Ok (Some LONG).
Proof.
  destruct (fade_decide_exact fade_config fade_strategy (OhlcBuilder.demo_tick 0 950) fade_store
    fade_bars) as (signal & -> & [_ HL] & _);
    [reflexivity|vm_compute; reflexivity| | |simpl; lia|simpl; lia|simpl; lia|].
  - unfold fade_bars. repeat constructor; simpl; lia.
  - split; split; simpl; lia.
  - f_equal. apply HL. split; vm_compute; reflexivity.
Defined.
