(* ===== verification/Fvg.v ===== *)
(** strategies/fvg/fvgStrategy.cppm: fair-value-gap retracement entries with a
    higher-timeframe trend filter. *)
From S2P Require Import Prelude Models Config BarStore TradeManager ExitRules Strategy.
From S2P Require OhlcBuilder SymbolScale.

Record FvgStrategy : Type := mkFvg {
  fvgCfg : OHLCVariables;
  htfCfg : OHLCVariables;
  lookbackBars : Z;
  minGapPips : Z;
  htfSmaPeriod : Z;
  minGapAgeBars : Z;
  maxTradeDuration : Z;
}.

(** The constructor. *)
Definition makeFvg (config : StrategyConfig) : result FvgStrategy :=
  match OHLC_VARIABLES config with
  | fvg :: htf :: _ =>
      if (OHLC_MINUTES fvg <? 1) || (OHLC_MINUTES htf <? 1) then Throw InvalidArgument
      else match FVG_STRATEGY_VARIABLES (STRATEGY_VARIABLES config) with
           | None => Throw InvalidArgument
           | Some v =>
               if (fvg_LOOKBACK_BARS v <? 1) || (fvg_MIN_GAP_PIPS v <? 1)
                  || (fvg_HTF_SMA_PERIOD v <? 1) then Throw InvalidArgument
               else if fvg_MIN_GAP_AGE_BARS v <? 0 then Throw InvalidArgument
               else if fvg_MAX_TRADE_DURATION_MINUTES v <? 0 then Throw InvalidArgument
               else if OHLC_COUNT fvg <? (fvg_LOOKBACK_BARS v +₃₂ 3) then Throw InvalidArgument
               else if OHLC_COUNT htf <? (fvg_HTF_SMA_PERIOD v +₃₂ 2) then Throw InvalidArgument
               else Ok (mkFvg fvg htf (fvg_LOOKBACK_BARS v) (fvg_MIN_GAP_PIPS v)
                          (fvg_HTF_SMA_PERIOD v) (fvg_MIN_GAP_AGE_BARS v)
                          (minutes (fvg_MAX_TRADE_DURATION_MINUTES v)))
           end
  | _ => Throw InvalidArgument
  end.

(** [for (i = start; i > start - n; --i) sum += bars[i].close]. *)
Fixpoint sum_back (bars : list OhlcObject) (i : Z) (n : nat) (sum : Z) : result Z :=
  match n with
  | O => Ok sum
  | S n' => bar <~ read bars i; sum_back bars (i - 1) n' (sum +₆₄ close bar)
  end.

(** One step of the scan: the pattern that ends at [i]. *)
Definition scan_at (up down : bool) (minGapPoints lastClosedClose : Z) (tick : PriceData)
    (bars : list OhlcObject) (i : Z) : result (option Direction) :=
  let total := Z.of_nat (length bars) in
  let later := Z.to_nat (total - 2 - i) in
  c3 <~ read bars i;
  c1 <~ read bars (i - 2);
  bullish <~
    (if up && (high c1 <? low c3) && (minGapPoints <=? (low c3 -₃₂ high c1)) then
       mitigated <~ any_bar (fun b => low b <=? high c1) bars (i + 1) later;
       Ok (negb mitigated && (low c3 <? lastClosedClose)
           && (ask tick <=? low c3) && (high c1 <=? ask tick))
     else Ok false);
  if (bullish : bool) then Ok (Some LONG)
  else
    bearish <~
      (if down && (high c3 <? low c1) && (minGapPoints <=? (low c1 -₃₂ high c3)) then
         mitigated <~ any_bar (fun b => low c1 <=? high b) bars (i + 1) later;
         Ok (negb mitigated && (lastClosedClose <? high c3)
             && (high c3 <=? bid tick) && (bid tick <=? low c1))
       else Ok false);
    Ok (if (bearish : bool) then Some SHORT else None).

(** The newest-first scan over [n] patterns. *)
Fixpoint scan (up down : bool) (minGapPoints lastClosedClose : Z) (tick : PriceData)
    (bars : list OhlcObject) (i : Z) (n : nat) : result (option Direction) :=
  match n with
  | O => Ok None
  | S n' =>
      found <~ scan_at up down minGapPoints lastClosedClose tick bars i;
      match found with
      | Some d => Ok (Some d)
      | None => scan up down minGapPoints lastClosedClose tick bars (i - 1) n'
      end
  end.

Definition oldest_index (total lookback age : Z) : Z :=
  let endSearchIdx := Z.max 2 (total - lookback) in
  Z.max endSearchIdx (total - 2 - age).

Definition fvg_signal (s : FvgStrategy) (tick : PriceData) (fvgBars htfBars : list OhlcObject)
    : result (option Direction) :=
  let totalBars := Z.of_nat (length fvgBars) in
  let htfStartIdx := Z.of_nat (length htfBars) - 2 in
  htfCloseSum <~ sum_back htfBars htfStartIdx (Z.to_nat (htfSmaPeriod s)) 0;
  lastHtf <~ read htfBars htfStartIdx;
  let lastHtfCloseScaled := close lastHtf *₆₄ htfSmaPeriod s in
  let minGapPoints := minGapPips s *₃₂ SymbolScale.get (symbol tick) in
  lastClosed <~ read fvgBars (totalBars - 2);
  let startSearchIdx := totalBars - 2 in
  let maxAgeIdx := oldest_index totalBars (lookbackBars s) (minGapAgeBars s) in
  scan (htfCloseSum <? lastHtfCloseScaled) (lastHtfCloseScaled <? htfCloseSum)
    minGapPoints (close lastClosed) tick fvgBars startSearchIdx
    (Z.to_nat (startSearchIdx - maxAgeIdx + 1)).

Definition fvg_decide (s : FvgStrategy) (tick : PriceData) (store : BarStore)
    : result (option Direction) :=
  match warm_tail store (symbol tick) (fvgCfg s), warm_tail store (symbol tick) (htfCfg s) with
  | Some fvgBars, Some htfBars => fvg_signal s tick fvgBars htfBars
  | _, _ => Ok None
  end.

Definition fvg_during (s : FvgStrategy) (price : PriceData) (store : BarStore)
    (m : TradeManager) : FvgStrategy * TradeManager :=
  (s, (closeIfPastCap price m (maxTradeDuration s)).2).

#[export] Instance Fvg_IStrategy : IStrategy FvgStrategy := {|
  decide s tick store := signal <~ fvg_decide s tick store; Ok (signal, s);
  during := fvg_during;
|}.

#[export] Instance Fvg_closes_only : ClosesOnly FvgStrategy.
Proof. split. intros s tick store m. apply closeIfPastCap_closes_own. Qed.

(** ** Specification *)

(** The closed bars strictly after index [i]. *)
Definition later_closed (bars : list OhlcObject) (i : Z) : list OhlcObject :=
  drop (Z.to_nat (i + 1)) (but_last bars).

(** A live bullish gap ending at [i] that the ask has retraced into. *)
Definition bullish_entry (bars : list OhlcObject) (minGap lastClose : Z) (tick : PriceData)
    (i : Z) : Prop :=
  exists c1 c3,
    bars !! Z.to_nat (i - 2) = Some c1 /\ bars !! Z.to_nat i = Some c3 /\
    high c1 < low c3 /\ minGap <= low c3 - high c1 /\
    Forall (fun b => high c1 < low b) (later_closed bars i) /\
    low c3 < lastClose /\ high c1 <= ask tick <= low c3.

Definition bearish_entry (bars : list OhlcObject) (minGap lastClose : Z) (tick : PriceData)
    (i : Z) : Prop :=
  exists c1 c3,
    bars !! Z.to_nat (i - 2) = Some c1 /\ bars !! Z.to_nat i = Some c3 /\
    high c3 < low c1 /\ minGap <= low c1 - high c3 /\
    Forall (fun b => high b < low c1) (later_closed bars i) /\
    lastClose < high c3 /\ high c3 <= bid tick <= low c1.

(** The higher timeframe's closed closes that the average covers. *)
Definition htf_closes (period : Z) (htfBars : list OhlcObject) : list Z :=
  map close (last_n (Z.to_nat period) (but_last htfBars)).

(** * Facts *)

Lemma later_closed_take bars i :
  -1 <= i -> i + 2 <= Z.of_nat (length bars) ->
  take (Z.to_nat (Z.of_nat (length bars) - 2 - i)) (drop (Z.to_nat (i + 1)) bars) =
  later_closed bars i.
Proof.
  intros Hi Hn. unfold later_closed, but_last. rewrite firstn_skipn_comm.
  f_equal. f_equal. lia.
Qed.

Lemma existsb_negb {A} (p : A -> bool) (P : A -> Prop) l :
  (forall x, p x = false <-> P x) -> (existsb p l = false <-> Forall P l).
Proof.
  intros H. induction l as [|x l IH]; [split; [constructor|done]|].
  cbn [existsb]. rewrite orb_false_iff, Forall_cons, H, IH. done.
Qed.

Lemma if_ok (c b : bool) : (if c then Ok b else Ok false) = Ok (c && b).
Proof. now destruct c. Qed.

Lemma scan_at_spec up down minGap lastClose tick bars i :
  Forall bar_ok bars -> 2 <= i -> i + 2 <= Z.of_nat (length bars) ->
  exists found, scan_at up down minGap lastClose tick bars i = Ok found /\
    (found = Some LONG <-> up = true /\ bullish_entry bars minGap lastClose tick i) /\
    (found = Some SHORT -> down = true) /\
    (up = false -> found = Some SHORT <->
       down = true /\ bearish_entry bars minGap lastClose tick i).
Proof.
  intros Hok Hi Hn. unfold scan_at.
  destruct (read_ok bars i) as (c3 & E3 & L3); [lia|].
  destruct (read_ok bars (i - 2)) as (c1 & E1 & L1); [lia|].
  rewrite E3, E1. cbn [result_bind].
  rewrite Forall_forall in Hok.
  pose proof (Hok c3 (list_elem_of_lookup_2 _ _ _ L3)) as B3.
  pose proof (Hok c1 (list_elem_of_lookup_2 _ _ _ L1)) as B1. unfold bar_ok, price_ok in *.
  rewrite !any_bar_spec, later_closed_take by lia. cbn [result_bind].
  rewrite !i32_id by ilia.
  assert (bullish_entry bars minGap lastClose tick i <->
    high c1 < low c3 /\ minGap <= low c3 - high c1 /\
    existsb (fun b => low b <=? high c1) (later_closed bars i) = false /\
    low c3 < lastClose /\ high c1 <= ask tick <= low c3) as Hbull.
  { rewrite (existsb_negb _ (fun b => high c1 < low b)) by (intros; apply Z.leb_gt).
    unfold bullish_entry. split; [|intros H; exists c1, c3; tauto].
    intros (c1' & c3' & M1 & M3 & H). rewrite L1 in M1. rewrite L3 in M3.
    injection M1 as <-. injection M3 as <-. exact H. }
  assert (bearish_entry bars minGap lastClose tick i <->
    high c3 < low c1 /\ minGap <= low c1 - high c3 /\
    existsb (fun b => low c1 <=? high b) (later_closed bars i) = false /\
    lastClose < high c3 /\ high c3 <= bid tick <= low c1) as Hbear.
  { rewrite (existsb_negb _ (fun b => high b < low c1)) by (intros; apply Z.leb_gt).
    unfold bearish_entry. split; [|intros H; exists c1, c3; tauto].
    intros (c1' & c3' & M1 & M3 & H). rewrite L1 in M1. rewrite L3 in M3.
    injection M1 as <-. injection M3 as <-. exact H. }
  setoid_rewrite Hbull. setoid_rewrite Hbear. rewrite !if_ok. cbn [result_bind].
  clear Hbull Hbear.
  set (m1 := existsb _ (later_closed bars i)). set (m2 := existsb (fun b => low c1 <=? high b) _).
  match goal with |- context [if ?b then Ok (Some LONG) else _] => destruct b eqn:Eb end.
  - exists (Some LONG). zbool. split; [done|]. split; [split; [tauto|done]|]. split; [done|].
    intros Hup. destruct Eb as (((? & _) & _) & _). congruence.
  - match goal with |- context [if ?b then Some SHORT else _] => destruct b eqn:Es end.
    + exists (Some SHORT). split; [done|]. split.
      * split; [done|]. intros (Hup & H). exfalso. rewrite <- not_true_iff_false in Eb.
        apply Eb. zbool. tauto.
      * split; [intros _; zbool; tauto|]. intros _. split; [|done]. intros _. zbool. tauto.
    + exists None. split; [done|]. split.
      * split; [done|]. intros (Hup & H). exfalso. rewrite <- not_true_iff_false in Eb.
        apply Eb. zbool. tauto.
      * split; [done|]. intros _. split; [done|]. intros H. exfalso. rewrite <- not_true_iff_false in Es.
        apply Es. zbool. tauto.
Qed.

Lemma scan_spec up down minGap lastClose tick bars n : forall i,
  Forall bar_ok bars -> (up = true -> down = false) ->
  Z.of_nat n + 1 <= i -> i + 2 <= Z.of_nat (length bars) ->
  exists found, scan up down minGap lastClose tick bars i n = Ok found /\
    (found = Some LONG <-> up = true /\
       exists k, i - Z.of_nat n < k <= i /\ bullish_entry bars minGap lastClose tick k) /\
    (found = Some SHORT <-> down = true /\
       exists k, i - Z.of_nat n < k <= i /\ bearish_entry bars minGap lastClose tick k).
Proof.
  induction n as [|n IH]; intros i Hok Hud Hi Hn; cbn [scan].
  { exists None. split_and!; [done|..]; (split; [done|intros (_ & k & Hk & _); lia]). }
  destruct (scan_at_spec up down minGap lastClose tick bars i Hok ltac:(lia) Hn)
    as (found & E & HL & HSd & HS). rewrite E. cbn [result_bind].
  destruct found as [[|]|].
  - destruct HL as [HL _]. specialize (HL eq_refl) as [Hup Hb].
    exists (Some LONG). split_and!; [done|..].
    + split; [intros _|done]. split; [done|]. exists i. split; [lia|done].
    + split; [done|]. intros [Hd _]. rewrite (Hud Hup) in Hd. done.
  - specialize (HSd eq_refl). destruct up; [rewrite (Hud eq_refl) in HSd; done|].
    destruct (HS eq_refl) as [HS1 _]. specialize (HS1 eq_refl) as [_ Hb].
    exists (Some SHORT). split_and!; [done|..].
    + split; [done|intros [? _]; done].
    + split; [intros _|done]. split; [done|]. exists i. split; [lia|done].
  - destruct (IH (i - 1) Hok Hud ltac:(lia) ltac:(lia)) as (found & Ef & IL & IS).
    exists found. split; [done|]. split.
    + rewrite IL. split; intros [Hup (k & Hk & Hb)].
      * split; [done|]. exists k. split; [lia|done].
      * split; [done|]. destruct (Z.eq_dec k i) as [->|Hne]; [exfalso|exists k; split; [lia|done]].
        destruct HL as [_ HL]. specialize (HL (conj Hup Hb)). done.
    + rewrite IS. split; intros [Hd (k & Hk & Hb)].
      * split; [done|]. exists k. split; [lia|done].
      * split; [done|]. destruct (Z.eq_dec k i) as [->|Hne]; [exfalso|exists k; split; [lia|done]].
        destruct up; [rewrite (Hud eq_refl) in Hd; done|].
        destruct (HS eq_refl) as [_ HS2]. specialize (HS2 (conj Hd Hb)). done.
Qed.

Lemma sum_back_spec bars n : forall i acc,
  Forall bar_ok bars -> Z.of_nat n <= i + 1 -> i < Z.of_nat (length bars) ->
  0 <= acc -> acc + 8388607 * Z.of_nat n < 2 ^ 62 ->
  sum_back bars i n acc =
  Ok (acc + sum_list_Z (map close (take n (drop (Z.to_nat (i + 1 - Z.of_nat n)) bars)))).
Proof.
  induction n as [|n IH]; intros i acc Hok Hi Hl Ha Hb; cbn [sum_back].
  { simpl. now rewrite Z.add_0_r. }
  destruct (read_ok bars i) as (b & E & El); [lia|]. rewrite E. cbn [result_bind].
  assert (0 <= close b <= 8388607) as Hc.
  { rewrite Forall_forall in Hok. pose proof (Hok b (list_elem_of_lookup_2 _ _ _ El)) as Hbk.
    unfold bar_ok, price_ok in Hbk. lia. }
  rewrite i64_id by ilia. rewrite IH by (auto; lia). f_equal.
  replace (i - 1 + 1 - Z.of_nat n) with (i + 1 - Z.of_nat (S n)) by lia.
  rewrite (take_S_r _ n b).
  - rewrite map_app, sum_list_Z_app. simpl. lia.
  - rewrite lookup_drop. rewrite <- El. f_equal. lia.
Qed.

Lemma htf_closes_take bars period :
  0 <= period -> period + 1 <= Z.of_nat (length bars) ->
  map close (take (Z.to_nat period) (drop (Z.to_nat (Z.of_nat (length bars) - 2 + 1
    - Z.of_nat (Z.to_nat period))) bars)) = htf_closes period bars.
Proof.
  intros Hp Hl. unfold htf_closes, last_n, but_last. f_equal.
  rewrite length_take, Nat.min_l by lia. rewrite firstn_skipn_comm. f_equal; [lia|].
  f_equal. lia.
Qed.

Lemma makeFvg_ok config s :
  makeFvg config = Ok s -> lookbackBars s <= 2000000000 -> htfSmaPeriod s <= 2000000000 ->
  1 <= lookbackBars s /\ 1 <= minGapPips s /\ 1 <= htfSmaPeriod s /\ 0 <= minGapAgeBars s /\
  lookbackBars s + 3 <= OHLC_COUNT (fvgCfg s) /\ htfSmaPeriod s + 2 <= OHLC_COUNT (htfCfg s).
Proof.
  unfold makeFvg. destruct (OHLC_VARIABLES config) as [|f [|h rest]]; try done.
  destruct (_ || _); [done|]. destruct (FVG_STRATEGY_VARIABLES _) as [v|]; [|done].
  destruct (Z.ltb_spec (fvg_LOOKBACK_BARS v) 1), (Z.ltb_spec (fvg_MIN_GAP_PIPS v) 1),
    (Z.ltb_spec (fvg_HTF_SMA_PERIOD v) 1); cbn [orb]; try done.
  destruct (Z.ltb_spec (fvg_MIN_GAP_AGE_BARS v) 0); [done|].
  destruct (fvg_MAX_TRADE_DURATION_MINUTES v <? 0); [done|].
  destruct (Z.ltb_spec (OHLC_COUNT f) (fvg_LOOKBACK_BARS v +₃₂ 3)) as [?|G1]; [done|].
  destruct (Z.ltb_spec (OHLC_COUNT h) (fvg_HTF_SMA_PERIOD v +₃₂ 2)) as [?|G2]; [done|].
  intros [= <-]. cbn. intros. rewrite i32_id in G1, G2 by ilia. lia.
Qed.

(** The gap strategy enters exactly on live gaps in the trend.  For a strategy
    its constructor accepts, on full windows of in-range bars: the trend is up
    (down) when period x newest closed close exceeds (falls short of) the sum of
    the last [period] closed closes, so the comparison with the average is exact;
    the strategy goes long exactly when the trend is up and some closed
    three-bar pattern, among the newest [MIN_GAP_AGE_BARS + 1] and inside the
    lookback, has an unmitigated gap of at least the minimum that the last closed
    bar closed above and the ask has retraced into; short is the mirror image on
    the bid.  No index is ever out of range and nothing is thrown. *)
Theorem fvg_decide_exact (config : StrategyConfig) (s : FvgStrategy)
    (tick : PriceData) (store : BarStore) (fvgBars htfBars : list OhlcObject)
    (Hmake : makeFvg config = Ok s)
    (Hfvg : warm_tail store (symbol tick) (fvgCfg s) = Some fvgBars)
    (Hhtf : warm_tail store (symbol tick) (htfCfg s) = Some htfBars)
    (Hokf : Forall bar_ok fvgBars) (Hokh : Forall bar_ok htfBars)
    (Hlook : lookbackBars s <= 2000000) (Hperiod : htfSmaPeriod s <= 2000000)
    (Hgap : minGapPips s <= 2000000) :
  let n := Z.of_nat (length fvgBars) in
  let minGap := minGapPips s * SymbolScale.get (symbol tick) in
  let sum := sum_list_Z (htf_closes (htfSmaPeriod s) htfBars) in
  let oldest := oldest_index n (lookbackBars s) (minGapAgeBars s) in
  exists signal newest lastHtf,
    fvg_decide s tick store = Ok signal /\
    fvgBars !! Z.to_nat (n - 2) = Some newest /\
    htfBars !! Z.to_nat (Z.of_nat (length htfBars) - 2) = Some lastHtf /\
    (signal = Some LONG <->
       sum < htfSmaPeriod s * close lastHtf /\
       exists k, oldest <= k <= n - 2 /\ bullish_entry fvgBars minGap (close newest) tick k) /\
    (signal = Some SHORT <->
       htfSmaPeriod s * close lastHtf < sum /\
       exists k, oldest <= k <= n - 2 /\ bearish_entry fvgBars minGap (close newest) tick k).
Proof.
  intros n minGap sum oldest.
  destruct (makeFvg_ok config s Hmake) as (H1 & H2 & H3 & H4 & H5 & H6); [lia|lia|].
  apply warm_tail_length in Hfvg as Lf; [|lia]. apply warm_tail_length in Hhtf as Lh; [|lia].
  unfold fvg_decide. rewrite Hfvg, Hhtf. unfold fvg_signal. fold n.
  rewrite sum_back_spec, Z.add_0_l, htf_closes_take by (auto; lia). fold sum. cbn [result_bind].
  destruct (read_ok htfBars (Z.of_nat (length htfBars) - 2)) as (lh & E1 & L1); [lia|].
  destruct (read_ok fvgBars (n - 2)) as (nw & E2 & L2); [lia|].
  rewrite E1. cbn [result_bind]. rewrite E2. cbn [result_bind].
  assert (0 <= close lh <= 8388607) as Hc.
  { rewrite Forall_forall in Hokh. pose proof (Hokh lh (list_elem_of_lookup_2 _ _ _ L1)) as Hb.
    unfold bar_ok, price_ok in Hb. lia. }
  pose proof (SymbolScale.get_cases (symbol tick)) as Hs.
  rewrite (i64_id (close lh * _)) by (unfold in_i64; nia).
  rewrite (i32_id (minGapPips s * _)) by (unfold in_i32; nia). fold minGap oldest.
  assert (2 <= oldest <= n - 1) as Ho by (unfold oldest, oldest_index; lia).
  destruct (scan_spec (sum <? close lh * htfSmaPeriod s) (close lh * htfSmaPeriod s <? sum)
    minGap (close nw) tick fvgBars (Z.to_nat (n - 2 - oldest + 1)) (n - 2)) as (signal & E & HL & HS);
    [done|rewrite Z.ltb_lt, Z.ltb_ge; lia|lia|lia|].
  exists signal, nw, lh. split_and!; [done|done|done|rewrite HL|rewrite HS].
  all: rewrite Z.ltb_lt, Z2Nat.id, (Z.mul_comm (close lh)) by lia.
  all: split; intros (Ht & k & Hk & Hb); (split; [exact Ht|exists k; split; [lia|exact Hb]]).
Qed.

(** ** Witness *)

Definition fvg_config : StrategyConfig :=
  mkStrategyConfig "u" (mkTradingVariables "FvgStrategy" 1 2 1)
    [mkOHLCVariables 5 15; mkOHLCVariables 4 60] []
    (mkStrategyVariables None None (Some (mkFVGStrategyVariables 2 1 2 0 0))
       None None None None None None).

Definition fvg_strategy : FvgStrategy :=
  mkFvg (mkOHLCVariables 5 15) (mkOHLCVariables 4 60) 2 1 2 0 0.

Definition bar_of (lo hi cl : Z) : OhlcObject := mkOhlcObject 0 lo cl hi lo true.

Definition fvg_bars : list OhlcObject :=
  [bar_of 980 990 985; bar_of 990 1000 995; bar_of 1000 1040 1035; bar_of 1020 1060 1050;
   bar_of 1015 1050 1015].

Definition htf_bars : list OhlcObject :=
  [bar_of 900 910 905; bar_of 900 910 905; bar_of 950 960 955; bar_of 1000 1020 1015].

Definition fvg_store : BarStore :=
  mkBarStore [mkSeriesSpec 15 5; mkSeriesSpec 60 4]
    {["EURUSD"%string := [fvg_bars; htf_bars]]} [] ∅.

Lemma fvg_decide_exact_witness :
  fvg_decide fvg_strategy (OhlcBuilder.demo_tick 0 1015) fvg_store = Ok (Some LONG).
Proof.
  destruct (fvg_decide_exact fvg_config fvg_strategy (OhlcBuilder.demo_tick 0 1015) fvg_store
    fvg_bars htf_bars) as (signal & nw & lh & -> & En & El & [_ HL] & _);
    [reflexivity|vm_compute; reflexivity|vm_compute; reflexivity| | |simpl; lia|simpl; lia|simpl; lia|].
  - unfold fvg_bars. repeat constructor; simpl; lia.
  - unfold htf_bars. repeat constructor; simpl; lia.
  - f_equal. apply HL. vm_compute in En, El. injection En as <-. injection El as <-.
    split; [vm_compute; reflexivity|]. exists 3. split; [vm_compute; split; discriminate|].
    exists (bar_of 990 1000 995), (bar_of 1020 1060 1050).
    split_and!; try (vm_compute; congruence). constructor.
Defined.
