(* ===== verification/OpenRange.v ===== *)
(** The two session-open breakouts, which share one shape:
    strategies/sessionRangeBreakout/sessionRangeBreakoutStrategy.cppm (London) and
    strategies/nyOpenRangeBreakout/nyOpenRangeBreakoutStrategy.cppm (New York).
    A range fixed by the clock before the open, and entries on its break within a
    window after it. *)
From S2P Require Import Prelude Models Chrono Config BarStore TradeManager ExitRules Strategy.
From S2P Require Import MarketHours.
From S2P Require OhlcBuilder SymbolScale.

(** ** What the two loops share *)

(** One bar of the scan: [continue] unless it started inside [[from, to)]. *)
Definition widen (from to : Z) (acc : Z * Z * bool) (bar : OhlcObject) : Z * Z * bool :=
  let '(rangeHigh, rangeLow, seen) := acc in
  if (date bar <? from) || (to <=? date bar) then acc
  else (Z.max rangeHigh (high bar), Z.min rangeLow (low bar), true).

(** The scan over the closed bars. *)
Definition started_range (from to : Z) (series : list OhlcObject) : Z * Z * bool :=
  foldl (widen from to) (INT32_MIN, INT32_MAX, false) (but_last series).

(** The series checks, the scan and the two padded comparisons. *)
Definition range_break (from to bufferPips : Z) (tick : PriceData) (series : option (list OhlcObject))
    : option Direction :=
  match series with
  | None => None
  | Some bars =>
      if (length bars <? 2)%nat then None
      else match bars with
           | [] => None
           | front :: _ =>
               if from <? date front then None
               else
                 let '(rangeHigh, rangeLow, seen) := started_range from to bars in
                 if negb seen then None
                 else
                   let bufferPoints := bufferPips *₃₂ SymbolScale.get (symbol tick) in
                   if (rangeHigh +₃₂ bufferPoints) <? bid tick then Some LONG
                   else if ask tick <? (rangeLow -₃₂ bufferPoints) then Some SHORT
                   else None
           end
  end.

(** ** The London open *)

Record SessionRangeBreakoutStrategy : Type := mkSessionRange {
  sr_signalCfg : OHLCVariables;
  sr_bufferPips : Z;
  sr_entryWindow : Z;
  sr_maxTradeDuration : Z;
}.

Definition kAsiaSessionEnd : Z := hours 6.
(** In minutes. *)
Definition kLatestLondonOpen : Z := 480.

(** The constructor; the span arithmetic is in minutes. *)
Definition makeSessionRange (config : StrategyConfig) : result SessionRangeBreakoutStrategy :=
  match OHLC_VARIABLES config with
  | [] => Throw InvalidArgument
  | signal :: _ =>
      if OHLC_MINUTES signal <? 1 then Throw InvalidArgument
      else match SESSION_RANGE_BREAKOUT_VARIABLES (STRATEGY_VARIABLES config) with
           | None => Throw InvalidArgument
           | Some v =>
               if sr_BUFFER_PIPS v <? 0 then Throw InvalidArgument
               else if sr_ENTRY_WINDOW_MINUTES v <? 1 then Throw InvalidArgument
               else
                 let spanMinutes := OHLC_COUNT signal *₆₄ OHLC_MINUTES signal in
                 let requiredMinutes :=
                   (kLatestLondonOpen +₆₄ sr_ENTRY_WINDOW_MINUTES v)
                     +₆₄ (2 *₆₄ OHLC_MINUTES signal) in
                 if spanMinutes <? requiredMinutes then Throw InvalidArgument
                 else Ok (mkSessionRange signal (sr_BUFFER_PIPS v)
                            (minutes (sr_ENTRY_WINDOW_MINUTES v))
                            (minutes (sr_MAX_TRADE_DURATION_MINUTES v)))
           end
  end.

Definition session_decide (s : SessionRangeBreakoutStrategy) (tick : PriceData) (store : BarStore)
    : option Direction :=
  let day := floor_days (timestamp tick) in
  let midnight := day * day_length in
  let sinceMidnight := timestamp tick - midnight in
  let londonOpen := if isLondonSummer day then hours 7 else hours 8 in
  if (sinceMidnight <? londonOpen) || (londonOpen + sr_entryWindow s <=? sinceMidnight) then None
  else range_break midnight (midnight + kAsiaSessionEnd) (sr_bufferPips s) tick
         (find store (symbol tick) (OHLC_MINUTES (sr_signalCfg s))).

Definition session_during (s : SessionRangeBreakoutStrategy) (price : PriceData) (store : BarStore)
    (m : TradeManager) : SessionRangeBreakoutStrategy * TradeManager :=
  (s, (closeIfPastCap price m (sr_maxTradeDuration s)).2).

#[export] Instance SessionRange_IStrategy : IStrategy SessionRangeBreakoutStrategy := {|
  decide s tick store := Ok (session_decide s tick store, s);
  during := session_during;
|}.

#[export] Instance SessionRange_closes_only : ClosesOnly SessionRangeBreakoutStrategy.
Proof. split. intros s tick store m. apply closeIfPastCap_closes_own. Qed.

(** ** The New York open *)

Record NyOpenRangeBreakoutStrategy : Type := mkNyOpenRange {
  ny_signalCfg : OHLCVariables;
  ny_rangeHours : Z;
  ny_bufferPips : Z;
  ny_entryWindow : Z;
  ny_maxTradeDuration : Z;
}.

(** The constructor. *)
Definition makeNyOpenRange (config : StrategyConfig) : result NyOpenRangeBreakoutStrategy :=
  match OHLC_VARIABLES config with
  | [] => Throw InvalidArgument
  | signal :: _ =>
      if OHLC_MINUTES signal <? 1 then Throw InvalidArgument
      else match NY_OPEN_RANGE_BREAKOUT_VARIABLES (STRATEGY_VARIABLES config) with
           | None => Throw InvalidArgument
           | Some v =>
               if ny_RANGE_HOURS v <? 1 then Throw InvalidArgument
               else if hours 13 + minutes 30 <? hours (ny_RANGE_HOURS v) then Throw InvalidArgument
               else if ny_BUFFER_PIPS v <? 0 then Throw InvalidArgument
               else if ny_ENTRY_WINDOW_MINUTES v <? 1 then Throw InvalidArgument
               else
                 let spanMinutes := OHLC_COUNT signal *₆₄ OHLC_MINUTES signal in
                 let requiredMinutes :=
                   ((ny_RANGE_HOURS v * 60) +₆₄ ny_ENTRY_WINDOW_MINUTES v)
                     +₆₄ (2 *₆₄ OHLC_MINUTES signal) in
                 if spanMinutes <? requiredMinutes then Throw InvalidArgument
                 else Ok (mkNyOpenRange signal (hours (ny_RANGE_HOURS v)) (ny_BUFFER_PIPS v)
                            (minutes (ny_ENTRY_WINDOW_MINUTES v))
                            (minutes (ny_MAX_TRADE_DURATION_MINUTES v)))
           end
  end.

Definition ny_decide (s : NyOpenRangeBreakoutStrategy) (tick : PriceData) (store : BarStore)
    : option Direction :=
  let day := floor_days (timestamp tick) in
  let midnight := day * day_length in
  let sinceMidnight := timestamp tick - midnight in
  let nyOpen := (if isNewYorkSummer day then hours 13 else hours 14) + minutes 30 in
  if (sinceMidnight <? nyOpen) || (nyOpen + ny_entryWindow s <=? sinceMidnight) then None
  else
    let openTime := midnight + nyOpen in
    range_break (openTime - ny_rangeHours s) openTime (ny_bufferPips s) tick
      (find store (symbol tick) (OHLC_MINUTES (ny_signalCfg s))).

Definition ny_during (s : NyOpenRangeBreakoutStrategy) (price : PriceData) (store : BarStore)
    (m : TradeManager) : NyOpenRangeBreakoutStrategy * TradeManager :=
  (s, (closeIfPastCap price m (ny_maxTradeDuration s)).2).

#[export] Instance NyOpenRange_IStrategy : IStrategy NyOpenRangeBreakoutStrategy := {|
  decide s tick store := Ok (ny_decide s tick store, s);
  during := ny_during;
|}.

#[export] Instance NyOpenRange_closes_only : ClosesOnly NyOpenRangeBreakoutStrategy.
Proof. split. intros s tick store m. apply closeIfPastCap_closes_own. Qed.

(** ** Specification *)

(** The closed bars that started inside [[from, to)]. *)
Definition started (from to : Z) (series : list OhlcObject) : list OhlcObject :=
  filter (fun b => from <= date b < to) (but_last series).

(** A usable range: the history reaches back to [from], and some closed bar
    started inside the window. *)
Definition range_ready (from to : Z) (series bars : list OhlcObject) : Prop :=
  (exists oldest, head series = Some oldest /\ date oldest <= from) /\
  bars = started from to series /\ bars <> [].

(** Bars open more than [d] apart, and none opens after [now]. *)
Definition spaced (d now : Z) (series : list OhlcObject) : Prop :=
  (forall i b b', series !! i = Some b -> series !! S i = Some b' -> d < date b' - date b) /\
  (forall b, last series = Some b -> date b <= now).

(** The entry windows, on the exact clocks of the two cities. *)
Definition london_open (ts : Z) : Z := if london_summer_at ts then hours 7 else hours 8.
Definition new_york_open (ts : Z) : Z :=
  if new_york_summer_at ts then hours 13 + minutes 30 else hours 14 + minutes 30.
Definition in_entry_window (opening window ts : Z) : Prop :=
  opening <= ts mod day_length < opening + window.

(** * Facts *)

Lemma started_range_filter from to series :
  started_range from to series =
  (highest_high (started from to series), lowest_low (started from to series),
   negb (bool_decide (started from to series = []))).
Proof.
  unfold started_range, started, highest_high, lowest_low.
  assert (forall l h lo seen,
    foldl (widen from to) (h, lo, seen) l =
    (foldl (fun h bar => Z.max h (high bar)) h (filter (fun b => from <= date b < to) l),
     foldl (fun x bar => Z.min x (low bar)) lo (filter (fun b => from <= date b < to) l),
     seen || negb (bool_decide (filter (fun b => from <= date b < to) l = [])))) as H.
  { induction l as [|b l IH]; intros h lo seen; [now rewrite filter_nil, orb_false_r|].
    rewrite filter_cons. cbn [foldl widen].
    destruct (Z.ltb_spec (date b) from), (Z.leb_spec to (date b)); cbn [orb];
      try (rewrite decide_False by lia; apply IH).
    rewrite decide_True by lia. rewrite IH. cbn [foldl].
    rewrite (bool_decide_eq_false_2 (_ :: _ = [])) by done. cbn. now rewrite orb_true_r. }
  now rewrite H.
Qed.

Lemma started_ok from to series : Forall bar_ok series -> Forall bar_ok (started from to series).
Proof.
  intros H. apply Forall_forall. intros b Hb. apply list_elem_of_filter in Hb as [_ Hb].
  now apply (proj1 (Forall_forall _ _) (Forall_take _ _ _ H)) in Hb.
Qed.

(** Either no range is ready and nothing is signalled, or exactly one is and the
    padded comparisons decide. *)
Lemma range_break_cases from to bufferPips tick series :
  let '(rangeHigh, rangeLow) :=
    (highest_high (started from to series), lowest_low (started from to series)) in
  let bufferPoints := bufferPips *₃₂ SymbolScale.get (symbol tick) in
  ((forall bars, ~ range_ready from to series bars) /\
   range_break from to bufferPips tick (Some series) = None) \/
  (range_ready from to series (started from to series) /\
   range_break from to bufferPips tick (Some series) =
     if (rangeHigh +₃₂ bufferPoints) <? bid tick then Some LONG
     else if ask tick <? (rangeLow -₃₂ bufferPoints) then Some SHORT else None).
Proof.
  cbv zeta. unfold range_break, range_ready. destruct (Nat.ltb_spec (length series) 2) as [Hl|Hl].
  { left. split; [|done]. intros bars (_ & -> & Hne). apply Hne.
    unfold started, but_last. destruct series as [|? [|? ?]]; [done|done|simpl in Hl; lia]. }
  destruct series as [|front rest]; [simpl in Hl; lia|].
  destruct (Z.ltb_spec from (date front)) as [Hf|Hf].
  { left. split; [|done]. intros bars ((o & [= <-] & Ho) & _). lia. }
  rewrite started_range_filter.
  destruct (bool_decide_reflect (started from to (front :: rest) = [])) as [He|He]; cbn [negb].
  - left. split; [|done]. now intros bars (_ & -> & Hne).
  - right. split; [|reflexivity]. split_and!; [eexists; split; [reflexivity|exact Hf]|done|done].
Qed.

Lemma extremes_ordered bars :
  bars <> [] -> Forall bar_ok bars -> lowest_low bars <= highest_high bars.
Proof.
  intros Hne Hok. destruct bars as [|b l]; [done|]. inversion Hok as [|? ? Hb _]; subst.
  unfold bar_ok, price_ok in Hb.
  assert (~ highest_high (b :: l) < low b) as H1.
  { rewrite highest_high_lt by ilia. intros H. inversion H; subst. lia. }
  assert (~ low b < lowest_low (b :: l)) as H2.
  { rewrite lowest_low_gt by ilia. intros H. inversion H; subst. lia. }
  lia.
Qed.

(** The break of a range, with the wrap-around gone. *)
Lemma range_break_exact from to bufferPips tick series :
  tick_ok tick -> bid tick <= ask tick -> 0 <= bufferPips <= 1000000 -> Forall bar_ok series ->
  let buffer := bufferPips * SymbolScale.get (symbol tick) in
  let signal := range_break from to bufferPips tick (Some series) in
  (signal = Some LONG <-> exists bars, range_ready from to series bars /\
     Forall (fun b => high b + buffer < bid tick) bars) /\
  (signal = Some SHORT <-> exists bars, range_ready from to series bars /\
     Forall (fun b => ask tick < low b - buffer) bars).
Proof.
  intros [Ha Hb] Hspread Hbuf Hok buffer signal. unfold signal.
  pose proof (SymbolScale.get_cases (symbol tick)) as Hc.
  assert (0 <= buffer <= 1000000000) as Hbp by (unfold buffer; nia).
  destruct (range_break_cases from to bufferPips tick series) as [[Hno ->]|[Hr ->]].
  { split; (split; [done|]); intros (bars & Hr & _); destruct (Hno bars Hr). }
  assert (forall P : list OhlcObject -> Prop,
    (exists bars, range_ready from to series bars /\ P bars) <-> P (started from to series)) as Hex.
  { intros P. split; [now intros (? & (_ & -> & _) & H)|]. eauto. }
  rewrite !Hex. destruct Hr as (_ & _ & Hne). set (bars := started from to series) in *.
  assert (Forall bar_ok bars) as Hso by now apply started_ok.
  destruct (extremes_range _ Hne Hso) as [Hhi Hlo].
  pose proof (extremes_ordered _ Hne Hso) as Hord.
  rewrite (i32_id (bufferPips * _)) by (fold buffer; ilia). fold buffer.
  rewrite !i32_id, above_all, below_all by (done || ilia).
  destruct (Z.ltb_spec (highest_high bars + buffer) (bid tick));
    destruct (Z.ltb_spec (ask tick) (lowest_low bars - buffer));
    split; split; intros; (done || lia).
Qed.

Lemma spaced_reach d now series front :
  0 <= d -> spaced d now series -> head series = Some front ->
  date front + d * (Z.of_nat (length series) - 1) <= now.
Proof.
  revert front. induction series as [|b series IH]; [done|]. intros front Hd [Hs Hn] [= ->].
  destruct series as [|b' series]; [specialize (Hn front eq_refl); cbn; lia|].
  assert (spaced d now (b' :: series)) as Hs'.
  { split; [|exact Hn]. intros i x y. apply (Hs (S i)). }
  specialize (IH b' Hd Hs' eq_refl). specialize (Hs 0%nat front b' eq_refl eq_refl).
  cbn [length] in *. lia.
Qed.

Lemma makeSessionRange_buffer config s :
  makeSessionRange config = Ok s -> 0 <= sr_bufferPips s.
Proof.
  unfold makeSessionRange. destruct (OHLC_VARIABLES config) as [|c rest]; [done|].
  destruct (_ <? 1); [done|].
  destruct (SESSION_RANGE_BREAKOUT_VARIABLES _) as [v|]; [|done].
  destruct (Z.ltb_spec (sr_BUFFER_PIPS v) 0); [done|]. destruct (_ <? 1); [done|].
  destruct (_ <? _); [done|]. now intros [= <-].
Qed.

Lemma makeNyOpenRange_buffer config s :
  makeNyOpenRange config = Ok s -> 0 <= ny_bufferPips s.
Proof.
  unfold makeNyOpenRange. destruct (OHLC_VARIABLES config) as [|c rest]; [done|].
  destruct (_ <? 1); [done|].
  destruct (NY_OPEN_RANGE_BREAKOUT_VARIABLES _) as [v|]; [|done].
  destruct (_ <? 1); [done|]. destruct (_ <? _); [done|].
  destruct (Z.ltb_spec (ny_BUFFER_PIPS v) 0); [done|]. destruct (_ <? 1); [done|].
  destruct (_ <? _); [done|]. now intros [= <-].
Qed.

(** What the two constructors guarantee about the window arithmetic, in minutes:
    the configured history outlasts the range and the entry window by two bars. *)
Lemma makeSessionRange_ok config s :
  makeSessionRange config = Ok s ->
  in_i32 (OHLC_COUNT (sr_signalCfg s)) -> in_i32 (OHLC_MINUTES (sr_signalCfg s)) ->
  sr_entryWindow s <= minutes 2147483647 ->
  1 <= OHLC_MINUTES (sr_signalCfg s) /\ 0 <= sr_bufferPips s /\
  hours 8 + sr_entryWindow s + 2 * minutes (OHLC_MINUTES (sr_signalCfg s)) <=
    minutes (OHLC_COUNT (sr_signalCfg s) * OHLC_MINUTES (sr_signalCfg s)).
Proof.
  unfold makeSessionRange. destruct (OHLC_VARIABLES config) as [|c rest]; [done|].
  destruct (Z.ltb_spec (OHLC_MINUTES c) 1); [done|].
  destruct (SESSION_RANGE_BREAKOUT_VARIABLES _) as [v|]; [|done].
  destruct (Z.ltb_spec (sr_BUFFER_PIPS v) 0); [done|].
  destruct (Z.ltb_spec (sr_ENTRY_WINDOW_MINUTES v) 1); [done|].
  destruct (Z.ltb_spec (OHLC_COUNT c *₆₄ OHLC_MINUTES c)
    ((kLatestLondonOpen +₆₄ sr_ENTRY_WINDOW_MINUTES v) +₆₄ (2 *₆₄ OHLC_MINUTES c)))
    as [|Hspan]; [done|].
  intros [= <-]. cbn. unfold minutes, hours, kLatestLondonOpen in *. intros Hn Hm Hw.
  assert (in_i64 (OHLC_COUNT c * OHLC_MINUTES c)) as Hp by (now apply i32_product).
  unwrap_in Hspan. lia.
Qed.

Lemma makeNyOpenRange_ok config s :
  makeNyOpenRange config = Ok s ->
  in_i32 (OHLC_COUNT (ny_signalCfg s)) -> in_i32 (OHLC_MINUTES (ny_signalCfg s)) ->
  ny_entryWindow s <= minutes 2147483647 ->
  1 <= OHLC_MINUTES (ny_signalCfg s) /\ 0 <= ny_bufferPips s /\
  hours 1 <= ny_rangeHours s <= hours 13 /\
  ny_rangeHours s + ny_entryWindow s + 2 * minutes (OHLC_MINUTES (ny_signalCfg s)) <=
    minutes (OHLC_COUNT (ny_signalCfg s) * OHLC_MINUTES (ny_signalCfg s)).
Proof.
  unfold makeNyOpenRange. destruct (OHLC_VARIABLES config) as [|c rest]; [done|].
  destruct (Z.ltb_spec (OHLC_MINUTES c) 1); [done|].
  destruct (NY_OPEN_RANGE_BREAKOUT_VARIABLES _) as [v|]; [|done].
  destruct (Z.ltb_spec (ny_RANGE_HOURS v) 1); [done|].
  destruct (Z.ltb_spec (hours 13 + minutes 30) (hours (ny_RANGE_HOURS v))) as [|Hh]; [done|].
  destruct (Z.ltb_spec (ny_BUFFER_PIPS v) 0); [done|].
  destruct (Z.ltb_spec (ny_ENTRY_WINDOW_MINUTES v) 1); [done|].
  destruct (Z.ltb_spec (OHLC_COUNT c *₆₄ OHLC_MINUTES c)
    (((ny_RANGE_HOURS v * 60) +₆₄ ny_ENTRY_WINDOW_MINUTES v) +₆₄ (2 *₆₄ OHLC_MINUTES c)))
    as [|Hspan]; [done|].
  intros [= <-]. cbn. unfold minutes, hours in *. intros Hn Hm Hw.
  assert (in_i64 (OHLC_COUNT c * OHLC_MINUTES c)) as Hp by (now apply i32_product).
  unwrap_in Hspan. lia.
Qed.

(** A full window of spaced bars reaches back further than [reach]. *)
Lemma full_window_reaches count mins ts series reach :
  1 <= mins -> spaced (minutes mins) ts series -> series <> [] ->
  count <= Z.of_nat (length series) ->
  reach + minutes mins <= minutes (count * mins) ->
  exists oldest, head series = Some oldest /\ date oldest <= ts - reach.
Proof.
  intros Hm Hs Hne Hn Hr. destruct series as [|front rest]; [done|]. exists front. split; [done|].
  pose proof (spaced_reach (minutes mins) ts _ front ltac:(unfold minutes; lia) Hs eq_refl).
  unfold minutes in *. nia.
Qed.

(** The clock gate in front of the break. *)
Lemma gated_break (closed : bool) (entry : Prop) from to bufferPips tick found :
  (closed = false <-> entry) ->
  tick_ok tick -> bid tick <= ask tick -> 0 <= bufferPips <= 1000000 ->
  (forall series, found = Some series -> Forall bar_ok series) ->
  let buffer := bufferPips * SymbolScale.get (symbol tick) in
  let setup bars := exists series, found = Some series /\ range_ready from to series bars in
  let signal := if closed then None else range_break from to bufferPips tick found in
  (signal = Some LONG <->
     entry /\ exists bars, setup bars /\ Forall (fun b => high b + buffer < bid tick) bars) /\
  (signal = Some SHORT <->
     entry /\ exists bars, setup bars /\ Forall (fun b => ask tick < low b - buffer) bars).
Proof.
  intros He Ht Hs Hb Hok. cbv zeta. destruct closed.
  { split; (split; [done|]); intros [H _]; now apply He in H. }
  assert entry as H by now apply He.
  destruct found as [series|].
  2: { split; (split; [done|]); intros (_ & bars & (series & ? & _) & _); done. }
  destruct (range_break_exact from to bufferPips tick series Ht Hs Hb (Hok _ eq_refl)) as [HL HS].
  rewrite HL, HS. split; split.
  all: first [intros (bars & Hr & Hf); split; [done|]; exists bars; eauto
             |intros (_ & bars & (series' & [= <-] & Hr) & Hf); eauto].
Qed.

(** The London breakout trades a break of the Asian range, and only then.  For
    a strategy its constructor accepts, over in-range bars and an uncrossed tick:
    it goes long (short) exactly when the London wall clock, summer time
    switched at the true instant, is inside the entry window after 08:00, the
    history reaches back to UTC midnight, some closed bar started in
    [00:00, 06:00) UTC today, and the bid is above every such bar's high (the ask
    below every low) by more than the buffer.  The constructor's span check is
    enough: inside the entry window a full series always reaches midnight. *)
Theorem session_decide_exact (config : StrategyConfig) (s : SessionRangeBreakoutStrategy)
    (tick : PriceData) (store : BarStore)
    (Hmake : makeSessionRange config = Ok s)
    (Htick : tick_ok tick) (Hspread : bid tick <= ask tick) (Hbuf : sr_bufferPips s <= 1000000)
    (Hbars : forall series, find store (symbol tick) (OHLC_MINUTES (sr_signalCfg s)) = Some series ->
                            Forall bar_ok series) :
  let ts := timestamp tick in
  let midnight := ts - ts mod day_length in
  let buffer := sr_bufferPips s * SymbolScale.get (symbol tick) in
  let setup bars := exists series,
    find store (symbol tick) (OHLC_MINUTES (sr_signalCfg s)) = Some series /\
    range_ready midnight (midnight + hours 6) series bars in
  let entry := in_entry_window (london_open ts) (sr_entryWindow s) ts in
  (session_decide s tick store = Some LONG <->
     entry /\ exists bars, setup bars /\ Forall (fun b => high b + buffer < bid tick) bars) /\
  (session_decide s tick store = Some SHORT <->
     entry /\ exists bars, setup bars /\ Forall (fun b => ask tick < low b - buffer) bars) /\
  (forall series, entry -> series <> [] ->
     in_i32 (OHLC_COUNT (sr_signalCfg s)) -> in_i32 (OHLC_MINUTES (sr_signalCfg s)) ->
     sr_entryWindow s <= minutes 2147483647 ->
     OHLC_COUNT (sr_signalCfg s) <= Z.of_nat (length series) ->
     spaced (minutes (OHLC_MINUTES (sr_signalCfg s))) ts series ->
     exists oldest, head series = Some oldest /\ date oldest <= midnight).
Proof.
  intros ts midnight buffer setup entry.
  assert (0 <= sr_bufferPips s) as Hbuf0 by (now apply makeSessionRange_buffer in Hmake).
  assert (midnight = floor_days ts * day_length) as Em by (unfold midnight; rewrite <- since_midnight; lia).
  assert (entry <-> let londonOpen := if isLondonSummer (floor_days ts) then hours 7 else hours 8 in
                    londonOpen <= ts - midnight < londonOpen + sr_entryWindow s) as Hentry.
  { unfold entry, in_entry_window, london_open. rewrite Em, since_midnight. cbv zeta.
    destruct (Z.le_gt_cases (hours 1) (ts mod day_length)) as [H|H].
    - rewrite isLondonSummer_late by done. reflexivity.
    - unfold hours in *. destruct (london_summer_at ts), (isLondonSummer _); lia. }
  apply and_assoc. split.
  - unfold session_decide. fold ts. rewrite <- Em. apply gated_break; auto with lia.
    now rewrite orb_false_iff, Z.ltb_ge, Z.leb_gt, Hentry.
  - intros series He Hne Hn Hm Hw Hl Hs. apply Hentry in He. cbv zeta in He.
    destruct (makeSessionRange_ok _ _ Hmake Hn Hm Hw) as (H1 & _ & H2).
    destruct (full_window_reaches _ _ ts series (hours 8 + sr_entryWindow s)
      H1 Hs Hne Hl ltac:(unfold minutes, hours in *; lia)) as (o & Ho & Hd).
    exists o. split; [done|]. unfold hours in *. destruct (isLondonSummer _); lia.
Qed.

(** The New York breakout trades a break of the pre-open range, and only then.
    For a strategy its constructor accepts, over in-range bars and an uncrossed
    tick: it goes long (short) exactly when the instant is inside the entry window
    after the true 09:30 New York open, the history reaches back RANGE_HOURS
    before that open, some closed bar started between there and the open, and the
    bid is above every such bar's high (the ask below every low) by more than the
    buffer.  The range never reaches back past the day's UTC midnight, and inside
    the entry window a full series always covers it. *)
Theorem ny_decide_exact (config : StrategyConfig) (s : NyOpenRangeBreakoutStrategy)
    (tick : PriceData) (store : BarStore)
    (Hmake : makeNyOpenRange config = Ok s)
    (Htick : tick_ok tick) (Hspread : bid tick <= ask tick) (Hbuf : ny_bufferPips s <= 1000000)
    (Hbars : forall series, find store (symbol tick) (OHLC_MINUTES (ny_signalCfg s)) = Some series ->
                            Forall bar_ok series) :
  let ts := timestamp tick in
  let midnight := ts - ts mod day_length in
  let opening := midnight + new_york_open ts in
  let buffer := ny_bufferPips s * SymbolScale.get (symbol tick) in
  let setup bars := exists series,
    find store (symbol tick) (OHLC_MINUTES (ny_signalCfg s)) = Some series /\
    range_ready (opening - ny_rangeHours s) opening series bars in
  let entry := in_entry_window (new_york_open ts) (ny_entryWindow s) ts in
  (ny_decide s tick store = Some LONG <->
     entry /\ exists bars, setup bars /\ Forall (fun b => high b + buffer < bid tick) bars) /\
  (ny_decide s tick store = Some SHORT <->
     entry /\ exists bars, setup bars /\ Forall (fun b => ask tick < low b - buffer) bars) /\
  (in_i32 (OHLC_COUNT (ny_signalCfg s)) -> in_i32 (OHLC_MINUTES (ny_signalCfg s)) ->
   ny_entryWindow s <= minutes 2147483647 ->
   midnight <= opening - ny_rangeHours s /\
   forall series, entry -> series <> [] ->
     OHLC_COUNT (ny_signalCfg s) <= Z.of_nat (length series) ->
     spaced (minutes (OHLC_MINUTES (ny_signalCfg s))) ts series ->
     exists oldest, head series = Some oldest /\ date oldest <= opening - ny_rangeHours s).
Proof.
  intros ts midnight opening buffer setup entry.
  assert (0 <= ny_bufferPips s) as Hbuf0 by (now apply makeNyOpenRange_buffer in Hmake).
  assert (midnight = floor_days ts * day_length) as Em by (unfold midnight; rewrite <- since_midnight; lia).
  set (nyOpen := (if isNewYorkSummer (floor_days ts) then hours 13 else hours 14) + minutes 30).
  assert (hours 7 <= ts mod day_length -> nyOpen = new_york_open ts) as Hlate.
  { intros H. unfold nyOpen, new_york_open. rewrite isNewYorkSummer_late by done.
    now destruct (new_york_summer_at ts). }
  assert (hours 13 + minutes 30 <= nyOpen /\ hours 13 + minutes 30 <= new_york_open ts) as [Hn1 Hn2].
  { unfold nyOpen, new_york_open, hours, minutes.
    destruct (isNewYorkSummer _), (new_york_summer_at ts); lia. }
  assert (entry <-> nyOpen <= ts - midnight < nyOpen + ny_entryWindow s) as Hentry.
  { unfold entry, in_entry_window. rewrite Em, since_midnight.
    destruct (Z.le_gt_cases (hours 7) (ts mod day_length)) as [H|H].
    - rewrite Hlate by done. reflexivity.
    - unfold hours, minutes in *. lia. }
  apply and_assoc. split.
  - unfold ny_decide. fold ts nyOpen. rewrite <- Em.
    destruct ((ts - midnight <? nyOpen) || (nyOpen + ny_entryWindow s <=? ts - midnight)) eqn:Eg.
    + assert (~ entry) as Hno.
      { rewrite Hentry. apply orb_true_iff in Eg as [Eg|Eg]; zbool; lia. }
      split; split; [done|tauto|done|tauto].
    + assert (entry) as Hyes.
      { apply Hentry. apply orb_false_iff in Eg as [Eg1 Eg2]. zbool. lia. }
      assert (opening = midnight + nyOpen) as ->.
      { unfold opening. rewrite Hlate; [done|]. unfold entry, in_entry_window in Hyes.
        unfold hours, minutes in *. lia. }
      apply (gated_break false entry); auto with lia. tauto.
  - intros Hn Hm Hw. destruct (makeNyOpenRange_ok _ _ Hmake Hn Hm Hw) as (H1 & _ & H2 & H3).
    split; [unfold opening, hours, minutes in *; lia|].
    intros series He Hne Hl Hs. apply Hentry in He.
    destruct (full_window_reaches _ _ ts series (ny_rangeHours s + ny_entryWindow s)
      H1 Hs Hne Hl ltac:(unfold minutes, hours in *; lia)) as (o & Ho & Hd).
    exists o. split; [done|]. unfold opening. rewrite <- Hlate; [lia|].
    rewrite <- since_midnight, <- Em. unfold hours, minutes in *. lia.
Qed.

(** ** Witnesses: Tuesday 18 June 2024, hourly bars from 21:00 the evening before. *)

Definition summer_tuesday : Z := 19892 * day_length.

Definition open_bars (first : Z) : list OhlcObject :=
  map (fun i => mkOhlcObject (first + minutes (61 * i)) 110000 110000 110010 109990 true)
    [0; 1; 2; 3; 4; 5; 6; 7; 8; 9; 10].

Definition open_store (first : Z) : BarStore :=
  mkBarStore [mkSeriesSpec 60 11] {["EURUSD"%string := [open_bars first]]} [] ∅.

Definition open_tick (now : Z) : PriceData := mkPriceData 110031 110030 now "EURUSD".

Definition session_config : StrategyConfig :=
  mkStrategyConfig "u" (mkTradingVariables "SessionRangeBreakoutStrategy" 1 2 1)
    [mkOHLCVariables 11 60] []
    (mkStrategyVariables None None None None (Some (mkSessionRangeBreakoutVariables 1 60 0))
       None None None None).

Definition session_strategy : SessionRangeBreakoutStrategy :=
  mkSessionRange (mkOHLCVariables 11 60) 1 (minutes 60) 0.

Lemma open_store_ok first series :
  find (open_store first) "EURUSD" 60 = Some series -> Forall bar_ok series.
Proof. intros [= <-]. repeat constructor; simpl; lia. Qed.

Lemma session_decide_exact_witness :
  session_decide session_strategy (open_tick (summer_tuesday + hours 7 + minutes 30))
    (open_store (summer_tuesday - hours 3)) = Some LONG.
Proof.
  apply (session_decide_exact session_config session_strategy);
    [reflexivity|split; split; simpl; lia|simpl; lia|simpl; lia|apply open_store_ok|].
  split; [vm_compute; split; congruence|].
  exists (started summer_tuesday (summer_tuesday + hours 6) (open_bars (summer_tuesday - hours 3))).
  split.
  - exists (open_bars (summer_tuesday - hours 3)). split; [reflexivity|].
    split_and!; [eexists; split; [reflexivity|vm_compute; congruence]|reflexivity|].
    vm_compute. congruence.
  - vm_compute. repeat constructor.
Defined.

Definition ny_config : StrategyConfig :=
  mkStrategyConfig "u" (mkTradingVariables "NyOpenRangeBreakoutStrategy" 1 2 1)
    [mkOHLCVariables 11 60] []
    (mkStrategyVariables None None None None None None
       (Some (mkNyOpenRangeBreakoutVariables 4 1 60 0)) None None).

Definition ny_strategy : NyOpenRangeBreakoutStrategy :=
  mkNyOpenRange (mkOHLCVariables 11 60) (hours 4) 1 (minutes 60) 0.

Lemma ny_decide_exact_witness :
  ny_decide ny_strategy (open_tick (summer_tuesday + hours 14))
    (open_store (summer_tuesday + hours 3)) = Some LONG.
Proof.
  apply (ny_decide_exact ny_config ny_strategy);
    [reflexivity|split; split; simpl; lia|simpl; lia|simpl; lia|apply open_store_ok|].
  split; [vm_compute; split; congruence|].
  exists (started (summer_tuesday + hours 13 + minutes 30 - hours 4)
            (summer_tuesday + hours 13 + minutes 30) (open_bars (summer_tuesday + hours 3))).
  split.
  - exists (open_bars (summer_tuesday + hours 3)). split; [reflexivity|].
    split_and!; [eexists; split; [reflexivity|vm_compute; congruence]|reflexivity|].
    vm_compute. congruence.
  - vm_compute. repeat constructor.
Defined.
