(* ===== verification/Squeeze.v ===== *)
(** strategies/squeezeBreakout/squeezeBreakoutStrategy.cppm: breakouts of a single
    contracted bar with an EMA trend filter. *)
From S2P Require Import Prelude Models Config Indicators BarStore TradeManager ExitRules Strategy.
From S2P Require OhlcBuilder SymbolScale.

Record SqueezeBreakoutStrategy : Type := mkSqueeze {
  signalCfg : OHLCVariables;
  trendCfg : OHLCVariables;
  nrLookback : Z;
  validBars : Z;
  bufferPips : Z;
  maxTradeDuration : Z;
}.

(** The constructor. *)
Definition makeSqueeze (config : StrategyConfig) : result SqueezeBreakoutStrategy :=
  match OHLC_VARIABLES config with
  | signal :: trend :: _ =>
      if (OHLC_MINUTES signal <? 1) || (OHLC_MINUTES trend <? 1) then Throw InvalidArgument
      else if OHLC_COUNT trend <? 2 then Throw InvalidArgument
      else match SQUEEZE_BREAKOUT_VARIABLES (STRATEGY_VARIABLES config) with
           | None => Throw InvalidArgument
           | Some v =>
               if (sq_NR_LOOKBACK v <? 0) || (sq_NR_LOOKBACK v =? 1) then Throw InvalidArgument
               else if sq_VALID_BARS v <? 1 then Throw InvalidArgument
               else if sq_BUFFER_PIPS v <? 0 then Throw InvalidArgument
               else if sq_MAX_TRADE_DURATION_MINUTES v <? 0 then Throw InvalidArgument
               else
                 let patternLookback := Z.max 1 (sq_NR_LOOKBACK v -₃₂ 1) in
                 if OHLC_COUNT signal <? ((sq_VALID_BARS v +₃₂ patternLookback) +₃₂ 1)
                 then Throw InvalidArgument
                 else Ok (mkSqueeze signal trend (sq_NR_LOOKBACK v) (sq_VALID_BARS v)
                            (sq_BUFFER_PIPS v) (minutes (sq_MAX_TRADE_DURATION_MINUTES v)))
           end
  | _ => Throw InvalidArgument
  end.

(** [for (back = from; back < N; ++back)] of the NR-N test, [n] bars to go. *)
Fixpoint narrower (bars : list OhlcObject) (range index back : Z) (n : nat) : result bool :=
  match n with
  | O => Ok true
  | S n' =>
      other <~ read bars (index - back);
      if (high other -₃₂ low other) <=? range then Ok false
      else narrower bars range index (back + 1) n'
  end.

Definition isPatternAt (s : SqueezeBreakoutStrategy) (closedBars : list OhlcObject) (index : Z)
    : result bool :=
  bar <~ read closedBars index;
  if nrLookback s =? 0 then
    mother <~ read closedBars (index - 1);
    Ok ((high bar <=? high mother) && (low mother <=? low bar))
  else narrower closedBars (high bar -₃₂ low bar) index 1 (Z.to_nat (nrLookback s - 1)).

(** The newest-first scan, [n] candidates to go. *)
Fixpoint pattern_scan (s : SqueezeBreakoutStrategy) (up down : bool) (bufferPoints : Z)
    (tick : PriceData) (closedBars : list OhlcObject) (index : Z) (n : nat)
    : result (option Direction) :=
  match n with
  | O => Ok None
  | S n' =>
      matched <~ isPatternAt s closedBars index;
      if (matched : bool) then
        pattern <~ read closedBars index;
        if up && ((high pattern +₃₂ bufferPoints) <? bid tick) then Ok (Some LONG)
        else if down && (ask tick <? (low pattern -₃₂ bufferPoints)) then Ok (Some SHORT)
        else pattern_scan s up down bufferPoints tick closedBars (index - 1) n'
      else pattern_scan s up down bufferPoints tick closedBars (index - 1) n'
  end.

Definition squeeze_signal (s : SqueezeBreakoutStrategy) (tick : PriceData)
    (signalBars trendBars : list OhlcObject) : result (option Direction) :=
  ' (currentClose, currentEma) <~ trend_reading trendBars;
  let uptrend := currentEma <? currentClose in
  let downtrend := currentClose <? currentEma in
  if negb uptrend && negb downtrend then Ok None
  else
    let closedBars := but_last signalBars in
    pattern_scan s uptrend downtrend (bufferPips s *₃₂ SymbolScale.get (symbol tick)) tick
      closedBars (Z.of_nat (length closedBars) - 1) (Z.to_nat (validBars s)).

Definition squeeze_decide (s : SqueezeBreakoutStrategy) (tick : PriceData) (store : BarStore)
    : result (option Direction) :=
  match warm_tail store (symbol tick) (signalCfg s), warm_tail store (symbol tick) (trendCfg s) with
  | Some signalBars, Some trendBars => squeeze_signal s tick signalBars trendBars
  | _, _ => Ok None
  end.

Definition squeeze_during (s : SqueezeBreakoutStrategy) (price : PriceData) (store : BarStore)
    (m : TradeManager) : SqueezeBreakoutStrategy * TradeManager :=
  (s, (closeIfPastCap price m (maxTradeDuration s)).2).

#[export] Instance Squeeze_IStrategy : IStrategy SqueezeBreakoutStrategy := {|
  decide s tick store := signal <~ squeeze_decide s tick store; Ok (signal, s);
  during := squeeze_during;
|}.

#[export] Instance Squeeze_closes_only : ClosesOnly SqueezeBreakoutStrategy.
Proof. split. intros s tick store m. apply closeIfPastCap_closes_own. Qed.

(** ** Specification *)

(** The closed bar at [k] is the contraction [NR_LOOKBACK] selects: inside its
    predecessor, or strictly the narrowest of the last [NR_LOOKBACK]. *)
Definition contracted (nr : Z) (bars : list OhlcObject) (k : Z) (bar : OhlcObject) : Prop :=
  bars !! Z.to_nat k = Some bar /\
  if nr =? 0 then
    exists mother, bars !! Z.to_nat (k - 1) = Some mother /\
      high bar <= high mother /\ low mother <= low bar
  else forall j other, 1 <= j < nr -> bars !! Z.to_nat (k - j) = Some other ->
         high bar - low bar < high other - low other.

(** * Facts *)

Lemma narrower_spec bars range index n : forall back,
  Forall bar_ok bars -> 0 <= index - back - Z.of_nat n + 1 -> index - back < Z.of_nat (length bars) ->
  exists b, narrower bars range index back n = Ok b /\
    (b = true <-> forall j other, back <= j < back + Z.of_nat n ->
       bars !! Z.to_nat (index - j) = Some other -> range < high other - low other).
Proof.
  induction n as [|n IH]; intros back Hok H0 Hl; cbn [narrower].
  { exists true. split; [done|]. split; [intros _ j other; lia|done]. }
  destruct (read_ok bars (index - back)) as (o & -> & El); [lia|]. cbn [result_bind].
  assert (price_ok (high o) /\ price_ok (low o)) as [Hh Hlo].
  { rewrite Forall_forall in Hok. pose proof (Hok o (list_elem_of_lookup_2 _ _ _ El)) as Hb.
    unfold bar_ok in Hb. tauto. }
  rewrite i32_id by (unfold price_ok in *; ilia).
  destruct (Z.leb_spec (high o - low o) range) as [Hr|Hr].
  - exists false. split; [done|]. split; [done|]. intros H.
    specialize (H back o ltac:(lia) El). lia.
  - destruct (IH (back + 1)) as (b & -> & Hb); [done|lia|lia|]. exists b. split; [done|].
    rewrite Hb. split; intros H j other Hj E; [|apply (H j); [lia|done]].
    destruct (Z.eq_dec j back) as [->|]; [simplify_eq; lia|]. apply (H j); [lia|done].
Qed.

Lemma isPatternAt_spec s bars k :
  Forall bar_ok bars -> nrLookback s = 0 \/ 2 <= nrLookback s ->
  Z.max 1 (nrLookback s - 1) <= k < Z.of_nat (length bars) ->
  exists bar b, bars !! Z.to_nat k = Some bar /\ isPatternAt s bars k = Ok b /\
    (b = true <-> contracted (nrLookback s) bars k bar).
Proof.
  intros Hok Hnr Hk. unfold isPatternAt, contracted.
  destruct (read_ok bars k) as (bar & -> & El); [lia|]. cbn [result_bind]. exists bar.
  destruct (Z.eqb_spec (nrLookback s) 0) as [E|E].
  - destruct (read_ok bars (k - 1)) as (m & -> & Em); [lia|]. cbn [result_bind].
    eexists; split_and!; [done|reflexivity|]. rewrite andb_true_iff, !Z.leb_le. split.
    + intros [H1 H2]. split; [done|]. eauto.
    + intros (_ & m' & Em' & H1 & H2). simplify_eq. done.
  - assert (price_ok (high bar) /\ price_ok (low bar)) as [Hh Hlo].
    { rewrite Forall_forall in Hok. pose proof (Hok bar (list_elem_of_lookup_2 _ _ _ El)) as Hb.
      unfold bar_ok in Hb. tauto. }
    rewrite i32_id by (unfold price_ok in *; ilia).
    destruct (narrower_spec bars (high bar - low bar) k (Z.to_nat (nrLookback s - 1)) 1)
      as (b & -> & Hb); [done|lia|lia|].
    exists b. split_and!; [done|done|]. rewrite Hb, Z2Nat.id by lia.
    replace (1 + (nrLookback s - 1)) with (nrLookback s) by lia. split.
    + intros H. split; [done|]. exact H.
    + intros [_ H]. exact H.
Qed.

Lemma pattern_scan_spec s up down buffer tick bars n : forall index,
  up && down = false -> 0 <= buffer <= 1000000000 ->
  Forall bar_ok bars -> nrLookback s = 0 \/ 2 <= nrLookback s ->
  Z.max 1 (nrLookback s - 1) <= index - Z.of_nat n + 1 -> index < Z.of_nat (length bars) ->
  exists signal, pattern_scan s up down buffer tick bars index n = Ok signal /\
    (signal = Some LONG <-> up = true /\ exists k bar, index - Z.of_nat n < k <= index /\
       contracted (nrLookback s) bars k bar /\ high bar + buffer < bid tick) /\
    (signal = Some SHORT <-> down = true /\ exists k bar, index - Z.of_nat n < k <= index /\
       contracted (nrLookback s) bars k bar /\ ask tick < low bar - buffer).
Proof.
  induction n as [|n IH]; intros index Hud Hbuf Hok Hnr H0 Hl; cbn [pattern_scan].
  { exists None. split; [done|]. split; (split; [done|]); intros (_ & k & b & Hk & _); lia. }
  destruct (isPatternAt_spec s bars index) as (bar & matched & El & -> & Hm); [done|done|lia|].
  cbn [result_bind]. destruct (IH (index - 1)) as (rest & Er & HL & HS); [done..|lia|lia|].
  assert (forall P : OhlcObject -> Prop,
    (exists k b, index - Z.of_nat (S n) < k <= index /\ contracted (nrLookback s) bars k b /\ P b) <->
    (matched = true /\ P bar) \/
    (exists k b, index - 1 - Z.of_nat n < k <= index - 1 /\ contracted (nrLookback s) bars k b /\ P b))
    as Hsplit.
  { intros P. split.
    - intros (k & b & Hk & Hc & HP). destruct (Z.eq_dec k index) as [->|].
      + left. pose proof (proj1 Hc) as Eb. simplify_eq. tauto.
      + right. exists k, b. split; [lia|done].
    - intros [[Hmt HP]|(k & b & Hk & Hc & HP)].
      + exists index, bar. split; [lia|]. split; [tauto|done].
      + exists k, b. split; [lia|done]. }
  setoid_rewrite Hsplit. destruct matched.
  2: { rewrite Er. exists rest. rewrite HL, HS. split; [done|]. naive_solver. }
  destruct (read_ok bars index) as (bar' & -> & El'); [lia|]. cbn [result_bind]. simplify_eq.
  assert (price_ok (high bar) /\ price_ok (low bar)) as [Hh Hlo].
  { rewrite Forall_forall in Hok. pose proof (Hok bar (list_elem_of_lookup_2 _ _ _ El)) as Hb.
    unfold bar_ok in Hb. tauto. }
  rewrite !i32_id by (unfold price_ok in *; ilia).
  destruct (Z.ltb_spec (high bar + buffer) (bid tick)) as [H1|H1];
    destruct (Z.ltb_spec (ask tick) (low bar - buffer)) as [H2|H2];
    destruct up, down; cbn [andb] in *; try done;
    first [exists (Some LONG); split; [done|]; naive_solver
          |exists (Some SHORT); split; [done|]; naive_solver
          |exists rest; split; [done|]; rewrite HL, HS; naive_solver lia].
Qed.

Lemma makeSqueeze_ok config s :
  makeSqueeze config = Ok s -> nrLookback s <= 1000000000 -> validBars s <= 1000000000 ->
  (nrLookback s = 0 \/ 2 <= nrLookback s) /\ 1 <= validBars s /\ 0 <= bufferPips s /\
  2 <= OHLC_COUNT (trendCfg s) /\
  validBars s + Z.max 1 (nrLookback s - 1) + 1 <= OHLC_COUNT (signalCfg s).
Proof.
  unfold makeSqueeze. destruct (OHLC_VARIABLES config) as [|f [|h rest]]; try done.
  destruct (_ || _); [done|]. destruct (Z.ltb_spec (OHLC_COUNT h) 2); [done|].
  destruct (SQUEEZE_BREAKOUT_VARIABLES _) as [v|]; [|done].
  destruct (Z.ltb_spec (sq_NR_LOOKBACK v) 0), (Z.eqb_spec (sq_NR_LOOKBACK v) 1);
    cbn [orb]; try done.
  destruct (Z.ltb_spec (sq_VALID_BARS v) 1); [done|].
  destruct (Z.ltb_spec (sq_BUFFER_PIPS v) 0); [done|].
  destruct (sq_MAX_TRADE_DURATION_MINUTES v <? 0); [done|].
  destruct (Z.ltb_spec (OHLC_COUNT f)
    ((sq_VALID_BARS v +₃₂ Z.max 1 (sq_NR_LOOKBACK v -₃₂ 1)) +₃₂ 1)) as [?|G]; [done|].
  intros [= <-]. cbn. intros. unwrap_in G. lia.
Qed.

(** The squeeze strategy trades the break of a live contraction in the trend.
    For a strategy its constructor accepts, on full windows of in-range bars: it
    goes long exactly when the newest trend close is above the newest value of
    the half-window EMA and the bid is above the high of some contracted bar
    among the newest VALID_BARS closed ones by more than the buffer; short is the
    mirror image.  Contracted means inside the predecessor (NR_LOOKBACK 0) or
    strictly the narrowest of the last NR_LOOKBACK.  An unbroken newer pattern
    never hides an older one, no index leaves the window and nothing is thrown. *)
Theorem squeeze_decide_exact (config : StrategyConfig) (s : SqueezeBreakoutStrategy)
    (tick : PriceData) (store : BarStore) (signalBars trendBars : list OhlcObject)
    (Hmake : makeSqueeze config = Ok s)
    (Hsignal : warm_tail store (symbol tick) (signalCfg s) = Some signalBars)
    (Htrend : warm_tail store (symbol tick) (trendCfg s) = Some trendBars)
    (Hoks : Forall bar_ok signalBars) (Hokt : Forall bar_ok trendBars)
    (Hnr : nrLookback s <= 1000000000) (Hvalid : validBars s <= 1000000000)
    (Hbuf : bufferPips s <= 1000000) (Hcount : OHLC_COUNT (trendCfg s) <= 8388608) :
  let buffer := bufferPips s * SymbolScale.get (symbol tick) in
  let closed := but_last signalBars in
  let newest := Z.of_nat (length closed) - 1 in
  let candidate k bar := newest - validBars s < k <= newest /\
                         contracted (nrLookback s) closed k bar in
  exists signal c e,
    squeeze_decide s tick store = Ok signal /\
    last (map close trendBars) = Some c /\
    (exists emas, Ema.calculate (map close trendBars) (OHLC_COUNT (trendCfg s) / 2) = Ok emas /\
                  last emas = Some e) /\
    (signal = Some LONG <-> e < c /\
       exists k bar, candidate k bar /\ high bar + buffer < bid tick) /\
    (signal = Some SHORT <-> c < e /\
       exists k bar, candidate k bar /\ ask tick < low bar - buffer).
Proof.
  intros buffer closed newest candidate.
  destruct (makeSqueeze_ok config s Hmake Hnr Hvalid) as (H1 & H2 & H3 & H4 & H5).
  apply warm_tail_length in Hsignal as Ls; [|lia]. apply warm_tail_length in Htrend as Lt; [|lia].
  destruct (trend_reading_spec trendBars) as (c & emas & e & Er & Ec & Ee & El & _); [lia|lia|done|].
  unfold squeeze_decide. rewrite Hsignal, Htrend. unfold squeeze_signal. rewrite Er.
  cbn [result_bind]. fold closed newest.
  assert (Z.of_nat (length closed) = OHLC_COUNT (signalCfg s) - 1) as Lc.
  { unfold closed, but_last. rewrite length_take. lia. }
  assert (exists emas, Ema.calculate (map close trendBars) (OHLC_COUNT (trendCfg s) / 2) = Ok emas /\
                       last emas = Some e) as Hema.
  { exists emas. split; [|done]. rewrite <- Ee. f_equal. rewrite Nat2Z.inj_div, Lt. reflexivity. }
  pose proof (SymbolScale.get_cases (symbol tick)) as Hs.
  assert (0 <= buffer <= 1000000000) as Hb by (unfold buffer; nia).
  rewrite (i32_id (bufferPips s * _)) by (fold buffer; ilia). fold buffer.
  destruct (pattern_scan_spec s (e <? c) (c <? e) buffer tick closed (Z.to_nat (validBars s)) newest)
    as (signal & Esc & HL & HS);
    [rewrite andb_false_iff, !Z.ltb_ge; lia|done|now apply Forall_take|done|lia|lia|].
  rewrite Z2Nat.id in HL, HS by lia. rewrite Z.ltb_lt in HL, HS.
  destruct (negb (e <? c) && negb (c <? e)) eqn:Eflat.
  { exists None, c, e. apply andb_true_iff in Eflat as [E1 E2]. zbool.
    split_and!; [done..|split; [done|lia]|split; [done|lia]]. }
  exists signal, c, e. split_and!; [done|done|done| |].
  - rewrite HL. split; intros (Ht & k & b & Hk); (split; [exact Ht|]); exists k, b; unfold candidate in *; tauto.
  - rewrite HS. split; intros (Ht & k & b & Hk); (split; [exact Ht|]); exists k, b; unfold candidate in *; tauto.
Qed.

(** ** Witness: an inside bar in an uptrend, broken upwards. *)

Definition squeeze_config : StrategyConfig :=
  mkStrategyConfig "u" (mkTradingVariables "SqueezeBreakoutStrategy" 1 2 1)
    [mkOHLCVariables 4 15; mkOHLCVariables 4 60] []
    (mkStrategyVariables None None None None None (Some (mkSqueezeBreakoutVariables 0 2 1 0))
       None None None).

Definition squeeze_strategy : SqueezeBreakoutStrategy :=
  mkSqueeze (mkOHLCVariables 4 15) (mkOHLCVariables 4 60) 0 2 1 0.

Definition squeeze_bar (p half : Z) : OhlcObject := mkOhlcObject 0 p p (p + half) (p - half) true.

Definition squeeze_bars : list OhlcObject :=
  [squeeze_bar 1000 20; squeeze_bar 1000 40; squeeze_bar 1000 10; squeeze_bar 1025 5].

Definition squeeze_trend : list OhlcObject :=
  [squeeze_bar 900 5; squeeze_bar 940 5; squeeze_bar 980 5; squeeze_bar 1025 5].

Definition squeeze_store : BarStore :=
  mkBarStore [mkSeriesSpec 15 4; mkSeriesSpec 60 4]
    {["EURUSD"%string := [squeeze_bars; squeeze_trend]]} [] ∅.

Lemma squeeze_decide_exact_witness :
  squeeze_decide squeeze_strategy (OhlcBuilder.demo_tick 0 1026) squeeze_store = Ok (Some LONG).
Proof.
  destruct (squeeze_decide_exact squeeze_config squeeze_strategy (OhlcBuilder.demo_tick 0 1026)
    squeeze_store squeeze_bars squeeze_trend) as (signal & c & e & -> & Hc & (emas & Ee & El) & HL & _);
    [reflexivity|vm_compute; reflexivity|vm_compute; reflexivity| | |simpl; lia|simpl; lia|simpl; lia|simpl; lia|].
  - unfold squeeze_bars, squeeze_bar. repeat constructor; simpl; lia.
  - unfold squeeze_trend, squeeze_bar. repeat constructor; simpl; lia.
  - f_equal. apply HL. vm_compute in Hc, Ee. injection Hc as <-. injection Ee as <-.
    vm_compute in El. injection El as <-. split; [reflexivity|].
    exists 2, (squeeze_bar 1000 10). split; [split; [simpl; lia|]|vm_compute; reflexivity].
    split; [reflexivity|]. exists (squeeze_bar 1000 40). vm_compute. split_and!; congruence.
Defined.
