(* ===== verification/LiquiditySweep.v ===== *)
(** strategies/liquiditySweepReversal/liquiditySweepReversalStrategy.cppm: fading a
    swing level that was swept and rejected. *)
From S2P Require Import Prelude Models Config Indicators BarStore TradeManager ExitRules Strategy.
From S2P Require OhlcBuilder SymbolScale EntryConditions.

Record LiquiditySweepReversalStrategy : Type := mkLiquiditySweep {
  signalCfg : OHLCVariables;
  pivotBars : Z;
  lookbackBars : Z;
  minSweepPips : Z;
  displacementAtrTenths : Z;
  validBars : Z;
  maxTradeDuration : Z;
}.

Definition kAtrPeriod : Z := 10.

(** The constructor. *)
Definition makeLiquiditySweep (config : StrategyConfig) : result LiquiditySweepReversalStrategy :=
  match OHLC_VARIABLES config with
  | [] => Throw InvalidArgument
  | signal :: _ =>
      if OHLC_MINUTES signal <? 1 then Throw InvalidArgument
      else match LIQUIDITY_SWEEP_REVERSAL_VARIABLES (STRATEGY_VARIABLES config) with
           | None => Throw InvalidArgument
           | Some v =>
               if ls_PIVOT_BARS v <? 1 then Throw InvalidArgument
               else if ls_LOOKBACK_BARS v <? (ls_PIVOT_BARS v +₃₂ 1) then Throw InvalidArgument
               else if ls_MIN_SWEEP_PIPS v <? 0 then Throw InvalidArgument
               else if ls_DISPLACEMENT_ATR_TENTHS v <? 0 then Throw InvalidArgument
               else if (ls_VALID_BARS v <? 1) || (ls_LOOKBACK_BARS v <? ls_VALID_BARS v)
               then Throw InvalidArgument
               else if ls_MAX_TRADE_DURATION_MINUTES v <? 0 then Throw InvalidArgument
               else
                 let minCount :=
                   Z.max ((ls_LOOKBACK_BARS v +₃₂ ls_PIVOT_BARS v) +₃₂ 1)
                         ((ls_VALID_BARS v +₃₂ kAtrPeriod) +₃₂ 1) in
                 if OHLC_COUNT signal <? minCount then Throw InvalidArgument
                 else Ok (mkLiquiditySweep signal (ls_PIVOT_BARS v) (ls_LOOKBACK_BARS v)
                            (ls_MIN_SWEEP_PIPS v) (ls_DISPLACEMENT_ATR_TENTHS v)
                            (ls_VALID_BARS v) (minutes (ls_MAX_TRADE_DURATION_MINUTES v)))
           end
  end.

(** [Setup]. *)
Record Setup : Type := mkSetup {
  rejection : Z;
  level : Z;
  found : bool;
}.

Definition noSetup : Setup := mkSetup 0 0 false.

Definition displacementOk (s : LiquiditySweepReversalStrategy) (closedBars : list OhlcObject)
    (rejection : Z) (sweptHigh : bool) : result bool :=
  if displacementAtrTenths s =? 0 then Ok true
  else
    bar <~ read closedBars rejection;
    let body := if sweptHigh then open bar -₆₄ close bar else close bar -₆₄ open bar in
    if body <=? 0 then Ok false
    else
      atrPoints <~ Atr.calculate (take (Z.to_nat (rejection + 1)) closedBars) kAtrPeriod;
      if atrPoints <=? 0 then Ok false
      else Ok ((displacementAtrTenths s *₆₄ atrPoints) <=? (body *₆₄ 10)).

(** The comparisons of the two mirrored halves of the loop body. *)
Definition isPivot (sweptHigh : bool) (bars : list OhlcObject) (i pivotBars : Z) : result bool :=
  if sweptHigh then SwingPivots.isSwingHighAt bars (Z.to_nat i) pivotBars
  else SwingPivots.isSwingLowAt bars (Z.to_nat i) pivotBars.
Definition level_of (sweptHigh : bool) (bar : OhlcObject) : Z :=
  if sweptHigh then high bar else low bar.
Definition untouched (sweptHigh : bool) (level : Z) (bar : OhlcObject) : bool :=
  if sweptHigh then high bar <=? level else level <=? low bar.
Definition closed_back (sweptHigh : bool) (level : Z) (bar : OhlcObject) : bool :=
  if sweptHigh then close bar <=? level else level <=? close bar.
Definition depth (sweptHigh : bool) (level : Z) (bar : OhlcObject) : Z :=
  if sweptHigh then high bar -₃₂ level else level -₃₂ low bar.
Definition resumed (sweptHigh : bool) (level : Z) (bar : OhlcObject) : bool :=
  if sweptHigh then level <? close bar else close bar <? level.

(** [while (j < n && untouched(bars[j])) ++j], with [n - j] bars to go. *)
Fixpoint first_touch (sweptHigh : bool) (level : Z) (bars : list OhlcObject) (j : Z) (todo : nat)
    : result Z :=
  match todo with
  | O => Ok j
  | S todo' =>
      bar <~ read bars j;
      if untouched sweptHigh level bar then first_touch sweptHigh level bars (j + 1) todo' else Ok j
  end.

(** One half of the loop body: what pivot candidate [i] does to the best setup. *)
Definition consider (s : LiquiditySweepReversalStrategy) (sweepPoints : Z) (sweptHigh : bool)
    (closedBars : list OhlcObject) (i : Z) (best : Setup) : result Setup :=
  let n := Z.of_nat (length closedBars) in
  pivot <~ isPivot sweptHigh closedBars i (pivotBars s);
  if negb pivot then Ok best
  else
    candidate <~ read closedBars i;
    let level := level_of sweptHigh candidate in
    j <~ first_touch sweptHigh level closedBars (i + 1) (Z.to_nat (n - (i + 1)));
    if negb (j <? n) then Ok best
    else
      touch <~ read closedBars j;
      if closed_back sweptHigh level touch && (sweepPoints <=? depth sweptHigh level touch)
         && (n <=? j + validBars s) then
        strong <~ displacementOk s closedBars j sweptHigh;
        if negb strong then Ok best
        else
          invalidated <~ any_bar (resumed sweptHigh level) closedBars (j + 1) (Z.to_nat (n - (j + 1)));
          Ok (if negb invalidated && (negb (found best) || (rejection best <? j))
              then mkSetup j level true else best)
      else Ok best.

(** The pivot scan from [i], [todo] candidates to go. *)
Fixpoint sweep_scan (s : LiquiditySweepReversalStrategy) (sweepPoints : Z)
    (closedBars : list OhlcObject) (i : Z) (todo : nat) (bestShort bestLong : Setup)
    : result (Setup * Setup) :=
  match todo with
  | O => Ok (bestShort, bestLong)
  | S todo' =>
      bestShort' <~ consider s sweepPoints true closedBars i bestShort;
      bestLong' <~ consider s sweepPoints false closedBars i bestLong;
      sweep_scan s sweepPoints closedBars (i + 1) todo' bestShort' bestLong'
  end.

(** The verdict: the newest rejection wins outright, a tie is refused. *)
Definition verdict (tick : PriceData) (bestShort bestLong : Setup) : option Direction :=
  if found bestShort && found bestLong && (rejection bestShort =? rejection bestLong) then None
  else
    let shortWins :=
      found bestShort && (negb (found bestLong) || (rejection bestLong <? rejection bestShort)) in
    if shortWins then if bid tick <? level bestShort then Some SHORT else None
    else if found bestLong && (level bestLong <? ask tick) then Some LONG
    else None.

(** The first candidate; [size_t] arithmetic. *)
Definition scan_start (s : LiquiditySweepReversalStrategy) (n : Z) : Z :=
  Z.max (pivotBars s) ((n - lookbackBars s) mod 2 ^ 64).

Definition sweep_signal (s : LiquiditySweepReversalStrategy) (tick : PriceData)
    (signalBars : list OhlcObject) : result (option Direction) :=
  let closedBars := but_last signalBars in
  let n := Z.of_nat (length closedBars) in
  let sweepPoints := minSweepPips s *₃₂ SymbolScale.get (symbol tick) in
  let scanStart := scan_start s n in
  ' (bestShort, bestLong) <~
    sweep_scan s sweepPoints closedBars scanStart (Z.to_nat (n - pivotBars s - scanStart))
      noSetup noSetup;
  Ok (verdict tick bestShort bestLong).

Definition sweep_decide (s : LiquiditySweepReversalStrategy) (tick : PriceData) (store : BarStore)
    : result (option Direction) :=
  match warm_tail store (symbol tick) (signalCfg s) with
  | None => Ok None
  | Some signalBars => sweep_signal s tick signalBars
  end.

Definition sweep_during (s : LiquiditySweepReversalStrategy) (price : PriceData) (store : BarStore)
    (m : TradeManager) : LiquiditySweepReversalStrategy * TradeManager :=
  (s, (closeIfPastCap price m (maxTradeDuration s)).2).

#[export] Instance LiquiditySweep_IStrategy : IStrategy LiquiditySweepReversalStrategy := {|
  decide s tick store := signal <~ sweep_decide s tick store; Ok (signal, s);
  during := sweep_during;
|}.

#[export] Instance LiquiditySweep_closes_only : ClosesOnly LiquiditySweepReversalStrategy.
Proof. split. intros s tick store m. apply closeIfPastCap_closes_own. Qed.

(** ** Specification *)

(** Strictly more extreme than its neighbours. *)
Definition beats (sweptHigh : bool) (b b' : OhlcObject) : Prop :=
  if sweptHigh then high b' < high b else low b < low b'.
Definition trades_beyond (sweptHigh : bool) (level : Z) (b : OhlcObject) : Prop :=
  if sweptHigh then level < high b else low b < level.
Definition closes_beyond (sweptHigh : bool) (level : Z) (b : OhlcObject) : Prop :=
  if sweptHigh then level < close b else close b < level.
Definition sweep_depth (sweptHigh : bool) (level : Z) (b : OhlcObject) : Z :=
  if sweptHigh then high b - level else level - low b.

(** The displacement gate at [j]: off, or a body against the sweep of at least
    [tenths / 10] times the ATR of the bars up to and including [j]. *)
Definition displaced (tenths : Z) (bars : list OhlcObject) (j : Z) (sweptHigh : bool)
    (b : OhlcObject) : Prop :=
  tenths = 0 \/
  let body := if sweptHigh then open b - close b else close b - open b in
  let atr := EntryConditions.gate_atr (take (Z.to_nat (j + 1)) bars) in
  0 < body /\ 0 < atr /\ tenths * atr <= body * 10.

(** Bar [j] rejects the sweep of the level [l] that pivot [i] left: the first later
    bar to trade beyond the level, deep enough, closed back, fresh, displaced, and
    no bar since has closed beyond. *)
Record rejects (s : LiquiditySweepReversalStrategy) (minDepth : Z) (sweptHigh : bool)
    (bars : list OhlcObject) (i j l : Z) : Prop := {
  rj_pivot : exists b, bars !! Z.to_nat i = Some b /\ l = level_of sweptHigh b /\
    SwingPivots.pivot_at (beats sweptHigh) bars (Z.to_nat i) (Z.to_nat (pivotBars s));
  rj_range : i < j < Z.of_nat (length bars);
  rj_first : forall k b, i < k < j -> bars !! Z.to_nat k = Some b -> ~ trades_beyond sweptHigh l b;
  rj_touch : exists b, bars !! Z.to_nat j = Some b /\
    trades_beyond sweptHigh l b /\ ~ closes_beyond sweptHigh l b /\
    minDepth <= sweep_depth sweptHigh l b /\
    displaced (displacementAtrTenths s) bars j sweptHigh b;
  rj_fresh : Z.of_nat (length bars) - validBars s <= j;
  rj_alive : forall k b, j < k < Z.of_nat (length bars) -> bars !! Z.to_nat k = Some b ->
    ~ closes_beyond sweptHigh l b;
}.

(** Pivots are sought among the lookback's bars that have both wings closed. *)
Definition candidate (s : LiquiditySweepReversalStrategy) (n i : Z) : Prop :=
  Z.max (pivotBars s) (n - lookbackBars s) <= i < n - pivotBars s.

(** * Facts *)

Lemma isPivot_spec sweptHigh bars i w :
  1 <= w -> w <= i -> i + w < Z.of_nat (length bars) ->
  exists r, isPivot sweptHigh bars i w = Ok r /\
    (r = true <-> SwingPivots.pivot_at (beats sweptHigh) bars (Z.to_nat i) (Z.to_nat w)).
Proof.
  intros Hw Hl Hr. unfold isPivot, beats.
  destruct sweptHigh; [apply isSwingHighAt_spec|apply isSwingLowAt_spec]; lia.
Qed.

Lemma untouched_spec sweptHigh level b :
  untouched sweptHigh level b = true <-> ~ trades_beyond sweptHigh level b.
Proof. unfold untouched, trades_beyond. destruct sweptHigh; rewrite Z.leb_le; lia. Qed.

Lemma closed_back_spec sweptHigh level b :
  closed_back sweptHigh level b = true <-> ~ closes_beyond sweptHigh level b.
Proof. unfold closed_back, closes_beyond. destruct sweptHigh; rewrite Z.leb_le; lia. Qed.

Lemma resumed_spec sweptHigh level b :
  resumed sweptHigh level b = true <-> closes_beyond sweptHigh level b.
Proof. unfold resumed, closes_beyond. destruct sweptHigh; rewrite Z.ltb_lt; lia. Qed.

Lemma depth_spec sweptHigh level b :
  price_ok level -> bar_ok b -> depth sweptHigh level b = sweep_depth sweptHigh level b.
Proof.
  unfold depth, sweep_depth, bar_ok, price_ok. intros.
  destruct sweptHigh; apply i32_id; ilia.
Qed.

Lemma level_ok sweptHigh b : bar_ok b -> price_ok (level_of sweptHigh b).
Proof. unfold bar_ok, level_of. destruct sweptHigh; tauto. Qed.

Lemma bar_at bars k b : Forall bar_ok bars -> bars !! k = Some b -> bar_ok b.
Proof. intros H E. rewrite Forall_forall in H. apply H. eauto using list_elem_of_lookup_2. Qed.

Lemma first_touch_spec sweptHigh l bars todo : forall j,
  0 <= j -> j + Z.of_nat todo = Z.of_nat (length bars) ->
  exists t, first_touch sweptHigh l bars j todo = Ok t /\
    j <= t <= Z.of_nat (length bars) /\
    (forall k b, j <= k < t -> bars !! Z.to_nat k = Some b -> ~ trades_beyond sweptHigh l b) /\
    (forall b, bars !! Z.to_nat t = Some b -> trades_beyond sweptHigh l b).
Proof.
  induction todo as [|todo IH]; intros j Hj Hn; cbn [first_touch].
  { exists j. split_and!; [done|lia|lia|intros k b; lia|].
    intros b Hb. apply lookup_lt_Some in Hb. lia. }
  destruct (read_ok bars j) as (b & -> & Eb); [lia|]. cbn [result_bind].
  destruct (untouched sweptHigh l b) eqn:Eu.
  - destruct (IH (j + 1)) as (t & -> & Hr & Hbefore & Hat); [lia|lia|].
    exists t. split_and!; [done|lia|lia| |done]. intros k b' Hk Eb'.
    destruct (Z.eq_dec k j) as [->|]; [|apply (Hbefore k); [lia|done]].
    simplify_eq. now apply untouched_spec.
  - exists j. split_and!; [done|lia|lia|intros k b'; lia|].
    intros b' Eb'. simplify_eq. unfold untouched, trades_beyond in *.
    destruct sweptHigh; apply Z.leb_gt in Eu; lia.
Qed.

Lemma displacementOk_spec s bars j sweptHigh b :
  Forall bar_ok bars -> 0 <= j -> bars !! Z.to_nat j = Some b ->
  0 <= displacementAtrTenths s <= 2147483647 ->
  exists r, displacementOk s bars j sweptHigh = Ok r /\
    (r = true <-> displaced (displacementAtrTenths s) bars j sweptHigh b).
Proof.
  intros Hok Hj Eb Ht. unfold displacementOk, displaced.
  destruct (Z.eqb_spec (displacementAtrTenths s) 0) as [->|Hne]; [exists true; tauto|].
  destruct (read_ok bars j) as (b' & -> & Eb'); [apply lookup_lt_Some in Eb; lia|].
  simplify_eq. cbn [result_bind]. pose proof (bar_at _ _ _ Hok Eb) as Hb.
  unfold bar_ok, price_ok in Hb.
  rewrite !i64_id by ilia.
  set (body := if sweptHigh then open b - close b else close b - open b).
  assert (-8388608 < body < 8388608) by (unfold body; destruct sweptHigh; lia).
  destruct (Z.leb_spec body 0); [exists false; split; [done|]; split; [done|lia]|].
  change kAtrPeriod with EntryConditions.kAtrPeriod.
  destruct (EntryConditions.gate_atr_exact (take (Z.to_nat (j + 1)) bars)) as [-> Hatr].
  { now apply Forall_take. }
  cbn [result_bind].
  destruct (Z.leb_spec (EntryConditions.gate_atr (take (Z.to_nat (j + 1)) bars)) 0);
    [exists false; split; [done|]; split; [done|lia]|].
  eexists. split; [reflexivity|]. rewrite !i64_id by (unfold in_i64; nia).
  rewrite Z.leb_le. lia.
Qed.

(** A touch and its rejection are determined by the pivot. *)
Lemma rejects_fun s d sh bars i j l j' l' :
  0 <= i -> rejects s d sh bars i j l -> rejects s d sh bars i j' l' -> j = j' /\ l = l'.
Proof.
  intros Hi [(b & Eb & -> & _) Hr Hf (t & Et & Ht & _) _ _]
    [(b' & Eb' & -> & _) Hr' Hf' (t' & Et' & Ht' & _) _ _].
  simplify_eq. split; [|done]. destruct (Z.lt_trichotomy j j') as [H|[H|H]]; [|done|].
  - destruct (Hf' j t ltac:(lia) Et Ht).
  - destruct (Hf j' t' ltac:(lia) Et' Ht').
Qed.

(** The confirmation wing never touches the level. *)
Lemma rejects_beyond_wing s d sh bars i j l :
  pivotBars s <= i -> rejects s d sh bars i j l -> i + pivotBars s < j.
Proof.
  intros Hi [(b & Eb & -> & Hp) Hr _ (t & Et & Ht & _) _ _].
  destruct (Z.lt_ge_cases (i + pivotBars s) j); [done|]. exfalso.
  specialize (Hp (Z.to_nat j) b t Eb Et ltac:(lia) ltac:(lia)).
  unfold beats, trades_beyond, level_of in *. destruct sh; lia.
Qed.

(** The early-exit loop over the bars after [j]. *)
Lemma any_later (p : OhlcObject -> bool) (bars : list OhlcObject) (j : Z) :
  0 <= j < Z.of_nat (length bars) ->
  existsb p (take (Z.to_nat (Z.of_nat (length bars) - (j + 1))) (drop (Z.to_nat (j + 1)) bars)) = false <->
  forall k b, j < k < Z.of_nat (length bars) -> bars !! Z.to_nat k = Some b -> p b = false.
Proof.
  intros Hj. rewrite take_ge by (rewrite length_drop; lia). rewrite <- not_true_iff_false, existsb_exists.
  split.
  - intros H k b Hk Eb. apply not_true_iff_false. intros Hp. apply H. exists b. split; [|done].
    apply list_elem_of_In, list_elem_of_lookup. exists (Z.to_nat k - Z.to_nat (j + 1))%nat.
    rewrite lookup_drop. rewrite <- Eb. f_equal. lia.
  - intros H (b & Hb & Hp). apply list_elem_of_In, list_elem_of_lookup in Hb as [k Hk].
    rewrite lookup_drop in Hk. pose proof (lookup_lt_Some _ _ _ Hk).
    rewrite (H (j + 1 + Z.of_nat k) b) in Hp; [done|lia|]. rewrite <- Hk. f_equal. lia.
Qed.

(** What one half of the loop body does to the best setup. *)
Lemma consider_spec s d sh bars i best :
  Forall bar_ok bars -> 1 <= pivotBars s -> pivotBars s <= i ->
  i + pivotBars s < Z.of_nat (length bars) ->
  0 <= displacementAtrTenths s <= 2147483647 ->
  exists best', consider s d sh bars i best = Ok best' /\
    ((exists j l, rejects s d sh bars i j l /\
        best' = if negb (found best) || (rejection best <? j) then mkSetup j l true else best) \/
     ((forall j l, ~ rejects s d sh bars i j l) /\ best' = best)).
Proof.
  intros Hok Hw Hi Hn Ht. unfold consider.
  destruct (isPivot_spec sh bars i (pivotBars s)) as (r & -> & Hr); [lia..|]. cbn [result_bind].
  destruct r; cbn [negb].
  2: { eexists; split; [done|]. right. split; [|done]. intros j l [(b & _ & _ & Hp) _ _ _ _ _].
       apply Hr in Hp. done. }
  destruct (read_ok bars i) as (b & -> & Eb); [lia|]. cbn [result_bind].
  pose proof (level_ok sh b (bar_at _ _ _ Hok Eb)) as Hl. set (l := level_of sh b) in *.
  destruct (first_touch_spec sh l bars (Z.to_nat (Z.of_nat (length bars) - (i + 1))) (i + 1))
    as (j & -> & Hj & Hbefore & Hat); [lia|lia|]. cbn [result_bind].
  assert (forall j' l', rejects s d sh bars i j' l' -> j' = j /\ l' = l /\ j < Z.of_nat (length bars))
    as Honly.
  { intros j' l' [(b' & Eb' & El & _) Hr' Hf' (t' & Et' & Ht' & _) _ _].
    rewrite Eb in Eb'. injection Eb' as <-. fold l in El. subst l'.
    destruct (Z.lt_trichotomy j' j) as [H|[H|H]]; [|subst; split_and!; (done || lia)|].
    - destruct (Hbefore j' t' ltac:(lia) Et' Ht').
    - destruct (read_ok bars j) as (t & _ & Et); [lia|]. destruct (Hf' j t ltac:(lia) Et (Hat t Et)). }
  destruct (Z.ltb_spec j (Z.of_nat (length bars))) as [Hjn|Hjn]; cbn [negb].
  2: { eexists; split; [done|]. right. split; [|done]. intros j' l' H. apply Honly in H. lia. }
  destruct (read_ok bars j) as (t & -> & Et); [lia|]. cbn [result_bind].
  rewrite depth_spec by (done || exact (bar_at _ _ _ Hok Et)).
  destruct (displacementOk_spec s bars j sh t Hok ltac:(lia) Et Ht) as (strong & -> & Hs).
  destruct (closed_back sh l t) eqn:Ec, (Z.leb_spec d (sweep_depth sh l t)),
    (Z.leb_spec (Z.of_nat (length bars)) (j + validBars s)); cbn [andb].
  2-8: eexists; split; [reflexivity|]; right; split; [|done]; intros j' l' H';
    destruct (Honly _ _ H') as (-> & -> & _);
    destruct H' as [_ _ _ (t' & Et' & _ & Hc' & Hd' & _) Hf' _]; simplify_eq;
    (lia || (apply closed_back_spec in Hc'; congruence)).
  cbn [result_bind]. destruct strong; cbn [negb].
  2: { eexists; split; [done|]. right. split; [|done]. intros j' l' H'.
       destruct (Honly _ _ H') as (-> & -> & _).
       destruct H' as [_ _ _ (t' & Et' & _ & _ & _ & Hd') _ _]. simplify_eq. apply Hs in Hd'. done. }
  rewrite any_bar_spec by lia. cbn [result_bind].
  set (later := take _ _).
  assert (existsb (resumed sh l) later = false <->
    forall k b', j < k < Z.of_nat (length bars) -> bars !! Z.to_nat k = Some b' ->
      ~ closes_beyond sh l b') as Halive.
  { unfold later. rewrite (any_later _ bars j) by lia. apply forall_proper. intros k.
    apply forall_proper. intros b'. rewrite <- resumed_spec, <- not_true_iff_false. tauto. }
  destruct (existsb (resumed sh l) later); cbn [negb andb].
  - eexists; split; [reflexivity|]. right. split; [|done]. intros j' l' H'.
    destruct (Honly _ _ H') as (-> & -> & _). destruct H' as [_ _ _ _ _ Ha].
    apply Halive in Ha. done.
  - eexists; split; [reflexivity|]. left. exists j, l. split; [|done].
    split; [exists b; tauto|lia|intros k b' Hk; apply Hbefore; lia| |lia|now apply Halive].
    exists t. split_and!; [done|now apply Hat|now apply closed_back_spec|done|now apply Hs].
Qed.

(** [best] is the newest rejection among the pivots in [[lo, hi)], the oldest of
    its pivots when several share it. *)
Definition best_of (s : LiquiditySweepReversalStrategy) (d : Z) (sh : bool)
    (bars : list OhlcObject) (lo hi : Z) (best : Setup) : Prop :=
  (found best = false /\ forall i j l, lo <= i < hi -> ~ rejects s d sh bars i j l) \/
  (found best = true /\ exists i, lo <= i < hi /\
     rejects s d sh bars i (rejection best) (level best) /\
     forall i' j' l', lo <= i' < hi -> rejects s d sh bars i' j' l' ->
       j' < rejection best \/ (j' = rejection best /\ i <= i')).

Lemma best_of_step s d sh bars lo i best best' :
  0 <= lo <= i -> best_of s d sh bars lo i best ->
  ((exists j l, rejects s d sh bars i j l /\
      best' = if negb (found best) || (rejection best <? j) then mkSetup j l true else best) \/
   ((forall j l, ~ rejects s d sh bars i j l) /\ best' = best)) ->
  best_of s d sh bars lo (i + 1) best'.
Proof.
  intros Hlo Hb [(j & l & Hr & ->)|[Hno ->]].
  - right. destruct Hb as [[Hf Hnone]|(Hf & i0 & Hi0 & Hr0 & Hmax)]; rewrite Hf; cbn [negb orb].
    + split; [done|]. exists i. split_and!; [lia|lia|exact Hr|]. intros i' j' l' Hi' Hr'. cbn.
      destruct (Z.eq_dec i' i) as [->|]; [|destruct (Hnone i' j' l' ltac:(lia) Hr')].
      destruct (rejects_fun _ _ _ _ i _ _ _ _ ltac:(lia) Hr Hr'). lia.
    + destruct (Z.ltb_spec (rejection best) j) as [Hj|Hj].
      * split; [done|]. exists i. split_and!; [lia|lia|exact Hr|]. intros i' j' l' Hi' Hr'. cbn.
        destruct (Z.eq_dec i' i) as [->|].
        -- destruct (rejects_fun _ _ _ _ i _ _ _ _ ltac:(lia) Hr Hr'). lia.
        -- specialize (Hmax i' j' l' ltac:(lia) Hr'). lia.
      * split; [done|]. exists i0. split_and!; [lia|lia|exact Hr0|]. intros i' j' l' Hi' Hr'.
        destruct (Z.eq_dec i' i) as [->|]; [|apply (Hmax i' j' l'); [lia|done]].
        destruct (rejects_fun _ _ _ _ i _ _ _ _ ltac:(lia) Hr Hr'). lia.
  - destruct Hb as [[Hf Hnone]|(Hf & i0 & Hi0 & Hr0 & Hmax)]; [left|right]; (split; [done|]).
    + intros i' j' l' Hi'. destruct (Z.eq_dec i' i) as [->|]; [apply Hno|apply Hnone; lia].
    + exists i0. split_and!; [lia|lia|done|]. intros i' j' l' Hi' Hr'.
      destruct (Z.eq_dec i' i) as [->|]; [destruct (Hno _ _ Hr')|apply (Hmax i' j' l'); [lia|done]].
Qed.

Lemma sweep_scan_spec s d bars lo todo : forall i bestShort bestLong,
  Forall bar_ok bars -> 1 <= pivotBars s -> pivotBars s <= lo -> lo <= i ->
  i + Z.of_nat todo + pivotBars s <= Z.of_nat (length bars) ->
  0 <= displacementAtrTenths s <= 2147483647 ->
  best_of s d true bars lo i bestShort -> best_of s d false bars lo i bestLong ->
  exists bestShort' bestLong',
    sweep_scan s d bars i todo bestShort bestLong = Ok (bestShort', bestLong') /\
    best_of s d true bars lo (i + Z.of_nat todo) bestShort' /\
    best_of s d false bars lo (i + Z.of_nat todo) bestLong'.
Proof.
  induction todo as [|todo IH]; intros i bs bl Hok Hw Hlo Hi Hn Ht Hs Hl; cbn [sweep_scan].
  { exists bs, bl. replace (i + Z.of_nat 0) with i by lia. done. }
  destruct (consider_spec s d true bars i bs) as (bs' & -> & Hbs); [done|lia..|].
  destruct (consider_spec s d false bars i bl) as (bl' & -> & Hbl); [done|lia..|].
  cbn [result_bind]. replace (i + Z.of_nat (S todo)) with (i + 1 + Z.of_nat todo) by lia.
  apply IH; try done; try lia; eapply best_of_step; eauto; lia.
Qed.

Lemma makeLiquiditySweep_ok config s :
  makeLiquiditySweep config = Ok s ->
  pivotBars s <= 1000000000 -> lookbackBars s <= 1000000000 ->
  1 <= pivotBars s /\ pivotBars s + 1 <= lookbackBars s /\ 0 <= minSweepPips s /\
  0 <= displacementAtrTenths s /\ 1 <= validBars s <= lookbackBars s /\
  lookbackBars s + pivotBars s + 1 <= OHLC_COUNT (signalCfg s) /\
  validBars s + 11 <= OHLC_COUNT (signalCfg s).
Proof.
  unfold makeLiquiditySweep. destruct (OHLC_VARIABLES config) as [|c rest]; [done|].
  destruct (OHLC_MINUTES c <? 1); [done|].
  destruct (LIQUIDITY_SWEEP_REVERSAL_VARIABLES _) as [v|]; [|done].
  destruct (Z.ltb_spec (ls_PIVOT_BARS v) 1); [done|].
  destruct (Z.ltb_spec (ls_LOOKBACK_BARS v) (ls_PIVOT_BARS v +₃₂ 1)) as [|G1]; [done|].
  destruct (Z.ltb_spec (ls_MIN_SWEEP_PIPS v) 0); [done|].
  destruct (Z.ltb_spec (ls_DISPLACEMENT_ATR_TENTHS v) 0); [done|].
  destruct (Z.ltb_spec (ls_VALID_BARS v) 1), (Z.ltb_spec (ls_LOOKBACK_BARS v) (ls_VALID_BARS v));
    cbn [orb]; try done.
  destruct (ls_MAX_TRADE_DURATION_MINUTES v <? 0); [done|].
  destruct (Z.ltb_spec (OHLC_COUNT c)
    (Z.max ((ls_LOOKBACK_BARS v +₃₂ ls_PIVOT_BARS v) +₃₂ 1) ((ls_VALID_BARS v +₃₂ kAtrPeriod) +₃₂ 1)))
    as [|G2]; [done|].
  intros [= <-]. cbn. unfold kAtrPeriod in *. intros. unwrap_in G1. unwrap_in G2. lia.
Qed.

(** The maximal rejection is the one the scan kept. *)
Lemma newest_best s d sh bars lo hi best (P Q : Z -> Prop) :
  0 <= lo -> best_of s d sh bars lo hi best ->
  ((exists i j l, (lo <= i < hi /\ rejects s d sh bars i j l) /\
      (forall i' j' l', lo <= i' < hi /\ rejects s d sh bars i' j' l' ->
         j' < j \/ (j' = j /\ i <= i')) /\ Q j /\ P l) <->
   found best = true /\ Q (rejection best) /\ P (level best)).
Proof.
  intros Hlo [[Hf Hno]|(Hf & i0 & Hi0 & Hr0 & Hmax)]; rewrite Hf.
  { split; [|now intros [? _]]. intros (i & j & l & [Hi Hr] & _). destruct (Hno _ _ _ Hi Hr). }
  split.
  - intros (i & j & l & [Hi Hr] & Hm & HQ & HP). split; [done|].
    pose proof (Hmax _ _ _ Hi Hr) as Ha. pose proof (Hm _ _ _ (conj Hi0 Hr0)) as Hb.
    assert (i = i0) as -> by lia.
    destruct (rejects_fun _ _ _ _ i0 _ _ _ _ ltac:(lia) Hr Hr0) as [-> ->]. tauto.
  - intros (_ & HQ & HP). exists i0, (rejection best), (level best). split_and!; try done; try lia.
    intros i' j' l' [Hi' Hr']. eauto.
Qed.

Lemma older_best s d sh bars lo hi best x :
  best_of s d sh bars lo hi best ->
  ((forall i j l, lo <= i < hi /\ rejects s d sh bars i j l -> j < x) <->
   (found best = true -> rejection best < x)).
Proof.
  intros [[Hf Hno]|(Hf & i0 & Hi0 & Hr0 & Hmax)]; rewrite Hf.
  - split; [done|]. intros _ i j l [Hi Hr]. destruct (Hno _ _ _ Hi Hr).
  - split.
    + intros H _. apply (H i0 _ (level best)). done.
    + intros H i j l [Hi Hr]. specialize (H eq_refl). pose proof (Hmax _ _ _ Hi Hr). lia.
Qed.

(** C38: the reversal strategy trades the newest unambiguous rejection.  For a
    strategy its constructor accepts, on a full window of in-range bars: it goes
    short exactly when some swept swing high is rejected at bar [j], no other
    rejection of a high is newer (on one bar the oldest pivot's level counts),
    every rejection of a swept low is strictly older, and the bid is back below
    the level; long is the mirror image with the ask, and one bar that rejects
    both ways is refused.  A rejection always lies beyond its pivot's confirmation
    wing and never meets a cold ATR; no index leaves the window and nothing is
    thrown. *)
Theorem sweep_decide_exact (config : StrategyConfig) (s : LiquiditySweepReversalStrategy)
    (tick : PriceData) (store : BarStore) (signalBars : list OhlcObject)
    (Hmake : makeLiquiditySweep config = Ok s)
    (Hsignal : warm_tail store (symbol tick) (signalCfg s) = Some signalBars)
    (Hok : Forall bar_ok signalBars)
    (Hpivot : pivotBars s <= 1000000000) (Hlook : lookbackBars s <= 1000000000)
    (Htenths : displacementAtrTenths s <= 2147483647) (Hdepth : minSweepPips s <= 1000000)
    (Hcount : OHLC_COUNT (signalCfg s) <= 2147483647) :
  let closed := but_last signalBars in
  let n := Z.of_nat (length closed) in
  let minDepth := minSweepPips s * SymbolScale.get (symbol tick) in
  let rejected sh i j l := candidate s n i /\ rejects s minDepth sh closed i j l in
  let newest sh i j l := rejected sh i j l /\
    (forall i' j' l', rejected sh i' j' l' -> j' < j \/ (j' = j /\ i <= i')) /\
    (forall i' j' l', rejected (negb sh) i' j' l' -> j' < j) in
  exists signal,
    sweep_decide s tick store = Ok signal /\
    (signal = Some SHORT <-> exists i j l, newest true i j l /\ bid tick < l) /\
    (signal = Some LONG <-> exists i j l, newest false i j l /\ l < ask tick) /\
    (forall sh i j l, rejected sh i j l -> i + pivotBars s < j /\ 10 <= j).
Proof.
  intros closed n minDepth rejected newest.
  destruct (makeLiquiditySweep_ok config s Hmake Hpivot Hlook) as (H1 & H2 & H3 & H4 & H5 & H6 & H7).
  apply warm_tail_length in Hsignal as Ls; [|lia].
  assert (n = OHLC_COUNT (signalCfg s) - 1) as En.
  { unfold n, closed, but_last. rewrite length_take. lia. }
  pose proof (SymbolScale.get_cases (symbol tick)) as Hs.
  unfold sweep_decide. rewrite Hsignal. unfold sweep_signal. fold closed n.
  rewrite (i32_id (minSweepPips s * _)) by (unfold in_i32; nia). fold minDepth.
  unfold scan_start. rewrite Z.mod_small by lia.
  set (lo := Z.max (pivotBars s) (n - lookbackBars s)).
  destruct (sweep_scan_spec s minDepth closed lo (Z.to_nat (n - pivotBars s - lo)) lo noSetup noSetup)
    as (bs & bl & -> & Hbs & Hbl);
    [now apply Forall_take|lia|lia|lia|fold n; lia|lia|left; split; [done|lia]|left; split; [done|lia]|].
  cbn [result_bind]. replace (lo + Z.of_nat (Z.to_nat (n - pivotBars s - lo)))
    with (n - pivotBars s) in Hbs, Hbl by lia.
  exists (verdict tick bs bl). split; [done|].
  assert (forall (sh : bool) (P : Z -> Prop),
    let best := if sh then bs else bl in let other := if sh then bl else bs in
    (exists i j l, newest sh i j l /\ P l) <->
    found best = true /\ (found other = true -> rejection other < rejection best) /\
      P (level best)) as Hnew.
  { intros sh P best other. assert (0 <= lo) as Hlo by lia.
    assert (best_of s minDepth sh closed lo (n - pivotBars s) best /\
            best_of s minDepth (negb sh) closed lo (n - pivotBars s) other) as [Hb Ho]
      by (destruct sh; done).
    rewrite <- (older_best _ _ _ _ _ _ _ (rejection best) Ho).
    rewrite <- (newest_best _ _ _ _ _ _ _ P (fun j => forall i' j' l',
      lo <= i' < n - pivotBars s /\ rejects s minDepth (negb sh) closed i' j' l' -> j' < j)
      Hlo Hb).
    do 3 (apply exist_proper; intros ?). unfold newest, rejected, candidate. fold lo. tauto. }
  rewrite (Hnew true (fun l => bid tick < l)), (Hnew false (fun l => l < ask tick)). clear Hnew.
  split_and!.
  3: { intros sh i j l [Hc Hr]. unfold candidate in Hc. split.
       - apply (rejects_beyond_wing s minDepth sh closed i j l); [lia|done].
       - pose proof (rj_fresh _ _ _ _ _ _ _ Hr) as Hf. fold n in Hf. lia. }
  all: unfold verdict.
  all: destruct (found bs), (found bl), (Z.eqb_spec (rejection bs) (rejection bl)),
    (Z.ltb_spec (rejection bl) (rejection bs)), (Z.ltb_spec (bid tick) (level bs)),
    (Z.ltb_spec (level bl) (ask tick)); cbn [andb orb negb]; try (exfalso; lia).
  all: split; [intros E; try discriminate E; split_and!; (done || lia)|].
  all: intros (E1 & E2 & E3); (done || lia).
Qed.

(** ** Witness: a swept and rejected high, with displacement. *)

Definition sweep_config : StrategyConfig :=
  mkStrategyConfig "u" (mkTradingVariables "LiquiditySweepReversalStrategy" 1 2 1)
    [mkOHLCVariables 12 15] []
    (mkStrategyVariables None None None None None None None
       (Some (mkLiquiditySweepReversalVariables 1 3 1 10 1 0)) None).

Definition sweep_strategy : LiquiditySweepReversalStrategy :=
  mkLiquiditySweep (mkOHLCVariables 12 15) 1 3 1 10 1 0.

Definition quiet_bar : OhlcObject := mkOhlcObject 0 1000 1000 1010 990 true.

Definition sweep_bars : list OhlcObject :=
  replicate 8 quiet_bar ++
  [mkOhlcObject 0 1000 1000 1050 990 true; quiet_bar; mkOhlcObject 0 1040 1000 1070 995 true;
   mkOhlcObject 0 1000 1000 1000 1000 false].

Definition sweep_store : BarStore :=
  mkBarStore [mkSeriesSpec 15 12] {["EURUSD"%string := [sweep_bars]]} [] ∅.

Lemma sweep_decide_exact_witness :
  sweep_decide sweep_strategy (OhlcBuilder.demo_tick 0 1001) sweep_store = Ok (Some SHORT) /\
  exists i j l, candidate sweep_strategy 11 i /\
    rejects sweep_strategy 10 true (but_last sweep_bars) i j l /\ 1000 < l.
Proof.
  destruct (sweep_decide_exact sweep_config sweep_strategy (OhlcBuilder.demo_tick 0 1001)
    sweep_store sweep_bars) as (signal & E & [HS _] & _);
    [reflexivity|vm_compute; reflexivity| |simpl; lia|simpl; lia|simpl; lia|simpl; lia|simpl; lia|].
  { unfold sweep_bars, quiet_bar. cbn. repeat constructor; simpl; lia. }
  assert (sweep_decide sweep_strategy (OhlcBuilder.demo_tick 0 1001) sweep_store = Ok (Some SHORT))
    as Ev by (vm_compute; reflexivity).
  split; [exact Ev|]. rewrite Ev in E. injection E as <-.
  destruct (HS eq_refl) as (i & j & l & ([Hc Hr] & _) & Hl). exists i, j, l. split_and!; assumption.
Defined.
