(* ===== verification/RangeVelocity.v ===== *)
(** strategies/rangeVelocity/rangeVelocityStrategy.cppm: momentum read from the time
    range bars take to form. *)
From S2P Require Import Prelude Models Config BarStore TradeManager ExitRules Strategy.
From S2P Require OhlcBuilder RangeBar Trade.

(** [barDirection]. *)
Definition barDirection (bar : OhlcObject) : Z :=
  (if open bar <? close bar then 1 else 0) - (if close bar <? open bar then 1 else 0).

Record RangeVelocityStrategy : Type := mkRangeVelocity {
  spec_ : RangeBar.RangeBarSpec;
  runBars : Z;
  speedLookbackBars : Z;
  speedRatioPercent : Z;
  exitRunBars : Z;
  maxTradeDuration : Z;
}.

(** The constructor. *)
Definition makeRangeVelocity (config : StrategyConfig) : result RangeVelocityStrategy :=
  match RANGE_VARIABLES config with
  | [] => Throw InvalidArgument
  | range :: _ =>
      if (RANGE_ATR_TICK_WINDOW range <? 1) || (RANGE_ATR_PERCENT range <? 1)
         || (RANGE_COUNT range <? 1) then Throw InvalidArgument
      else match RANGE_VELOCITY_VARIABLES (STRATEGY_VARIABLES config) with
           | None => Throw InvalidArgument
           | Some rv =>
               if rv_RUN_BARS rv <? 1 then Throw InvalidArgument
               else if rv_SPEED_LOOKBACK_BARS rv <? 1 then Throw InvalidArgument
               else if rv_SPEED_RATIO_PERCENT rv <? 1 then Throw InvalidArgument
               else if rv_EXIT_RUN_BARS rv <? 1 then Throw InvalidArgument
               else if rv_MAX_TRADE_DURATION_MINUTES rv <? 0 then Throw InvalidArgument
               else
                 let required := Z.max (rv_RUN_BARS rv +₃₂ rv_SPEED_LOOKBACK_BARS rv)
                                       (rv_EXIT_RUN_BARS rv) in
                 if RANGE_COUNT range <? required then Throw InvalidArgument
                 else Ok (mkRangeVelocity
                        (RangeBar.mkRangeBarSpec (RANGE_ATR_TICK_WINDOW range)
                           (RANGE_ATR_PERCENT range) (RANGE_COUNT range))
                        (rv_RUN_BARS rv) (rv_SPEED_LOOKBACK_BARS rv) (rv_SPEED_RATIO_PERCENT rv)
                        (rv_EXIT_RUN_BARS rv) (minutes (rv_MAX_TRADE_DURATION_MINUTES rv)))
           end
  end.

(** [microsOf(bars[i + 1].date) - microsOf(bars[i].date)] over a span. *)
Fixpoint open_to_open (bars : list OhlcObject) : list Z :=
  match bars with
  | b :: ((b' :: _) as rest) => (date b' -₆₄ date b) :: open_to_open rest
  | _ => []
  end.

(** [nth_element] at position [m / 2]: the element a full sort would put there. *)
Definition upper_median (durations : list Z) : option Z :=
  merge_sort Z.le durations !! (length durations / 2)%nat.

(** The just-closed series, or nothing: the fire-once gate of both hooks. *)
Definition just_closed (s : RangeVelocityStrategy) (symbol : string) (store : BarStore)
    : option (list OhlcObject * OhlcObject) :=
  match findRange store symbol (spec_ s) with
  | None => None
  | Some series =>
      match last series with
      | None => None
      | Some back => if complete back then Some (series, back) else None
      end
  end.

Definition velocity_decide (s : RangeVelocityStrategy) (tick : PriceData) (store : BarStore)
    : option Direction :=
  match just_closed s (symbol tick) store with
  | None => None
  | Some (bars, back) =>
      let k := Z.to_nat (runBars s) in
      let m := Z.to_nat (speedLookbackBars s) in
      if (length bars <? k + m)%nat then None
      else
        let dir := barDirection back in
        if dir =? 0 then None
        else if negb (forallb (fun bar => barDirection bar =? dir) (but_last (last_n k bars))) then None
        else
          match upper_median (open_to_open (take (m + 1) (last_n (k + m) bars))) with
          | None => None
          | Some median =>
              if median <=? 0 then None
              else
                let allowance := median *₆₄ speedRatioPercent s in
                if negb (forallb (fun duration => (duration *₆₄ 100) <=? allowance)
                           (open_to_open (last_n k bars))) then None
                else
                  let newestDuration := timestamp tick -₆₄ date back in
                  if allowance <? (newestDuration *₆₄ 100) then None
                  else Some (if 0 <? dir then LONG else SHORT)
          end
  end.

Definition velocity_during (s : RangeVelocityStrategy) (price : PriceData) (store : BarStore)
    (m : TradeManager) : RangeVelocityStrategy * TradeManager :=
  let '(closed, m) := closeIfPastCap price m (maxTradeDuration s) in
  if (closed : bool) then (s, m)
  else match findActiveTrade m (symbol price) with
       | None => (s, m)
       | Some trade =>
           let exitPrice := match Trade.direction trade with
                            | LONG => bid price | SHORT => ask price end in
           match just_closed s (symbol price) store with
           | None => (s, m)
           | Some (series, _) =>
               let e := Z.to_nat (exitRunBars s) in
               if (length series <? e)%nat then (s, m)
               else
                 let against := match Trade.direction trade with LONG => -1 | SHORT => 1 end in
                 if forallb (fun bar => barDirection bar =? against) (last_n e series)
                 then (s, (closeTrade m (symbol price) exitPrice price false).2)
                 else (s, m)
           end
       end.

#[export] Instance RangeVelocity_IStrategy : IStrategy RangeVelocityStrategy := {|
  decide s tick store := Ok (velocity_decide s tick store, s);
  during := velocity_during;
|}.

Lemma closeIfPastCap_false price m cap m' :
  closeIfPastCap price m cap = (false, m') -> m' = m.
Proof.
  unfold closeIfPastCap. destruct (cap <=? 0); [now intros [= <-]|].
  destruct (findActiveTrade m (symbol price)) as [t|]; [|now intros [= <-]].
  destruct (_ <=? cap); [now intros [= <-]|done].
Qed.

#[export] Instance RangeVelocity_closes_only : ClosesOnly RangeVelocityStrategy.
Proof.
  split. intros s price store m. cbn [during RangeVelocity_IStrategy]. unfold velocity_during.
  destruct (closeIfPastCap price m (maxTradeDuration s)) as [[] m'] eqn:E.
  { pose proof (closeIfPastCap_closes_own price m (maxTradeDuration s)) as H. now rewrite E in H. }
  apply closeIfPastCap_false in E as ->.
  destruct (findActiveTrade m (symbol price)) as [t|] eqn:Et; [|now left].
  destruct (just_closed s (symbol price) store) as [[series back]|]; [|now left].
  destruct (_ <? _)%nat; [now left|]. destruct (forallb _ _); [|now left].
  right. exists t. split; [done|]. unfold exit_side. now destruct (Trade.direction t).
Qed.

(** ** Specification *)

(** The bar closed in direction [d]. *)
Definition points (d : Direction) (bar : OhlcObject) : Prop :=
  match d with LONG => open bar < close bar | SHORT => close bar < open bar end.

Definition opposite (d : Direction) : Direction :=
  match d with LONG => SHORT | SHORT => LONG end.

(** Open-to-open durations, as differences of times. *)
Fixpoint gaps (bars : list OhlcObject) : list Z :=
  match bars with
  | b :: ((b' :: _) as rest) => (date b' - date b) :: gaps rest
  | _ => []
  end.

(** The upper median by rank: at most half of the durations are below it, more
    than half are at most it. *)
Definition is_upper_median (ds : list Z) (x : Z) : Prop :=
  x ∈ ds /\
  (length (filter (fun d => (d < x)%Z) ds) <= length ds / 2 <
   length (filter (fun d => (d <= x)%Z) ds))%nat.

(** Instants from the epoch to the year 2096. *)
Definition time_ok (t : Z) : Prop := 0 <= t < 4000000000000000.

(** * Facts *)

Lemma barDirection_points bar :
  (barDirection bar = 1 <-> points LONG bar) /\ (barDirection bar = -1 <-> points SHORT bar).
Proof.
  unfold barDirection, points.
  destruct (Z.ltb_spec (open bar) (close bar)), (Z.ltb_spec (close bar) (open bar)); lia.
Qed.

Lemma barDirection_cases bar :
  barDirection bar = 0 \/ exists d, points d bar /\
    barDirection bar = match d with LONG => 1 | SHORT => -1 end.
Proof.
  unfold barDirection, points.
  destruct (Z.ltb_spec (open bar) (close bar)), (Z.ltb_spec (close bar) (open bar)).
  - lia.
  - right. exists LONG. lia.
  - right. exists SHORT. lia.
  - left. lia.
Qed.

Lemma points_opposite d bar : points d bar -> ~ points (opposite d) bar.
Proof. destruct d; cbn; lia. Qed.

Lemma forallb_points bars d :
  forallb (fun bar => barDirection bar =? match d with LONG => 1 | SHORT => -1 end) bars = true <->
  Forall (points d) bars.
Proof.
  rewrite forallb_forall, Forall_forall. setoid_rewrite list_elem_of_In.
  split; intros H b Hb; specialize (H b Hb); destruct (barDirection_points b) as [HL HS];
    destruct d; rewrite ?Z.eqb_eq in *; tauto.
Qed.

Lemma open_to_open_gaps bars : Forall (fun b => time_ok (date b)) bars -> open_to_open bars = gaps bars.
Proof.
  unfold time_ok. induction bars as [|b [|b' bars] IH]; intros H; [done|done|].
  inversion H as [|? ? Hb H']; subst. inversion H' as [|? ? Hb' _]; subst.
  cbn [open_to_open gaps]. rewrite i64_id by ilia. f_equal. now apply IH.
Qed.

Lemma gaps_bound bars :
  Forall (fun b => time_ok (date b)) bars ->
  Forall (fun g => -4000000000000000 < g < 4000000000000000) (gaps bars).
Proof.
  unfold time_ok. induction bars as [|b [|b' bars] IH]; intros H; [constructor|constructor|].
  inversion H as [|? ? Hb H']; subst. inversion H' as [|? ? Hb' _]; subst.
  cbn [gaps]. constructor; [lia|now apply IH].
Qed.

Lemma gaps_length bars : length (gaps bars) = (length bars - 1)%nat.
Proof.
  induction bars as [|b [|b' bars] IH]; [done|done|]. cbn [gaps length] in *. lia.
Qed.

Lemma filter_length_perm (P : Z -> Prop) `{forall x, Decision (P x)} l l' :
  l ≡ₚ l' -> length (filter P l) = length (filter P l').
Proof. intros H'. now rewrite H'. Qed.

Lemma upper_median_spec ds :
  ds <> [] -> exists x, upper_median ds = Some x /\ is_upper_median ds x.
Proof.
  intros Hne. unfold upper_median, is_upper_median.
  set (l := merge_sort Z.le ds). set (h := (length ds / 2)%nat).
  assert (l ≡ₚ ds) as Hp by apply merge_sort_Permutation.
  assert (StronglySorted Z.le l) as Hsorted.
  { apply StronglySorted_merge_sort; [intros ???; lia|intros ??; lia]. }
  assert (length l = length ds) as Hl by now rewrite Hp.
  assert (h < length l)%nat as Hh.
  { rewrite Hl. unfold h. apply Nat.div_lt; [|lia]. destruct ds; [done|simpl; lia]. }
  destruct (lookup_lt_is_Some_2 l h Hh) as [x Hx]. exists x. split; [done|].
  split; [rewrite <- Hp; eauto using list_elem_of_lookup_2|].
  rewrite <- !(filter_length_perm _ _ _ Hp). rewrite <- (take_drop_middle l h x Hx) in Hsorted.
  rewrite <- (take_drop_middle l h x Hx). rewrite !filter_app, !length_app.
  assert (Forall (fun y => y <= x) (take h l) /\ Forall (fun y => x <= y) (drop (S h) l)) as [Hlo Hhi].
  { clear -Hsorted. induction (take h l) as [|a t IH]; cbn in *.
    - apply StronglySorted_inv in Hsorted as [_ H]. split; [constructor|exact H].
    - apply StronglySorted_inv in Hsorted as [Hs H]. destruct (IH Hs) as [H1 H2]. split; [|done].
      constructor; [|done]. rewrite Forall_forall in H. apply H. set_solver. }
  split.
  - assert (filter (fun d => d < x) (x :: drop (S h) l) = []) as ->.
    { assert (Forall (fun y => x <= y) (x :: drop (S h) l)) as H by (constructor; [lia|done]).
      clear -H. induction H as [|y t Hy _ IH]; [done|].
      now rewrite filter_cons, decide_False by lia. }
    pose proof (length_filter (fun d => d < x) (take h l)) as Hf. rewrite length_take in Hf.
    simpl. lia.
  - assert (filter (fun d => d <= x) (take h l) = take h l) as ->.
    { clear -Hlo. induction Hlo as [|y t Hy _ IH]; [done|]. rewrite filter_cons, decide_True by done.
      now rewrite IH. }
    rewrite length_take, filter_cons, decide_True by lia. simpl. lia.
Qed.

Lemma is_upper_median_inj ds x y : is_upper_median ds x -> is_upper_median ds y -> x = y.
Proof.
  assert (forall x y, is_upper_median ds x -> is_upper_median ds y -> ~ x < y) as H.
  { intros a b [_ Ha] [_ Hb] Hab.
    assert (length (filter (fun d => (d <= a)%Z) ds) <= length (filter (fun d => (d < b)%Z) ds))%nat.
    { clear -Hab. induction ds as [|d ds IH]; [done|]. rewrite !filter_cons.
      destruct (base.decide (d <= a)), (base.decide (d < b)); simpl; lia. }
    lia. }
  intros Hx Hy. pose proof (H x y Hx Hy). pose proof (H y x Hy Hx). lia.
Qed.

Lemma just_closed_spec s sym store bars back :
  just_closed s sym store = Some (bars, back) <->
  findRange store sym (spec_ s) = Some bars /\ last bars = Some back /\ complete back = true.
Proof.
  unfold just_closed. destruct (findRange store sym (spec_ s)) as [series|].
  2: { split; [done|]. now intros [? _]. }
  destruct (last series) as [b|] eqn:El.
  2: { split; [done|]. intros (E & E' & _). injection E as <-. congruence. }
  destruct (complete b) eqn:Ec; split.
  - intros E. injection E as <- <-. done.
  - intros (E & E' & E''). injection E as <-. congruence.
  - done.
  - intros (E & E' & E''). injection E as <-. congruence.
Qed.

Lemma makeRangeVelocity_ok config s :
  makeRangeVelocity config = Ok s ->
  1 <= runBars s /\ 1 <= speedLookbackBars s /\ 1 <= speedRatioPercent s /\ 1 <= exitRunBars s /\
  0 <= maxTradeDuration s.
Proof.
  unfold makeRangeVelocity. destruct (RANGE_VARIABLES config) as [|r rest]; [done|].
  destruct (_ || _); [done|]. destruct (RANGE_VELOCITY_VARIABLES _) as [v|]; [|done].
  destruct (Z.ltb_spec (rv_RUN_BARS v) 1); [done|].
  destruct (Z.ltb_spec (rv_SPEED_LOOKBACK_BARS v) 1); [done|].
  destruct (Z.ltb_spec (rv_SPEED_RATIO_PERCENT v) 1); [done|].
  destruct (Z.ltb_spec (rv_EXIT_RUN_BARS v) 1); [done|].
  destruct (Z.ltb_spec (rv_MAX_TRADE_DURATION_MINUTES v) 0); [done|].
  destruct (_ <? _); [done|]. intros [= <-]. cbn. unfold minutes. lia.
Qed.

(** The last [k] bars end with the newest one. *)
Lemma last_n_back (k : nat) (bars : list OhlcObject) (back : OhlcObject) :
  (1 <= k)%nat -> last bars = Some back ->
  last_n k bars = but_last (last_n k bars) ++ [back].
Proof.
  intros Hk Hl. destruct (snoc_cases (last_n k bars)) as [E|(l & x & E)].
  - apply (f_equal length) in E. rewrite last_n_length in E.
    destruct bars; [done|simpl in E; lia].
  - assert (last (last_n k bars) = Some back) as Hb by (rewrite last_last_n by lia; done).
    rewrite E in Hb |- *. rewrite last_snoc in Hb. injection Hb as ->. now rewrite but_last_snoc.
Qed.

(** The run points one way exactly when its newest bar does and the others agree. *)
Lemma run_direction (k : nat) (bars : list OhlcObject) (back : OhlcObject) d :
  (1 <= k)%nat -> last bars = Some back ->
  Forall (points d) (last_n k bars) <-> points d back /\ Forall (points d) (but_last (last_n k bars)).
Proof.
  intros Hk Hl. rewrite (last_n_back k bars back Hk Hl) at 1. rewrite Forall_app, Forall_singleton.
  tauto.
Qed.

Lemma forallb_speed ds allowance :
  Forall (fun g => -4000000000000000 < g < 4000000000000000) ds ->
  forallb (fun duration => (duration *₆₄ 100) <=? allowance) ds = true <->
  Forall (fun g => g * 100 <= allowance) ds.
Proof.
  induction 1 as [|g ds Hg _ IH]; [split; [constructor|done]|]. cbn [forallb].
  rewrite andb_true_iff, IH, Forall_cons, i64_id by ilia. now rewrite Z.leb_le.
Qed.

(** The whole entry condition on a just-closed series. *)
Definition fast_run (s : RangeVelocityStrategy) (now : Z) (d : Direction)
    (bars : list OhlcObject) (back : OhlcObject) (median : Z) : Prop :=
  let k := Z.to_nat (runBars s) in
  let m := Z.to_nat (speedLookbackBars s) in
  (k + m <= length bars)%nat /\
  Forall (points d) (last_n k bars) /\
  is_upper_median (gaps (take (m + 1) (last_n (k + m) bars))) median /\ 0 < median /\
  Forall (fun g => g * 100 <= median * speedRatioPercent s) (gaps (last_n k bars)) /\
  (now - date back) * 100 <= median * speedRatioPercent s.

Lemma velocity_decide_closed s tick store bars back d :
  1 <= runBars s -> 1 <= speedLookbackBars s -> 1 <= speedRatioPercent s <= 2000 ->
  time_ok (timestamp tick) -> Forall (fun b => time_ok (date b)) bars ->
  just_closed s (symbol tick) store = Some (bars, back) ->
  velocity_decide s tick store = Some d <-> exists median, fast_run s (timestamp tick) d bars back median.
Proof.
  intros Hk Hm Hr Hts Hok Hj. unfold velocity_decide. rewrite Hj.
  apply just_closed_spec in Hj as (_ & Hl & _). unfold fast_run.
  set (k := Z.to_nat (runBars s)). set (m := Z.to_nat (speedLookbackBars s)).
  assert (1 <= k)%nat as Hk' by (unfold k; lia). assert (1 <= m)%nat as Hm' by (unfold m; lia).
  destruct (Nat.ltb_spec (length bars) (k + m)) as [Hn|Hn].
  { split; [done|]. intros (? & ? & _). lia. }
  assert (forall d', Forall (points d') (last_n k bars) <->
    points d' back /\ Forall (points d') (but_last (last_n k bars))) as Hrun
    by (intros; now apply run_direction).
  destruct (barDirection_cases back) as [E|(d' & Hd' & E)].
  { rewrite E. cbn. split; [done|]. intros (? & _ & Hp & _). apply Hrun in Hp as [Hp _].
    destruct (barDirection_points back) as [HL HS]. destruct d; [apply HL in Hp|apply HS in Hp]; lia. }
  rewrite E. replace ((match d' with LONG => 1 | SHORT => -1 end) =? 0) with false by now destruct d'.
  replace (if 0 <? match d' with LONG => 1 | SHORT => -1 end then LONG else SHORT) with d'
    by now destruct d'.
  assert (forall x, Some d' = Some d /\ x <-> d' = d /\ x) as Hsome
    by (intros; split; intros [? ?]; split; congruence).
  destruct (forallb _ (but_last _)) eqn:Edir; cbn [negb].
  2: { split; [done|]. intros (? & _ & Hp & _). apply Hrun in Hp as [Hp Hq].
       assert (d' = d) as -> by (destruct d', d; cbn in *; (done || lia)).
       apply forallb_points in Hq. congruence. }
  apply forallb_points in Edir.
  rewrite !open_to_open_gaps by (try apply Forall_take; now apply Forall_drop).
  set (base := gaps (take (m + 1) (last_n (k + m) bars))).
  assert (Forall (fun g => -4000000000000000 < g < 4000000000000000) base) as Hbase.
  { apply gaps_bound, Forall_take. now apply Forall_drop. }
  destruct (upper_median_spec base) as (median & -> & Hmed).
  { intros Eb. apply (f_equal length) in Eb. unfold base in Eb.
    rewrite gaps_length, length_take, last_n_length in Eb. simpl in Eb. lia. }
  assert (-4000000000000000 < median < 4000000000000000) as Hmb.
  { rewrite Forall_forall in Hbase. apply Hbase, Hmed. }
  destruct (Z.leb_spec median 0) as [Hpos|Hpos].
  { split; [done|]. intros (x & _ & _ & Hx & Hx0 & _).
    rewrite (is_upper_median_inj _ _ _ Hx Hmed) in Hx0. lia. }
  rewrite (i64_id (median * _)) by (unfold in_i64; nia).
  assert (Forall (fun g => -4000000000000000 < g < 4000000000000000) (gaps (last_n k bars))) as Hg
    by now apply gaps_bound, Forall_drop.
  destruct (forallb _ (gaps _)) eqn:Espeed; cbn [negb].
  2: { split; [done|]. intros (x & _ & _ & Hx & _ & Hs & _).
       rewrite (is_upper_median_inj _ _ _ Hx Hmed) in Hs.
       apply (forallb_speed _ _ Hg) in Hs. congruence. }
  apply (forallb_speed _ _ Hg) in Espeed.
  assert (time_ok (date back)) as Hb.
  { rewrite Forall_forall in Hok. apply (Hok back). now apply last_Some_elem_of. }
  unfold time_ok in *. rewrite (i64_id (timestamp tick - date back)), i64_id by (unfold in_i64; lia).
  destruct (Z.ltb_spec (median * speedRatioPercent s) ((timestamp tick - date back) * 100)).
  { split; [done|]. intros (x & _ & _ & Hx & _ & _ & Hs).
    rewrite (is_upper_median_inj _ _ _ Hx Hmed) in Hs. lia. }
  split.
  - intros [= <-]. exists median. split_and!; try done. now apply Hrun.
  - intros (x & _ & Hp & _). apply Hrun in Hp as [Hp _].
    destruct d', d; cbn in *; (done || lia).
Qed.

(** A signal agrees with the bar that has just closed. *)
Lemma velocity_decide_newest s tick store d :
  velocity_decide s tick store = Some d ->
  exists bars back, just_closed s (symbol tick) store = Some (bars, back) /\ points d back.
Proof.
  unfold velocity_decide. destruct (just_closed s (symbol tick) store) as [[bars back]|]; [|done].
  intros H. exists bars, back. split; [done|]. destruct (_ <? _)%nat; [done|].
  destruct (barDirection_cases back) as [E|(d' & Hd' & E)]; rewrite E in H; [done|].
  destruct (_ =? 0); [done|]. destruct (negb _); [done|]. destruct (upper_median _); [|done].
  destruct (_ <=? 0); [done|]. destruct (negb _); [done|]. destruct (_ <? _ *₆₄ 100); [done|].
  injection H as <-. now destruct d'.
Qed.

Lemma past_cap_spec tick m cap t :
  findActiveTrade m (symbol tick) = Some t ->
  closeIfPastCap tick m cap =
    if base.decide (0 < cap < timestamp tick - Trade.openTime t)
    then (true, (closeTrade m (symbol tick) (exit_side (Trade.direction t) tick) tick false).2)
    else (false, m).
Proof.
  intros E. unfold closeIfPastCap. rewrite E.
  destruct (Z.leb_spec cap 0), (Z.leb_spec (timestamp tick - Trade.openTime t) cap),
    (base.decide (0 < cap < timestamp tick - Trade.openTime t)); (done || lia).
Qed.

(** The exit on a run against the open trade. *)
Definition run_against (s : RangeVelocityStrategy) (tick : PriceData) (store : BarStore)
    (t : Trade.Trade) : Prop :=
  exists bars back,
    findRange store (symbol tick) (spec_ s) = Some bars /\
    last bars = Some back /\ complete back = true /\ exitRunBars s <= Z.of_nat (length bars) /\
    Forall (points (opposite (Trade.direction t))) (last_n (Z.to_nat (exitRunBars s)) bars).

Lemma velocity_during_trade s tick store m t :
  1 <= exitRunBars s -> findActiveTrade m (symbol tick) = Some t ->
  let m' := (velocity_during s tick store m).2 in
  (0 < maxTradeDuration s < timestamp tick - Trade.openTime t \/ run_against s tick store t ->
     m' = (closeTrade m (symbol tick) (exit_side (Trade.direction t) tick) tick false).2) /\
  (~ (0 < maxTradeDuration s < timestamp tick - Trade.openTime t) /\ ~ run_against s tick store t ->
     m' = m).
Proof.
  intros He Et. unfold velocity_during. rewrite (past_cap_spec _ _ _ _ Et).
  destruct (base.decide _) as [Hcap|Hcap]; [split; [done|tauto]|]. rewrite Et.
  assert (run_against s tick store t <-> exists bars back,
    just_closed s (symbol tick) store = Some (bars, back) /\
    (Z.to_nat (exitRunBars s) <= length bars)%nat /\
    Forall (points (opposite (Trade.direction t))) (last_n (Z.to_nat (exitRunBars s)) bars)) as ->.
  { unfold run_against. setoid_rewrite just_closed_spec. split.
    - intros (bars & back & H1 & H2 & H3 & H4 & H5). exists bars, back. split_and!; (done || lia).
    - intros (bars & back & (H1 & H2 & H3) & H4 & H5). exists bars, back. split_and!; (done || lia). }
  destruct (just_closed s (symbol tick) store) as [[bars back]|].
  2: { split; [|done]. intros [?|(? & ? & ? & _)]; done. }
  assert (forall P : list OhlcObject -> Prop, (exists bars' back' : _,
    Some (bars, back) = Some (bars', back') /\ P bars') <-> P bars) as Hex.
  { intros P. split; [now intros (? & ? & [= <- <-] & H)|]. eauto. }
  rewrite (Hex (fun bars => (Z.to_nat (exitRunBars s) <= length bars)%nat /\
    Forall (points (opposite (Trade.direction t))) (last_n (Z.to_nat (exitRunBars s)) bars))).
  destruct (Nat.ltb_spec (length bars) (Z.to_nat (exitRunBars s))) as [Hn|Hn].
  { split; [|done]. intros [?|[? _]]; (tauto || lia). }
  replace (match Trade.direction t with LONG => -1 | SHORT => 1 end)
    with (match opposite (Trade.direction t) with LONG => 1 | SHORT => -1 end)
    by now destruct (Trade.direction t).
  destruct (forallb _ _) eqn:Ef; cbn [snd].
  - apply forallb_points in Ef. split; [intros _; reflexivity|tauto].
  - split; [|done]. intros [?|[_ H]]; [tauto|]. apply forallb_points in H. congruence.
Qed.

(** The velocity strategy fires once per bar close, on fast one-way runs only.
    For a strategy its constructor accepts and instants before 2096: it signals
    [d] exactly when the symbol's range series has just closed its newest bar, the
    last RUN_BARS bars all closed strictly in direction [d], and with [median] the
    upper median of the SPEED_LOOKBACK_BARS open-to-open durations before the run
    (by rank: positive, at most half of them below it, more than half at most it)
    every run bar, the newest one measured to this very tick, took at most
    SPEED_RATIO_PERCENT percent of it. *)
Theorem velocity_decide_exact (config : StrategyConfig) (s : RangeVelocityStrategy)
    (tick : PriceData) (store : BarStore) (d : Direction)
    (Hmake : makeRangeVelocity config = Ok s) (Hratio : speedRatioPercent s <= 2000)
    (Hts : time_ok (timestamp tick))
    (Htimes : forall bars, findRange store (symbol tick) (spec_ s) = Some bars ->
                           Forall (fun b => time_ok (date b)) bars) :
  velocity_decide s tick store = Some d <->
  exists bars back median,
    findRange store (symbol tick) (spec_ s) = Some bars /\
    last bars = Some back /\ complete back = true /\
    fast_run s (timestamp tick) d bars back median.
Proof.
  destruct (makeRangeVelocity_ok config s Hmake) as (H1 & H2 & H3 & H4 & H5).
  destruct (just_closed s (symbol tick) store) as [[bars back]|] eqn:Ej.
  - pose proof (proj1 (just_closed_spec _ _ _ _ _) Ej) as (Ef & El & Ec).
    rewrite (velocity_decide_closed s tick store bars back d) by (auto; lia). split.
    + intros [median Hm]. eauto 10.
    + intros (bars' & back' & median & Ef' & El' & _ & Hm). simplify_eq. eauto.
  - unfold velocity_decide. rewrite Ej. split; [done|].
    intros (bars & back & median & Ef & El & Ec & _).
    rewrite (proj2 (just_closed_spec _ _ _ _ _) (conj Ef (conj El Ec))) in Ej. done.
Qed.

(** When the velocity strategy leaves.  For a strategy its constructor accepts,
    any book and any tick, [during] closes the symbol's trade at its exit side
    exactly when it has been open longer than a positive time cap, or the range
    series has just closed a bar and its last EXIT_RUN_BARS bars all point against
    the trade; otherwise the book is untouched.  In particular a position opened
    on this tick by the strategy's own signal is never closed on the same tick. *)
Theorem velocity_during_exact (config : StrategyConfig) (s : RangeVelocityStrategy)
    (tick : PriceData) (store : BarStore) (m : TradeManager)
    (Hmake : makeRangeVelocity config = Ok s) :
  let m' := (velocity_during s tick store m).2 in
  let past_cap t := 0 < maxTradeDuration s < timestamp tick - Trade.openTime t in
  (forall t, findActiveTrade m (symbol tick) = Some t -> past_cap t \/ run_against s tick store t ->
     m' = (closeTrade m (symbol tick) (exit_side (Trade.direction t) tick) tick false).2) /\
  ((forall t, findActiveTrade m (symbol tick) = Some t -> ~ past_cap t /\ ~ run_against s tick store t) -> m' = m) /\
  (forall t, findActiveTrade m (symbol tick) = Some t ->
     velocity_decide s tick store = Some (Trade.direction t) ->
     Trade.openTime t = timestamp tick -> m' = m).
Proof.
  intros m' past_cap. destruct (makeRangeVelocity_ok config s Hmake) as (H1 & H2 & H3 & H4 & H5).
  split_and!.
  - intros t Et H. now apply (velocity_during_trade s tick store m t).
  - intros H. destruct (findActiveTrade m (symbol tick)) as [t|] eqn:Et.
    + now apply (velocity_during_trade s tick store m t), H.
    + unfold m', velocity_during, closeIfPastCap. rewrite Et. destruct (_ <=? 0); now rewrite Et.
  - intros t Et Hd Ht. apply (velocity_during_trade s tick store m t); [done|done|].
    split; [lia|]. intros (bars & back & Ef & El & Ec & _ & Hall).
    destruct (velocity_decide_newest _ _ _ _ Hd) as (bars' & back' & Ej & Hp).
    apply just_closed_spec in Ej as (Ef' & El' & _). simplify_eq.
    apply (run_direction _ bars back) in Hall as [Hb _]; [|lia|done].
    now apply points_opposite in Hp.
Qed.

(** ** Witnesses: two fast up bars after two slower ones. *)

Definition velocity_config : StrategyConfig :=
  mkStrategyConfig "u" (mkTradingVariables "RangeVelocityStrategy" 1 2 1) []
    [mkRangeBarVariables 10 100 4]
    (mkStrategyVariables None None None None None None None None
       (Some (mkRangeVelocityVariables 2 2 50 2 60))).

Definition velocity_strategy : RangeVelocityStrategy :=
  mkRangeVelocity (RangeBar.mkRangeBarSpec 10 100 4) 2 2 50 2 (minutes 60).

Definition velocity_bars : list OhlcObject :=
  map (fun e : Z * Z => mkOhlcObject e.1 e.2 (e.2 + 10) (e.2 + 10) e.2 true)
    [(0, 1000); (100, 1010); (200, 1020); (250, 1030)].

Definition velocity_store : BarStore :=
  mkBarStore [] ∅ [RangeBar.mkRangeBarSpec 10 100 4]
    {["EURUSD"%string :=
       [RangeBar.mkSeries (RangeBar.mkRangeBarSpec 10 100 4) velocity_bars [] [] 40 10 true]]}.

Definition velocity_tick : PriceData := OhlcBuilder.demo_tick 300 1040.

Definition velocity_book : TradeManager :=
  (openTrade (newTradeManager 0) velocity_tick 1 LONG 20 40).2.

Lemma velocity_times bars :
  findRange velocity_store "EURUSD" (spec_ velocity_strategy) = Some bars ->
  Forall (fun b => time_ok (date b)) bars.
Proof. intros [= <-]. repeat constructor; simpl; unfold time_ok; lia. Qed.

Lemma velocity_decide_exact_witness :
  velocity_decide velocity_strategy velocity_tick velocity_store = Some LONG.
Proof.
  apply (velocity_decide_exact velocity_config velocity_strategy);
    [reflexivity|simpl; lia|unfold time_ok; simpl; lia|apply velocity_times|].
  exists velocity_bars, (mkOhlcObject 250 1030 1040 1040 1030 true), 100.
  split_and!; [reflexivity|reflexivity|reflexivity|]. unfold fast_run. split_and!.
  - simpl. lia.
  - vm_compute. repeat constructor.
  - split; [vm_compute; set_solver|vm_compute; lia].
  - lia.
  - vm_compute. repeat constructor; congruence.
  - vm_compute. congruence.
Defined.

Lemma velocity_during_exact_witness :
  exists t, findActiveTrade velocity_book (symbol velocity_tick) = Some t /\
    (velocity_during velocity_strategy velocity_tick velocity_store velocity_book).2 = velocity_book.
Proof.
  destruct (findActiveTrade velocity_book (symbol velocity_tick)) as [t|] eqn:E;
    [|vm_compute in E; discriminate E].
  exists t. split; [reflexivity|].
  apply (velocity_during_exact velocity_config velocity_strategy velocity_tick velocity_store
    velocity_book) with (t := t); [reflexivity|exact E| |];
    vm_compute in E; injection E as <-; vm_compute; reflexivity.
Defined.
