(* ===== verification/StrategyFactory.v ===== *)
(** strategies/strategyFactory.cppm and strategyErrors.cppm: the strategy a
    configuration names, behind the common interface. *)
From S2P Require Import Prelude Models Config BarStore TradeManager Strategy.
From S2P Require OhlcBreakout Fvg KeltnerFade OpenRange Squeeze LiquiditySweep RangeVelocity.
From S2P Require OhlcBuilder.

#[local] Existing Instances OhlcBreakout.OhlcBreakout_IStrategy Fvg.Fvg_IStrategy
  KeltnerFade.KeltnerFade_IStrategy OpenRange.SessionRange_IStrategy Squeeze.Squeeze_IStrategy
  OpenRange.NyOpenRange_IStrategy LiquiditySweep.LiquiditySweep_IStrategy
  RangeVelocity.RangeVelocity_IStrategy.
#[local] Existing Instances OhlcBreakout.OhlcBreakout_closes_only Fvg.Fvg_closes_only
  KeltnerFade.KeltnerFade_closes_only OpenRange.SessionRange_closes_only
  Squeeze.Squeeze_closes_only OpenRange.NyOpenRange_closes_only
  LiquiditySweep.LiquiditySweep_closes_only RangeVelocity.RangeVelocity_closes_only.

Definition kActiveStrategies : list string :=
  ["RandomStrategy"; "OhlcBreakoutStrategy"; "FvgStrategy";
   "KeltnerFadeStrategy"; "SessionRangeBreakoutStrategy";
   "SqueezeBreakoutStrategy"; "NyOpenRangeBreakoutStrategy";
   "LiquiditySweepReversalStrategy"; "RangeVelocityStrategy"]%string.

Section Factory.
(** The random generator: its states, its draw, and the state the operating
    system's entropy seeds it with. *)
Context {G : Type} (coin : G -> bool * G) (seed : G).

(** [std::unique_ptr<IStrategy>]: one case per concrete strategy. *)
Inductive AnyStrategy : Type :=
| ARandom (rng : G)
| AOhlcBreakout (s : OhlcBreakout.OhlcBreakoutStrategy)
| AFvg (s : Fvg.FvgStrategy)
| AKeltnerFade (s : KeltnerFade.KeltnerFadeStrategy)
| ASessionRange (s : OpenRange.SessionRangeBreakoutStrategy)
| ASqueeze (s : Squeeze.SqueezeBreakoutStrategy)
| ANyOpenRange (s : OpenRange.NyOpenRangeBreakoutStrategy)
| ALiquiditySweep (s : LiquiditySweep.LiquiditySweepReversalStrategy)
| ARangeVelocity (s : RangeVelocity.RangeVelocityStrategy).

Definition makeStrategy (config : StrategyConfig) : result AnyStrategy :=
  let name := STRATEGY (TRADING_VARIABLES config) in
  if String.eqb name "RandomStrategy" then Ok (ARandom seed)
  else if String.eqb name "OhlcBreakoutStrategy" then
    s <~ OhlcBreakout.makeOhlcBreakout config; Ok (AOhlcBreakout s)
  else if String.eqb name "FvgStrategy" then s <~ Fvg.makeFvg config; Ok (AFvg s)
  else if String.eqb name "KeltnerFadeStrategy" then
    s <~ KeltnerFade.makeKeltnerFade config; Ok (AKeltnerFade s)
  else if String.eqb name "SessionRangeBreakoutStrategy" then
    s <~ OpenRange.makeSessionRange config; Ok (ASessionRange s)
  else if String.eqb name "SqueezeBreakoutStrategy" then
    s <~ Squeeze.makeSqueeze config; Ok (ASqueeze s)
  else if String.eqb name "NyOpenRangeBreakoutStrategy" then
    s <~ OpenRange.makeNyOpenRange config; Ok (ANyOpenRange s)
  else if String.eqb name "LiquiditySweepReversalStrategy" then
    s <~ LiquiditySweep.makeLiquiditySweep config; Ok (ALiquiditySweep s)
  else if String.eqb name "RangeVelocityStrategy" then
    s <~ RangeVelocity.makeRangeVelocity config; Ok (ARangeVelocity s)
  else Throw (UnknownStrategyError name).

(** Virtual dispatch of the two hooks. *)
Definition decide_with {S : Type} {I : IStrategy S} (wrap : S -> AnyStrategy) (s : S)
    (tick : PriceData) (store : BarStore) : result (option Direction * AnyStrategy) :=
  ' (signal, s') <~ decide s tick store; Ok (signal, wrap s').

Definition during_with {S : Type} {I : IStrategy S} (wrap : S -> AnyStrategy) (s : S)
    (tick : PriceData) (store : BarStore) (m : TradeManager) : AnyStrategy * TradeManager :=
  let '(s', m') := during s tick store m in (wrap s', m').

Definition any_decide (a : AnyStrategy) (tick : PriceData) (store : BarStore)
    : result (option Direction * AnyStrategy) :=
  match a with
  | ARandom g => decide_with (I := RandomStrategy coin) ARandom g tick store
  | AOhlcBreakout s => decide_with AOhlcBreakout s tick store
  | AFvg s => decide_with AFvg s tick store
  | AKeltnerFade s => decide_with AKeltnerFade s tick store
  | ASessionRange s => decide_with ASessionRange s tick store
  | ASqueeze s => decide_with ASqueeze s tick store
  | ANyOpenRange s => decide_with ANyOpenRange s tick store
  | ALiquiditySweep s => decide_with ALiquiditySweep s tick store
  | ARangeVelocity s => decide_with ARangeVelocity s tick store
  end.

Definition any_during (a : AnyStrategy) (tick : PriceData) (store : BarStore) (m : TradeManager)
    : AnyStrategy * TradeManager :=
  match a with
  | ARandom g => during_with (I := RandomStrategy coin) ARandom g tick store m
  | AOhlcBreakout s => during_with AOhlcBreakout s tick store m
  | AFvg s => during_with AFvg s tick store m
  | AKeltnerFade s => during_with AKeltnerFade s tick store m
  | ASessionRange s => during_with ASessionRange s tick store m
  | ASqueeze s => during_with ASqueeze s tick store m
  | ANyOpenRange s => during_with ANyOpenRange s tick store m
  | ALiquiditySweep s => during_with ALiquiditySweep s tick store m
  | ARangeVelocity s => during_with ARangeVelocity s tick store m
  end.

Definition Any_IStrategy : IStrategy AnyStrategy :=
  {| decide := any_decide; during := any_during |}.

(** ** Specification *)

(** The configured name of each concrete strategy. *)
Definition name_of (a : AnyStrategy) : string :=
  match a with
  | ARandom _ => "RandomStrategy"
  | AOhlcBreakout _ => "OhlcBreakoutStrategy"
  | AFvg _ => "FvgStrategy"
  | AKeltnerFade _ => "KeltnerFadeStrategy"
  | ASessionRange _ => "SessionRangeBreakoutStrategy"
  | ASqueeze _ => "SqueezeBreakoutStrategy"
  | ANyOpenRange _ => "NyOpenRangeBreakoutStrategy"
  | ALiquiditySweep _ => "LiquiditySweepReversalStrategy"
  | ARangeVelocity _ => "RangeVelocityStrategy"
  end%string.

(** * Facts *)

Lemma during_with_closes {S : Type} {I : IStrategy S} {CO : ClosesOnly S} wrap s tick store m :
  closed_own tick m (during_with wrap s tick store m).2.
Proof.
  unfold during_with. pose proof (during_closes_own s tick store m) as H.
  now destruct (during s tick store m).
Qed.

(** Whatever the factory builds keeps the interface's promise. *)
#[export] Instance Any_closes_only : ClosesOnly AnyStrategy (I := Any_IStrategy).
Proof.
  split. intros [] tick store m; cbn [during Any_IStrategy any_during];
    try apply during_with_closes.
  now apply (during_with_closes (CO := RandomStrategy_closes_only coin)).
Qed.

(** The constructors throw nothing but [std::invalid_argument]. *)
Ltac only_invalid :=
  let H := fresh in intros H; repeat case_match; congruence.

Lemma makeOhlcBreakout_throws config e :
  OhlcBreakout.makeOhlcBreakout config = Throw e -> e = InvalidArgument.
Proof. unfold OhlcBreakout.makeOhlcBreakout. only_invalid. Qed.
Lemma makeFvg_throws config e : Fvg.makeFvg config = Throw e -> e = InvalidArgument.
Proof. unfold Fvg.makeFvg. only_invalid. Qed.
Lemma makeKeltnerFade_throws config e :
  KeltnerFade.makeKeltnerFade config = Throw e -> e = InvalidArgument.
Proof. unfold KeltnerFade.makeKeltnerFade. only_invalid. Qed.
Lemma makeSessionRange_throws config e :
  OpenRange.makeSessionRange config = Throw e -> e = InvalidArgument.
Proof. unfold OpenRange.makeSessionRange. only_invalid. Qed.
Lemma makeSqueeze_throws config e : Squeeze.makeSqueeze config = Throw e -> e = InvalidArgument.
Proof. unfold Squeeze.makeSqueeze. only_invalid. Qed.
Lemma makeNyOpenRange_throws config e :
  OpenRange.makeNyOpenRange config = Throw e -> e = InvalidArgument.
Proof. unfold OpenRange.makeNyOpenRange. only_invalid. Qed.
Lemma makeLiquiditySweep_throws config e :
  LiquiditySweep.makeLiquiditySweep config = Throw e -> e = InvalidArgument.
Proof. unfold LiquiditySweep.makeLiquiditySweep. only_invalid. Qed.
Lemma makeRangeVelocity_throws config e :
  RangeVelocity.makeRangeVelocity config = Throw e -> e = InvalidArgument.
Proof. unfold RangeVelocity.makeRangeVelocity. only_invalid. Qed.

(** The factory and the list of live strategies agree.  The configured name is
    refused as unknown exactly when it is not on [kActiveStrategies]; a strategy
    that is built is the one that was named; a listed name can only be refused by
    its own constructor as an invalid configuration; and whatever was built, its
    per-tick hook can at most close the tick symbol's own trade at the exit side,
    never open, touch another symbol or invent a price. *)
Theorem makeStrategy_dispatch (config : StrategyConfig) :
  let name := STRATEGY (TRADING_VARIABLES config) in
  (makeStrategy config = Throw (UnknownStrategyError name) <-> name ∉ kActiveStrategies) /\
  (forall a, makeStrategy config = Ok a ->
     name_of a = name /\
     forall tick store m, closed_own tick m (any_during a tick store m).2) /\
  (forall e, name ∈ kActiveStrategies -> makeStrategy config = Throw e -> e = InvalidArgument).
Proof.
  intros name.
  assert ((exists a, makeStrategy config = Ok a /\ name_of a = name /\ name ∈ kActiveStrategies) \/
          (makeStrategy config = Throw InvalidArgument /\ name ∈ kActiveStrategies) \/
          (makeStrategy config = Throw (UnknownStrategyError name) /\ name ∉ kActiveStrategies))
    as Hcases.
  { unfold makeStrategy, kActiveStrategies. fold name.
    repeat match goal with
    | |- context [String.eqb name ?s] =>
        destruct (String.eqb_spec name s) as [->|?];
          [try (left; eexists; split; [reflexivity|split; [reflexivity|set_solver]])|]
    end.
    9: { right. right. split; [done|]. set_solver. }
    all: match goal with |- context [result_bind ?m _] => destruct m as [s|e] eqn:E end; cbn [result_bind];
      [left; eexists; split; [reflexivity|split; [reflexivity|set_solver]]|].
    all: right; left; split; [|set_solver]; f_equal.
    - now apply makeOhlcBreakout_throws in E.
    - now apply makeFvg_throws in E.
    - now apply makeKeltnerFade_throws in E.
    - now apply makeSessionRange_throws in E.
    - now apply makeSqueeze_throws in E.
    - now apply makeNyOpenRange_throws in E.
    - now apply makeLiquiditySweep_throws in E.
    - now apply makeRangeVelocity_throws in E. }
  split_and!.
  - destruct Hcases as [(a & -> & _ & H)|[[-> H]|[-> H]]]; (split; [|tauto]); intros E; done.
  - intros a E. destruct Hcases as [(a' & E' & Hn & _)|[[E' _]|[E' _]]]; [|congruence..].
    rewrite E in E'. injection E' as <-. split; [done|]. intros tick store m.
    apply (during_closes_own (ClosesOnly := Any_closes_only) a tick store m).
  - intros e Hin E. destruct Hcases as [(a' & E' & _)|[[E' _]|[E' H]]]; congruence.
Qed.
End Factory.
