(* ===== verification/Tracker.v ===== *)
(** shared/experiments/chainMatcher.cppm, the [Tracker] class: trailing extremes
    of a time window and the coverage of that window by real ticks. *)
From S2P Require Import Prelude MonoDeque.

Record Entry : Type := mkEntry { ts : Z; price : Z }.
Record GapEntry : Type := mkGapEntry { gap_ts : Z; gap : Z }.

Record Tracker : Type := mkTracker {
  window_ : Z;
  maxDeque_ : list Entry;
  minDeque_ : list Entry;
  gapDeque_ : list GapEntry;
  lastTick_ : option Z;
  preMax_ : option Z;
  preMin_ : option Z;
}.

Definition newTracker (window : Z) : Tracker := mkTracker window [] [] [] None None None.

(** [duration::max()]. *)
Definition kInfiniteGap : Z := INT64_MAX.

Definition front_price (dq : list Entry) : option Z := price <$> head dq.

Definition tracker_feed (t : Tracker) (now mid : Z) : Tracker :=
  let old e := e + window_ t <? now in
  let maxDeque := expire (fun e => old (ts e)) (maxDeque_ t) in
  let minDeque := expire (fun e => old (ts e)) (minDeque_ t) in
  let gapDeque := expire (fun e => old (gap_ts e)) (gapDeque_ t) in
  let gap' := match lastTick_ t with Some before => now - before | None => kInfiniteGap end in
  mkTracker (window_ t)
    (push price dom_max maxDeque (mkEntry now mid))
    (push price dom_min minDeque (mkEntry now mid))
    (push gap dom_max gapDeque (mkGapEntry now gap'))
    (Some now) (front_price maxDeque) (front_price minDeque).

Definition hasData (t : Tracker) : bool := match maxDeque_ t with [] => false | _ => true end.
Definition tracker_max (t : Tracker) : option Z := front_price (maxDeque_ t).
Definition tracker_min (t : Tracker) : option Z := front_price (minDeque_ t).

Definition covered (t : Tracker) : bool :=
  match gapDeque_ t with [] => false | front :: _ => gap front <? window_ t end.

Definition tracker_reset (t : Tracker) : Tracker := newTracker (window_ t).

(** ** Specification *)

(** A tick that the window ending at [now] still holds; the boundary is in. *)
Definition alive (window now t : Z) : bool := now <=? t + window.

(** The gap records of a stream of ticks. *)
Fixpoint gaps_from (before : option Z) (ticks : list Entry) : list GapEntry :=
  match ticks with
  | [] => []
  | e :: ticks' =>
      mkGapEntry (ts e) (match before with Some b => ts e - b | None => kInfiniteGap end)
      :: gaps_from (Some (ts e)) ticks'
  end.

Definition in_window {V} (key : V -> Z) (window now : Z) (l : list V) : list V :=
  List.filter (fun e => alive window now (key e)) l.

Definition feed_all (t : Tracker) (ticks : list Entry) : Tracker :=
  foldl (fun t e => tracker_feed t (ts e) (price e)) t ticks.

Definition time_sorted (ticks : list Entry) : Prop := StronglySorted Z.le (map ts ticks).

(** The abstraction: the deques are those of the ticks in the window. *)
Definition tracks (t : Tracker) (ticks : list Entry) (now : Z) : Prop :=
  maxDeque_ t = suffmax price dom_max (in_window ts (window_ t) now ticks) /\
  minDeque_ t = suffmax price dom_min (in_window ts (window_ t) now ticks) /\
  gapDeque_ t = suffmax gap dom_max (in_window gap_ts (window_ t) now (gaps_from None ticks)) /\
  lastTick_ t = ts <$> last ticks.

(** * Facts *)

Section Expiry.
Context {V : Type} (key value : V -> Z) (dom : Z -> Z -> bool) {D : Dominance dom}.

(** On a time-ordered list the dead entries come first. *)
Lemma in_window_split window now l :
  StronglySorted Z.le (map key l) ->
  l = List.filter (fun e => negb (alive window now (key e))) l ++ in_window key window now l.
Proof.
  unfold in_window. induction l as [|e l IH]; intros Hs; [done|].
  cbn [map List.filter] in *. inversion Hs as [|? ? Hs1 Hs2]; subst.
  destruct (alive window now (key e)) eqn:E; cbn [negb]; [|simpl; f_equal; auto].
  assert (List.filter (fun e => negb (alive window now (key e))) l = []) as Hnil.
  { clear IH Hs Hs1. induction l as [|x l IH]; [done|]. cbn [map] in Hs2.
    inversion Hs2 as [|? ? Hx Hs3]; subst. cbn [List.filter].
    unfold alive in *. rewrite (proj2 (Z.leb_le now (key x + window))) by (zbool; lia).
    cbn [negb]. apply (IH Hs3). }
  rewrite Hnil. cbn [app]. f_equal.
  specialize (IH Hs1). rewrite Hnil in IH. exact IH.
Qed.

Lemma in_window_sorted window now l :
  StronglySorted Z.le (map key l) -> StronglySorted Z.le (map key (in_window key window now l)).
Proof.
  unfold in_window. induction l as [|e l IH]; intros Hs; [constructor|].
  cbn [map List.filter] in *. inversion Hs as [|? ? Hs1 Hs2]; subst.
  destruct (alive _ _ _); [|auto]. cbn [map]. constructor; [auto|].
  apply Forall_forall. intros k Hk. rewrite Forall_forall in Hs2. apply Hs2.
  apply list_elem_of_In, in_map_iff in Hk as (x & <- & Hx).
  apply List.filter_In in Hx as [Hx _]. now apply list_elem_of_In, in_map.
Qed.

Lemma in_window_narrow window now now' l :
  now <= now' -> in_window key window now' (in_window key window now l) = in_window key window now' l.
Proof.
  intros Hle. unfold in_window. induction l as [|e l IH]; [done|]. cbn [List.filter].
  unfold alive in *. destruct (Z.leb_spec now (key e + window)); cbn [List.filter];
    destruct (Z.leb_spec now' (key e + window)); try lia; now rewrite IH.
Qed.

Lemma expire_in_window window now now' l :
  StronglySorted Z.le (map key l) -> now <= now' ->
  expire (fun e => key e + window <? now') (suffmax value dom (in_window key window now l)) =
  suffmax value dom (in_window key window now' l).
Proof.
  intros Hs Hle.
  rewrite (in_window_split window now' (in_window key window now l)) at 1
    by now apply in_window_sorted.
  rewrite (expire_suffmax value dom (D := D)); [now rewrite in_window_narrow|..];
    apply Forall_forall; intros e He; apply list_elem_of_In, List.filter_In in He as [_ He];
    unfold alive in He; zbool; lia.
Qed.
End Expiry.

Lemma in_window_snoc {V} (key : V -> Z) window now l e :
  0 <= window -> key e = now ->
  in_window key window now (l ++ [e]) = in_window key window now l ++ [e].
Proof.
  intros Hw Hk. unfold in_window. rewrite List.filter_app. cbn [List.filter].
  unfold alive at 2. now rewrite (proj2 (Z.leb_le _ _)) by lia.
Qed.

Lemma gaps_from_snoc before ticks e :
  gaps_from before (ticks ++ [e]) = gaps_from before ticks ++
    [mkGapEntry (ts e) (match (if last ticks is Some x then Some (ts x) else before) with
                        | Some b => ts e - b | None => kInfiniteGap end)].
Proof.
  revert before. induction ticks as [|x ticks IH]; intros before; [done|].
  cbn [gaps_from app]. rewrite IH. destruct ticks as [|y ticks]; [done|].
  change (last (x :: y :: ticks)) with (last (y :: ticks)).
  destruct (last (y :: ticks)) eqn:E; [done|]. now apply last_None in E.
Qed.

Lemma gaps_from_times before ticks : map gap_ts (gaps_from before ticks) = map ts ticks.
Proof. revert before. induction ticks; intros; simpl; f_equal; auto. Qed.

Lemma tracks_feed t ticks now e :
  0 <= window_ t -> time_sorted ticks -> now <= ts e -> tracks t ticks now ->
  tracks (tracker_feed t (ts e) (price e)) (ticks ++ [e]) (ts e) /\
  preMax_ (tracker_feed t (ts e) (price e)) =
    front_price (suffmax price dom_max (in_window ts (window_ t) (ts e) ticks)) /\
  preMin_ (tracker_feed t (ts e) (price e)) =
    front_price (suffmax price dom_min (in_window ts (window_ t) (ts e) ticks)).
Proof.
  intros Hw Hs Hnow (H1 & H2 & H3 & H4). unfold tracker_feed, tracks.
  cbn [maxDeque_ minDeque_ gapDeque_ lastTick_ window_ preMax_ preMin_].
  rewrite H1, H2, H3, H4.
  rewrite !(expire_in_window ts price) by (auto; apply _).
  rewrite (expire_in_window gap_ts gap) by (rewrite ?gaps_from_times; auto; apply _).
  rewrite !push_suffmax by apply _. rewrite gaps_from_snoc, !in_window_snoc by done.
  split; [|done]. split_and!; [by destruct e|by destruct e| |by rewrite last_snoc].
  now destruct (last ticks).
Qed.

Lemma tracks_feed_all t0 ticks :
  0 <= window_ t0 -> maxDeque_ t0 = [] -> minDeque_ t0 = [] -> gapDeque_ t0 = [] ->
  lastTick_ t0 = None -> time_sorted ticks ->
  tracks (feed_all t0 ticks) ticks (default 0 (ts <$> last ticks)) /\
  window_ (feed_all t0 ticks) = window_ t0.
Proof.
  intros Hw E1 E2 E3 E4. induction ticks as [|e ticks IH] using rev_ind; intros Hs.
  { split; [|done]. unfold tracks. cbn. rewrite E1, E2, E3, E4. done. }
  unfold time_sorted in Hs. rewrite map_app in Hs.
  apply StronglySorted_app in Hs as (Hcross & Hs & _).
  destruct (IH Hs) as [Ht Hwin]. unfold feed_all in *. rewrite foldl_app. cbn [foldl].
  set (t := foldl _ t0 ticks) in *. rewrite last_snoc. cbn [fmap option_fmap option_map default].
  split; [|exact Hwin].
  assert (last ticks = None \/ exists x, last ticks = Some x /\ ts x <= ts e) as [Hl|(x & Hl & Hx)].
  { destruct (last ticks) as [x|] eqn:El; [right|now left]. exists x. split; [done|].
    apply Hcross; [|set_solver]. apply last_Some_elem_of in El.
    now apply list_elem_of_In, in_map, list_elem_of_In. }
  - apply last_None in Hl. subst ticks.
    apply (tracks_feed t [] (ts e) e); [lia|constructor|lia|]. exact Ht.
  - rewrite Hl in Ht. eapply tracks_feed; [lia|exact Hs| |exact Ht]. simpl. lia.
Qed.

Lemma front_price_max l :
  front_price (suffmax price dom_max l) =
  match l with [] => None | _ => Some (max_of (map price l)) end.
Proof.
  destruct l as [|x l]; [done|].
  destruct (suffmax_cons_inv price dom_max (x :: l)) as (e & dq & E); [done|].
  rewrite E. unfold front_price. simpl. f_equal. apply max_deque_front in E. exact E.
Qed.

Lemma front_price_min l :
  front_price (suffmax price dom_min l) =
  match l with [] => None | _ => Some (min_of (map price l)) end.
Proof.
  destruct l as [|x l]; [done|].
  destruct (suffmax_cons_inv price dom_min (x :: l)) as (e & dq & E); [done|].
  rewrite E. unfold front_price. simpl. f_equal. apply min_deque_front in E. exact E.
Qed.

Lemma covered_all t ticks now :
  tracks t ticks now ->
  covered t = true <->
  in_window gap_ts (window_ t) now (gaps_from None ticks) <> [] /\
  Forall (fun g => gap g < window_ t) (in_window gap_ts (window_ t) now (gaps_from None ticks)).
Proof.
  intros (_ & _ & H & _). unfold covered. rewrite H.
  set (l := in_window _ _ _ _). destruct (decide (l = [])) as [->|Hne].
  { simpl. split; [done|tauto]. }
  destruct (suffmax_cons_inv gap dom_max l Hne) as (g & dq & E). rewrite E, Z.ltb_lt.
  destruct (suffmax_front gap dom_max l g dq E) as [Hin Hdom]. split.
  - intros Hg. split; [done|]. apply Forall_forall. intros x Hx.
    specialize (Hdom x Hx). unfold dom_max in Hdom. zbool. lia.
  - intros [_ Hall]. rewrite Forall_forall in Hall. auto.
Qed.

(** A tracker reports the true extremes and coverage of its window.  After any
    time-ordered stream of ticks, with [now] the newest: the maximum and minimum
    are those of the mids whose tick is at most [window] old, the newest
    included; the pre-insert extremes are those of the earlier ticks of the
    window alone; and the window counts as covered exactly when no inter-tick gap
    recorded inside it is as long as the window (the very first tick's gap being
    infinite, so a cold start or a weekend is never covered). *)
Theorem tracker_exact (window : Z) (ticks : list Entry) (e : Entry)
    (Hw : 0 <= window) (Hs : time_sorted (ticks ++ [e])) :
  let t := feed_all (newTracker window) (ticks ++ [e]) in
  let now := ts e in
  let earlier := in_window ts window now ticks in
  tracker_max t = Some (max_of (map price (earlier ++ [e]))) /\
  tracker_min t = Some (min_of (map price (earlier ++ [e]))) /\
  preMax_ t = (match earlier with [] => None | _ => Some (max_of (map price earlier)) end) /\
  preMin_ t = (match earlier with [] => None | _ => Some (min_of (map price earlier)) end) /\
  (covered t = true <->
     Forall (fun g => gap g < window)
       (in_window gap_ts window now (gaps_from None (ticks ++ [e])))).
Proof.
  intros t now earlier.
  destruct (tracks_feed_all (newTracker window) (ticks ++ [e])) as [Ht Hwin]; [done..|].
  fold t in Ht, Hwin. cbn [window_ newTracker] in Hwin.
  rewrite last_snoc in Ht. cbn [fmap option_fmap option_map default from_option id] in Ht.
  fold now in Ht.
  assert (in_window ts window now (ticks ++ [e]) = earlier ++ [e]) as Ewin
    by (apply in_window_snoc; [done|reflexivity]).
  pose proof (covered_all t (ticks ++ [e]) now Ht) as Hc. rewrite Hwin in Hc.
  destruct Ht as (H1 & H2 & H3 & H4). rewrite Hwin, Ewin in H1, H2.
  assert (preMax_ t = front_price (suffmax price dom_max earlier) /\
          preMin_ t = front_price (suffmax price dom_min earlier)) as [P1 P2].
  { unfold time_sorted in Hs. rewrite map_app in Hs.
    apply StronglySorted_app in Hs as (Hcross & Hs & _).
    destruct (tracks_feed_all (newTracker window) ticks Hw eq_refl eq_refl eq_refl eq_refl Hs)
      as [Ht0 Hwin0].
    unfold t, feed_all. rewrite foldl_app. cbn [foldl].
    fold (feed_all (newTracker window) ticks). set (t0 := feed_all (newTracker window) ticks) in *.
    cbn [window_ newTracker] in Hwin0. unfold earlier. rewrite <- Hwin0.
    destruct (last ticks) as [x|] eqn:El.
    - eapply tracks_feed; [lia|exact Hs| |exact Ht0]. simpl.
      apply Hcross; [|set_solver]. apply last_Some_elem_of in El.
      now apply list_elem_of_In, in_map, list_elem_of_In.
    - apply last_None in El. subst ticks. apply (tracks_feed t0 [] now e); [lia|constructor|done|].
      exact Ht0. }
  unfold tracker_max, tracker_min. rewrite H1, H2, front_price_max, front_price_min.
  rewrite P1, P2, front_price_max, front_price_min.
  split_and!; try (destruct earlier; reflexivity).
  rewrite Hc. split; [tauto|]. intros Hall. split; [|done].
  intros E. apply (f_equal length) in E. rewrite gaps_from_snoc, in_window_snoc in E by done.
  rewrite length_app in E. simpl in E. lia.
Qed.

Lemma tracker_exact_witness :
  tracker_max (feed_all (newTracker 10) ([mkEntry 0 50; mkEntry 4 30] ++ [mkEntry 12 40])) = Some 40.
Proof.
  destruct (tracker_exact 10 [mkEntry 0 50; mkEntry 4 30] (mkEntry 12 40)) as [H _];
    [lia|repeat constructor; simpl; lia|].
  rewrite H. vm_compute. reflexivity.
Defined.
