(* ===== verification/ChainMatcher.v ===== *)
(** shared/experiments/chainMatcher.cppm and experimentConfig.hpp: counting the
    non-overlapping occurrences of an activity chain in one symbol's ticks. *)
From S2P Require Import Prelude Models Double MonoDeque Tracker.
From Stdlib Require Import SpecFloat.

Inductive ActivityType : Type :=
| DirectionalMove | StaysInBand | NewExtreme | RangeRelativeMove.

Record Activity : Type := mkActivity {
  TYPE : ActivityType;
  MOVE_PERCENT : double;
  WINDOW_SECONDS : Z;
  LOOKBACK_SECONDS : Z;
  DIRECTION : Z;
  ATR_MULTIPLE : double;
}.

Record ExperimentConfig : Type := mkExperimentConfig {
  UUID : string;
  NAME : string;
  CHAIN : list Activity;
}.

Definition kMaxAttemptSamples : nat := Z.to_nat 100000.

Record ExcursionSample : Type := mkExcursionSample {
  abovePoints : Z;
  belowPoints : Z;
  sampleAnchorMid : Z;
}.

Record MatchStats : Type := mkMatchStats {
  occurrences : nat;
  attempts : nat;
  failuresByLeg : list nat;
  completedExcursions : list ExcursionSample;
  failedExcursions : list ExcursionSample;
  completionSeconds : list Z;
  spreadAtTriggerSum : Z;
  spreadAtTriggerCount : nat;
  samplesTruncated : bool;
}.

Record LegRuntime : Type := mkLegRuntime {
  leg_type : ActivityType;
  leg_window : Z;
  pctScaled : Z;
  negativeMove : bool;
  leg_direction : Z;
  atrScaled : Z;
  moveTracker : option Tracker;
  basisTracker : option Tracker;
}.

(** The in-flight leg's anchor: [anchorMid_], [anchorTs_], [anchorThreshold_],
    [anchorThresholdValid_]. *)
Record Anchor : Type := mkAnchor {
  anchorMid_ : Z;
  anchorTs_ : Z;
  anchorThreshold_ : Z;
  anchorThresholdValid_ : bool;
}.

(** The attempt recorder: the four [attempt...] members. *)
Record Attempt : Type := mkAttempt {
  attemptAnchorMid_ : Z;
  attemptAnchorTs_ : Z;
  attemptAbove_ : Z;
  attemptBelow_ : Z;
}.

Record ChainMatcher : Type := mkChainMatcher {
  legs_ : list LegRuntime;
  stats_ : MatchStats;
  maxSamples_ : nat;
  active_ : nat;
  anchor_ : Anchor;
  attempt_ : Attempt;
}.

(** ** Construction *)

Definition positive (value : Z) : result unit :=
  if value <? 1 then Throw InvalidArgument else Ok tt.

Definition directed (value : Z) : result unit :=
  if negb (value =? 1) && negb (value =? -1) then Throw InvalidArgument else Ok tt.

(** [llround(v * 1e6)]; an unspecified result is not a value of the model. *)
Definition scaled (v : double) : result Z :=
  match dbl_llround (dbl_mul v (dbl_of_Z 1000000)) with
  | Some z => Ok z
  | None => Throw UndefinedRead
  end.

Definition makeLeg (activity : Activity) (index : nat) : result LegRuntime :=
  let window := seconds (WINDOW_SECONDS activity) in
  let first {A} (x : A) : option A := if (index =? 0)%nat then Some x else None in
  match TYPE activity with
  | DirectionalMove =>
      if dbl_eqb (MOVE_PERCENT activity) dbl_zero then Throw InvalidArgument
      else
        _ <~ positive (WINDOW_SECONDS activity);
        pct <~ scaled (dbl_abs (MOVE_PERCENT activity));
        Ok (mkLegRuntime DirectionalMove window pct (dbl_ltb (MOVE_PERCENT activity) dbl_zero)
              0 0 (first (newTracker window)) None)
  | StaysInBand =>
      if dbl_eqb (MOVE_PERCENT activity) dbl_zero then Throw InvalidArgument
      else
        let bandSeconds := if 0 <? LOOKBACK_SECONDS activity then LOOKBACK_SECONDS activity
                           else WINDOW_SECONDS activity in
        _ <~ positive bandSeconds;
        _ <~ (if (0 <? index)%nat then positive (WINDOW_SECONDS activity) else Ok tt);
        pct <~ scaled (dbl_abs (MOVE_PERCENT activity));
        Ok (mkLegRuntime StaysInBand window pct false 0 0 None
              (Some (newTracker (seconds bandSeconds))))
  | NewExtreme =>
      _ <~ positive (LOOKBACK_SECONDS activity);
      _ <~ directed (DIRECTION activity);
      _ <~ (if (0 <? index)%nat then positive (WINDOW_SECONDS activity) else Ok tt);
      Ok (mkLegRuntime NewExtreme window 0 false (DIRECTION activity) 0 None
            (Some (newTracker (seconds (LOOKBACK_SECONDS activity)))))
  | RangeRelativeMove =>
      _ <~ positive (LOOKBACK_SECONDS activity);
      _ <~ positive (WINDOW_SECONDS activity);
      _ <~ directed (DIRECTION activity);
      if dbl_leb (ATR_MULTIPLE activity) dbl_zero then Throw InvalidArgument
      else
        atr <~ scaled (ATR_MULTIPLE activity);
        Ok (mkLegRuntime RangeRelativeMove window 0 false (DIRECTION activity) atr
              (first (newTracker window))
              (Some (newTracker (seconds (LOOKBACK_SECONDS activity)))))
  end.

Fixpoint makeLegs (chain : list Activity) (index : nat) : result (list LegRuntime) :=
  match chain with
  | [] => Ok []
  | activity :: chain' =>
      leg <~ makeLeg activity index;
      legs <~ makeLegs chain' (S index);
      Ok (leg :: legs)
  end.

Definition newStats (legs : nat) : MatchStats :=
  mkMatchStats 0 0 (replicate legs 0%nat) [] [] [] 0 0 false.

Definition makeMatcher (config : ExperimentConfig) (maxAttemptSamples : nat) : result ChainMatcher :=
  match CHAIN config with
  | [] => Throw InvalidArgument
  | chain =>
      legs <~ makeLegs chain 0;
      Ok (mkChainMatcher legs (newStats (length legs)) maxAttemptSamples 0
            (mkAnchor 0 0 0 false) (mkAttempt 0 0 0 0))
  end.

(** ** The state machine *)

Definition feed_leg (mid ts : Z) (leg : LegRuntime) : LegRuntime :=
  let feed t := tracker_feed t ts mid in
  mkLegRuntime (leg_type leg) (leg_window leg) (pctScaled leg) (negativeMove leg)
    (leg_direction leg) (atrScaled leg) (feed <$> moveTracker leg) (feed <$> basisTracker leg).

Definition rangeThreshold (range atr : Z) : Z :=
  Z.max 1 (((range *₆₄ atr) +₆₄ 500000) ÷ 1000000).

(** Reading a member the code dereferences unchecked. *)
Definition deref {A : Type} (o : option A) : result A :=
  match o with Some a => Ok a | None => Throw UndefinedRead end.

(** The percent test, multiplied out: [moved / base >= pct / 100]. *)
Definition pct_reached (moved base pct : Z) : bool :=
  (base *₆₄ pct) <=? (moved *₆₄ 100000000).

Definition basis_range (t : Tracker) : result Z :=
  hi <~ deref (tracker_max t);
  lo <~ deref (tracker_min t);
  Ok (hi -₆₄ lo).

Definition leg_condition (leg : LegRuntime) (first : bool) (anchor : Anchor) (cur : Z)
    : result bool :=
  match leg_type leg with
  | DirectionalMove =>
      if first then
        roll <~ deref (moveTracker leg);
        if negb (hasData roll) then Ok false
        else if negativeMove leg then
          rollMax <~ deref (tracker_max roll);
          Ok (pct_reached (rollMax -₆₄ cur) rollMax (pctScaled leg))
        else
          rollMin <~ deref (tracker_min roll);
          Ok (pct_reached (cur -₆₄ rollMin) rollMin (pctScaled leg))
      else if negativeMove leg
      then Ok (pct_reached (anchorMid_ anchor -₆₄ cur) (anchorMid_ anchor) (pctScaled leg))
      else Ok (pct_reached (cur -₆₄ anchorMid_ anchor) (anchorMid_ anchor) (pctScaled leg))
  | StaysInBand =>
      basis <~ deref (basisTracker leg);
      if negb (covered basis) then Ok false
      else
        range <~ basis_range basis;
        Ok ((range *₆₄ 100000000) <=? (cur *₆₄ pctScaled leg))
  | NewExtreme =>
      basis <~ deref (basisTracker leg);
      if negb (covered basis) then Ok false
      else if 0 <? leg_direction leg
      then Ok (match preMax_ basis with Some p => p <? cur | None => false end)
      else Ok (match preMin_ basis with Some p => cur <? p | None => false end)
  | RangeRelativeMove =>
      basis <~ deref (basisTracker leg);
      if first then
        if negb (covered basis) then Ok false
        else
          range <~ basis_range basis;
          let threshold := rangeThreshold range (atrScaled leg) in
          roll <~ deref (moveTracker leg);
          if leg_direction leg <? 0 then
            hi <~ deref (tracker_max roll); Ok (threshold <=? (hi -₆₄ cur))
          else
            lo <~ deref (tracker_min roll); Ok (threshold <=? (cur -₆₄ lo))
      else if negb (anchorThresholdValid_ anchor) then Ok false
      else if leg_direction leg <? 0
      then Ok (anchorThreshold_ anchor <=? (anchorMid_ anchor -₆₄ cur))
      else Ok (anchorThreshold_ anchor <=? (cur -₆₄ anchorMid_ anchor))
  end.

Definition conditionHolds (m : ChainMatcher) (index : nat) (mid : Z) : result bool :=
  leg <~ deref (legs_ m !! index);
  leg_condition leg (index =? 0)%nat (anchor_ m) mid.

Definition set_stats (m : ChainMatcher) (s : MatchStats) : ChainMatcher :=
  mkChainMatcher (legs_ m) s (maxSamples_ m) (active_ m) (anchor_ m) (attempt_ m).

Definition recordAttempt (m : ChainMatcher) (completed : bool) (ts : Z) : ChainMatcher :=
  let s := stats_ m in
  let a := attempt_ m in
  let samples := if completed then completedExcursions s else failedExcursions s in
  if (maxSamples_ m <=? length samples)%nat then
    set_stats m (mkMatchStats (occurrences s) (attempts s) (failuresByLeg s)
      (completedExcursions s) (failedExcursions s) (completionSeconds s)
      (spreadAtTriggerSum s) (spreadAtTriggerCount s) true)
  else
    let sample := mkExcursionSample (attemptAbove_ a) (attemptBelow_ a) (i32 (attemptAnchorMid_ a)) in
    set_stats m
      (if completed then
         mkMatchStats (occurrences s) (attempts s) (failuresByLeg s)
           (completedExcursions s ++ [sample]) (failedExcursions s)
           (completionSeconds s ++ [(ts - attemptAnchorTs_ a) ÷ 1000000])
           (spreadAtTriggerSum s) (spreadAtTriggerCount s) (samplesTruncated s)
       else
         mkMatchStats (occurrences s) (attempts s) (failuresByLeg s)
           (completedExcursions s) (failedExcursions s ++ [sample]) (completionSeconds s)
           (spreadAtTriggerSum s) (spreadAtTriggerCount s) (samplesTruncated s)).

Definition resetAfterMatch (m : ChainMatcher) : ChainMatcher :=
  let reset leg :=
    mkLegRuntime (leg_type leg) (leg_window leg) (pctScaled leg) (negativeMove leg)
      (leg_direction leg) (atrScaled leg) (tracker_reset <$> moveTracker leg)
      (tracker_reset <$> basisTracker leg) in
  mkChainMatcher (map reset (legs_ m)) (stats_ m) (maxSamples_ m) 0 (anchor_ m) (attempt_ m).

(** The leg-1 part of [completeActiveLeg]: count the attempt, arm the recorder. *)
Definition begin_attempt (m : ChainMatcher) (mid spread ts : Z) : ChainMatcher :=
  let s := stats_ m in
  mkChainMatcher (legs_ m)
    (mkMatchStats (occurrences s) (S (attempts s)) (failuresByLeg s)
       (completedExcursions s) (failedExcursions s) (completionSeconds s)
       (spreadAtTriggerSum s +₆₄ spread) (S (spreadAtTriggerCount s)) (samplesTruncated s))
    (maxSamples_ m) (active_ m) (anchor_ m) (mkAttempt mid ts 0 0).

Definition count_occurrence (m : ChainMatcher) : ChainMatcher :=
  let s := stats_ m in
  set_stats m (mkMatchStats (S (occurrences s)) (attempts s) (failuresByLeg s)
    (completedExcursions s) (failedExcursions s) (completionSeconds s)
    (spreadAtTriggerSum s) (spreadAtTriggerCount s) (samplesTruncated s)).

(** The next leg anchors on this tick, freezing a range threshold. *)
Definition next_anchor (m : ChainMatcher) (next : LegRuntime) (mid ts : Z) : result Anchor :=
  match leg_type next with
  | RangeRelativeMove =>
      basis <~ deref (basisTracker next);
      if covered basis then
        range <~ basis_range basis;
        Ok (mkAnchor mid ts (rangeThreshold range (atrScaled next)) true)
      else Ok (mkAnchor mid ts 0 false)
  | _ => Ok (mkAnchor mid ts (anchorThreshold_ (anchor_ m)) (anchorThresholdValid_ (anchor_ m)))
  end.

Definition completeActiveLeg (m : ChainMatcher) (mid spread ts : Z) : result ChainMatcher :=
  let m := if (active_ m =? 0)%nat then begin_attempt m mid spread ts else m in
  if (active_ m + 1 =? length (legs_ m))%nat then
    Ok (resetAfterMatch (recordAttempt (count_occurrence m) true ts))
  else
    next <~ deref (legs_ m !! (active_ m + 1)%nat);
    anchor <~ next_anchor m next mid ts;
    Ok (mkChainMatcher (legs_ m) (stats_ m) (maxSamples_ m) (active_ m + 1) anchor (attempt_ m)).

(** The in-flight excursion, this tick included. *)
Definition extend_attempt (m : ChainMatcher) (mid : Z) : ChainMatcher :=
  let a := attempt_ m in
  mkChainMatcher (legs_ m) (stats_ m) (maxSamples_ m) (active_ m) (anchor_ m)
    (mkAttempt (attemptAnchorMid_ a) (attemptAnchorTs_ a)
       (Z.max (attemptAbove_ a) (mid -₆₄ attemptAnchorMid_ a))
       (Z.max (attemptBelow_ a) (attemptAnchorMid_ a -₆₄ mid))).

(** The expiry of an attempt, attributed to the leg being sought. *)
Definition fail_attempt (m : ChainMatcher) (ts : Z) : ChainMatcher :=
  let m := recordAttempt m false ts in
  let s := stats_ m in
  mkChainMatcher (legs_ m)
    (mkMatchStats (occurrences s) (attempts s) (alter S (active_ m) (failuresByLeg s))
       (completedExcursions s) (failedExcursions s) (completionSeconds s)
       (spreadAtTriggerSum s) (spreadAtTriggerCount s) (samplesTruncated s))
    (maxSamples_ m) 0 (anchor_ m) (attempt_ m).

(** Scanning for leg 1. *)
Definition scan_first (m : ChainMatcher) (mid spread ts : Z) : result ChainMatcher :=
  holds <~ conditionHolds m 0 mid;
  if (holds : bool) then completeActiveLeg m mid spread ts else Ok m.

Definition onTick (m : ChainMatcher) (mid spread ts : Z) : result ChainMatcher :=
  let m := mkChainMatcher (map (feed_leg mid ts) (legs_ m)) (stats_ m) (maxSamples_ m)
             (active_ m) (anchor_ m) (attempt_ m) in
  if (0 <? active_ m)%nat then
    let m := extend_attempt m mid in
    leg <~ deref (legs_ m !! active_ m);
    if leg_window leg <? ts - anchorTs_ (anchor_ m) then
      scan_first (fail_attempt m ts) mid spread ts
    else
      holds <~ conditionHolds m (active_ m) mid;
      if (holds : bool) then completeActiveLeg m mid spread ts else Ok m
  else scan_first m mid spread ts.

(** One tick as the matcher sees it. *)
Record MidTick : Type := mkMidTick { mt_mid : Z; mt_spread : Z; mt_ts : Z }.

Fixpoint feed_matcher (m : ChainMatcher) (ticks : list MidTick) : result ChainMatcher :=
  match ticks with
  | [] => Ok m
  | t :: ticks' =>
      m' <~ onTick m (mt_mid t) (mt_spread t) (mt_ts t);
      feed_matcher m' ticks'
  end.

(** ** Specification *)

Definition total_failures (s : MatchStats) : nat := foldr Nat.add 0%nat (failuresByLeg s).

(** The books of a matcher balance. *)
Record accounts (m : ChainMatcher) : Prop := mkAccounts {
  acc_active : (active_ m < length (legs_ m))%nat;
  acc_legs : length (failuresByLeg (stats_ m)) = length (legs_ m);
  acc_first : failuresByLeg (stats_ m) !! 0%nat = Some 0%nat;
  acc_attempts : attempts (stats_ m) =
    (occurrences (stats_ m) + total_failures (stats_ m)
     + if (active_ m =? 0)%nat then 0 else 1)%nat;
  acc_spread : spreadAtTriggerCount (stats_ m) = attempts (stats_ m);
  acc_completed : length (completedExcursions (stats_ m)) =
    Nat.min (maxSamples_ m) (occurrences (stats_ m));
  acc_seconds : length (completionSeconds (stats_ m)) = length (completedExcursions (stats_ m));
  acc_failed : length (failedExcursions (stats_ m)) =
    Nat.min (maxSamples_ m) (total_failures (stats_ m));
  acc_truncated : samplesTruncated (stats_ m) =
    (maxSamples_ m <? occurrences (stats_ m))%nat || (maxSamples_ m <? total_failures (stats_ m))%nat;
}.

(** What [makeLeg] guarantees of a leg in a given position: the trackers its
    condition dereferences exist. *)
Definition leg_ok (index : nat) (leg : LegRuntime) : Prop :=
  match leg_type leg with
  | DirectionalMove => index = 0%nat -> is_Some (moveTracker leg)
  | StaysInBand | NewExtreme => is_Some (basisTracker leg)
  | RangeRelativeMove => is_Some (basisTracker leg) /\ (index = 0%nat -> is_Some (moveTracker leg))
  end.

Definition legs_ok (legs : list LegRuntime) : Prop :=
  forall index leg, legs !! index = Some leg -> leg_ok index leg.

(** A tracker that has seen a tick since its last reset. *)
Definition fed (t : Tracker) : Prop := maxDeque_ t <> [] /\ minDeque_ t <> [].

Definition legs_fed (legs : list LegRuntime) : Prop :=
  Forall (fun leg => (forall t, moveTracker leg = Some t -> fed t) /\
                     (forall t, basisTracker leg = Some t -> fed t)) legs.

(** * Facts *)

Lemma total_alter i l v :
  l !! i = Some v -> foldr Nat.add 0%nat (alter S i l) = S (foldr Nat.add 0%nat l).
Proof.
  revert i. induction l as [|x l IH]; intros i Hi; [done|].
  destruct i as [|i]; simpl in Hi; [simpl; lia|].
  change ((x + foldr Nat.add 0 (alter S i l))%nat = S (x + foldr Nat.add 0 l)%nat).
  rewrite (IH i Hi). lia.
Qed.

Lemma fed_feed t now mid : fed (tracker_feed t now mid).
Proof.
  unfold fed, tracker_feed, push. cbn [maxDeque_ minDeque_].
  split; intros E; now apply app_eq_nil in E as [_ E].
Qed.

Lemma legs_fed_feed mid ts legs : legs_fed (map (feed_leg mid ts) legs).
Proof.
  apply Forall_fmap, Forall_forall. intros leg _. cbn. split; intros t Ht;
    apply fmap_Some in Ht as (t0 & _ & ->); apply fed_feed.
Qed.

Lemma legs_ok_map f legs :
  (forall leg, leg_type (f leg) = leg_type leg /\
     (is_Some (moveTracker leg) -> is_Some (moveTracker (f leg))) /\
     (is_Some (basisTracker leg) -> is_Some (basisTracker (f leg)))) ->
  legs_ok legs -> legs_ok (map f legs).
Proof.
  intros Hf Hok i leg Hi. apply list_lookup_fmap_Some_1 in Hi as (l0 & -> & Hi).
  specialize (Hok i l0 Hi). destruct (Hf l0) as (H1 & H2 & H3).
  unfold leg_ok in *. rewrite H1. destruct (leg_type l0); tauto.
Qed.

Lemma legs_ok_feed mid ts legs : legs_ok legs -> legs_ok (map (feed_leg mid ts) legs).
Proof. apply legs_ok_map. intros leg. cbn. rewrite !fmap_is_Some. auto. Qed.

Lemma tracker_max_fed t : fed t -> exists v, tracker_max t = Some v.
Proof. intros [H _]. unfold tracker_max, front_price. destruct (maxDeque_ t); [done|]. simpl. eauto. Qed.

Lemma tracker_min_fed t : fed t -> exists v, tracker_min t = Some v.
Proof. intros [_ H]. unfold tracker_min, front_price. destruct (minDeque_ t); [done|]. simpl. eauto. Qed.

Lemma basis_range_ok t : fed t -> exists r, basis_range t = Ok r.
Proof.
  intros H. unfold basis_range. destruct (tracker_max_fed t H) as [a ->].
  destruct (tracker_min_fed t H) as [b ->]. simpl. eauto.
Qed.

(** Reading every member the condition needs succeeds. *)
Lemma leg_condition_ok leg index anchor cur :
  leg_ok index leg -> (forall t, moveTracker leg = Some t -> fed t) ->
  (forall t, basisTracker leg = Some t -> fed t) ->
  exists b, leg_condition leg (index =? 0)%nat anchor cur = Ok b.
Proof.
  intros Hok Hm Hb. unfold leg_condition, leg_ok in *. destruct (leg_type leg).
  - destruct (Nat.eqb_spec index 0) as [E|E]; [|destruct (negativeMove leg); eauto].
    destruct (Hok E) as [t Ht]. rewrite Ht. cbn [deref result_bind].
    destruct (hasData t); cbn [negb]; [|eauto].
    destruct (tracker_max_fed t (Hm t Ht)) as [a ->].
    destruct (tracker_min_fed t (Hm t Ht)) as [b ->].
    destruct (negativeMove leg); simpl; eauto.
  - destruct Hok as [t Ht]. rewrite Ht. cbn [deref result_bind].
    destruct (covered t); cbn [negb]; [|eauto].
    destruct (basis_range_ok t (Hb t Ht)) as [r ->]. simpl. eauto.
  - destruct Hok as [t Ht]. rewrite Ht. cbn [deref result_bind].
    destruct (covered t); cbn [negb]; [|eauto]. destruct (0 <? leg_direction leg); eauto.
  - destruct Hok as [[t Ht] Hfirst]. rewrite Ht. cbn [deref result_bind].
    destruct (Nat.eqb_spec index 0) as [E|E].
    + destruct (covered t); cbn [negb]; [|eauto].
      destruct (basis_range_ok t (Hb t Ht)) as [r ->]. cbn [result_bind].
      destruct (Hfirst E) as [t2 Ht2]. rewrite Ht2. cbn [deref result_bind].
      destruct (tracker_max_fed t2 (Hm t2 Ht2)) as [a ->].
      destruct (tracker_min_fed t2 (Hm t2 Ht2)) as [b ->].
      destruct (leg_direction leg <? 0); simpl; eauto.
    + destruct (anchorThresholdValid_ anchor); cbn [negb]; [|eauto].
      destruct (leg_direction leg <? 0); eauto.
Qed.

Lemma conditionHolds_ok m index mid :
  legs_ok (legs_ m) -> legs_fed (legs_ m) -> (index < length (legs_ m))%nat ->
  exists b, conditionHolds m index mid = Ok b.
Proof.
  intros Hok Hfed Hi. unfold conditionHolds.
  destruct (lookup_lt_is_Some_2 _ _ Hi) as [leg Hl]. rewrite Hl. cbn [deref result_bind].
  unfold legs_fed in Hfed. rewrite Forall_forall in Hfed.
  destruct (Hfed leg (list_elem_of_lookup_2 _ _ _ Hl)) as [H1 H2].
  apply leg_condition_ok; auto.
Qed.

(** The machine's own bookkeeping, apart from its legs' trackers. *)
Definition pace (m : ChainMatcher) : nat :=
  (occurrences (stats_ m) * length (legs_ m) + active_ m)%nat.

(** What an advance of the machine preserves and how far it can get. *)
Definition advanced (m m' : ChainMatcher) : Prop :=
  accounts m' /\ legs_ok (legs_ m') /\ length (legs_ m') = length (legs_ m) /\
  maxSamples_ m' = maxSamples_ m /\ (pace m' <= pace m + 1)%nat.

Lemma recordAttempt_fields m c ts :
  let s := stats_ m in
  let s' := stats_ (recordAttempt m c ts) in
  legs_ (recordAttempt m c ts) = legs_ m /\ active_ (recordAttempt m c ts) = active_ m /\
  maxSamples_ (recordAttempt m c ts) = maxSamples_ m /\
  occurrences s' = occurrences s /\ attempts s' = attempts s /\
  failuresByLeg s' = failuresByLeg s /\ spreadAtTriggerCount s' = spreadAtTriggerCount s /\
  (if c then
     failedExcursions s' = failedExcursions s /\
     length (completedExcursions s') =
       (if (maxSamples_ m <=? length (completedExcursions s))%nat
        then length (completedExcursions s) else S (length (completedExcursions s))) /\
     (length (completionSeconds s) = length (completedExcursions s) ->
      length (completionSeconds s') = length (completedExcursions s')) /\
     samplesTruncated s' =
       samplesTruncated s || (maxSamples_ m <=? length (completedExcursions s))%nat
   else
     completedExcursions s' = completedExcursions s /\
     completionSeconds s' = completionSeconds s /\
     length (failedExcursions s') =
       (if (maxSamples_ m <=? length (failedExcursions s))%nat
        then length (failedExcursions s) else S (length (failedExcursions s))) /\
     samplesTruncated s' =
       samplesTruncated s || (maxSamples_ m <=? length (failedExcursions s))%nat).
Proof.
  intros s s'. unfold s', recordAttempt. destruct c; fold s;
    (destruct (maxSamples_ m <=? _)%nat; cbn; rewrite ?length_app, ?orb_true_r, ?orb_false_r;
     cbn [length]; split_and!; auto; try lia).
Qed.

Lemma fail_attempt_accounts m ts :
  accounts m -> (0 < active_ m)%nat ->
  accounts (fail_attempt m ts) /\ active_ (fail_attempt m ts) = 0%nat /\
  legs_ (fail_attempt m ts) = legs_ m /\ maxSamples_ (fail_attempt m ts) = maxSamples_ m /\
  occurrences (stats_ (fail_attempt m ts)) = occurrences (stats_ m).
Proof.
  intros [A1 A2 A3 A4 A5 A6 A7 A8 A9] Hact.
  destruct (recordAttempt_fields m false ts) as (F1 & F2 & F3 & F4 & F5 & F6 & F7 & F8 & F9 & F10 & F11).
  destruct (lookup_lt_is_Some_2 (failuresByLeg (stats_ m)) (active_ m)) as [v Hv]; [lia|].
  assert (total_failures (stats_ (fail_attempt m ts)) = S (total_failures (stats_ m))) as Ht.
  { unfold total_failures, fail_attempt. cbn [stats_ failuresByLeg]. rewrite F2, F6.
    now apply (total_alter _ _ v). }
  split; [|unfold fail_attempt; cbn; auto].
  split; rewrite ?Ht; unfold fail_attempt;
    cbn [active_ legs_ stats_ maxSamples_ failuresByLeg attempts occurrences spreadAtTriggerCount
         completedExcursions failedExcursions completionSeconds samplesTruncated];
    rewrite ?F1, ?F2, ?F3, ?F4, ?F5, ?F6, ?F7, ?F8, ?F9, ?F10, ?F11; auto.
  - lia.
  - now rewrite length_alter.
  - rewrite list_lookup_alter_ne by lia. exact A3.
  - rewrite A4. rewrite (proj2 (Nat.eqb_neq _ _)) by lia. simpl. lia.
  - rewrite A8. destruct (Nat.leb_spec (maxSamples_ m) (Nat.min (maxSamples_ m) (total_failures (stats_ m)))); lia.
  - rewrite A9, A8. destruct (Nat.ltb_spec (maxSamples_ m) (occurrences (stats_ m))),
      (Nat.ltb_spec (maxSamples_ m) (total_failures (stats_ m))),
      (Nat.leb_spec (maxSamples_ m) (Nat.min (maxSamples_ m) (total_failures (stats_ m)))),
      (Nat.ltb_spec (maxSamples_ m) (S (total_failures (stats_ m)))); simpl; (done || lia).
Qed.

(** Between the two halves of [completeActiveLeg] the attempt in flight is
    already counted. *)
Definition in_flight (m : ChainMatcher) : Prop :=
  (active_ m < length (legs_ m))%nat /\
  length (failuresByLeg (stats_ m)) = length (legs_ m) /\
  failuresByLeg (stats_ m) !! 0%nat = Some 0%nat /\
  attempts (stats_ m) = (occurrences (stats_ m) + total_failures (stats_ m) + 1)%nat /\
  spreadAtTriggerCount (stats_ m) = attempts (stats_ m) /\
  length (completedExcursions (stats_ m)) = Nat.min (maxSamples_ m) (occurrences (stats_ m)) /\
  length (completionSeconds (stats_ m)) = length (completedExcursions (stats_ m)) /\
  length (failedExcursions (stats_ m)) = Nat.min (maxSamples_ m) (total_failures (stats_ m)) /\
  samplesTruncated (stats_ m) =
    (maxSamples_ m <? occurrences (stats_ m))%nat || (maxSamples_ m <? total_failures (stats_ m))%nat.

Lemma begin_in_flight m mid spread ts :
  accounts m ->
  let m' := if (active_ m =? 0)%nat then begin_attempt m mid spread ts else m in
  in_flight m' /\ legs_ m' = legs_ m /\ active_ m' = active_ m /\
  maxSamples_ m' = maxSamples_ m /\ occurrences (stats_ m') = occurrences (stats_ m).
Proof.
  intros [A1 A2 A3 A4 A5 A6 A7 A8 A9] m'. unfold m'.
  destruct (Nat.eqb_spec (active_ m) 0) as [E|E].
  - split; [|auto]. unfold in_flight, begin_attempt, total_failures. cbn. split_and!; auto.
    unfold total_failures in A4. lia.
  - split; [|auto]. unfold in_flight. split_and!; auto.
Qed.

(** A finished chain. *)
Lemma complete_accounts m ts :
  in_flight m -> (active_ m + 1 = length (legs_ m))%nat -> legs_ok (legs_ m) ->
  advanced m (resetAfterMatch (recordAttempt (count_occurrence m) true ts)).
Proof.
  intros (A1 & A2 & A3 & A4 & A5 & A6 & A7 & A8 & A9) Hlast Hok.
  destruct (recordAttempt_fields (count_occurrence m) true ts)
    as (F1 & F2 & F3 & F4 & F5 & F6 & F7 & F8 & F9 & F10 & F11).
  change (stats_ (count_occurrence m)) with
    (mkMatchStats (S (occurrences (stats_ m))) (attempts (stats_ m)) (failuresByLeg (stats_ m))
      (completedExcursions (stats_ m)) (failedExcursions (stats_ m)) (completionSeconds (stats_ m))
      (spreadAtTriggerSum (stats_ m)) (spreadAtTriggerCount (stats_ m)) (samplesTruncated (stats_ m)))
    in *.
  cbn [occurrences attempts failuresByLeg completedExcursions failedExcursions completionSeconds
       spreadAtTriggerCount samplesTruncated legs_ active_ maxSamples_ count_occurrence set_stats] in *.
  set (r := recordAttempt (count_occurrence m) true ts) in *.
  assert (total_failures (stats_ r) = total_failures (stats_ m)) as Ht
    by (unfold total_failures; now rewrite F6).
  unfold advanced, pace, resetAfterMatch. cbn [legs_ stats_ active_ maxSamples_].
  rewrite !length_map, F1, F3, F4. split_and!;
    [|apply legs_ok_map; [intros leg; cbn; rewrite !fmap_is_Some; auto|done]|done|done|nia].
  split; cbn [active_ legs_ stats_ maxSamples_]; rewrite ?length_map, ?Ht, ?F1, ?F3, ?F4, ?F5, ?F6,
    ?F7, ?F8, ?F9, ?F11; auto; [lia|simpl; lia|..].
  - rewrite A6. destruct (Nat.leb_spec (maxSamples_ m) (Nat.min (maxSamples_ m) (occurrences (stats_ m)))); lia.
  - rewrite F10, F9; auto.
  - rewrite A9, A6. destruct (Nat.ltb_spec (maxSamples_ m) (occurrences (stats_ m))),
      (Nat.ltb_spec (maxSamples_ m) (total_failures (stats_ m))),
      (Nat.leb_spec (maxSamples_ m) (Nat.min (maxSamples_ m) (occurrences (stats_ m)))),
      (Nat.ltb_spec (maxSamples_ m) (S (occurrences (stats_ m)))); simpl; (done || lia).
Qed.

Lemma next_anchor_ok m index leg mid ts :
  legs_ok (legs_ m) -> legs_fed (legs_ m) -> legs_ m !! index = Some leg ->
  exists a, next_anchor m leg mid ts = Ok a.
Proof.
  intros Hok Hfed Hl. unfold next_anchor. specialize (Hok index leg Hl). unfold leg_ok in Hok.
  unfold legs_fed in Hfed. rewrite Forall_forall in Hfed.
  destruct (Hfed leg (list_elem_of_lookup_2 _ _ _ Hl)) as [_ Hb].
  destruct (leg_type leg); eauto. destruct Hok as [[t Ht] _]. rewrite Ht. cbn [deref result_bind].
  destruct (covered t); [|eauto]. destruct (basis_range_ok t (Hb t Ht)) as [r ->]. simpl. eauto.
Qed.

Lemma completeActiveLeg_ok m mid spread ts :
  accounts m -> legs_ok (legs_ m) -> legs_fed (legs_ m) ->
  exists m', completeActiveLeg m mid spread ts = Ok m' /\ advanced m m'.
Proof.
  intros Hacc Hok Hfed. unfold completeActiveLeg.
  pose proof (begin_in_flight m mid spread ts Hacc) as Hb. cbv zeta in Hb.
  set (m0 := if (active_ m =? 0)%nat then _ else m) in *.
  destruct Hb as (Hfl & E1 & E2 & E3 & E4).
  assert (forall m', advanced m0 m' -> advanced m m') as Htrans.
  { unfold advanced, pace. rewrite E1, E2, E3, E4. auto. }
  rewrite <- E1 in Hok, Hfed.
  destruct (Nat.eqb_spec (active_ m0 + 1) (length (legs_ m0))) as [Hlast|Hmore].
  { eexists. split; [reflexivity|]. apply Htrans. now apply complete_accounts. }
  destruct (lookup_lt_is_Some_2 (legs_ m0) (active_ m0 + 1)) as [next Hn]; [destruct Hfl; lia|].
  rewrite Hn. cbn [deref result_bind].
  destruct (next_anchor_ok m0 _ next mid ts Hok Hfed Hn) as [a Ea]. rewrite Ea. cbn [result_bind].
  eexists. split; [reflexivity|]. apply Htrans.
  destruct Hfl as (A1 & A2 & A3 & A4 & A5 & A6 & A7 & A8 & A9).
  unfold advanced, pace. cbn [legs_ stats_ active_ maxSamples_].
  split_and!; try done; [|lia].
  split; cbn [legs_ stats_ active_ maxSamples_]; auto; [lia|].
  rewrite (proj2 (Nat.eqb_neq _ _)) by lia. exact A4.
Qed.

Lemma scan_first_ok m mid spread ts :
  accounts m -> legs_ok (legs_ m) -> legs_fed (legs_ m) ->
  exists m', scan_first m mid spread ts = Ok m' /\ advanced m m'.
Proof.
  intros Hacc Hok Hfed. unfold scan_first.
  destruct (conditionHolds_ok m 0 mid Hok Hfed) as [b Eb]; [destruct Hacc; lia|].
  rewrite Eb. cbn [result_bind]. destruct b; [now apply completeActiveLeg_ok|].
  exists m. split; [done|]. unfold advanced. split_and!; auto; lia.
Qed.

Lemma extend_accounts m mid : accounts m -> accounts (extend_attempt m mid).
Proof. intros [A1 A2 A3 A4 A5 A6 A7 A8 A9]. split; assumption. Qed.

Lemma onTick_ok m mid spread ts :
  accounts m -> legs_ok (legs_ m) -> exists m', onTick m mid spread ts = Ok m' /\ advanced m m'.
Proof.
  intros Hacc Hok. unfold onTick.
  set (m0 := mkChainMatcher _ _ _ _ _ _).
  assert (accounts m0) as Hacc0.
  { destruct Hacc as [A1 A2 A3 A4 A5 A6 A7 A8 A9].
    split; cbn [m0 legs_ stats_ active_ maxSamples_]; rewrite ?length_map; auto. }
  assert (legs_ok (legs_ m0)) as Hok0 by now apply legs_ok_feed.
  assert (legs_fed (legs_ m0)) as Hfed0 by apply legs_fed_feed.
  assert (forall m', advanced m0 m' -> advanced m m') as Htrans.
  { unfold advanced, pace. cbn [m0 legs_ stats_ active_ maxSamples_]. now rewrite length_map. }
  clearbody m0.
  destruct (Nat.ltb_spec 0 (active_ m0)) as [Hact|Hidle].
  2: { destruct (scan_first_ok m0 mid spread ts) as (m' & E & Hm'); auto. exists m'. auto. }
  apply (extend_accounts m0 mid) in Hacc0 as Hacc1.
  destruct (lookup_lt_is_Some_2 (legs_ (extend_attempt m0 mid)) (active_ (extend_attempt m0 mid)))
    as [leg Hl]; [apply Hacc1|].
  rewrite Hl. cbn [deref result_bind].
  destruct (leg_window leg <? _).
  - destruct (fail_attempt_accounts (extend_attempt m0 mid) ts Hacc1 Hact)
      as (B1 & B2 & B3 & B4 & B5).
    destruct (scan_first_ok (fail_attempt (extend_attempt m0 mid) ts) mid spread ts)
      as (m' & E & Hm'); [done|now rewrite B3|now rewrite B3|].
    exists m'. split; [done|]. apply Htrans. unfold advanced, pace in *.
    rewrite B2, B3, B4, B5 in Hm'. cbn [legs_ stats_ active_ maxSamples_ extend_attempt] in *.
    intuition lia.
  - destruct (conditionHolds_ok (extend_attempt m0 mid) (active_ (extend_attempt m0 mid)) mid)
      as [b Eb]; [exact Hok0|exact Hfed0|apply Hacc1|].
    rewrite Eb. cbn [result_bind]. destruct b.
    + destruct (completeActiveLeg_ok (extend_attempt m0 mid) mid spread ts) as (m' & E & Hm');
        [exact Hacc1|exact Hok0|exact Hfed0|]. exists m'. split; [exact E|apply Htrans, Hm'].
    + eexists. split; [reflexivity|]. apply Htrans. unfold advanced, pace.
      cbn [legs_ stats_ active_ maxSamples_ extend_attempt].
      split_and!; [exact Hacc1|exact Hok0|done|done|lia].
Qed.

Lemma positive_inv v u : positive v = Ok u -> 1 <= v.
Proof. unfold positive. destruct (Z.ltb_spec v 1); [done|]. auto. Qed.

(** Every leg the constructor accepts owns the trackers its condition reads. *)
Lemma makeLeg_ok activity index leg : makeLeg activity index = Ok leg -> leg_ok index leg.
Proof.
  unfold makeLeg, leg_ok.
  assert (forall (A : Type) (x : A), index = 0%nat ->
    is_Some (if (index =? 0)%nat then Some x else None)) as Hfirst by (intros A x ->; simpl; eauto).
  destruct (TYPE activity).
  all: repeat (let x := fresh in
    match goal with
    | |- context [if ?b then Throw _ else _] => destruct b; [done|]
    | |- context [result_bind ?m _] => destruct m as [x|]; cbn [result_bind]; [|done]
    end).
  all: intros [= <-]; cbn [leg_type moveTracker basisTracker]; eauto.
Qed.

Lemma makeLegs_ok chain : forall index legs,
  makeLegs chain index = Ok legs ->
  length legs = length chain /\
  forall i leg, legs !! i = Some leg -> leg_ok (index + i) leg.
Proof.
  induction chain as [|a chain IH]; intros index legs E; cbn [makeLegs] in E.
  { injection E as <-. done. }
  destruct (makeLeg a index) as [leg|] eqn:El; [|done]. cbn [result_bind] in E.
  destruct (makeLegs chain (S index)) as [rest|] eqn:Er; [|done]. injection E as <-.
  destruct (IH _ _ Er) as [Hlen Hok]. split; [simpl; lia|].
  intros [|i] l Hl; simpl in Hl.
  - injection Hl as <-. rewrite Nat.add_0_r. eapply makeLeg_ok, El.
  - replace (index + S i)%nat with (S index + i)%nat by lia. auto.
Qed.

Lemma makeMatcher_ok config cap m :
  makeMatcher config cap = Ok m ->
  accounts m /\ legs_ok (legs_ m) /\ length (legs_ m) = length (CHAIN config) /\
  maxSamples_ m = cap /\ occurrences (stats_ m) = 0%nat /\ active_ m = 0%nat.
Proof.
  unfold makeMatcher. destruct (CHAIN config) as [|a chain] eqn:Ec; [done|].
  destruct (makeLegs (a :: chain) 0) as [legs|] eqn:El; [|done]. intros [= <-].
  destruct (makeLegs_ok _ _ _ El) as [Hlen Hok]. cbn [legs_ maxSamples_ stats_].
  split_and!; auto.
  assert (total_failures (newStats (length legs)) = 0%nat) as Ht.
  { unfold total_failures, newStats. cbn [failuresByLeg]. generalize (length legs) as n.
    induction n; simpl; auto. }
  split; cbn [active_ legs_ stats_ maxSamples_ newStats failuresByLeg attempts occurrences
    spreadAtTriggerCount completedExcursions completionSeconds failedExcursions samplesTruncated];
    rewrite ?Ht; auto; try (simpl in Hlen; simpl; lia).
  - now rewrite length_replicate.
  - rewrite Hlen. reflexivity.
Qed.

Lemma feed_matcher_ok ticks : forall m,
  accounts m -> legs_ok (legs_ m) ->
  exists m', feed_matcher m ticks = Ok m' /\ accounts m' /\
    length (legs_ m') = length (legs_ m) /\ maxSamples_ m' = maxSamples_ m /\
    (pace m' <= pace m + length ticks)%nat.
Proof.
  induction ticks as [|t ticks IH]; intros m Hacc Hok; cbn [feed_matcher].
  { exists m. split_and!; auto. simpl. lia. }
  destruct (onTick_ok m (mt_mid t) (mt_spread t) (mt_ts t) Hacc Hok)
    as (m1 & E & H1 & H2 & H3 & H4 & H5). rewrite E. cbn [result_bind].
  destruct (IH m1 H1 H2) as (m2 & E2 & G1 & G2 & G3 & G4).
  exists m2. split_and!; auto; try congruence. simpl. lia.
Qed.

(** C26: the matcher's books balance and it never telescopes.  Every chain the
    constructor accepts runs over any tick stream, in or out of time order,
    without an unchecked read ever missing.  After it: every attempt is an
    occurrence, a failure or the one in flight; leg 1 never fails; the spread is
    sampled once per attempt; samples are kept exactly up to the cap, the
    durations in step with the completed ones, and the truncation flag says
    whether one was dropped; a one-leg chain's attempts are its occurrences; and a
    chain of [n] legs takes at least [n] ticks each time, so
    [n x occurrences + legs passed] never exceeds the ticks fed. *)
Theorem matcher_accounting (config : ExperimentConfig) (cap : nat) (m0 : ChainMatcher)
    (ticks : list MidTick) (Hmake : makeMatcher config cap = Ok m0) :
  exists m, feed_matcher m0 ticks = Ok m /\
    let s := stats_ m in
    let n := length (CHAIN config) in
    attempts s = (occurrences s + total_failures s + if (active_ m =? 0)%nat then 0 else 1)%nat /\
    failuresByLeg s !! 0%nat = Some 0%nat /\ length (failuresByLeg s) = n /\
    spreadAtTriggerCount s = attempts s /\
    length (completedExcursions s) = Nat.min cap (occurrences s) /\
    length (completionSeconds s) = length (completedExcursions s) /\
    length (failedExcursions s) = Nat.min cap (total_failures s) /\
    samplesTruncated s = (cap <? occurrences s)%nat || (cap <? total_failures s)%nat /\
    (n = 1%nat -> attempts s = occurrences s) /\
    (occurrences s * n + active_ m <= length ticks)%nat.
Proof.
  destruct (makeMatcher_ok config cap m0 Hmake) as (Hacc & Hok & Hlen & Hcap & Hocc & Hact).
  destruct (feed_matcher_ok ticks m0 Hacc Hok) as (m & E & [A1 A2 A3 A4 A5 A6 A7 A8 A9] & Hl & Hc & Hp).
  exists m. split; [done|]. cbv zeta. rewrite Hlen in Hl. rewrite Hcap in Hc. rewrite <- Hc.
  unfold pace in Hp. rewrite Hocc, Hact, Hl in Hp.
  split_and!; auto; try congruence; try lia. intros Hn. rewrite Hl, Hn in A1, A2.
  rewrite A4. destruct (Nat.eqb_spec (active_ m) 0); [|lia].
  unfold total_failures. destruct (failuresByLeg (stats_ m)) as [|x [|y l]]; simpl in A2; try lia.
  simpl in A3. injection A3 as ->. simpl. lia.
Qed.

(** The ticks a rolling leg can measure from: those at most [window] old. *)
Definition reachable (window : Z) (ticks : list Entry) (e x : Entry) : Prop :=
  x ∈ ticks ++ [e] /\ ts e <= ts x + window.

(** A move of [pct] millionths of a percent between two mids, as the exact
    integer comparison behind the percentage. *)
Definition dropped (pct from to : Z) : Prop := from * pct <= (from - to) * 100000000.
Definition rose (pct from to : Z) : Prop := from * pct <= (to - from) * 100000000.

Lemma pct_reached_exact moved base pct :
  -8388608 <= moved <= 8388608 -> 0 <= base < 8388608 -> 0 <= pct <= 1000000000000 ->
  pct_reached moved base pct = true <-> base * pct <= moved * 100000000.
Proof.
  intros Hm Hb Hp. unfold pct_reached.
  rewrite !i64_id by (unfold in_i64; nia). apply Z.leb_le.
Qed.

Lemma reachable_window window ticks e x :
  0 <= window -> reachable window ticks e x <-> x ∈ in_window ts window (ts e) (ticks ++ [e]).
Proof.
  intros Hw. unfold reachable, in_window, alive. rewrite list_elem_of_In, list_elem_of_In,
    List.filter_In, Z.leb_le. reflexivity.
Qed.

(** The first leg of a percentage move is a touch within the window.  On any
    time-ordered stream of in-range mids, the rolling test of a falling
    (rising) leg, computed from the tracked maximum (minimum) alone, holds
    exactly when some tick at most [WINDOW_SECONDS] old, the current one included, is
    far enough above (below) the current mid; the percentage comparison is exact,
    for falls up to 100 percent and rises up to 10,000 percent. *)
Theorem rolling_move_touches (leg : LegRuntime) (anchor : Anchor) (ticks : list Entry) (e : Entry)
    (Htype : leg_type leg = DirectionalMove) (Hwin : 0 <= leg_window leg)
    (Htracker : moveTracker leg = Some (feed_all (newTracker (leg_window leg)) (ticks ++ [e])))
    (Hs : time_sorted (ticks ++ [e])) (Hprices : Forall (fun x => price_ok (price x)) (ticks ++ [e]))
    (Hpct : 0 <= pctScaled leg <= (if negativeMove leg then 100000000 else 10000000000)) :
  exists b, leg_condition leg true anchor (price e) = Ok b /\
    (b = true <-> exists x, reachable (leg_window leg) ticks e x /\
       (if negativeMove leg then dropped (pctScaled leg) (price x) (price e)
        else rose (pctScaled leg) (price x) (price e))).
Proof.
  destruct (tracks_feed_all (newTracker (leg_window leg)) (ticks ++ [e]) Hwin
    eq_refl eq_refl eq_refl eq_refl Hs) as [(H1 & H2 & _) Hw].
  rewrite last_snoc in H1, H2. cbn [fmap option_fmap option_map default from_option id] in H1, H2.
  set (t := feed_all _ _) in *. cbn [window_ newTracker] in Hw. rewrite Hw in H1, H2.
  set (w := in_window ts (leg_window leg) (ts e) (ticks ++ [e])) in *.
  assert (e ∈ w) as Hew.
  { apply reachable_window; [done|]. split; [set_solver|lia]. }
  assert (forall x, x ∈ w -> price_ok (price x)) as Hpw.
  { intros x Hx. apply reachable_window in Hx as [Hx _]; [|done].
    rewrite Forall_forall in Hprices. auto. }
  assert (forall x, x ∈ w -> price x ∈ map price w) as Hmap.
  { intros x Hx. apply list_elem_of_In, in_map, list_elem_of_In, Hx. }
  assert (map price w <> []) as Hne by (destruct w; [set_solver|done]).
  assert (tracker_max t = Some (max_of (map price w)) /\ tracker_min t = Some (min_of (map price w)))
    as [M1 M2].
  { unfold tracker_max, tracker_min. rewrite H1, H2, front_price_max, front_price_min.
    destruct w; [set_solver|done]. }
  assert (exists x, x ∈ w /\ price x = max_of (map price w)) as (xm & Hxm & Exm).
  { pose proof (max_of_in _ Hne) as H. apply list_elem_of_In, in_map_iff in H as (x & E & Hx).
    exists x. split; [now apply list_elem_of_In|done]. }
  assert (exists x, x ∈ w /\ price x = min_of (map price w)) as (xn & Hxn & Exn).
  { pose proof (min_of_in _ Hne) as H. apply list_elem_of_In, in_map_iff in H as (x & E & Hx).
    exists x. split; [now apply list_elem_of_In|done]. }
  pose proof (Hpw e Hew) as He. pose proof (Hpw xm Hxm) as Hm. pose proof (Hpw xn Hxn) as Hn.
  assert (hasData t = true) as Hd.
  { unfold tracker_max, front_price in M1. unfold hasData. now destruct (maxDeque_ t). }
  unfold leg_condition. rewrite Htype, Htracker. cbn [deref result_bind]. rewrite Hd. cbn [negb].
  rewrite M1, M2. cbn [deref result_bind]. rewrite <- Exm, <- Exn. unfold price_ok in *.
  destruct (negativeMove leg); eexists; (split; [reflexivity|]);
    rewrite i64_id by ilia; rewrite pct_reached_exact by lia; unfold dropped, rose; split.
  - intros H. exists xm. split; [now apply reachable_window|exact H].
  - intros (x & Hx & H). apply reachable_window in Hx; [|done]. pose proof (Hpw x Hx).
    pose proof (max_of_upper _ _ (Hmap x Hx)) as Hle. rewrite <- Exm in Hle. nia.
  - intros H. exists xn. split; [now apply reachable_window|exact H].
  - intros (x & Hx & H). apply reachable_window in Hx; [|done]. pose proof (Hpw x Hx).
    pose proof (min_of_lower _ _ (Hmap x Hx)) as Hle. rewrite <- Exn in Hle. nia.
Qed.

(** ** Witnesses: a one percent drop in ten seconds, then half a percent back *)

Definition dip_recovery : ExperimentConfig :=
  mkExperimentConfig "u" "dipRecovery"
    [mkActivity DirectionalMove (dbl_of_Z (-1)) 10 0 0 dbl_zero;
     mkActivity DirectionalMove (dbl_decimal 5 1) 10 0 0 dbl_zero].

Lemma matcher_accounting_witness :
  exists m0 m, makeMatcher dip_recovery 100 = Ok m0 /\
    feed_matcher m0 [mkMidTick 10000 2 0; mkMidTick 9899 2 (seconds 3);
                     mkMidTick 9950 2 (seconds 8); mkMidTick 9000 2 (seconds 9)] = Ok m /\
    occurrences (stats_ m) = 1%nat /\ attempts (stats_ m) = 1%nat.
Proof.
  destruct (makeMatcher dip_recovery 100) as [m0|] eqn:E; [|vm_compute in E; discriminate].
  destruct (matcher_accounting dip_recovery 100 m0
    [mkMidTick 10000 2 0; mkMidTick 9899 2 (seconds 3);
     mkMidTick 9950 2 (seconds 8); mkMidTick 9000 2 (seconds 9)] E)
    as (m & Em & Ha & _).
  exists m0, m. split; [reflexivity|]. split; [exact Em|].
  vm_compute in E. injection E as <-. vm_compute in Em. injection Em as <-.
  split; vm_compute; reflexivity.
Defined.

Lemma rolling_move_touches_witness :
  exists b, leg_condition
    (mkLegRuntime DirectionalMove 10 1000000 true 0 0
       (Some (feed_all (newTracker 10) ([mkEntry 0 10000] ++ [mkEntry 3 9899]))) None)
    true (mkAnchor 0 0 0 false) 9899 = Ok b /\ b = true.
Proof.
  destruct (rolling_move_touches
    (mkLegRuntime DirectionalMove 10 1000000 true 0 0
       (Some (feed_all (newTracker 10) ([mkEntry 0 10000] ++ [mkEntry 3 9899]))) None)
    (mkAnchor 0 0 0 false) [mkEntry 0 10000] (mkEntry 3 9899)) as (b & E & Hb);
    [reflexivity|simpl; lia|reflexivity|repeat constructor; simpl; lia|
     repeat constructor; simpl; lia|simpl; lia|].
  exists b. split; [exact E|]. apply Hb. exists (mkEntry 0 10000).
  split; [split; [set_solver|simpl; lia]|]. simpl. unfold dropped. lia.
Defined.
