(* ===== verification/ExperimentJson.v ===== *)
(** The JSON forms of the experiment records
    ([shared/experiments/experimentConfig.hpp], [experimentRunConfiguration.hpp])
    and their payload parsers. *)
From S2P Require Import Prelude Double Json JsonFloat JsonDump JsonParse JsonRoundTrip Base64 StdText ConfigJson.
From S2P Require Import ChainMatcher.

Definition toString (type : ActivityType) : string :=
  match type with
  | DirectionalMove => "DirectionalMove"
  | StaysInBand => "StaysInBand"
  | NewExtreme => "NewExtreme"
  | RangeRelativeMove => "RangeRelativeMove"
  end.

Definition activityTypeFromString (name : string) : result ActivityType :=
  if String.eqb name "DirectionalMove" then Ok DirectionalMove
  else if String.eqb name "StaysInBand" then Ok StaysInBand
  else if String.eqb name "NewExtreme" then Ok NewExtreme
  else if String.eqb name "RangeRelativeMove" then Ok RangeRelativeMove
  else Throw InvalidArgument.

Definition Activity_to_json (a : Activity) : json :=
  json_object
    [("TYPE", JString (toString (TYPE a)));
     ("MOVE_PERCENT", JFloat (MOVE_PERCENT a));
     ("WINDOW_SECONDS", JInteger (WINDOW_SECONDS a));
     ("LOOKBACK_SECONDS", JInteger (LOOKBACK_SECONDS a));
     ("DIRECTION", JInteger (DIRECTION a));
     ("ATR_MULTIPLE", JFloat (ATR_MULTIPLE a))].

(** Only the type is required. *)
Definition Activity_from_json (j : json) : result Activity :=
  name <~ from_strict get_string "TYPE" j ;
  type <~ activityTypeFromString name ;
  move <~ json_value get_double "MOVE_PERCENT" dbl_zero j ;
  window <~ json_value get_int "WINDOW_SECONDS" 0 j ;
  lookback <~ json_value get_int "LOOKBACK_SECONDS" 0 j ;
  direction <~ json_value get_int "DIRECTION" 0 j ;
  atr <~ json_value get_double "ATR_MULTIPLE" dbl_zero j ;
  Ok (mkActivity type move window lookback direction atr).

(** A finite double whose printed digits read back. *)
Definition double_ok (d : double) : Prop := dbl_isfinite d = true /\ float_round_trips d = true.

Lemma get_double_canon d : double_ok d -> get_double (canon (JFloat d)) = Ok d.
Proof. intros [Hf _]. cbn [canon]. now rewrite Hf. Qed.

Lemma json_ok_double d : double_ok d -> json_ok (JFloat d) = true.
Proof. intros [_ Hr]. cbn [json_ok]. now rewrite Hr, orb_true_r. Qed.

(** The names are distinct: reading a printed type gives it back. *)
Lemma activityType_round_trip type : activityTypeFromString (toString type) = Ok type.
Proof. now destruct type. Qed.

#[export, program] Instance Activity_codec : JsonCodec Activity := {|
  to_json := Activity_to_json;
  from_json := Activity_from_json;
  codec_ok a :=
    double_ok (MOVE_PERCENT a) /\ in_i32 (WINDOW_SECONDS a) /\ in_i32 (LOOKBACK_SECONDS a) /\
    in_i32 (DIRECTION a) /\ double_ok (ATR_MULTIPLE a);
  codec_object _ := eq_refl;
|}.
Next Obligation.
  intros a (? & ? & ? & ? & ?). unfold Activity_to_json.
  pairs_ok; try now apply json_ok_double. destruct (TYPE a); vm_compute; reflexivity.
Qed.
Next Obligation.
  intros a (? & ? & ? & ? & ?). unfold Activity_from_json, Activity_to_json.
  rewrite from_strict_object, !json_value_object. cbn [assoc String.eqb Ascii.eqb Bool.eqb].
  rewrite !get_int_canon, !get_double_canon by done. cbn [canon get_string result_bind].
  rewrite activityType_round_trip. now destruct a.
Qed.

Definition ExperimentConfig_to_json (c : ExperimentConfig) : json :=
  json_object
    [("UUID", JString (UUID c));
     ("NAME", JString (NAME c));
     ("CHAIN", JArray (list_to_json to_json (CHAIN c)))].

Definition ExperimentConfig_from_json (j : json) : result ExperimentConfig :=
  uuid <~ from_strict get_string "UUID" j ;
  chain <~ from_strict (get_vector from_json) "CHAIN" j ;
  name <~ json_value get_string "NAME" EmptyString j ;
  Ok (mkExperimentConfig uuid name chain).

#[export, program] Instance ExperimentConfig_codec : JsonCodec ExperimentConfig := {|
  to_json := ExperimentConfig_to_json;
  from_json := ExperimentConfig_from_json;
  codec_ok c := text_ok (UUID c) /\ text_ok (NAME c) /\ Forall codec_ok (CHAIN c);
  codec_object _ := eq_refl;
|}.
Next Obligation.
  intros c (? & ? & ?). unfold ExperimentConfig_to_json. pairs_ok; [done..|now apply vector_json_ok].
Qed.
Next Obligation.
  intros c (? & ? & ?). unfold ExperimentConfig_from_json, ExperimentConfig_to_json.
  rewrite !from_strict_object, json_value_object. cbn [assoc String.eqb Ascii.eqb Bool.eqb].
  rewrite vector_reads by done. now destruct c.
Qed.

(** * Run descriptors *)

Record ExperimentRunConfiguration : Type := mkExperimentRunConfiguration {
  exp_RUN_ID : string;
  exp_SYMBOLS : string;
  exp_BATCH : string;
  exp_EXECUTION_TS : string;
  exp_LAST_MONTHS : Z;
  exp_OFFSET_MONTHS : Z;
}.

Definition ExperimentRunConfiguration_to_json (c : ExperimentRunConfiguration) : json :=
  json_object
    [("RUN_ID", JString (exp_RUN_ID c));
     ("SYMBOLS", JString (exp_SYMBOLS c));
     ("BATCH", JString (exp_BATCH c));
     ("EXECUTION_TS", JString (exp_EXECUTION_TS c));
     ("LAST_MONTHS", JInteger (exp_LAST_MONTHS c));
     ("OFFSET_MONTHS", JInteger (exp_OFFSET_MONTHS c))].

Definition ExperimentRunConfiguration_from_json (j : json) : result ExperimentRunConfiguration :=
  run_id <~ from_strict get_string "RUN_ID" j ;
  symbols <~ from_strict get_string "SYMBOLS" j ;
  last_months <~ from_strict get_int "LAST_MONTHS" j ;
  batch <~ json_value get_string "BATCH" EmptyString j ;
  ts <~ json_value get_string "EXECUTION_TS" EmptyString j ;
  offset <~ json_value get_int "OFFSET_MONTHS" 0 j ;
  Ok (mkExperimentRunConfiguration run_id symbols batch ts last_months offset).

#[export, program] Instance ExperimentRunConfiguration_codec :
  JsonCodec ExperimentRunConfiguration := {|
  to_json := ExperimentRunConfiguration_to_json;
  from_json := ExperimentRunConfiguration_from_json;
  codec_ok c :=
    text_ok (exp_RUN_ID c) /\ text_ok (exp_SYMBOLS c) /\ text_ok (exp_BATCH c) /\
    text_ok (exp_EXECUTION_TS c) /\ in_i32 (exp_LAST_MONTHS c) /\ in_i32 (exp_OFFSET_MONTHS c);
  codec_object _ := eq_refl;
|}.
Next Obligation.
  intros c (? & ? & ? & ? & ? & ?). unfold ExperimentRunConfiguration_to_json. now pairs_ok.
Qed.
Next Obligation.
  intros c (? & ? & ? & ? & ? & ?).
  unfold ExperimentRunConfiguration_from_json, ExperimentRunConfiguration_to_json.
  rewrite !from_strict_object, !json_value_object. cbn [assoc String.eqb Ascii.eqb Bool.eqb].
  rewrite !get_int_canon by done. now destruct c.
Qed.

(** * The payload parsers *)

Definition parseExperimentRunFromBase64 (input : string) : result ExperimentRunConfiguration :=
  parseFromBase64 input.

Definition parseExperimentFromBase64 (input : string) : result ExperimentConfig :=
  parseFromBase64 input.

(** An experiment and its run descriptor survive the queue: dumped and
    base64-encoded by the producer, they are decoded, parsed and read back
    unchanged by the analysis worker, percentages and multiples bit for bit. *)
Theorem experiment_payload_round_trip (run : ExperimentRunConfiguration) (c : ExperimentConfig) :
  codec_ok run -> codec_ok c ->
  (exists s, dump (to_json run) = Ok s /\ parseExperimentRunFromBase64 (b64encode s) = Ok run) /\
  (exists s, dump (to_json c) = Ok s /\ parseExperimentFromBase64 (b64encode s) = Ok c).
Proof. intros Hr Hc. split; now apply payload_round_trip. Qed.

(** A chain: a drop of 1.25 percent, then a band 0.1 percent wide. *)
Definition sample_experiment : ExperimentConfig :=
  mkExperimentConfig "e-1" "dipRecovery"
    [mkActivity DirectionalMove (dbl_decimal (-125) 2) 600 0 0 dbl_zero;
     mkActivity StaysInBand (dbl_decimal 1 1) 600 300 0 dbl_zero].

Lemma experiment_payload_round_trip_witness :
  codec_ok sample_experiment /\
  exists s, dump (to_json sample_experiment) = Ok s /\
            parseExperimentFromBase64 (b64encode s) = Ok sample_experiment.
Proof.
  assert (codec_ok sample_experiment) as Hc.
  { split; [vm_compute; reflexivity|]. split; [vm_compute; reflexivity|].
    repeat constructor; vm_compute; first [reflexivity | discriminate]. }
  assert (codec_ok (mkExperimentRunConfiguration "r" "EURUSD" "" "" 9 0)) as Hr.
  { cbn. split_and!; vm_compute; try reflexivity; (split; discriminate). }
  split; [exact Hc|].
  exact (proj2 (experiment_payload_round_trip _ sample_experiment Hr Hc)).
Defined.
