(* ===== verification/Redis.v ===== *)
(** The Redis layer: the server as the engine sees it, the command builders of
    [shared/redis/operations/redisOperations.cpp] and the deadline-bounded
    client of [shared/redis/client/syncRedisClient.cpp/.hpp].

    The server and the Boost.Redis library are not part of the repository: the
    class [RedisServer] is what the engine calls, the class [RedisLaws] the
    documented behaviour of the commands it sends. Times are microseconds of one
    clock, shared by the engine and the server. *)
From Stdlib Require Import ZArith Lia.
From stdpp Require Import base gmap sets list strings.
From S2P Require Import Prelude Json StdText.
Open Scope Z_scope.

(** * The server *)

Inductive value : Type :=
| VString (s : string)
| VList (l : list string)
| VSet (m : gset string).

Inductive reply : Type :=
| RNil
| RText (s : string)
| RInt (z : Z)
| RArray (l : list reply)
| RError (msg : string).

(** What the engine calls: a command, as the list of its arguments, executed at
    an instant. [generic_reply] is what the library makes of a reply the caller
    does not decode; [scan_left] bounds the pages an enumeration still has. *)
Class RedisServer (server : Type) : Type := {
  exec : Z -> list string -> server -> reply * server;
  lookup_at : server -> Z -> string -> option value;
  generic_reply : reply -> result unit;
  scan_left : server -> string -> nat }.

(** ** The documented behaviour of the commands *)

Definition string_reply (v : option value) : reply :=
  match v with
  | None => RNil
  | Some (VString s) => RText s
  | Some _ => RError "WRONGTYPE"
  end.

Section Laws.
Context {server : Type} {R : RedisServer server}.

(** Two servers hold the same values from [now] on. *)
Definition unchanged (now : Z) (s s' : server) : Prop :=
  forall t k, now <= t -> lookup_at s' t k = lookup_at s t k.

(** The key gets a value and an expiry; every other key keeps its own. *)
Definition stored (now : Z) (k : string) (v : value) (expires : option Z) (s s' : server) : Prop :=
  forall t k', now <= t ->
    lookup_at s' t k' =
    if base.decide (k' = k)
    then match expires with Some x => if t <? x then Some v else None | None => Some v end
    else lookup_at s t k'.

(** The key gets a value and keeps the expiry it has, if it exists. *)
Definition rewritten (now : Z) (k : string) (v : value) (s s' : server) : Prop :=
  forall t k', now <= t ->
    lookup_at s' t k' =
    if base.decide (k' = k)
    then match lookup_at s now k, lookup_at s t k with
         | Some _, None => None
         | _, _ => Some v
         end
    else lookup_at s t k'.

Definition removed (now : Z) (k : string) (s s' : server) : Prop :=
  forall t k', now <= t ->
    lookup_at s' t k' = if base.decide (k' = k) then None else lookup_at s t k'.

End Laws.

(** [SET]'s condition. *)
Inductive SetWhen : Type := Always | NotExists | Exists.

Definition set_allowed (when : SetWhen) (current : option value) : bool :=
  match when, current with
  | Always, _ | NotExists, None | Exists, Some _ => true
  | _, _ => false
  end.

Definition px_args (expiry : option Z) : list string :=
  match expiry with Some ms => ["PX"; to_string ms] | None => [] end.
Definition when_args (when : SetWhen) : list string :=
  match when with Always => [] | NotExists => ["NX"] | Exists => ["XX"] end.
(** A positive number of milliseconds, of 64 bits. *)
Definition valid_expiry (expiry : option Z) : Prop :=
  forall ms, expiry = Some ms -> 0 < ms < 2 ^ 63.
Definition expires_at (now : Z) (expiry : option Z) : option Z :=
  match expiry with Some ms => Some (now + 1000 * ms) | None => None end.

Class RedisLaws (server : Type) {R : RedisServer server} : Prop := {
  generic_reply_ok : forall r, (forall m, r <> RError m) -> generic_reply r = Ok tt;
  passive_law : forall s k t t' v,
    t <= t' -> lookup_at s t' k = Some v -> lookup_at s t k = Some v;
  get_law : forall now k s,
    (exec now ["GET"; k] s).1 = string_reply (lookup_at s now k) /\
    unchanged now s (exec now ["GET"; k] s).2;
  mget_law : forall now ks s,
    (exec now ("MGET" :: ks) s).1 =
      RArray (map (fun k => match lookup_at s now k with
                            | Some (VString v) => RText v | _ => RNil end) ks) /\
    unchanged now s (exec now ("MGET" :: ks) s).2;
  set_law : forall now k v expiry when s,
    valid_expiry expiry ->
    let '(r, s') := exec now ("SET" :: k :: v :: px_args expiry ++ when_args when) s in
    if set_allowed when (lookup_at s now k)
    then r = RText "OK" /\ stored now k (VString v) (expires_at now expiry) s s'
    else r = RNil /\ unchanged now s s';
  getdel_law : forall now k s,
    let '(r, s') := exec now ["GETDEL"; k] s in
    r = string_reply (lookup_at s now k) /\
    match lookup_at s now k with
    | Some (VString _) => removed now k s s'
    | _ => unchanged now s s'
    end;
  del_law : forall now k s,
    let '(r, s') := exec now ["DEL"; k] s in
    r = RInt (if lookup_at s now k then 1 else 0) /\ removed now k s s';
  pexpire_law : forall now k ms s, 0 < ms < 2 ^ 63 ->
    let '(r, s') := exec now ["PEXPIRE"; k; to_string ms] s in
    match lookup_at s now k with
    | Some v => r = RInt 1 /\ stored now k v (Some (now + 1000 * ms)) s s'
    | None => r = RInt 0 /\ unchanged now s s'
    end;
  rename_law : forall now src dst s, src <> dst ->
    let '(r, s') := exec now ["RENAME"; src; dst] s in
    match lookup_at s now src with
    | Some _ =>
        r = RText "OK" /\
        forall t k, now <= t ->
          lookup_at s' t k = if base.decide (k = dst) then lookup_at s t src
                             else if base.decide (k = src) then None else lookup_at s t k
    | None => (exists m, r = RError m) /\ unchanged now s s'
    end;
  sadd_law : forall now k v s,
    let '(r, s') := exec now ["SADD"; k; v] s in
    match lookup_at s now k with
    | None => r = RInt 1 /\ rewritten now k (VSet {[v]}) s s'
    | Some (VSet m) =>
        r = RInt (if base.decide (v ∈ m) then 0 else 1) /\ rewritten now k (VSet ({[v]} ∪ m)) s s'
    | Some _ => (exists m, r = RError m) /\ unchanged now s s'
    end;
  smembers_law : forall now k s,
    let '(r, s') := exec now ["SMEMBERS"; k] s in
    unchanged now s s' /\
    match lookup_at s now k with
    | None => r = RArray []
    | Some (VSet m) => exists l, NoDup l /\ (forall x, x ∈ l <-> x ∈ m) /\ r = RArray (map RText l)
    | Some _ => exists m, r = RError m
    end;
  lpush_law : forall now k v s,
    let '(r, s') := exec now ["LPUSH"; k; v] s in
    match lookup_at s now k with
    | None => r = RInt 1 /\ rewritten now k (VList [v]) s s'
    | Some (VList l) => r = RInt (Z.of_nat (S (length l))) /\ rewritten now k (VList (v :: l)) s s'
    | Some _ => (exists m, r = RError m) /\ unchanged now s s'
    end;
  rpop_law : forall now k s,
    let '(r, s') := exec now ["RPOP"; k] s in
    match lookup_at s now k with
    | None => r = RNil /\ unchanged now s s'
    | Some (VList l) =>
        r = match last l with Some v => RText v | None => RNil end /\
        if bool_decide (but_last l = []) then removed now k s s'
        else rewritten now k (VList (but_last l)) s s'
    | Some _ => (exists m, r = RError m) /\ unchanged now s s'
    end;
  lindex_last_law : forall now k s,
    let '(r, s') := exec now ["LINDEX"; k; to_string (-1)] s in
    unchanged now s s' /\
    match lookup_at s now k with
    | None => r = RNil
    | Some (VList l) => r = match last l with Some v => RText v | None => RNil end
    | Some _ => exists m, r = RError m
    end;
  lrem_all_law : forall now k v s,
    let '(r, s') := exec now ["LREM"; k; to_string 0; v] s in
    match lookup_at s now k with
    | None => r = RInt 0 /\ unchanged now s s'
    | Some (VList l) =>
        let rest := base.filter (fun x => x <> v) l in
        (exists n, r = RInt n) /\
        if bool_decide (rest = []) then removed now k s s'
        else rewritten now k (VList rest) s s'
    | Some _ => (exists m, r = RError m) /\ unchanged now s s'
    end;
  scan_law : forall now cursor pattern s,
    let '(r, s') := exec now ["SCAN"; cursor; "MATCH"; pattern; "COUNT"; "250"] s in
    s' = s /\
    ((exists m, r = RError m) \/
     exists cursor' keys,
       r = RArray [RText cursor'; RArray (map RText keys)] /\
       (cursor' = "0" \/ (scan_left s cursor' < scan_left s cursor)%nat)) }.

(** * RedisOperations *)

Section Operations.
Context {server : Type} {R : RedisServer server}.

(** An awaited operation: it executes at an instant and either returns or
    throws. *)
Definition operation (T : Type) : Type := Z -> server -> result T * server.

Definition op_return {T} (x : T) : operation T := fun _ s => (Ok x, s).
Definition op_map {A B} (f : A -> B) (op : operation A) : operation B :=
  fun now s => let '(r, s) := op now s in (x <~ r ; Ok (f x), s).

(** The typed decoding of one reply; anything else makes [value()] throw. *)
Definition decode_optional_string (r : reply) : result (option string) :=
  match r with
  | RNil => Ok None
  | RText t => Ok (Some t)
  | _ => Throw RuntimeError
  end.
Definition decode_long (r : reply) : result Z :=
  match r with RInt z => Ok z | _ => Throw RuntimeError end.
Fixpoint decode_each {T} (decode : reply -> result T) (l : list reply) : result (list T) :=
  match l with
  | [] => Ok []
  | r :: l => x <~ decode r ; xs <~ decode_each decode l ; Ok (x :: xs)
  end.
Definition decode_text (r : reply) : result string :=
  match r with RText t => Ok t | _ => Throw RuntimeError end.
Definition decode_vector {T} (decode : reply -> result T) (r : reply) : result (list T) :=
  match r with RArray l => decode_each decode l | _ => Throw RuntimeError end.

(** A request of one command, decoded. *)
Definition execValue {T} (decode : reply -> result T) (req : list string) : operation T :=
  fun now s => let '(r, s) := exec now req s in (decode r, s).
Definition execOptionalString (req : list string) : operation (option string) :=
  execValue decode_optional_string req.

(** A pipelined request whose replies are not decoded. *)
Fixpoint execIgnore (reqs : list (list string)) : operation unit :=
  fun now s =>
    match reqs with
    | [] => (Ok tt, s)
    | req :: reqs =>
        let '(r, s) := exec now req s in
        let '(rest, s) := execIgnore reqs now s in
        (_ <~ generic_reply r ; rest, s)
    end.

(** ** Strings *)

Definition getString (key : string) : operation (option string) := execOptionalString ["GET"; key].

Definition setString (key value : string) : operation unit := execIgnore [["SET"; key; value]].

(** Redis' SET key value PX ms NX/XX, its flags built at run time. *)
Definition set_args (key value : string) (when : SetWhen) (expiry : option Z) : list string :=
  "SET" :: key :: value :: px_args expiry ++ when_args when.
Definition setStringWhen (key value : string) (when : SetWhen) (expiry : option Z)
    : operation bool :=
  op_map (fun reply => bool_decide (is_Some reply)) (execOptionalString (set_args key value when expiry)).

Definition setIfNotExists (key value : string) (expiry : option Z) : operation bool :=
  setStringWhen key value NotExists expiry.

Definition setMultiple (keyValuePairs : list (string * string)) : operation unit :=
  match keyValuePairs with
  | [] => op_return tt
  | _ => execIgnore ["MSET" :: flat_map (fun '(k, v) => [k; v]) keyValuePairs]
  end.

Definition setMultipleWithTTL (keyValuePairs : list (string * string)) (ttl : Z) : operation unit :=
  match keyValuePairs with
  | [] => op_return tt
  | _ => execIgnore (map (fun '(k, v) => ["SET"; k; v; "PX"; to_string ttl]) keyValuePairs)
  end.

Definition getDelete (key : string) : operation (option string) := execOptionalString ["GETDEL"; key].

(** The values zipped back onto their keys; a map's [emplace] keeps the first. *)
Fixpoint zip_values (keys : list string) (values : list (option string))
    (acc : gmap string string) : gmap string string :=
  match keys, values with
  | k :: keys, v :: values =>
      zip_values keys values
        match v, acc !! k with Some x, None => <[k := x]> acc | _, _ => acc end
  | _, _ => acc
  end.
Definition getMultiple (keys : list string) : operation (gmap string string) :=
  match keys with
  | [] => op_return ∅
  | _ => op_map (fun values => zip_values keys values ∅)
           (execValue (decode_vector decode_optional_string) ("MGET" :: keys))
  end.

(** ** Keys and expiry *)

Definition deleteKey (key : string) : operation bool :=
  op_map (fun n => 0 <? n) (execValue decode_long ["DEL"; key]).
Definition deleteKeys (keys : list string) : operation Z :=
  match keys with
  | [] => op_return 0
  | _ => execValue decode_long ("DEL" :: keys)
  end.
Definition setTTL (key : string) (ttl : Z) : operation bool :=
  op_map (fun n => negb (n =? 0)) (execValue decode_long ["PEXPIRE"; key; to_string ttl]).
Definition keyExpire (key : string) (expiry : option Z) : operation unit :=
  execIgnore [match expiry with
              | Some ms => ["PEXPIRE"; key; to_string ms]
              | None => ["PERSIST"; key]
              end].
Definition keyRename (sourceKey destinationKey : string) : operation bool :=
  op_map (fun _ => true) (execIgnore [["RENAME"; sourceKey; destinationKey]]).

(** The reply tree of SCAN, in the flat form the library gives it: depth,
    whether it is a bulk string, value. *)
Fixpoint nodes_of (depth : nat) (r : reply) : list (nat * bool * string) :=
  match r with
  | RText t => [(depth, true, t)]
  | RArray l => (depth, false, "") :: flat_map (nodes_of (S depth)) l
  | RInt z => [(depth, false, to_string z)]
  | RNil | RError _ => [(depth, false, "")]
  end.

Definition scan_keys (nodes : list (nat * bool * string)) : list string :=
  flat_map (fun '(depth, blob, v) => if (depth =? 2)%nat && (blob : bool) then [v] else [])
    (drop 2 nodes).

(** [resp.value()] throws on an error reply. The loop ends when the cursor is
    back at zero; [None] is an exhausted fuel. *)
Fixpoint scan_pages (fuel : nat) (pattern cursor : string) (keys : list string) (now : Z) (s : server)
    : option (result (list string) * server) :=
  match fuel with
  | O => None
  | S fuel =>
      let '(r, s) := exec now ["SCAN"; cursor; "MATCH"; pattern; "COUNT"; "250"] s in
      match r with
      | RError _ => Some (Throw RuntimeError, s)
      | _ =>
          match nodes_of 0 r with
          | _ :: (_, _, cursor) :: _ =>
              let keys := keys ++ scan_keys (nodes_of 0 r) in
              if String.eqb cursor "0" then Some (Ok keys, s)
              else scan_pages fuel pattern cursor keys now s
          | _ => Some (Ok keys, s)
          end
      end
  end.
Definition getKeysByPattern (pattern : string) : operation (list string) :=
  fun now s =>
    match scan_pages (S (S (scan_left s "0"))) pattern "0" [] now s with
    | Some r => r
    | None => (Throw UndefinedRead, s)
    end.

(** ** Sets *)

Definition setAdd (key value : string) : operation bool :=
  op_map (fun n => negb (n =? 0)) (execValue decode_long ["SADD"; key; value]).
Definition setRemove (key value : string) : operation bool :=
  op_map (fun n => negb (n =? 0)) (execValue decode_long ["SREM"; key; value]).
Definition setMembers (key : string) : operation (list string) :=
  execValue (decode_vector decode_text) ["SMEMBERS"; key].
Definition setContains (key value : string) : operation bool :=
  op_map (fun n => negb (n =? 0)) (execValue decode_long ["SISMEMBER"; key; value]).
Definition setLength (key : string) : operation Z := execValue decode_long ["SCARD"; key].

(** ** Lists *)

Definition listPushFront (key value : string) : operation unit := execIgnore [["LPUSH"; key; value]].
Definition listPushFrontAll (key : string) (values : list string) : operation unit :=
  execIgnore (map (fun value => ["LPUSH"; key; value]) values).
Definition listPopBack (key : string) : operation (option string) := execOptionalString ["RPOP"; key].
Definition listIndex (key : string) (index : Z) : operation (option string) :=
  execOptionalString ["LINDEX"; key; to_string index].
Definition listRemove (key : string) (count : Z) (value : string) : operation unit :=
  execIgnore [["LREM"; key; to_string count; value]].

(** The escape hatch: an empty command sends nothing. *)
Definition execute (commandAndArgs : list string) : operation (option reply) :=
  match commandAndArgs with
  | [] => op_return None
  | _ => fun now s => let '(r, s) := exec now commandAndArgs s in (Ok (Some r), s)
  end.

End Operations.

(** * SyncRedisClient *)

(** What the network does with one operation, in microseconds from its start:
    the command executes and its reply arrives some time later, or the
    connection stops, the command executed or not. *)
Inductive net_event : Type :=
| Completes (executes returns : N)
| Stops (after : N) (executes : option N).

(** The breaker: zero is the epoch, a closed breaker. *)
Record client : Type := mkClient { failFastUntil : Z }.

Definition makeClient : client := mkClient 0.

(** The server, the caller's clock and what the network will do next; once the
    events run out, operations complete at once. *)
Record world (server : Type) : Type := mkWorld {
  w_server : server;
  w_clock : Z;
  w_net : list net_event }.
Arguments mkWorld {server} _ _ _.
Arguments w_server {server} _.
Arguments w_clock {server} _.
Arguments w_net {server} _.

Definition opTimeout : Z := 2 * 1000000.
Definition failFastCooldown : Z := 3 * 1000000.

Section Client.
Context {server : Type} {R : RedisServer server}.

Definition breakerOpen (now : Z) (c : client) : bool := now <? failFastUntil c.
Definition closeBreaker (c : client) : client := mkClient 0.
Definition tripBreaker (now : Z) (c : client) : client := mkClient (now + failFastCooldown).

Definition next_event (w : world server) : net_event * list net_event :=
  match w_net w with [] => (Completes 0 0, []) | e :: rest => (e, rest) end.

(** [pumpUntil]: the outcome of the operation if it completes before the
    deadline, otherwise the reason it is abandoned. An abandoned request that
    has not been executed is cancelled. *)
Definition pumpUntil {T} (op : operation T) (w : world server) : (result T + string) * world server :=
  let now := w_clock w in
  let '(e, net) := next_event w in
  match e with
  | Completes executes returns =>
      let executes := Z.of_N executes in
      let returns := executes + Z.of_N returns in
      if executes <? opTimeout then
        let '(r, s) := op (now + executes) (w_server w) in
        if returns <? opTimeout then (inl r, mkWorld s (now + returns) net)
        else (inr "timed out (Redis unreachable?)", mkWorld s (now + opTimeout) net)
      else (inr "timed out (Redis unreachable?)", mkWorld (w_server w) (now + opTimeout) net)
  | Stops after executes =>
      let s := match executes with
               | Some d => if Z.of_N d <? opTimeout then (op (now + Z.of_N d) (w_server w)).2
                           else w_server w
               | None => w_server w
               end in
      if Z.of_N after <? opTimeout
      then (inr "connection stopped before the command completed",
            mkWorld s (now + Z.of_N after) net)
      else (inr "timed out (Redis unreachable?)", mkWorld s (now + opTimeout) net)
  end.

(** [run]: the result, or the error text, empty when the breaker skipped the
    operation. The text of a thrown exception is the library's. *)
Definition run {T} (op : operation T) (c : client) (w : world server)
    : (T + string) * client * world server :=
  if breakerOpen (w_clock w) c then (inr "", c, w)
  else
    match pumpUntil op w with
    | (inl (Ok x), w) => (inl x, closeBreaker c, w)
    | (inl (Throw _), w) => (inr "exception", tripBreaker (w_clock w) c, w)
    | (inr reason, w) => (inr reason, tripBreaker (w_clock w) c, w)
    end.

(** ** Facts *)

(** The client is deadline-bounded: whatever the network does, a call returns
    within the timeout. *)
Lemma run_bounded {T} (op : operation T) c w r c' w' :
  run op c w = (r, c', w') -> w_clock w <= w_clock w' <= w_clock w + opTimeout.
Proof.
  unfold run. destruct (breakerOpen _ c); [intros [= <- <- <-]; unfold opTimeout; lia|].
  assert (w_clock w <= w_clock (pumpUntil op w).2 <= w_clock w + opTimeout) as H.
  { unfold pumpUntil. destruct (next_event w) as [[e b|a e] net].
    - destruct (Z.ltb_spec (Z.of_N e) opTimeout); [|simpl; unfold opTimeout; lia].
      destruct (op _ _) as [o s]. destruct (Z.ltb_spec (Z.of_N e + Z.of_N b) opTimeout); simpl;
        unfold opTimeout in *; lia.
    - destruct (Z.ltb_spec (Z.of_N a) opTimeout); simpl; unfold opTimeout in *; lia. }
  destruct (pumpUntil op w) as [[[x|e]|reason] w1]; intros [= <- <- <-]; exact H.
Qed.

(** Within the cooldown of a failure a call returns at once, with an empty
    error, and nothing reaches the server. *)
Lemma run_fail_fast {T} (op : operation T) c w :
  w_clock w < failFastUntil c -> run op c w = (inr "", c, w).
Proof. intros H. unfold run, breakerOpen. now rewrite (proj2 (Z.ltb_lt _ _) H). Qed.

(** A result comes from the server: the operation was executed, at an instant
    of the call. *)
Lemma run_result {T} (op : operation T) c w x c' w' :
  run op c w = (inl x, c', w') ->
  exists t, w_clock w <= t <= w_clock w' /\ op t (w_server w) = (Ok x, w_server w') /\
            failFastUntil c <= w_clock w /\ failFastUntil c' = 0 /\ w_net w' = (next_event w).2.
Proof.
  unfold run, breakerOpen. destruct (Z.ltb_spec (w_clock w) (failFastUntil c)) as [|Hb]; [discriminate|].
  unfold pumpUntil. destruct (next_event w) as [[e b|a e] net].
  - destruct (Z.ltb_spec (Z.of_N e) opTimeout); [|discriminate].
    destruct (op _ _) as [o s] eqn:E.
    destruct (Z.ltb_spec (Z.of_N e + Z.of_N b) opTimeout); [|discriminate].
    destruct o as [y|ex]; [|discriminate]. intros [= <- <- <-].
    exists (w_clock w + Z.of_N e). simpl. split; [lia|]. auto.
  - destruct (Z.ltb_spec (Z.of_N a) opTimeout); discriminate.
Qed.

(** A failure leaves the server as it was or with the operation executed. *)
Lemma run_failure {T} (op : operation T) c w reason c' w' :
  run op c w = (inr reason, c', w') ->
  w_server w' = w_server w \/
  exists t, w_clock w <= t /\ (op t (w_server w)).2 = w_server w'.
Proof.
  unfold run. destruct (breakerOpen _ c); [intros [= <- <- <-]; auto|].
  unfold pumpUntil. destruct (next_event w) as [[e b|a e] net].
  - destruct (Z.ltb_spec (Z.of_N e) opTimeout); [|intros [= <- <- <-]; auto].
    destruct (op _ _) as [o s] eqn:E. intros Hr. right. exists (w_clock w + Z.of_N e).
    split; [lia|]. rewrite E. simpl. revert Hr.
    destruct (Z.ltb_spec (Z.of_N e + Z.of_N b) opTimeout); [|intros [= <- <- <-]; auto].
    destruct o; [discriminate|intros [= <- <- <-]; auto].
  - intros Hr.
    assert (w_server w' = match e with
               | Some d => if Z.of_N d <? opTimeout then (op (w_clock w + Z.of_N d) (w_server w)).2
                           else w_server w
               | None => w_server w
               end) as ->.
    { revert Hr. destruct (Z.ltb_spec (Z.of_N a) opTimeout); intros [= <- <- <-]; auto. }
    destruct e as [d|]; [|auto]. destruct (Z.of_N d <? opTimeout); [|auto].
    right. exists (w_clock w + Z.of_N d). split; [lia|auto].
Qed.

End Client.

(** ** What the operations do, from the documented behaviour *)

Section OperationSpecs.
Context {server : Type} {R : RedisServer server} {L : RedisLaws server}.

Lemma unchanged_refl now s : unchanged now s s.
Proof. now intros. Qed.

Lemma getString_spec now k s :
  let '(r, s') := getString k now s in
  unchanged now s s' /\
  r = match lookup_at s now k with
      | None => Ok None | Some (VString v) => Ok (Some v) | Some _ => Throw RuntimeError
      end.
Proof.
  unfold getString, execOptionalString, execValue.
  destruct (get_law now k s) as [Hr Hs]. destruct (exec now _ s) as [r s'] eqn:E. simpl in *.
  split; [done|]. subst r. now destruct (lookup_at s now k) as [[]|].
Qed.

Lemma setStringWhen_spec now k v when expiry s :
  valid_expiry expiry ->
  let '(r, s') := setStringWhen k v when expiry now s in
  r = Ok (set_allowed when (lookup_at s now k)) /\
  if set_allowed when (lookup_at s now k)
  then stored now k (VString v) (expires_at now expiry) s s'
  else unchanged now s s'.
Proof.
  intros Hms. unfold setStringWhen, op_map, execOptionalString, execValue, set_args.
  pose proof (set_law now k v expiry when s Hms) as H.
  destruct (exec now _ s) as [r s']. destruct (set_allowed _ _); destruct H as [-> H]; simpl; auto.
Qed.

Lemma getDelete_spec now k s :
  let '(r, s') := getDelete k now s in
  match lookup_at s now k with
  | Some (VString v) => r = Ok (Some v) /\ removed now k s s'
  | None => r = Ok None /\ unchanged now s s'
  | Some _ => r = Throw RuntimeError /\ unchanged now s s'
  end.
Proof.
  unfold getDelete, execOptionalString, execValue.
  pose proof (getdel_law now k s) as H. destruct (exec now _ s) as [r s']. destruct H as [-> H].
  now destruct (lookup_at s now k) as [[]|].
Qed.

Lemma deleteKey_spec now k s :
  let '(r, s') := deleteKey k now s in
  r = Ok (bool_decide (is_Some (lookup_at s now k))) /\ removed now k s s'.
Proof.
  unfold deleteKey, op_map, execValue.
  pose proof (del_law now k s) as H. destruct (exec now _ s) as [r s']. destruct H as [-> H].
  now destruct (lookup_at s now k).
Qed.

Lemma setTTL_spec now k ms s : 0 < ms < 2 ^ 63 ->
  let '(r, s') := setTTL k ms now s in
  match lookup_at s now k with
  | Some v => r = Ok true /\ stored now k v (Some (now + 1000 * ms)) s s'
  | None => r = Ok false /\ unchanged now s s'
  end.
Proof.
  intros Hms. unfold setTTL, op_map, execValue.
  pose proof (pexpire_law now k ms s Hms) as H. destruct (exec now _ s) as [r s'].
  destruct (lookup_at s now k); destruct H as [-> H]; auto.
Qed.

Lemma setAdd_spec now k v s :
  let '(r, s') := setAdd k v now s in
  match lookup_at s now k with
  | None => r = Ok true /\ rewritten now k (VSet {[v]}) s s'
  | Some (VSet m) => r = Ok (bool_decide (v ∉ m)) /\ rewritten now k (VSet ({[v]} ∪ m)) s s'
  | Some _ => r = Throw RuntimeError /\ unchanged now s s'
  end.
Proof.
  unfold setAdd, op_map, execValue.
  pose proof (sadd_law now k v s) as H. destruct (exec now _ s) as [r s'].
  destruct (lookup_at s now k) as [[| |m]|];
    [destruct H as [[? ->] H]; auto|destruct H as [[? ->] H]; auto| |destruct H as [-> H]; auto].
  destruct H as [-> H]. split; [|done]. simpl.
  destruct (base.decide (v ∈ m)); simpl; f_equal; symmetry;
    [apply bool_decide_eq_false|apply bool_decide_eq_true]; tauto.
Qed.

Lemma decode_texts l : decode_each decode_text (map RText l) = Ok l.
Proof. induction l as [|x l IH]; [done|]. simpl. now rewrite IH. Qed.

Lemma setMembers_spec now k s :
  let '(r, s') := setMembers k now s in
  unchanged now s s' /\
  match lookup_at s now k with
  | None => r = Ok []
  | Some (VSet m) => exists l, NoDup l /\ (forall x, x ∈ l <-> x ∈ m) /\ r = Ok l
  | Some _ => r = Throw RuntimeError
  end.
Proof.
  unfold setMembers, execValue.
  pose proof (smembers_law now k s) as H. destruct (exec now _ s) as [r s'].
  destruct H as [Hs H]. split; [done|].
  destruct (lookup_at s now k) as [[| |m]|]; [destruct H as [? ->]; done|destruct H as [? ->]; done| |now subst].
  destruct H as (l & Hl & Hm & ->). exists l. simpl. now rewrite decode_texts.
Qed.

Lemma listPopBack_spec now k s :
  let '(r, s') := listPopBack k now s in
  match lookup_at s now k with
  | None => r = Ok None /\ unchanged now s s'
  | Some (VList l) =>
      r = Ok (last l) /\
      if bool_decide (but_last l = []) then removed now k s s'
      else rewritten now k (VList (but_last l)) s s'
  | Some _ => r = Throw RuntimeError /\ unchanged now s s'
  end.
Proof.
  unfold listPopBack, execOptionalString, execValue.
  pose proof (rpop_law now k s) as H. destruct (exec now _ s) as [r s'].
  destruct (lookup_at s now k) as [[| l |]|];
    [destruct H as [[? ->] H]; auto| |destruct H as [[? ->] H]; auto|destruct H as [-> H]; auto].
  destruct H as [-> H]. split; [|done]. now destruct (last l).
Qed.

Lemma listTail_spec now k s :
  let '(r, s') := listIndex k (-1) now s in
  unchanged now s s' /\
  r = match lookup_at s now k with
      | None => Ok None | Some (VList l) => Ok (last l) | Some _ => Throw RuntimeError
      end.
Proof.
  unfold listIndex, execOptionalString, execValue.
  pose proof (lindex_last_law now k s) as H. destruct (exec now _ s) as [r s'].
  destruct H as [Hs H]. split; [done|].
  destruct (lookup_at s now k) as [[| l |]|]; [now destruct H as [? ->]| |now destruct H as [? ->]|now subst].
  subst r. now destruct (last l).
Qed.

(** MGET's answer, as the map the caller gets: the keys that hold a string. *)
Lemma zip_values_lookup (f : string -> option string) ks acc k :
  zip_values ks (map f ks) acc !! k =
  match acc !! k with
  | Some v => Some v
  | None => if base.decide (k ∈ ks) then f k else None
  end.
Proof.
  revert acc. induction ks as [|k0 ks IH]; intros acc; simpl; [now destruct (acc !! k)|].
  rewrite IH. destruct (f k0) as [x|] eqn:E, (acc !! k0) as [y|] eqn:E0;
    destruct (base.decide (k = k0)) as [->|Hk];
    rewrite ?E0, ?lookup_insert_eq, ?lookup_insert_ne by done;
    try destruct (acc !! k) eqn:?; try done;
    repeat case_decide; try done; try congruence; set_solver.
Qed.

Definition string_at (s : server) (now : Z) (k : string) : option string :=
  match lookup_at s now k with Some (VString v) => Some v | _ => None end.

Lemma decode_mget s now ks :
  decode_each decode_optional_string
    (map (fun k => match lookup_at s now k with Some (VString v) => RText v | _ => RNil end) ks)
  = Ok (map (string_at s now) ks).
Proof.
  induction ks as [|k ks IH]; [done|]. simpl. rewrite IH. unfold string_at.
  now destruct (lookup_at s now k) as [[]|].
Qed.

Lemma getMultiple_spec now ks s :
  let '(r, s') := getMultiple ks now s in
  unchanged now s s' /\
  exists m, r = Ok m /\ forall k, m !! k = if base.decide (k ∈ ks) then string_at s now k else None.
Proof.
  destruct ks as [|k0 ks].
  - simpl. split; [apply unchanged_refl|]. exists ∅. split; [done|]. intros k.
    now rewrite lookup_empty.
  - unfold getMultiple, op_map, execValue.
    destruct (mget_law now (k0 :: ks) s) as [Hr Hs]. destruct (exec now _ s) as [r s'].
    simpl in Hr, Hs. subst r. split; [done|].
    exists (zip_values (k0 :: ks) (map (string_at s now) (k0 :: ks)) ∅). split.
    + change (decode_vector decode_optional_string (RArray ?l)) with (decode_each decode_optional_string l).
      pose proof (decode_mget s now (k0 :: ks)) as Hd. cbn [map] in Hd.
      cbv beta iota delta [decode_vector]. rewrite Hd. done.
    + intros k. rewrite zip_values_lookup. now rewrite lookup_empty.
Qed.

(** An enumeration returns: its loop ends within the pages the server has. *)
Lemma scan_pages_returns fuel pattern cursor keys now s :
  (scan_left s cursor < fuel)%nat -> exists r, scan_pages fuel pattern cursor keys now s = Some r.
Proof.
  revert cursor keys s. induction fuel as [|fuel IH]; intros cursor keys s Hf; [lia|].
  cbn [scan_pages]. pose proof (scan_law now cursor pattern s) as H.
  destruct (exec now _ s) as [r s'].
  destruct H as (-> & [[m ->]|(cursor' & page & -> & Hc)]); [eauto|].
  cbn [nodes_of flat_map app]. destruct (String.eqb_spec cursor' "0") as [|Hne]; [eauto|].
  apply IH. destruct Hc; [done|lia].
Qed.

Lemma getKeysByPattern_returns pattern now s :
  exists r, scan_pages (S (S (scan_left s "0"))) pattern "0" [] now s = Some r /\
            getKeysByPattern pattern now s = r.
Proof.
  destruct (scan_pages_returns (S (S (scan_left s "0"))) pattern "0" [] now s) as [r Hr]; [lia|].
  exists r. unfold getKeysByPattern. now rewrite Hr.
Qed.

End OperationSpecs.

Section RunAt.
Context {server : Type} {R : RedisServer server}.

(** The instant a call's operation executes, when it does. *)
Definition run_at (c : client) (w : world server) : option Z :=
  if breakerOpen (w_clock w) c then None
  else
    let within d := if Z.of_N d <? opTimeout then Some (w_clock w + Z.of_N d) else None in
    match (next_event w).1 with
    | Completes executes _ => within executes
    | Stops _ (Some executes) => within executes
    | Stops _ None => None
    end.

(** What a call does to the server is the operation, at that instant. *)
Lemma run_server {T} (op : operation T) c w r c' w' :
  run op c w = (r, c', w') ->
  w_server w' = match run_at c w with
                | Some t => (op t (w_server w)).2
                | None => w_server w
                end.
Proof.
  unfold run, run_at. destruct (breakerOpen _ c); [now intros [= <- <- <-]|].
  unfold pumpUntil. destruct (next_event w) as [[e b|a e] net]; simpl.
  - destruct (Z.of_N e <? opTimeout); [|now intros [= <- <- <-]].
    destruct (op _ _) as [o s] eqn:E. simpl.
    destruct (_ + _ <? opTimeout); [|now intros [= <- <- <-]].
    destruct o; now intros [= <- <- <-].
  - intros Hr.
    assert (w_server w' = match e with
               | Some d => if Z.of_N d <? opTimeout then (op (w_clock w + Z.of_N d) (w_server w)).2
                           else w_server w
               | None => w_server w
               end) as ->.
    { revert Hr. destruct (Z.of_N a <? opTimeout); intros [= <- <- <-]; auto. }
    destruct e as [d|]; [|done]. now destruct (Z.of_N d <? opTimeout).
Qed.

(** And a result is the operation's result at that instant. *)
Lemma run_value {T} (op : operation T) c w x c' w' :
  run op c w = (inl x, c', w') ->
  exists t, run_at c w = Some t /\ (op t (w_server w)).1 = Ok x /\ w_clock w <= t.
Proof.
  unfold run, run_at. destruct (breakerOpen _ c); [discriminate|].
  unfold pumpUntil. destruct (next_event w) as [[e b|a e] net]; simpl.
  - destruct (Z.ltb_spec (Z.of_N e) opTimeout); [|discriminate].
    destruct (op _ _) as [o s] eqn:E. simpl.
    destruct (Z.ltb_spec (Z.of_N e + Z.of_N b) opTimeout); [|discriminate].
    destruct o as [y|ex]; [|discriminate]. intros [= <- <- <-].
    eexists. split; [done|]. rewrite E. split; [done|lia].
  - destruct (Z.of_N a <? opTimeout); discriminate.
Qed.

End RunAt.
