(* ===== verification/RedisStore.v ===== *)
(** A concrete server: a finite map from keys to values with an optional expiry.
    It satisfies every law of [Redis.v], so the theorems about the Redis layer
    apply to something, and their witnesses compute with it. *)
From Stdlib Require Import ZArith Lia.
From stdpp Require Import base gmap sets list strings.
From S2P Require Import Prelude Json JsonFloat JsonDump StdText Redis.
Open Scope Z_scope.

Definition entry : Type := value * option Z.
Notation store := (gmap string entry).

Definition live (now : Z) (e : entry) : bool :=
  match e.2 with Some x => now <? x | None => true end.

Definition peek (now : Z) (k : string) (st : store) : option entry :=
  match st !! k with Some e => if live now e then Some e else None | None => None end.

Definition store_lookup (st : store) (now : Z) (k : string) : option value :=
  fst <$> peek now k st.

(** A decimal argument. *)
Definition parse_ms (s : string) : Z := digits_value (chars s).

(** The value replaced, the expiry of a live key kept. *)
Definition keep_ttl (now : Z) (k : string) (v : value) (st : store) : store :=
  <[k := (v, match peek now k st with Some e => e.2 | None => None end)]> st.

Definition wrong_type : reply := RError "WRONGTYPE".

Definition exec_set (now : Z) (k v : string) (px : option Z) (when : SetWhen) (st : store)
    : reply * store :=
  if set_allowed when (store_lookup st now k)
  then (RText "OK", <[k := (VString v, expires_at now px)]> st)
  else (RNil, st).

Definition set_options (args : list string) : option (option Z * SetWhen) :=
  let '(px, rest) := match args with
                     | a :: ms :: rest => if String.eqb a "PX" then (Some (parse_ms ms), rest)
                                          else (None, args)
                     | _ => (None, args)
                     end in
  match rest with
  | [] => Some (px, Always)
  | [f] => if String.eqb f "NX" then Some (px, NotExists)
           else if String.eqb f "XX" then Some (px, Exists) else None
  | _ => None
  end.

Definition store_exec (now : Z) (args : list string) (st : store) : reply * store :=
  match args with
  | [] => (RError "ERR", st)
  | cmd :: args =>
      if String.eqb cmd "GET" then
        match args with [k] => (string_reply (store_lookup st now k), st) | _ => (RError "ERR", st) end
      else if String.eqb cmd "MGET" then
        (RArray (map (fun k => match store_lookup st now k with
                               | Some (VString v) => RText v | _ => RNil end) args), st)
      else if String.eqb cmd "SET" then
        match args with
        | k :: v :: options =>
            match set_options options with
            | Some (px, when) => exec_set now k v px when st
            | None => (RError "ERR", st)
            end
        | _ => (RError "ERR", st)
        end
      else if String.eqb cmd "GETDEL" then
        match args with
        | [k] => (string_reply (store_lookup st now k),
                  match store_lookup st now k with Some (VString _) => base.delete k st | _ => st end)
        | _ => (RError "ERR", st)
        end
      else if String.eqb cmd "DEL" then
        match args with
        | [k] => (RInt (if store_lookup st now k then 1 else 0), base.delete k st)
        | _ => (RError "ERR", st)
        end
      else if String.eqb cmd "PEXPIRE" then
        match args with
        | [k; ms] =>
            match store_lookup st now k with
            | Some v => (RInt 1, <[k := (v, Some (now + 1000 * parse_ms ms))]> st)
            | None => (RInt 0, st)
            end
        | _ => (RError "ERR", st)
        end
      else if String.eqb cmd "RENAME" then
        match args with
        | [src; dst] =>
            match peek now src st with
            | Some e => (RText "OK", <[dst := e]> (base.delete src st))
            | None => (RError "ERR no such key", st)
            end
        | _ => (RError "ERR", st)
        end
      else if String.eqb cmd "SADD" then
        match args with
        | [k; v] =>
            match store_lookup st now k with
            | None => (RInt 1, keep_ttl now k (VSet {[v]}) st)
            | Some (VSet m) => (RInt (if base.decide (v ∈ m) then 0 else 1),
                                keep_ttl now k (VSet ({[v]} ∪ m)) st)
            | Some _ => (wrong_type, st)
            end
        | _ => (RError "ERR", st)
        end
      else if String.eqb cmd "SMEMBERS" then
        match args with
        | [k] =>
            match store_lookup st now k with
            | None => (RArray [], st)
            | Some (VSet m) => (RArray (map RText (elements m)), st)
            | Some _ => (wrong_type, st)
            end
        | _ => (RError "ERR", st)
        end
      else if String.eqb cmd "LPUSH" then
        match args with
        | [k; v] =>
            match store_lookup st now k with
            | None => (RInt 1, keep_ttl now k (VList [v]) st)
            | Some (VList l) => (RInt (Z.of_nat (S (length l))), keep_ttl now k (VList (v :: l)) st)
            | Some _ => (wrong_type, st)
            end
        | _ => (RError "ERR", st)
        end
      else if String.eqb cmd "RPOP" then
        match args with
        | [k] =>
            match store_lookup st now k with
            | None => (RNil, st)
            | Some (VList l) =>
                (match last l with Some v => RText v | None => RNil end,
                 if bool_decide (but_last l = []) then base.delete k st
                 else keep_ttl now k (VList (but_last l)) st)
            | Some _ => (wrong_type, st)
            end
        | _ => (RError "ERR", st)
        end
      else if String.eqb cmd "LINDEX" then
        match args with
        | [k; i] =>
            if String.eqb i (to_string (-1)) then
              (match store_lookup st now k with
               | None => RNil
               | Some (VList l) => match last l with Some v => RText v | None => RNil end
               | Some _ => wrong_type
               end, st)
            else (RError "ERR", st)
        | _ => (RError "ERR", st)
        end
      else if String.eqb cmd "LREM" then
        match args with
        | [k; n; v] =>
            if String.eqb n (to_string 0) then
              match store_lookup st now k with
              | None => (RInt 0, st)
              | Some (VList l) =>
                  let rest := base.filter (fun x => x <> v) l in
                  (RInt (Z.of_nat (length l - length rest)),
                   if bool_decide (rest = []) then base.delete k st else keep_ttl now k (VList rest) st)
              | Some _ => (wrong_type, st)
              end
            else (RError "ERR", st)
        | _ => (RError "ERR", st)
        end
      else if String.eqb cmd "SCAN" then
        (* every live key in one page *)
        (RArray [RText "0"; RArray (map RText (map fst (base.filter (fun p => live now p.2 = true) (map_to_list st))))], st)
      else (RError "ERR unknown command", st)
  end.

#[export] Instance store_server : RedisServer store := {
  exec := store_exec;
  lookup_at := store_lookup;
  generic_reply := fun _ => Ok tt;
  scan_left := fun _ _ => O }.

(** * The laws *)

Lemma store_lookup_insert_eq st now k e : store_lookup (<[k := e]> st) now k = if live now e then Some e.1 else None.
Proof. unfold store_lookup, peek. rewrite lookup_insert_eq. now destruct (live now e). Qed.
Lemma store_lookup_insert_ne st now k k' e :
  k' <> k -> store_lookup (<[k := e]> st) now k' = store_lookup st now k'.
Proof. intros. unfold store_lookup, peek. now rewrite lookup_insert_ne by done. Qed.
Lemma store_lookup_delete_eq st now k : store_lookup (base.delete k st) now k = None.
Proof. unfold store_lookup, peek. now rewrite lookup_delete_eq. Qed.
Lemma store_lookup_delete_ne st now k k' :
  k' <> k -> store_lookup (base.delete k st) now k' = store_lookup st now k'.
Proof. intros. unfold store_lookup, peek. now rewrite lookup_delete_ne by done. Qed.

Lemma store_stored st now k v x : stored now k v x st (<[k := (v, x)]> st).
Proof.
  intros t k' _. case_decide as Hk; cbn [lookup_at store_server].
  - subst k'. rewrite store_lookup_insert_eq. unfold live. simpl. now destruct x.
  - now apply store_lookup_insert_ne.
Qed.

Lemma store_removed st now k : removed now k st (base.delete k st).
Proof.
  intros t k' _. case_decide as Hk; cbn [lookup_at store_server].
  - subst k'. apply store_lookup_delete_eq.
  - now apply store_lookup_delete_ne.
Qed.

(** A live entry stays what it is until its expiry. *)
Lemma store_lookup_later st now t k e :
  now <= t -> peek now k st = Some e -> store_lookup st t k = if live t e then Some e.1 else None.
Proof.
  intros Ht. unfold store_lookup, peek. destruct (st !! k) as [e'|]; [|done].
  destruct (live now e') eqn:?; [|done]. intros [= <-]. now destruct (live t e').
Qed.

Lemma store_rewritten st now k v : rewritten now k v st (keep_ttl now k v st).
Proof.
  intros t k' Ht. unfold keep_ttl. case_decide as Hk; cbn [lookup_at store_server].
  - subst k'. rewrite store_lookup_insert_eq. unfold store_lookup at 1.
    destruct (peek now k st) as [e|] eqn:E; simpl.
    + rewrite (store_lookup_later st now t k e Ht E). unfold live. simpl.
      now destruct e.2; [destruct (t <? _)|].
    + done.
  - now apply store_lookup_insert_ne.
Qed.

Lemma parse_ms_to_string ms : 0 < ms < 2 ^ 63 -> parse_ms (to_string ms) = ms.
Proof.
  intros Hms. unfold parse_ms, to_string. rewrite chars_text.
  destruct (to_string_chars_prints ms) as [[-> _]|[[_ Hp]|[? _]]]; [lia|lia| |lia].
  apply Hp.
Qed.

Lemma set_options_args expiry when :
  valid_expiry expiry -> set_options (px_args expiry ++ when_args when) = Some (expiry, when).
Proof.
  intros Hms. destruct expiry as [ms|]; simpl.
  - cbn [set_options px_args app]. unfold set_options. simpl.
    rewrite parse_ms_to_string by now apply Hms. now destruct when.
  - now destruct when.
Qed.

Lemma store_smembers (m : gset string) :
  NoDup (elements m) /\ (forall x, x ∈ elements m <-> x ∈ m).
Proof. split; [apply NoDup_elements|]. intros x. apply elem_of_elements. Qed.

#[export] Instance store_laws : RedisLaws store.
Proof.
  split; cbn [exec lookup_at store_server]; try (intros; exact (conj eq_refl (unchanged_refl _ _))).
  - intros r _. done.
  - intros s k t t' v Ht. unfold store_lookup, peek. destruct (s !! k) as [[v0 [x|]]|]; simpl; try done.
    unfold live. simpl. destruct (Z.ltb_spec t' x); [|done]. now destruct (Z.ltb_spec t x); [|lia].
  - intros now k v expiry when s Hms. unfold store_exec. cbn [String.eqb Ascii.eqb Bool.eqb].
    rewrite set_options_args by done. unfold exec_set.
    destruct (set_allowed _ _); split; try done. apply store_stored.
  - intros now k s. simpl. split; [done|].
    destruct (store_lookup s now k) as [[]|]; try apply unchanged_refl. apply store_removed.
  - intros now k s. simpl. split; [done|]. apply store_removed.
  - intros now k ms s Hms. simpl. destruct (store_lookup s now k) as [v|].
    + rewrite parse_ms_to_string by done. split; [done|]. apply store_stored.
    + split; [done|apply unchanged_refl].
  - intros now src dst s Hne. simpl. unfold store_lookup at 1.
    destruct (peek now src s) as [e|] eqn:E; simpl.
    + split; [done|]. intros t k Ht. case_decide as H1; [|case_decide as H2].
      * subst k. rewrite store_lookup_insert_eq. symmetry. now apply (store_lookup_later s now t src e).
      * subst k. rewrite store_lookup_insert_ne by done. apply store_lookup_delete_eq.
      * rewrite store_lookup_insert_ne by done. now apply store_lookup_delete_ne.
    + split; [eauto|apply unchanged_refl].
  - intros now k v s. simpl. destruct (store_lookup s now k) as [[| |m]|];
      (split; [eauto|]); first [apply unchanged_refl|apply store_rewritten].
  - intros now k s. simpl. destruct (store_lookup s now k) as [[| |m]|];
      (split; [apply unchanged_refl|]); unfold wrong_type; eauto.
    exists (elements m). destruct (store_smembers m). auto.
  - intros now k v s. simpl. destruct (store_lookup s now k) as [[| |m]|];
      (split; [unfold wrong_type; eauto|]); first [apply unchanged_refl|apply store_rewritten].
  - intros now k s. simpl. destruct (store_lookup s now k) as [[| l |m]|];
      (split; [unfold wrong_type; eauto|]); try apply unchanged_refl.
    case_bool_decide; [apply store_removed|apply store_rewritten].
  - intros now k s. simpl. destruct (store_lookup s now k) as [[| l |m]|];
      (split; [apply unchanged_refl|]); unfold wrong_type; eauto.
  - intros now k v s. simpl. destruct (store_lookup s now k) as [[| l |m]|];
      (split; [unfold wrong_type; eauto|]); try apply unchanged_refl.
    case_bool_decide; [apply store_removed|apply store_rewritten].
  - intros now cursor pattern s. simpl. split; [done|]. right. do 2 eexists. split; [done|]. now left.
Qed.
