(* ===== verification/TradeLocks.v ===== *)
(** Trade locks: the live entry gate of [shared/redis/tradeLocks.cpp], one lock
    per strategy and direction, taken with SET NX PX. *)
From Stdlib Require Import ZArith Lia.
From stdpp Require Import base gmap sets list strings.
From S2P Require Import Prelude Redis RedisStore.
Open Scope Z_scope.

Definition lockKey (strategyUuid direction : string) : string :=
  "LOCK#" +:+ strategyUuid +:+ "#" +:+ direction.

(** The locks this instance acquired, with the instant they are held until. *)
Record TradeLocks : Type := mkLocks {
  client_ : client;
  heldUntil_ : gmap string Z }.

Definition makeTradeLocks : TradeLocks := mkLocks makeClient ∅.

Section TradeLocks.
Context {server : Type} {R : RedisServer server}.
(** The host name recorded as the lock's value. *)
Context (lockOwner : string).

(** The cached answer: the lock is known to be held. *)
Definition known_held (key : string) (now : Z) (locks : TradeLocks) : bool :=
  match heldUntil_ locks !! key with Some until => now <? until | None => false end.

(** Durations are seconds, instants microseconds. *)
Definition isThereATradeLock (strategyUuid direction : string) (ttl : Z) (locks : TradeLocks)
    (w : world server) : bool * TradeLocks * world server :=
  let key := lockKey strategyUuid direction in
  let now := w_clock w in
  if known_held key now locks then (true, locks, w)
  else
    let held := base.delete key (heldUntil_ locks) in
    let '(stored, c, w) := run (setIfNotExists key lockOwner (Some (1000 * ttl))) (client_ locks) w in
    match stored with
    | inr _ => (true, mkLocks c held, w)
    | inl true => (false, mkLocks c (<[key := now + 1000000 * ttl]> held), w)
    | inl false => (true, mkLocks c held, w)
    end.

Definition extendLock (strategyUuid direction : string) (ttl : Z) (locks : TradeLocks)
    (w : world server) : bool * TradeLocks * world server :=
  let key := lockKey strategyUuid direction in
  let now := w_clock w in
  let '(stored, c, w) :=
    run (setStringWhen key lockOwner Always (Some (1000 * ttl))) (client_ locks) w in
  match stored with
  | inl true => (true, mkLocks c (<[key := now + 1000000 * ttl]> (heldUntil_ locks)), w)
  | _ => (false, mkLocks c (heldUntil_ locks), w)
  end.

Definition releaseLock (strategyUuid direction : string) (locks : TradeLocks) (w : world server)
    : bool * TradeLocks * world server :=
  let key := lockKey strategyUuid direction in
  let held := base.delete key (heldUntil_ locks) in
  let '(removed, c, w) := run (deleteKey key) (client_ locks) w in
  match removed with
  | inl _ => (true, mkLocks c held, w)
  | inr _ => (false, mkLocks c held, w)
  end.

(** * Several workers on one server *)

(** The server, the instant it was last touched and every worker's locks. *)
Record fleet : Type := mkFleet {
  f_server : server;
  f_horizon : Z;
  f_workers : nat -> TradeLocks }.

(** The instant a check executes at the server, when it does. *)
Definition check_at (key : string) (locks : TradeLocks) (w : world server) : option Z :=
  if known_held key (w_clock w) locks then None else run_at (client_ locks) w.

Definition set_worker (i : nat) (locks : TradeLocks) (ws : nat -> TradeLocks) : nat -> TradeLocks :=
  fun j => if Nat.eqb j i then locks else ws j.

(** One event of the fleet, seen from one lock's key; the label is the instant
    and the lifetime of a lock granted on it. Each worker has its own clock and
    its own network; the server executes commands in order of time. Whoever else
    uses the server leaves the key alone. *)
Inductive fleet_step (key : string) : fleet -> option (Z * Z) -> fleet -> Prop :=
| check_step i strategyUuid direction ttl now net f blocked locks w :
    0 < 1000 * ttl < 2 ^ 63 ->
    isThereATradeLock strategyUuid direction ttl (f_workers f i) (mkWorld (f_server f) now net)
      = (blocked, locks, w) ->
    (forall t, check_at (lockKey strategyUuid direction) (f_workers f i)
                 (mkWorld (f_server f) now net) = Some t -> f_horizon f <= t) ->
    fleet_step key f
      (if (blocked : bool) then None
       else if String.eqb (lockKey strategyUuid direction) key
       then match check_at key (f_workers f i) (mkWorld (f_server f) now net) with
            | Some t => Some (t, 1000000 * ttl)
            | None => Some (now, 0)
            end
       else None)
      (mkFleet (w_server w)
         (match check_at (lockKey strategyUuid direction) (f_workers f i)
                  (mkWorld (f_server f) now net) with
          | Some t => t | None => f_horizon f end)
         (set_worker i locks (f_workers f)))
| other_step s t f :
    f_horizon f <= t ->
    (forall t', t <= t' -> lookup_at s t' key = lookup_at (f_server f) t' key) ->
    fleet_step key f None (mkFleet s t (f_workers f)).

Inductive fleet_run (key : string) : fleet -> list (Z * Z) -> fleet -> Prop :=
| run_nil f : fleet_run key f [] f
| run_cons f label f' grants f'' :
    fleet_step key f label f' -> fleet_run key f' grants f'' ->
    fleet_run key f (match label with Some g => g :: grants | None => grants end) f''.

(** * Mutual exclusion *)

Context {L : RedisLaws server}.

(** The key is taken at every instant before [until]. *)
Definition taken_until (key : string) (until : Z) (f : fleet) : Prop :=
  forall t, f_horizon f <= t < until -> lookup_at (f_server f) t key <> None.

Lemma setIfNotExists_spec now k v ms (s : server) :
  0 < ms < 2 ^ 63 ->
  let '(r, s') := setIfNotExists k v (Some ms) now s in
  match lookup_at s now k with
  | None => r = Ok true /\ stored now k (VString v) (Some (now + 1000 * ms)) s s'
  | Some _ => r = Ok false /\ unchanged now s s'
  end.
Proof.
  intros Hms. unfold setIfNotExists.
  pose proof (setStringWhen_spec now k v NotExists (Some ms) s) as H.
  destruct (setStringWhen _ _ _ _ _ _) as [r s'].
  destruct H as [-> H]; [now intros ? [= <-]|]. simpl in H.
  now destruct (lookup_at s now k).
Qed.

(** What a check does: nothing at the server unless it executes there, and a
    grant only where the key was free. *)
Lemma check_spec uuid dir ttl locks w blocked locks' w' :
  0 < 1000 * ttl < 2 ^ 63 ->
  isThereATradeLock uuid dir ttl locks w = (blocked, locks', w') ->
  match check_at (lockKey uuid dir) locks w with
  | None => blocked = true /\ w_server w' = w_server w
  | Some t =>
      match lookup_at (w_server w) t (lockKey uuid dir) with
      | None => stored t (lockKey uuid dir) (VString lockOwner) (Some (t + 1000000 * ttl))
                  (w_server w) (w_server w')
      | Some _ => blocked = true /\ unchanged t (w_server w) (w_server w')
      end
  end.
Proof.
  intros Httl. unfold isThereATradeLock, check_at.
  destruct (known_held _ _ _); [now intros [= <- <- <-]|].
  destruct (run _ _ _) as [[stored c] w1] eqn:E. intros Hc.
  pose proof (run_server _ _ _ _ _ _ E) as Hs.
  assert (w_server w' = w_server w1 /\ (blocked = true \/ stored = inl true)) as [Hw Hb]
    by (destruct stored as [[]|]; injection Hc as <- <- <-; auto).
  destruct (run_at (client_ locks) w) as [t|] eqn:Et.
  - pose proof (setIfNotExists_spec t (lockKey uuid dir) lockOwner (1000 * ttl) (w_server w) Httl) as H.
    destruct (setIfNotExists _ _ _ t (w_server w)) as [r s'] eqn:Eop. simpl in Hs.
    rewrite Hw, Hs. destruct (lookup_at (w_server w) t _) as [v|].
    + destruct H as [-> H]. split; [|done]. destruct Hb as [|Hb]; [done|subst stored].
      destruct (run_value _ _ _ _ _ _ E) as (t' & Et' & Hop & _). rewrite Et in Et'.
      injection Et' as <-. now rewrite Eop in Hop.
    + destruct H as [_ H]. replace (t + 1000000 * ttl) with (t + 1000 * (1000 * ttl)) by lia. exact H.
  - rewrite Hw, Hs. split; [|done]. destruct Hb as [|Hb]; [done|subst stored].
    destruct (run_value _ _ _ _ _ _ E) as (t' & Et' & _). congruence.
Qed.

Lemma lookup_stored t k v x (s s' : server) t' :
  stored t k v (Some x) s s' -> t <= t' < x -> lookup_at s' t' k = Some v.
Proof.
  intros H [Ht Hx]. rewrite (H t' k Ht). rewrite decide_True by done.
  now rewrite (proj2 (Z.ltb_lt _ _) Hx).
Qed.

(** A taken key stays taken, and is granted only once its time is over. *)
Lemma fleet_step_taken key until f label f' :
  fleet_step key f label f' -> taken_until key until f ->
  taken_until key until f' /\ match label with Some (t, _) => until <= t | None => True end.
Proof.
  intros Hstep Htaken.
  destruct Hstep as [i uuid dir ttl now net f blocked locks w Httl Hc Hhor|s t f Ht Hs].
  - pose proof (check_spec _ _ _ _ _ _ _ _ Httl Hc) as H. simpl in H.
    set (k := lockKey uuid dir) in *.
    destruct (check_at k _ _) as [t|] eqn:Et.
    + specialize (Hhor t eq_refl).
      destruct (lookup_at (f_server f) t k) as [v|] eqn:Ek.
      * destruct H as [-> H]. split; [|done]. intros t' Ht'. simpl in *.
        rewrite (H t' key) by lia. apply Htaken. lia.
      * split.
        { intros t' Ht'. simpl in *. rewrite (H t' key) by lia. case_decide as Hk.
          - subst key. destruct (Z.ltb_spec t' (t + 1000000 * ttl)); [done|].
            intros _. apply (Htaken t); [lia|]. exact Ek.
          - apply Htaken. lia. }
        destruct blocked; [done|]. destruct (String.eqb_spec k key) as [Hk|]; [|done].
        rewrite <- Hk, Et. destruct (Z.le_gt_cases until t) as [|Hlt]; [done|].
        exfalso. apply (Htaken t); [lia|]. now rewrite <- Hk.
    + destruct H as [-> Hs]. split; [|done]. intros t' Ht'. simpl in *. rewrite Hs. apply Htaken. lia.
  - split; [|done]. intros t' Ht'. simpl in *. rewrite Hs by lia. apply Htaken. lia.
Qed.

Lemma fleet_run_taken key until f grants f' :
  fleet_run key f grants f' -> taken_until key until f -> Forall (fun g => until <= g.1) grants.
Proof.
  induction 1 as [f|f label f' grants f'' Hstep Hrun IH]; intros Ht; [constructor|].
  apply fleet_step_taken with (until := until) in Hstep as [Ht' Hl]; [|done].
  destruct label as [[t ttl]|]; [|auto]. constructor; [done|auto].
Qed.

Lemma fleet_step_granted key f t ttl f' :
  fleet_step key f (Some (t, ttl)) f' -> taken_until key (t + ttl) f'.
Proof.
  intros Hstep. remember (Some (t, ttl)) as label eqn:El.
  destruct Hstep as [i uuid dir ttl0 now net f blocked locks w Httl Hc Hhor|]; [|discriminate El].
  revert El. destruct blocked; [discriminate|].
  pose proof (check_spec _ _ _ _ _ _ _ _ Httl Hc) as H.
  destruct (String.eqb_spec (lockKey uuid dir) key) as [Hk|]; [subst key|discriminate].
  simpl in *. destruct (check_at _ _ _) as [t0|]; [|now destruct H].
  intros [= <- <-]. destruct (lookup_at (f_server f) t0 _) as [v|]; [now destruct H|].
  intros t' Ht'. simpl in *. now rewrite (lookup_stored _ _ _ _ _ _ _ H).
Qed.

(** C28: the trade lock excludes. Whatever the workers, their clocks, their cached
    answers and the network do, two locks granted on the same key are at least
    the first one's lifetime apart, as long as nobody releases or extends it: a
    check that times out, loses its connection or meets an open breaker never
    grants. *)
Theorem lock_excludes key f grants f' :
  fleet_run key f grants f' ->
  forall i j t1 ttl1 t2 ttl2,
    (i < j)%nat -> grants !! i = Some (t1, ttl1) -> grants !! j = Some (t2, ttl2) ->
    t1 + ttl1 <= t2.
Proof.
  induction 1 as [f|f label f' grants f'' Hstep Hrun IH]; intros i j t1 ttl1 t2 ttl2 Hij Hi Hj; [done|].
  destruct label as [g|]; [|exact (IH _ _ _ _ _ _ Hij Hi Hj)].
  destruct i as [|i], j as [|j]; simpl in *; [lia| |lia|eapply (IH i j); eauto; lia].
  injection Hi as ->. apply fleet_step_granted in Hstep.
  eapply fleet_run_taken in Hrun; [|exact Hstep]. rewrite Forall_lookup in Hrun.
  exact (Hrun _ _ Hj).
Qed.

(** A check as a computation on the fleet. *)
Definition check_next (key strategyUuid direction : string) (ttl : Z) (i : nat) (now : Z)
    (net : list net_event) (f : fleet) : option (Z * Z) * fleet :=
  let w := mkWorld (f_server f) now net in
  let executed := check_at (lockKey strategyUuid direction) (f_workers f i) w in
  let '(blocked, locks, w') := isThereATradeLock strategyUuid direction ttl (f_workers f i) w in
  (if (blocked : bool) then None
   else if String.eqb (lockKey strategyUuid direction) key
   then match check_at key (f_workers f i) w with
        | Some t => Some (t, 1000000 * ttl)
        | None => Some (now, 0)
        end
   else None,
   mkFleet (w_server w') (match executed with Some t => t | None => f_horizon f end)
     (set_worker i locks (f_workers f))).

Lemma check_at_now key locks (w : world server) t : check_at key locks w = Some t -> w_clock w <= t.
Proof.
  unfold check_at, run_at. destruct (known_held _ _ _); [discriminate|].
  destruct (breakerOpen _ _); [discriminate|].
  destruct (next_event w).1 as [e b|a [d|]]; [| |discriminate];
    destruct (_ <? opTimeout); try discriminate; intros [= <-]; lia.
Qed.

Lemma check_next_step key uuid dir ttl i now net f label f' :
  0 < 1000 * ttl < 2 ^ 63 -> f_horizon f <= now ->
  check_next key uuid dir ttl i now net f = (label, f') -> fleet_step key f label f'.
Proof.
  intros Httl Hnow. unfold check_next.
  destruct (isThereATradeLock _ _ _ _ _) as [[blocked locks] w] eqn:E. intros [= <- <-].
  apply (check_step key i uuid dir ttl now net f blocked locks w Httl E).
  intros t Ht. apply check_at_now in Ht. simpl in Ht. lia.
Qed.

End TradeLocks.

(** Two workers race for one lock: the second is refused, loses its connection
    on the retry, and is granted the lock once the first lifetime is over. *)
Definition race_key : string := lockKey "s1" "LONG".
Definition race_check (i : nat) (now : Z) (net : list net_event) (f : fleet (server := store)) :=
  check_next "host" race_key "s1" "LONG" 30 i now net f.
Definition race_start : fleet (server := store) := mkFleet ∅ 0 (fun _ => makeTradeLocks).
Definition race_1 := (race_check 1 0 [Completes 10 10] race_start).2.
Definition race_2 := (race_check 2 20 [Completes 5 5] race_1).2.
Definition race_3 := (race_check 2 29999990 [Stops 100 (Some 5%N)] race_2).2.
Definition race_4 := (race_check 2 33000200 [Completes 5 5] race_3).2.

Lemma lock_excludes_witness :
  fleet_run "host" race_key race_start [(10, 30000000); (33000205, 30000000)] race_4 /\
  10 + 30000000 <= 33000205.
Proof.
  assert (fleet_run "host" race_key race_start [(10, 30000000); (33000205, 30000000)] race_4) as H.
  { assert (forall i now net f label f',
      f_horizon f <= now -> race_check i now net f = (label, f') ->
      fleet_step "host" race_key f label f') as Hstep.
    { intros. now apply (check_next_step "host" race_key "s1" "LONG" 30 i now net). }
    refine (run_cons _ _ _ (Some (10, 30000000)) race_1 _ _ _ _).
    { apply (Hstep 1%nat 0 [Completes 10 10]); [vm_compute; discriminate|vm_compute; reflexivity]. }
    refine (run_cons _ _ _ None race_2 _ _ _ _).
    { apply (Hstep 2%nat 20 [Completes 5 5]); [vm_compute; discriminate|vm_compute; reflexivity]. }
    refine (run_cons _ _ _ None race_3 _ _ _ _).
    { apply (Hstep 2%nat 29999990 [Stops 100 (Some 5%N)]);
        [vm_compute; discriminate|vm_compute; reflexivity]. }
    refine (run_cons _ _ _ (Some (33000205, 30000000)) race_4 _ _ _ (run_nil _ _ _)).
    apply (Hstep 2%nat 33000200 [Completes 5 5]); [vm_compute; discriminate|vm_compute; reflexivity]. }
  split; [exact H|].
  apply (lock_excludes "host" race_key _ _ _ H 0 1 10 30000000 33000205 30000000);
    [lia|reflexivity|reflexivity].
Defined.
