(* ===== verification/Positions.v ===== *)
(** The broker position book of [shared/redis/positionManager.cpp/.hpp]: a list
    of open deals per strategy, one short-lived record per deal, and the history
    of closed ones. *)
From Stdlib Require Import ZArith Lia.
From stdpp Require Import base gmap sets list strings.
From S2P Require Import Prelude Json JsonDump JsonParse JsonRoundTrip Double Redis RedisStore.
Open Scope Z_scope.

(** Closed deals are kept for 60 days (milliseconds). *)
Definition kHistoryTtl : Z := 24 * 60 * 3600 * 1000.

Definition positionListKey (strategyId : string) : string := "PL#" +:+ strategyId.
Definition positionKey (dealId : string) : string := "PO#" +:+ dealId.
Definition historyPositionKey (dealId : string) : string := "PH#" +:+ dealId.
Definition dealReceiptKey (dealReference symbol : string) : string :=
  "DealId#" +:+ dealReference +:+ "#" +:+ symbol.

(** * Codecs *)

Definition encodePositionList (dealIds : list string) : result string :=
  dump (JArray (map JString dealIds)).

(** Every item must be a string. *)
Fixpoint string_items (l : list json) : option (list string) :=
  match l with
  | [] => Some []
  | JString s :: l => match string_items l with Some ss => Some (s :: ss) | None => None end
  | _ :: _ => None
  end.

Definition decodePositionList (text : string) : option (list string) :=
  match parse text with
  | Ok (JArray l) => string_items l
  | _ => None
  end.

Record PositionRecord : Type := mkPosition {
  pr_dealId : string;
  pr_dealReference : string;
  pr_symbol : string;
  pr_epic : string;
  pr_direction : string;
  pr_size : double;
  pr_level : Z;
  pr_stopLevel : Z;
  pr_limitLevel : Z;
  pr_strategyId : string;
  pr_strategyName : string;
  pr_openedAtMicros : Z }.

(** A member of the expected type, or the default. *)
Definition readString (key : string) (parsed : json) : string :=
  match json_find key parsed with Some (JString s) => s | _ => "" end.
Definition readNumber {A} (get : json -> result A) (default : A) (key : string) (parsed : json)
    : result A :=
  match json_find key parsed with
  | Some v => if is_number v then get v else Ok default
  | None => Ok default
  end.

(** Only three fields are required. The conversion of a number that does not fit
    its field is outside any handler. *)
Definition decodePositionRecord (text : string) : result (option PositionRecord) :=
  match parse text with
  | Throw _ => Ok None
  | Ok parsed =>
      if negb (is_object parsed) then Ok None
      else
        level <~ readNumber get_int 0 "level" parsed ;
        stopLevel <~ readNumber get_int 0 "stopLevel" parsed ;
        limitLevel <~ readNumber get_int 0 "limitLevel" parsed ;
        size <~ readNumber get_double (dbl_of_Z 0) "size" parsed ;
        openedAt <~ readNumber get_int64 0 "openedAt" parsed ;
        let record := mkPosition (readString "dealId" parsed) (readString "dealReference" parsed)
          (readString "symbol" parsed) (readString "epic" parsed) (readString "direction" parsed)
          size level stopLevel limitLevel
          (readString "strategyId" parsed) (readString "strategyName" parsed) openedAt in
        if String.eqb (pr_dealReference record) "" || String.eqb (pr_symbol record) ""
           || String.eqb (pr_direction record) ""
        then Ok None else Ok (Some record)
  end.

Record DealReceipt : Type := mkReceipt {
  dr_strategyId : string;
  dr_dealId : string;
  dr_strategyName : string }.

Definition decodeDealReceipt (text : string) : option DealReceipt :=
  match parse text with
  | Throw _ => None
  | Ok parsed =>
      if negb (is_object parsed) then None
      else Some (mkReceipt (readString "strategyId" parsed) (readString "dealId" parsed)
                   (readString "strategyName" parsed))
  end.

(** * PositionManager *)

Inductive ListState : Type :=
| ListOk (dealIds : list string)
| ListMissing
| ListFailed.

Section PositionManager.
Context {server : Type} {R : RedisServer server}.

(** What a method does with its client and the world. *)
Definition method (A : Type) : Type := client -> world server -> A * client * world server.

Definition fetchList (strategyId : string) : method ListState := fun c w =>
  let '(value, c, w) := run (getString (positionListKey strategyId)) c w in
  match value with
  | inr _ => (ListFailed, c, w)
  | inl None => (ListMissing, c, w)
  | inl (Some v) =>
      match decodePositionList v with
      | Some ids => (ListOk ids, c, w)
      | None => (ListFailed, c, w)
      end
  end.

Definition getPositionsList (strategyId : string) : method (option (list string)) := fun c w =>
  let '(state, c, w) := fetchList strategyId c w in
  (match state with ListOk ids => Some ids | ListMissing => Some [] | ListFailed => None end, c, w).

Definition write_ok (r : bool + string) : bool :=
  match r with inl b => b | inr _ => false end.

Definition savePosition (dealId payload : string) (ttl : Z) : method bool := fun c w =>
  let '(r, c, w) := run (setStringWhen (positionKey dealId) payload Always (Some ttl)) c w in
  (write_ok r, c, w).

(** The lifetime is in hours. *)
Definition saveDealReceipt (dealReference symbol payload : string) (ttl : Z) : method bool :=
  fun c w =>
    let '(r, c, w) := run (setStringWhen (dealReceiptKey dealReference symbol) payload Always
                             (Some (ttl * 3600 * 1000))) c w in
    (write_ok r, c, w).

(** The list is encoded before the command is sent; an identifier that is not
    valid UTF-8 makes the encoding throw. *)
Definition write_list (strategyId : string) (dealIds : list string) : method (result bool) :=
  fun c w =>
    match encodePositionList dealIds with
    | Throw e => (Throw e, c, w)
    | Ok text =>
        let '(r, c, w) := run (setStringWhen (positionListKey strategyId) text Always None) c w in
        (Ok (write_ok r), c, w)
    end.

Definition addPosition (strategyId dealId : string) : method (result bool) := fun c w =>
  let '(state, c, w) := fetchList strategyId c w in
  let add ids :=
    if bool_decide (dealId ∈ ids) then (Ok true, c, w)
    else write_list strategyId (ids ++ [dealId]) c w in
  match state with
  | ListFailed => (Ok false, c, w)
  | ListMissing => add []
  | ListOk ids => add ids
  end.

Definition getPositionPayloads (strategyId : string) : method (option (list (string * string))) :=
  fun c w =>
    let '(state, c, w) := fetchList strategyId c w in
    match state with
    | ListMissing | ListOk [] => (Some [], c, w)
    | ListFailed => (None, c, w)
    | ListOk dealIds =>
        let '(liveDeals, c, w) := run (getMultiple (map positionKey dealIds)) c w in
        match liveDeals with
        | inr _ => (None, c, w)
        | inl live =>
            (Some (omap (fun d => match live !! positionKey d with
                                  | Some payload => Some (d, payload) | None => None end) dealIds),
             c, w)
        end
    end.

Definition getPositionCount (strategyId : string) : method (option Z) := fun c w =>
  let '(payloads, c, w) := getPositionPayloads strategyId c w in
  (match payloads with Some l => Some (Z.of_nat (length l)) | None => None end, c, w).

(** The deals of the list that still have a record. *)
Definition surviving (dealIds : list string) : method (option (list string)) := fun c w =>
  match dealIds with
  | [] => (Some [], c, w)
  | _ =>
      let '(liveDeals, c, w) := run (getMultiple (map positionKey dealIds)) c w in
      (match liveDeals with
       | inr _ => None
       | inl live => Some (base.filter (fun d => is_Some (live !! positionKey d)) dealIds)
       end, c, w)
  end.

Definition refreshPositionList (strategyId : string) : method (result bool) := fun c w =>
  let '(state, c, w) := fetchList strategyId c w in
  match state with
  | ListMissing => (Ok true, c, w)
  | ListFailed => (Ok false, c, w)
  | ListOk dealIds =>
      let '(survivors, c, w) := surviving dealIds c w in
      match survivors with
      | None => (Ok false, c, w)
      | Some [] =>
          let '(removed, c, w) := run (deleteKey (positionListKey strategyId)) c w in
          (Ok (match removed with inl _ => true | inr _ => false end), c, w)
      | Some survivors => write_list strategyId survivors c w
      end
  end.

Definition removePosition (strategyId dealId : string) : method (result bool) := fun c w =>
  let '(payload, c, w) := run (getDelete (positionKey dealId)) c w in
  match payload with
  | inr _ => (Ok false, c, w)
  | inl payload =>
      let '(c, w) := match payload with
                     | Some p =>
                         let '(_, c, w) := run (setStringWhen (historyPositionKey dealId) p Always
                                                  (Some kHistoryTtl)) c w in (c, w)
                     | None => (c, w)
                     end in
      let '(state, c, w) := fetchList strategyId c w in
      match state with
      | ListMissing => (Ok true, c, w)
      | ListFailed => (Ok false, c, w)
      | ListOk dealIds => write_list strategyId (base.filter (fun d => d <> dealId) dealIds) c w
      end
  end.

(** The outer option is unknown, the inner one a missing key. *)
Definition read_key (key : string) : method (option (option string)) := fun c w =>
  let '(value, c, w) := run (getString key) c w in
  (match value with inl v => Some v | inr _ => None end, c, w).

Definition getPositionPayload (dealId : string) : method (option (option string)) :=
  read_key (positionKey dealId).
Definition getHistoryPositionPayload (dealId : string) : method (option (option string)) :=
  read_key (historyPositionKey dealId).
Definition getDealReceipt (dealReference symbol : string) : method (option string) := fun c w =>
  let '(value, c, w) := read_key (dealReceiptKey dealReference symbol) c w in
  (match value with Some v => v | None => None end, c, w).

(** Sorted by byte order, as [std::string] compares. *)
Definition string_le (s t : string) : Prop := String.leb s t = true.
#[global] Instance string_le_dec s t : Decision (string_le s t).
Proof. unfold string_le. apply _. Defined.

(** [substr(3)] of a key the scan returned; a shorter key would throw. *)
Fixpoint strip_prefix (n : nat) (s : string) : result string :=
  match n, s with
  | O, _ => Ok s
  | S n, String _ s => strip_prefix n s
  | S _, EmptyString => Throw OutOfRange
  end.
Fixpoint strip_all (keys : list string) : result (list string) :=
  match keys with
  | [] => Ok []
  | k :: keys => s <~ strip_prefix 3 k ; ss <~ strip_all keys ; Ok (s :: ss)
  end.

Definition listStrategyIds : method (result (option (list string))) := fun c w =>
  let '(keys, c, w) := run (getKeysByPattern "PL#*") c w in
  match keys with
  | inr _ => (Ok None, c, w)
  | inl keys => (ids <~ strip_all keys ; Ok (Some (sorting.merge_sort string_le ids)), c, w)
  end.

End PositionManager.

(** * The list's text *)

Lemma string_items_map ids : string_items (map JString ids) = Some ids.
Proof. induction ids as [|d ids IH]; [done|]. simpl. now rewrite IH. Qed.

Lemma dump_string_valid s t : dump_json strict false (JString s) = Ok t -> utf8_valid (chars s) = true.
Proof. simpl. rewrite dump_escaped_strict. now destruct (utf8_valid (chars s)). Qed.

Lemma dump_elements_ok (f : json -> result (list Ascii.ascii)) l t :
  dump_elements f l = Ok t -> Forall (fun j => exists u, f j = Ok u) l.
Proof.
  revert t. induction l as [|j l IH]; intros t H; [constructor|]. destruct l as [|j' l].
  - simpl in H. constructor; [|constructor]. destruct (f j); [eauto|discriminate].
  - rewrite dump_elements_cons in H. destruct (f j) as [u|] eqn:E; [|discriminate].
    cbn [result_bind] in H. destruct (dump_elements f (j' :: l)) as [ts|] eqn:E2; [|discriminate].
    constructor; [eauto|now apply (IH ts)].
Qed.

(** What is written for a list is read back as the list. *)
Lemma encode_decode_list ids text :
  encodePositionList ids = Ok text -> decodePositionList text = Some ids.
Proof.
  unfold encodePositionList. intros H.
  assert (json_ok (JArray (map JString ids)) = true) as Hok.
  { simpl. apply forallb_forall. unfold dump in H.
    destruct (dump_json strict false _) as [t|] eqn:E; [|discriminate].
    assert (Forall (fun j => exists u, dump_json strict false j = Ok u) (map JString ids)) as HF.
    { destruct ids as [|d ids]; [constructor|]. eapply (dump_elements_ok _ _ (take (length t - 2) (drop 1 t))).
      change (dump_json strict false (JArray (map JString (d :: ids)))) with
        (t <~ dump_elements (dump_json strict false) (map JString (d :: ids)) ;
         Ok ([char_of 91] ++ t ++ [char_of 93])) in E.
      destruct (dump_elements _ _) as [u|]; [|discriminate]. injection E as <-. f_equal.
      cbn [app drop]. rewrite drop_0, length_cons, length_app. simpl length.
      replace (S (length u + 1) - 2)%nat with (length u) by lia. now rewrite take_app_length. }
    intros j Hj. apply list_elem_of_In in Hj. rewrite Forall_forall in HF.
    destruct (HF _ Hj) as [u Hu]. apply list_elem_of_fmap in Hj as (s & -> & _).
    now apply dump_string_valid in Hu. }
  destruct (dump_parse_canon _ Hok) as (s & Hd & Hp). rewrite Hd in H. injection H as <-.
  unfold decodePositionList. rewrite Hp. simpl. rewrite map_map. simpl. apply string_items_map.
Qed.

Lemma omap_ext_in {A B} (f g : A -> option B) (l : list A) :
  (forall x, x ∈ l -> f x = g x) -> omap f l = omap g l.
Proof.
  induction l as [|x l IH]; intros H; [done|]. simpl.
  assert (omap f l = omap g l) as IH' by (apply IH; intros y Hy; apply H; now constructor).
  rewrite (H x) by constructor. destruct (g x); [f_equal|]; exact IH'.
Qed.

Lemma filter_ext_in {A} (P Q : A -> Prop) `{!forall x, Decision (P x), !forall x, Decision (Q x)}
    (l : list A) :
  (forall x, x ∈ l -> (P x <-> Q x)) -> base.filter P l = base.filter Q l.
Proof.
  induction l as [|x l IH]; intros Hpq; [done|]. rewrite !filter_cons.
  assert (P x <-> Q x) as Hx by (apply Hpq; constructor).
  rewrite IH by (intros y Hy; apply Hpq; now constructor).
  do 2 case_decide; tauto || done.
Qed.

(** * What the methods do *)

Section PositionFacts.
Context {server : Type} {R : RedisServer server} {L : RedisLaws server}.

(** The list a key holds. *)
Definition list_at (s : server) (t : Z) (strategyId : string) : ListState :=
  match lookup_at s t (positionListKey strategyId) with
  | None => ListMissing
  | Some (VString v) =>
      match decodePositionList v with Some ids => ListOk ids | None => ListFailed end
  | Some _ => ListFailed
  end.

(** The deals of a list that have a record. *)
Definition live_deals (s : server) (t : Z) (ids : list string) : list string :=
  base.filter (fun d => is_Some (string_at s t (positionKey d))) ids.

Lemma fetchList_spec strategyId c w state c' w' :
  fetchList strategyId c w = (state, c', w') -> state <> ListFailed ->
  exists t, w_clock w <= t <= w_clock w' /\ list_at (w_server w) t strategyId = state /\
            unchanged t (w_server w) (w_server w').
Proof.
  unfold fetchList. destruct (run _ c w) as [[value c1] w1] eqn:E. intros H Hne.
  assert (c1 = c' /\ w1 = w' /\ match value with
    | inr _ => state = ListFailed
    | inl v => state = match v with
        | None => ListMissing
        | Some v => match decodePositionList v with Some ids => ListOk ids | None => ListFailed end end
    end) as (-> & -> & Hv).
  { destruct value as [[v|]|]; [destruct (decodePositionList v)| |]; injection H as <- <- <-; done. }
  destruct value as [v|]; [|done]. destruct (run_result _ _ _ _ _ _ E) as (t & Ht & Hop & _).
  pose proof (getString_spec t (positionListKey strategyId) (w_server w)) as Hs.
  rewrite Hop in Hs. destruct Hs as [Hun Hr]. exists t. split; [done|]. split; [|done].
  unfold list_at. destruct (lookup_at _ t _) as [[x| |]|]; [|discriminate|discriminate|];
    injection Hr as ->; done.
Qed.

Lemma getMultiple_run ks c w live c' w' :
  run (getMultiple ks) c w = (inl live, c', w') ->
  exists t, w_clock w <= t <= w_clock w' /\ unchanged t (w_server w) (w_server w') /\
    forall k, k ∈ ks -> live !! k = string_at (w_server w) t k.
Proof.
  intros E. destruct (run_result _ _ _ _ _ _ E) as (t & Ht & Hop & _).
  pose proof (getMultiple_spec t ks (w_server w)) as H. rewrite Hop in H.
  destruct H as (Hun & m & [= <-] & Hm). exists t. split; [done|]. split; [done|].
  intros k Hk. rewrite Hm. now rewrite decide_True.
Qed.

Lemma string_at_unchanged t0 t (s s' : server) k :
  unchanged t0 s s' -> t0 <= t -> string_at s' t k = string_at s t k.
Proof. intros H Ht. unfold string_at. now rewrite (H t k Ht). Qed.

Lemma unchanged_trans t1 t2 (s1 s2 s3 : server) :
  t1 <= t2 -> unchanged t1 s1 s2 -> unchanged t2 s2 s3 -> unchanged t2 s1 s3.
Proof. intros Ht H12 H23 t k Hk. rewrite (H23 t k Hk). apply H12. lia. Qed.

(** Every record's payload, in list order; a deal whose record is gone is left
    out. *)
Lemma getPositionPayloads_spec strategyId c w payloads c' w' :
  getPositionPayloads strategyId c w = (Some payloads, c', w') ->
  exists t1 t2, w_clock w <= t1 <= t2 /\ t2 <= w_clock w' /\
    unchanged t2 (w_server w) (w_server w') /\
    match list_at (w_server w) t1 strategyId with
    | ListOk ids =>
        payloads = omap (fun d => match string_at (w_server w) t2 (positionKey d) with
                                  | Some p => Some (d, p) | None => None end) ids
    | ListMissing => payloads = []
    | ListFailed => False
    end.
Proof.
  unfold getPositionPayloads. destruct (fetchList strategyId c w) as [[state c1] w1] eqn:E.
  intros H. destruct state as [ids| |]; [| |discriminate];
    destruct (fetchList_spec _ _ _ _ _ _ E ltac:(done)) as (t1 & Ht1 & Hl & Hun).
  - destruct ids as [|d ids].
    { injection H as <- <- <-. exists t1, t1. rewrite Hl. split; [lia|]. split; [lia|]. done. }
    destruct (run _ c1 w1) as [[live c2] w2] eqn:E2. destruct live as [live|]; [|discriminate].
    injection H as <- <- <-.
    destruct (getMultiple_run _ _ _ _ _ _ E2) as (t2 & Ht2 & Hun2 & Hlive).
    exists t1, t2. rewrite Hl. split; [lia|]. split; [lia|].
    split; [apply (unchanged_trans t1 t2 _ (w_server w1)); [lia|done|done]|].
    assert (forall d0, d0 ∈ d :: ids ->
      live !! positionKey d0 = string_at (w_server w) t2 (positionKey d0)) as Heq.
    { intros d0 Hd0. rewrite Hlive; [|now apply (list_elem_of_fmap_2 positionKey)].
      apply (string_at_unchanged t1); [done|lia]. }
    apply (omap_ext_in (fun d => match live !! positionKey d with
                                 | Some p => Some (d, p) | None => None end) _ (d :: ids)).
    intros d0 Hd0. now rewrite (Heq d0 Hd0).
  - injection H as <- <- <-. exists t1, t1. rewrite Hl. split; [lia|]. split; [lia|]. done.
Qed.

Lemma live_deals_omap (s : server) t ids :
  length (omap (fun d => match string_at s t (positionKey d) with
                         | Some p => Some (d, p) | None => None end) ids)
  = length (live_deals s t ids).
Proof.
  unfold live_deals. induction ids as [|d ids IH]; [done|].
  rewrite filter_cons. simpl. destruct (string_at s t (positionKey d)) as [p|].
  - rewrite decide_True by eauto. simpl. f_equal. exact IH.
  - rewrite decide_False by (intros [? ?]; discriminate). exact IH.
Qed.

(** The count that gates entries is exact. [getPositionCount] counts the
    listed deals whose record is still alive, zero where there is no list, and
    changes nothing; where the server cannot be reached, or the list is not a
    list of strings, there is no count at all. *)
Theorem getPositionCount_exact strategyId c w n c' w' :
  getPositionCount strategyId c w = (Some n, c', w') ->
  exists t1 t2, w_clock w <= t1 <= t2 /\ t2 <= w_clock w' /\
    unchanged t2 (w_server w) (w_server w') /\
    match list_at (w_server w) t1 strategyId with
    | ListOk ids => n = Z.of_nat (length (live_deals (w_server w) t2 ids))
    | ListMissing => n = 0
    | ListFailed => False
    end.
Proof.
  unfold getPositionCount. destruct (getPositionPayloads strategyId c w) as [[p c1] w1] eqn:E.
  destruct p as [p|]; [|discriminate]. intros [= <- <- <-].
  apply getPositionPayloads_spec in E as (t1 & t2 & Ht1 & Ht2 & Hun & Hp).
  exists t1, t2. do 3 (split; [done|]).
  destruct (list_at _ t1 _) as [ids| |]; [|now subst|done]. now rewrite Hp, live_deals_omap.
Qed.

Lemma write_list_spec strategyId ids c w c' w' :
  write_list strategyId ids c w = (Ok true, c', w') ->
  exists t text, w_clock w <= t <= w_clock w' /\ encodePositionList ids = Ok text /\
    stored t (positionListKey strategyId) (VString text) None (w_server w) (w_server w').
Proof.
  unfold write_list. destruct (encodePositionList ids) as [text|]; [|discriminate].
  destruct (run _ c w) as [[r c1] w1] eqn:E. destruct r as [b|]; [|discriminate].
  intros [= -> <- <-]. destruct (run_result _ _ _ _ _ _ E) as (t & Ht & Hop & _).
  pose proof (setStringWhen_spec t (positionListKey strategyId) text Always None (w_server w)) as H.
  rewrite Hop in H. destruct H as [_ H]; [discriminate|]. exists t, text. done.
Qed.

Lemma stored_unchanged t1 t k v x (s1 s2 s3 : server) :
  t1 <= t -> unchanged t1 s1 s2 -> stored t k v x s2 s3 -> stored t k v x s1 s3.
Proof. intros Ht H12 H23 t' k' Hk. rewrite (H23 t' k' Hk). case_decide; [done|]. apply H12. lia. Qed.

Lemma removed_unchanged t1 t k (s1 s2 s3 : server) :
  t1 <= t -> unchanged t1 s1 s2 -> removed t k s2 s3 -> removed t k s1 s3.
Proof. intros Ht H12 H23 t' k' Hk. rewrite (H23 t' k' Hk). case_decide; [done|]. apply H12. lia. Qed.

Lemma stored_list_at strategyId ids text t (s s' : server) :
  encodePositionList ids = Ok text ->
  stored t (positionListKey strategyId) (VString text) None s s' ->
  forall t', t <= t' -> list_at s' t' strategyId = ListOk ids.
Proof.
  intros He Hs t' Ht'. unfold list_at. rewrite (Hs t' _ Ht'), decide_True by done.
  now rewrite (encode_decode_list _ _ He).
Qed.

(** The deals a refresh keeps. *)
Lemma surviving_spec ids c w survivors c' w' :
  surviving ids c w = (Some survivors, c', w') ->
  exists t, w_clock w <= t <= w_clock w' /\ unchanged t (w_server w) (w_server w') /\
    survivors = live_deals (w_server w) t ids.
Proof.
  unfold surviving. destruct ids as [|d ids].
  { intros [= <- <- <-]. exists (w_clock w). split; [lia|]. done. }
  destruct (run _ c w) as [[live c1] w1] eqn:E. destruct live as [live|]; [|discriminate].
  intros [= <- <- <-]. destruct (getMultiple_run _ _ _ _ _ _ E) as (t & Ht & Hun & Hlive).
  exists t. split; [done|]. split; [done|]. unfold live_deals.
  assert (forall d0, d0 ∈ d :: ids ->
    live !! positionKey d0 = string_at (w_server w) t (positionKey d0)) as Heq.
  { intros d0 Hd0. now rewrite Hlive by now apply (list_elem_of_fmap_2 positionKey). }
  apply (filter_ext_in _ _ (d :: ids)). intros d0 Hd0. now rewrite (Heq d0 Hd0).
Qed.

(** A refresh keeps exactly the deals that are still alive. When
    [refreshPositionList] reports success the list holds the deals whose record
    still existed, in their order; a list with none left is deleted, a missing
    one left missing, and no other key is touched. *)
Theorem refresh_keeps_live strategyId c w c' w' :
  refreshPositionList strategyId c w = (Ok true, c', w') ->
  exists t1 t2 t3, w_clock w <= t1 <= t2 /\ t2 <= t3 <= w_clock w' /\
    match list_at (w_server w) t1 strategyId with
    | ListMissing => unchanged t1 (w_server w) (w_server w')
    | ListFailed => False
    | ListOk ids =>
        match live_deals (w_server w) t2 ids with
        | [] => removed t3 (positionListKey strategyId) (w_server w) (w_server w')
        | survivors =>
            (forall t, t3 <= t -> list_at (w_server w') t strategyId = ListOk survivors) /\
            exists text, stored t3 (positionListKey strategyId) (VString text) None
                           (w_server w) (w_server w')
        end
    end.
Proof.
  unfold refreshPositionList. destruct (fetchList strategyId c w) as [[state c1] w1] eqn:E.
  intros H. destruct state as [ids| |]; [| |discriminate];
    destruct (fetchList_spec _ _ _ _ _ _ E ltac:(done)) as (t1 & Ht1 & Hl & Hun).
  2:{ injection H as <- <-. exists t1, t1, t1. rewrite Hl. split; [lia|]. split; [lia|]. done. }
  destruct (surviving ids c1 w1) as [[survivors c2] w2] eqn:E2.
  destruct survivors as [survivors|]; [|discriminate].
  apply surviving_spec in E2 as (t2 & Ht2 & Hun2 & Hs).
  assert (survivors = live_deals (w_server w) t2 ids) as Hs0.
  { rewrite Hs. unfold live_deals. apply list_filter_iff. intros d.
    now rewrite (string_at_unchanged t1 t2 (w_server w) (w_server w1)) by (done || lia). }
  assert (unchanged t2 (w_server w) (w_server w2)) as Hun12
    by (apply (unchanged_trans t1 t2 _ (w_server w1)); [lia|done|done]).
  destruct survivors as [|d survivors].
  - destruct (run _ c2 w2) as [[r c3] w3] eqn:E3. injection H as Hr <- <-.
    destruct r as [b|]; [|discriminate]. destruct (run_result _ _ _ _ _ _ E3) as (t3 & Ht3 & Hop & _).
    pose proof (deleteKey_spec t3 (positionListKey strategyId) (w_server w2)) as Hd.
    rewrite Hop in Hd. destruct Hd as [_ Hd].
    exists t1, t2, t3. rewrite Hl, <- Hs0. split; [lia|]. split; [lia|].
    apply (removed_unchanged t2 t3 _ _ (w_server w2)); [lia|done|done].
  - apply write_list_spec in H as (t3 & text & Ht3 & He & Hst).
    exists t1, t2, t3. rewrite Hl, <- Hs0. split; [lia|]. split; [lia|].
    assert (stored t3 (positionListKey strategyId) (VString text) None (w_server w) (w_server w'))
      as Hst' by (apply (stored_unchanged t2 t3 _ _ _ _ (w_server w2)); [lia|done|done]).
    split; [|eauto]. now apply (stored_list_at _ _ text t3 (w_server w)).
Qed.

(** An identifier added is in the list from then on; one already there changes
    nothing. *)
Lemma addPosition_spec strategyId dealId c w c' w' :
  addPosition strategyId dealId c w = (Ok true, c', w') ->
  exists t1 t2, w_clock w <= t1 <= t2 /\ t2 <= w_clock w' /\
    let ids := match list_at (w_server w) t1 strategyId with ListOk ids => ids | _ => [] end in
    list_at (w_server w) t1 strategyId <> ListFailed /\
    (dealId ∈ ids /\ unchanged t2 (w_server w) (w_server w') \/
     dealId ∉ ids /\ forall t, t2 <= t -> list_at (w_server w') t strategyId = ListOk (ids ++ [dealId])).
Proof.
  unfold addPosition. destruct (fetchList strategyId c w) as [[state c1] w1] eqn:E.
  intros H.
  assert (state <> ListFailed) as Hne by (intros ->; discriminate).
  destruct (fetchList_spec _ _ _ _ _ _ E Hne) as (t1 & Ht1 & Hl & Hun).
  set (ids := match state with ListOk ids => ids | _ => [] end).
  assert ((if bool_decide (dealId ∈ ids) then (Ok true, c1, w1)
           else write_list strategyId (ids ++ [dealId]) c1 w1) = (Ok true, c', w')) as H'
    by (now destruct state).
  clear H. case_bool_decide as Hin.
  - injection H' as <- <-. exists t1, t1. rewrite Hl. fold ids. split; [lia|]. split; [lia|]. auto.
  - apply write_list_spec in H' as (t2 & text & Ht2 & He & Hst). exists t1, t2. rewrite Hl. fold ids.
    split; [lia|]. split; [lia|]. split; [done|]. right. split; [done|].
    apply (stored_list_at _ _ text t2 (w_server w1)); [done|].
    now apply (stored_unchanged t2 t2 _ _ _ _ (w_server w1)).
Qed.

End PositionFacts.

(** * A book of two deals, one of them expired *)

Definition book_start : world store := mkWorld ∅ 1000 [].
Definition then_do {A} (m : method (server := store) A) (cw : client * world store)
    : client * world store := let '(_, c, w) := m cw.1 cw.2 in (c, w).
Definition book : client * world store :=
  then_do (addPosition "s1" "d2")
    (then_do (savePosition "d2" "{}" 1)
      (then_do (addPosition "s1" "d1")
        (then_do (savePosition "d1" "{}" 300000) (makeClient, book_start)))).
(** Two milliseconds later the second deal's record is gone. *)
Definition book_later : world store := mkWorld (w_server book.2) (w_clock book.2 + 2000) [].

Lemma getPositionCount_exact_witness :
  (getPositionCount "s1" makeClient book_later).1.1 = Some 1 /\
  exists t1 t2, w_clock book_later <= t1 <= t2 /\
    match list_at (w_server book_later) t1 "s1" with
    | ListOk ids => 1 = Z.of_nat (length (live_deals (w_server book_later) t2 ids))
    | _ => False
    end.
Proof.
  assert (getPositionCount "s1" makeClient book_later =
    (Some 1, makeClient, mkWorld (w_server book_later) (w_clock book_later) [])) as H
    by (vm_compute; reflexivity).
  split; [now rewrite H|].
  destruct (getPositionCount_exact _ _ _ _ _ _ H) as (t1 & t2 & Ht1 & Ht2 & _ & Hn).
  exists t1, t2. split; [exact Ht1|]. cbn [w_clock w_server] in Ht2.
  assert (t1 = w_clock book_later) as -> by lia. clear - Hn.
  destruct (list_at _ _ _) as [ids| |] eqn:E; [exact Hn|vm_compute in E; discriminate E|exact Hn].
Defined.

Lemma refresh_keeps_live_witness :
  let '(r, _, w) := refreshPositionList "s1" makeClient book_later in
  r = Ok true /\ list_at (w_server w) (w_clock w) "s1" = ListOk ["d1"] /\
  exists t3 text, stored t3 (positionListKey "s1") (VString text) None (w_server book_later) (w_server w).
Proof.
  destruct (refreshPositionList "s1" makeClient book_later) as [[r c] w] eqn:E.
  assert (r = Ok true) as -> by (apply (f_equal (fun x => x.1.1)) in E; vm_compute in E; now rewrite <- E).
  assert (w = (refreshPositionList "s1" makeClient book_later).2) as Hw by now rewrite E.
  split; [reflexivity|]. split; [rewrite Hw; vm_compute; reflexivity|].
  destruct (refresh_keeps_live _ _ _ _ _ E) as (t1 & t2 & t3 & Ht1 & Ht3 & H).
  assert (w_clock w = w_clock book_later) as Hc by (rewrite Hw; vm_compute; reflexivity).
  assert (t1 = w_clock book_later) as H1 by lia. assert (t2 = w_clock book_later) as H2 by lia.
  subst t1 t2. assert (list_at (w_server book_later) (w_clock book_later) "s1" = ListOk ["d1"; "d2"]) as Hl
    by (vm_compute; reflexivity).
  assert (live_deals (w_server book_later) (w_clock book_later) ["d1"; "d2"] = ["d1"]) as Hd
    by (vm_compute; reflexivity).
  rewrite Hl, Hd in H. destruct H as [_ [text Ht]]. exists t3, text. exact Ht.
Defined.
