(* ===== verification/PositionText.v ===== *)
(** [std::format] of a double with no format specification - the shortest text that
    reads back, fixed or scientific, whichever is shorter - and the hand-written records
    of the position book: [encodePositionRecord] of shared/redis/positionManager.cpp and
    the lemmas that read such text back. *)
From Stdlib Require Import ZArith Lia SpecFloat.
From stdpp Require Import base list strings.
From S2P Require Import Prelude Double Json JsonFloat JsonDump JsonParse JsonRoundTrip StdText ConfigJson Redis Positions.
Open Scope Z_scope.

(** [m * 2^e] as a fraction. *)
Definition numerator (m : positive) (e : Z) : Z := Zpos m * 2 ^ Z.max e 0.
Definition denominator (e : Z) : Z := 2 ^ Z.max (- e) 0.

(** [floor (v / 10^k)]. *)
Definition scaled_floor (m : positive) (e k : Z) : Z :=
  (numerator m e * 10 ^ Z.max (- k) 0) / (denominator e * 10 ^ Z.max k 0).

(** The [p] with [10^(p-1) <= v < 10^p]. *)
Definition decimal_point (m : positive) (e : Z) : Z :=
  let p := ((Z.log2 (Zpos m) + e) * 1233) / 4096 in
  if 0 <? scaled_floor m e (p + 1) then p + 2
  else if 0 <? scaled_floor m e p then p + 1 else p.

(** The decimal of [n] digits nearest to the value among those that read back. *)
Definition candidate (m : positive) (e n : Z) : option (Z * Z) :=
  let k := decimal_point m e - n in
  let lo := scaled_floor m e k in
  let reads d := dbl_same (dbl_of_decimal false d k) (S754_finite false m e) in
  let below := 2 * scaled_floor m e (k - 20) <=? (2 * lo + 1) * 10 ^ 20 in
  match reads lo, reads (lo + 1) with
  | true, true => Some (if below then lo else lo + 1, k)
  | true, false => Some (lo, k)
  | false, true => Some (lo + 1, k)
  | false, false => None
  end.

Fixpoint shortest_from (fuel : nat) (n : Z) (m : positive) (e : Z) : option (Z * Z) :=
  match fuel with
  | O => None
  | S fuel => match candidate m e n with Some dk => Some dk | None => shortest_from fuel (n + 1) m e end
  end.

(** Seventeen digits are enough for any double. *)
Definition shortest (m : positive) (e : Z) : option (Z * Z) := shortest_from 17 1 m e.

(** Trailing zeros move to the exponent. *)
Fixpoint strip_zeros (fuel : nat) (d k : Z) : Z * Z :=
  match fuel with
  | O => (d, k)
  | S fuel => if d mod 10 =? 0 then strip_zeros fuel (d / 10) (k + 1) else (d, k)
  end.

Definition zeros (n : Z) : list Ascii.ascii := replicate (Z.to_nat n) (digit_char 0).

Definition fixed_text (m : positive) (e d k : Z) : list Ascii.ascii :=
  if 0 <=? k then to_string_chars (numerator m e / denominator e)
  else
    let ds := to_string_chars d in
    let n := Z.of_nat (length ds) in
    if - k <? n
    then take (Z.to_nat (n + k)) ds ++ char_of 46 :: drop (Z.to_nat (n + k)) ds
    else digit_char 0 :: char_of 46 :: zeros (- k - n) ++ ds.

Definition scientific_text (d k : Z) : list Ascii.ascii :=
  match to_string_chars d with
  | [] => []
  | c :: ds =>
      let x := k + Z.of_nat (length ds) in
      let exponent := to_string_chars (Z.abs x) in
      (c :: (match ds with [] => [] | _ => char_of 46 :: ds end)) ++
      char_of 101 :: char_of (if x <? 0 then 45 else 43) ::
      (if Z.abs x <? 10 then digit_char 0 :: exponent else exponent)
  end.

Definition format_finite (m : positive) (e : Z) : list Ascii.ascii :=
  match shortest m e with
  | None => []
  | Some (d, k) =>
      let '(d, k) := strip_zeros 20 d k in
      let fixed := fixed_text m e d k in
      let scientific := scientific_text d k in
      if (length fixed <=? length scientific)%nat then fixed else scientific
  end.

Definition format_double_chars (v : double) : list Ascii.ascii :=
  match v with
  | S754_zero s => if s then [char_of 45; digit_char 0] else [digit_char 0]
  | S754_infinity s => chars (if s then "-inf" else "inf")
  | S754_nan => chars "nan"
  | S754_finite s m e => (if s then [char_of 45] else []) ++ format_finite m e
  end.

Definition format_double (v : double) : string := text (format_double_chars v).

Example format_samples :
  map format_double [dbl_of_Z 1; dbl_decimal 5 1; dbl_decimal 2 1; dbl_decimal 110001 5; dbl_of_Z 120; dbl_of_Z 100000;
    dbl_of_Z 1000000; dbl_decimal 1 4; dbl_decimal 1 5; dbl_div (dbl_of_Z 1) (dbl_of_Z 3); dbl_zero;
    dbl_mul (dbl_of_Z 123456789) (dbl_of_Z 100000000000000000)] =
  ["1"; "0.5"; "0.2"; "1.10001"; "120"; "1e+05"; "1e+06"; "1e-04"; "1e-05"; "0.3333333333333333"; "0";
   "1.23456789e+25"]%string.
Proof. vm_compute. reflexivity. Qed.

(** * Text *)

(** One member of a hand-written object. *)
Definition quoted (s : string) : string := text (quote_char :: chars s ++ [quote_char]).
Definition field (key value : string) : string := quoted key +:+ ":" +:+ value.
Definition text_field (key value : string) : string := field key (quoted value).

Definition braces (fields : list string) : string :=
  text (char_of 123 :: join_commas (map chars fields) ++ [char_of 125]).

Definition encodePositionRecord (r : PositionRecord) : string :=
  braces
    [text_field "dealId" (pr_dealId r);
     text_field "dealReference" (pr_dealReference r);
     text_field "symbol" (pr_symbol r);
     text_field "epic" (pr_epic r);
     text_field "direction" (pr_direction r);
     field "size" (format_double (pr_size r));
     field "level" (to_string (pr_level r));
     field "stopLevel" (to_string (pr_stopLevel r));
     field "limitLevel" (to_string (pr_limitLevel r));
     text_field "strategyId" (pr_strategyId r);
     text_field "strategyName" (pr_strategyName r);
     field "openedAt" (to_string (pr_openedAtMicros r))].

(** * Reading it back *)

(** An identifier: printable ASCII with nothing to escape. *)
Definition plain_char (c : Ascii.ascii) : bool :=
  (32 <=? byte_of c) && (byte_of c <? 127) && negb (byte_of c =? 34) && negb (byte_of c =? 92).
Definition plain (s : string) : bool := forallb plain_char (chars s).

Lemma plain_char_escape c : plain_char c = true -> escape_byte c = [c] /\ utf8_step UTF8_ACCEPT (byte_of c) = UTF8_ACCEPT.
Proof. destruct c as [[] [] [] [] [] [] [] []]; intros H; try (split; reflexivity); vm_compute in H; discriminate. Qed.

Lemma plain_escape l : forallb plain_char l = true -> escape_text l = l /\ utf8_valid l = true.
Proof.
  intros H. assert (escape_text l = l /\ utf8_run UTF8_ACCEPT l = UTF8_ACCEPT) as [E U]; [|unfold utf8_valid; now rewrite U].
  induction l as [|c l IH]; [done|]. cbn [forallb] in H. apply andb_true_iff in H as [Hc Hl].
  destruct (plain_char_escape c Hc) as [Ec Es]. destruct (IH Hl) as [E U]. split.
  - unfold escape_text in *. cbn [flat_map]. now rewrite Ec, E.
  - unfold utf8_run in *. cbn [foldl]. now rewrite Es.
Qed.

Lemma dump_integer_to_string z : - 2 ^ 63 <= z < 2 ^ 63 -> dump_integer z = Ok (to_string_chars z).
Proof.
  intros Hz. destruct (dump_integer_prints z) as [[-> E]|[(Hp & ds & E & _)|(Hn & ds & E & _)]]; [lia|done|..].
  - rewrite E. revert E. unfold dump_integer, to_string_chars.
    rewrite (proj2 (Z.eqb_neq z 0)), (proj2 (Z.ltb_ge z 0)) by lia. destruct (_ =? _); [|done]. now intros [= <-].
  - rewrite E. revert E. unfold dump_integer, to_string_chars.
    rewrite (proj2 (Z.eqb_neq z 0)), (proj2 (Z.ltb_lt z 0)) by lia. rewrite remove_sign_abs by (unfold in_i64; lia).
    destruct (_ =? _); [|done]. now intros [= <-].
Qed.

(** An integer's text reads as the number. *)
Definition integer_json (z : Z) : json := if 0 <=? z then JUnsigned z else JInteger z.

Lemma reads_to_string z : - 2 ^ 63 <= z < 2 ^ 63 -> reads (chars (to_string z)) (integer_json z).
Proof.
  intros Hz. unfold to_string. rewrite chars_text.
  apply (reads_integer z); [lia|now apply dump_integer_to_string|reflexivity].
Qed.

Lemma reads_quoted s : plain s = true -> reads (chars (quoted s)) (JString s).
Proof.
  intros [E U]%plain_escape. unfold quoted. rewrite chars_text.
  assert (reads (quote_char :: escape_text (chars s) ++ [quote_char]) (JString s)) as H; [|now rewrite E in H].
  apply (reads_literal _ _ (value_string (chars s))); [|done|].
  - intros tail. cbn [app]. rewrite <- app_assoc. now apply scan_quoted.
  - intros. cbn [sax_parse_internal parse_step token_step]. now rewrite text_chars.
Qed.

(** What a double's text reads as. *)
Definition size_json (v : double) : option json :=
  match scan (chars (format_double v)) with
  | (value_float d, []) => if dbl_isfinite d then Some (JFloat d) else None
  | (value_unsigned z, []) => Some (JUnsigned z)
  | (value_integer z, []) => Some (JInteger z)
  | _ => None
  end.

(** The double's text starts a number and reads back as the double. *)
Definition size_reads (v : double) : bool :=
  match size_json v with
  | Some j => match chars (format_double v) with c :: _ => (byte_of c =? 45) || is_digit c | [] => false end && match get_double j with Ok d => dbl_same d v | Throw _ => false end
  | None => false
  end.

Lemma scan_number_whole l t tail :
  value_tail tail = true -> final_token t = false ->
  match l with c :: _ => (byte_of c =? 45) || is_digit c | [] => false end = true ->
  scan l = (t, []) -> scan (l ++ tail) = (t, tail).
Proof.
  intros Ht Hf Hc E. destruct l as [|c l]; [done|]. cbn [app] in *.
  assert (byte_of c = 45 \/ is_digit c = true) as Hc' by (zbool; tauto).
  rewrite scan_number_start in * by done. now apply (scan_number_tail (c :: l)).
Qed.

Lemma reads_size v j : size_json v = Some j -> size_reads v = true -> reads (chars (format_double v)) j.
Proof.
  intros Hj Hr. unfold size_reads in Hr. rewrite Hj in Hr. apply andb_true_iff in Hr as [Hc _].
  unfold size_json in Hj. destruct (scan (chars (format_double v))) as [tok rest] eqn:E.
  apply reads_scalar. intros tail Ht. exists tok.
  destruct tok as [| | |s|z|z|d| | | | | | | |]; try done; destruct rest; try done.
  1,2: injection Hj as <-; split; [now apply scan_number_whole|]; done.
  destruct (dbl_isfinite d) eqn:Ef; [|done]. injection Hj as <-. split; [now apply scan_number_whole|].
  split; [done|]. intros. cbn [sax_parse_internal parse_step token_step]. now rewrite Ef.
Qed.

(** The members of a hand-written object, set one by one. *)
Definition set_members (m acc : list (string * json)) : list (string * json) :=
  foldl (fun acc kv => obj_set kv.1 kv.2 acc) acc m.

Lemma reads_fields ts m tail :
  Forall2 reads_member ts m -> ts <> [] ->
  exists l1 k tok l n, scan (join_commas ts ++ char_of 125 :: tail) = (value_string (chars k), l1) /\
    scan_key (value_string (chars k)) l1 = Some (k, tok, l) /\
    forall fuel stack acc,
      sax_parse_internal (n + fuel) (object_frame acc k :: stack) (at_token tok) l =
      sax_parse_internal fuel stack (at_value (JObject (set_members m acc))) tail.
Proof.
  induction 1 as [|t [key v] ts m Ht Hts IH]; [done|]. intros _. destruct ts as [|t' ts].
  - inversion Hts; subst.
    destruct (reads_member_scan t _ (char_of 125 :: tail) Ht eq_refl) as (l1 & tok & l & n & Hs & Hk & Hrun).
    exists l1, key, tok, l, (n + 1)%nat. split; [done|]. split; [done|]. intros fuel stack acc.
    rewrite <- Nat.add_assoc, Hrun. reflexivity.
  - destruct (IH ltac:(done)) as (l2 & k2 & tok2 & l2' & n2 & Hs2 & Hk2 & Hrun2).
    rewrite join_commas_cons. destruct (reads_member_scan t _ (char_of 44 ::
      (join_commas (t' :: ts) ++ char_of 125 :: tail)) Ht eq_refl) as (l1 & tok & l & n & Hs & Hk & Hrun).
    exists l1, key, tok, l, (n + (1 + n2))%nat. split; [done|]. split; [done|]. intros fuel stack acc.
    rewrite <- !Nat.add_assoc, Hrun. cbn [Nat.add sax_parse_internal parse_step fst snd]; unfold object_step.
    change (scan (char_of 44 :: ?l)) with (value_separator, l). cbv iota beta. rewrite Hs2, Hk2. apply Hrun2.
Qed.

(** A whole object read from hand-written fields. *)
Lemma parse_braces fields m :
  Forall2 (fun t kv => reads_member (chars t) kv) fields m -> fields <> [] ->
  parse (braces fields) = Ok (JObject (set_members m [])).
Proof.
  intros Hf Hne. unfold braces. apply reads_parse. intros tail _.
  destruct (reads_fields (map chars fields) m tail) as (l1 & k & tok & l & n & Hs & Hk & Hrun).
  - now apply Forall2_fmap_l.
  - now destruct fields.
  - exists begin_object, (join_commas (map chars fields) ++ char_of 125 :: tail), (S n).
    cbn [app]. rewrite <- app_assoc. split; [done|]. split; [done|]. intros fuel stack.
    cbn [Nat.add sax_parse_internal parse_step token_step]. unfold begin_object_step. rewrite Hs, Hk. apply Hrun.
Qed.

Lemma field_reads key value v : plain key = true -> reads (chars value) v -> reads_member (chars (field key value)) (key, v).
Proof.
  intros Hk Hr. destruct (plain_escape _ Hk) as [E U]. exists (chars value). split; [|done].
  unfold field, quoted, member_text. rewrite !chars_append, chars_text. cbn [fst]. rewrite E.
  cbn [app]. now rewrite <- !app_assoc.
Qed.

(** * The record *)

(** What a record must be for its text to be unambiguous: identifiers that need
    no escape, integers of their width and a size whose text reads back. *)
Definition plain_record (r : PositionRecord) : bool :=
  plain (pr_dealId r) && plain (pr_dealReference r) && plain (pr_symbol r) && plain (pr_epic r) &&
  plain (pr_direction r) && plain (pr_strategyId r) && plain (pr_strategyName r) && size_reads (pr_size r).

Definition record_members (r : PositionRecord) (size : json) : list (string * json) :=
  [("dealId", JString (pr_dealId r)); ("dealReference", JString (pr_dealReference r));
   ("symbol", JString (pr_symbol r)); ("epic", JString (pr_epic r)); ("direction", JString (pr_direction r));
   ("size", size); ("level", integer_json (pr_level r)); ("stopLevel", integer_json (pr_stopLevel r));
   ("limitLevel", integer_json (pr_limitLevel r)); ("strategyId", JString (pr_strategyId r));
   ("strategyName", JString (pr_strategyName r)); ("openedAt", integer_json (pr_openedAtMicros r))].

Lemma get_int_integer z : in_i32 z -> is_number (integer_json z) = true /\ get_int (integer_json z) = Ok z.
Proof.
  intros Hz. unfold integer_json. destruct (0 <=? z); (split; [done|]); cbn; now rewrite i32_id.
Qed.

Lemma get_int64_integer z : in_i64 z -> is_number (integer_json z) = true /\ get_int64 (integer_json z) = Ok z.
Proof.
  intros Hz. unfold integer_json. destruct (0 <=? z); (split; [done|]); cbn; now rewrite ?i64_id.
Qed.

(** The stored record of a plain position decodes to it. *)
Lemma record_reads r :
  plain_record r = true -> in_i32 (pr_level r) -> in_i32 (pr_stopLevel r) -> in_i32 (pr_limitLevel r) ->
  in_i64 (pr_openedAtMicros r) ->
  pr_dealReference r <> EmptyString -> pr_symbol r <> EmptyString -> pr_direction r <> EmptyString ->
  decodePositionRecord (encodePositionRecord r) = Ok (Some r).
Proof.
  unfold plain_record. rewrite !andb_true_iff. intros Hp H1 H2 H3 H4 N1 N2 N3. destruct_and!.
  assert (Hsz := H0). unfold size_reads in Hsz. destruct (size_json (pr_size r)) as [j|] eqn:Ej; [|done].
  apply andb_true_iff in Hsz as [_ Hj]. destruct (get_double j) as [d|] eqn:Ed; [|done].
  apply dbl_same_eq in Hj. subst d.
  assert (is_number j = true) as Hnum.
  { unfold size_json in Ej. destruct (scan _) as [[] []]; try done; try (injection Ej as <-; done).
    destruct (dbl_isfinite d); [|done]. now injection Ej as <-. }
  assert (parse (encodePositionRecord r) = Ok (JObject (set_members (record_members r j) []))) as E.
  { unfold encodePositionRecord, record_members. apply parse_braces; [|done].
    unfold text_field.
    repeat (constructor; [apply field_reads; [reflexivity|];
      first [now apply reads_quoted|apply reads_to_string; unfold in_i32, in_i64 in *; lia|now apply reads_size]|]).
    constructor. }
  unfold decodePositionRecord. rewrite E.
  destruct (get_int_integer _ H1) as [B1 G1]. destruct (get_int_integer _ H2) as [B2 G2].
  destruct (get_int_integer _ H3) as [B3 G3]. destruct (get_int64_integer _ H4) as [B4 G4].
  cbn [is_object negb]. unfold readNumber, readString, json_find. unfold set_members. rewrite !obj_find_assigned.
  cbn [assoc record_members rev app String.eqb Ascii.eqb Bool.eqb].
  rewrite B1, B2, B3, B4, Hnum, G1, G2, G3, G4, Ed. cbn [result_bind pr_dealReference pr_symbol pr_direction].
  rewrite (proj2 (String.eqb_neq _ _) N1), (proj2 (String.eqb_neq _ _) N2), (proj2 (String.eqb_neq _ _) N3). cbn [orb].
  now destruct r.
Qed.

(** A trading size of up to a hundred lots, times what the markets multiply it by
    (one, a half, a fifth). *)
Definition broker_size (lots : nat) (tenths : Z) : double := dbl_mul (dbl_of_Z (Z.of_nat lots)) (dbl_decimal tenths 1).

Lemma broker_sizes_read : forallb (fun lots => forallb (fun tenths => size_reads (broker_size lots tenths)) [10; 5; 2]) (seq 0 101) = true.
Proof. vm_compute. reflexivity. Qed.

(** The stored record of a position decodes to that position: identifiers of
    plain characters, levels and opening time in their types, and the broker size
    of up to a hundred lots on any market of the table. *)
Theorem record_round_trip r lots tenths :
  forallb plain [pr_dealId r; pr_dealReference r; pr_symbol r; pr_epic r; pr_direction r; pr_strategyId r; pr_strategyName r]
    = true ->
  (lots <= 100)%nat -> tenths ∈ [10; 5; 2] -> pr_size r = broker_size lots tenths ->
  in_i32 (pr_level r) -> in_i32 (pr_stopLevel r) -> in_i32 (pr_limitLevel r) -> in_i64 (pr_openedAtMicros r) ->
  pr_dealReference r <> EmptyString -> pr_symbol r <> EmptyString -> pr_direction r <> EmptyString ->
  decodePositionRecord (encodePositionRecord r) = Ok (Some r).
Proof.
  intros Hp Hl Ht Hs. apply record_reads. unfold plain_record. cbn [forallb] in Hp. rewrite andb_true_r, <- !andb_assoc in *.
  assert (size_reads (pr_size r) = true) as ->; [|now rewrite andb_true_r].
  rewrite Hs. pose proof broker_sizes_read as H. rewrite forallb_forall in H.
  specialize (H lots ltac:(apply in_seq; lia)). rewrite forallb_forall in H. apply H. now apply list_elem_of_In.
Qed.

Definition demo_record : PositionRecord :=
  mkPosition "DI1" "REF1" "USTECHIDXUSD" "IX.D.NASDAQ.IFS.IP" "BUY" (broker_size 3 5) 15000 (-20) 15100 "s1" "FvgStrategy" 1767225600000000.

Lemma record_round_trip_witness : decodePositionRecord (encodePositionRecord demo_record) = Ok (Some demo_record).
Proof.
  apply (record_round_trip demo_record 3 5); (reflexivity || (unfold in_i32, in_i64; cbn; lia) || discriminate || idtac).
  apply list_elem_of_In. cbn. tauto.
Defined.
