(* ===== verification/Clusters.v ===== *)
(** Position clustering: the portfolio-level entry gate of
    [shared/redis/positionClustering.cpp/.hpp]. Every symbol belongs to risk
    clusters; an entry takes a short lock on each of them and is blocked when any
    is full, already holds the same symbol and strategy, or (a strict one)
    already holds the strategy. *)
From Stdlib Require Import ZArith Lia.
From stdpp Require Import base gmap sets list strings sorting.
From S2P Require Import Prelude Json Redis RedisStore Positions.
Open Scope Z_scope.

Definition clusterKey (cluster : string) : string := "CG#" +:+ cluster.
Definition clusterLockKey (cluster : string) : string := "CLUSTER_LOCK#" +:+ cluster.

(** * The tables *)

(** One symbol's memberships: padded to four, [sc_count] the used prefix. *)
Record SymbolClusters : Type := mkClusters {
  sc_symbol : string;
  sc_groups : list string;
  sc_count : nat }.

Definition kClusterTable : list SymbolClusters :=
  [
    mkClusters "AUDNZD" ["Commodity_FX"; "Crosses"; "AUD_Pairs"; ""] 3;
    mkClusters "AUDUSD" ["USD_Forex"; "Commodity_FX"; "AUD_Pairs"; ""] 3;
    mkClusters "AUSIDXAUD" ["Asian_Index"; ""; ""; ""] 1;
    mkClusters "BRENTCMDUSD" ["Energy"; ""; ""; ""] 1;
    mkClusters "COPPERCMDUSD" ["Industrial_Metals"; ""; ""; ""] 1;
    mkClusters "DEUIDXEUR" ["EU_Index"; ""; ""; ""] 1;
    mkClusters "EURAUD" ["Crosses"; "EUR_Pairs"; "AUD_Pairs"; ""] 3;
    mkClusters "EURCHF" ["Crosses"; "EUR_Pairs"; ""; ""] 2;
    mkClusters "EURGBP" ["Crosses"; "EUR_Pairs"; "GBP_Pairs"; ""] 3;
    mkClusters "EURJPY" ["Crosses"; "EUR_Pairs"; "JPY_Pairs"; ""] 3;
    mkClusters "EURNOK" ["Commodity_FX"; "Crosses"; "EUR_Pairs"; "Scandi_Pairs"] 4;
    mkClusters "EURUSD" ["USD_Forex"; "EUR_Pairs"; ""; ""] 2;
    mkClusters "FRAIDXEUR" ["EU_Index"; ""; ""; ""] 1;
    mkClusters "GBPAUD" ["Crosses"; "GBP_Pairs"; "AUD_Pairs"; ""] 3;
    mkClusters "GBPJPY" ["Crosses"; "GBP_Pairs"; "JPY_Pairs"; ""] 3;
    mkClusters "GBPUSD" ["USD_Forex"; "GBP_Pairs"; ""; ""] 2;
    mkClusters "GBRIDXGBP" ["UK_Index"; ""; ""; ""] 1;
    mkClusters "HKGIDXHKD" ["Asian_Index"; ""; ""; ""] 1;
    mkClusters "JPNIDXJPY" ["Asian_Index"; ""; ""; ""] 1;
    mkClusters "LIGHTCMDUSD" ["Energy"; ""; ""; ""] 1;
    mkClusters "NGASCMDUSD" ["Energy"; ""; ""; ""] 1;
    mkClusters "NZDUSD" ["USD_Forex"; "Commodity_FX"; ""; ""] 2;
    mkClusters "USA30IDXUSD" ["US_Index"; ""; ""; ""] 1;
    mkClusters "USA500IDXUSD" ["US_Index"; ""; ""; ""] 1;
    mkClusters "USATECHIDXUSD" ["US_Index"; ""; ""; ""] 1;
    mkClusters "USDCAD" ["USD_Forex"; "Commodity_FX"; ""; ""] 2;
    mkClusters "USDCHF" ["USD_Forex"; ""; ""; ""] 1;
    mkClusters "USDJPY" ["USD_Forex"; "JPY_Pairs"; ""; ""] 2;
    mkClusters "USDSEK" ["USD_Forex"; "Scandi_Pairs"; ""; ""] 2;
    mkClusters "XAGUSD" ["Precious_Metals"; ""; ""; ""] 1;
    mkClusters "XAUUSD" ["Precious_Metals"; ""; ""; ""] 1 ].

Record ClusterRule : Type := mkRule {
  cr_cluster : string;
  cr_limit : Z;
  cr_strict : bool }.

Definition kClusterRules : list ClusterRule :=
  [
    mkRule "AUD_Pairs" 2 false;
    mkRule "Asian_Index" 1 true;
    mkRule "Commodity_FX" 2 false;
    mkRule "Crosses" 2 false;
    mkRule "EUR_Pairs" 2 false;
    mkRule "EU_Index" 1 true;
    mkRule "Energy" 1 true;
    mkRule "GBP_Pairs" 2 false;
    mkRule "Industrial_Metals" 1 true;
    mkRule "JPY_Pairs" 2 false;
    mkRule "Precious_Metals" 1 true;
    mkRule "Scandi_Pairs" 1 false;
    mkRule "UK_Index" 1 true;
    mkRule "USD_Forex" 2 false;
    mkRule "US_Index" 1 true ].

(** The compile-time check of the counts: the used prefix is the non-empty one. *)
Definition counts_match (entry : SymbolClusters) : bool :=
  negb (sc_count entry =? 0)%nat && (sc_count entry <=? length (sc_groups entry))%nat &&
  forallb (fun '(i, g) => Bool.eqb (i <? sc_count entry)%nat (negb (String.eqb g "")))
    (combine (seq 0 (length (sc_groups entry))) (sc_groups entry)).

(** The binary searches. *)
Definition groupsFor (symbol : string) : list string :=
  match table_search sc_symbol kClusterTable symbol with
  | Some entry => take (sc_count entry) (sc_groups entry)
  | None => []
  end.

Definition findRule (cluster : string) : option ClusterRule :=
  table_search cr_cluster kClusterRules cluster.
Definition clusterLimit (cluster : string) : Z :=
  match findRule cluster with Some rule => cr_limit rule | None => 1 end.
Definition isStrictCluster (cluster : string) : bool :=
  match findRule cluster with Some rule => cr_strict rule | None => false end.

(** * One cluster's verdict *)

Definition hash : Ascii.ascii := char_of 35.

(** The text before the first hash and the text after it, if there is one. *)
Fixpoint split_hash (s : string) : option (string * string) :=
  match s with
  | EmptyString => None
  | String c s =>
      if Ascii.eqb c hash then Some (EmptyString, s)
      else match split_hash s with
           | Some (a, b) => Some (String c a, b)
           | None => None
           end
  end.

Definition splitMember (member : string) : option (string * string) :=
  match split_hash member with
  | None => None
  | Some (symbol, rest) =>
      Some (symbol, match split_hash rest with Some (strategy, _) => strategy | None => rest end)
  end.

Inductive ClusterVerdict : Type :=
| Allowed
| GroupFull
| SymbolStrategyStacked
| StrategyNotDiverse.

Definition stacked (symbol strategyName member : string) : bool :=
  match splitMember member with
  | Some (s, n) => String.eqb s symbol && String.eqb n strategyName
  | None => false
  end.
Definition same_strategy (strategyName member : string) : bool :=
  match splitMember member with Some (_, n) => String.eqb n strategyName | None => false end.

Definition evaluateClusterGroup (members : list string) (symbol strategyName : string)
    (limit : Z) (strict : bool) : ClusterVerdict :=
  if limit mod 2 ^ 64 <=? Z.of_nat (length members) then GroupFull
  else if existsb (stacked symbol strategyName) members then SymbolStrategyStacked
  else if strict && existsb (same_strategy strategyName) members then StrategyNotDiverse
  else Allowed.

(** * Grouping the broker's book *)

Record ClusterMember : Type := mkMember {
  cm_symbol : string;
  cm_strategyName : string;
  cm_dealReference : string }.

Definition clusterMemberString (member : ClusterMember) : string :=
  cm_symbol member +:+ "#" +:+ cm_strategyName member +:+ "#" +:+ cm_dealReference member.

(** An ordered map of vectors: [clusters[group].push_back(value)]. *)
Fixpoint push_group (group value : string) (m : list (string * list string))
    : list (string * list string) :=
  match m with
  | [] => [(group, [value])]
  | (g, values) :: rest =>
      if String.eqb g group then (g, values ++ [value]) :: rest
      else if String.ltb group g then (group, [value]) :: m
      else (g, values) :: push_group group value rest
  end.

Definition push_member (lookup : string -> list string) (m : list (string * list string))
    (member : ClusterMember) : list (string * list string) :=
  fold_left (fun m group => push_group group (clusterMemberString member) m)
    (lookup (cm_symbol member)) m.

(** [std::ranges::unique] drops an element equal to the one before it. *)
Fixpoint unique_after (last : string) (l : list string) : list string :=
  match l with
  | [] => []
  | x :: l => if String.eqb x last then unique_after last l else x :: unique_after x l
  end.
Definition unique (l : list string) : list string :=
  match l with [] => [] | x :: l => x :: unique_after x l end.

Definition groupMembersByCluster (members : list ClusterMember) (lookup : string -> list string)
    : list (string * list string) :=
  map (fun '(g, values) => (g, unique (merge_sort string_le values)))
    (fold_left (push_member lookup) members []).

(** * PositionClustering *)

Section PositionClustering.
Context {server : Type} {R : RedisServer server}.

(** Phase 1: the locks, until one is held or unknowable. *)
Fixpoint lock_groups (groups : list string) (symbol : string) (lockTtl : Z)
    : method (server := server) bool := fun c w =>
  match groups with
  | [] => (true, c, w)
  | group :: groups =>
      let '(stored, c, w) :=
        run (setIfNotExists (clusterLockKey group) symbol (Some (1000 * lockTtl))) c w in
      match stored with
      | inl true => lock_groups groups symbol lockTtl c w
      | _ => (false, c, w)
      end
  end.

(** Phase 2: every cluster's members. *)
Fixpoint check_groups (groups : list string) (symbol strategyName : string)
    : method (server := server) bool := fun c w =>
  match groups with
  | [] => (true, c, w)
  | group :: groups =>
      let '(members, c, w) := run (setMembers (clusterKey group)) c w in
      match members with
      | inr _ => (false, c, w)
      | inl members =>
          match evaluateClusterGroup members symbol strategyName
                  (clusterLimit group) (isStrictCluster group) with
          | Allowed => check_groups groups symbol strategyName c w
          | _ => (false, c, w)
          end
      end
  end.

(** True blocks the entry. *)
Definition isClusterBlocked (symbol strategyName : string) (lockTtl : Z)
    : method (server := server) bool := fun c w =>
  let groups := groupsFor symbol in
  match groups with
  | [] => (true, c, w)
  | _ =>
      let '(locked, c, w) := lock_groups groups symbol lockTtl c w in
      if (locked : bool) then
        let '(passed, c, w) := check_groups groups symbol strategyName c w in
        (negb passed, c, w)
      else (true, c, w)
  end.

(** After an accepted open: every lock re-armed, whoever holds it. *)
Fixpoint mark_groups (groups : list string) (symbol : string) (ttl : Z) (c : client)
    (w : world server) : client * world server :=
  match groups with
  | [] => (c, w)
  | group :: groups =>
      let '(_, c, w) :=
        run (setStringWhen (clusterLockKey group) symbol Always (Some (1000 * ttl))) c w in
      mark_groups groups symbol ttl c w
  end.
Definition markOpened (symbol : string) (ttl : Z) (c : client) (w : world server)
    : client * world server := mark_groups (groupsFor symbol) symbol ttl c w.

(** ** The producer's side *)

(** What distinguishes this process's temporary keys. *)
Context (processNonce : string).

Definition tempKey (cluster : string) : string := "temp_CG#" +:+ cluster +:+ "#" +:+ processNonce.

Fixpoint fill (key : string) (values : list string) : method (server := server) bool := fun c w =>
  match values with
  | [] => (true, c, w)
  | value :: values =>
      let '(added, c, w) := run (setAdd key value) c w in
      match added with
      | inl _ => fill key values c w
      | inr _ => (false, c, w)
      end
  end.

(** One cluster: clear the temporary set, fill it, swap it in, set its expiry. *)
Definition sync_cluster (cluster : string) (values : list string) (ttl : Z)
    : method (server := server) bool := fun c w =>
  let '(cleared, c, w) := run (deleteKey (tempKey cluster)) c w in
  match cleared with
  | inr (String _ _) => (false, c, w)
  | _ =>
      let '(filled, c, w) := fill (tempKey cluster) values c w in
      if negb filled then
        let '(_, c, w) := run (deleteKey (tempKey cluster)) c w in (false, c, w)
      else
        let '(renamed, c, w) := run (keyRename (tempKey cluster) (clusterKey cluster)) c w in
        match renamed with
        | inr _ => (false, c, w)
        | inl _ =>
            let '(expired, c, w) := run (setTTL (clusterKey cluster) ttl) c w in
            (match expired with inl _ => true | inr _ => false end, c, w)
        end
  end.

Fixpoint sync_clusters (clusters : list (string * list string)) (ttl : Z)
    : method (server := server) bool := fun c w =>
  match clusters with
  | [] => (true, c, w)
  | (cluster, values) :: clusters =>
      let '(synced, c, w) := sync_cluster cluster values ttl c w in
      let '(rest, c, w) := sync_clusters clusters ttl c w in
      (synced && rest, c, w)
  end.

(** The lifetime is in milliseconds. *)
Definition syncAllClusters (members : list ClusterMember) (ttl : Z)
    : method (server := server) bool :=
  sync_clusters (groupMembersByCluster members groupsFor) ttl.

End PositionClustering.

(** * The tables' compile-time checks *)

Lemma cluster_table_sorted : table_sorted sc_symbol kClusterTable = true.
Proof. vm_compute. reflexivity. Qed.
Lemma cluster_rules_sorted : table_sorted cr_cluster kClusterRules = true.
Proof. vm_compute. reflexivity. Qed.
Lemma cluster_counts_match : forallb counts_match kClusterTable = true.
Proof. vm_compute. reflexivity. Qed.

(** Every group of the table has a rule, and no symbol names a group twice. *)
Lemma groups_have_rules :
  forallb (fun e => forallb (fun g => bool_decide (is_Some (findRule g)))
                      (take (sc_count e) (sc_groups e))) kClusterTable = true.
Proof. vm_compute. reflexivity. Qed.

Lemma groupsFor_NoDup symbol : NoDup (groupsFor symbol).
Proof.
  unfold groupsFor. rewrite table_search_find by apply cluster_table_sorted.
  destruct (List.find _ _) as [e|] eqn:E; [|constructor]. apply List.find_some in E as [Hin _].
  assert (forallb (fun e => bool_decide (NoDup (take (sc_count e) (sc_groups e)))) kClusterTable = true)
    as H by (vm_compute; reflexivity).
  rewrite forallb_forall in H. specialize (H e Hin). now apply bool_decide_eq_true in H.
Qed.

Lemma clusterLimit_bounds cluster : 1 <= clusterLimit cluster <= 2.
Proof.
  unfold clusterLimit, findRule. rewrite table_search_find by apply cluster_rules_sorted.
  destruct (List.find _ _) as [e|] eqn:E; [|lia]. apply List.find_some in E as [Hin _].
  assert (forallb (fun e => (1 <=? cr_limit e) && (cr_limit e <=? 2)) kClusterRules = true)
    as H by (vm_compute; reflexivity).
  rewrite forallb_forall in H. specialize (H e Hin). zbool. lia.
Qed.

(** * The verdict, exactly *)

Lemma evaluate_allowed members symbol strategyName limit strict :
  0 <= limit < 2 ^ 64 ->
  evaluateClusterGroup members symbol strategyName limit strict = Allowed <->
  Z.of_nat (length members) < limit /\
  Forall (fun m => stacked symbol strategyName m = false) members /\
  (strict = true -> Forall (fun m => same_strategy strategyName m = false) members).
Proof.
  intros Hl. unfold evaluateClusterGroup. rewrite Z.mod_small by done.
  assert (forall p, existsb p members = false <-> Forall (fun m : string => p m = false) members) as He.
  { intros p. induction members as [|m ms IH]; simpl; [now split|].
    rewrite orb_false_iff, Forall_cons, IH. done. }
  destruct (Z.leb_spec limit (Z.of_nat (length members))); [split; [done|lia]|].
  destruct (existsb (stacked symbol strategyName) members) eqn:E1.
  { split; [done|]. intros (_ & H1 & _). apply He in H1. congruence. }
  apply He in E1. destruct strict; simpl.
  - destruct (existsb (same_strategy strategyName) members) eqn:E2.
    + split; [done|]. intros (_ & _ & H1). specialize (H1 eq_refl). apply He in H1. congruence.
    + apply He in E2. tauto.
  - split; [|done]. intros _. split; [lia|]. split; [done|]. discriminate.
Qed.

(** Names without a hash are read back from a member's text. *)
Lemma split_hash_app a b :
  split_hash a = None -> split_hash (a +:+ "#" +:+ b) = Some (a, b).
Proof.
  induction a as [|c a IH]; [done|]. simpl. destruct (Ascii.eqb c hash); [done|].
  destruct (split_hash a) as [[]|] eqn:E; [done|]. intros _. now rewrite IH.
Qed.

Lemma splitMember_string m :
  split_hash (cm_symbol m) = None -> split_hash (cm_strategyName m) = None ->
  splitMember (clusterMemberString m) = Some (cm_symbol m, cm_strategyName m).
Proof.
  intros H1 H2. unfold splitMember, clusterMemberString.
  rewrite (split_hash_app _ (cm_strategyName m +:+ "#" +:+ cm_dealReference m)) by done.
  now rewrite split_hash_app by done.
Qed.

(** * The entry gate *)

Section GateFacts.
Context {server : Type} {R : RedisServer server} {L : RedisLaws server}.

(** What reading a cluster's set gives. *)
Definition members_at (s : server) (t : Z) (cluster : string) (members : list string) : Prop :=
  match lookup_at s t (clusterKey cluster) with
  | None => members = []
  | Some (VSet m) => NoDup members /\ forall x, x ∈ members <-> x ∈ m
  | Some _ => False
  end.

Lemma lock_is_not_members g g' : clusterKey g <> clusterLockKey g'.
Proof. discriminate. Qed.

Lemma lock_key_inj g g' : clusterLockKey g = clusterLockKey g' -> g = g'.
Proof. unfold clusterLockKey. intros H. now apply (inj (String.app "CLUSTER_LOCK#")) in H. Qed.

Lemma lock_run k v ms c (w : world server) c' w' :
  0 < ms < 2 ^ 63 -> run (setIfNotExists k v (Some ms)) c w = (inl true, c', w') ->
  exists t, w_clock w <= t <= w_clock w' /\ lookup_at (w_server w) t k = None /\
    stored t k (VString v) (Some (t + 1000 * ms)) (w_server w) (w_server w').
Proof.
  intros Hms E. destruct (run_result _ _ _ _ _ _ E) as (t & Ht & Hop & _).
  exists t. split; [done|]. unfold setIfNotExists in Hop.
  pose proof (setStringWhen_spec t k v NotExists (Some ms) (w_server w)) as H.
  rewrite Hop in H. destruct H as [H Hs]; [now intros ? [= <-]|].
  destruct (lookup_at (w_server w) t k); [discriminate|]. simpl in Hs. done.
Qed.

Lemma lock_groups_spec groups symbol ttl c (w : world server) c' w' :
  0 < 1000 * ttl < 2 ^ 63 -> NoDup groups ->
  lock_groups groups symbol ttl c w = (true, c', w') ->
  w_clock w <= w_clock w' /\
  (forall t k, w_clock w' <= t -> (forall g, g ∈ groups -> k <> clusterLockKey g) ->
     lookup_at (w_server w') t k = lookup_at (w_server w) t k) /\
  forall g, g ∈ groups -> exists t, w_clock w <= t <= w_clock w' /\
    lookup_at (w_server w) t (clusterLockKey g) = None /\
    forall t', w_clock w' <= t' < t + 1000000 * ttl ->
      lookup_at (w_server w') t' (clusterLockKey g) = Some (VString symbol).
Proof.
  intros Httl. revert c w. induction groups as [|g groups IH]; intros c w Hnd H.
  { injection H as <- <-. split; [lia|]. split; [done|]. intros g Hg. now apply elem_of_nil in Hg. }
  apply NoDup_cons in Hnd as [Hg Hnd]. simpl in H.
  destruct (run _ c w) as [[stored c1] w1] eqn:E. destruct stored as [[]|]; [|discriminate|discriminate].
  apply lock_run in E as (t & Ht & Hfree & Hst); [|done].
  destruct (IH _ _ Hnd H) as (Hclk & Hother & Hlocks). split; [lia|]. split.
  - intros t' k Ht' Hk. rewrite Hother; [|done|intros g' Hg'; apply Hk; now constructor].
    rewrite (Hst t' k) by lia. rewrite decide_False; [done|]. apply Hk. constructor.
  - intros g' Hg'. apply elem_of_cons in Hg' as [->|Hg'].
    + exists t. split; [lia|]. split; [done|]. intros t' Ht'.
      rewrite Hother; [|lia|intros g' Hg' Heq; apply lock_key_inj in Heq; now subst].
      rewrite (Hst t' _) by lia. rewrite decide_True by done.
      now rewrite (proj2 (Z.ltb_lt t' _)) by lia.
    + destruct (Hlocks g' Hg') as (t2 & Ht2 & Hf2 & Hl2). exists t2. split; [lia|]. split; [|done].
      rewrite (Hst t2 _) in Hf2 by lia. rewrite decide_False in Hf2; [done|].
      intros Heq. apply lock_key_inj in Heq. now subst.
Qed.

Lemma check_groups_spec groups symbol strategyName c (w : world server) c' w' :
  check_groups groups symbol strategyName c w = (true, c', w') ->
  w_clock w <= w_clock w' /\ unchanged (w_clock w') (w_server w) (w_server w') /\
  forall g, g ∈ groups -> exists t members, w_clock w <= t <= w_clock w' /\
    members_at (w_server w) t g members /\
    evaluateClusterGroup members symbol strategyName (clusterLimit g) (isStrictCluster g) = Allowed.
Proof.
  revert c w. induction groups as [|g groups IH]; intros c w H.
  { injection H as <- <-. split; [lia|]. split; [apply unchanged_refl|].
    intros g Hg. now apply elem_of_nil in Hg. }
  simpl in H. destruct (run _ c w) as [[members c1] w1] eqn:E.
  destruct members as [members|]; [|discriminate].
  destruct (evaluateClusterGroup _ _ _ _ _) eqn:Ev; try discriminate.
  destruct (run_result _ _ _ _ _ _ E) as (t & Ht & Hop & _).
  pose proof (setMembers_spec t (clusterKey g) (w_server w)) as Hm. rewrite Hop in Hm.
  destruct Hm as [Hun Hm]. destruct (IH _ _ H) as (Hclk & Hun' & Hrest).
  split; [lia|]. split; [apply (unchanged_trans t _ _ (w_server w1)); [lia|done|done]|].
  intros g' Hg'. apply elem_of_cons in Hg' as [->|Hg'].
  - exists t, members. split; [lia|]. split; [|done]. unfold members_at.
    destruct (lookup_at _ t _) as [[| |m]|]; [discriminate|discriminate| |congruence].
    destruct Hm as (l & Hnd & Hl & [= <-]). done.
  - destruct (Hrest g' Hg') as (t2 & ms & Ht2 & Hms & Hev). exists t2, ms. split; [lia|].
    split; [|done]. unfold members_at in *. now rewrite (Hun t2) in Hms by lia.
Qed.


End GateFacts.

(** * Grouping, exactly *)

Lemma string_le_not_lt s t : string_le s t <-> String.ltb t s = false.
Proof.
  unfold string_le, String.leb, String.ltb. rewrite (String.compare_antisym t s).
  destruct (String.compare s t); simpl; split; congruence.
Qed.

Lemma string_ltb_cases s t : String.ltb s t = true \/ s = t \/ String.ltb t s = true.
Proof.
  destruct (String.ltb s t) eqn:E1; [auto|]. destruct (String.ltb t s) eqn:E2; [auto|].
  right. left. now apply string_ltb_total.
Qed.

#[export] Instance string_le_trans : Transitive string_le.
Proof.
  intros s t u. rewrite !string_le_not_lt. intros H1 H2.
  destruct (String.ltb u s) eqn:E; [|done].
  destruct (string_ltb_cases s t) as [H|[->|H]]; [|congruence|congruence].
  assert (String.ltb u t = true) by (eapply string_ltb_trans; eauto). congruence.
Qed.

#[export] Instance string_le_total : Total string_le.
Proof.
  intros s t. rewrite !string_le_not_lt.
  destruct (String.ltb t s) eqn:E; [|auto]. right.
  destruct (String.ltb s t) eqn:E2; [|done].
  pose proof (string_ltb_trans _ _ _ E E2) as H. now rewrite string_ltb_irrefl in H.
Qed.

#[export] Instance string_le_antisymm : AntiSymm eq string_le.
Proof.
  intros s t. rewrite !string_le_not_lt. intros H1 H2.
  destruct (string_ltb_cases s t) as [H|[H|H]]; congruence.
Qed.

Lemma unique_after_elem x last l : x ∈ last :: unique_after last l <-> x ∈ last :: l.
Proof.
  revert last. induction l as [|y l IH]; intros last; [done|]. simpl.
  destruct (String.eqb_spec y last) as [->|].
  - rewrite IH. set_solver.
  - rewrite elem_of_cons, IH. set_solver.
Qed.

Lemma unique_after_NoDup last l :
  StronglySorted string_le (last :: l) -> NoDup (last :: unique_after last l).
Proof.
  revert last. induction l as [|y l IH]; intros last Hs; simpl.
  { apply NoDup_singleton. }
  inversion Hs as [|? ? Hs' Hall]; subst. inversion Hall as [|? ? Hy Hall']; subst.
  destruct (String.eqb_spec y last) as [->|Hne].
  - apply IH. constructor; [now inversion Hs'|done].
  - specialize (IH y Hs'). constructor; [|done]. intros Hin.
    assert (last ∈ y :: l) as Hin' by (apply unique_after_elem; exact Hin).
    inversion Hs' as [|? ? _ Hyl]; subst. apply elem_of_cons in Hin' as [->|Hin']; [done|].
    rewrite Forall_forall in Hyl. specialize (Hyl _ Hin'). now apply Hne, (anti_symm string_le).
Qed.

Lemma unique_sorted_spec l :
  NoDup (unique (merge_sort string_le l)) /\
  forall x, x ∈ unique (merge_sort string_le l) <-> x ∈ l.
Proof.
  pose proof (StronglySorted_merge_sort string_le l) as Hs.
  assert (forall x, x ∈ merge_sort string_le l <-> x ∈ l) as Hp
    by (intros x; now rewrite (merge_sort_Permutation string_le l)).
  destruct (merge_sort string_le l) as [|y l']; simpl.
  - split; [constructor|exact Hp].
  - split; [now apply unique_after_NoDup|]. intros x. rewrite unique_after_elem. apply Hp.
Qed.

(** The values a map holds under a key. *)
Definition in_group (m : list (string * list string)) (g v : string) : Prop :=
  exists values, (g, values) ∈ m /\ v ∈ values.

Lemma in_group_cons g0 vs m g v :
  in_group ((g0, vs) :: m) g v <-> (g = g0 /\ v ∈ vs) \/ in_group m g v.
Proof. unfold in_group. setoid_rewrite elem_of_cons. naive_solver. Qed.

Lemma push_group_in g0 v0 m g v :
  in_group (push_group g0 v0 m) g v <-> in_group m g v \/ (g = g0 /\ v = v0).
Proof.
  induction m as [|[g1 vs] m IH]; simpl.
  - rewrite in_group_cons. set_solver.
  - destruct (String.eqb_spec g1 g0) as [->|].
    + rewrite !in_group_cons. set_solver.
    + destruct (String.ltb g0 g1); rewrite !in_group_cons; [set_solver|]. rewrite IH. tauto.
Qed.

Lemma push_group_keys g0 v0 m :
  Forall (fun kv => kv.2 <> []) m -> Forall (fun kv => kv.2 <> []) (push_group g0 v0 m).
Proof.
  induction m as [|[g1 vs] m IH]; simpl; intros H; [repeat constructor; done|].
  inversion H; subst. destruct (String.eqb g1 g0).
  { constructor; [|done]. simpl. now destruct vs. }
  destruct (String.ltb g0 g1); [repeat constructor; done|]. constructor; [done|auto].
Qed.

(** The keys stay strictly increasing. *)
Definition keys_sorted (m : list (string * list string)) : Prop :=
  StronglySorted (fun a b => String.ltb a.1 b.1 = true) m.

Lemma push_group_above k g0 v0 m :
  String.ltb k g0 = true -> Forall (fun b => String.ltb k b.1 = true) m ->
  Forall (fun b => String.ltb k b.1 = true) (push_group g0 v0 m).
Proof.
  intros Hk. induction 1 as [|[g1 vs] m H1 Hm IH]; simpl; [repeat constructor; done|].
  destruct (String.eqb g1 g0); [now constructor|].
  destruct (String.ltb g0 g1); repeat constructor; done.
Qed.

Lemma push_group_sorted g0 v0 m : keys_sorted m -> keys_sorted (push_group g0 v0 m).
Proof.
  unfold keys_sorted. induction 1 as [|[g1 vs] m Hm IH Hall]; simpl; [repeat constructor|].
  destruct (String.eqb_spec g1 g0) as [->|Hne]; [now constructor|].
  destruct (String.ltb g0 g1) eqn:E.
  - constructor; [now constructor|]. constructor; [done|].
    eapply Forall_impl; [exact Hall|]. intros b Hb. now apply (string_ltb_trans _ g1).
  - constructor; [done|]. apply push_group_above; [|done].
    destruct (string_ltb_cases g1 g0) as [|[|]]; [done|done|congruence].
Qed.

Lemma keys_sorted_NoDup m : keys_sorted m -> NoDup m.*1.
Proof.
  unfold keys_sorted. induction 1 as [|[g vs] m Hm IH Hall]; [constructor|].
  simpl. constructor; [|done]. intros Hin. apply list_elem_of_fmap in Hin as ([g' vs'] & -> & Hin).
  rewrite Forall_forall in Hall. specialize (Hall _ Hin). simpl in Hall.
  now rewrite string_ltb_irrefl in Hall.
Qed.

Section Grouping.
Context (lookup : string -> list string).

Definition groups_inv (P : string -> string -> Prop) (m : list (string * list string)) : Prop :=
  keys_sorted m /\ Forall (fun kv => kv.2 <> []) m /\ forall g v, in_group m g v <-> P g v.

Lemma push_all_inv value gs P m :
  groups_inv P m ->
  groups_inv (fun g v => P g v \/ (g ∈ gs /\ v = value))
    (fold_left (fun m group => push_group group value m) gs m).
Proof.
  revert P m. induction gs as [|g0 gs IH]; intros P m (Hs & Hne & Hin); simpl.
  - split; [done|]. split; [done|]. intros g v. rewrite Hin. set_solver.
  - specialize (IH (fun g v => P g v \/ (g = g0 /\ v = value)) (push_group g0 value m)).
    destruct IH as (Hs' & Hne' & Hin').
    { split; [now apply push_group_sorted|]. split; [now apply push_group_keys|].
      intros g v. now rewrite push_group_in, Hin. }
    split; [done|]. split; [done|]. intros g v. rewrite Hin'. set_solver.
Qed.

Lemma push_members_inv members P m :
  groups_inv P m ->
  groups_inv (fun g v => P g v \/ exists mb, mb ∈ members /\ g ∈ lookup (cm_symbol mb) /\
                                             v = clusterMemberString mb)
    (fold_left (push_member lookup) members m).
Proof.
  revert P m. induction members as [|mb members IH]; intros P m H; simpl.
  - destruct H as (Hs & Hne & Hin). split; [done|]. split; [done|]. intros g v. rewrite Hin.
    split; [auto|]. intros [?|(mb & Hmb & _)]; [done|]. now apply elem_of_nil in Hmb.
  - apply (push_all_inv (clusterMemberString mb) (lookup (cm_symbol mb))) in H.
    apply IH in H as (Hs & Hne & Hin). split; [done|]. split; [done|]. intros g v.
    rewrite Hin. split.
    + intros [[?|[? ->]]|(x & ? & ? & ->)]; [auto| |].
      * right. exists mb. split; [constructor|done].
      * right. exists x. split; [now constructor|done].
    + intros [?|(x & Hx & ? & ->)]; [auto|].
      apply elem_of_cons in Hx as [->|Hx]; [auto|]. right. now exists x.
Qed.

(** The grouping: one entry per non-empty cluster, its members exactly the
    texts of the deals whose symbol belongs to it, without duplicates. *)
Lemma grouping_spec members :
  let m := groupMembersByCluster members lookup in
  NoDup m.*1 /\
  Forall (fun kv => kv.2 <> [] /\ NoDup kv.2) m /\
  forall g v, in_group m g v <->
    exists mb, mb ∈ members /\ g ∈ lookup (cm_symbol mb) /\ v = clusterMemberString mb.
Proof.
  destruct (push_members_inv members (fun _ _ => False) []) as (Hs & Hne & Hin).
  { split; [constructor|]. split; [constructor|]. intros g v. split; [|done].
    intros (vs & H & _). now apply elem_of_nil in H. }
  unfold groupMembersByCluster. set (m := fold_left (push_member lookup) members []) in *.
  clearbody m. split; [|split].
  - apply keys_sorted_NoDup in Hs. rewrite <- list_fmap_compose.
    erewrite list_fmap_ext; [exact Hs|]. now intros ? [? ?] _.
  - apply Forall_fmap. eapply Forall_impl; [exact Hne|]. intros [g vs] Hvs. simpl in *.
    destruct (unique_sorted_spec vs) as [Hnd Hx]. split; [|done]. intros Hnil.
    destruct vs as [|v vs]; [done|]. assert (v ∈ unique (merge_sort string_le (v :: vs))) as Hv
      by (apply Hx; constructor). rewrite Hnil in Hv. now apply elem_of_nil in Hv.
  - intros g v. trans (in_group m g v).
    + unfold in_group. split.
      * intros (vs & Hvs & Hv). apply list_elem_of_fmap in Hvs as ([g' vs'] & [= -> ->] & Hvs).
        exists vs'. split; [done|]. now apply (proj2 (unique_sorted_spec vs')).
      * intros (vs & Hvs & Hv). exists (unique (merge_sort string_le vs)). split.
        { apply (list_elem_of_fmap_2 (fun '(g, values) => (g, unique (merge_sort string_le values))) _ _ Hvs). }
        now apply (proj2 (unique_sorted_spec vs)).
    + rewrite Hin. split; [intros [?|?]; done|auto].
Qed.

End Grouping.

(** * The producer's swap *)

Section SyncFacts.
Context {server : Type} {R : RedisServer server} {L : RedisLaws server}.
Context (processNonce : string).

(** A set's value, absent when there is none. *)
Definition set_value (acc : option (gset string)) : option value := VSet <$> acc.

Definition with_values (acc : option (gset string)) (values : list string) : option (gset string) :=
  fold_left (fun acc v => Some ({[v]} ∪ default ∅ acc)) values acc.

Lemma with_values_some m values : with_values (Some m) values = Some (list_to_set values ∪ m).
Proof.
  revert m. induction values as [|v values IH]; intros m; [simpl; f_equal; set_solver|].
  change (with_values (Some m) (v :: values)) with (with_values (Some ({[v]} ∪ m)) values).
  rewrite IH. f_equal. set_solver.
Qed.

Lemma with_values_none values : values <> [] -> with_values None values = Some (list_to_set values).
Proof.
  destruct values as [|v values]; [done|]. intros _.
  change (with_values None (v :: values)) with (with_values (Some ({[v]} ∪ ∅)) values).
  rewrite with_values_some. f_equal. set_solver.
Qed.

(** Keys other than [k] are untouched from [now] on. *)
Definition only (now : Z) (k : string) (s s' : server) : Prop :=
  forall t k', now <= t -> k' <> k -> lookup_at s' t k' = lookup_at s t k'.

Lemma only_trans t1 t2 k (s1 s2 s3 : server) :
  t1 <= t2 -> only t1 k s1 s2 -> only t2 k s2 s3 -> only t2 k s1 s3.
Proof. intros Ht H12 H23 t k' Hk Hne. rewrite H23 by done. apply H12; [lia|done]. Qed.

Lemma fill_spec key values acc c (w : world server) c' w' :
  fill key values c w = (true, c', w') ->
  (forall t, w_clock w <= t -> lookup_at (w_server w) t key = set_value acc) ->
  w_clock w <= w_clock w' /\ only (w_clock w') key (w_server w) (w_server w') /\
  forall t, w_clock w' <= t -> lookup_at (w_server w') t key = set_value (with_values acc values).
Proof.
  revert acc c w. induction values as [|v values IH]; intros acc c w H Hacc.
  { injection H as <- <-. split; [lia|]. split; [done|exact Hacc]. }
  simpl in H. destruct (run _ c w) as [[added c1] w1] eqn:E. destruct added as [b|]; [|discriminate].
  destruct (run_result _ _ _ _ _ _ E) as (t & Ht & Hop & _).
  pose proof (setAdd_spec t key v (w_server w)) as Hs. rewrite Hop in Hs.
  rewrite (Hacc t) in Hs by lia.
  assert (rewritten t key (VSet ({[v]} ∪ default ∅ acc)) (w_server w) (w_server w1)) as Hrw.
  { destruct acc as [m|]; simpl in Hs; destruct Hs as [_ Hs]; [exact Hs|].
    simpl. now rewrite union_empty_r_L. }
  destruct (IH (Some ({[v]} ∪ default ∅ acc)) _ _ H) as (Hclk & Honly & Hfin).
  - intros t' Ht'. rewrite (Hrw t' key) by lia. rewrite decide_True by done.
    rewrite (Hacc t), (Hacc t') by lia. now destruct acc.
  - split; [lia|]. split; [|exact Hfin].
    apply (only_trans t _ _ _ (w_server w1)); [lia| |done].
    intros t' k' Ht' Hne. rewrite (Hrw t' k') by lia. now rewrite decide_False.
Qed.

(** What a completed swap leaves: the new set under the cluster's key, with its
    lifetime, and nothing under the temporary key. *)
Definition swapped (t now : Z) (cluster : string) (m : gset string) (ttl : Z) (s s' : server) : Prop :=
  forall t' k, now <= t' ->
    lookup_at s' t' k =
    if base.decide (k = clusterKey cluster)
    then if t' <? t + 1000 * ttl then Some (VSet m) else None
    else if base.decide (k = tempKey processNonce cluster) then None
    else lookup_at s t' k.

Lemma temp_is_not_cluster g g' : tempKey processNonce g <> clusterKey g'.
Proof. discriminate. Qed.

Lemma sync_cluster_spec cluster values ttl c (w : world server) c' w' :
  values <> [] -> 0 < ttl < 2 ^ 63 ->
  sync_cluster processNonce cluster values ttl c w = (true, c', w') ->
  exists t, w_clock w <= t <= w_clock w' /\
    swapped t (w_clock w') cluster (list_to_set values) ttl (w_server w) (w_server w').
Proof.
  intros Hne Httl. unfold sync_cluster. set (temp := tempKey processNonce cluster).
  destruct (run (deleteKey temp) c w) as [[cleared c1] w1] eqn:E1.
  assert (w_clock w <= w_clock w1) as Hc1 by (apply run_bounded in E1; lia).
  destruct (fill temp values c1 w1) as [[filled c2] w2] eqn:E2. intros H.
  (* the clearing: either it was done, or the breaker skipped it and the fill cannot succeed *)
  destruct cleared as [b|reason].
  2:{ exfalso. destruct reason; [|discriminate]. destruct values as [|v values]; [done|].
      assert (filled = false) as ->.
      { unfold run in E1. destruct (breakerOpen (w_clock w) c) eqn:Hb.
        - injection E1 as <- <-. simpl in E2. unfold run in E2. rewrite Hb in E2. now injection E2.
        - exfalso. destruct (pumpUntil _ w) as [[[x|e]|r] w3] eqn:Ep; [discriminate|discriminate|].
          injection E1 as -> _ _. unfold pumpUntil in Ep. destruct (next_event w) as [[e b|a e] net].
          + destruct (_ <? opTimeout); [|discriminate]. destruct (deleteKey _ _ _).
            destruct (_ <? opTimeout); discriminate.
          + destruct (_ <? opTimeout); discriminate. }
      simpl in H. destruct (run _ c2 w2) as [[? ?] ?]. discriminate. }
  destruct filled.
  2:{ exfalso. simpl in H. destruct (run _ c2 w2) as [[? ?] ?]. discriminate. }
  simpl in H. destruct (run_result _ _ _ _ _ _ E1) as (t1 & Ht1 & Hop1 & _).
  pose proof (deleteKey_spec t1 temp (w_server w)) as Hd. rewrite Hop1 in Hd. destruct Hd as [_ Hd].
  destruct (fill_spec temp values None c1 w1 c2 w2 E2) as (Hc2 & Honly & Hset).
  { intros t Ht. rewrite (Hd t temp) by lia. now rewrite decide_True. }
  rewrite with_values_none in Hset by done.
  destruct (run (keyRename _ _) c2 w2) as [[renamed c3] w3] eqn:E3. destruct renamed as [b3|]; [|discriminate].
  destruct (run (setTTL _ _) c3 w3) as [[expired c4] w4] eqn:E4.
  destruct expired as [b4|]; [|discriminate]. injection H as <- <-.
  destruct (run_result _ _ _ _ _ _ E3) as (t3 & Ht3 & Hop3 & _).
  destruct (run_result _ _ _ _ _ _ E4) as (t4 & Ht4 & Hop4 & _).
  unfold keyRename, op_map in Hop3. simpl in Hop3.
  pose proof (rename_law t3 temp (clusterKey cluster) (w_server w2) (temp_is_not_cluster _ _)) as Hr.
  destruct (exec t3 _ (w_server w2)) as [r s3]. rewrite (Hset t3) in Hr by lia.
  destruct Hr as [-> Hr]. rewrite generic_reply_ok in Hop3 by done. simpl in Hop3.
  injection Hop3 as _ Hs3. subst s3.
  pose proof (setTTL_spec t4 (clusterKey cluster) ttl (w_server w3) Httl) as Ht. rewrite Hop4 in Ht.
  assert (lookup_at (w_server w3) t4 (clusterKey cluster) = Some (VSet (list_to_set values))) as Hk.
  { rewrite (Hr t4) by lia. rewrite decide_True by done. apply Hset. lia. }
  rewrite Hk in Ht. destruct Ht as [_ Ht]. exists t4. split; [lia|].
  intros t' k Ht'. rewrite (Ht t' k) by lia. fold temp. case_decide as Hk1; [done|].
  rewrite (Hr t' k) by lia. rewrite decide_False by done. case_decide as Hk2; [done|].
  rewrite (Honly t' k) by (done || lia). rewrite (Hd t' k) by lia. now rewrite decide_False.
Qed.

Lemma cluster_key_inj g g' : clusterKey g = clusterKey g' -> g = g'.
Proof. unfold clusterKey. intros H. now apply (inj (String.app "CG#")) in H. Qed.

Lemma sync_clusters_spec clusters ttl c (w : world server) c' w' :
  NoDup clusters.*1 -> Forall (fun kv => kv.2 <> []) clusters -> 0 < ttl < 2 ^ 63 ->
  sync_clusters processNonce clusters ttl c w = (true, c', w') ->
  w_clock w <= w_clock w' /\
  (forall g values, (g, values) ∈ clusters -> exists t, w_clock w <= t /\
     forall t', w_clock w' <= t' ->
       lookup_at (w_server w') t' (clusterKey g) =
       if t' <? t + 1000 * ttl then Some (VSet (list_to_set values)) else None) /\
  forall g, g ∉ clusters.*1 -> forall t', w_clock w' <= t' ->
    lookup_at (w_server w') t' (clusterKey g) = lookup_at (w_server w) t' (clusterKey g).
Proof.
  intros Hnd Hne Httl. revert c w Hnd Hne. induction clusters as [|[g0 vs0] clusters IH]; intros c w Hnd Hne H.
  { injection H as <- <-. split; [lia|]. split; [|done]. intros g vs Hin. now apply elem_of_nil in Hin. }
  simpl in H. destruct (sync_cluster _ g0 vs0 ttl c w) as [[synced c1] w1] eqn:E1.
  destruct (sync_clusters _ clusters ttl c1 w1) as [[rest c2] w2] eqn:E2.
  injection H as Hb <- <-. apply andb_true_iff in Hb as [-> ->].
  inversion Hne as [|? ? Hv0 Hne']; subst. simpl in Hnd. apply NoDup_cons in Hnd as [Hg0 Hnd].
  apply sync_cluster_spec in E1 as (t & Ht & Hsw); [|done|done].
  destruct (IH _ _ Hnd Hne' E2) as (Hclk & Hdone & Hother). split; [lia|]. split.
  - intros g vs Hin. apply elem_of_cons in Hin as [[= -> ->]|Hin].
    + exists t. split; [lia|]. intros t' Ht'. rewrite Hother by done.
      rewrite (Hsw t') by lia. now rewrite decide_True.
    + destruct (Hdone g vs Hin) as (t2 & Ht2 & Hl2). exists t2. split; [lia|exact Hl2].
  - intros g Hg t' Ht'. simpl in Hg. apply not_elem_of_cons in Hg as [Hg1 Hg2].
    rewrite Hother by done. rewrite (Hsw t') by lia.
    rewrite decide_False by (intros Heq; now apply cluster_key_inj in Heq).
    rewrite decide_False; [done|]. intros Heq. symmetry in Heq. now apply temp_is_not_cluster in Heq.
Qed.

(** A successful sync publishes exactly the broker's book. When
    [syncAllClusters] reports success, the set of a cluster holds the members
    whose symbol belongs to it, until its lifetime ends; the set of a cluster
    without a member keeps what it was. *)
Theorem sync_publishes_book members ttl c (w : world server) c' w' :
  0 < ttl < 2 ^ 63 ->
  syncAllClusters processNonce members ttl c w = (true, c', w') ->
  w_clock w <= w_clock w' /\
  forall g,
    if existsb (fun mb => bool_decide (g ∈ groupsFor (cm_symbol mb))) members
    then exists t (m : gset string), w_clock w <= t /\
      (forall v, v ∈ m <-> exists mb, mb ∈ members /\ g ∈ groupsFor (cm_symbol mb) /\
                                     v = clusterMemberString mb) /\
      forall t', w_clock w' <= t' ->
        lookup_at (w_server w') t' (clusterKey g) =
        if t' <? t + 1000 * ttl then Some (VSet m) else None
    else forall t', w_clock w' <= t' ->
      lookup_at (w_server w') t' (clusterKey g) = lookup_at (w_server w) t' (clusterKey g).
Proof.
  intros Httl H. destruct (grouping_spec groupsFor members) as (Hnd & Hgood & Hin).
  unfold syncAllClusters in H. set (clusters := groupMembersByCluster members groupsFor) in *.
  apply sync_clusters_spec in H as (Hclk & Hdone & Hother); [|done| |done].
  2:{ eapply Forall_impl; [exact Hgood|]. now intros ? [? _]. }
  split; [done|]. intros g. destruct (existsb _ members) eqn:Ex.
  - apply existsb_exists in Ex as (mb & Hmb & Hg). apply bool_decide_eq_true in Hg.
    apply list_elem_of_In in Hmb.
    destruct (proj2 (Hin g (clusterMemberString mb))) as (vs & Hvs & _); [now exists mb|].
    destruct (Hdone g vs Hvs) as (t & Ht & Hl). exists t, (list_to_set vs).
    split; [done|]. split; [|exact Hl]. intros v. rewrite elem_of_list_to_set, <- Hin.
    split; [intros Hv; now exists vs|]. intros (vs' & Hvs' & Hv).
    assert (vs' = vs) as ->; [|done].
    apply list_elem_of_lookup in Hvs as [i Hi], Hvs' as [j Hj].
    assert (i = j) as ->.
    { apply (NoDup_lookup clusters.*1 i j g); [done| |]; rewrite list_lookup_fmap.
      - now rewrite Hi.
      - now rewrite Hj. }
    congruence.
  - apply Hother. intros Hg. apply list_elem_of_fmap in Hg as ([g' vs] & -> & Hvs).
    rewrite Forall_forall in Hgood. destruct (Hgood _ Hvs) as [Hne _]. simpl in *.
    destruct vs as [|v vs]; [done|].
    destruct (proj1 (Hin g' v)) as (mb & Hmb & Hg & _).
    { exists (v :: vs). split; [done|constructor]. }
    apply not_true_iff_false in Ex. apply Ex, existsb_exists. exists mb.
    split; [now apply list_elem_of_In|]. now apply bool_decide_eq_true.
Qed.

End SyncFacts.

(** * A book of two deals and an entry that passes *)

Definition demo_members : list ClusterMember :=
  [mkMember "EURUSD" "KeltnerFadeStrategy" "T1"; mkMember "XAUUSD" "FvgStrategy" "T2";
   mkMember "EURUSD" "KeltnerFadeStrategy" "T1"].
Definition demo_sync : bool * client * world store :=
  syncAllClusters "n1" demo_members 300000 makeClient (mkWorld ∅ 5000 []).

Lemma sync_publishes_book_witness :
  demo_sync.1.1 = true /\
  exists t (m : gset string), 5000 <= t /\
    (forall v, v ∈ m <-> exists mb, mb ∈ demo_members /\ "USD_Forex" ∈ groupsFor (cm_symbol mb) /\
                                   v = clusterMemberString mb) /\
    lookup_at (w_server demo_sync.2) 5000 (clusterKey "USD_Forex") =
    if 5000 <? t + 1000 * 300000 then Some (VSet m) else None.
Proof.
  destruct demo_sync as [[r c] w] eqn:E.
  assert (r = true) as -> by (apply (f_equal (fun x => x.1.1)) in E; vm_compute in E; now rewrite <- E).
  assert (w_clock w = 5000) as Hc.
  { transitivity (w_clock demo_sync.2); [now rewrite E|vm_compute; reflexivity]. }
  split; [reflexivity|]. unfold demo_sync in E.
  destruct (sync_publishes_book "n1" demo_members 300000 _ _ _ _ ltac:(lia) E) as [_ H].
  specialize (H "USD_Forex"). cbn [w_clock] in H. rewrite Hc in H.
  match type of H with if ?b then _ else _ => assert (b = true) as Hb by (vm_compute; reflexivity) end.
  rewrite Hb in H. destruct H as (t & m & Ht & Hm & Hl). exists t, m.
  split; [exact Ht|]. split; [exact Hm|]. apply (Hl 5000). lia.
Defined.

