(* ===== verification/Queue.v ===== *)
(** The work queues: their keys ([shared/utilities/queueKeys.hpp]), the queue
    operations of [run/queue/runQueue.cpp], and the two workers that drain them,
    [drainRuns] ([run/queue/drainRuns.cpp]) and [drainExperiments]
    ([analysis/queue/drainExperiments.cpp]).

    A worker is a state machine over the Redis server, one step per awaited
    command, so that several workers and whoever else uses the server interleave
    between any two commands. What a step depends on besides the server is its
    [env]: the stop signal, the pool's error slot, the tick load and the
    connection. *)
From Stdlib Require Import ZArith Lia.
From stdpp Require Import base gmap sets list strings.
From S2P Require Import Prelude Json JsonDump StdText Redis RedisStore Base64 Config ConfigJson ChainMatcher ExperimentJson.
Open Scope Z_scope.

(** * The keys *)

Module queue_keys.

Definition RUN : string := "BACKTESTING_QUEUE_RUN".
Definition RUN_QUEUES : list string :=
  [RUN; "BACKTESTING_QUEUE_RUN_CHAIN:1"; "BACKTESTING_QUEUE_RUN_CHAIN:2";
   "BACKTESTING_QUEUE_RUN_CHAIN:3"].
Definition STRATEGY_PREFIX : string := "BACKTESTING_QUEUE_STRATEGY:".
Definition STRATEGY_PAYLOAD_PREFIX : string := "BACKTESTING_QUEUE_STRATEGY_PAYLOAD:".
Definition PAYLOAD_TTL_SECONDS : Z := 7 * 24 * 60 * 60.
Definition strategyKey (runId : string) : string := STRATEGY_PREFIX +:+ runId.
Definition strategyPayloadKey (runId strategyUuid : string) : string :=
  STRATEGY_PAYLOAD_PREFIX +:+ runId +:+ ":" +:+ strategyUuid.
Definition EXPERIMENT_RUN : string := "BACKTESTING_QUEUE_EXPERIMENT_RUN".
Definition EXPERIMENT_PREFIX : string := "BACKTESTING_QUEUE_EXPERIMENT:".
Definition EXPERIMENT_PAYLOAD_PREFIX : string := "BACKTESTING_QUEUE_EXPERIMENT_PAYLOAD:".
Definition experimentKey (runId : string) : string := EXPERIMENT_PREFIX +:+ runId.
Definition experimentPayloadKey (runId experimentUuid : string) : string :=
  EXPERIMENT_PAYLOAD_PREFIX +:+ runId +:+ ":" +:+ experimentUuid.

End queue_keys.

(** * The queue operations *)

Record PeekedRun : Type := mkPeeked { queueKey : string; descriptorB64 : string }.

Section RunQueue.
Context {server : Type} {R : RedisServer server}.

Definition peekQueueTail (queueKey : string) : operation (server := server) (option PeekedRun) :=
  op_map (option_map (mkPeeked queueKey)) (listIndex queueKey (-1)).

Definition popStrategyKey (strategyKey : string) : operation (server := server) (option string) :=
  listPopBack strategyKey.

Definition takeStrategyPayload (payloadKey : string) : operation (server := server) (option string) :=
  getDelete payloadKey.

Definition removeRun (queueKey descriptorB64 : string) : operation (server := server) unit :=
  listRemove queueKey 0 descriptorB64.

End RunQueue.

(** * The worker *)

(** What differs between the two workers: the queues in priority order, the two
    payload parsers, the key of a run's name list, and whether the stop signal
    is polled. *)
Record drain (Run Task : Type) : Type := mkDrain {
  d_queues : list string;
  d_run : string -> result Run;
  d_list : Run -> string;
  d_task : Run -> string -> result Task;
  d_stops : bool }.
Arguments mkDrain {Run Task} _ _ _ _ _.
Arguments d_queues {Run Task} _.
Arguments d_run {Run Task} _ _.
Arguments d_list {Run Task} _ _.
Arguments d_task {Run Task} _ _ _.
Arguments d_stops {Run Task} _.

(** What the connection does with one command: an interrupted command throws,
    whether the server executed it or not. *)
Inductive delivery : Type := Delivered | Lost (executed : bool).

Record env : Type := mkEnv {
  stop_signal : bool;
  pool_error : bool;
  load_error : bool;
  network : delivery }.

(** What a worker hands to the pool, and what it reports on the way. *)
Inductive event (Run Task : Type) : Type :=
| Submitted (run : Run) (payloadKey payload : string) (task : Task)
| MissingPayload (payloadKey : string)
| RejectedPayload (payloadKey : string)
| RejectedDescriptor (descriptor : string).
Arguments Submitted {Run Task} _ _ _ _.
Arguments MissingPayload {Run Task} _.
Arguments RejectedPayload {Run Task} _.
Arguments RejectedDescriptor {Run Task} _.

Inductive phase (Run : Type) : Type :=
| LoopTop
| Peeking (queues : list string)
| Waiting
| Claiming (peeked : PeekedRun) (run : Run)
| Taking (peeked : PeekedRun) (run : Run) (payloadKey : string)
| PopNext (peeked : PeekedRun) (run : Run)
| Retiring (peeked : PeekedRun)
| Parked
| Aborted.
Arguments LoopTop {Run}.
Arguments Peeking {Run} _.
Arguments Waiting {Run}.
Arguments Claiming {Run} _ _.
Arguments Taking {Run} _ _ _.
Arguments PopNext {Run} _ _.
Arguments Retiring {Run} _.
Arguments Parked {Run}.
Arguments Aborted {Run}.

Section Worker.
Context {server : Type} {R : RedisServer server} {Run Task : Type}.
Variable D : drain Run Task.

Definition perform {T} (op : operation (server := server) T) (e : env) (now : Z) (s : server)
    : result T * server :=
  match network e with
  | Delivered => op now s
  | Lost true => (Throw RuntimeError, (op now s).2)
  | Lost false => (Throw RuntimeError, s)
  end.

Definition stopRequested (e : env) : bool := d_stops D && stop_signal e.

(** Out of the loop: the pool is joined, its error aborts, otherwise the worker
    parks for good. *)
Definition finish (e : env) : phase Run := if pool_error e then Aborted else Parked.

Definition step_result : Type := list (event Run Task) * phase Run * server.

(** The loop's top: the stop signal, then the pool's error slot, then a scan of
    the queues from the first. *)
Definition top_step (e : env) (s : server) : step_result :=
  if stopRequested e then ([], finish e, s)
  else if pool_error e then ([], Aborted, s)
  else ([], Peeking (d_queues D), s).

(** The tail of the next queue: none left to look at, wait; a descriptor that
    does not parse is reported and retired. *)
Definition peek_step (queues : list string) (e : env) (now : Z) (s : server) : step_result :=
  match queues with
  | [] => ([], Waiting, s)
  | queueKey :: queues =>
      match perform (peekQueueTail queueKey) e now s with
      | (Throw _, s) => ([], Aborted, s)
      | (Ok None, s) => ([], Peeking queues, s)
      | (Ok (Some peeked), s) =>
          match d_run D (descriptorB64 peeked) with
          | Ok run => ([], Claiming peeked run, s)
          | Throw _ => ([RejectedDescriptor (descriptorB64 peeked)], Retiring peeked, s)
          end
      end
  end.

(** The first name of the run is claimed before its ticks are loaded. *)
Definition claim_step (peeked : PeekedRun) (run : Run) (e : env) (now : Z) (s : server) : step_result :=
  match perform (popStrategyKey (d_list D run)) e now s with
  | (Throw _, s) => ([], Aborted, s)
  | (Ok None, s) => ([], Retiring peeked, s)
  | (Ok (Some payloadKey), s) =>
      if load_error e then ([], Aborted, s) else ([], Taking peeked run payloadKey, s)
  end.

(** The payload is consumed; a missing one is skipped, one that does not parse
    is reported, any other becomes a task of the pool. *)
Definition take_step (peeked : PeekedRun) (run : Run) (payloadKey : string) (e : env) (now : Z)
    (s : server) : step_result :=
  match perform (takeStrategyPayload payloadKey) e now s with
  | (Throw _, s) => ([], Aborted, s)
  | (Ok taken, s) =>
      ([match taken with
        | None => MissingPayload payloadKey
        | Some payload =>
            match d_task D run payload with
            | Ok task => Submitted run payloadKey payload task
            | Throw _ => RejectedPayload payloadKey
            end
        end],
       if stopRequested e then finish e else PopNext peeked run, s)
  end.

Definition next_step (peeked : PeekedRun) (run : Run) (e : env) (now : Z) (s : server) : step_result :=
  match perform (popStrategyKey (d_list D run)) e now s with
  | (Throw _, s) => ([], Aborted, s)
  | (Ok None, s) => ([], Retiring peeked, s)
  | (Ok (Some payloadKey), s) => ([], Taking peeked run payloadKey, s)
  end.

Definition retire_step (peeked : PeekedRun) (e : env) (now : Z) (s : server) : step_result :=
  match perform (removeRun (queueKey peeked) (descriptorB64 peeked)) e now s with
  | (Throw _, s) => ([], Aborted, s)
  | (Ok _, s) => ([], LoopTop, s)
  end.

Definition step (e : env) (now : Z) (p : phase Run) (s : server) : step_result :=
  match p with
  | LoopTop => top_step e s
  | Peeking queues => peek_step queues e now s
  | Waiting => ([], LoopTop, s)
  | Claiming peeked run => claim_step peeked run e now s
  | Taking peeked run payloadKey => take_step peeked run payloadKey e now s
  | PopNext peeked run => next_step peeked run e now s
  | Retiring peeked => retire_step peeked e now s
  | Parked => ([], Parked, s)
  | Aborted => ([], Aborted, s)
  end.

(** The coroutine's exit code, once it has one. *)
Definition exitCode (p : phase Run) : option Z :=
  match p with Aborted => Some 3 | _ => None end.

(** A worker left to itself for [n] steps of a schedule. *)
Fixpoint steps (sched : nat -> Z * env) (n : nat) (p : phase Run) (s : server) : step_result :=
  match n with
  | O => ([], p, s)
  | S n =>
      let '(ev, p, s) := step (sched O).2 (sched O).1 p s in
      let '(evs, p, s) := steps (fun i => sched (S i)) n p s in
      (ev ++ evs, p, s)
  end.

End Worker.

(** ** The two workers *)

Section Drains.
Context {D : Decimal64} {T : DecimalText D}.

Definition strategy_task (run : RunConfiguration D) (strategyB64 : string) : result (Configuration D) :=
  strategy <~ parseStrategyFromBase64 strategyB64 ; Ok (mkConfiguration D run strategy).

Definition drainRuns : drain (RunConfiguration D) (Configuration D) :=
  mkDrain queue_keys.RUN_QUEUES parseRunConfigurationFromBase64
    (fun run => queue_keys.strategyKey (RUN_ID run)) strategy_task true.

End Drains.

Definition experiment_task (run : ExperimentRunConfiguration) (experimentB64 : string)
    : result (ExperimentRunConfiguration * ExperimentConfig) :=
  experiment <~ parseExperimentFromBase64 experimentB64 ; Ok (run, experiment).

Definition drainExperiments
    : drain ExperimentRunConfiguration (ExperimentRunConfiguration * ExperimentConfig) :=
  mkDrain [queue_keys.EXPERIMENT_RUN] parseExperimentRunFromBase64
    (fun run => queue_keys.experimentKey (exp_RUN_ID run)) experiment_task false.

(** * Each payload goes to one worker *)

Section Once.
Context {server : Type} {R : RedisServer server} {L : RedisLaws server} {Run Task : Type}.
Variable D : drain Run Task.

(** Nothing is stored under the key from [now] on that was not there before. *)
Definition fades (now : Z) (k : string) (s s' : server) : Prop :=
  forall t v, now <= t -> string_at s' t k = Some v -> string_at s t k = Some v.

Lemma fades_refl now k s : fades now k s s.
Proof. now intros t v. Qed.
Lemma unchanged_fades now k (s s' : server) : unchanged now s s' -> fades now k s s'.
Proof. intros H t v Ht. unfold string_at. now rewrite (H t k Ht). Qed.
Lemma removed_fades now k k' (s s' : server) : removed now k' s s' -> fades now k s s'.
Proof. intros H t v Ht. unfold string_at. rewrite (H t k Ht). now case_decide. Qed.
Lemma rewritten_fades now k k' l (s s' : server) : rewritten now k' (VList l) s s' -> fades now k s s'.
Proof.
  intros H t v Ht. unfold string_at. rewrite (H t k Ht).
  case_decide; [|done]. now destruct (lookup_at s now k'), (lookup_at s t k').
Qed.
Hint Resolve fades_refl unchanged_fades removed_fades rewritten_fades : core.

Lemma peekQueueTail_spec q now s :
  let '(r, s') := peekQueueTail q now s in
  unchanged now s s' /\
  r = match lookup_at s now q with
      | None => Ok None | Some (VList l) => Ok (option_map (mkPeeked q) (last l))
      | Some _ => Throw RuntimeError
      end.
Proof.
  unfold peekQueueTail, op_map. pose proof (listTail_spec now q s) as H.
  destruct (listIndex q (-1) now s) as [r s']. destruct H as [Hs ->]. split; [done|].
  now destruct (lookup_at s now q) as [[]|].
Qed.

Lemma removeRun_spec q d now s :
  let '(r, s') := removeRun q d now s in
  match lookup_at s now q with
  | None => r = Ok tt /\ unchanged now s s'
  | Some (VList l) =>
      r = Ok tt /\
      if bool_decide (base.filter (fun x => x <> d) l = []) then removed now q s s'
      else rewritten now q (VList (base.filter (fun x => x <> d) l)) s s'
  | Some _ => unchanged now s s'
  end.
Proof.
  unfold removeRun, listRemove, execIgnore. pose proof (lrem_all_law now q d s) as H.
  destruct (exec now _ s) as [r s'].
  destruct (lookup_at s now q) as [[| l |]|].
  - now destruct H as [_ H].
  - destruct H as [[n ->] H]. rewrite generic_reply_ok by discriminate. auto.
  - now destruct H as [_ H].
  - destruct H as [-> H]. rewrite generic_reply_ok by discriminate. auto.
Qed.

Lemma peek_fades k q now s : fades now k s (peekQueueTail q now s).2.
Proof. pose proof (peekQueueTail_spec q now s) as H. destruct (peekQueueTail q now s). now destruct H; auto. Qed.
Lemma pop_fades k key now s : fades now k s (popStrategyKey key now s).2.
Proof.
  unfold popStrategyKey. pose proof (listPopBack_spec now key s) as H.
  destruct (listPopBack key now s) as [r s']. simpl.
  destruct (lookup_at s now key) as [[]|]; destruct H as [_ H]; eauto.
  case_bool_decide; eauto.
Qed.
Lemma take_fades k key now s : fades now k s (takeStrategyPayload key now s).2.
Proof.
  unfold takeStrategyPayload. pose proof (getDelete_spec now key s) as H.
  destruct (getDelete key now s) as [r s']. simpl.
  destruct (lookup_at s now key) as [[]|]; destruct H as [_ H]; eauto.
Qed.
Lemma remove_fades k q d now s : fades now k s (removeRun q d now s).2.
Proof.
  pose proof (removeRun_spec q d now s) as H. destruct (removeRun q d now s) as [r s']. simpl.
  destruct (lookup_at s now q) as [[]|]; eauto; destruct H as [_ H]; eauto.
  case_bool_decide; eauto.
Qed.

Lemma perform_fades {T} (op : operation (server := server) T) e now k s :
  fades now k s (op now s).2 -> fades now k s (perform op e now s).2.
Proof. unfold perform. destruct (network e) as [|[]]; auto. Qed.

(** A worker stores no payload. *)
Lemma step_fades e now p s evs p' s' k : step D e now p s = (evs, p', s') -> fades now k s s'.
Proof.
  destruct p as [|[|q qs]| |pk run|pk run key|pk run|pk| |]; simpl;
    unfold top_step, claim_step, take_step, next_step, retire_step;
    try (intros [= <- <- <-]; auto; fail).
  - destruct (stopRequested D e); [|destruct (pool_error e)]; intros [= <- <- <-]; auto.
  - pose proof (perform_fades (peekQueueTail q) e now k s (peek_fades k q now s)) as H.
    destruct (perform _ e now s) as [[[pk|]|] s1]; [destruct (d_run D _)| |]; now intros [= <- <- <-].
  - pose proof (perform_fades _ e now k s (pop_fades k (d_list D run) now s)) as H.
    destruct (perform _ e now s) as [[[key|]|] s1]; [destruct (load_error e)| |]; now intros [= <- <- <-].
  - pose proof (perform_fades _ e now k s (take_fades k key now s)) as H.
    destruct (perform _ e now s) as [[taken|] s1]; now intros [= <- <- <-].
  - pose proof (perform_fades _ e now k s (pop_fades k (d_list D run) now s)) as H.
    destruct (perform _ e now s) as [[[key|]|] s1]; now intros [= <- <- <-].
  - pose proof (perform_fades _ e now k s (remove_fades k (queueKey pk) (descriptorB64 pk) now s)) as H.
    destruct (perform _ e now s) as [[] s1]; now intros [= <- <- <-].
Qed.

(** What a worker submits was stored when it was taken, parses, and is gone
    afterwards. *)
Lemma step_submits e now p s evs p' s' run k payload task :
  step D e now p s = (evs, p', s') -> Submitted run k payload task ∈ evs ->
  evs = [Submitted run k payload task] /\ string_at s now k = Some payload /\
  d_task D run payload = Ok task /\ forall t, now <= t -> lookup_at s' t k = None.
Proof.
  intros Hstep Hin. revert Hstep.
  destruct p as [|[|q qs]| |pk run0|pk run0 key|pk run0|pk| |]; simpl;
    unfold top_step, claim_step, take_step, next_step, retire_step, perform;
    try (intros [= <- <- <-]; now apply not_elem_of_nil in Hin).
  all: try (repeat case_match; intros [= <- <- <-]; solve [set_solver]).
  unfold takeStrategyPayload. destruct (network e) as [|[]];
    try (intros [= <- <- <-]; now apply not_elem_of_nil in Hin).
  pose proof (getDelete_spec now key s) as H. destruct (getDelete key now s) as [r s1].
  destruct (lookup_at s now key) as [[v| |]|] eqn:Ev; destruct H as [-> H];
    try (intros [= <- <- <-]; set_solver).
  destruct (d_task D run0 v) as [tk|] eqn:Et; intros [= <- <- <-]; [|set_solver].
  apply list_elem_of_singleton in Hin. injection Hin as -> -> -> ->.
  unfold string_at. rewrite Ev. split_and!; try done.
  intros t Ht. rewrite (H t key Ht). now case_decide.
Qed.

(** Several workers on one server, and whoever else uses it. *)
Record crew : Type := mkCrew {
  c_server : server;
  c_clock : Z;
  c_workers : nat -> phase Run }.

(** One step, seen from one payload key: nobody outside stores it again. *)
Inductive crew_step (k : string) : crew -> list (event Run Task) -> crew -> Prop :=
| worker_step i e now c evs p s :
    c_clock c <= now ->
    step D e now (c_workers c i) (c_server c) = (evs, p, s) ->
    crew_step k c evs (mkCrew s now (fun j => if Nat.eqb j i then p else c_workers c j))
| outside_step now s c :
    c_clock c <= now -> fades now k (c_server c) s ->
    crew_step k c [] (mkCrew s now (c_workers c)).

Inductive crew_run (k : string) : crew -> list (event Run Task) -> crew -> Prop :=
| crew_idle c : crew_run k c [] c
| crew_more c evs c1 trace c2 :
    crew_step k c evs c1 -> crew_run k c1 trace c2 -> crew_run k c (evs ++ trace) c2.

Lemma crew_step_fades k c evs c' :
  crew_step k c evs c' -> c_clock c <= c_clock c' /\ fades (c_clock c') k (c_server c) (c_server c').
Proof. destruct 1 as [i e now c evs p s Hnow Hs|]; [|done]. simpl. eauto using step_fades. Qed.

Lemma string_at_earlier (s : server) k t t' v :
  t <= t' -> string_at s t' k = Some v -> string_at s t k = Some v.
Proof.
  intros Ht. unfold string_at. destruct (lookup_at s t' k) as [x|] eqn:E; [|done].
  now rewrite (passive_law s k t t' x Ht E).
Qed.

(** Whatever is submitted under the key was stored under it at the start. *)
Lemma submitted_was_stored k c trace c' :
  crew_run k c trace c' -> forall run payload task, Submitted run k payload task ∈ trace ->
  d_task D run payload = Ok task /\
  string_at (c_server c) (c_clock c) k = Some payload.
Proof.
  induction 1 as [c|c evs c1 trace c2 Hstep Hrun IH]; intros run payload task Hin;
    [now apply not_elem_of_nil in Hin|].
  apply elem_of_app in Hin as [Hin|Hin].
  - destruct Hstep as [i e now c evs p s Hnow Hs|]; [|now apply not_elem_of_nil in Hin].
    destruct (step_submits _ _ _ _ _ _ _ _ _ _ _ Hs Hin) as (_ & Hk & Ht & _).
    eauto using string_at_earlier.
  - destruct (IH _ _ _ Hin) as (Ht & Hk). split; [done|].
    destruct (crew_step_fades _ _ _ _ Hstep) as [Hclock Hf].
    apply (string_at_earlier _ _ _ (c_clock c1)); [done|]. apply Hf; [lia|done].
Qed.

(** C33: every payload is handed to at most one worker, at most once. However
    the workers, their failures and whoever else uses the server interleave, and
    whatever names the lists hold, a payload that nobody stores again is
    submitted at most once, unchanged, and only if it parses. *)
Theorem payload_once k c trace c' :
  crew_run k c trace c' ->
  forall i run payload task, trace !! i = Some (Submitted run k payload task) ->
  d_task D run payload = Ok task /\
  string_at (c_server c) (c_clock c) k = Some payload /\
  forall j run' payload' task', trace !! j = Some (Submitted run' k payload' task') -> j = i.
Proof.
  intros Hrun i run payload task Hi.
  destruct (submitted_was_stored _ _ _ _ Hrun run payload task) as [Ht Hk];
    [now apply list_elem_of_lookup_2 in Hi|].
  split; [done|]. split; [done|]. clear Ht Hk. revert i run payload task Hi.
  induction Hrun as [c|c evs c1 trace c2 Hstep Hrun IH]; intros i run payload task Hi j run' payload' task' Hj;
    [done|].
  assert (forall r p x, Submitted r k p x ∈ evs -> evs = [Submitted r k p x] /\
            forall r' p' x', Submitted r' k p' x' ∈ trace -> False) as Hhead.
  { intros r p x Hin. destruct Hstep as [n e now c evs ph s Hnow Hs|]; [|now apply not_elem_of_nil in Hin].
    destruct (step_submits _ _ _ _ _ _ _ _ _ _ _ Hs Hin) as (-> & _ & _ & Hgone). split; [done|].
    intros r' p' x' Hin'. destruct (submitted_was_stored _ _ _ _ Hrun _ _ _ Hin') as (_ & Hk).
    unfold string_at in Hk. simpl in *. now rewrite (Hgone now (Z.le_refl _)) in Hk. }
  rewrite lookup_app_Some in Hi, Hj. destruct Hi as [Hi|[Hli Hi]], Hj as [Hj|[Hlj Hj]].
  - destruct (Hhead _ _ _ (list_elem_of_lookup_2 _ _ _ Hi)) as [-> _].
    apply list_lookup_singleton_Some in Hi as [-> _], Hj as [-> _]. done.
  - exfalso. destruct (Hhead _ _ _ (list_elem_of_lookup_2 _ _ _ Hi)) as [_ H].
    eapply H, list_elem_of_lookup_2, Hj.
  - exfalso. destruct (Hhead _ _ _ (list_elem_of_lookup_2 _ _ _ Hj)) as [_ H].
    eapply H, list_elem_of_lookup_2, Hi.
  - specialize (IH _ _ _ _ Hi _ _ _ _ Hj). lia.
Qed.

End Once.

(** * A worker left alone drains everything *)

Section Drained.
Context {server : Type} {R : RedisServer server} {L : RedisLaws server} {Run Task : Type}.
Variable D : drain Run Task.

(** The key holds the list, for good. *)
Definition held (now : Z) (s : server) (k : string) (l : list string) : Prop :=
  forall t, now <= t -> lookup_at s t k = match l with [] => None | _ => Some (VList l) end.

(** Payload names are neither queues nor name lists, and no list is a queue. *)
Record keyed (name : string -> Prop) : Prop := {
  name_not_queue : forall k, name k -> k ∉ d_queues D;
  name_not_list : forall k run, name k -> k <> d_list D run;
  list_not_queue : forall run, d_list D run ∉ d_queues D }.

(** The queues and the name lists are lists without expiry, the lists hold
    payload names, and payload names hold strings. *)
Record shelved (name : string -> Prop) (now : Z) (s : server) : Prop := {
  queues_held : forall q, q ∈ d_queues D -> exists l, held now s q l;
  lists_held : forall run, exists l, held now s (d_list D run) l /\ Forall name l;
  names_strings : forall k, name k -> lookup_at s now k = None \/ exists v, lookup_at s now k = Some (VString v) }.

(** No stop, no failure, and time passes. *)
Definition healthy (e : env) : Prop :=
  stop_signal e = false /\ pool_error e = false /\ load_error e = false /\ network e = Delivered.
Definition undisturbed (sched : nat -> Z * env) : Prop :=
  forall i, healthy (sched i).2 /\ (sched i).1 <= (sched (S i)).1.

Definition shift (n : nat) (sched : nat -> Z * env) : nat -> Z * env := fun i => sched (n + i)%nat.

Definition payload_of (e : event Run Task) : option string :=
  match e with
  | Submitted _ k _ _ | MissingPayload k | RejectedPayload k => Some k
  | RejectedDescriptor _ => None
  end.

(** ** Steps *)

Lemma steps_shift n sched p (s : server) : steps D (fun i => sched i) n p s = steps D sched n p s.
Proof. reflexivity. Qed.

Lemma steps_ext n sched1 sched2 p (s : server) :
  (forall i, sched1 i = sched2 i) -> steps D sched1 n p s = steps D sched2 n p s.
Proof.
  revert sched1 sched2 p s. induction n as [|n IH]; intros sched1 sched2 p s H; [done|]. cbn [steps].
  rewrite (H O). destruct (step _ _ _ _ _) as [[ev p1] s1].
  now rewrite (IH (fun i => sched1 (S i)) (fun i => sched2 (S i))).
Qed.

Lemma steps_app n m sched p (s : server) e1 p1 s1 e2 p2 s2 :
  steps D sched n p s = (e1, p1, s1) -> steps D (shift n sched) m p1 s1 = (e2, p2, s2) ->
  steps D sched (n + m) p s = (e1 ++ e2, p2, s2).
Proof.
  revert sched p s e1. induction n as [|n IH]; intros sched p s e1.
  - intros [= <- <- <-]. cbn. intros H. exact H.
  - cbn [steps Nat.add]. destruct (step _ _ _ _ _) as [[ev p'] s'].
    destruct (steps D (fun i => sched (S i)) n p' s') as [[evs p3] s3] eqn:E.
    intros [= <- -> ->] H. rewrite (IH _ _ _ _ E); [now rewrite app_assoc|exact H].
Qed.

Lemma steps_one sched p (s : server) ev p' s' :
  step D (sched O).2 (sched O).1 p s = (ev, p', s') -> steps D sched 1 p s = (ev, p', s').
Proof. intros H. cbn [steps]. rewrite H. now rewrite app_nil_r. Qed.

Lemma undisturbed_shift n sched : undisturbed sched -> undisturbed (shift n sched).
Proof. intros H i. unfold shift. rewrite Nat.add_succ_r. apply H. Qed.

Lemma undisturbed_le sched n : undisturbed sched -> (sched O).1 <= (sched n).1.
Proof. intros H. induction n as [|n IH]; [lia|]. destruct (H n). lia. Qed.

Lemma held_later now now' s k l : now <= now' -> held now s k l -> held now' s k l.
Proof. intros Hle H t Ht. apply H. lia. Qed.

Lemma held_same now (s : server) k l l' : held now s k l -> held now s k l' -> l = l'.
Proof.
  intros H1 H2. specialize (H1 now (Z.le_refl _)). rewrite (H2 now (Z.le_refl _)) in H1.
  destruct l, l'; congruence.
Qed.

Lemma absent_later (s : server) k t t' : t <= t' -> lookup_at s t k = None -> lookup_at s t' k = None.
Proof.
  intros Ht H. destruct (lookup_at s t' k) as [v|] eqn:E; [|done].
  now rewrite (passive_law s k t t' v Ht E) in H.
Qed.

Lemma shelved_later name now now' s : now <= now' -> shelved name now s -> shelved name now' s.
Proof.
  intros Hle [Hq Hl Hn]. split.
  - intros q Hin. destruct (Hq q Hin) as [l H]. eauto using held_later.
  - intros run. destruct (Hl run) as (l & H & Hf). eauto using held_later.
  - intros k Hk. destruct (lookup_at s now' k) as [v|] eqn:E; [|now left].
    pose proof (passive_law s k now now' v Hle E) as Hv. destruct (Hn k Hk) as [|[w Hw]]; [congruence|].
    right. exists w. congruence.
Qed.

(** Away from a key nothing changed. *)
Definition others (now : Z) (key : string) (s s' : server) : Prop :=
  forall t k, now <= t -> k <> key -> lookup_at s' t k = lookup_at s t k.

Lemma others_held now key s s' k l : others now key s s' -> k <> key -> held now s k l -> held now s' k l.
Proof. intros Ho Hk H t Ht. rewrite Ho by done. now apply H. Qed.

(** ** The commands, on lists that stay *)

Lemma peek_held q l now (s : server) :
  held now s q l ->
  exists s', peekQueueTail q now s = (Ok (option_map (mkPeeked q) (last l)), s') /\ unchanged now s s'.
Proof.
  intros H. pose proof (peekQueueTail_spec q now s) as Hp. destruct (peekQueueTail q now s) as [r s'].
  destruct Hp as [Hs ->]. exists s'. rewrite (H now) by lia. split; [|done]. now destruct l.
Qed.

Lemma pop_held k l now (s : server) :
  held now s k l ->
  exists s', popStrategyKey k now s = (Ok (last l), s') /\
             held now s' k (but_last l) /\ others now k s s'.
Proof.
  intros H. unfold popStrategyKey. pose proof (listPopBack_spec now k s) as Hp.
  destruct (listPopBack k now s) as [r s']. exists s'. rewrite (H now) in Hp by lia.
  destruct l as [|x l]; destruct Hp as [-> Hp].
  - split; [done|]. split; [intros t Ht; rewrite Hp by done; now apply H|intros t k' Ht _; now apply Hp].
  - split; [done|]. case_bool_decide as Hb.
    + rewrite Hb. split; [intros t Ht; rewrite Hp by done; now case_decide|].
      intros t k' Ht Hk. rewrite Hp by done. now case_decide.
    + split; [|intros t k' Ht Hk; rewrite Hp by done; now case_decide].
      intros t Ht. rewrite Hp by done. rewrite decide_True by done. rewrite !H by lia.
      now destruct (but_last (x :: l)).
Qed.

Lemma remove_held q d l now (s : server) :
  held now s q l ->
  exists s', removeRun q d now s = (Ok tt, s') /\
             held now s' q (base.filter (fun x => x <> d) l) /\ others now q s s'.
Proof.
  intros H. pose proof (removeRun_spec q d now s) as Hp.
  destruct (removeRun q d now s) as [r s']. exists s'. rewrite (H now) in Hp by lia.
  destruct l as [|x l]; destruct Hp as [-> Hp].
  - split; [done|]. split; [intros t Ht; rewrite Hp by done; now apply H|intros t k' Ht _; now apply Hp].
  - split; [done|]. set (rest := base.filter (fun y => y <> d) (x :: l)) in *. case_bool_decide as Hb.
    + rewrite Hb. split; [intros t Ht; rewrite Hp by done; now case_decide|].
      intros t k' Ht Hk. rewrite Hp by done. now case_decide.
    + split; [|intros t k' Ht Hk; rewrite Hp by done; now case_decide].
      intros t Ht. rewrite Hp by done. rewrite decide_True by done. rewrite !H by lia.
      now destruct rest.
Qed.


Lemma take_named name k now (s : server) :
  shelved name now s -> name k ->
  exists taken s', takeStrategyPayload k now s = (Ok taken, s') /\
    lookup_at s' now k = None /\ others now k s s'.
Proof.
  intros Hsh Hk. unfold takeStrategyPayload. pose proof (getDelete_spec now k s) as H.
  destruct (getDelete k now s) as [r s'].
  destruct (names_strings _ _ _ Hsh k Hk) as [E|[v E]]; rewrite E in H; destruct H as [-> H].
  - exists None, s'. split; [done|]. split; [now rewrite H|intros t k' Ht _; now apply H].
  - exists (Some v), s'. split; [done|]. split; [rewrite H by lia; now case_decide|].
    intros t k' Ht Hne. rewrite H by done. now case_decide.
Qed.

(** Changing one list, or consuming one payload, keeps the shelves. *)
Lemma shelved_list name now now' (s s' : server) key l' :
  keyed name -> shelved name now s -> others now key s s' -> now <= now' ->
  ~ name key -> held now s' key l' -> Forall name l' ->
  shelved name now' s'.
Proof.
  intros Hd Hsh Ho Hle Hkey Hl' Hf. apply (shelved_later _ now); [done|]. destruct Hsh as [Hq Hl Hn]. split.
  - intros q Hin. destruct (base.decide (q = key)) as [->|Hne]; [eauto|].
    destruct (Hq q Hin) as [l H]. eauto using others_held.
  - intros run. destruct (base.decide (d_list D run = key)) as [E|Hne]; [rewrite E; eauto|].
    destruct (Hl run) as (l & H & Hfl). exists l. eauto using others_held.
  - intros k Hk. rewrite Ho; [now apply Hn|lia|]. now intros ->.
Qed.

Lemma shelved_payload name now now' (s s' : server) key :
  keyed name -> shelved name now s -> others now key s s' -> now <= now' ->
  name key -> lookup_at s' now key = None ->
  shelved name now' s'.
Proof.
  intros Hd Hsh Ho Hle Hkey Hnone. apply (shelved_later _ now); [done|]. destruct Hsh as [Hq Hl Hn]. split.
  - intros q Hin. destruct (Hq q Hin) as [l H]. exists l. apply (others_held now key s); [done| |done].
    intros ->. now apply (name_not_queue _ Hd key).
  - intros run. destruct (Hl run) as (l & H & Hfl). exists l. split; [|done].
    apply (others_held now key s); [done| |done]. intros E. now apply (name_not_list _ Hd key run).
  - intros k Hk. destruct (base.decide (k = key)) as [->|Hne]; [now left|]. rewrite Ho; [now apply Hn|lia|done].
Qed.


Lemma healthy_perform {T} (op : operation (server := server) T) e now s :
  healthy e -> perform op e now s = op now s.
Proof. intros (_ & _ & _ & Hn). unfold perform. now rewrite Hn. Qed.

Lemma healthy_stop e : healthy e -> stopRequested D e = false.
Proof. intros (Hs & _). unfold stopRequested. rewrite Hs. apply andb_false_r. Qed.

(** A payload a worker reports or submits is consumed for good. *)
Lemma steps_fade sched n p s evs p' s' k :
  undisturbed sched -> steps D sched n p s = (evs, p', s') -> fades (sched n).1 k s s'.
Proof.
  revert sched p s evs. induction n as [|n IH]; intros sched p s evs Hu; cbn [steps].
  - intros [= <- <- <-]. apply fades_refl.
  - destruct (step _ _ _ _ _) as [[ev p1] s1] eqn:E.
    destruct (steps D _ n p1 s1) as [[evs2 p2] s2] eqn:E2. intros [= <- <- <-].
    pose proof (step_fades _ _ _ _ _ _ _ _ k E) as H1.
    apply IH in E2; [|exact (undisturbed_shift 1 sched Hu)].
    intros t v Ht Hv. apply H1; [pose proof (undisturbed_le sched (S n) Hu); lia|]. now apply E2.
Qed.

Lemma step_consumes e now p s evs p' s' ev k :
  step D e now p s = (evs, p', s') -> ev ∈ evs -> payload_of ev = Some k -> string_at s' now k = None.
Proof.
  intros Hstep Hin Hk. revert Hstep.
  destruct p as [|[|q qs]| |pk run0|pk run0 key|pk run0|pk| |]; simpl;
    unfold top_step, claim_step, take_step, next_step, retire_step, perform;
    try (intros [= <- <- <-]; now apply not_elem_of_nil in Hin).
  all: try (repeat case_match; intros [= <- <- <-]; set_unfold; naive_solver).
  unfold takeStrategyPayload. destruct (network e) as [|[]];
    try (intros [= <- <- <-]; now apply not_elem_of_nil in Hin).
  pose proof (getDelete_spec now key s) as H. destruct (getDelete key now s) as [r s1].
  unfold string_at.
  destruct (lookup_at s now key) as [[v| |]|] eqn:Ev; destruct H as [-> H]; intros [= <- <- <-];
    try (now apply not_elem_of_nil in Hin); apply list_elem_of_singleton in Hin; subst ev.
  - assert (k = key) as -> by (destruct (d_task D run0 v); now injection Hk).
    rewrite (H now key) by lia. now case_decide.
  - injection Hk as ->. rewrite (H now k) by lia. now rewrite Ev.
Qed.

Lemma steps_consume sched n p s evs p' s' ev k :
  undisturbed sched -> steps D sched n p s = (evs, p', s') -> ev ∈ evs -> payload_of ev = Some k ->
  string_at s' (sched n).1 k = None.
Proof.
  intros Hu. revert sched p s evs Hu. induction n as [|n IH]; intros sched p s evs Hu; cbn [steps].
  - intros [= <- <- <-] Hin. now apply not_elem_of_nil in Hin.
  - destruct (step _ _ _ _ _) as [[ev1 p1] s1] eqn:E.
    destruct (steps D _ n p1 s1) as [[evs2 p2] s2] eqn:E2. intros [= <- <- <-] Hin Hk.
    pose proof (undisturbed_shift 1 sched Hu) as Hu1.
    apply elem_of_app in Hin as [Hin|Hin].
    + pose proof (step_consumes _ _ _ _ _ _ _ _ _ E Hin Hk) as Hnone.
      pose proof (steps_fade _ _ _ _ _ _ _ k Hu1 E2) as Hf.
      destruct (string_at s2 (sched (S n)).1 k) as [v|] eqn:Es; [|done].
      apply Hf in Es; [|unfold shift; simpl; lia].
      apply (string_at_earlier _ _ (sched O).1) in Es; [congruence|]. now apply undisturbed_le.
    + exact (IH _ _ _ _ Hu1 E2 Hin Hk).
Qed.

(** The name list of one run, down to its end. *)
Lemma drain_list name peeked run l :
  keyed name -> forall sched s,
  undisturbed sched -> shelved name (sched O).1 s -> held (sched O).1 s (d_list D run) l ->
  exists n evs s',
    steps D sched n (PopNext peeked run) s = (evs, Retiring peeked, s') /\
    shelved name (sched n).1 s' /\ held (sched n).1 s' (d_list D run) [] /\
    (forall k, k ∈ l -> exists e, e ∈ evs /\ payload_of e = Some k) /\
    (forall k t, (sched n).1 <= t -> ~ name k -> k <> d_list D run -> lookup_at s' t k = lookup_at s t k).
Proof.
  intros Hd. induction l as [|x l IH] using rev_ind; intros sched s Hu Hsh Hl.
  - destruct (pop_held _ _ _ _ Hl) as (s1 & Hop & Hl1 & Ho).
    exists 1%nat, [], s1. split; [apply steps_one; cbn [step]; unfold next_step;
      rewrite healthy_perform by apply Hu; now rewrite Hop|].
    pose proof (undisturbed_le sched 1 Hu) as Hle.
    split; [|split; [eauto using held_later|split]].
    + apply (shelved_list name (sched O).1 _ s s1 (d_list D run) []); eauto using held_later.
      intros Hn. now apply (name_not_list _ Hd (d_list D run) run).
    + intros k Hk. now apply not_elem_of_nil in Hk.
    + intros k t Ht _ Hk. apply Ho; [lia|done].
  - destruct (pop_held _ _ _ _ Hl) as (s1 & Hop & Hl1 & Ho). rewrite last_snoc in Hop.
    destruct (lists_held _ _ _ Hsh run) as (l0 & Hl0 & Hf).
    pose proof (held_same _ _ _ _ _ Hl0 Hl) as ->. clear Hl0.
    rewrite but_last_snoc in Hl1. apply Forall_app in Hf as [Hf Hx]. apply Forall_cons in Hx as [Hx _].
    assert (shelved name (sched 1%nat).1 s1) as Hsh1.
    { pose proof (undisturbed_le sched 1 Hu).
      apply (shelved_list name (sched O).1 _ s s1 (d_list D run) l); eauto using held_later.
      intros Hn. now apply (name_not_list _ Hd (d_list D run) run). }
    destruct (take_named name x (sched 1%nat).1 s1 Hsh1 Hx) as (taken & s2 & Htake & Hnone & Ho2).
    assert (shelved name (shift 2 sched O).1 s2) as Hsh2.
    { eapply shelved_payload; [exact Hd|exact Hsh1|exact Ho2|apply (Hu 1%nat)|exact Hx|exact Hnone]. }
    assert (held (shift 2 sched O).1 s2 (d_list D run) l) as Hl2.
    { apply (held_later (sched 1%nat).1); [apply (Hu 1%nat)|].
      eapply others_held; [exact Ho2| |eapply held_later; [|exact Hl1]; apply (Hu O)].
      intros E. now apply (name_not_list _ Hd x run). }
    destruct (IH _ _ (undisturbed_shift 2 sched Hu) Hsh2 Hl2)
      as (n & evs & s' & Hsteps & Hsh' & Hl' & Hev & Hsame).
    assert (exists ev, payload_of ev = Some x /\
              steps D sched 2 (PopNext peeked run) s = ([ev], PopNext peeked run, s2)) as (ev & Hevx & Htwo).
    { cbn [steps step]. unfold next_step, take_step. rewrite healthy_perform by apply Hu. rewrite Hop.
      cbn [step]. unfold take_step. rewrite healthy_perform by apply Hu. rewrite Htake.
      rewrite healthy_stop by apply Hu. eexists. split; [|reflexivity].
      destruct taken as [payload|]; [now destruct (d_task D run payload)|done]. }
    exists (2 + n)%nat, ([ev] ++ evs), s'.
    split; [now apply (steps_app _ _ _ _ _ _ _ _ _ _ _ Htwo)|].
    split; [exact Hsh'|]. split; [exact Hl'|]. split.
    + intros k Hk. apply elem_of_app in Hk as [Hk|Hk].
      * destruct (Hev k Hk) as (e & He & Hke). exists e. split; [|done]. apply elem_of_app. now right.
      * apply list_elem_of_singleton in Hk as ->. exists ev. split; [|done]. apply elem_of_app. left.
        now apply list_elem_of_singleton.
    + intros k t Ht Hnk Hk. rewrite Hsame by done.
      pose proof (undisturbed_le sched (2 + n) Hu). pose proof (undisturbed_le (shift 1 sched) (1 + n) (undisturbed_shift 1 sched Hu)) as H1.
      unfold shift in *. simpl in *. rewrite Ho2; [|lia|now intros ->]. apply Ho; [lia|done].
Qed.


(** ** Every run of every queue *)

Definition same_from (now : Z) (s s' : server) : Prop :=
  forall t k, now <= t -> lookup_at s' t k = lookup_at s t k.

Lemma same_held now s s' k l : same_from now s s' -> held now s k l -> held now s' k l.
Proof. intros H Hh t Ht. rewrite H by done. now apply Hh. Qed.

Lemma same_shelved name now s s' : same_from now s s' -> shelved name now s -> shelved name now s'.
Proof.
  intros H [Hq Hl Hn]. split.
  - intros q Hin. destruct (Hq q Hin). eauto using same_held.
  - intros run. destruct (Hl run) as (l & ? & ?). eauto using same_held.
  - intros k Hk. rewrite H by lia. now apply Hn.
Qed.

(** The scan stops at the first queue that holds a run: every queue before it
    is empty. *)
Definition found (qs : list string) (now : Z) (s : server) (q d : string) : Prop :=
  exists before after l, qs = before ++ q :: after /\
    (forall q', q' ∈ before -> held now s q' []) /\ held now s q l /\ last l = Some d.

Lemma scan_queues qs sched s :
  undisturbed sched ->
  (forall q, q ∈ qs -> exists l, held (sched O).1 s q l) ->
  exists n s', same_from (sched n).1 s s' /\
    ((steps D sched n (Peeking qs) s = ([], Waiting, s') /\ forall q, q ∈ qs -> held (sched O).1 s q []) \/
     exists q d, found qs (sched O).1 s q d /\
       steps D sched n (Peeking qs) s =
         match d_run D d with
         | Ok run => ([], Claiming (mkPeeked q d) run, s')
         | Throw _ => ([RejectedDescriptor d], Retiring (mkPeeked q d), s')
         end).
Proof.
  intros Hu. revert sched s Hu. induction qs as [|q qs IH]; intros sched s Hu Hq.
  - exists 1%nat, s. split; [done|]. left. split; [done|]. intros q Hin. now apply not_elem_of_nil in Hin.
  - destruct (Hq q) as [l Hl]; [now left|].
    destruct (peek_held _ _ _ _ Hl) as (s1 & Hop & Hs1).
    destruct (last l) as [d|] eqn:El.
    + exists 1%nat, s1. split; [intros t k Ht; apply Hs1; pose proof (undisturbed_le sched 1 Hu); lia|].
      right. exists q, d. split; [exists [], qs, l; split; [done|]; split; [|done]; intros q' Hin;
        now apply not_elem_of_nil in Hin|].
      destruct (d_run D d) as [run|ex] eqn:Er; apply steps_one; cbn [step peek_step];
        rewrite healthy_perform by apply Hu; rewrite Hop; simpl; now rewrite Er.
    + apply last_None in El as ->.
      destruct (IH (shift 1 sched) s1 (undisturbed_shift 1 sched Hu)) as (n & s' & Hs' & Hcases).
      { intros q' Hin. destruct (Hq q') as [l' Hl']; [now right|]. exists l'.
        apply (held_later (sched O).1); [apply (Hu O)|]. now apply (same_held _ s). }
      assert (steps D sched 1 (Peeking (q :: qs)) s = ([], Peeking qs, s1)) as Hone.
      { apply steps_one. cbn [step peek_step]. rewrite healthy_perform by apply Hu. now rewrite Hop. }
      assert (forall q', q' ∈ qs -> forall l', held (shift 1 sched O).1 s1 q' l' -> held (sched O).1 s q' l')
        as Hback.
      { intros q' Hin l' H'. destruct (Hq q') as [l0 Hl0]; [now right|].
        assert (held (shift 1 sched O).1 s1 q' l0) as H0.
        { apply (held_later (sched O).1); [apply (Hu O)|]. now apply (same_held _ s). }
        now rewrite (held_same _ _ _ _ _ H' H0). }
      exists (S n), s'. split.
      { intros t k Ht. rewrite Hs' by exact Ht. apply Hs1. pose proof (undisturbed_le sched (S n) Hu). lia. }
      destruct Hcases as [[Hsteps He]|(q' & d & (before & after & l' & -> & Hb & Hl' & Hd) & Hsteps)].
      * left. split; [exact (steps_app 1 n _ _ _ _ _ _ _ _ _ Hone Hsteps)|].
        intros q' Hin. apply elem_of_cons in Hin as [->|Hin]; [done|]. eapply Hback; eauto.
      * right. exists q', d. split.
        { exists (q :: before), after, l'. split; [done|]. split; [|split; [|done]].
          - intros q0 Hin. apply elem_of_cons in Hin as [->|Hin]; [done|].
            apply Hback; [apply elem_of_app; now left|now apply Hb].
          - apply Hback; [apply elem_of_app; right; now left|done]. }
        destruct (d_run D d); exact (steps_app 1 n _ _ _ _ _ _ _ _ _ Hone Hsteps).
Qed.

Lemma claim_is_pop e now pk run s :
  healthy e -> step D e now (Claiming pk run) s = step D e now (PopNext pk run) s.
Proof.
  intros (_ & _ & Hl & _). cbn [step]. unfold claim_step, next_step. rewrite Hl.
  now destruct (perform _ _ _ _) as [[[]|] ?].
Qed.

Lemma sum_list_lt (f g : string -> nat) l q :
  (forall x, x ∈ l -> (f x <= g x)%nat) -> q ∈ l -> (f q < g q)%nat ->
  (sum_list_with f l < sum_list_with g l)%nat.
Proof.
  induction l as [|x l IH]; intros Hle Hin Hlt; [now apply not_elem_of_nil in Hin|].
  assert (forall l0, (forall y, y ∈ l0 -> (f y <= g y)%nat) -> (sum_list_with f l0 <= sum_list_with g l0)%nat) as Hsum.
  { induction l0 as [|y l0 IH0]; intros H; [done|]. simpl.
    specialize (IH0 (fun z Hz => H z (list_elem_of_further _ _ _ Hz))).
    specialize (H y (list_elem_of_here _ _)). lia. }
  simpl. pose proof (Hle x (list_elem_of_here _ _)).
  apply elem_of_cons in Hin as [->|Hin].
  - specialize (Hsum l (fun z Hz => Hle z (list_elem_of_further _ _ _ Hz))). lia.
  - specialize (IH (fun z Hz => Hle z (list_elem_of_further _ _ _ Hz)) Hin Hlt). lia.
Qed.


(** The queues' contents without one descriptor of one queue. *)
Definition without (q d : string) (content : string -> list string) (q' : string) : list string :=
  if base.decide (q' = q) then base.filter (fun x => x <> d) (content q) else content q'.

Lemma retire_held name q d sched s content :
  keyed name -> undisturbed sched -> shelved name (sched O).1 s ->
  q ∈ d_queues D -> (forall q', q' ∈ d_queues D -> held (sched O).1 s q' (content q')) ->
  exists s', steps D sched 1 (Retiring (mkPeeked q d)) s = ([], LoopTop, s') /\
    shelved name (sched 1%nat).1 s' /\
    (forall q', q' ∈ d_queues D -> held (sched 1%nat).1 s' q' (without q d content q')) /\
    others (sched 1%nat).1 q s s'.
Proof.
  intros Hd Hu Hsh Hq Hc. destruct (remove_held q d _ _ s (Hc q Hq)) as (s' & Hop & Hl & Ho).
  pose proof (undisturbed_le sched 1 Hu) as Hle.
  exists s'. split.
  { apply steps_one. cbn [step]. unfold retire_step. rewrite healthy_perform by apply Hu. simpl.
    now rewrite Hop. }
  split; [|split; [|intros t k Ht; apply Ho; lia]].
  - destruct (queues_held _ _ _ Hsh q Hq) as [l0 Hl0]. split.
    + intros q' Hin. destruct (base.decide (q' = q)) as [->|Hne]; [eauto using held_later|].
      exists (content q'). eauto using held_later, others_held.
    + intros run. destruct (lists_held _ _ _ Hsh run) as (l & H & Hf). exists l. split; [|done].
      apply (held_later (sched O).1); [done|]. apply (others_held _ q s); [done| |done].
      intros E. apply (list_not_queue _ Hd run). now rewrite E.
    + intros k Hk. destruct (names_strings _ _ _ (shelved_later _ _ _ _ Hle Hsh) k Hk) as [H|[v H]];
        (rewrite Ho; [eauto|lia|intros ->; now apply (name_not_queue _ Hd q)]).
  - intros q' Hin. unfold without. case_decide as E; [subst; eauto using held_later|].
    apply (held_later (sched O).1); [done|]. apply (others_held _ q s); [done|done|now apply Hc].
Qed.

Lemma without_lt q d content l :
  q ∈ l -> d ∈ content q ->
  (sum_list_with (fun x => length (without q d content x)) l < sum_list_with (fun x => length (content x)) l)%nat.
Proof.
  intros Hq Hd. apply (sum_list_lt _ _ _ q); [|done|].
  - intros x _. unfold without. case_decide; [subst; apply length_filter|done].
  - unfold without. rewrite decide_True by done. apply (length_filter_lt _ _ d); [done|]. tauto.
Qed.

Lemma shift_O n sched : shift n sched O = sched n.
Proof. unfold shift. now rewrite Nat.add_0_r. Qed.

(** A claimed run, from its first name to its retired descriptor: its name list
    is consumed, every other list stays. *)
Lemma claimed_run name content q d run sched s :
  keyed name -> undisturbed sched -> shelved name (sched O).1 s ->
  q ∈ d_queues D -> (forall q', q' ∈ d_queues D -> held (sched O).1 s q' (content q')) ->
  exists n evs s', steps D sched n (Claiming (mkPeeked q d) run) s = (evs, LoopTop, s') /\
    shelved name (sched n).1 s' /\
    (forall q', q' ∈ d_queues D -> held (sched n).1 s' q' (without q d content q')) /\
    (forall l k, held (sched O).1 s (d_list D run) l -> k ∈ l ->
       exists e, e ∈ evs /\ payload_of e = Some k) /\
    (forall run' l, d_list D run' <> d_list D run ->
       held (sched O).1 s (d_list D run') l -> held (sched n).1 s' (d_list D run') l).
Proof.
  intros Hd Hu Hsh Hq Hc.
  destruct (lists_held _ _ _ Hsh run) as (lr & Hlr & _).
  destruct (drain_list name (mkPeeked q d) run lr Hd _ s Hu Hsh Hlr)
    as (m & evs & s1 & Hsteps & Hsh1 & Hl1 & Hev & Hsame).
  destruct m as [|m]; [discriminate Hsteps|].
  assert (steps D sched (S m) (Claiming (mkPeeked q d) run) s = (evs, Retiring (mkPeeked q d), s1)) as Hclaim.
  { rewrite <- Hsteps. cbn [steps]. rewrite claim_is_pop by apply Hu. reflexivity. }
  pose proof (undisturbed_shift (S m) _ Hu) as Hum. pose proof (undisturbed_le _ (S m) Hu) as Hle.
  assert (forall k l, ~ name k -> k <> d_list D run ->
            held (sched O).1 s k l -> held (shift (S m) sched O).1 s1 k l) as Hkeep.
  { intros k l Hn Hk H t Ht. rewrite shift_O in Ht. rewrite Hsame by done. apply H. lia. }
  destruct (retire_held name q d (shift (S m) sched) s1 content Hd Hum)
    as (s2 & Hret & Hsh2 & Hc2 & Ho2); [now rewrite shift_O|done| |].
  { intros q' Hin. apply Hkeep; [| |now apply Hc];
      [intros Hn; now apply (name_not_queue _ Hd q')|intros ->; now apply (list_not_queue _ Hd run)]. }
  exists (S m + 1)%nat, (evs ++ []), s2. split; [exact (steps_app (S m) 1 _ _ _ _ _ _ _ _ _ Hclaim Hret)|].
  replace (sched (S m + 1)%nat) with (shift (S m) sched 1%nat) by reflexivity.
  split; [done|]. split; [done|]. split.
  - intros l k Hl Hk. rewrite (held_same _ _ _ _ _ Hl Hlr) in Hk. rewrite app_nil_r. now apply Hev.
  - intros run' l Hne Hl. apply (others_held _ q s1); [done| |].
    + intros E. apply (list_not_queue _ Hd run'). now rewrite E.
    + apply (held_later (shift (S m) sched O).1); [now apply undisturbed_le|].
      apply Hkeep; [|done|done].
      intros Hn. now apply (name_not_list _ Hd _ run' Hn).
Qed.

(** One round: from the top of the loop, with a run somewhere, back to the top
    with its descriptor retired and its name list consumed. *)
Lemma drain_round name content sched s :
  keyed name -> undisturbed sched -> shelved name (sched O).1 s ->
  (forall q, q ∈ d_queues D -> held (sched O).1 s q (content q)) ->
  (exists n s', steps D sched n LoopTop s = ([], Waiting, s') /\ same_from (sched n).1 s s' /\
     forall q, q ∈ d_queues D -> content q = []) \/
  exists n evs s' q d,
    steps D sched n LoopTop s = (evs, LoopTop, s') /\ q ∈ d_queues D /\ d ∈ content q /\
    shelved name (sched n).1 s' /\
    (forall q', q' ∈ d_queues D -> held (sched n).1 s' q' (without q d content q')) /\
    (forall run, d_run D d = Ok run -> forall l k, held (sched O).1 s (d_list D run) l -> k ∈ l ->
       exists e, e ∈ evs /\ payload_of e = Some k) /\
    (forall run l, (forall run', d_run D d = Ok run' -> d_list D run <> d_list D run') ->
       held (sched O).1 s (d_list D run) l -> held (sched n).1 s' (d_list D run) l).
Proof.
  intros Hd Hu Hsh Hc.
  assert (steps D sched 1 LoopTop s = ([], Peeking (d_queues D), s)) as Htop.
  { apply steps_one. cbn [step]. unfold top_step. rewrite healthy_stop by apply Hu.
    destruct (Hu O) as [(_ & -> & _) _]. done. }
  pose proof (undisturbed_shift 1 sched Hu) as Hu1.
  assert (forall q l, held (shift 1 sched O).1 s q l -> q ∈ d_queues D -> l = content q) as Hcont.
  { intros q l Hl Hin. eapply held_same; [exact Hl|].
    apply (held_later (sched O).1); [apply (Hu O)|now apply Hc]. }
  destruct (scan_queues (d_queues D) (shift 1 sched) s Hu1) as (n & s1 & Hs1 & [[Hscan Hempty]|
    (q & d & (before & after & l & Hqs & _ & Hl & Hlast) & Hscan)]).
  { intros q Hin. exists (content q). apply (held_later (sched O).1); [apply (Hu O)|now apply Hc]. }
  { left. exists (1 + n)%nat, s1. split; [exact (steps_app 1 n _ _ _ _ _ _ _ _ _ Htop Hscan)|].
    split; [exact Hs1|]. intros q Hin. symmetry. apply Hcont; [now apply Hempty|done]. }
  right. pose proof (undisturbed_shift (1 + n) _ Hu) as Hun.
  assert (q ∈ d_queues D) as Hq by (rewrite Hqs; apply elem_of_app; right; now left).
  rewrite (Hcont q l Hl Hq) in Hlast. apply last_Some_elem_of in Hlast as Hdin.
  pose proof (undisturbed_le sched (1 + n) Hu) as Hle.
  assert (shelved name (shift (1 + n) sched O).1 s1) as Hsh1.
  { rewrite shift_O. apply (same_shelved _ _ s); [exact Hs1|]. now apply (shelved_later _ (sched O).1). }
  assert (forall k l0, held (sched O).1 s k l0 -> held (shift (1 + n) sched O).1 s1 k l0) as Hkeep.
  { intros k l0 H. rewrite shift_O. apply (same_held _ s); [exact Hs1|].
    now apply (held_later (sched O).1). }
  destruct (d_run D d) as [run|ex] eqn:Er.
  - destruct (claimed_run name content q d run (shift (1 + n) sched) s1 Hd Hun Hsh1 Hq)
      as (m & evs & s2 & Hsteps & Hsh2 & Hc2 & Hev & Hrest); [intros q' Hin; now apply Hkeep, Hc|].
    exists (1 + n + m)%nat, ([] ++ evs), s2, q, d.
    split; [exact (steps_app (1 + n) m _ _ _ _ _ _ _ _ _ (steps_app 1 n _ _ _ _ _ _ _ _ _ Htop Hscan) Hsteps)|].
    replace (sched (1 + n + m)%nat) with (shift (1 + n) sched m) by reflexivity.
    split_and!; try done.
    + intros run' E l0 k Hl0. assert (run' = run) as -> by congruence. apply Hev. now apply Hkeep.
    + intros run' l0 Hne Hl0. apply Hrest; [now apply Hne|now apply Hkeep].
  - destruct (retire_held name q d (shift (1 + n) sched) s1 content Hd Hun Hsh1 Hq)
      as (s2 & Hret & Hsh2 & Hc2 & Ho2); [intros q' Hin; now apply Hkeep, Hc|].
    exists (1 + n + 1)%nat, ([RejectedDescriptor d] ++ []), s2, q, d.
    split; [exact (steps_app (1 + n) 1 _ _ _ _ _ _ _ _ _ (steps_app 1 n _ _ _ _ _ _ _ _ _ Htop Hscan) Hret)|].
    replace (sched (1 + n + 1)%nat) with (shift (1 + n) sched 1%nat) by reflexivity.
    split_and!; try done; [intros run E; congruence|].
    intros run l0 _ Hl0. apply (others_held _ q s1); [done| |].
    + intros E. apply (list_not_queue _ Hd run). now rewrite E.
    + apply (held_later (shift (1 + n) sched O).1); [now apply undisturbed_le|now apply Hkeep].
Qed.


Lemma drain_all name m : keyed name -> forall content sched s,
  (sum_list_with (fun q => length (content q)) (d_queues D) < m)%nat ->
  undisturbed sched -> shelved name (sched O).1 s ->
  (forall q, q ∈ d_queues D -> held (sched O).1 s q (content q)) ->
  exists n evs s', steps D sched n LoopTop s = (evs, Waiting, s') /\
    shelved name (sched n).1 s' /\ (forall q, q ∈ d_queues D -> held (sched n).1 s' q []) /\
    (forall q d run l k, q ∈ d_queues D -> d ∈ content q -> d_run D d = Ok run ->
       held (sched O).1 s (d_list D run) l -> k ∈ l ->
       exists e, e ∈ evs /\ payload_of e = Some k).
Proof.
  intros Hd. induction m as [|m IH]; intros content sched s Hm Hu Hsh Hc; [lia|].
  destruct (drain_round name content sched s Hd Hu Hsh Hc)
    as [(n & s' & Hsteps & Hsame & Hempty)
       |(n & evs & s1 & q & d & Hsteps & Hq & Hdq & Hsh1 & Hc1 & Hev & Hrest)].
  - exists n, [], s'. pose proof (undisturbed_le sched n Hu). split_and!; [done| | |].
    + apply (same_shelved _ _ s); [done|]. now apply (shelved_later _ (sched O).1).
    + intros q Hq. rewrite <- (Hempty q Hq). apply (same_held _ s); [done|].
      apply (held_later (sched O).1); [done|now apply Hc].
    + intros q d run l k Hq Hin. rewrite (Hempty q Hq) in Hin. now apply not_elem_of_nil in Hin.
  - pose proof (without_lt q d content (d_queues D) Hq Hdq) as Hlt.
    destruct (IH (without q d content) (shift n sched) s1) as (n2 & evs2 & s2 & Hsteps2 & Hsh2 & He2 & Hev2);
      [lia|now apply undisturbed_shift|now rewrite shift_O|rewrite shift_O; exact Hc1|].
    exists (n + n2)%nat, (evs ++ evs2), s2.
    split; [exact (steps_app _ _ _ _ _ _ _ _ _ _ _ Hsteps Hsteps2)|].
    split; [exact Hsh2|]. split; [exact He2|].
    intros q' d' run l k Hq' Hd' Hrun Hl Hk.
    assert ((exists run', d_run D d = Ok run' /\ d_list D run = d_list D run') \/
            forall run', d_run D d = Ok run' -> d_list D run <> d_list D run') as [(run' & Hr & E)|Hne].
    { destruct (d_run D d) as [run'|]; [|right; discriminate].
      destruct (base.decide (d_list D run = d_list D run')) as [E|E]; [left; eauto|right; congruence]. }
    + rewrite E in Hl. destruct (Hev run' Hr l k Hl Hk) as (e & He & Hpe). exists e.
      split; [apply elem_of_app; now left|done].
    + assert (d' <> d) as Hdd by (intros ->; now apply (Hne run Hrun)).
      destruct (Hev2 q' d' run l k Hq') as (e & He & Hpe); [|done| |done|].
      * unfold without. case_decide; [|done]. subst q'. apply list_elem_of_filter. auto.
      * rewrite shift_O. now apply Hrest.
      * exists e. split; [apply elem_of_app; now right|done].
Qed.

(** C34: a worker left alone drains everything. From queues and name lists of any
    contents, poison descriptors and payloads included, an undisturbed worker
    gets back to waiting with every queue empty, after submitting or reporting
    every payload name of every queued run and leaving none of the payloads
    behind. *)
Theorem worker_drains name sched s :
  keyed name -> undisturbed sched -> shelved name (sched O).1 s ->
  exists n evs s', steps D sched n LoopTop s = (evs, Waiting, s') /\
    (forall q, q ∈ d_queues D -> lookup_at s' (sched n).1 q = None) /\
    (forall q descriptors d run names k,
       q ∈ d_queues D -> held (sched O).1 s q descriptors -> d ∈ descriptors ->
       d_run D d = Ok run -> held (sched O).1 s (d_list D run) names -> k ∈ names ->
       (exists e, e ∈ evs /\ payload_of e = Some k) /\ lookup_at s' (sched n).1 k = None).
Proof.
  intros Hd Hu Hsh.
  set (content q := match lookup_at s (sched O).1 q with Some (VList l) => l | _ => [] end).
  assert (forall q l, held (sched O).1 s q l -> content q = l) as Hcontent.
  { intros q l Hl. unfold content. rewrite (Hl _ (Z.le_refl _)). now destruct l. }
  destruct (drain_all name _ Hd content sched s (Nat.lt_succ_diag_r _) Hu Hsh)
    as (n & evs & s' & Hsteps & Hsh' & Hempty & Hev).
  { intros q Hq. destruct (queues_held _ _ _ Hsh q Hq) as [l Hl]. now rewrite (Hcontent q l Hl). }
  exists n, evs, s'. split; [done|]. split; [intros q Hq; now apply Hempty|].
  intros q descriptors d run names k Hq Hdesc Hdin Hrun Hnames Hk.
  rewrite <- (Hcontent _ _ Hdesc) in Hdin.
  destruct (Hev q d run names k Hq Hdin Hrun Hnames Hk) as (e & He & Hpe). split; [eauto|].
  pose proof (steps_consume _ _ _ _ _ _ _ _ k Hu Hsteps He Hpe) as Hgone.
  destruct (lists_held _ _ _ Hsh run) as (l & Hl & Hf).
  rewrite (held_same _ _ _ _ _ Hnames Hl) in Hk. rewrite Forall_forall in Hf.
  destruct (names_strings _ _ _ Hsh' k) as [|[v Hv]]; [now apply Hf|done|].
  unfold string_at in Hgone. now rewrite Hv in Hgone.
Qed.

End Drained.

(** * Witnesses *)

Section Schedule.
Context {server : Type} {R : RedisServer server} {Run Task : Type}.
Variable D : drain Run Task.

(** A schedule of worker steps as a computation: who steps, when, in what
    environment. *)
Definition crew_next (c : crew (server := server) (Run := Run)) (turn : nat * Z * env)
    : list (event Run Task) * crew (server := server) (Run := Run) :=
  let '(i, now, e) := turn in
  let '(evs, p, s) := step D e now (c_workers c i) (c_server c) in
  (evs, mkCrew s now (fun j => if Nat.eqb j i then p else c_workers c j)).

Fixpoint crew_turns (c : crew) (turns : list (nat * Z * env)) : list (event Run Task) * crew :=
  match turns with
  | [] => ([], c)
  | turn :: turns =>
      let '(evs, c) := crew_next c turn in
      let '(trace, c) := crew_turns c turns in (evs ++ trace, c)
  end.

Fixpoint in_order (now : Z) (turns : list (nat * Z * env)) : bool :=
  match turns with
  | [] => true
  | (_, t, _) :: turns => (now <=? t) && in_order t turns
  end.

Lemma crew_turns_run k turns c :
  in_order (c_clock c) turns = true ->
  crew_run D k c (crew_turns c turns).1 (crew_turns c turns).2.
Proof.
  revert c. induction turns as [|[[i t] e] turns IH]; intros c Ho; [constructor|].
  cbn [in_order] in Ho. apply andb_prop in Ho as [Ht Ho]. apply Z.leb_le in Ht.
  cbn [crew_turns crew_next].
  destruct (step D e t (c_workers c i) (c_server c)) as [[evs p] s] eqn:E.
  set (c1 := mkCrew s t _). specialize (IH c1 Ho).
  destruct (crew_turns c1 turns) as [trace c2].
  exact (crew_more _ _ _ _ _ _ _ (worker_step _ _ i e t c evs p s Ht E) IH).
Qed.

End Schedule.

(** A run with two payloads, one of them poison, behind a poison descriptor. *)
Definition demo_descriptor : string :=
  b64encode (match RunConfiguration_to_json (T := plainText) sample_run with
             | Ok j => match dump j with Ok s => s | Throw _ => "" end
             | Throw _ => "" end).
Definition demo_payload : string :=
  b64encode (match dump (to_json sample_strategy) with Ok s => s | Throw _ => "" end).
Definition demo_key (uuid : string) : string := queue_keys.strategyPayloadKey "r1" uuid.
Definition demo_queue : store :=
  <[queue_keys.RUN := (VList [demo_descriptor; "poison"], None)]>
  (<[queue_keys.strategyKey "r1" := (VList [demo_key "b"; demo_key "a"], None)]>
  (<[demo_key "a" := (VString demo_payload, None)]>
  (<[demo_key "b" := (VString "poison", None)]> ∅))).

Definition demo_drain := drainRuns (T := plainText).
Definition calm : env := mkEnv false false false Delivered.
Definition demo_name (k : string) : Prop := exists s, k = queue_keys.STRATEGY_PAYLOAD_PREFIX +:+ s.

Lemma demo_lookup k t :
  store_lookup demo_queue t k =
  if base.decide (k = queue_keys.RUN) then Some (VList [demo_descriptor; "poison"])
  else if base.decide (k = queue_keys.strategyKey "r1") then Some (VList [demo_key "b"; demo_key "a"])
  else if base.decide (k = demo_key "a") then Some (VString demo_payload)
  else if base.decide (k = demo_key "b") then Some (VString "poison") else None.
Proof.
  unfold demo_queue.
  repeat (let E := fresh in case_decide as E;
          [now rewrite E, store_lookup_insert_eq|rewrite store_lookup_insert_ne by done]).
  reflexivity.
Qed.

Lemma demo_keyed : keyed demo_drain demo_name.
Proof.
  split.
  - intros k [s ->] Hin. cbn in Hin. set_unfold. naive_solver.
  - intros k run [s ->]. cbn. discriminate.
  - intros run Hin. cbn in Hin. set_unfold. naive_solver.
Qed.

Lemma demo_shelved t : shelved demo_drain demo_name t demo_queue.
Proof.
  split.
  - intros q Hin. cbn in Hin.
    assert (q = queue_keys.RUN \/ (q <> queue_keys.RUN /\ q <> queue_keys.strategyKey "r1" /\
              q <> demo_key "a" /\ q <> demo_key "b")) as [->|(H1 & H2 & H3 & H4)].
    { set_unfold. destruct Hin as [->|[->|[->|[->|[]]]]]; [now left| | |]; right; repeat split; discriminate. }
    + exists [demo_descriptor; "poison"]. intros t' _. cbn [lookup_at store_server]. now rewrite demo_lookup.
    + exists []. intros t' _. cbn [lookup_at store_server]. rewrite demo_lookup.
      now rewrite !decide_False by done.
  - intros run. cbn [demo_drain drainRuns d_list]. destruct (base.decide (RUN_ID run = "r1")) as [->|Hne].
    + exists [demo_key "b"; demo_key "a"]. split.
      * intros t' _. cbn [lookup_at store_server]. now rewrite demo_lookup.
      * repeat constructor; eexists; reflexivity.
    + exists []. split; [|constructor]. intros t' _. cbn [lookup_at store_server]. rewrite demo_lookup.
      rewrite !decide_False; [done|discriminate|discriminate| |discriminate].
      intros E. apply Hne. unfold queue_keys.strategyKey in E. now apply (inj (String.app _)) in E.
  - intros k [s ->]. cbn [lookup_at store_server]. rewrite demo_lookup.
    rewrite decide_False by discriminate. rewrite decide_False by discriminate.
    repeat case_decide; eauto.
Qed.

Lemma worker_drains_witness :
  keyed demo_drain demo_name /\ undisturbed (fun i => (Z.of_nat i, calm)) /\
  shelved demo_drain demo_name 0 demo_queue /\
  exists n evs s', steps demo_drain (fun i => (Z.of_nat i, calm)) n LoopTop demo_queue = (evs, Waiting, s') /\
    (forall q, q ∈ queue_keys.RUN_QUEUES -> lookup_at s' (Z.of_nat n) q = None).
Proof.
  assert (undisturbed (fun i => (Z.of_nat i, calm))) as Hu by (intros i; split; [done|simpl; lia]).
  split; [exact demo_keyed|]. split; [exact Hu|]. split; [apply demo_shelved|].
  destruct (worker_drains demo_drain demo_name _ demo_queue demo_keyed Hu (demo_shelved 0))
    as (n & evs & s' & Hsteps & Hq & _).
  exists n, evs, s'. split; [exact Hsteps|exact Hq].
Defined.

(** Two workers share the run: the first takes the payload, the second finds the
    poison one and loses its connection. *)
Definition demo_crew : crew (server := store) (Run := RunConfiguration plainDecimal) :=
  mkCrew demo_queue 0 (fun _ => Peeking [queue_keys.RUN]).
Definition demo_turns : list (nat * Z * env) :=
  [(0%nat, 1, calm); (0%nat, 2, calm); (0%nat, 3, calm); (0%nat, 4, calm); (0%nat, 5, calm); (0%nat, 6, calm); (0%nat, 7, calm);
   (1%nat, 8, calm); (1%nat, 9, calm); (0%nat, 10, calm); (1%nat, 11, mkEnv false false false (Lost true)); (0%nat, 12, calm)].

Lemma payload_once_witness :
  let trace := (crew_turns demo_drain demo_crew demo_turns).1 in
  crew_run demo_drain (demo_key "a") demo_crew trace (crew_turns demo_drain demo_crew demo_turns).2 /\
  exists i, trace !! i = Some (Submitted sample_run (demo_key "a") demo_payload
                                (mkConfiguration plainDecimal sample_run sample_strategy)) /\
    forall j run payload task, trace !! j = Some (Submitted run (demo_key "a") payload task) -> j = i.
Proof.
  intros trace.
  assert (crew_run demo_drain (demo_key "a") demo_crew trace (crew_turns demo_drain demo_crew demo_turns).2)
    as Hrun by (apply crew_turns_run; reflexivity).
  assert (trace !! 1%nat = Some (Submitted sample_run (demo_key "a") demo_payload
                                (mkConfiguration plainDecimal sample_run sample_strategy))) as Hi
    by (vm_compute; reflexivity).
  split; [exact Hrun|]. exists 1%nat. split; [exact Hi|].
  exact (proj2 (proj2 (payload_once demo_drain _ _ _ _ Hrun _ _ _ _ Hi))).
Defined.
