(* ===== verification/RedisLoader.v ===== *)
(** The producer's side of the queues: [load/redisLoader.cpp]. A descriptor is
    pushed as one payload; a sweep is streamed chunk by chunk, the payloads of a
    chunk stored under their keys before the key names are pushed. *)
From Stdlib Require Import ZArith Lia.
From stdpp Require Import base gmap sets list strings.
From S2P Require Import Prelude Json StdText Redis RedisStore Base64 Queue.
Open Scope Z_scope.

(** A whitespace-only (or empty) payload. *)
Definition isBlank (rawJson : string) : bool := forallb is_space (chars rawJson).

Record KeyedPayload : Type := mkKeyed { kp_key : string; kp_rawJson : string }.

(** What the connection does with one pipelined request: every reply arrives, or
    it is cut after the server executed some of the commands. *)
Inductive request_event : Type :=
| Replied (now : Z)
| CutAfter (now : Z) (executed : nat).

Inductive outcome : Type :=
| Pushed (total : nat)
| Raised (e : exn)
| Stopped.

Section Loader.
Context {server : Type} {R : RedisServer server}.

(** One awaited request of [size] commands, [op n] its first [n] ones; with no
    event left the context has run dry. *)
Definition send (op : nat -> operation (server := server) unit) (size : nat)
    (events : list request_event) (s : server)
    : option (result unit) * list request_event * server :=
  match events with
  | [] => (None, [], s)
  | Replied now :: events => let '(r, s) := op size now s in (Some r, events, s)
  | CutAfter now executed :: events =>
      (Some (Throw RuntimeError), events, (op (Nat.min executed size) now s).2)
  end.

(** The keys and the encoded payloads of a chunk; one blank payload or empty key
    rejects it before anything is sent. *)
Fixpoint encode_chunk (chunk : list KeyedPayload) : result (list (string * string)) :=
  match chunk with
  | [] => Ok []
  | payload :: chunk =>
      if String.eqb (kp_key payload) "" || isBlank (kp_rawJson payload) then Throw InvalidArgument
      else
        keyedValues <~ encode_chunk chunk ;
        Ok ((kp_key payload, b64encode (kp_rawJson payload)) :: keyedValues)
  end.

(** The chunks are what [source.next()] returns, up to the first empty one. *)
Fixpoint pushKeyedStream (listKey : string) (chunks : list (list KeyedPayload)) (ttl : Z)
    (total : nat) (events : list request_event) (s : server) : outcome * server :=
  match chunks with
  | [] | [] :: _ => (Pushed total, s)
  | chunk :: chunks =>
      match encode_chunk chunk with
      | Throw e => (Raised e, s)
      | Ok keyedValues =>
          let keyNames := map kp_key chunk in
          match send (fun n => setMultipleWithTTL (take n keyedValues) ttl) (length keyedValues) events s with
          | (None, _, s) => (Stopped, s)
          | (Some (Throw e), _, s) => (Raised e, s)
          | (Some (Ok _), events, s) =>
              match send (fun n => listPushFrontAll listKey (take n keyNames)) (length keyNames) events s with
              | (None, _, s) => (Stopped, s)
              | (Some (Throw e), _, s) => (Raised e, s)
              | (Some (Ok _), events, s) =>
                  pushKeyedStream listKey chunks ttl (total + length chunk) events s
              end
          end
      end
  end.

(** A connection error is a [boost::system::system_error]; the only other
    exception is the rejected payload. *)
Definition stream_code (o : outcome) : Z :=
  match o with
  | Pushed _ => 0
  | Raised RuntimeError => 3
  | Raised _ => 1
  | Stopped => 3
  end.

Definition loadKeyedPayloadStream (listKey : string) (chunks : list (list KeyedPayload))
    (ttlSeconds : Z) (events : list request_event) (s : server) : Z * server :=
  let '(o, s) := pushKeyedStream listKey chunks (1000 * ttlSeconds) 0 events s in
  (stream_code o, s).

Definition loadPayload (queueKey rawJson : string) (events : list request_event) (s : server)
    : Z * server :=
  if isBlank rawJson then (1, s)
  else
    match send (fun n => match n with O => op_return tt
                         | _ => listPushFront queueKey (b64encode rawJson) end) 1 events s with
    | (Some (Ok _), _, s) => (0, s)
    | (_, _, s) => (3, s)
    end.

(** * What is published *)

Context {L : RedisLaws server}.

Lemma execIgnore_cons req reqs now (s : server) :
  execIgnore (req :: reqs) now s =
  let '(r, s1) := exec now req s in
  let '(rest, s2) := execIgnore reqs now s1 in (_ <~ generic_reply r ; rest, s2).
Proof. reflexivity. Qed.

(** A pipeline of pushes reverses the names onto the list. *)
Lemma push_all_held listKey names l now (s : server) :
  held now s listKey l ->
  exists s', listPushFrontAll listKey names now s = (Ok tt, s') /\
             held now s' listKey (rev names ++ l) /\ others now listKey s s'.
Proof.
  unfold listPushFrontAll. revert l s. induction names as [|n names IH]; intros l s Hl.
  - exists s. split; [done|]. split; [done|]. now intros t k _ _.
  - cbn [map]. rewrite execIgnore_cons. pose proof (lpush_law now listKey n s) as H.
    destruct (exec now _ s) as [r s1]. rewrite (Hl now) in H by lia.
    assert ((exists z, r = RInt z) /\ rewritten now listKey (VList (n :: l)) s s1) as [[z ->] Hw].
    { destruct l as [|x l]; destruct H as [-> H]; eauto. }
    assert (held now s1 listKey (n :: l)) as Hl1.
    { intros t Ht. rewrite Hw by done. rewrite decide_True by done. rewrite !Hl by lia. now destruct l. }
    destruct (IH (n :: l) s1 Hl1) as (s' & E & Hl' & Ho). rewrite E.
    rewrite generic_reply_ok by discriminate. exists s'. split; [done|]. split.
    + cbn [rev]. now rewrite <- app_assoc.
    + intros t k Ht Hk. rewrite Ho by done. rewrite Hw by done. now case_decide.
Qed.

(** A pipeline of stores: each key holds its value until the expiry, every other
    key is left alone. *)
Lemma set_all_spec pairs ttl now (s : server) :
  0 < ttl < 2 ^ 63 -> NoDup pairs.*1 ->
  exists s', setMultipleWithTTL pairs ttl now s = (Ok tt, s') /\
    (forall k v t, (k, v) ∈ pairs -> now <= t < now + 1000 * ttl -> string_at s' t k = Some v) /\
    (forall t k, now <= t -> k ∉ pairs.*1 -> lookup_at s' t k = lookup_at s t k).
Proof.
  intros Httl Hnd.
  assert (setMultipleWithTTL pairs ttl now s
          = execIgnore (map (fun '(k, v) => ["SET"; k; v; "PX"; to_string ttl]) pairs) now s) as -> by
    (now destruct pairs).
  revert s Hnd. induction pairs as [|[k0 v0] pairs IH]; intros s Hnd.
  - exists s. split; [done|]. split; [intros k v t Hin; now apply not_elem_of_nil in Hin|done].
  - cbn [map]. rewrite execIgnore_cons.
    pose proof (set_law now k0 v0 (Some ttl) Always s) as H. cbn [px_args when_args app] in H.
    destruct (exec now _ s) as [r s1]. destruct H as [-> Hst]; [now intros ? [= <-]|].
    rewrite generic_reply_ok by discriminate. cbn [fmap list_fmap fst] in Hnd.
    apply NoDup_cons in Hnd as [Hni Hnd]. destruct (IH s1 Hnd) as (s' & E & Hin & Hout). rewrite E.
    exists s'. split; [done|]. split.
    + intros k v t Hkv Ht. apply elem_of_cons in Hkv as [[= -> ->]|Hkv]; [|now apply Hin].
      unfold string_at. rewrite Hout by (done || lia). rewrite Hst by lia. rewrite decide_True by done.
      simpl. now rewrite (proj2 (Z.ltb_lt _ _)) by lia.
    + intros t k Ht Hk. cbn [fmap list_fmap fst] in Hk. apply not_elem_of_cons in Hk as [Hk0 Hk].
      rewrite Hout by done. rewrite Hst by done. now rewrite decide_False by done.
Qed.


(** Requests happen in order of time. *)
Definition event_time (e : request_event) : Z :=
  match e with Replied now | CutAfter now _ => now end.
Fixpoint on_time (now : Z) (events : list request_event) : Prop :=
  match events with
  | [] => True
  | e :: events => now <= event_time e /\ on_time (event_time e) events
  end.

Fixpoint end_time (now : Z) (events : list request_event) : Z :=
  match events with [] => now | e :: events => end_time (event_time e) events end.

Lemma end_time_le now events : on_time now events -> now <= end_time now events.
Proof. revert now. induction events as [|e events IH]; intros now; cbn; [lia|]. intros [? ?%IH]. lia. Qed.

(** A request either never left, or the server executed its first [n] commands
    at one instant; it succeeds only if that is all of them. *)
Lemma send_cases op size events s o events' s' t0 :
  on_time t0 events -> send op size events s = (o, events', s') ->
  (o = None /\ s' = s) \/
  exists now n, t0 <= now /\ on_time now events' /\ end_time now events' = end_time t0 events /\
    (n <= size)%nat /\ s' = (op n now s).2 /\
    ((exists e, o = Some (Throw e)) \/ (n = size /\ o = Some (op size now s).1)).
Proof.
  destruct events as [|[now|now k] events]; cbn [send on_time event_time].
  - intros _ [= <- <- <-]. now left.
  - intros [Ht Ho]. destruct (op size now s) as [r s1] eqn:E. intros [= <- <- <-]. right.
    exists now, size. rewrite E. split_and!; auto.
  - intros [Ht Ho] [= <- <- <-]. right. exists now, (Nat.min k size). split_and!; eauto. lia.
Qed.

Definition encoded (p : KeyedPayload) : string * string := (kp_key p, b64encode (kp_rawJson p)).

Lemma encode_chunk_ok chunk keyedValues :
  encode_chunk chunk = Ok keyedValues -> keyedValues = map encoded chunk.
Proof.
  revert keyedValues. induction chunk as [|p chunk IH]; intros kv; cbn [encode_chunk].
  - now intros [= <-].
  - destruct (_ || _); [discriminate|]. destruct (encode_chunk chunk) as [kv'|]; [|discriminate].
    intros [= <-]. now rewrite (IH kv' eq_refl).
Qed.

Lemma encoded_keys ps : (map encoded ps).*1 = map kp_key ps.
Proof. induction ps as [|p ps IH]; [done|]. cbn. now rewrite IH. Qed.

(** The names on the list so far, each with its payload until the deadline. *)
Record published (listKey : string) (old : list string) (deadline now : Z)
    (names : list string) (stored : list KeyedPayload) (s : server) : Prop := {
  published_list : held now s listKey (rev names ++ old);
  published_payloads : forall p, p ∈ stored -> forall t, now <= t < deadline ->
    string_at s t (kp_key p) = Some (b64encode (kp_rawJson p)) }.

Section Stream.
Variables (listKey : string) (old : list string) (ttl deadline : Z).
Hypothesis Httl : 0 < ttl < 2 ^ 63.

Lemma published_later now now' names ps s :
  now <= now' -> published listKey old deadline now names ps s ->
  published listKey old deadline now' names ps s.
Proof.
  intros Hle [Hl Hp]. split; [now apply (held_later now)|].
  intros p Hin t Ht. apply Hp; [done|lia].
Qed.

(** Storing some payloads of a chunk. *)
Lemma store_stage now now' names ps chunk n s :
  now <= now' -> deadline <= now' + 1000 * ttl ->
  NoDup (map kp_key (ps ++ chunk)) -> listKey ∉ map kp_key chunk ->
  published listKey old deadline now names ps s ->
  (setMultipleWithTTL (take n (map encoded chunk)) ttl now' s).1 = Ok tt /\
  published listKey old deadline now' names (ps ++ take n chunk)
    (setMultipleWithTTL (take n (map encoded chunk)) ttl now' s).2.
Proof.
  intros Hle Hdl Hnd Hni Hpub. apply (published_later _ now') in Hpub as [Hl Hp]; [|done].
  rewrite firstn_map. set (some := take n chunk).
  assert (forall x, x ∈ map kp_key some -> x ∈ map kp_key chunk) as Hsub.
  { intros x Hx. apply list_elem_of_fmap in Hx as (p & -> & Hx). apply list_elem_of_fmap_2.
    unfold some in Hx. rewrite <- (take_drop n chunk). apply elem_of_app. now left. }
  rewrite map_app in Hnd. apply NoDup_app in Hnd as (_ & Hdisj & Hndc).
  assert (NoDup (map encoded some).*1) as Hnds.
  { rewrite encoded_keys. rewrite <- (take_drop n chunk), map_app in Hndc.
    now apply NoDup_app in Hndc as [Hndc _]. }
  destruct (set_all_spec (map encoded some) ttl now' s Httl Hnds) as (s' & E & Hin & Hout).
  rewrite E. split; [done|]. rewrite encoded_keys in Hout. cbn [snd]. split.
  - intros t Ht. rewrite Hout; [now apply Hl|done|]. intros Hx. now apply Hni, Hsub.
  - intros p Hpin t Ht. apply elem_of_app in Hpin as [Hpin|Hpin].
    + unfold string_at. rewrite Hout; [now apply Hp|lia|]. intros Hx.
      apply (Hdisj (kp_key p)); [now apply list_elem_of_fmap_2|now apply Hsub].
    + apply (Hin (kp_key p)); [|lia]. now apply (list_elem_of_fmap_2 encoded).
Qed.

(** Pushing some names of a chunk. *)
Lemma push_stage now now' names ps chunk n s :
  now <= now' -> listKey ∉ map kp_key ps ->
  published listKey old deadline now names ps s ->
  (listPushFrontAll listKey (take n (map kp_key chunk)) now' s).1 = Ok tt /\
  published listKey old deadline now' (names ++ take n (map kp_key chunk)) ps
    (listPushFrontAll listKey (take n (map kp_key chunk)) now' s).2.
Proof.
  intros Hle Hni Hpub. apply (published_later _ now') in Hpub as [Hl Hp]; [|done].
  destruct (push_all_held listKey (take n (map kp_key chunk)) _ now' s Hl) as (s' & E & Hl' & Ho).
  rewrite E. split; [done|]. cbn [snd]. split; [now rewrite rev_app_distr, <- app_assoc|].
  intros p Hin t Ht. unfold string_at. rewrite Ho; [now apply Hp|lia|].
  intros <-. now apply Hni, list_elem_of_fmap_2.
Qed.



(** The payloads of a stream: the chunks up to the first empty one. *)
Fixpoint produced (chunks : list (list KeyedPayload)) : list KeyedPayload :=
  match chunks with
  | [] | [] :: _ => []
  | chunk :: chunks => chunk ++ produced chunks
  end.

Definition stream_state (all : list KeyedPayload) (now ends : Z) (names : list string) (s : server) : Prop :=
  exists now' stored, now <= now' <= ends /\ published listKey old deadline now' names stored s /\
    names `prefix_of` map kp_key all /\
    (forall p, p ∈ all -> kp_key p ∈ names -> p ∈ stored).

Lemma stream_at all now ends now' names stored s ps rest :
  now <= now' <= ends -> published listKey old deadline now' names stored s ->
  NoDup (map kp_key all) -> all = ps ++ rest -> names = map kp_key ps -> (forall p, p ∈ ps -> p ∈ stored) ->
  stream_state all now ends names s.
Proof.
  intros Hle Hpub Hnd -> -> Hps. exists now', stored. split; [done|]. split; [done|]. split.
  - rewrite map_app. now exists (map kp_key rest).
  - intros p Hp Hin. apply Hps. apply elem_of_app in Hp as [|Hp]; [done|]. exfalso.
    rewrite map_app in Hnd. apply NoDup_app in Hnd as (_ & Hdisj & _).
    apply (Hdisj _ Hin). now apply list_elem_of_fmap_2.
Qed.

Lemma stream_published chunks : forall total events s now ps o s',
  on_time now events -> deadline <= now + 1000 * ttl ->
  NoDup (map kp_key (ps ++ produced chunks)) -> listKey ∉ map kp_key (ps ++ produced chunks) ->
  published listKey old deadline now (map kp_key ps) ps s ->
  pushKeyedStream listKey chunks ttl total events s = (o, s') ->
  exists names, stream_state (ps ++ produced chunks) now (end_time now events) names s' /\
    ((exists n, o = Pushed n) -> names = map kp_key (ps ++ produced chunks)).
Proof.
  induction chunks as [|[|p0 chunk0] chunks IH]; intros total events s now ps o s' Ht Hdl Hnd Hni Hpub;
    try (cbn [produced pushKeyedStream] in *; intros [= <- <-]; exists (map kp_key ps);
         rewrite app_nil_r in *; split; [|done];
         apply (stream_at ps now _ now _ ps s ps []); try done; rewrite ?app_nil_r; auto using end_time_le with lia).
  set (chunk := p0 :: chunk0) in *.
  assert (pushKeyedStream listKey (chunk :: chunks) ttl total events s
    = match encode_chunk chunk with
      | Throw e => (Raised e, s)
      | Ok kv =>
          match send (fun n => setMultipleWithTTL (take n kv) ttl) (length kv) events s with
          | (None, _, s) => (Stopped, s)
          | (Some (Throw e), _, s) => (Raised e, s)
          | (Some (Ok _), events, s) =>
              match send (fun n => listPushFrontAll listKey (take n (map kp_key chunk)))
                      (length (map kp_key chunk)) events s with
              | (None, _, s) => (Stopped, s)
              | (Some (Throw e), _, s) => (Raised e, s)
              | (Some (Ok _), events, s) =>
                  pushKeyedStream listKey chunks ttl (total + length chunk) events s
              end
          end
      end) as -> by reflexivity.
  change (produced (chunk :: chunks)) with (chunk ++ produced chunks) in *.
  assert (NoDup (map kp_key (ps ++ chunk)) /\ listKey ∉ map kp_key chunk /\ listKey ∉ map kp_key ps)
    as (Hnd1 & Hnic & Hnip).
  { rewrite app_assoc, map_app in Hnd. apply NoDup_app in Hnd as [Hnd _]. split; [done|].
    rewrite !map_app in Hni. rewrite !elem_of_app in Hni. tauto. }
  destruct (encode_chunk chunk) as [kv|e] eqn:Ek.
  2:{ intros [= <- <-]. exists (map kp_key ps). split; [|now intros []].
      eapply (stream_at _ now _ now _ ps s ps); auto. pose proof (end_time_le now events Ht). lia. }
  apply encode_chunk_ok in Ek as ->.
  destruct (send _ _ events s) as [[o1 ev1] s1] eqn:E1.
  destruct (send_cases _ _ _ _ _ _ _ now Ht E1) as [[-> ->]|(t1 & n1 & Ht1 & Hev1 & Hend1 & _ & -> & Hcase1)].
  { intros [= <- <-]. exists (map kp_key ps). split; [|now intros []].
    eapply (stream_at _ now _ now _ ps s ps); auto. pose proof (end_time_le now events Ht). lia. }
  pose proof (end_time_le _ _ Hev1) as He1.
  destruct (store_stage now t1 (map kp_key ps) ps chunk n1 s)
    as [Hr1 Hpub1]; [done|lia|done|done|done|].
  set (s1 := (setMultipleWithTTL (take n1 (map encoded chunk)) ttl t1 s).2) in *.
  destruct Hcase1 as [[e ->]|[-> ->]].
  { intros [= <- <-]. exists (map kp_key ps). split; [|now intros []].
    eapply (stream_at _ now _ t1 _ _ _ ps); eauto; [lia|]. intros p Hp. apply elem_of_app. now left. }
  rewrite Hr1. rewrite (take_ge chunk) in Hpub1 by now rewrite length_map.
  destruct (send _ _ ev1 s1) as [[o2 ev2] s2] eqn:E2.
  destruct (send_cases _ _ _ _ _ _ _ t1 Hev1 E2) as [[-> ->]|(t2 & n2 & Ht2 & Hev2 & Hend2 & Hn2 & -> & Hcase2)].
  { intros [= <- <-]. exists (map kp_key ps). split; [|now intros []].
    eapply (stream_at _ now _ t1 _ _ _ ps); eauto; [lia|]. intros p Hp. apply elem_of_app. now left. }
  pose proof (end_time_le _ _ Hev2) as He2.
  destruct (push_stage t1 t2 (map kp_key ps) (ps ++ chunk) chunk n2 s1)
    as [Hr2 Hpub2]; [done|rewrite map_app, elem_of_app; tauto|done|].
  destruct Hcase2 as [[e ->]|[-> ->]].
  { intros [= <- <-]. exists (map kp_key ps ++ take n2 (map kp_key chunk)). split; [|now intros []].
    eapply (stream_at _ now _ t2 _ _ _ (ps ++ take n2 chunk) (drop n2 chunk ++ produced chunks));
      [lia|exact Hpub2|done| | |].
    - rewrite <- !app_assoc. f_equal. now rewrite app_assoc, take_drop.
    - now rewrite map_app, firstn_map.
    - intros p Hp. rewrite elem_of_app in *. destruct Hp as [|Hp]; [now left|right].
      rewrite <- (take_drop n2 chunk). apply elem_of_app. now left. }
  rewrite Hr2. rewrite (take_ge (map kp_key chunk)) in Hpub2 by done. rewrite <- map_app in Hpub2.
  intros Hrest. rewrite (take_ge (map kp_key chunk)) in Hrest by done. rewrite app_assoc in Hnd, Hni.
  destruct (IH _ _ _ t2 (ps ++ chunk) o s' Hev2 ltac:(lia) Hnd Hni Hpub2 Hrest)
    as (names & (now' & stored & Hle & Hstate) & Hall).
  rewrite app_assoc. exists names. split; [|done]. exists now', stored. split; [lia|done].
Qed.

(** Every other key is left alone. *)
Lemma push_all_frame names now (s : server) t k :
  now <= t -> k <> listKey ->
  lookup_at (listPushFrontAll listKey names now s).2 t k = lookup_at s t k.
Proof.
  intros Ht Hk. unfold listPushFrontAll. revert s. induction names as [|n names IH]; intros s; [done|].
  cbn [map]. rewrite execIgnore_cons. pose proof (lpush_law now listKey n s) as H.
  destruct (exec now _ s) as [r s1].
  assert (lookup_at s1 t k = lookup_at s t k) as E.
  { destruct (lookup_at s now listKey) as [[| |]|]; destruct H as [_ H];
      rewrite H by done; try rewrite decide_False by done; done. }
  specialize (IH s1). destruct (execIgnore _ now s1) as [rest s2]. cbn [snd] in *. congruence.
Qed.

Lemma set_all_frame pairs now (s : server) t k :
  now <= t -> k ∉ pairs.*1 ->
  lookup_at (setMultipleWithTTL pairs ttl now s).2 t k = lookup_at s t k.
Proof.
  intros Ht. assert (setMultipleWithTTL pairs ttl now s
    = execIgnore (map (fun '(k, v) => ["SET"; k; v; "PX"; to_string ttl]) pairs) now s) as -> by
    (now destruct pairs).
  revert s. induction pairs as [|[k0 v0] pairs IH]; intros s Hk; [done|].
  cbn [map]. rewrite execIgnore_cons. pose proof (set_law now k0 v0 (Some ttl) Always s) as H.
  cbn [px_args when_args app] in H. destruct (exec now _ s) as [r s1].
  destruct H as [_ H]; [now intros ? [= <-]|].
  cbn [fmap list_fmap fst] in Hk. apply not_elem_of_cons in Hk as [Hk0 Hk]. specialize (IH s1 Hk).
  assert (lookup_at s1 t k = lookup_at s t k) as E by (rewrite H by done; now rewrite decide_False).
  destruct (execIgnore _ now s1) as [rest s2]. cbn [snd] in *. congruence.
Qed.

Lemma send_frame op size events s now (o : option (result unit)) events' s' t k :
  on_time now events -> end_time now events <= t ->
  (forall n now1, now1 <= t -> lookup_at (op n now1 s).2 t k = lookup_at s t k) ->
  send op size events s = (o, events', s') ->
  (exists now1, on_time now1 events' /\ end_time now1 events' <= t) /\ lookup_at s' t k = lookup_at s t k.
Proof.
  intros Hot Hend Hop. destruct events as [|[now1|now1 n] events]; cbn [send on_time end_time event_time] in *.
  - intros [= <- <- <-]. split; [|done]. now exists now.
  - destruct Hot as [_ Hot]. pose proof (end_time_le _ _ Hot). specialize (Hop size now1 ltac:(lia)).
    destruct (op size now1 s) as [r s1]. intros [= <- <- <-]. split; [now exists now1|exact Hop].
  - destruct Hot as [_ Hot]. pose proof (end_time_le _ _ Hot). intros [= <- <- <-].
    split; [now exists now1|]. apply Hop. lia.
Qed.

Lemma stream_frame chunks t k : forall total events s now o s',
  on_time now events -> end_time now events <= t ->
  k <> listKey -> k ∉ map kp_key (produced chunks) ->
  pushKeyedStream listKey chunks ttl total events s = (o, s') ->
  lookup_at s' t k = lookup_at s t k.
Proof.
  induction chunks as [|[|p0 chunk0] chunks IH]; intros total events s now o s' Hot Hend Hk Hni;
    [now intros [= _ <-]..|].
  cbn [pushKeyedStream]. set (chunk := p0 :: chunk0) in *.
  change (produced (chunk :: chunks)) with (chunk ++ produced chunks) in Hni.
  rewrite map_app, not_elem_of_app in Hni. destruct Hni as [Hni1 Hni2].
  destruct (encode_chunk chunk) as [kv|e] eqn:Ek; [|now intros [= _ <-]].
  apply encode_chunk_ok in Ek as ->.
  destruct (send _ _ events s) as [[o1 ev1] s1] eqn:E1.
  destruct (fun Hop => send_frame _ _ _ _ now _ _ _ t k Hot Hend Hop E1)
    as ((now1 & Hot1 & Hend1) & Hs1).
  { intros n now1 Hle. apply set_all_frame; [done|]. rewrite firstn_map, encoded_keys. intros Hin.
    apply Hni1. apply list_elem_of_fmap in Hin as (p & -> & Hin). apply list_elem_of_fmap_2.
    rewrite <- (take_drop n chunk). apply elem_of_app. now left. }
  destruct o1 as [[]|]; [|now intros [= _ <-]..].
  destruct (send _ _ ev1 s1) as [[o2 ev2] s2] eqn:E2.
  destruct (fun Hop => send_frame _ _ _ _ now1 _ _ _ t k Hot1 Hend1 Hop E2)
    as ((now2 & Hot2 & Hend2) & Hs2).
  { intros n now2 Hle. now apply push_all_frame. }
  destruct o2 as [[]|]; [|intros [= _ <-]; congruence..].
  intros Hrest. rewrite (IH _ _ _ now2 _ _ Hot2 Hend2 Hk Hni2 Hrest). congruence.
Qed.

End Stream.

(** The loader publishes names after payloads. However the stream ends, the
    list has received, in order, a first part of the stream's key names; every
    name on it has its encoded payload stored until the safety-net expiry, and a
    stream that returns 0 has published all of them. *)
Theorem stream_publishes listKey chunks ttlSeconds events old now (s : server) code s' :
  0 < 1000 * ttlSeconds < 2 ^ 63 -> on_time now events ->
  NoDup (map kp_key (produced chunks)) -> listKey ∉ map kp_key (produced chunks) ->
  held now s listKey old ->
  loadKeyedPayloadStream listKey chunks ttlSeconds events s = (code, s') ->
  exists names now', now <= now' /\
    names `prefix_of` map kp_key (produced chunks) /\
    held now' s' listKey (rev names ++ old) /\
    (forall p t, p ∈ produced chunks -> kp_key p ∈ names -> now' <= t < now + 1000000 * ttlSeconds ->
       string_at s' t (kp_key p) = Some (b64encode (kp_rawJson p))) /\
    (code = 0 -> names = map kp_key (produced chunks)).
Proof.
  intros Httl Ht Hnd Hni Hl. unfold loadKeyedPayloadStream.
  destruct (pushKeyedStream _ _ _ _ _ _) as [o s1] eqn:E. intros [= <- <-].
  destruct (stream_published listKey old (1000 * ttlSeconds) (now + 1000000 * ttlSeconds) Httl
              chunks 0 events s now [] o s1 Ht) as (names & (now' & stored & Hle & [Hlist Hpay] & Hpre & Hin) & Hall);
    [lia|exact Hnd|exact Hni| |exact E|].
  { split; [exact Hl|]. intros p Hp. now apply not_elem_of_nil in Hp. }
  exists names, now'. split_and!; [lia|done|done| |].
  - intros p t Hp Hk Htt. now apply Hpay; [apply Hin|].
  - intros Hc. apply Hall. destruct o as [n|[]|]; simpl in Hc; [now exists n|discriminate..].
Qed.

End Loader.

(** Two chunks, the second's push cut by the connection: three payloads are
    stored, two names published. *)
Definition demo_chunks : list (list KeyedPayload) :=
  let p uuid := mkKeyed (queue_keys.strategyPayloadKey "r2" uuid) ("{" +:+ uuid +:+ "}") in
  [[p "a"; p "b"]; [p "c"]].
Definition demo_events : list request_event := [Replied 10; Replied 20; Replied 30; CutAfter 40 0].
Definition demo_load : Z * store :=
  loadKeyedPayloadStream (queue_keys.strategyKey "r2") demo_chunks queue_keys.PAYLOAD_TTL_SECONDS
    demo_events ∅.

Lemma stream_publishes_witness :
  demo_load.1 = 3 /\
  exists names now',
    names `prefix_of` map kp_key (produced demo_chunks) /\
    held now' demo_load.2 (queue_keys.strategyKey "r2") (rev names ++ []).
Proof.
  split; [vm_compute; reflexivity|].
  destruct (stream_publishes (queue_keys.strategyKey "r2") demo_chunks queue_keys.PAYLOAD_TTL_SECONDS
              demo_events [] 0 (∅ : store) demo_load.1 demo_load.2)
    as (names & now' & _ & Hpre & Hheld & _).
  - vm_compute; auto.
  - cbn. lia.
  - apply (bool_decide_unpack _). vm_compute. exact I.
  - apply (bool_decide_unpack _). vm_compute. exact I.
  - intros t _. reflexivity.
  - vm_compute; reflexivity.
  - exists names, now'. split; [exact Hpre|exact Hheld].
Defined.
