(* ===== verification/ThreadPool.v ===== *)
(** The worker pool of [shared/utilities/threadPool.hpp] as a transition system:
    every critical section of its mutex is one step, by the submitting thread or
    by one of the workers. A blocked call is a step that is not enabled: the
    condition variables only decide when a thread looks again. *)
From Stdlib Require Import ZArith Lia.
From stdpp Require Import base list.
From S2P Require Import Prelude.
Open Scope Z_scope.

Section Pool.
Context {Task Error : Type}.

(** [executing] counts the workers running a task; the gauge, when there is one,
    is the last count published to the observer. *)
Record pool : Type := mkPool {
  threads : nat;
  capacity_ : nat;
  tasks_ : list Task;
  executing : nat;
  inFlight_ : nat;
  inFlightGauge_ : option Z;
  firstError_ : option Error }.

Definition ThreadPool (threads : nat) (inFlightGauge : option Z) : pool :=
  mkPool threads (threads * 2) [] 0 0 inFlightGauge None.

Definition publishInFlight (p : pool) : pool :=
  mkPool (threads p) (capacity_ p) (tasks_ p) (executing p) (inFlight_ p)
    (match inFlightGauge_ p with Some _ => Some (Z.of_nat (inFlight_ p)) | None => None end)
    (firstError_ p).

(** [submit], once there is a slot. *)
Definition submit (task : Task) (p : pool) : option pool :=
  if (inFlight_ p <? capacity_ p)%nat then
    Some (publishInFlight (mkPool (threads p) (capacity_ p) (tasks_ p ++ [task]) (executing p)
                             (S (inFlight_ p)) (inFlightGauge_ p) (firstError_ p)))
  else None.

(** [wait] returns. *)
Definition wait_returns (p : pool) : bool := (inFlight_ p =? 0)%nat.

Definition takeError (p : pool) : option Error * pool :=
  (firstError_ p,
   mkPool (threads p) (capacity_ p) (tasks_ p) (executing p) (inFlight_ p) (inFlightGauge_ p) None).

(** [workerLoop]: a worker takes the front task, and later comes back with the
    exception it raised, if any. *)
Definition worker_start (p : pool) : option (Task * pool) :=
  match tasks_ p with
  | task :: rest =>
      if (executing p <? threads p)%nat then
        Some (task, mkPool (threads p) (capacity_ p) rest (S (executing p)) (inFlight_ p)
                      (inFlightGauge_ p) (firstError_ p))
      else None
  | [] => None
  end.

Definition worker_finish (err : option Error) (p : pool) : option pool :=
  match executing p with
  | S executing =>
      Some (publishInFlight
              (mkPool (threads p) (capacity_ p) (tasks_ p) executing (inFlight_ p - 1)
                 (inFlightGauge_ p)
                 (match err, firstError_ p with Some e, None => Some e | _, first => first end)))
  | O => None
  end.

(** ** Runs *)

Inductive label : Type :=
| Submit (task : Task)
| Start (task : Task)
| Finish (err : option Error)
| TakeError (err : option Error).

Inductive pool_step : pool -> label -> pool -> Prop :=
| step_submit p task p' : submit task p = Some p' -> pool_step p (Submit task) p'
| step_start p task p' : worker_start p = Some (task, p') -> pool_step p (Start task) p'
| step_finish p err p' : worker_finish err p = Some p' -> pool_step p (Finish err) p'
| step_take p err p' : takeError p = (err, p') -> pool_step p (TakeError err) p'.

Inductive pool_run (p0 : pool) : list label -> pool -> Prop :=
| pool_start : pool_run p0 [] p0
| pool_next trace p l p' : pool_run p0 trace p -> pool_step p l p' -> pool_run p0 (trace ++ [l]) p'.

Definition submitted (l : label) : option Task := match l with Submit t => Some t | _ => None end.
Definition started (l : label) : option Task := match l with Start t => Some t | _ => None end.
Definition finished (l : label) : option unit := match l with Finish _ => Some tt | _ => None end.

(** The error slot after a trace: the first error since it was last taken. *)
Fixpoint pending_error (slot : option Error) (trace : list label) : option Error :=
  match trace with
  | [] => slot
  | Finish (Some e) :: trace => pending_error (match slot with None => Some e | Some _ => slot end) trace
  | TakeError _ :: trace => pending_error None trace
  | _ :: trace => pending_error slot trace
  end.

Lemma pending_error_snoc slot trace l :
  pending_error slot (trace ++ [l]) = pending_error (pending_error slot trace) [l].
Proof.
  revert slot. induction trace as [|x trace IH]; intros slot; [done|].
  destruct x as [| |[]|]; cbn [pending_error app]; apply IH.
Qed.

(** What holds of the pool after a run. *)
Record pool_ok (n : nat) (observed : bool) (trace : list label) (p : pool) : Prop := {
  pool_size : threads p = n /\ capacity_ p = (n * 2)%nat;
  pool_count : inFlight_ p = (length (tasks_ p) + executing p)%nat;
  pool_bound : (inFlight_ p <= n * 2)%nat /\ (executing p <= n)%nat;
  pool_gauge : inFlightGauge_ p = if observed then Some (Z.of_nat (inFlight_ p)) else None;
  pool_fifo : omap submitted trace = omap started trace ++ tasks_ p;
  pool_running : length (omap started trace) = (length (omap finished trace) + executing p)%nat;
  pool_error : firstError_ p = pending_error None trace }.

Lemma omap_snoc {A B} (f : A -> option B) (l : list A) x :
  omap f (l ++ [x]) = omap f l ++ match f x with Some y => [y] | None => [] end.
Proof. rewrite omap_app. cbn. now destruct (f x). Qed.

Lemma pool_step_ok n observed trace p l p' :
  pool_ok n observed trace p -> pool_step p l p' -> pool_ok n observed (trace ++ [l]) p'.
Proof.
  intros [[Ht Hc] Hn [Hb1 Hb2] Hg Hf Hr He] Hstep.
  destruct Hstep as [p task p' H|p task p' H|p err p' H|p err p' H].
  - unfold submit in H. destruct (Nat.ltb_spec (inFlight_ p) (capacity_ p)); [|discriminate].
    injection H as <-. split; cbn; rewrite ?omap_snoc, ?pending_error_snoc, ?length_app; cbn;
      rewrite ?app_nil_r; auto; try lia.
    + rewrite Hg. now destruct observed.
    + now rewrite Hf, app_assoc.
  - unfold worker_start in H. destruct (tasks_ p) as [|t rest] eqn:Et; [discriminate|].
    destruct (Nat.ltb_spec (executing p) (threads p)); [|discriminate]. injection H as -> <-.
    cbn in Hn.
    split; cbn; rewrite ?omap_snoc, ?pending_error_snoc, ?length_app; cbn; rewrite ?app_nil_r; auto; try lia.
    now rewrite Hf, <- app_assoc.
  - unfold worker_finish in H. destruct (executing p) as [|k] eqn:Ek; [discriminate|]. injection H as <-.
    split; cbn; rewrite ?omap_snoc, ?pending_error_snoc, ?length_app; cbn; rewrite ?app_nil_r; auto; try lia.
    + rewrite Hg. now destruct observed.
    + rewrite He. destruct err; [|done]. now destruct (pending_error None trace).
  - injection H as <- <-.
    split; cbn; rewrite ?omap_snoc, ?pending_error_snoc, ?length_app; cbn; rewrite ?app_nil_r; auto; lia.
Qed.

(** The pool keeps its promises. After any interleaving of the submitter and
    the workers, at most twice as many tasks as workers are in flight, the
    count and the observer's gauge are the queued tasks plus the running ones,
    tasks are started in the order they were submitted, each once, and the
    error slot holds the first error since it was last taken. *)
Theorem pool_promises n (gauge : bool) trace p :
  pool_run (ThreadPool n (if gauge then Some 0 else None)) trace p -> pool_ok n gauge trace p.
Proof.
  remember (ThreadPool n (if gauge then Some 0 else None)) as p0 eqn:E0.
  induction 1 as [|trace p l p' _ IH Hstep]; [|now apply (pool_step_ok _ _ _ p)].
  subst p0. split; cbn; auto; lia.
Qed.

(** [wait] ends: with a worker or more, every worker step makes progress, and
    none is enabled only once nothing is in flight. *)
Definition work_left (p : pool) : nat := (2 * length (tasks_ p) + executing p)%nat.

Lemma start_progress p task p' : worker_start p = Some (task, p') -> (work_left p' < work_left p)%nat.
Proof.
  unfold worker_start, work_left. destruct (tasks_ p) as [|t rest] eqn:E; [discriminate|].
  destruct (_ <? _)%nat; [|discriminate]. intros [= _ <-]. cbn. lia.
Qed.
Lemma finish_progress p err p' : worker_finish err p = Some p' -> (work_left p' < work_left p)%nat.
Proof.
  unfold worker_finish, work_left. destruct (executing p) eqn:E; [discriminate|]. intros [= <-]. cbn. lia.
Qed.
Lemma pool_never_stuck n gauge trace p :
  (0 < n)%nat -> pool_ok n gauge trace p -> wait_returns p = false ->
  (exists task p', worker_start p = Some (task, p')) \/ forall err, exists p', worker_finish err p = Some p'.
Proof.
  intros Hn [[Ht _] Hc _ _ _ _ _] Hw. unfold wait_returns in Hw. apply Nat.eqb_neq in Hw.
  unfold worker_start, worker_finish. destruct (executing p) as [|k]; [|right; eauto].
  left. destruct (tasks_ p) as [|t rest]; [simpl in Hc; lia|]. rewrite Ht.
  rewrite (proj2 (Nat.ltb_lt 0 n)) by lia. eauto.
Qed.

(** A schedule of steps as a computation. *)
Inductive action : Type := DoSubmit (task : Task) | DoStart | DoFinish (err : option Error) | DoTake.

Definition act (a : action) (p : pool) : option (label * pool) :=
  match a with
  | DoSubmit task => match submit task p with Some p' => Some (Submit task, p') | None => None end
  | DoStart => match worker_start p with Some (task, p') => Some (Start task, p') | None => None end
  | DoFinish err => match worker_finish err p with Some p' => Some (Finish err, p') | None => None end
  | DoTake => let '(err, p') := takeError p in Some (TakeError err, p')
  end.

Fixpoint replay (acts : list action) (p : pool) : option (list label * pool) :=
  match acts with
  | [] => Some ([], p)
  | a :: acts =>
      match act a p with
      | None => None
      | Some (l, p) => match replay acts p with Some (ls, p) => Some (l :: ls, p) | None => None end
      end
  end.

Lemma act_step a p l p' : act a p = Some (l, p') -> pool_step p l p'.
Proof.
  destruct a as [task| |err|]; cbn [act].
  - destruct (submit task p) eqn:E; [|discriminate]. intros [= <- <-]. now constructor.
  - destruct (worker_start p) as [[task p1]|] eqn:E; [|discriminate]. intros [= <- <-]. now constructor.
  - destruct (worker_finish err p) eqn:E; [|discriminate]. intros [= <- <-]. now constructor.
  - intros [= <- <-]. now constructor.
Qed.

Lemma replay_run p0 acts : forall trace p ls p',
  pool_run p0 trace p -> replay acts p = Some (ls, p') -> pool_run p0 (trace ++ ls) p'.
Proof.
  induction acts as [|a acts IH]; intros trace p ls p' Hrun; cbn [replay].
  - intros [= <- <-]. now rewrite app_nil_r.
  - destruct (act a p) as [[l p1]|] eqn:Ea; [|discriminate].
    destruct (replay acts p1) as [[ls1 p2]|] eqn:Er; [|discriminate]. intros [= <- <-].
    rewrite (app_assoc trace [l] ls1 : trace ++ l :: ls1 = _).
    apply (IH _ p1); [|done]. eapply pool_next; [exact Hrun|]. now apply (act_step a).
Qed.

End Pool.

(** Two workers, four slots: five submissions, the last one once a task is done. *)
Definition demo_actions : list (action (Task := nat) (Error := bool)) :=
  [DoSubmit 1; DoSubmit 2; DoStart; DoSubmit 3; DoStart; DoSubmit 4; DoFinish (Some true); DoSubmit 5;
   DoFinish (Some false); DoStart; DoTake]%nat.
Definition demo_trace : list (label (Task := nat) (Error := bool)) :=
  [Submit 1; Submit 2; Start 1; Submit 3; Start 2; Submit 4; Finish (Some true); Submit 5;
   Finish (Some false); Start 3; TakeError (Some true)]%nat.
Definition demo_end : pool (Task := nat) (Error := bool) := mkPool 2 4 [4; 5]%nat 1 3 (Some 3) None.

Lemma pool_promises_witness :
  pool_run (ThreadPool 2 (Some 0)) demo_trace demo_end /\ pool_ok 2 true demo_trace demo_end.
Proof.
  assert (pool_run (ThreadPool 2 (Some 0)) demo_trace demo_end) as H.
  { apply (replay_run _ demo_actions [] (ThreadPool 2 (Some 0))); [constructor|reflexivity]. }
  split; [exact H|exact (pool_promises 2 true _ _ H)].
Defined.
