(* ===== verification/Env.v ===== *)
(** The environment: [shared/utilities/env.cpp]. The process environment is a
    parameter, the list of its NAME=value entries as [environ] holds them. *)
From Stdlib Require Import ZArith Lia.
From stdpp Require Import base list sorting strings.
From S2P Require Import Prelude Json StdText.
Open Scope Z_scope.

(** [getenv] and the entries of [environ]. *)
Class Environment : Type := {
  getenv : string -> option string;
  environ : list string }.

(** An unset or empty variable gives the fallback. *)
Definition getOr {E : Environment} (name fallback : string) : string :=
  match getenv name with
  | Some val => if String.eqb val "" then fallback else val
  | None => fallback
  end.

Definition markers : list string :=
  ["PASSWORD"; "PASSWD"; "SECRET"; "TOKEN"; "CREDENTIAL"; "KEY"; "AUTH"].

(** [std::toupper] in the C locale. *)
Definition to_upper (c : Ascii.ascii) : Ascii.ascii :=
  let b := byte_of c in if (97 <=? b) && (b <=? 122) then char_of (b - 32) else c.

(** [find(m) != npos]. *)
Fixpoint starts_with (m s : string) : bool :=
  match m, s with
  | EmptyString, _ => true
  | String.String a m, String.String b s => Ascii.eqb a b && starts_with m s
  | _, _ => false
  end.
Fixpoint has_substring (m s : string) : bool :=
  starts_with m s ||
  match s with EmptyString => false | String.String _ s => has_substring m s end.

Definition looksSensitive (name : string) : bool :=
  let upper := text (map to_upper (chars name)) in
  existsb (fun m => has_substring m upper) markers.

Definition stars : string := "********".
Definition maskValue (value : string) : string :=
  if (String.length value <=? 6)%nat then stars else String.append (String.substring 0 3 value) stars.

(** An entry split at its first equals sign. *)
Fixpoint split_entry (entry : string) : string * string :=
  match entry with
  | EmptyString => (EmptyString, EmptyString)
  | String.String c rest =>
      if byte_of c =? 61 then (EmptyString, rest)
      else let '(name, value) := split_entry rest in (String.String c name, value)
  end.

Definition entry_le (a b : string * string) : Prop := String.leb a.1 b.1 = true.
#[global] Instance entry_le_dec a b : Decision (entry_le a b).
Proof. unfold entry_le. apply _. Defined.

Definition shown_value (entry : string * string) : string :=
  if looksSensitive entry.1 then maskValue entry.2 else entry.2.

(** The lines of the environment dump; [std::ranges::sort] leaves the order of
    equal names open, and the environment has none. *)
Definition env_lines {E : Environment} : list string :=
  map (fun entry => String.append "  " (String.append entry.1 (String.append "=" (shown_value entry))))
    (merge_sort entry_le (map split_entry environ)).

(** * A masked value gives little away *)

Lemma length_substring_prefix n s :
  (n <= String.length s)%nat -> String.length (String.substring 0 n s) = n.
Proof.
  revert s. induction n as [|n IH]; intros [|c s] H; simpl in *; try lia.
  rewrite IH; lia.
Qed.

(** At most three characters, and less than half of the value, survive the
    mask. *)
Lemma mask_hides value :
  exists shown, maskValue value = String.append shown stars /\
    (String.length shown <= 3)%nat /\ (2 * String.length shown <= String.length value)%nat.
Proof.
  unfold maskValue. destruct (Nat.leb_spec (String.length value) 6) as [H|H].
  - exists EmptyString. simpl. split; [done|lia].
  - exists (String.substring 0 3 value). rewrite length_substring_prefix by lia. split; [done|lia].
Qed.

(** Whatever the case of a name, a marker in it hides the value. *)
Lemma sensitive_shown_masked name value :
  looksSensitive name = true -> shown_value (name, value) = maskValue value.
Proof. intros H. unfold shown_value. simpl. now rewrite H. Qed.
