(* ===== verification/IsoTime.v ===== *)
(** The timestamps and the weekly labels the reports carry:
    [elastic::nowIsoUtc] ([run/reporting/elasticPublisher.cpp]),
    [TradeDocument::isoUtcMillis] ([run/reporting/tradeDocument.cpp]) and
    [outcome_index] ([run/reporting/outcomeIndices.cpp/.hpp]). The C library's
    [gmtime_r] and [strftime] are functions of the calendar in [Chrono]. *)
From Stdlib Require Import ZArith Lia.
From stdpp Require Import base list strings.
From S2P Require Import Prelude Json StdText Chrono Env.
Open Scope Z_scope.

(** * The C library's broken-down time and its formats *)

Definition day_of (secs : Z) : Z := secs / 86400.
Definition second_of_day (secs : Z) : Z := secs mod 86400.

(** A decimal number of at least [n] digits. *)
Fixpoint zero_pad (n : nat) : string :=
  match n with O => EmptyString | S n => String.append "0" (zero_pad n) end.
Definition padded (n : nat) (z : Z) : string :=
  let s := to_string z in String.append (zero_pad (n - String.length s)) s.

(** [%Y-%m-%d] and [%H:%M:%S]. *)
Definition format_date (day : Z) : string :=
  let '(y, m, d) := civil_from_days day in
  String.append (to_string y) (String.append "-" (String.append (padded 2 m) (String.append "-" (padded 2 d)))).
Definition format_time (second : Z) : string :=
  String.append (padded 2 (second / 3600))
    (String.append ":" (String.append (padded 2 (second / 60 mod 60))
       (String.append ":" (padded 2 (second mod 60))))).

(** [elastic::nowIsoUtc], at an instant. *)
Definition nowIsoUtc (secs : Z) : string :=
  String.append (format_date (day_of secs))
    (String.append "T" (String.append (format_time (second_of_day secs)) "Z")).

(** [TradeDocument::isoUtcMillis] of a time point in microseconds: the casts
    truncate, a negative remainder is folded into the seconds. *)
Definition isoUtcMillis (tp : Z) : string :=
  let secs := Z.quot tp 1000000 in
  let millis := Z.quot (tp - secs * 1000000) 1000 in
  let '(t, millis) := if millis <? 0 then (secs - 1, millis + 1000) else (secs, millis) in
  String.append (format_date (day_of t))
    (String.append "T" (String.append (format_time (second_of_day t))
       (String.append "." (String.append (padded 3 millis) "Z")))).

(** * ISO weeks *)

(** [%G] and [%V]: the year of the week's Thursday, and the number of the week
    in that year. [weekday] counts from Sunday. *)
Definition thursday_of (day : Z) : Z := day - (weekday day + 6) mod 7 + 3.
Definition iso_year (day : Z) : Z := year_of (thursday_of day).
Definition iso_week (day : Z) : Z :=
  (thursday_of day - days_from_civil (iso_year day) 1 1) / 7 + 1.

(** [outcome_index] *)
Definition kResultsBase : string := "backtesting-results".
Definition kWinnersBase : string := "backtesting-winners".
Definition kFinalBase : string := "backtesting-final".
Definition kFailuresBase : string := "backtesting-failures".
Definition kTradesIndex : string := "backtesting-trades".
Definition kExperimentsBase : string := "backtesting-experiments".
Definition kWeeklyBases : list string := [kResultsBase; kWinnersBase; kFinalBase; kFailuresBase].

Definition weeklyIndex (base batch : string) : string :=
  if String.eqb batch "" then base else String.append base (String.append "-" batch).
Definition currentAlias (base : string) : string := String.append base "-current".
Definition isoWeekLabel (utc : Z) : string :=
  let day := day_of utc in
  String.append (to_string (iso_year day)) (String.append "-" (padded 2 (iso_week day))).
Definition currentBatchLabel {E : Environment} (now : Z) : string :=
  let pinned := getOr "BACKTEST_BATCH" "" in
  if String.eqb pinned "" then isoWeekLabel now else pinned.
