(* ===== verification/Elastic.v ===== *)
(** The Elasticsearch publisher: [run/reporting/elasticPublisher.cpp/.hpp] and
    the engine exception it reports ([run/reporting/engineException.hpp]).

    libcurl and the cluster are not part of the repository: what they make of
    each request is a stream of exchanges. The sleeps between attempts move the
    clock; the dead-letter file is the list of its lines. The log lines on
    standard output and standard error are left out. *)
From Stdlib Require Import ZArith Lia.
From stdpp Require Import base list strings sorting.
From S2P Require Import Prelude Json JsonDump JsonParse JsonRoundTrip StdText Chrono Env IsoTime.
Open Scope Z_scope.

(** * One HTTP attempt *)

Inductive exchange : Type :=
| NoHandle
| TransportError (status : Z) (partial : string)
| Response (status : Z) (body : string).

Record request : Type := mkRequest { verb : string; url : string; payload : string }.

Record PutAttempt : Type := mkAttempt { code : Z; httpStatus : Z }.

(** [curl_easy_init], [curl_easy_perform] and the status check: the attempt and
    the body captured. *)
Definition classify (e : exchange) : PutAttempt * string :=
  match e with
  | NoHandle => (mkAttempt 1 0, "")
  | TransportError status partial => (mkAttempt 2 status, partial)
  | Response status body =>
      (mkAttempt (if (status <? 200) || (300 <=? status) then 3 else 0) status, body)
  end.

(** The network from here on, the instant in seconds, the identifiers minted so
    far, the exchanges made and the dead-letter file. *)
Record net : Type := mkNet {
  incoming : nat -> exchange;
  seconds : Z;
  minted : nat;
  made : list (request * exchange);
  dead_letters : list string }.

Definition attemptRequest (r : request) (w : net) : PutAttempt * string * net :=
  let e := incoming w O in
  (classify e, mkNet (fun i => incoming w (S i)) (seconds w) (minted w) (made w ++ [(r, e)]) (dead_letters w)).

Definition attemptPost (url body : string) : net -> PutAttempt * string * net :=
  attemptRequest (mkRequest "POST" url body).
Definition attemptPut (url body : string) : net -> PutAttempt * string * net :=
  attemptRequest (mkRequest "PUT" url body).

(** * The retry policy *)

Definition kMaxRetryAttempts : nat := 3.

Definition isTransientFailure (attempt : PutAttempt) : bool :=
  (code attempt =? 2) ||
  ((code attempt =? 3) && ((httpStatus attempt =? 429) || (500 <=? httpStatus attempt))).

Definition retryBackoff (attemptNumber : nat) (w : net) : net :=
  mkNet (incoming w) (seconds w + (if (attemptNumber =? 1)%nat then 1 else 3)) (minted w) (made w)
    (dead_letters w).

(** The loop from attempt [i] with [more] others after it. *)
Fixpoint attempts_from (tryOnce : net -> PutAttempt * string * net) (i more : nat) (w : net)
    : PutAttempt * string * net :=
  let '(attempt, response, w) := tryOnce w in
  match more with
  | O => (attempt, response, w)
  | S more =>
      if (code attempt =? 0) || negb (isTransientFailure attempt) then (attempt, response, w)
      else attempts_from tryOnce (S i) more (retryBackoff i w)
  end.

Definition attemptWithRetries (tryOnce : net -> PutAttempt * string * net) : net -> PutAttempt * string * net :=
  attempts_from tryOnce 1 (kMaxRetryAttempts - 1).

(** * Dead letters *)

Definition quote : string := String.String quote_char "".

Definition deadLetterLine (ts index docId body : string) : string :=
  "{" +:+ quote +:+ "ts" +:+ quote +:+ ":" +:+ quote +:+ ts +:+ quote +:+ ","
  +:+ quote +:+ "index" +:+ quote +:+ ":" +:+ quote +:+ index +:+ quote +:+ ","
  +:+ quote +:+ "docId" +:+ quote +:+ ":" +:+ quote +:+ docId +:+ quote +:+ ","
  +:+ quote +:+ "doc" +:+ quote +:+ ":" +:+ body +:+ "}".

Record BulkDoc : Type := mkDoc { id : string; body : string }.

(** The rest of the process the publisher depends on: its environment, whether a
    file can be opened for appending, and the random identifiers. *)
Class Process : Type := {
  process_env :: Environment;
  can_append : string -> bool;
  uuid : nat -> string }.

Section Publisher.
Context {P : Process}.

Definition deadLetter (index docId body : string) (w : net) : net :=
  if can_append (getOr "ELASTIC_DEADLETTER_PATH" "elastic_deadletter.ndjson") then
    mkNet (incoming w) (seconds w) (minted w) (made w)
      (dead_letters w ++ [deadLetterLine (nowIsoUtc (seconds w)) index docId body])
  else w.

Definition generateUuid (w : net) : string * net :=
  (uuid (minted w), mkNet (incoming w) (seconds w) (S (minted w)) (made w) (dead_letters w)).

Definition enabled : bool := negb (String.eqb (getOr "ELASTIC_ENABLED" "1") "0").
Definition host : string := getOr "ELASTIC_HOST" "http://localhost:9200".

(** * Bulk requests *)

Definition newline : string := String.String (char_of 10) "".

(** The action line and the document, for each. *)
Fixpoint buildBulkBody (docs : list BulkDoc) : result string :=
  match docs with
  | [] => Ok ""
  | doc :: docs =>
      action <~ dump (json_object [("index", json_object [("_id", JString (id doc))])]) ;
      rest <~ buildBulkBody docs ;
      Ok (action +:+ newline +:+ body doc +:+ newline +:+ rest)
  end.

(** [items.size()]. *)
Definition json_size (j : json) : nat :=
  match j with
  | JNull => 0
  | JArray l => length l
  | JObject m => length m
  | _ => 1
  end.
(** [items[k]] on a constant value. *)
Definition json_index (k : nat) (j : json) : result json :=
  match j with
  | JArray l => match l !! k with Some v => Ok v | None => Throw UndefinedRead end
  | _ => Throw (JsonError 305)
  end.

(** The status of the [k]-th item; zero when there is none to be found. *)
Definition item_status (items : json) (k : nat) : result Z :=
  if (k <? json_size items)%nat then
    item <~ json_index k items ;
    if is_object item then
      let action := match json_find "index" item with Some a => a | None => item end in
      if is_object action then json_value get_int "status" 0 action else Ok 0
    else Ok 0
  else Ok 0.

Definition status_ok (status : Z) : bool := (200 <=? status) && (status <? 300).
Definition status_retry (status : Z) : bool := (status =? 429) || (500 <=? status).

(** The items of a response, from the [k]-th: the documents to retry, whether
    one was dead-lettered, and the exception that cut the inspection, if any. *)
Fixpoint sort_items (index : string) (items : json) (k : nat) (pending retry : list BulkDoc)
    (anyDeadLettered : bool) (w : net) : result (list BulkDoc) * bool * net :=
  match pending with
  | [] => (Ok retry, anyDeadLettered, w)
  | doc :: pending =>
      match item_status items k with
      | Throw e => (Throw e, anyDeadLettered, w)
      | Ok status =>
          if status_ok status then sort_items index items (S k) pending retry anyDeadLettered w
          else if status_retry status
          then sort_items index items (S k) pending (retry ++ [doc]) anyDeadLettered w
          else sort_items index items (S k) pending retry true (deadLetter index (id doc) (body doc) w)
      end
  end.

(** A 2xx response: the documents to retry, none when nothing reports errors. *)
Definition inspect_response (index response : string) (pending : list BulkDoc)
    (anyDeadLettered : bool) (w : net) : result (list BulkDoc) * bool * net :=
  match (resp <~ parse response ; errors <~ json_value get_bool "errors" false resp ; Ok (resp, errors)) with
  | Throw e => (Throw e, anyDeadLettered, w)
  | Ok (resp, errors) =>
      if negb (errors : bool) then (Ok [], anyDeadLettered, w)
      else
        match json_at "items" resp with
        | Throw e => (Throw e, anyDeadLettered, w)
        | Ok items => sort_items index items 0 pending [] anyDeadLettered w
        end
  end.

Definition dead_letter_all (index : string) (docs : list BulkDoc) (w : net) : net :=
  foldl (fun w doc => deadLetter index (id doc) (body doc) w) w docs.

(** After the last attempt: every pending document is kept. *)
Definition drop_chunk (index : string) (attempt : PutAttempt) (pending : list BulkDoc) (w : net) : Z * net :=
  (if code attempt =? 0 then 3 else code attempt, dead_letter_all index pending w).

(** The loop from attempt [i] with [more] others after it. An exception of the
    inspection is caught, a conversion C++ leaves undefined is not one. *)
Fixpoint bulk_from (index url : string) (i more : nat) (pending : list BulkDoc)
    (anyDeadLettered : bool) (w : net) : result (Z * net) :=
  text <~ buildBulkBody pending ;
  let '(attempt, response, w) := attemptPost url text w in
  if code attempt =? 0 then
    match inspect_response index response pending anyDeadLettered w with
    | (Throw UndefinedRead, _, _) => Throw UndefinedRead
    | (Throw _, anyDeadLettered, w) | (Ok [], anyDeadLettered, w) =>
        Ok (if anyDeadLettered then 3 else 0, w)
    | (Ok retry, anyDeadLettered, w) =>
        match more with
        | O => Ok (drop_chunk index attempt retry w)
        | S more => bulk_from index url (S i) more retry anyDeadLettered (retryBackoff i w)
        end
    end
  else
    match more with
    | O => Ok (drop_chunk index attempt pending w)
    | S more =>
        if negb (isTransientFailure attempt) then Ok (drop_chunk index attempt pending w)
        else bulk_from index url (S i) more pending anyDeadLettered (retryBackoff i w)
    end.

Definition postBulkChunk (index url : string) (pending : list BulkDoc) (w : net) : result (Z * net) :=
  bulk_from index url 1 (kMaxRetryAttempts - 1) pending false w.

(** * Chunks *)

Definition kMaxBulkDocs : Z := 1000.
Definition kMaxBulkBytes : Z := 4 * 1024 * 1024.

Definition doc_bytes (doc : BulkDoc) : Z :=
  Z.of_nat (String.length (id doc)) + Z.of_nat (String.length (body doc)) + 32.

Definition flush_chunk (index url : string) (chunk : list BulkDoc) (worst : Z) (w : net) : result (Z * net) :=
  match chunk with
  | [] => Ok (worst, w)
  | _ =>
      '(rc, w) <~ postBulkChunk index url chunk w ;
      Ok (if rc =? 0 then worst else rc, w)
  end.

Fixpoint feed_chunks (index url : string) (docs chunk : list BulkDoc) (chunkBytes worst : Z) (w : net)
    : result (Z * net) :=
  match docs with
  | [] => flush_chunk index url chunk worst w
  | doc :: docs =>
      let chunk := chunk ++ [doc] in
      let chunkBytes := chunkBytes + doc_bytes doc in
      if (kMaxBulkDocs <=? Z.of_nat (length chunk)) || (kMaxBulkBytes <=? chunkBytes) then
        '(worst, w) <~ flush_chunk index url chunk worst w ;
        feed_chunks index url docs [] 0 worst w
      else feed_chunks index url docs chunk chunkBytes worst w
  end.

Definition bulkIndexDocuments (index : string) (docs : list BulkDoc) (w : net) : result (Z * net) :=
  match docs with
  | [] => Ok (0, w)
  | _ =>
      if negb enabled then Ok (0, w)
      else feed_chunks index (host +:+ "/" +:+ index +:+ "/_bulk") docs [] 0 0 w
  end.

(** * Single requests *)

Definition putDocument (index body docId : string) (w : net) : Z * net :=
  if negb enabled then (0, w)
  else
    let '(id, w) := if String.eqb docId "" then generateUuid w else (docId, w) in
    let '(attempt, _, w) :=
      attemptWithRetries (attemptPut (host +:+ "/" +:+ index +:+ "/_doc/" +:+ id) body) w in
    if code attempt =? 0 then (0, w)
    else (code attempt, deadLetter index id body w).

(** The return code, the body captured and the last status. *)
Definition searchIndex (index queryBody : string) (w : net) : Z * string * Z * net :=
  if negb enabled then (4, "", 0, w)
  else
    let '(attempt, response, w) :=
      attemptWithRetries (attemptPost (host +:+ "/" +:+ index +:+ "/_search") queryBody) w in
    (code attempt, response, httpStatus attempt, w).

Definition ensureIndexExists (index : string) (w : net) : Z * net :=
  if negb enabled then (0, w)
  else
    let '(attempt, response, w) :=
      attemptWithRetries (attemptPut (host +:+ "/" +:+ index) "{}") w in
    if code attempt =? 0 then (0, w)
    else if (httpStatus attempt =? 400) && has_substring "resource_already_exists_exception" response
    then (0, w)
    else (code attempt, w).

(** The two actions, their members assigned one by one. *)
Definition alias_actions (alias index : string) : json :=
  let remove := JObject (obj_set "must_exist" (JBoolean false)
                  (obj_set "alias" (JString alias) (obj_set "index" (JString "*") []))) in
  let add := JObject (obj_set "alias" (JString alias) (obj_set "index" (JString index) [])) in
  JObject [("actions", JArray [JObject [("remove", remove)]; JObject [("add", add)]])].

(** The request's body is built inside the retried function. *)
Definition repointAlias (alias index : string) (w : net) : result (Z * net) :=
  if negb enabled then Ok (0, w)
  else
    body <~ dump (alias_actions alias index) ;
    let '(attempt, _, w) := attemptWithRetries (attemptPost (host +:+ "/_aliases") body) w in
    Ok (code attempt, w).

(** The flush cadence in seconds; anything but a positive integer gives 30. *)
Definition flushIntervalFromEnv : Z :=
  match from_chars_all (getOr "ELASTIC_FLUSH_SECONDS" "30") with
  | Some value => if value <? 1 then 30 else value
  | None => 30
  end.


(** * The background queue *)

(** [DocumentBatcher::pending_], in the order of its map. *)
Definition batcher : Type := list (string * list BulkDoc).

Fixpoint enqueue (index : string) (docs : list BulkDoc) (pending_ : batcher) : batcher :=
  match pending_ with
  | [] => [(index, docs)]
  | (k, queued) :: rest =>
      if String.eqb k index then (k, queued ++ docs) :: rest
      else if String.ltb index k then (index, docs) :: (k, queued) :: rest
      else (k, queued) :: enqueue index docs rest
  end.

Fixpoint flush_batch (batch : batcher) (worst : Z) (w : net) : result (Z * net) :=
  match batch with
  | [] => Ok (worst, w)
  | (index, docs) :: batch =>
      '(rc, w) <~ bulkIndexDocuments index docs w ;
      flush_batch batch (if rc =? 0 then worst else rc) w
  end.

(** The buffer is swapped out whole; what is enqueued from then on lands in the
    fresh one. *)
Definition flush (pending_ : batcher) (w : net) : result (Z * batcher * net) :=
  '(rc, w) <~ flush_batch pending_ 0 w ; Ok (rc, [], w).

Definition enqueueDocument (index body docId : string) (pending_ : batcher) (w : net) : batcher * net :=
  if negb enabled then (pending_, w)
  else
    let '(id, w) := if String.eqb docId "" then generateUuid w else (docId, w) in
    (enqueue index [mkDoc id body] pending_, w).

Definition enqueueDocuments (index : string) (docs : list BulkDoc) (pending_ : batcher) : batcher :=
  match docs with
  | [] => pending_
  | _ => if negb enabled then pending_ else enqueue index docs pending_
  end.

Definition flushQueuedDocuments (pending_ : batcher) (w : net) : result (Z * batcher * net) :=
  if negb enabled then Ok (0, pending_, w) else flush pending_ w.

(** The engine exception and its report, which never throws. *)
Record EngineException : Type := mkException {
  ex_timestamp : string;
  ex_source : string;
  ex_message : string;
  ex_RUN_ID : string }.

Definition EngineException_to_json (e : EngineException) : json :=
  json_object [("@timestamp", JString (ex_timestamp e)); ("source", JString (ex_source e));
               ("message", JString (ex_message e)); ("RUN_ID", JString (ex_RUN_ID e))].

Definition putEngineException (e : EngineException) (pending_ : batcher) (w : net) : batcher * net :=
  match dump (EngineException_to_json e) with
  | Ok body => enqueueDocument "engine_exceptions" body "" pending_ w
  | Throw _ => (pending_, w)
  end.

(** What the engine does with the publisher's queue. *)
Inductive outbox_op : Type :=
| EnqueueOne (index body docId : string)
| EnqueueMany (index : string) (docs : list BulkDoc)
| Report (e : EngineException)
| Flush.

Definition outbox_step (op : outbox_op) (pending_ : batcher) (w : net) : result (batcher * net) :=
  match op with
  | EnqueueOne index body docId => Ok (enqueueDocument index body docId pending_ w)
  | EnqueueMany index docs => Ok (enqueueDocuments index docs pending_, w)
  | Report e => Ok (putEngineException e pending_ w)
  | Flush => '(_, pending_, w) <~ flushQueuedDocuments pending_ w ; Ok (pending_, w)
  end.

(** The documents an operation hands to the publisher. *)
Definition handed (op : outbox_op) (w : net) : list (string * BulkDoc) :=
  let named docId := if String.eqb docId "" then uuid (minted w) else docId in
  match op with
  | EnqueueOne index body docId => [(index, mkDoc (named docId) body)]
  | EnqueueMany index docs => map (pair index) docs
  | Report e => match dump (EngineException_to_json e) with
                | Ok body => [("engine_exceptions", mkDoc (named "") body)]
                | Throw _ => []
                end
  | Flush => []
  end.

(** A process's life: its operations, and the flush of its normal exit. *)
Fixpoint outbox (ops : list outbox_op) (pending_ : batcher) (w : net)
    : result (list (string * BulkDoc) * net) :=
  match ops with
  | [] => '(_, _, w) <~ flush pending_ w ; Ok ([], w)
  | op :: ops =>
      '(pending_, w') <~ outbox_step op pending_ w ;
      '(docs, w') <~ outbox ops pending_ w' ;
      Ok (handed op w ++ docs, w')
  end.

(** * What happens to every document *)

(** The statuses of a response's items, or the exception that reading them
    raises; [None] when nothing reports errors. *)
Fixpoint statuses_from (items : json) (k n : nat) : result (list Z) :=
  match n with
  | O => Ok []
  | S n => status <~ item_status items k ; rest <~ statuses_from items (S k) n ; Ok (status :: rest)
  end.

Definition inspected (response : string) (n : nat) : result (option (list Z)) :=
  resp <~ parse response ;
  errors <~ json_value get_bool "errors" false resp ;
  if negb (errors : bool) then Ok None
  else items <~ json_at "items" resp ; statuses <~ statuses_from items 0 n ; Ok (Some statuses).

(** A 2xx response accepts a document it was sent: it reports no errors, it
    reports a 2xx status for the document, or it cannot be inspected. *)
Definition accepts (response : string) (docs : list BulkDoc) (doc : BulkDoc) : Prop :=
  doc ∈ docs /\
  match inspected response (length docs) with
  | Throw _ | Ok None => True
  | Ok (Some statuses) =>
      exists k status, docs !! k = Some doc /\ statuses !! k = Some status /\ status_ok status = true
  end.

Definition accepted_in (log : list (request * exchange)) (url : string) (doc : BulkDoc) : Prop :=
  exists docs text status response,
    (mkRequest "POST" url text, Response status response) ∈ log /\ status_ok status = true /\
    buildBulkBody docs = Ok text /\ accepts response docs doc.

Definition dead_lettered (index : string) (doc : BulkDoc) (line : string) : Prop :=
  exists ts, line = deadLetterLine ts index (id doc) (body doc).

Lemma accepted_in_app log more url doc : accepted_in log url doc -> accepted_in (log ++ more) url doc.
Proof. intros (docs & text & st & r & Hin & H). exists docs, text, st, r. rewrite elem_of_app. tauto. Qed.

Lemma classify_ok e a r :
  classify e = (a, r) -> code a = 0 -> exists status, e = Response status r /\ status_ok status = true.
Proof.
  destruct e as [|s p|s b]; cbn; intros [= <- <-]; cbn; [discriminate..|].
  destruct (Z.ltb_spec s 200), (Z.leb_spec 300 s); try discriminate. intros _. exists s.
  unfold status_ok. rewrite (proj2 (Z.leb_le 200 s)), (proj2 (Z.ltb_lt s 300)) by lia. done.
Qed.

Lemma statuses_lookup items k n l j :
  statuses_from items k n = Ok l -> (j < n)%nat ->
  exists st, item_status items (k + j) = Ok st /\ l !! j = Some st.
Proof.
  revert k l j. induction n as [|n IH]; intros k l j; [lia|]. cbn [statuses_from].
  destruct (item_status items k) as [st|] eqn:E; [|discriminate].
  destruct (statuses_from items (S k) n) as [rest|] eqn:E2; [|discriminate]. intros [= <-] Hj.
  destruct j as [|j]; [exists st; now rewrite Nat.add_0_r|].
  destruct (IH _ _ j E2) as (st' & H1 & H2); [lia|]. exists st'.
  now rewrite <- Nat.add_succ_comm.
Qed.

Lemma statuses_throw items k n j e :
  (j < n)%nat -> item_status items (k + j) = Throw e -> exists e', statuses_from items k n = Throw e'.
Proof.
  revert k n. induction j as [|j IH]; intros k [|n] Hj He; try lia; cbn [statuses_from].
  - rewrite Nat.add_0_r in He. rewrite He. cbn. eauto.
  - destruct (item_status items k); [|cbn; eauto]. cbn.
    destruct (IH (S k) n) as [e' ->]; [lia|now rewrite Nat.add_succ_comm|]. cbn. eauto.
Qed.

Section Delivery.
Hypothesis Hopen : can_append (getOr "ELASTIC_DEADLETTER_PATH" "elastic_deadletter.ndjson") = true.

(** What the loop does to the world besides its exchanges: documents are
    dead-lettered. *)
Definition kept (index : string) (rejected : list BulkDoc) (w w' : net) : Prop :=
  exists lines, dead_letters w' = dead_letters w ++ lines /\
    Forall2 (dead_lettered index) rejected lines.

Lemma kept_nil index w w' : dead_letters w' = dead_letters w -> kept index [] w w'.
Proof. intros H. exists []. rewrite app_nil_r. auto. Qed.
Lemma kept_trans index r1 r2 w1 w2 w3 : kept index r1 w1 w2 -> kept index r2 w2 w3 -> kept index (r1 ++ r2) w1 w3.
Proof.
  intros (l1 & E1 & H1) (l2 & E2 & H2). exists (l1 ++ l2). rewrite E2, E1, app_assoc. split; [done|].
  now apply Forall2_app.
Qed.
Lemma kept_one index doc w : kept index [doc] w (deadLetter index (id doc) (body doc) w).
Proof.
  unfold deadLetter. rewrite Hopen. exists [deadLetterLine (nowIsoUtc (seconds w)) index (id doc) (body doc)].
  split; [done|]. constructor; [|constructor]. now exists (nowIsoUtc (seconds w)).
Qed.
Lemma deadLetter_made index i b w : made (deadLetter index i b w) = made w.
Proof. unfold deadLetter. now destruct (can_append _). Qed.
Lemma dead_letter_all_spec index docs w :
  kept index docs w (dead_letter_all index docs w) /\ made (dead_letter_all index docs w) = made w.
Proof.
  revert w. induction docs as [|d docs IH]; intros w; [split; [now apply kept_nil|done]|].
  change (dead_letter_all index (d :: docs) w)
    with (dead_letter_all index docs (deadLetter index (id d) (body d) w)). destruct (IH (deadLetter index (id d) (body d) w)) as [H1 H2].
  split; [|now rewrite H2, deadLetter_made].
  apply (kept_trans index [d] docs w _ _ (kept_one index d w) H1).
Qed.

(** Sorting the items: the documents that landed, those to retry and those
    rejected are all of them; an exception leaves the rest aside. *)
Lemma sort_items_spec index items pending : forall k retry anyDead w r anyDead' w',
  sort_items index items k pending retry anyDead w = (r, anyDead', w') ->
  exists landed again rejected,
    pending ≡ₚ landed ++ again ++ rejected /\ kept index rejected w w' /\ made w' = made w /\
    (anyDead' = false <-> anyDead = false /\ rejected = []) /\
    match r with
    | Ok retry' =>
        retry' = retry ++ again /\
        forall d, d ∈ landed -> exists j st, pending !! j = Some d /\
          item_status items (k + j) = Ok st /\ status_ok st = true
    | Throw e => again = [] /\ exists j, (j < length pending)%nat /\ item_status items (k + j) = Throw e
    end.
Proof.
  induction pending as [|d pending IH]; intros k retry anyDead w r anyDead' w'; cbn [sort_items].
  - intros [= <- <- <-]. exists [], [], []. split; [done|]. split; [now apply kept_nil|].
    split; [done|]. split; [tauto|]. rewrite app_nil_r. split; [done|].
    intros d Hd. now apply not_elem_of_nil in Hd.
  - destruct (item_status items k) as [st|e] eqn:Est.
    2:{ intros [= <- <- <-]. exists (d :: pending), [], []. split; [now rewrite app_nil_r|].
        split; [now apply kept_nil|]. split; [done|]. split; [tauto|]. split; [done|].
        exists O. rewrite Nat.add_0_r. split; [simpl; lia|done]. }
    assert (forall e, (exists j, (j < length pending)%nat /\ item_status items (S k + j) = Throw e) ->
              exists j, (j < length (d :: pending))%nat /\ item_status items (k + j) = Throw e) as Hthrow.
    { intros e (j & Hj & He). exists (S j). rewrite <- Nat.add_succ_comm. simpl. split; [lia|done]. }
    assert (forall landed : list BulkDoc, (forall x, x ∈ landed -> exists j st, pending !! j = Some x /\
               item_status items (S k + j) = Ok st /\ status_ok st = true) ->
             forall x, x ∈ landed -> exists j st, (d :: pending) !! j = Some x /\
               item_status items (k + j) = Ok st /\ status_ok st = true) as Hland.
    { intros landed H x Hx. destruct (H x Hx) as (j & s & ? & ? & ?). exists (S j), s.
      now rewrite <- Nat.add_succ_comm. }
    destruct (status_ok st) eqn:Eok; [|destruct (status_retry st)]; intros Hs;
      apply IH in Hs as (landed & again & rejected & Hp & Hk & Hm & Hd & Hr).
    + exists (d :: landed), again, rejected. split; [now rewrite Hp|]. do 3 (split; [done|]).
      destruct r as [retry'|e]; [|destruct Hr as [-> Hr]; auto]. destruct Hr as [-> Hr]. split; [done|].
      intros x Hx. apply elem_of_cons in Hx as [->|Hx]; [|now apply (Hland landed)].
      exists O, st. now rewrite Nat.add_0_r.
    + destruct r as [retry'|e]; destruct Hr as [-> Hr].
      * exists landed, (d :: again), rejected. split; [rewrite Hp; cbn; now rewrite <- Permutation_middle|].
        do 3 (split; [done|]). split; [now rewrite <- app_assoc|]. now apply Hland.
      * exists (d :: landed), [], rejected. split; [now rewrite Hp|]. do 3 (split; [done|]). auto.
    + exists landed, again, (d :: rejected).
      split; [rewrite Hp, !(app_assoc landed again); now rewrite <- Permutation_middle|].
      split; [apply (kept_trans index [d] rejected w _ _ (kept_one index d w) Hk)|].
      split; [now rewrite Hm, deadLetter_made|].
      split; [destruct Hd; split; [naive_solver|now intros [_ [=]]]|].
      destruct r as [retry'|e]; destruct Hr as [-> Hr]; [|auto]. split; [done|]. now apply Hland.
Qed.

Lemma inspect_response_spec index response pending anyDead w r anyDead' w' :
  inspect_response index response pending anyDead w = (r, anyDead', w') ->
  exists landed again rejected,
    pending ≡ₚ landed ++ again ++ rejected /\ kept index rejected w w' /\ made w' = made w /\
    (anyDead' = false <-> anyDead = false /\ rejected = []) /\
    Forall (accepts response pending) landed /\
    match r with Ok retry => retry = again | Throw _ => again = [] end.
Proof.
  assert (forall landed : list BulkDoc, pending ≡ₚ landed -> forall d, d ∈ landed -> d ∈ pending) as Hin
    by (intros landed Hp d; now rewrite Hp).
  assert ((match inspected response (length pending) with Throw _ | Ok None => True | Ok (Some _) => False end) ->
    Forall (accepts response pending) pending) as Hall.
  { intros H. apply Forall_forall. intros d Hd. split; [done|].
    destruct (inspected _ _) as [[]|]; done. }
  unfold inspect_response. unfold inspected in Hall.
  destruct (parse response) as [resp|e] eqn:Ep; cbn [result_bind] in *.
  2:{ intros [= <- <- <-]. exists pending, [], []. rewrite !app_nil_r.
      split; [done|]. split; [now apply kept_nil|]. split; [done|]. split; [tauto|]. auto. }
  destruct (json_value get_bool "errors" false resp) as [errors|e] eqn:Ee; cbn [result_bind] in *.
  2:{ intros [= <- <- <-]. exists pending, [], []. rewrite !app_nil_r.
      split; [done|]. split; [now apply kept_nil|]. split; [done|]. split; [tauto|]. auto. }
  destruct errors; cbn [negb] in *.
  2:{ intros [= <- <- <-]. exists pending, [], []. rewrite !app_nil_r.
      split; [done|]. split; [now apply kept_nil|]. split; [done|]. split; [tauto|]. auto. }
  destruct (json_at "items" resp) as [items|e] eqn:Ei; cbn [result_bind] in *.
  2:{ intros [= <- <- <-]. exists pending, [], []. rewrite !app_nil_r.
      split; [done|]. split; [now apply kept_nil|]. split; [done|]. split; [tauto|]. auto. }
  intros Hs. apply sort_items_spec in Hs as (landed & again & rejected & Hp & Hk & Hm & Hd & Hr).
  exists landed, again, rejected. do 4 (split; [done|]).
  assert (forall d, d ∈ landed -> d ∈ pending) as Hsub.
  { intros d Hd'. rewrite Hp. apply elem_of_app. now left. }
  destruct r as [retry|e].
  - destruct Hr as [-> Hr]. split; [|done]. apply Forall_forall. intros d Hd'.
    split; [now apply Hsub|].
    unfold inspected. rewrite Ep. cbn [result_bind]. rewrite Ee. cbn [result_bind negb]. rewrite Ei.
    cbn [result_bind]. destruct (statuses_from items 0 (length pending)) as [l|] eqn:El; [|done]. cbn.
    destruct (Hr d Hd') as (j & st & Hj & Hst & Hok). cbn in Hst.
    destruct (statuses_lookup _ _ _ _ j El) as (st' & Hst' & Hl); [now apply lookup_lt_Some in Hj|].
    cbn in Hst'. exists j, st'. split; [done|]. split; [done|]. congruence.
  - destruct Hr as [-> (j & Hj & He)]. split; [|done]. apply Forall_forall. intros d Hd'.
    split; [now apply Hsub|].
    unfold inspected. rewrite Ep. cbn [result_bind]. rewrite Ee. cbn [result_bind negb]. rewrite Ei.
    cbn [result_bind]. destruct (statuses_throw items 0 (length pending) j e Hj He) as [e' ->]. done.
Qed.

(** What a loop of attempts guarantees of the documents it was given. *)
Definition accounted (index url : string) (bound : nat) (pending : list BulkDoc) (anyDead : bool)
    (w : net) (rc : Z) (w' : net) : Prop :=
  exists landed rejected new,
    pending ≡ₚ landed ++ rejected /\ kept index rejected w w' /\
    made w' = made w ++ new /\ (length new <= bound)%nat /\
    Forall (accepted_in new url) landed /\
    (rc = 0 <-> anyDead = false /\ rejected = []).

Lemma dropped_accounted index url bound attempt pending anyDead w rc w' :
  pending <> [] -> drop_chunk index attempt pending w = (rc, w') ->
  accounted index url bound pending anyDead w rc w'.
Proof.
  intros Hne [= <- <-]. destruct (dead_letter_all_spec index pending w) as [Hk Hm].
  exists [], pending, []. split; [done|]. split; [done|]. split; [now rewrite Hm, app_nil_r|].
  split; [simpl; lia|]. split; [constructor|]. split; [|naive_solver].
  destruct (Z.eqb_spec (code attempt) 0); [discriminate|done].
Qed.

(** One attempt and what follows it. *)
Lemma attempt_accounted index url text bound pending anyDead w attempt response w0 rc w' :
  attemptPost url text w = (attempt, response, w0) ->
  accounted index url bound pending anyDead w0 rc w' ->
  accounted index url (S bound) pending anyDead w rc w'.
Proof.
  unfold attemptPost, attemptRequest. destruct (classify _) as [a r]. intros [= <- <- <-].
  intros (landed & rejected & new & Hp & Hk & Hm & Hl & Ha & Hrc).
  exists landed, rejected, ((mkRequest "POST" url text, incoming w 0%nat) :: new).
  split; [done|]. split; [done|]. split; [rewrite Hm; cbn; now rewrite <- app_assoc|].
  split; [simpl; lia|]. split; [|done].
  eapply Forall_impl; [exact Ha|]. intros d (docs & t & st & rs & Hin & H).
  exists docs, t, st, rs. split; [now right|done].
Qed.

(** A 2xx response, and the documents it leaves. *)
Lemma response_accounted index url text bound pending anyDead w attempt response w0 r anyDead' w1 :
  attemptPost url text w = (attempt, response, w0) -> code attempt = 0 ->
  buildBulkBody pending = Ok text ->
  inspect_response index response pending anyDead w0 = (r, anyDead', w1) ->
  match r with
  | Throw _ | Ok [] => accounted index url (S bound) pending anyDead w (if anyDead' then 3 else 0) w1
  | Ok retry => forall rc w', accounted index url bound retry anyDead' w1 rc w' ->
      accounted index url (S bound) pending anyDead w rc w'
  end.
Proof.
  unfold attemptPost, attemptRequest. destruct (classify _) as [a rs] eqn:Ec. intros [= <- <- <-] Hcode Hb.
  destruct (classify_ok _ _ _ Ec Hcode) as (st & He & Hst).
  set (x := (mkRequest "POST" url text, incoming w 0%nat)).
  intros Hi. apply inspect_response_spec in Hi as (landed & again & rejected & Hp & Hk & Hm & Hd & Ha & Hr).
  assert (Forall (accepted_in [x] url) landed) as Hland.
  { eapply Forall_impl; [exact Ha|]. intros d Hacc. exists pending, text, st, rs.
    unfold x. rewrite He. split; [now left|auto]. }
  cbn [made] in Hm.
  assert (again = [] -> accounted index url (S bound) pending anyDead w (if anyDead' then 3 else 0) w1) as Hend.
  { intros ->. exists landed, rejected, [x]. split; [now rewrite Hp|]. do 2 (split; [done|]).
    split; [simpl; lia|]. split; [done|]. rewrite <- Hd. now destruct anyDead'. }
  destruct r as [retry|e]; [|now apply Hend]. subst retry.
  destruct again as [|d0 again0]; [now apply Hend|]. set (again := d0 :: again0) in *.
  intros rc w' (landed2 & rejected2 & new & Hp2 & Hk2 & Hm2 & Hl2 & Ha2 & Hrc2).
  exists (landed ++ landed2), (rejected ++ rejected2), (x :: new).
  split; [rewrite Hp, Hp2, (Permutation_app_comm rejected rejected2); now rewrite <- !app_assoc|].
  split; [now apply (kept_trans index rejected rejected2 w w1)|].
  split; [rewrite Hm2, Hm; now rewrite <- app_assoc|]. split; [simpl; lia|]. split.
  - apply Forall_app. split.
    + eapply Forall_impl; [exact Hland|]. intros d Hacc. now apply (accepted_in_app [x] new).
    + eapply Forall_impl; [exact Ha2|]. intros d (docs & t & s & rs' & Hin & H).
      exists docs, t, s, rs'. split; [now right|done].
  - rewrite Hrc2, Hd. rewrite app_nil. tauto.
Qed.

(** One chunk: every document either landed or is dead-lettered, within three
    requests, and the return code tells whether any was. *)
Lemma bulk_from_accounted index url more : forall i pending anyDead w rc w',
  pending <> [] -> bulk_from index url i more pending anyDead w = Ok (rc, w') ->
  accounted index url (S more) pending anyDead w rc w'.
Proof.
  induction more as [|more IH]; intros i pending anyDead w rc w' Hne; cbn [bulk_from];
    (destruct (buildBulkBody pending) as [text|] eqn:Eb; [|discriminate]); cbn [result_bind];
    (destruct (attemptPost url text w) as [[attempt response] w0] eqn:Ea);
    (destruct (Z.eqb_spec (code attempt) 0) as [Hcode|Hcode];
     [destruct (inspect_response index response pending anyDead w0) as [[r anyDead'] w1] eqn:Ei|]).
  - pose proof (response_accounted index url text 0 _ _ _ _ _ _ _ _ _ Ea Hcode Eb Ei) as H.
    destruct r as [[|d retry]|e].
    + now intros [= <- <-].
    + intros [= <- <-]. apply H. now eapply dropped_accounted.
    + destruct e; intros [= <- <-]; exact H.
  - intros [= <- <-]. eapply attempt_accounted; [exact Ea|]. now eapply dropped_accounted.
  - pose proof (response_accounted index url text (S more) _ _ _ _ _ _ _ _ _ Ea Hcode Eb Ei) as H.
    destruct r as [[|d retry]|e].
    + now intros [= <- <-].
    + intros Hrest. apply H. now apply IH in Hrest.
    + destruct e; intros [= <- <-]; exact H.
  - destruct (isTransientFailure attempt); cbn [negb].
    + intros Hrest. eapply attempt_accounted; [exact Ea|]. now apply IH in Hrest.
    + intros [= <- <-]. eapply attempt_accounted; [exact Ea|]. now eapply dropped_accounted.
Qed.

(** ** It always comes to an end *)

(** No response makes a conversion C++ leaves undefined (a status that is a
    floating-point number outside the integers). *)
Definition sane (w : net) : Prop :=
  forall i status response n, incoming w i = Response status response ->
    inspected response n <> Throw UndefinedRead.

Lemma sort_items_throw index items pending : forall k retry anyDead w e anyDead' w',
  sort_items index items k pending retry anyDead w = (Throw e, anyDead', w') ->
  statuses_from items k (length pending) = Throw e.
Proof.
  induction pending as [|d pending IH]; intros k retry anyDead w e anyDead' w'; cbn [sort_items]; [discriminate|].
  cbn [length statuses_from]. destruct (item_status items k) as [st|]; [|now intros [= <- <- <-]].
  cbn [result_bind].
  destruct (status_ok st); [|destruct (status_retry st)]; intros H; apply IH in H; now rewrite H.
Qed.

Lemma inspect_response_throw index response pending anyDead w e anyDead' w' :
  inspect_response index response pending anyDead w = (Throw e, anyDead', w') ->
  inspected response (length pending) = Throw e.
Proof.
  unfold inspect_response, inspected. destruct (parse response) as [resp|]; cbn [result_bind];
    [|now intros [= <- <- <-]].
  destruct (json_value _ _ _ resp) as [[]|]; cbn [result_bind negb]; [|discriminate|now intros [= <- <- <-]].
  destruct (json_at _ resp) as [items|]; cbn [result_bind]; [|now intros [= <- <- <-]].
  intros H. apply sort_items_throw in H. now rewrite H.
Qed.

Definition named (docs : list BulkDoc) : Prop := Forall (fun d => utf8_valid (chars (id d)) = true) docs.

Lemma buildBulkBody_named docs : named docs -> exists text, buildBulkBody docs = Ok text.
Proof.
  induction 1 as [|d docs Hd _ [text IH]]; [eexists; reflexivity|]. cbn [buildBulkBody].
  destruct (dump_parse_canon (json_object [("index", json_object [("_id", JString (id d))])])) as (s & Hs & _).
  { cbn. now rewrite Hd. }
  rewrite Hs, IH. cbn. eauto.
Qed.

Lemma named_permutation docs docs' : docs ≡ₚ docs' -> named docs -> named docs'.
Proof. intros Hp. unfold named. now rewrite Hp. Qed.

(** The exchanges still to come are a tail of those there were. *)
Definition later (w w' : net) : Prop := exists n, forall i, incoming w' i = incoming w (n + i)%nat.

Lemma later_refl w : later w w.
Proof. now exists O. Qed.
Lemma later_trans w1 w2 w3 : later w1 w2 -> later w2 w3 -> later w1 w3.
Proof. intros [n H] [m H']. exists (n + m)%nat. intros i. rewrite H', H. f_equal. lia. Qed.
Lemma later_sane w w' : later w w' -> sane w -> sane w'.
Proof. intros [n H] Hs i status response k. rewrite H. apply Hs. Qed.
Lemma deadLetter_later w index i b : later w (deadLetter index i b w).
Proof. exists O. intros j. unfold deadLetter. now destruct (can_append _). Qed.
Lemma dead_letter_all_later index docs : forall w, later w (dead_letter_all index docs w).
Proof.
  induction docs as [|d docs IH]; intros w; [apply later_refl|].
  exact (later_trans _ _ _ (deadLetter_later w index (id d) (body d)) (IH _)).
Qed.
Lemma sort_items_later index items pending : forall k retry anyDead w r anyDead' w',
  sort_items index items k pending retry anyDead w = (r, anyDead', w') -> later w w'.
Proof.
  induction pending as [|d pending IH]; intros k retry anyDead w r anyDead' w'; cbn [sort_items].
  - intros [= <- <- <-]. apply later_refl.
  - destruct (item_status items k) as [st|]; [|intros [= <- <- <-]; apply later_refl].
    destruct (status_ok st); [apply IH|]. destruct (status_retry st); [apply IH|].
    intros H. exact (later_trans _ _ _ (deadLetter_later w index (id d) (body d)) (IH _ _ _ _ _ _ _ H)).
Qed.
Lemma inspect_response_later index response pending anyDead w r anyDead' w' :
  inspect_response index response pending anyDead w = (r, anyDead', w') -> later w w'.
Proof.
  unfold inspect_response. destruct (x <~ parse response ; _) as [[resp []]|]; cbn [negb];
    try (intros [= <- <- <-]; apply later_refl).
  destruct (json_at _ resp); [apply sort_items_later|intros [= <- <- <-]; apply later_refl].
Qed.

Lemma bulk_from_returns index url more : forall i pending anyDead w,
  named pending -> sane w ->
  exists rc w', bulk_from index url i more pending anyDead w = Ok (rc, w') /\ later w w'.
Proof.
  induction more as [|more IH]; intros i pending anyDead w Hn Hs; cbn [bulk_from];
    (destruct (buildBulkBody_named pending Hn) as [text ->]); cbn [result_bind];
    unfold attemptPost, attemptRequest; set (e := incoming w 0%nat);
    set (w0 := mkNet (fun i => incoming w (S i)) _ _ _ _);
    (assert (later w w0) as H0 by (now exists 1%nat));
    (destruct (classify e) as [attempt response] eqn:Ec);
    (destruct (Z.eqb_spec (code attempt) 0) as [Hcode|Hcode];
     [destruct (inspect_response index response pending anyDead w0) as [[r anyDead'] w1] eqn:Ei;
      pose proof (later_trans _ _ _ H0 (inspect_response_later _ _ _ _ _ _ _ _ Ei)) as H1|]).
  all: try (assert (r <> Throw UndefinedRead) as Hu
    by (intros ->; apply inspect_response_throw in Ei;
        destruct (classify_ok e attempt response Ec Hcode) as (st & He & _);
        exact (Hs 0%nat st response _ He Ei))).
  all: try (destruct r as [[|d retry]|ex]; [eauto| |destruct ex; eauto; done]).
  - eexists _, _. split; [reflexivity|]. exact (later_trans _ _ _ H1 (dead_letter_all_later _ _ _)).
  - eexists _, _. split; [reflexivity|]. exact (later_trans _ _ _ H0 (dead_letter_all_later _ _ _)).
  - apply inspect_response_spec in Ei as (landed & again & rejected & Hp & _ & _ & _ & _ & <-).
    destruct (IH (S i) (d :: retry) anyDead' (retryBackoff i w1)) as (rc & w' & E & Hl).
    + apply (named_permutation _ _ Hp) in Hn. apply Forall_app in Hn as [_ Hn]. now apply Forall_app in Hn as [Hn _].
    + now apply (later_sane w).
    + exists rc, w'. split; [done|]. exact (later_trans _ _ _ H1 Hl).
  - destruct (isTransientFailure attempt); cbn [negb].
    + destruct (IH (S i) pending anyDead (retryBackoff i w0) Hn) as (rc & w' & E & Hl);
        [now apply (later_sane w)|].
      exists rc, w'. split; [done|]. exact (later_trans _ _ _ H0 Hl).
    + eexists _, _. split; [reflexivity|]. exact (later_trans _ _ _ H0 (dead_letter_all_later _ _ _)).
Qed.

(** ** Chunks, whole requests and the queue *)

(** Documents of one index, delivered or kept, and the worst return code so
    far. *)
Definition delivered (index url : string) (docs : list BulkDoc) (worst : Z) (w : net) (rc : Z) (w' : net) : Prop :=
  exists landed rejected new,
    docs ≡ₚ landed ++ rejected /\ kept index rejected w w' /\ made w' = made w ++ new /\
    Forall (accepted_in new url) landed /\ (rc = 0 <-> worst = 0 /\ rejected = []).

Lemma delivered_nil index url worst w : delivered index url [] worst w worst w.
Proof.
  exists [], [], []. split; [done|]. split; [now apply kept_nil|]. split; [now rewrite app_nil_r|].
  split; [constructor|tauto].
Qed.

Lemma delivered_trans index url docs1 docs2 c0 c1 c2 w0 w1 w2 :
  delivered index url docs1 c0 w0 c1 w1 -> delivered index url docs2 c1 w1 c2 w2 ->
  delivered index url (docs1 ++ docs2) c0 w0 c2 w2.
Proof.
  intros (l1 & r1 & n1 & Hp1 & Hk1 & Hm1 & Ha1 & Hc1) (l2 & r2 & n2 & Hp2 & Hk2 & Hm2 & Ha2 & Hc2).
  exists (l1 ++ l2), (r1 ++ r2), (n1 ++ n2).
  split.
  { rewrite Hp1, Hp2, <- !app_assoc. f_equiv. rewrite !app_assoc. f_equiv. apply Permutation_app_comm. }
  split; [eauto using kept_trans|]. split; [now rewrite Hm2, Hm1, app_assoc|]. split.
  - apply Forall_app. split; eapply Forall_impl; eauto using accepted_in_app.
    intros d (docs & t & st & rs & Hin & H). exists docs, t, st, rs. rewrite elem_of_app. tauto.
  - rewrite Hc2, Hc1, app_nil. tauto.
Qed.

Lemma flush_chunk_delivers index url chunk worst w :
  named chunk -> sane w ->
  exists rc w', flush_chunk index url chunk worst w = Ok (rc, w') /\ later w w' /\
                delivered index url chunk worst w rc w'.
Proof.
  intros Hn Hs. destruct chunk as [|d chunk]; [exists worst, w; eauto using later_refl, delivered_nil|].
  cbn [flush_chunk]. destruct (bulk_from_returns index url 2 1 (d :: chunk) false w Hn Hs) as (rc & w' & E & Hl).
  unfold postBulkChunk. change (kMaxRetryAttempts - 1)%nat with 2%nat. rewrite E. cbn [result_bind].
  eexists _, _. split; [reflexivity|]. split; [done|].
  apply bulk_from_accounted in E as (landed & rejected & new & Hp & Hk & Hm & _ & Ha & Hrc); [|done].
  exists landed, rejected, new. do 4 (split; [done|]).
  destruct (Z.eqb_spec rc 0) as [->|Hne]; [|tauto].
  destruct Hrc as [Hrc _]. destruct (Hrc eq_refl) as [_ ->]. tauto.
Qed.

Lemma feed_chunks_delivers index url docs : forall chunk bytes worst w,
  named (chunk ++ docs) -> sane w ->
  exists rc w', feed_chunks index url docs chunk bytes worst w = Ok (rc, w') /\ later w w' /\
                delivered index url (chunk ++ docs) worst w rc w'.
Proof.
  induction docs as [|d docs IH]; intros chunk bytes worst w Hn Hs; cbn [feed_chunks].
  - rewrite app_nil_r in *. now apply flush_chunk_delivers.
  - replace (chunk ++ d :: docs) with ((chunk ++ [d]) ++ docs) in * by now rewrite <- app_assoc.
    destruct (_ || _); [|now apply IH].
    pose proof Hn as Hn'. apply Forall_app in Hn' as [Hn1 Hn2].
    destruct (flush_chunk_delivers index url (chunk ++ [d]) worst w Hn1 Hs) as (rc1 & w1 & E1 & Hl1 & Hd1).
    rewrite E1. cbn [result_bind].
    destruct (IH [] 0 rc1 w1 Hn2 (later_sane _ _ Hl1 Hs)) as (rc & w' & E & Hl & Hd).
    exists rc, w'. split; [done|]. split; [eauto using later_trans|]. eauto using delivered_trans.
Qed.

Definition bulk_url (index : string) : string := host +:+ "/" +:+ index +:+ "/_bulk".

Hypothesis Hon : enabled = true.

Lemma bulkIndexDocuments_delivers index docs w :
  named docs -> sane w ->
  exists rc w', bulkIndexDocuments index docs w = Ok (rc, w') /\ later w w' /\
                delivered index (bulk_url index) docs 0 w rc w'.
Proof.
  intros Hn Hs. unfold bulkIndexDocuments. rewrite Hon. cbn [negb].
  destruct docs as [|d docs]; [exists 0, w; eauto using later_refl, delivered_nil|].
  apply (feed_chunks_delivers index (bulk_url index) (d :: docs) [] 0 0 w Hn Hs).
Qed.

(** The same, over several indices. *)
Definition accounted_all (docs : list (string * BulkDoc)) (w w' : net) (rejected : list (string * BulkDoc)) : Prop :=
  exists landed lines new,
    docs ≡ₚ landed ++ rejected /\
    dead_letters w' = dead_letters w ++ lines /\
    Forall2 (fun d line => dead_lettered d.1 d.2 line) rejected lines /\
    made w' = made w ++ new /\
    Forall (fun d => accepted_in new (bulk_url d.1) d.2) landed.

Definition flatten (b : batcher) : list (string * BulkDoc) :=
  flat_map (fun '(index, docs) => map (pair index) docs) b.
Definition all_named (docs : list (string * BulkDoc)) : Prop := named (map snd docs).

Lemma accounted_all_nil w : accounted_all [] w w [].
Proof.
  exists [], [], []. split; [done|]. split; [now rewrite app_nil_r|]. split; [constructor|].
  split; [now rewrite app_nil_r|constructor].
Qed.

Lemma accounted_all_trans d1 d2 w0 w1 w2 r1 r2 :
  accounted_all d1 w0 w1 r1 -> accounted_all d2 w1 w2 r2 -> accounted_all (d1 ++ d2) w0 w2 (r1 ++ r2).
Proof.
  intros (l1 & k1 & n1 & Hp1 & Hd1 & Hf1 & Hm1 & Ha1) (l2 & k2 & n2 & Hp2 & Hd2 & Hf2 & Hm2 & Ha2).
  exists (l1 ++ l2), (k1 ++ k2), (n1 ++ n2). split.
  { rewrite Hp1, Hp2, <- !app_assoc. f_equiv. rewrite !app_assoc. f_equiv. apply Permutation_app_comm. }
  split; [now rewrite Hd2, Hd1, app_assoc|]. split; [now apply Forall2_app|].
  split; [now rewrite Hm2, Hm1, app_assoc|].
  apply Forall_app. split; eapply Forall_impl; eauto; simpl; eauto using accepted_in_app.
  intros d (docs & t & st & rs & Hin & H). exists docs, t, st, rs. rewrite elem_of_app. tauto.
Qed.

Lemma delivered_all index docs w rc w' :
  delivered index (bulk_url index) docs 0 w rc w' ->
  exists rejected, accounted_all (map (pair index) docs) w w' rejected /\ (rc = 0 <-> rejected = []).
Proof.
  intros (landed & rejected & new & Hp & (lines & Hd & Hf) & Hm & Ha & Hrc).
  exists (map (pair index) rejected). split.
  - exists (map (pair index) landed), lines, new.
    split; [rewrite <- map_app; now apply Permutation_map|]. split; [done|].
    split; [now apply Forall2_fmap_l|]. split; [done|]. now apply Forall_fmap.
  - rewrite Hrc. destruct rejected; simpl; naive_solver.
Qed.

Lemma flush_batch_delivers batch : forall worst w,
  all_named (flatten batch) -> sane w ->
  exists rc w' rejected, flush_batch batch worst w = Ok (rc, w') /\ later w w' /\
    accounted_all (flatten batch) w w' rejected /\ (rc = 0 <-> worst = 0 /\ rejected = []).
Proof.
  induction batch as [|[index docs] batch IH]; intros worst w Hn Hs; cbn [flush_batch].
  - exists worst, w, []. split; [done|]. split; [apply later_refl|]. split; [apply accounted_all_nil|tauto].
  - unfold all_named in Hn. cbn [flatten flat_map] in Hn. rewrite map_app in Hn.
    apply Forall_app in Hn as [Hn1 Hn2]. rewrite map_map in Hn1. cbn in Hn1. rewrite map_id in Hn1.
    destruct (bulkIndexDocuments_delivers index docs w Hn1 Hs) as (rc1 & w1 & E1 & Hl1 & Hd1).
    rewrite E1. cbn [result_bind]. destruct (delivered_all _ _ _ _ _ Hd1) as (r1 & Ha1 & Hc1).
    destruct (IH (if rc1 =? 0 then worst else rc1) w1 Hn2 (later_sane _ _ Hl1 Hs)) as (rc & w' & r2 & E & Hl & Ha & Hc).
    exists rc, w', (r1 ++ r2). split; [done|]. split; [eauto using later_trans|].
    split; [exact (accounted_all_trans _ _ _ _ _ _ _ Ha1 Ha)|].
    rewrite Hc, app_nil. destruct (Z.eqb_spec rc1 0) as [->|Hne]; tauto.
Qed.

(** ** The life of the queue *)

Lemma enqueue_flatten index docs pending_ :
  flatten (enqueue index docs pending_) ≡ₚ flatten pending_ ++ map (pair index) docs.
Proof.
  induction pending_ as [|[k queued] rest IH]; cbn [enqueue].
  - unfold flatten. cbn. now rewrite app_nil_r.
  - destruct (String.eqb_spec k index) as [->|_]; [|destruct (String.ltb index k)]; unfold flatten in *; cbn.
    + rewrite map_app, <- !app_assoc. f_equiv. apply Permutation_app_comm.
    + apply Permutation_app_comm.
    + rewrite IH. now rewrite app_assoc.
Qed.

Definition op_named (op : outbox_op) : Prop :=
  match op with
  | EnqueueOne _ _ docId => utf8_valid (chars docId) = true
  | EnqueueMany _ docs => named docs
  | Report _ | Flush => True
  end.

Hypothesis Huuid : forall n, utf8_valid (chars (uuid n)) = true.

Lemma handed_named op w : op_named op -> all_named (handed op w).
Proof.
  unfold all_named, named. destruct op as [index body docId|index docs|e|]; cbn [handed op_named].
  - intros H. constructor; [|constructor]. cbn. now destruct (String.eqb docId "").
  - intros H. rewrite map_map. cbn. now rewrite map_id.
  - intros _. destruct (dump _); constructor; [apply Huuid|constructor].
  - intros _. constructor.
Qed.

Lemma all_named_app d1 d2 : all_named (d1 ++ d2) <-> all_named d1 /\ all_named d2.
Proof. unfold all_named, named. now rewrite map_app, Forall_app. Qed.

(** An operation adds its documents to the queue, or delivers what is there. *)
Lemma outbox_step_spec op pending_ w :
  all_named (flatten pending_) -> op_named op -> sane w ->
  exists pending' w' out rejected, outbox_step op pending_ w = Ok (pending', w') /\ later w w' /\
    flatten pending_ ++ handed op w ≡ₚ out ++ flatten pending' /\ accounted_all out w w' rejected.
Proof.
  intros Hn Hop Hs.
  assert (forall index docs w', dead_letters w' = dead_letters w -> made w' = made w -> later w w' ->
    exists out rejected, later w w' /\
      flatten pending_ ++ map (pair index) docs ≡ₚ out ++ flatten (enqueue index docs pending_) /\
      accounted_all out w w' rejected)
    as Henq.
  { intros index docs w' Hd Hm Hl. exists [], []. split; [done|].
    split; [now rewrite enqueue_flatten|]. exists [], [], [].
    split; [done|]. split; [now rewrite app_nil_r|]. split; [constructor|].
    split; [now rewrite app_nil_r|constructor]. }
  destruct op as [index body docId|index docs|e|]; cbn [outbox_step handed].
  - unfold enqueueDocument. rewrite Hon. cbn [negb]. destruct (String.eqb docId "").
    + destruct (Henq index [mkDoc (uuid (minted w)) body] (generateUuid w).2 eq_refl eq_refl) as (out & rejected & H); [now exists O|]. eexists _, _, out, rejected. split; [reflexivity|exact H].
    + destruct (Henq index [mkDoc docId body] w eq_refl eq_refl) as (out & rejected & H); [apply later_refl|]. eexists _, _, out, rejected. split; [reflexivity|exact H].
  - unfold enqueueDocuments. rewrite Hon. cbn [negb]. destruct docs as [|d docs].
    + eexists _, w, [], []. split; [reflexivity|]. split; [apply later_refl|].
      split; [now rewrite app_nil_r|apply accounted_all_nil].
    + destruct (Henq index (d :: docs) w eq_refl eq_refl) as (out & rejected & H); [apply later_refl|]. eexists _, w, out, rejected. split; [reflexivity|exact H].
  - unfold putEngineException, enqueueDocument. rewrite Hon. cbn [negb].
    destruct (dump (EngineException_to_json e)) as [text|].
    + cbn [String.eqb].
      destruct (Henq "engine_exceptions" [mkDoc (uuid (minted w)) text] (generateUuid w).2 eq_refl eq_refl) as (out & rejected & H); [now exists O|]. eexists _, _, out, rejected. split; [reflexivity|exact H].
    + eexists _, w, [], []. split; [reflexivity|]. split; [apply later_refl|].
      split; [now rewrite app_nil_r|apply accounted_all_nil].
  - unfold flushQueuedDocuments, flush. rewrite Hon. cbn [negb].
    destruct (flush_batch_delivers pending_ 0 w Hn Hs) as (rc & w' & rejected & E & Hl & Ha & _).
    rewrite E. cbn [result_bind]. eexists _, w', (flatten pending_), rejected.
    split; [reflexivity|]. split; [done|]. split; [done|exact Ha].
Qed.

Lemma outbox_delivers ops : forall pending_ w,
  all_named (flatten pending_) -> Forall op_named ops -> sane w ->
  exists docs w' rejected, outbox ops pending_ w = Ok (docs, w') /\
    accounted_all (flatten pending_ ++ docs) w w' rejected.
Proof.
  induction ops as [|op ops IH]; intros pending_ w Hn Hops Hs; cbn [outbox].
  - unfold flush. destruct (flush_batch_delivers pending_ 0 w Hn Hs) as (rc & w' & rejected & E & _ & Ha & _).
    rewrite E. cbn [result_bind]. exists [], w', rejected. split; [done|]. now rewrite app_nil_r.
  - apply Forall_cons in Hops as [Hop Hops].
    destruct (outbox_step_spec op pending_ w Hn Hop Hs) as (pending' & w1 & out & r1 & E & Hl & Hp & Ha).
    assert (all_named (flatten pending')) as Hn'.
    { assert (all_named (out ++ flatten pending')) as H; [|now apply all_named_app in H].
      unfold all_named, named in *. rewrite <- Hp. rewrite map_app, Forall_app. split; [done|].
      now apply handed_named. }
    destruct (IH pending' w1 Hn' Hops (later_sane _ _ Hl Hs)) as (docs & w' & r2 & E2 & Ha2).
    exists (handed op w ++ docs), w', (r1 ++ r2).
    split; [now rewrite E; cbn [result_bind]; rewrite E2|].
    destruct (accounted_all_trans _ _ _ _ _ _ _ Ha Ha2) as (landed & lines & new & Hp2 & H).
    exists landed, lines, new. split; [|exact H].
    rewrite <- Hp2, app_assoc, Hp. now rewrite <- app_assoc.
Qed.

End Delivery.


(** ** Chunks *)

(** The chunks a list of documents is cut into, and their posts one by one. *)
Fixpoint split_chunks (docs chunk : list BulkDoc) (chunkBytes : Z) : list (list BulkDoc) :=
  match docs with
  | [] => [chunk]
  | doc :: docs =>
      let chunk := chunk ++ [doc] in
      let chunkBytes := chunkBytes + doc_bytes doc in
      if (kMaxBulkDocs <=? Z.of_nat (length chunk)) || (kMaxBulkBytes <=? chunkBytes)
      then chunk :: split_chunks docs [] 0
      else split_chunks docs chunk chunkBytes
  end.

Fixpoint post_chunks (index url : string) (chunks : list (list BulkDoc)) (worst : Z) (w : net)
    : result (Z * net) :=
  match chunks with
  | [] => Ok (worst, w)
  | chunk :: chunks =>
      '(worst, w) <~ flush_chunk index url chunk worst w ; post_chunks index url chunks worst w
  end.

Definition chunk_bytes (chunk : list BulkDoc) : Z := foldr (fun d n => doc_bytes d + n) 0 chunk.

Definition chunk_bounded (chunk : list BulkDoc) : Prop :=
  Z.of_nat (length chunk) <= kMaxBulkDocs /\
  forall front doc, chunk = front ++ [doc] -> chunk_bytes front < kMaxBulkBytes.

Lemma chunk_bytes_snoc chunk doc : chunk_bytes (chunk ++ [doc]) = chunk_bytes chunk + doc_bytes doc.
Proof. induction chunk as [|d chunk IH]; cbn; [lia|]. unfold chunk_bytes in IH. rewrite IH. lia. Qed.

Lemma split_chunks_spec docs : forall chunk bytes,
  bytes = chunk_bytes chunk -> Z.of_nat (length chunk) < kMaxBulkDocs -> bytes < kMaxBulkBytes ->
  concat (split_chunks docs chunk bytes) = chunk ++ docs /\
  Forall chunk_bounded (split_chunks docs chunk bytes).
Proof.
  assert (forall chunk, Z.of_nat (length chunk) <= kMaxBulkDocs ->
    (forall front doc, chunk = front ++ [doc] -> chunk_bytes front < kMaxBulkBytes) -> chunk_bounded chunk)
    as Hb by (intros; split; auto).
  assert (forall doc, 0 < doc_bytes doc) as Hpos by (intros; unfold doc_bytes; lia).
  induction docs as [|d docs IH]; intros chunk bytes -> Hl Hbytes; cbn [split_chunks].
  - split; [now cbn; rewrite !app_nil_r|]. constructor; [|constructor]. apply Hb; [lia|].
    intros front doc ->. rewrite chunk_bytes_snoc in Hbytes. specialize (Hpos doc). lia.
  - destruct (_ || _) eqn:E.
    + destruct (IH [] 0 eq_refl) as [Hc Hf]; [vm_compute; done|vm_compute; done|].
      split; [cbn; now rewrite Hc, <- app_assoc|]. constructor; [|done]. apply Hb.
      * rewrite length_app. simpl. lia.
      * intros front doc Ed. apply app_inj_tail in Ed as [-> _]. done.
    + apply orb_false_iff in E as [E1 E2]. apply Z.leb_gt in E1, E2.
      destruct (IH (chunk ++ [d]) (chunk_bytes chunk + doc_bytes d)) as [Hc Hf];
        [now rewrite chunk_bytes_snoc|done|done|]. split; [|done]. now rewrite Hc, <- app_assoc.
Qed.

(** A bulk request is cut within bounds: the documents, in order, go out in
    chunks posted one after the other, each of at most a thousand documents and
    below four mebibytes before its last one, and the return code is the last
    one that was not zero. *)
Theorem bulk_chunks index url docs w :
  feed_chunks index url docs [] 0 0 w = post_chunks index url (split_chunks docs [] 0) 0 w /\
  concat (split_chunks docs [] 0) = docs /\
  Forall chunk_bounded (split_chunks docs [] 0).
Proof.
  split; [|apply (split_chunks_spec docs [] 0); done].
  enough (forall chunk bytes worst w, feed_chunks index url docs chunk bytes worst w
            = post_chunks index url (split_chunks docs chunk bytes) worst w) as H by apply H.
  clear w.
  induction docs as [|d docs IH]; intros chunk bytes worst w; cbn [feed_chunks split_chunks].
  - cbn [post_chunks]. now destruct (flush_chunk _ _ _ _ _) as [[]|].
  - destruct (_ || _); [|apply IH]. cbn [post_chunks].
    destruct (flush_chunk _ _ _ _ _) as [[]|]; cbn [result_bind]; [apply IH|done].
Qed.

(** ** Single requests *)

(** A retried request makes one to three exchanges, every one but the last a
    transient failure; the last is the outcome. *)
Lemma retries_bounded r w attempt response w' :
  attemptWithRetries (attemptRequest r) w = (attempt, response, w') ->
  exists fails last, made w' = made w ++ map (pair r) fails ++ [(r, last)] /\ (length fails <= 2)%nat /\
    Forall (fun e => isTransientFailure (classify e).1 = true) fails /\
    classify last = (attempt, response) /\ dead_letters w' = dead_letters w.
Proof.
  unfold attemptWithRetries. change (kMaxRetryAttempts - 1)%nat with 2%nat.
  generalize 1%nat as i, 2%nat as more. intros i more. revert i w.
  induction more as [|more IH]; intros i w; cbn [attempts_from]; unfold attemptRequest;
    destruct (classify (incoming w 0%nat)) as [a rs] eqn:Ec.
  - intros [= <- <- <-]. exists [], (incoming w 0%nat). cbn. split_and!; auto.
  - destruct (_ || _) eqn:E.
    + intros [= <- <- <-]. exists [], (incoming w 0%nat). cbn. split_and!; auto. lia.
    + apply orb_false_iff in E as [_ E]. apply negb_false_iff in E. intros H.
      apply IH in H as (fails & last & Hm & Hl & Hf & Hc & Hd).
      exists (incoming w 0%nat :: fails), last. cbn in *.
      split; [now rewrite Hm, <- app_assoc|]. split; [lia|]. split; [constructor; [now rewrite Ec|done]|auto].
Qed.

End Publisher.

(** * A witness *)

Definition demo_process : Process :=
  Build_Process (Build_Environment (fun _ => None) []) (fun _ => true) (fun _ => "uuid").

Definition status_json (status : Z) : json := json_object [("index", json_object [("status", JUnsigned status)])].
Definition partly_failed : string := Eval vm_compute in
  match dump (json_object [("errors", JBoolean true);
                           ("items", JArray [status_json 201; status_json 429; status_json 400])]) with
  | Ok s => s | Throw _ => "" end.

(** The first request is partly rejected, the second cannot be made, the third
    succeeds, and the cluster is gone after that. *)
Definition demo_net : net :=
  mkNet (fun i => match i with
                  | O => Response 200 partly_failed
                  | S O => TransportError 0 ""
                  | S (S O) => Response 200 "{}"
                  | _ => Response 503 "unavailable"
                  end) 0 0 [] [].
Definition demo_ops : list outbox_op :=
  [EnqueueOne "backtesting-final" "{}" "r1:a"; EnqueueOne "backtesting-final" "{}" "r1:b";
   EnqueueOne "backtesting-final" "{}" "r1:c"; Flush; EnqueueOne "engine_exceptions" "{}" "x"].

Lemma demo_sane : sane demo_net.
Proof.
  intros i status response n.
  assert (forall k m l, (forall j, (j < length l)%nat -> exists s, json_index j (JArray l) = Ok (status_json s)) ->
            statuses_from (JArray l) k m <> Throw UndefinedRead) as Hl.
  { intros k m l Hl. revert k. induction m as [|m IH]; intros k; cbn [statuses_from]; [discriminate|].
    assert (exists st, item_status (JArray l) k = Ok st) as [st ->].
    { unfold item_status. cbn [json_size]. destruct (Nat.ltb_spec k (length l)) as [Hk|]; [|eauto].
      destruct (Hl k Hk) as [s ->]. cbn. eauto. }
    cbn [result_bind]. specialize (IH (S k)). destruct (statuses_from _ _ _); [discriminate|].
    cbn. congruence. }
  destruct i as [|[|[|i]]]; cbn [demo_net incoming]; intros [= <- <-].
  - unfold inspected.
    set (items := [status_json 201; status_json 429; status_json 400]).
    set (resp := json_object [("errors", JBoolean true); ("items", JArray items)]).
    assert (parse partly_failed = Ok resp) as -> by (vm_compute; reflexivity). cbn [result_bind].
    assert (json_value get_bool "errors" false resp = Ok true) as -> by (vm_compute; reflexivity).
    cbn [result_bind negb].
    assert (json_at "items" resp = Ok (JArray items)) as -> by (vm_compute; reflexivity). cbn [result_bind].
    destruct (statuses_from _ 0 n) as [|e] eqn:El; cbn [result_bind]; [discriminate|].
    intros [= ->]. revert El. apply Hl.
    intros [|[|[|j]]] Hj; cbn; eauto. cbn in Hj. lia.
  - vm_compute. discriminate.
  - vm_compute. discriminate.
Qed.

