(* ===== verification/Sweep.v ===== *)
(** load/sweep/ and load/utility/symbolGroups.cppm: parameter ranges, the grid
    they span, its eager and its lazy expansion, and the symbol groups a sweep
    runs against. *)
From Stdlib Require Import ZArith Lia SpecFloat.
From stdpp Require Import base gmap list strings.
From S2P Require Import Prelude Json SymbolScale Double.
Open Scope Z_scope.

(** * Symbol groups *)

Definition is_comma (c : Ascii.ascii) : bool := Ascii.eqb c (Ascii.ascii_of_nat 44).
Definition is_blank (c : Ascii.ascii) : bool := Ascii.eqb c (Ascii.ascii_of_nat 32) || Ascii.eqb c (Ascii.ascii_of_nat 9).

(** The fields between commas: one more than there are commas. *)
Fixpoint fields (l : list Ascii.ascii) : list (list Ascii.ascii) :=
  match l with
  | [] => [[]]
  | c :: l =>
      if is_comma c then [] :: fields l
      else match fields l with
           | field :: rest => (c :: field) :: rest
           | [] => [[c]]
           end
  end.

Fixpoint trim_front (l : list Ascii.ascii) : list Ascii.ascii :=
  match l with
  | [] => []
  | c :: rest => if is_blank c then trim_front rest else l
  end.
Definition trim (l : list Ascii.ascii) : list Ascii.ascii := rev (trim_front (rev (trim_front l))).

Definition split_chars (l : list Ascii.ascii) : list (list Ascii.ascii) :=
  List.filter (fun token => negb (bool_decide (token = []))) (map trim (fields l)).

Definition splitSymbols (group : string) : list string := map text (split_chars (chars group)).

(** The tokens joined by single commas. *)
Definition append_symbol (result symbol : string) : string :=
  if String.eqb result "" then symbol else result +:+ "," +:+ symbol.
Definition cleanSymbols (group : string) : string :=
  foldl append_symbol "" (splitSymbols group).

Definition allSymbolsKnown (groups : list string) : bool :=
  forallb (fun group => forallb (fun symbol => negb (get symbol =? kUnknown)) (splitSymbols group)) groups.

(** * Combinations *)

Notation Combination := (gmap string double).

Definition has (name : string) (combo : Combination) : bool := bool_decide (is_Some (combo !! name)).

Definition getValue (name : string) (combo : Combination) : result double :=
  match combo !! name with Some value => Ok value | None => Throw OutOfRange end.

(** [static_cast<int>(std::lround(...))]. *)
Definition getInt (name : string) (combo : Combination) : result Z :=
  value <~ getValue name combo ;
  match dbl_llround value with Some z => Ok (i32 z) | None => Throw UndefinedRead end.

Definition set (name : string) (value : double) (combo : Combination) : Combination :=
  <[name := value]> combo.

(** * Ranges *)

Inductive ParameterRange : Type :=
| LinearRange (start step end_ : double)
| ExplicitRange (values : list double)
| ExponentialRange (base multiplier : double) (iterations : Z).

Definition kEpsilon : double := dbl_decimal 1 9.

(** The stepping loop; [None] when it needs more rounds than the fuel. *)
Fixpoint linear_values (fuel : nat) (value step end_ : double) : option (list double) :=
  if dbl_leb value (dbl_add end_ kEpsilon) then
    match fuel with
    | O => None
    | S fuel => rest ← linear_values fuel (dbl_add value step) step end_; Some (value :: rest)
    end
  else Some [].

Fixpoint exponential_values (iterations : nat) (current multiplier : double) : list double :=
  match iterations with
  | O => []
  | S iterations => current :: exponential_values iterations (dbl_mul current multiplier) multiplier
  end.

Definition generateValues (fuel : nat) (range : ParameterRange) : option (list double) :=
  match range with
  | LinearRange start step end_ =>
      if dbl_leb step dbl_zero then Some [start] else linear_values fuel start step end_
  | ExplicitRange values => Some values
  | ExponentialRange base multiplier iterations =>
      Some (exponential_values (Z.to_nat iterations) base multiplier)
  end.

(** * The generator *)

Record ParameterGenerator : Type := mkGenerator {
  ranges_ : list (string * ParameterRange);
  symbolGroups_ : list string;
}.

Definition emptyGenerator : ParameterGenerator := mkGenerator [] [].

Definition addParameterRange (name : string) (range : ParameterRange) (g : ParameterGenerator)
    : ParameterGenerator :=
  mkGenerator (ranges_ g ++ [(name, range)]) (symbolGroups_ g).
Definition addRange (name : string) (start step end_ : double) : ParameterGenerator -> ParameterGenerator :=
  addParameterRange name (LinearRange start step end_).
Definition addList (name : string) (values : list double) : ParameterGenerator -> ParameterGenerator :=
  addParameterRange name (ExplicitRange values).
Definition addExponential (name : string) (base multiplier : double) (iterations : Z)
    : ParameterGenerator -> ParameterGenerator :=
  addParameterRange name (ExponentialRange base multiplier iterations).
Definition setSymbolGroups (groups : list string) (g : ParameterGenerator) : ParameterGenerator :=
  mkGenerator (ranges_ g) groups.

(** Every range with its values, which the three readers below enumerate afresh. *)
Definition evaluated (fuel : nat) (g : ParameterGenerator) : option (list (string * list double)) :=
  mapM (fun '(name, range) => values ← generateValues fuel range; Some (name, values)) (ranges_ g).

Fixpoint expand (ranges : list (string * list double)) (result : list Combination) : list Combination :=
  match ranges with
  | [] => result
  | (name, values) :: ranges =>
      expand ranges (flat_map (fun base => map (fun value => set name value base) values) result)
  end.

Definition generateAllCombinations (ranges : list (string * list double)) : list Combination :=
  expand ranges [∅].

Definition size64 (n : Z) : Z := n mod 2 ^ 64.

Definition combinationCount (ranges : list (string * list double)) : Z :=
  foldl (fun count '(_, values) => size64 (count * Z.of_nat (length values))) 1 ranges.

(** The digits of [index], least significant (last registered) first. A range
    without values divides by zero. *)
Fixpoint decode (digits : list (string * list double)) (index : nat) (combo : Combination)
    : result Combination :=
  match digits with
  | [] => Ok combo
  | (name, values) :: digits =>
      match values !! (index mod length values)%nat with
      | None => Throw UndefinedRead
      | Some value => decode digits (index / length values)%nat (set name value combo)
      end
  end.

Definition combinationAt (ranges : list (string * list double)) (index : nat) : result Combination :=
  decode (rev ranges) index ∅.

Definition rangeValueCounts (ranges : list (string * list double)) : list (string * nat) :=
  map (fun '(name, values) => (name, length values)) ranges.

(** * The grid *)

(** The number of combinations, without the wrap. *)
Definition grid_size (ranges : list (string * list double)) : nat :=
  foldr (fun r n => (length r.2 * n)%nat) 1%nat ranges.

Lemma grid_size_cons name values ranges :
  grid_size ((name, values) :: ranges) = (length values * grid_size ranges)%nat.
Proof. reflexivity. Qed.

Lemma grid_size_app a b : grid_size (a ++ b) = (grid_size a * grid_size b)%nat.
Proof.
  induction a as [|[n v] a IH]; [symmetry; apply Nat.mul_1_l|].
  cbn [app]. rewrite !grid_size_cons, IH. lia.
Qed.

Lemma expand_flat_map ranges result :
  expand ranges result = flat_map (fun base => expand ranges [base]) result.
Proof.
  revert result. induction ranges as [|[name values] ranges IH]; intros result.
  - cbn [expand]. induction result as [|c result IHr]; [done|]. cbn [flat_map]. now rewrite <- IHr.
  - cbn [expand]. rewrite IH. induction result as [|c result IHr]; [done|].
    cbn [flat_map]. rewrite flat_map_app, IHr, app_nil_r. f_equal. symmetry. apply IH.
Qed.

Lemma expand_cons name values ranges base :
  expand ((name, values) :: ranges) [base] =
  flat_map (fun value => expand ranges [set name value base]) values.
Proof.
  cbn [expand flat_map]. rewrite app_nil_r, expand_flat_map, !flat_map_concat_map, map_map. done.
Qed.

Lemma expand_length ranges base : length (expand ranges [base]) = grid_size ranges.
Proof.
  revert base. induction ranges as [|[name values] ranges IH]; intros base; [done|].
  rewrite expand_cons. rewrite grid_size_cons.
  induction values as [|v values IHv]; [done|]. cbn [flat_map length]. rewrite length_app, IH, IHv. lia.
Qed.

(** Blocks of one size: the element at [i] is found by division. *)
Lemma flat_map_lookup {A B} (f : A -> list B) (n : nat) (l : list A) i :
  (forall x, length (f x) = n) -> (i < length l * n)%nat ->
  flat_map f l !! i = (x ← l !! (i / n)%nat; f x !! (i mod n)%nat).
Proof.
  intros Hn. revert i. induction l as [|x l IH]; intros i Hi; cbn [length] in Hi; [lia|].
  assert (n <> 0)%nat as H0 by (intros ->; lia). cbn [flat_map].
  destruct (Nat.lt_ge_cases i n) as [Hlt|Hge].
  - rewrite lookup_app_l by now rewrite Hn. rewrite Nat.div_small, Nat.mod_small by done. done.
  - rewrite lookup_app_r, Hn by now rewrite Hn. rewrite IH by lia.
    replace (i / n)%nat with (((i - n) + 1 * n) / n)%nat by (f_equal; lia).
    replace (i mod n)%nat with (((i - n) + 1 * n) mod n)%nat by (f_equal; lia).
    rewrite Nat.div_add, Nat.Div0.mod_add by done.
    replace ((i - n) / n + 1)%nat with (S ((i - n) / n)) by lia. done.
Qed.

Lemma decode_app digits digits' index combo :
  decode (digits ++ digits') index combo =
  (c <~ decode digits index combo ; decode digits' (index / grid_size digits)%nat c).
Proof.
  revert index combo. induction digits as [|[name values] digits IH]; intros index combo.
  - change (decode digits' index combo = decode digits' (index / 1)%nat combo).
    now rewrite Nat.div_1_r.
  - cbn [app decode]. destruct (values !! _) as [v|] eqn:E; [|done].
    rewrite IH. now rewrite grid_size_cons, Nat.Div0.div_div.
Qed.

Lemma grid_size_rev ranges : grid_size (rev ranges) = grid_size ranges.
Proof.
  induction ranges as [|[n v] ranges IH]; [done|]. cbn [rev].
  rewrite grid_size_app, IH, !grid_size_cons. change (grid_size []) with 1%nat. lia.
Qed.

(** Only the low part of the index matters to the low digits. *)
Lemma decode_mod digits index combo k :
  (grid_size digits <> 0)%nat ->
  decode digits (index + k * grid_size digits)%nat combo = decode digits index combo.
Proof.
  revert index combo k. induction digits as [|[name values] digits IH]; intros index combo k Hn; [done|].
  rewrite grid_size_cons in *. cbn [decode].
  assert (length values <> 0 /\ grid_size digits <> 0)%nat as [H1 H2] by nia.
  replace (index + k * (length values * grid_size digits))%nat
    with (index + (k * grid_size digits) * length values)%nat by lia.
  rewrite Nat.Div0.mod_add, Nat.div_add by done. destruct (values !! _); [|done]. now apply IH.
Qed.

Lemma decode_domain digits index combo c :
  decode digits index combo = Ok c -> forall name, name ∉ digits.*1 -> c !! name = combo !! name.
Proof.
  revert index combo. induction digits as [|[name0 values] digits IH]; intros index combo; cbn [decode].
  - intros [= <-]. done.
  - destruct (values !! _) as [v|]; [|discriminate]. intros H name Hni.
    cbn [fmap list_fmap fst] in Hni. apply not_elem_of_cons in Hni as [Hne Hni].
    rewrite (IH _ _ H) by done. unfold set. now rewrite lookup_insert_ne.
Qed.

Lemma grid_at ranges : NoDup ranges.*1 -> forall i base, (i < grid_size ranges)%nat ->
  exists c, combinationAt ranges i = Ok c /\ expand ranges [base] !! i = Some (c ∪ base).
Proof.
  unfold combinationAt. induction ranges as [|[name values] ranges IH]; intros Hnd i base Hi.
  - exists ∅. cbn in *. split; [done|]. replace i with 0%nat by lia. cbn. now rewrite (left_id_L ∅ (∪)).
  - cbn [fmap list_fmap fst] in Hnd. apply NoDup_cons in Hnd as [Hni Hnd].
    rewrite grid_size_cons in Hi.
    assert (grid_size ranges <> 0)%nat as H0 by nia.
    assert (i / grid_size ranges < length values)%nat as Hd by (apply Nat.Div0.div_lt_upper_bound; lia).
    destruct (lookup_lt_is_Some_2 _ _ Hd) as [v Hv].
    destruct (IH Hnd (i mod grid_size ranges)%nat (set name v base)) as (c & Hc & He);
      [now apply Nat.mod_upper_bound|].
    assert (decode (rev ranges) i ∅ = Ok c) as Hc'.
    { pose proof (decode_mod (rev ranges) (i mod grid_size ranges) ∅ (i / grid_size ranges)) as Hm.
      rewrite grid_size_rev in Hm. rewrite <- Hc, <- Hm by done. f_equal.
      rewrite (Nat.div_mod_eq i (grid_size ranges)) at 1. lia. }
    exists (set name v c). split.
    + cbn [rev]. rewrite decode_app, Hc', grid_size_rev. cbn [result_bind decode].
      rewrite Nat.mod_small by done. now rewrite Hv.
    + rewrite expand_cons.
      rewrite (flat_map_lookup _ (grid_size ranges)) by (done || (intros; apply expand_length)).
      rewrite Hv. cbn [mbind option_bind]. rewrite He. f_equal. unfold set.
      rewrite <- insert_union_l. symmetry. apply insert_union_r. rewrite (decode_domain _ _ _ _ Hc'); [done|].
      intros Hin. apply Hni.
      apply list_elem_of_fmap in Hin as (r & -> & Hin). apply list_elem_of_fmap_2.
      apply list_elem_of_In, in_rev. now apply list_elem_of_In.
Qed.

Lemma grid_size_pos ranges : Forall (fun r => r.2 <> []) ranges -> (0 < grid_size ranges)%nat.
Proof.
  induction 1 as [|[n v] rs H _ IH]; [cbn; lia|].
  rewrite grid_size_cons. destruct v; [done|]. cbn [length]. lia.
Qed.

Lemma combinationCount_exact ranges :
  Z.of_nat (grid_size ranges) < 2 ^ 64 ->
  Forall (fun r => r.2 <> []) ranges ->
  combinationCount ranges = Z.of_nat (grid_size ranges).
Proof.
  unfold combinationCount. intros Hlt Hne.
  enough (forall k, 0 <= k -> k * Z.of_nat (grid_size ranges) < 2 ^ 64 ->
    foldl (fun count '(_, values) => size64 (count * Z.of_nat (length values))) k ranges
    = k * Z.of_nat (grid_size ranges)) as H by (rewrite H; lia).
  clear Hlt. induction Hne as [|[name values] ranges Hv Hne IH]; intros k Hk Hlt.
  - cbn. lia.
  - rewrite grid_size_cons in *. cbn [foldl].
    pose proof (grid_size_pos ranges Hne) as Hp.
    rewrite Nat2Z.inj_mul in Hlt. unfold size64. rewrite Z.mod_small by nia.
    rewrite IH by nia. lia.
Qed.

(** Every registered name has one of its values in every combination. *)
Lemma decode_get digits : NoDup digits.*1 -> Forall (fun r => r.2 <> []) digits ->
  forall index combo, exists c, decode digits index combo = Ok c /\
    forall name values, (name, values) ∈ digits -> exists value, value ∈ values /\ c !! name = Some value.
Proof.
  intros Hnd Hne. induction Hne as [|[name0 values0] digits Hv Hne IH]; intros index combo.
  - exists combo. split; [done|]. intros name values Hin. now apply not_elem_of_nil in Hin.
  - cbn [fmap list_fmap fst] in Hnd. apply NoDup_cons in Hnd as [Hni Hnd]. cbn [snd] in Hv.
    destruct (lookup_lt_is_Some_2 values0 (index mod length values0)%nat) as [v Ev].
    { apply Nat.mod_upper_bound. now destruct values0. }
    cbn [decode]. rewrite Ev.
    destruct (IH Hnd (index / length values0)%nat (set name0 v combo)) as (c & Hc & Hget).
    exists c. split; [done|]. intros name values [[= -> ->]|Hin]%elem_of_cons; [|now apply Hget].
    exists v. split; [exact (list_elem_of_lookup_2 _ _ _ Ev)|].
    rewrite (decode_domain _ _ _ _ Hc) by done. unfold set. now rewrite lookup_insert_eq.
Qed.

Lemma combinationAt_get ranges index :
  NoDup ranges.*1 -> Forall (fun r => r.2 <> []) ranges ->
  exists c, combinationAt ranges index = Ok c /\
    forall name values, (name, values) ∈ ranges -> exists value, value ∈ values /\ c !! name = Some value.
Proof.
  intros Hnd Hne. destruct (decode_get (rev ranges)) with (index := index) (combo := (∅ : Combination))
    as (c & Hc & Hget).
  - assert (ranges.*1 ≡ₚ (rev ranges).*1) as Hp by (apply fmap_Permutation, Permutation_rev).
    now rewrite <- Hp.
  - apply Forall_forall. intros r Hr%list_elem_of_In%in_rev%list_elem_of_In.
    rewrite Forall_forall in Hne. now apply Hne.
  - exists c. split; [done|]. intros name values Hin. apply Hget.
    apply list_elem_of_In. apply -> in_rev. now apply list_elem_of_In.
Qed.

(** Integer parameters are read back exactly. *)
Definition ints (values : list Z) : list double := map dbl_of_Z values.

Lemma getInt_exact c name z :
  in_i32 z -> c !! name = Some (dbl_of_Z z) -> getInt name c = Ok z.
Proof.
  intros Hz E. unfold getInt, getValue. rewrite E. cbn [result_bind].
  rewrite dbl_llround_of_Z by ilia. now rewrite i32_id.
Qed.

(** * Clean symbol groups *)

Definition comma : Ascii.ascii := Ascii.ascii_of_nat 44.
Definition no_comma (l : list Ascii.ascii) : Prop := Forall (fun c => is_comma c = false) l.

Lemma fields_token t l : no_comma t -> fields (t ++ comma :: l) = t :: fields l.
Proof. induction 1 as [|c t Hc Ht IH]; [done|]. cbn [app fields]. now rewrite Hc, IH. Qed.

Lemma fields_last t : no_comma t -> fields t = [t].
Proof. induction 1 as [|c t Hc Ht IH]; [done|]. cbn [fields]. now rewrite Hc, IH. Qed.

Lemma fields_no_comma l : Forall no_comma (fields l).
Proof.
  induction l as [|c l IH]; cbn [fields]; [repeat constructor|].
  destruct (is_comma c) eqn:E; [constructor; [constructor|done]|].
  destruct IH as [|f fs Hf Hfs]; repeat constructor; done.
Qed.

Definition starts_clean (l : list Ascii.ascii) : Prop :=
  match l with [] => True | c :: _ => is_blank c = false end.

Lemma trim_front_clean l : starts_clean (trim_front l).
Proof. induction l as [|c l IH]; [done|]. cbn. now destruct (is_blank c) eqn:E. Qed.

Lemma trim_front_id l : starts_clean l -> trim_front l = l.
Proof. destruct l as [|c l]; [done|]. cbn. now intros ->. Qed.

Lemma trim_front_suffix l : exists p, l = p ++ trim_front l.
Proof.
  induction l as [|c l [p Hp]]; [now exists []|]. cbn. destruct (is_blank c); [|now exists []].
  exists (c :: p). cbn. now rewrite <- Hp.
Qed.

Lemma trim_idem l : trim (trim l) = trim l.
Proof.
  unfold trim. set (m := trim_front l).
  assert (starts_clean (rev (trim_front (rev m)))) as Hs.
  { destruct (trim_front_suffix (rev m)) as [p Hp].
    pose proof (trim_front_clean l : starts_clean m) as Hm.
    rewrite <- (rev_involutive m), Hp, rev_app_distr in Hm.
    now destruct (rev (trim_front (rev m))). }
  rewrite (trim_front_id _ Hs), rev_involutive. f_equal. apply trim_front_id, trim_front_clean.
Qed.

Lemma trim_no_comma l : no_comma l -> no_comma (trim l).
Proof.
  intros H. unfold trim. destruct (trim_front_suffix l) as [p Hp]. rewrite Hp in H.
  apply Forall_app in H as [_ H]. destruct (trim_front_suffix (rev (trim_front l))) as [q Hq].
  apply Forall_rev in H. rewrite Hq in H. apply Forall_app in H as [_ H]. now apply Forall_rev.
Qed.

Definition clean_token (t : list Ascii.ascii) : Prop := t <> [] /\ no_comma t /\ trim t = t.

Lemma split_clean l : Forall clean_token (split_chars l).
Proof.
  unfold split_chars. pose proof (fields_no_comma l) as Hf.
  induction Hf as [|f fs Hf _ IH]; [constructor|]. cbn [map List.filter].
  case_bool_decide as E; cbn [negb]; [done|]. constructor; [|done].
  split; [done|]. split; [now apply trim_no_comma|apply trim_idem].
Qed.

(** A clean list of tokens after its first one. *)
Definition joined (t : list Ascii.ascii) (ts : list (list Ascii.ascii)) : list Ascii.ascii :=
  t ++ flat_map (cons comma) ts.

Lemma fields_joined t ts : no_comma t -> Forall no_comma ts -> fields (joined t ts) = t :: ts.
Proof.
  unfold joined. intros Ht Hts. revert t Ht.
  induction Hts as [|u us Hu Hus IH]; intros t Ht; cbn [flat_map].
  - rewrite app_nil_r. now apply fields_last.
  - cbn [app]. rewrite fields_token by done. f_equal. now apply IH.
Qed.

Lemma chars_app a b : chars (a +:+ b) = chars a ++ chars b.
Proof. unfold chars. induction a as [|c a IH]; [done|]. simpl. now rewrite <- IH. Qed.

Lemma append_joined t ts us :
  t <> [] -> foldl append_symbol (text (joined t ts)) (map text us) = text (joined t (ts ++ us)).
Proof.
  intros Ht. revert ts. induction us as [|u us IH]; intros ts; [now rewrite app_nil_r|].
  cbn [map foldl].
  assert (append_symbol (text (joined t ts)) (text u) = text (joined t (ts ++ [u]))) as ->.
  { unfold append_symbol. destruct (String.eqb_spec (text (joined t ts)) "") as [E|E].
    - apply (f_equal chars) in E. rewrite chars_text in E. unfold joined in E. now destruct t.
    - rewrite <- (text_chars (_ +:+ _)), !chars_app, !chars_text. f_equal. unfold joined.
      rewrite flat_map_app, <- !app_assoc. cbn [flat_map]. now rewrite app_nil_r. }
  rewrite IH, <- app_assoc. done.
Qed.

Lemma cleanSymbols_joined group :
  chars (cleanSymbols group) =
  match split_chars (chars group) with [] => [] | t :: ts => joined t ts end.
Proof.
  unfold cleanSymbols, splitSymbols. destruct (split_clean (chars group)) as [|t ts (Ht & _ & _) _]; [done|].
  cbn [map foldl]. unfold append_symbol at 2. cbn [String.eqb].
  replace (text t) with (text (joined t [])) by (unfold joined; cbn; now rewrite app_nil_r).
  now rewrite append_joined, chars_text.
Qed.

(** The run side splits a queued group on commas without trimming: it finds
    exactly the symbols the sweep meant, and cleaning again changes nothing. *)
Lemma cleanSymbols_normal group :
  (splitSymbols group <> [] ->
   map text (fields (chars (cleanSymbols group))) = splitSymbols group) /\
  splitSymbols (cleanSymbols group) = splitSymbols group /\
  cleanSymbols (cleanSymbols group) = cleanSymbols group.
Proof.
  assert (forall t ts, clean_token t -> Forall clean_token ts -> fields (joined t ts) = t :: ts) as Hf.
  { intros t ts (_ & Ht & _) Hts. apply fields_joined; [done|].
    eapply Forall_impl; [exact Hts|]. now intros u (_ & Hu & _). }
  assert (splitSymbols (cleanSymbols group) = splitSymbols group) as Hs.
  { unfold splitSymbols. rewrite cleanSymbols_joined. pose proof (split_clean (chars group)) as Hc.
    destruct (split_chars (chars group)) as [|t ts]; [done|]. unfold split_chars.
    rewrite Hf by now inversion Hc. f_equal. generalize dependent (t :: ts). clear.
    induction l as [|u us IH]; intros Hc; [done|]. inversion Hc as [|? ? (Hu & _ & Ht) Hus]; subst.
    cbn [map List.filter]. rewrite Ht. case_bool_decide; [done|]. cbn [negb]. now rewrite IH. }
  split_and!; [|exact Hs|unfold cleanSymbols at 1 3; now rewrite Hs].
  intros Hne. rewrite cleanSymbols_joined. unfold splitSymbols in *.
  pose proof (split_clean (chars group)) as Hc. destruct (split_chars (chars group)) as [|t ts]; [done|].
  now rewrite Hf by now inversion Hc.
Qed.

(** * Properties *)

(** The lazy decoder and the eager expansion of a grid agree. With distinct
    parameter names and no empty range, the announced count is the number of
    combinations the eager expansion lists (below [2^64]), and the combination
    decoded at any index below it is the one listed there. *)
Theorem combinationAt_mirrors (ranges : list (string * list double)) :
  NoDup ranges.*1 -> Forall (fun r => r.2 <> []) ranges ->
  Z.of_nat (length (generateAllCombinations ranges)) < 2 ^ 64 ->
  combinationCount ranges = Z.of_nat (length (generateAllCombinations ranges)) /\
  forall index, Z.of_nat index < combinationCount ranges ->
    exists c, combinationAt ranges index = Ok c /\ generateAllCombinations ranges !! index = Some c.
Proof.
  unfold generateAllCombinations. rewrite expand_length. intros Hnd Hne Hlt.
  pose proof (combinationCount_exact ranges Hlt Hne) as Hc. split; [done|].
  intros index Hi. destruct (grid_at ranges Hnd index ∅) as (c & Hat & He); [lia|].
  exists c. now rewrite (right_id_L ∅ (∪)) in He.
Qed.

Definition demo_ranges : list (string * list double) :=
  [("STOP", ints [1; 2]); ("LIMIT", ints [3; 5; 7])]%string.

Lemma combinationAt_mirrors_witness :
  combinationCount demo_ranges = 6 /\
  exists c, combinationAt demo_ranges 4 = Ok c /\ generateAllCombinations demo_ranges !! 4%nat = Some c.
Proof.
  destruct (combinationAt_mirrors demo_ranges) as [Hc Hat].
  - apply (bool_decide_unpack _). vm_compute. exact I.
  - repeat constructor; discriminate.
  - vm_compute. reflexivity.
  - split; [rewrite Hc; vm_compute; reflexivity|]. apply (Hat 4%nat). vm_compute. reflexivity.
Defined.

(** With a name registered twice the two expansions differ: the eager one keeps
    the last value, the lazy one the first. *)
Lemma duplicate_names_differ :
  let ranges := [("A", ints [1]); ("A", ints [2])]%string in
  (c <~ combinationAt ranges 0 ; getInt "A" c) = Ok 1 /\
  getInt "A" <$> generateAllCombinations ranges !! 0%nat = Some (Ok 2).
Proof. vm_compute. auto. Qed.

(** The stepping range over integers that the shipped sweep uses. *)
Example linear_3_2_9 :
  generateValues 10 (LinearRange (dbl_of_Z 3) (dbl_of_Z 2) (dbl_of_Z 9)) = Some (ints [3; 5; 7; 9]).
Proof. vm_compute. reflexivity. Qed.

(** Too small a step never reaches the end: the loop does not terminate. *)
Lemma tiny_step_diverges fuel :
  generateValues fuel (LinearRange (dbl_of_Z (2 ^ 52)) (dbl_decimal 1 9) (dbl_of_Z (2 ^ 53))) = None.
Proof.
  unfold generateValues.
  assert (dbl_leb (dbl_decimal 1 9) dbl_zero = false) as -> by (vm_compute; reflexivity).
  induction fuel as [|fuel IH]; cbn [linear_values].
  - assert (dbl_leb (dbl_of_Z (2 ^ 52)) (dbl_add (dbl_of_Z (2 ^ 53)) kEpsilon) = true) as ->
      by (vm_compute; reflexivity). done.
  - assert (dbl_leb (dbl_of_Z (2 ^ 52)) (dbl_add (dbl_of_Z (2 ^ 53)) kEpsilon) = true) as ->
      by (vm_compute; reflexivity).
    assert (dbl_add (dbl_of_Z (2 ^ 52)) (dbl_decimal 1 9) = dbl_of_Z (2 ^ 52)) as ->
      by (vm_compute; reflexivity).
    now rewrite IH.
Qed.
