(* ===== verification/SweepConfigs.v ===== *)
(** load/config/: the parameter grid of each strategy and the map from one of its
    combinations to a strategy's configuration, the experiment grid of
    experiments/config/dipRecovery/, and the choice loadCommand makes between
    them. The fresh UUID (a library call) is an argument of the maps. *)
From Stdlib Require Import ZArith Lia SpecFloat.
From stdpp Require Import base gmap list strings.
From S2P Require Import Prelude Json SymbolScale Double Config ChainMatcher Sweep.
Open Scope Z_scope.
Open Scope string_scope.

(** * Grids *)

Definition kSymbolGroupsOverride : list string :=
  ["AUDUSD"; "EURUSD"; "GBRIDXGBP"; "GBPUSD"; "NZDUSD"; "USDJPY"; "GBPJPY"; "EURJPY"; "USDCAD";
   "FRAIDXEUR"; "EURGBP"; "USA500IDXUSD"; "AUSIDXAUD"; "USDCHF"; "XAUUSD"; "XAGUSD";
   "USATECHIDXUSD"; "EURCHF"; "DEUIDXEUR"; "USA30IDXUSD"; "LIGHTCMDUSD"; "JPNIDXJPY";
   "BRENTCMDUSD"; "AUDNZD"; "EURAUD"; "HKGIDXHKD"; "COPPERCMDUSD"; "USDSEK"; "EURNOK"]%string.

Definition buildRandomStrategySweep : ParameterGenerator :=
  let generator := setSymbolGroups kSymbolGroupsOverride emptyGenerator in
  let generator := addList "STOP_DISTANCE_IN_ATR" (ints [1; 2]) generator in
  let generator := addRange "LIMIT_DISTANCE_IN_ATR" (dbl_of_Z 3) (dbl_of_Z 2) (dbl_of_Z 9) generator in
  generator.

Definition kOhlcBreakoutSymbolGroupsOverride : list string :=
  ["AUDUSD"; "EURUSD"; "GBRIDXGBP"; "GBPUSD"; "USDJPY"; "GBPJPY"; "EURJPY"; "USDCAD"; "FRAIDXEUR";
   "USA500IDXUSD"; "AUSIDXAUD"; "XAUUSD"; "XAGUSD"; "USATECHIDXUSD"; "DEUIDXEUR"; "USA30IDXUSD";
   "LIGHTCMDUSD"; "JPNIDXJPY"; "BRENTCMDUSD"; "EURAUD"; "HKGIDXHKD"; "USDSEK"]%string.

Definition buildOhlcBreakoutStrategySweep : ParameterGenerator :=
  let generator := setSymbolGroups kOhlcBreakoutSymbolGroupsOverride emptyGenerator in
  let generator := addList "BREAKOUT_OHLC_MINUTES" (ints [5; 10; 15; 30; 50]) generator in
  let generator := addList "BREAKOUT_OHLC_COUNT" (ints [5; 10; 20; 35; 50]) generator in
  let generator := addList "TREND_OHLC_MINUTES" (ints [40; 80; 120]) generator in
  let generator := addList "TREND_OHLC_COUNT" (ints [20; 60; 120]) generator in
  let generator := addList "BUFFER_PIPS" (ints [0; 6]) generator in
  let generator := addList "MAX_TRADE_DURATION_MINUTES" (ints [60; 120; 240]) generator in
  let generator := addList "STOP_DISTANCE_IN_ATR" (ints [2; 3]) generator in
  let generator := addList "LIMIT_DISTANCE_IN_ATR" (ints [2; 4; 6]) generator in
  generator.

Definition kFvgSymbolGroupsOverride : list string :=
  ["AUDUSD"; "EURUSD"; "GBRIDXGBP"; "GBPUSD"; "USDJPY"; "GBPJPY"; "EURJPY"; "USDCAD"; "FRAIDXEUR";
   "USA500IDXUSD"; "AUSIDXAUD"; "XAUUSD"; "XAGUSD"; "USATECHIDXUSD"; "DEUIDXEUR"; "USA30IDXUSD";
   "LIGHTCMDUSD"; "JPNIDXJPY"; "BRENTCMDUSD"; "EURAUD"; "HKGIDXHKD"; "USDSEK"]%string.

Definition buildFvgStrategySweep : ParameterGenerator :=
  let generator := setSymbolGroups kFvgSymbolGroupsOverride emptyGenerator in
  let generator := addList "FVG_OHLC_MINUTES" (ints [15; 30]) generator in
  let generator := addList "HTF_OHLC_MINUTES" (ints [120; 240; 480]) generator in
  let generator := addList "LOOKBACK_BARS" (ints [10; 30]) generator in
  let generator := addList "MIN_GAP_PIPS" (ints [5; 10; 20; 35; 50]) generator in
  let generator := addList "HTF_SMA_PERIOD" (ints [50; 100]) generator in
  let generator := addList "MIN_GAP_AGE_BARS" (ints [0; 2; 5]) generator in
  let generator := addList "MAX_TRADE_DURATION_MINUTES" (ints [30; 60; 120]) generator in
  let generator := addList "STOP_DISTANCE_IN_ATR" (ints [1; 2]) generator in
  let generator := addList "LIMIT_DISTANCE_IN_ATR" (ints [3; 5; 7]) generator in
  generator.

Definition kKeltnerFadeSymbolGroupsOverride : list string :=
  ["EURGBP"; "EURCHF"; "AUDNZD"; "USDCHF"; "EURNOK"; "USDSEK"; "EURUSD"]%string.

Definition buildKeltnerFadeStrategySweep : ParameterGenerator :=
  let generator := setSymbolGroups kKeltnerFadeSymbolGroupsOverride emptyGenerator in
  let generator := addList "OHLC_MINUTES" (ints [5; 15; 30]) generator in
  let generator := addList "BAND_SMA_PERIOD" (ints [20; 50]) generator in
  let generator := addList "BAND_ATR_MULT_TENTHS" (ints [15; 20; 25; 30; 40]) generator in
  let generator := addList "MAX_TRADE_DURATION_MINUTES" (ints [30; 60; 120]) generator in
  let generator := addList "STOP_DISTANCE_IN_ATR" (ints [2; 3]) generator in
  let generator := addList "LIMIT_DISTANCE_IN_ATR" (ints [1; 2; 3]) generator in
  generator.

Definition kSessionRangeBreakoutSymbolGroupsOverride : list string :=
  ["DEUIDXEUR"; "FRAIDXEUR"; "GBRIDXGBP"]%string.

Definition buildSessionRangeBreakoutStrategySweep : ParameterGenerator :=
  let generator := setSymbolGroups kSessionRangeBreakoutSymbolGroupsOverride emptyGenerator in
  let generator := addList "OHLC_MINUTES" (ints [5; 15; 30; 45]) generator in
  let generator := addList "BUFFER_PIPS" (ints [0; 2; 4]) generator in
  let generator := addList "ENTRY_WINDOW_MINUTES" (ints [20; 30; 40; 60]) generator in
  let generator := addList "MAX_TRADE_DURATION_MINUTES" (ints [60; 120; 240]) generator in
  let generator := addList "STOP_DISTANCE_IN_ATR" (ints [1; 2]) generator in
  let generator := addList "LIMIT_DISTANCE_IN_ATR" (ints [3; 5; 7]) generator in
  generator.

Definition kSqueezeBreakoutSymbolGroupsOverride : list string :=
  ["AUDUSD"; "EURUSD"; "GBRIDXGBP"; "GBPUSD"; "USDJPY"; "GBPJPY"; "EURJPY"; "USDCAD"; "FRAIDXEUR";
   "USA500IDXUSD"; "AUSIDXAUD"; "XAUUSD"; "XAGUSD"; "USATECHIDXUSD"; "DEUIDXEUR"; "USA30IDXUSD";
   "LIGHTCMDUSD"; "JPNIDXJPY"; "BRENTCMDUSD"; "EURAUD"; "HKGIDXHKD"; "USDSEK"]%string.

Definition buildSqueezeBreakoutStrategySweep : ParameterGenerator :=
  let generator := setSymbolGroups kSqueezeBreakoutSymbolGroupsOverride emptyGenerator in
  let generator := addList "OHLC_MINUTES" (ints [15; 30; 60]) generator in
  let generator := addList "NR_LOOKBACK" (ints [0; 7]) generator in
  let generator := addList "VALID_BARS" (ints [1; 3; 5]) generator in
  let generator := addList "BUFFER_PIPS" (ints [0; 2]) generator in
  let generator := addList "MAX_TRADE_DURATION_MINUTES" (ints [30; 60; 120]) generator in
  let generator := addList "TREND_OHLC_MINUTES" (ints [60; 120]) generator in
  let generator := addList "TREND_OHLC_COUNT" (ints [40; 80]) generator in
  let generator := addList "STOP_DISTANCE_IN_ATR" (ints [1; 2]) generator in
  let generator := addList "LIMIT_DISTANCE_IN_ATR" (ints [3; 5; 7]) generator in
  generator.

Definition kNyOpenRangeBreakoutSymbolGroupsOverride : list string :=
  ["USA500IDXUSD"; "USATECHIDXUSD"; "XAUUSD"]%string.

Definition buildNyOpenRangeBreakoutStrategySweep : ParameterGenerator :=
  let generator := setSymbolGroups kNyOpenRangeBreakoutSymbolGroupsOverride emptyGenerator in
  let generator := addList "OHLC_MINUTES" (ints [5; 15]) generator in
  let generator := addList "RANGE_HOURS" (ints [4; 8; 13]) generator in
  let generator := addList "BUFFER_PIPS" (ints [0; 2]) generator in
  let generator := addList "ENTRY_WINDOW_MINUTES" (ints [30; 60]) generator in
  let generator := addList "MAX_TRADE_DURATION_MINUTES" (ints [120; 240]) generator in
  let generator := addList "STOP_DISTANCE_IN_ATR" (ints [1]) generator in
  let generator := addList "LIMIT_DISTANCE_IN_ATR" (ints [3; 5]) generator in
  generator.

Definition kLiquiditySweepReversalSymbolGroupsOverride : list string :=
  ["AUDUSD"; "EURUSD"; "GBRIDXGBP"; "GBPUSD"; "USDJPY"; "GBPJPY"; "EURJPY"; "USDCAD"; "FRAIDXEUR";
   "USA500IDXUSD"; "AUSIDXAUD"; "XAUUSD"; "XAGUSD"; "USATECHIDXUSD"; "DEUIDXEUR"; "USA30IDXUSD";
   "LIGHTCMDUSD"; "JPNIDXJPY"; "BRENTCMDUSD"; "EURAUD"; "HKGIDXHKD"; "USDSEK"]%string.

Definition buildLiquiditySweepReversalStrategySweep : ParameterGenerator :=
  let generator := setSymbolGroups kLiquiditySweepReversalSymbolGroupsOverride emptyGenerator in
  let generator := addList "OHLC_MINUTES" (ints [15; 30; 60]) generator in
  let generator := addList "PIVOT_BARS" (ints [2; 3; 5]) generator in
  let generator := addList "LOOKBACK_BARS" (ints [48; 96]) generator in
  let generator := addList "MIN_SWEEP_PIPS" (ints [0; 5; 10]) generator in
  let generator := addList "DISPLACEMENT_ATR_TENTHS" (ints [0; 3; 5; 7]) generator in
  let generator := addList "VALID_BARS" (ints [2; 4; 6; 8]) generator in
  let generator := addList "MAX_TRADE_DURATION_MINUTES" (ints [30; 60; 120]) generator in
  let generator := addList "STOP_DISTANCE_IN_ATR" (ints [2; 3]) generator in
  let generator := addList "LIMIT_DISTANCE_IN_ATR" (ints [2; 3; 4; 5]) generator in
  generator.

Definition kRangeVelocitySymbolGroupsOverride : list string :=
  ["USA500IDXUSD"; "USATECHIDXUSD"; "USA30IDXUSD"; "DEUIDXEUR"; "FRAIDXEUR"; "GBRIDXGBP";
   "JPNIDXJPY"; "AUSIDXAUD"; "HKGIDXHKD"; "XAUUSD"; "XAGUSD"]%string.

Definition buildRangeVelocityStrategySweep : ParameterGenerator :=
  let generator := setSymbolGroups kRangeVelocitySymbolGroupsOverride emptyGenerator in
  let generator := addList "RANGE_ATR_TICK_WINDOW" (ints [500; 1000; 2500; 5000; 7000]) generator in
  let generator := addList "RANGE_ATR_PERCENT" (ints [25; 40; 60]) generator in
  let generator := addList "RUN_BARS" (ints [3; 5; 8]) generator in
  let generator := addList "SPEED_LOOKBACK_BARS" (ints [10; 20; 32; 40]) generator in
  let generator := addList "SPEED_RATIO_PERCENT" (ints [80; 100]) generator in
  let generator := addList "EXIT_RUN_BARS" (ints [5; 8; 12]) generator in
  let generator := addList "MAX_TRADE_DURATION_MINUTES" (ints [60; 120; 240]) generator in
  let generator := addList "STOP_DISTANCE_IN_ATR" (ints [2; 3]) generator in
  let generator := addList "LIMIT_DISTANCE_IN_ATR" (ints [3; 5; 7; 9]) generator in
  generator.

(** * From a combination to a configuration *)

(** [TradingVariables] as every map fills them. *)
Definition tradingVariables (name : string) (combo : Combination) : result TradingVariables :=
  stop <~ getInt "STOP_DISTANCE_IN_ATR" combo ;
  limit <~ getInt "LIMIT_DISTANCE_IN_ATR" combo ;
  Ok (mkTradingVariables name stop limit 1).

Definition getInt_or (name : string) (default : Z) (combo : Combination) : result Z :=
  if has name combo then getInt name combo else Ok default.

Definition makeStrategy (uuid : string) (combo : Combination) : result StrategyConfig :=
  trading <~ tradingVariables "RandomStrategy" combo ;
  count <~ getInt_or "OHLC_COUNT" 0 combo ;
  minutes <~ getInt_or "OHLC_MINUTES" 0 combo ;
  Ok (mkStrategyConfig uuid trading [mkOHLCVariables count minutes] []
        (mkStrategyVariables (Some (mkOHLCRSIVariables 60 40)) None None None None None None None None)).

Definition makeOhlcBreakoutStrategy (uuid : string) (combo : Combination) : result StrategyConfig :=
  trading <~ tradingVariables "OhlcBreakoutStrategy" combo ;
  breakoutCount <~ getInt "BREAKOUT_OHLC_COUNT" combo ;
  breakoutMinutes <~ getInt "BREAKOUT_OHLC_MINUTES" combo ;
  trendCount <~ getInt "TREND_OHLC_COUNT" combo ;
  trendMinutes <~ getInt "TREND_OHLC_MINUTES" combo ;
  buffer <~ getInt "BUFFER_PIPS" combo ;
  duration <~ getInt "MAX_TRADE_DURATION_MINUTES" combo ;
  Ok (mkStrategyConfig uuid trading
        [mkOHLCVariables breakoutCount breakoutMinutes; mkOHLCVariables trendCount trendMinutes] []
        (mkStrategyVariables None (Some (mkOHLCBreakoutVariables buffer duration))
           None None None None None None None)).

Definition makeFvgStrategy (uuid : string) (combo : Combination) : result StrategyConfig :=
  lookbackBars <~ getInt "LOOKBACK_BARS" combo ;
  htfSmaPeriod <~ getInt "HTF_SMA_PERIOD" combo ;
  trading <~ tradingVariables "FvgStrategy" combo ;
  fvgMinutes <~ getInt "FVG_OHLC_MINUTES" combo ;
  htfMinutes <~ getInt "HTF_OHLC_MINUTES" combo ;
  gap <~ getInt "MIN_GAP_PIPS" combo ;
  age <~ getInt "MIN_GAP_AGE_BARS" combo ;
  duration <~ getInt "MAX_TRADE_DURATION_MINUTES" combo ;
  Ok (mkStrategyConfig uuid trading
        [mkOHLCVariables (lookbackBars +₃₂ 3) fvgMinutes; mkOHLCVariables (htfSmaPeriod +₃₂ 2) htfMinutes] []
        (mkStrategyVariables None None
           (Some (mkFVGStrategyVariables lookbackBars gap htfSmaPeriod age duration))
           None None None None None None)).

Definition makeKeltnerFadeStrategy (uuid : string) (combo : Combination) : result StrategyConfig :=
  bandSmaPeriod <~ getInt "BAND_SMA_PERIOD" combo ;
  trading <~ tradingVariables "KeltnerFadeStrategy" combo ;
  minutes <~ getInt "OHLC_MINUTES" combo ;
  mult <~ getInt "BAND_ATR_MULT_TENTHS" combo ;
  duration <~ getInt "MAX_TRADE_DURATION_MINUTES" combo ;
  Ok (mkStrategyConfig uuid trading [mkOHLCVariables (bandSmaPeriod +₃₂ 2) minutes] []
        (mkStrategyVariables None None None (Some (mkKeltnerFadeVariables bandSmaPeriod mult duration))
           None None None None None)).

Definition makeSessionRangeBreakoutStrategy (uuid : string) (combo : Combination) : result StrategyConfig :=
  ohlcMinutes <~ getInt "OHLC_MINUTES" combo ;
  entryWindowMinutes <~ getInt "ENTRY_WINDOW_MINUTES" combo ;
  let ohlcCount := (((480 +₃₂ entryWindowMinutes) +₃₂ ohlcMinutes) -₃₂ 1) ÷ ohlcMinutes +₃₂ 2 in
  trading <~ tradingVariables "SessionRangeBreakoutStrategy" combo ;
  buffer <~ getInt "BUFFER_PIPS" combo ;
  duration <~ getInt "MAX_TRADE_DURATION_MINUTES" combo ;
  Ok (mkStrategyConfig uuid trading [mkOHLCVariables ohlcCount ohlcMinutes] []
        (mkStrategyVariables None None None None
           (Some (mkSessionRangeBreakoutVariables buffer entryWindowMinutes duration))
           None None None None)).

Definition makeSqueezeBreakoutStrategy (uuid : string) (combo : Combination) : result StrategyConfig :=
  nrLookback <~ getInt "NR_LOOKBACK" combo ;
  validBars <~ getInt "VALID_BARS" combo ;
  trading <~ tradingVariables "SqueezeBreakoutStrategy" combo ;
  minutes <~ getInt "OHLC_MINUTES" combo ;
  trendCount <~ getInt "TREND_OHLC_COUNT" combo ;
  trendMinutes <~ getInt "TREND_OHLC_MINUTES" combo ;
  buffer <~ getInt "BUFFER_PIPS" combo ;
  duration <~ getInt "MAX_TRADE_DURATION_MINUTES" combo ;
  Ok (mkStrategyConfig uuid trading
        [mkOHLCVariables ((validBars +₃₂ Z.max 1 (nrLookback -₃₂ 1)) +₃₂ 1) minutes;
         mkOHLCVariables trendCount trendMinutes] []
        (mkStrategyVariables None None None None None
           (Some (mkSqueezeBreakoutVariables nrLookback validBars buffer duration)) None None None)).

Definition makeNyOpenRangeBreakoutStrategy (uuid : string) (combo : Combination) : result StrategyConfig :=
  ohlcMinutes <~ getInt "OHLC_MINUTES" combo ;
  rangeHours <~ getInt "RANGE_HOURS" combo ;
  entryWindowMinutes <~ getInt "ENTRY_WINDOW_MINUTES" combo ;
  let ohlcCount :=
    ((((rangeHours *₃₂ 60) +₃₂ entryWindowMinutes) +₃₂ ohlcMinutes) -₃₂ 1) ÷ ohlcMinutes +₃₂ 2 in
  trading <~ tradingVariables "NyOpenRangeBreakoutStrategy" combo ;
  buffer <~ getInt "BUFFER_PIPS" combo ;
  duration <~ getInt "MAX_TRADE_DURATION_MINUTES" combo ;
  Ok (mkStrategyConfig uuid trading [mkOHLCVariables ohlcCount ohlcMinutes] []
        (mkStrategyVariables None None None None None None
           (Some (mkNyOpenRangeBreakoutVariables rangeHours buffer entryWindowMinutes duration)) None None)).

Definition makeLiquiditySweepReversalStrategy (uuid : string) (combo : Combination) : result StrategyConfig :=
  pivotBars <~ getInt "PIVOT_BARS" combo ;
  lookbackBars <~ getInt "LOOKBACK_BARS" combo ;
  validBars <~ getInt "VALID_BARS" combo ;
  let ohlcCount := Z.max ((lookbackBars +₃₂ pivotBars) +₃₂ 1) (validBars +₃₂ 11) in
  trading <~ tradingVariables "LiquiditySweepReversalStrategy" combo ;
  minutes <~ getInt "OHLC_MINUTES" combo ;
  sweep <~ getInt "MIN_SWEEP_PIPS" combo ;
  displacement <~ getInt "DISPLACEMENT_ATR_TENTHS" combo ;
  duration <~ getInt "MAX_TRADE_DURATION_MINUTES" combo ;
  Ok (mkStrategyConfig uuid trading [mkOHLCVariables ohlcCount minutes] []
        (mkStrategyVariables None None None None None None None
           (Some (mkLiquiditySweepReversalVariables pivotBars lookbackBars sweep displacement
                    validBars duration)) None)).

Definition makeRangeVelocityStrategy (uuid : string) (combo : Combination) : result StrategyConfig :=
  runBars <~ getInt "RUN_BARS" combo ;
  speedLookbackBars <~ getInt "SPEED_LOOKBACK_BARS" combo ;
  exitRunBars <~ getInt "EXIT_RUN_BARS" combo ;
  let rangeCount := Z.max (runBars +₃₂ speedLookbackBars) exitRunBars +₃₂ 2 in
  trading <~ tradingVariables "RangeVelocityStrategy" combo ;
  tickWindow <~ getInt "RANGE_ATR_TICK_WINDOW" combo ;
  percent <~ getInt "RANGE_ATR_PERCENT" combo ;
  ratio <~ getInt "SPEED_RATIO_PERCENT" combo ;
  duration <~ getInt "MAX_TRADE_DURATION_MINUTES" combo ;
  Ok (mkStrategyConfig uuid trading [] [mkRangeBarVariables tickWindow percent rangeCount]
        (mkStrategyVariables None None None None None None None None
           (Some (mkRangeVelocityVariables runBars speedLookbackBars ratio exitRunBars duration)))).

(** * The selection *)

Definition StrategyFactory : Type := string -> Combination -> result StrategyConfig.

Definition selectSweep (sweepName : string) : option (ParameterGenerator * StrategyFactory) :=
  if String.eqb sweepName "random" then Some (buildRandomStrategySweep, makeStrategy)
  else if String.eqb sweepName "ohlcBreakout" then Some (buildOhlcBreakoutStrategySweep, makeOhlcBreakoutStrategy)
  else if String.eqb sweepName "fvg" then Some (buildFvgStrategySweep, makeFvgStrategy)
  else if String.eqb sweepName "keltnerFade" then Some (buildKeltnerFadeStrategySweep, makeKeltnerFadeStrategy)
  else if String.eqb sweepName "sessionRangeBreakout" then
    Some (buildSessionRangeBreakoutStrategySweep, makeSessionRangeBreakoutStrategy)
  else if String.eqb sweepName "squeezeBreakout" then
    Some (buildSqueezeBreakoutStrategySweep, makeSqueezeBreakoutStrategy)
  else if String.eqb sweepName "nyOpenRangeBreakout" then
    Some (buildNyOpenRangeBreakoutStrategySweep, makeNyOpenRangeBreakoutStrategy)
  else if String.eqb sweepName "liquiditySweepReversal" then
    Some (buildLiquiditySweepReversalStrategySweep, makeLiquiditySweepReversalStrategy)
  else if String.eqb sweepName "rangeVelocity" then
    Some (buildRangeVelocityStrategySweep, makeRangeVelocityStrategy)
  else None.

(** * The experiment sweep *)

Record ExperimentSweepSpec : Type := mkExperimentSweepSpec {
  generator : ParameterGenerator;
  factory : string -> Combination -> result ExperimentConfig;
  lastMonths : Z;
  offsetMonths : Z;
}.

Definition makeDipRecoveryExperiment (uuid : string) (combo : Combination) : result ExperimentConfig :=
  drop <~ getValue "LEG1_DROP_PERCENT" combo ;
  window1 <~ getInt "LEG1_WINDOW_MINUTES" combo ;
  rise <~ getValue "LEG2_RISE_PERCENT" combo ;
  window2 <~ getInt "LEG2_WINDOW_MINUTES" combo ;
  Ok (mkExperimentConfig uuid "dipRecovery"
        [mkActivity DirectionalMove (SFopp drop) (window1 *₃₂ 60) 0 0 dbl_zero;
         mkActivity DirectionalMove rise (window2 *₃₂ 60) 0 0 dbl_zero]).

Definition buildDipRecoverySweep : ExperimentSweepSpec :=
  let generator := addList "LEG1_DROP_PERCENT"
    [dbl_decimal 25 2; dbl_decimal 5 1; dbl_decimal 10 1; dbl_decimal 20 1] emptyGenerator in
  let generator := addList "LEG1_WINDOW_MINUTES" (ints [5; 10; 30; 60]) generator in
  let generator := addList "LEG2_RISE_PERCENT"
    [dbl_decimal 1 1; dbl_decimal 25 2; dbl_decimal 5 1; dbl_decimal 10 1] generator in
  let generator := addList "LEG2_WINDOW_MINUTES" (ints [5; 10; 30; 60]) generator in
  mkExperimentSweepSpec generator makeDipRecoveryExperiment 9 0.

Definition selectExperimentSweep (sweepName : string) : option ExperimentSweepSpec :=
  if String.eqb sweepName "dipRecovery" then Some buildDipRecoverySweep else None.

(** The symbols a sweep without an override runs against. *)
Definition kSymbolGroups : list string :=
  ["AUDUSD"; "EURUSD"; "GBRIDXGBP"; "GBPUSD"; "NZDUSD"; "USDJPY"; "GBPJPY"; "EURJPY"; "USDCAD";
   "FRAIDXEUR"; "EURGBP"; "USA500IDXUSD"; "AUSIDXAUD"; "USDCHF"; "XAUUSD"; "XAGUSD"; "USATECHIDXUSD";
   "EURCHF"; "DEUIDXEUR"; "USA30IDXUSD"; "LIGHTCMDUSD"; "JPNIDXJPY"; "BRENTCMDUSD"; "AUDNZD"; "EURAUD";
   "HKGIDXHKD"; "COPPERCMDUSD"; "USDSEK"; "EURNOK"].

Definition resolveSymbolGroups (sweepGroups : list string) : list string :=
  if negb (bool_decide (sweepGroups = [])) then sweepGroups else kSymbolGroups.

(** The compile-time checks beside the symbol lists. *)
Lemma default_groups_known : allSymbolsKnown kSymbolGroups = true.
Proof. vm_compute. reflexivity. Qed.

Lemma override_groups_known :
  forallb allSymbolsKnown
    [kSymbolGroupsOverride; kOhlcBreakoutSymbolGroupsOverride; kFvgSymbolGroupsOverride;
     kKeltnerFadeSymbolGroupsOverride; kSessionRangeBreakoutSymbolGroupsOverride;
     kSqueezeBreakoutSymbolGroupsOverride; kNyOpenRangeBreakoutSymbolGroupsOverride;
     kLiquiditySweepReversalSymbolGroupsOverride; kRangeVelocitySymbolGroupsOverride] = true.
Proof. vm_compute. reflexivity. Qed.
