(* ===== verification/LoadCommand.v ===== *)
(** load/loadCommand.cppm and load/config/runConfigurationBuilder.cppm: seeding a
    sweep. A grid is decoded combination by combination into keyed strategy
    payloads, streamed onto the strategy list of a run, and the run descriptor is
    pushed after them; one run per symbol group. *)
From Stdlib Require Import ZArith Lia SpecFloat.
From stdpp Require Import base gmap sets list strings.
From S2P Require Import Prelude Json JsonDump StdText Double Config Base64 ConfigJson Redis RedisStore Queue RedisLoader Sweep SweepConfigs.
From S2P Require Import Env IsoTime Elastic.
From S2P Require ChainMatcher ExperimentJson StrategyFactory.
Open Scope string_scope.
Open Scope Z_scope.

(** * Every seeded strategy runs *)

Section Seeds.
Variable ranges : list (string * list double).
Variable c : Combination.
Hypothesis Hget : forall name values, (name, values) ∈ ranges ->
  exists value, value ∈ values /\ c !! name = Some value.

Lemma seeded_int name zs :
  (name, ints zs) ∈ ranges -> forallb (fun z => (INT32_MIN <=? z) && (z <=? INT32_MAX)) zs = true ->
  exists z, z ∈ zs /\ getInt name c = Ok z.
Proof.
  intros Hin Hzs. destruct (Hget name (ints zs) Hin) as (v & Hv & E).
  apply list_elem_of_fmap in Hv as (z & -> & Hz). exists z. split; [done|].
  apply getInt_exact; [|done]. rewrite forallb_forall in Hzs.
  specialize (Hzs z). rewrite <- list_elem_of_In in Hzs. specialize (Hzs Hz). zbool. ilia.
Qed.
End Seeds.

Lemma list_bounds (z : Z) zs :
  z ∈ zs -> foldr Z.min (hd 0 zs) zs <= z <= foldr Z.max (hd 0 zs) zs.
Proof.
  intros Hz. generalize (hd 0 zs). intros d. induction Hz as [z l|z y l _ IH]; cbn [foldr]; lia.
Qed.

#[local] Opaque getInt.

(** What a map promises for the combinations of a grid: the configuration it
    gives keeps the identifier, can be sent, and is accepted by the factory. *)
Definition runnable (ranges : list (string * list double)) (factory : StrategyFactory) : Prop :=
  forall c, (forall name values, (name, values) ∈ ranges -> exists value, value ∈ values /\ c !! name = Some value) ->
  (forall name, name ∉ ranges.*1 -> c !! name = None) ->
  forall uuid, text_ok uuid ->
  exists config, factory uuid c = Ok config /\ UUID config = uuid /\ codec_ok config /\
    forall (G : Type) (seed : G), exists a, StrategyFactory.makeStrategy seed config = Ok a.

Ltac in_list := solve [repeat first [apply list_elem_of_here | apply list_elem_of_further]].

(** One integer per range, each among its values. *)
Ltac seed_ints Hget ranges :=
  lazymatch ranges with
  | (?name, ints ?zs) :: ?rest =>
      let z := fresh "z" in let Hz := fresh "Hz" in let E := fresh "E" in
      destruct (seeded_int _ _ Hget name zs) as (z & Hz & E); [in_list|reflexivity|];
      seed_ints Hget rest
  | _ => idtac
  end.
Ltac seed_bounds :=
  repeat match goal with
  | Hz : ?z ∈ ?zs |- _ =>
      let lo := eval vm_compute in (foldr Z.min (hd 0 zs) zs) in
      let hi := eval vm_compute in (foldr Z.max (hd 0 zs) zs) in
      apply list_bounds in Hz; change (lo <= z <= hi) in Hz
  end.
(** The values one by one. *)
Ltac seed_cases Hz :=
  apply list_elem_of_In in Hz; cbn [In] in Hz; repeat destruct Hz as [<-|Hz]; try contradiction.

Ltac sendable :=
  cbn; unfold in_i32;
  repeat match goal with
  | |- True => exact I
  | |- _ /\ _ => split
  | |- Forall _ [] => constructor
  | |- Forall _ (_ :: _) => constructor
  | |- text_ok _ => first [assumption | reflexivity]
  | |- _ => cbn; lia
  end.

(** The constructor's guards, one after the other. *)
Ltac accepted :=
  repeat match goal with
  | |- context [if ?b then Throw InvalidArgument else _] =>
      replace b with false by (symmetry; zbool; repeat split; lia); cbv iota
  end.

Ltac factory_builds :=
  intros G seed; eexists; unfold StrategyFactory.makeStrategy; cbn [TRADING_VARIABLES STRATEGY];
  repeat match goal with
  | |- context [String.eqb ?a ?b] =>
      let v := eval vm_compute in (String.eqb a b) in change (String.eqb a b) with v; cbv iota
  end.

(** Collects a map's parameters and runs it. *)
Ltac seeds_run ranges factory :=
  intros c Hget Hout uuid Hu; let r := eval unfold ranges in ranges in seed_ints Hget r;
  unfold factory, tradingVariables;
  repeat match goal with E : getInt _ c = _ |- _ => rewrite !E; clear E end; cbn [result_bind].
(** Rounding a division up. *)
Lemma ceiling_div x m :
  0 <= x -> 0 < m -> x <= (x + m - 1) ÷ m * m <= x + m - 1 /\ 0 <= (x + m - 1) ÷ m <= x.
Proof.
  intros Hx Hm. rewrite Z.quot_div_nonneg by lia.
  pose proof (Z.div_mod (x + m - 1) m ltac:(lia)). pose proof (Z.mod_pos_bound (x + m - 1) m Hm).
  assert (0 <= (x + m - 1) / m) by (apply Z.div_pos; lia). nia.
Qed.
Ltac ceiling x m :=
  let q := fresh "q" in
  pose proof (ceiling_div x m ltac:(lia) ltac:(lia));
  set (q := (x + m - 1) ÷ m) in *; clearbody q.
Ltac seeded maker :=
  eexists; split; [reflexivity|]; split; [reflexivity|]; unwrap; split;
  [sendable|factory_builds; unfold maker, OpenRange.kLatestLondonOpen, LiquiditySweep.kAtrPeriod, Models.hours, Models.minutes; cbn; unwrap; accepted; reflexivity].

Definition ohlcBreakout_ranges : list (string * list double) :=
  [("BREAKOUT_OHLC_MINUTES", ints [5; 10; 15; 30; 50]);
   ("BREAKOUT_OHLC_COUNT", ints [5; 10; 20; 35; 50]); ("TREND_OHLC_MINUTES", ints [40; 80; 120]);
   ("TREND_OHLC_COUNT", ints [20; 60; 120]); ("BUFFER_PIPS", ints [0; 6]);
   ("MAX_TRADE_DURATION_MINUTES", ints [60; 120; 240]); ("STOP_DISTANCE_IN_ATR", ints [2; 3]);
   ("LIMIT_DISTANCE_IN_ATR", ints [2; 4; 6])].

Lemma ohlcBreakout_runnable : runnable ohlcBreakout_ranges makeOhlcBreakoutStrategy.
Proof.
  seeds_run ohlcBreakout_ranges makeOhlcBreakoutStrategy.
  seed_bounds. seeded OhlcBreakout.makeOhlcBreakout.
Qed.

Definition fvg_ranges : list (string * list double) :=
  [("FVG_OHLC_MINUTES", ints [15; 30]); ("HTF_OHLC_MINUTES", ints [120; 240; 480]);
   ("LOOKBACK_BARS", ints [10; 30]); ("MIN_GAP_PIPS", ints [5; 10; 20; 35; 50]);
   ("HTF_SMA_PERIOD", ints [50; 100]); ("MIN_GAP_AGE_BARS", ints [0; 2; 5]);
   ("MAX_TRADE_DURATION_MINUTES", ints [30; 60; 120]); ("STOP_DISTANCE_IN_ATR", ints [1; 2]);
   ("LIMIT_DISTANCE_IN_ATR", ints [3; 5; 7])].

Lemma fvg_runnable : runnable fvg_ranges makeFvgStrategy.
Proof.
  seeds_run fvg_ranges makeFvgStrategy.
  seed_bounds. seeded Fvg.makeFvg.
Qed.

Definition keltner_ranges : list (string * list double) :=
  [("OHLC_MINUTES", ints [5; 15; 30]); ("BAND_SMA_PERIOD", ints [20; 50]);
   ("BAND_ATR_MULT_TENTHS", ints [15; 20; 25; 30; 40]);
   ("MAX_TRADE_DURATION_MINUTES", ints [30; 60; 120]); ("STOP_DISTANCE_IN_ATR", ints [2; 3]);
   ("LIMIT_DISTANCE_IN_ATR", ints [1; 2; 3])].

Lemma keltner_runnable : runnable keltner_ranges makeKeltnerFadeStrategy.
Proof.
  seeds_run keltner_ranges makeKeltnerFadeStrategy.
  seed_bounds. seeded KeltnerFade.makeKeltnerFade.
Qed.

Definition session_ranges : list (string * list double) :=
  [("OHLC_MINUTES", ints [5; 15; 30; 45]); ("BUFFER_PIPS", ints [0; 2; 4]);
   ("ENTRY_WINDOW_MINUTES", ints [20; 30; 40; 60]); ("MAX_TRADE_DURATION_MINUTES", ints [60; 120; 240]);
   ("STOP_DISTANCE_IN_ATR", ints [1; 2]); ("LIMIT_DISTANCE_IN_ATR", ints [3; 5; 7])].

Lemma session_runnable : runnable session_ranges makeSessionRangeBreakoutStrategy.
Proof.
  seeds_run session_ranges makeSessionRangeBreakoutStrategy.
  seed_bounds. unwrap. ceiling (480 + z1) z. seeded OpenRange.makeSessionRange.
Qed.

Definition squeeze_ranges : list (string * list double) :=
  [("OHLC_MINUTES", ints [15; 30; 60]); ("NR_LOOKBACK", ints [0; 7]); ("VALID_BARS", ints [1; 3; 5]);
   ("BUFFER_PIPS", ints [0; 2]); ("MAX_TRADE_DURATION_MINUTES", ints [30; 60; 120]);
   ("TREND_OHLC_MINUTES", ints [60; 120]); ("TREND_OHLC_COUNT", ints [40; 80]);
   ("STOP_DISTANCE_IN_ATR", ints [1; 2]); ("LIMIT_DISTANCE_IN_ATR", ints [3; 5; 7])].

Lemma squeeze_runnable : runnable squeeze_ranges makeSqueezeBreakoutStrategy.
Proof.
  seeds_run squeeze_ranges makeSqueezeBreakoutStrategy.
  seed_cases Hz0; seed_bounds; seeded Squeeze.makeSqueeze.
Qed.

Definition nyOpen_ranges : list (string * list double) :=
  [("OHLC_MINUTES", ints [5; 15]); ("RANGE_HOURS", ints [4; 8; 13]); ("BUFFER_PIPS", ints [0; 2]);
   ("ENTRY_WINDOW_MINUTES", ints [30; 60]); ("MAX_TRADE_DURATION_MINUTES", ints [120; 240]);
   ("STOP_DISTANCE_IN_ATR", ints [1]); ("LIMIT_DISTANCE_IN_ATR", ints [3; 5])].

Lemma nyOpen_runnable : runnable nyOpen_ranges makeNyOpenRangeBreakoutStrategy.
Proof.
  seeds_run nyOpen_ranges makeNyOpenRangeBreakoutStrategy.
  seed_bounds. unwrap. ceiling (z0 * 60 + z2) z. seeded OpenRange.makeNyOpenRange.
Qed.

Definition liquidity_ranges : list (string * list double) :=
  [("OHLC_MINUTES", ints [15; 30; 60]); ("PIVOT_BARS", ints [2; 3; 5]);
   ("LOOKBACK_BARS", ints [48; 96]); ("MIN_SWEEP_PIPS", ints [0; 5; 10]);
   ("DISPLACEMENT_ATR_TENTHS", ints [0; 3; 5; 7]); ("VALID_BARS", ints [2; 4; 6; 8]);
   ("MAX_TRADE_DURATION_MINUTES", ints [30; 60; 120]); ("STOP_DISTANCE_IN_ATR", ints [2; 3]);
   ("LIMIT_DISTANCE_IN_ATR", ints [2; 3; 4; 5])].

Lemma liquidity_runnable : runnable liquidity_ranges makeLiquiditySweepReversalStrategy.
Proof.
  seeds_run liquidity_ranges makeLiquiditySweepReversalStrategy.
  seed_bounds. seeded LiquiditySweep.makeLiquiditySweep.
Qed.

Definition velocity_ranges : list (string * list double) :=
  [("RANGE_ATR_TICK_WINDOW", ints [500; 1000; 2500; 5000; 7000]);
   ("RANGE_ATR_PERCENT", ints [25; 40; 60]); ("RUN_BARS", ints [3; 5; 8]);
   ("SPEED_LOOKBACK_BARS", ints [10; 20; 32; 40]); ("SPEED_RATIO_PERCENT", ints [80; 100]);
   ("EXIT_RUN_BARS", ints [5; 8; 12]); ("MAX_TRADE_DURATION_MINUTES", ints [60; 120; 240]);
   ("STOP_DISTANCE_IN_ATR", ints [2; 3]); ("LIMIT_DISTANCE_IN_ATR", ints [3; 5; 7; 9])].

Lemma velocity_runnable : runnable velocity_ranges makeRangeVelocityStrategy.
Proof.
  seeds_run velocity_ranges makeRangeVelocityStrategy.
  seed_bounds. seeded RangeVelocity.makeRangeVelocity.
Qed.

Definition random_ranges : list (string * list double) :=
  [("STOP_DISTANCE_IN_ATR", ints [1; 2]); ("LIMIT_DISTANCE_IN_ATR", ints [3; 5; 7; 9])].

(** The random sweep registers no bar parameters: they default to 0. *)
Lemma random_runnable : runnable random_ranges SweepConfigs.makeStrategy.
Proof.
  seeds_run random_ranges SweepConfigs.makeStrategy. seed_bounds.
  assert (forall name, name ∉ random_ranges.*1 -> getInt_or name 0 c = Ok 0) as Hor.
  { intros name Hn. unfold getInt_or, has. now rewrite (Hout name Hn). }
  rewrite !Hor by (intros H; apply (bool_decide_pack _) in H; vm_compute in H; done).
  cbn [result_bind]. eexists. split; [reflexivity|]. split; [reflexivity|]. split; [sendable|].
  intros G seed. eexists. reflexivity.
Qed.

(** ** Each sweep by name *)

(** The grid of a sweep with the combinations it announces. *)
Definition sweep_grid (sweepName : string) : list (string * list double) :=
  match selectSweep sweepName with
  | Some (g, _) => match evaluated 10 g with Some ranges => ranges | None => [] end
  | None => []
  end.

Lemma runnable_at ranges factory index uuid :
  runnable ranges factory -> NoDup ranges.*1 -> Forall (fun r => r.2 <> []) ranges -> text_ok uuid ->
  exists combo config, combinationAt ranges index = Ok combo /\ factory uuid combo = Ok config /\
    UUID config = uuid /\ codec_ok config /\
    forall (G : Type) (seed : G), exists a, StrategyFactory.makeStrategy seed config = Ok a.
Proof.
  intros Hrun Hnd Hne Hu. destruct (combinationAt_get ranges index Hnd Hne) as (c & Hc & Hget).
  destruct (Hrun c Hget) with (uuid := uuid) as (config & Hf & Hid & Hok & Hb); [|done|].
  - intros name Hn. rewrite (decode_domain _ _ _ _ Hc); [apply lookup_empty|].
    intros Hin. apply Hn. apply list_elem_of_fmap in Hin as (r & -> & Hin). apply list_elem_of_fmap_2.
    apply list_elem_of_In, in_rev. now apply list_elem_of_In.
  - now exists c, config.
Qed.

(** What [load] can select: a grid of known values, runnable by its map, against
    symbols of the table. *)
Definition seedable (g : ParameterGenerator) (factory : StrategyFactory)
    (ranges : list (string * list double)) : Prop :=
  evaluated 10 g = Some ranges /\ NoDup ranges.*1 /\ Forall (fun r => r.2 <> []) ranges /\
  runnable ranges factory /\ symbolGroups_ g <> [] /\ 0 < combinationCount ranges /\
  allSymbolsKnown (symbolGroups_ g) = true.

Ltac seedable_by ranges lemma :=
  exists ranges; repeat (split; [first
    [ exact lemma | vm_compute; reflexivity | apply (bool_decide_unpack _); vm_compute; exact I
    | repeat constructor; discriminate | discriminate ]|]); vm_compute; reflexivity.

Lemma selected_seedable sweepName g factory :
  selectSweep sweepName = Some (g, factory) -> exists ranges, seedable g factory ranges.
Proof.
  unfold selectSweep, seedable.
  repeat (destruct (String.eqb sweepName _); [intros [= <- <-]|]); [..|discriminate].
  - seedable_by random_ranges random_runnable.
  - seedable_by ohlcBreakout_ranges ohlcBreakout_runnable.
  - seedable_by fvg_ranges fvg_runnable.
  - seedable_by keltner_ranges keltner_runnable.
  - seedable_by session_ranges session_runnable.
  - seedable_by squeeze_ranges squeeze_runnable.
  - seedable_by nyOpen_ranges nyOpen_runnable.
  - seedable_by liquidity_ranges liquidity_runnable.
  - seedable_by velocity_ranges velocity_runnable.
Qed.

(** Whatever [load] seeds, the workers can run. For every sweep name it
    accepts, the grid is finite and non-empty, every symbol it targets is in the
    scale table, and the strategy built from any combination of the grid, with
    any valid identifier, is serialised, encoded, decoded and parsed back as the
    same configuration, which the strategy factory then builds. *)
Theorem seeded_sweeps_run (sweepName : string) (g : ParameterGenerator) (factory : StrategyFactory) :
  selectSweep sweepName = Some (g, factory) ->
  symbolGroups_ g <> [] /\ allSymbolsKnown (symbolGroups_ g) = true /\
  exists ranges, evaluated 10 g = Some ranges /\ generateAllCombinations ranges <> [] /\
    forall index uuid, text_ok uuid ->
    exists combo config payload,
      combinationAt ranges index = Ok combo /\ factory uuid combo = Ok config /\ UUID config = uuid /\
      dump (to_json config) = Ok payload /\ parseStrategyFromBase64 (b64encode payload) = Ok config /\
      forall (G : Type) (seed : G), exists strategy,
        StrategyFactory.makeStrategy seed config = Ok strategy.
Proof.
  intros H. destruct (selected_seedable _ _ _ H) as (ranges & He & Hnd & Hne & Hrun & Hsym & _ & Hknown).
  split; [done|]. split; [done|]. exists ranges. split; [done|]. split.
  - intros Hempty. apply (f_equal length) in Hempty. unfold generateAllCombinations in Hempty.
    rewrite expand_length in Hempty. pose proof (grid_size_pos ranges Hne). cbn in Hempty. lia.
  - intros index uuid Hu.
    destruct (runnable_at ranges factory index uuid Hrun Hnd Hne Hu) as (combo & config & Hc & Hf & Hid & Hok & Hb).
    destruct (payload_round_trip config Hok) as (payload & Hd & Hp).
    exists combo, config, payload. auto 10.
Qed.

Lemma seeded_sweeps_run_witness :
  exists payload config,
    parseStrategyFromBase64 (b64encode payload) = Ok config /\ UUID config = "u-1".
Proof.
  destruct (seeded_sweeps_run "fvg" buildFvgStrategySweep makeFvgStrategy eq_refl)
    as (_ & _ & ranges & _ & _ & Hrun).
  destruct (Hrun 4711%nat "u-1" eq_refl) as (combo & config & payload & _ & _ & Hid & _ & Hp & _).
  exists payload, config. split; [exact Hp|exact Hid].
Defined.

(** * The load *)

(** The weekly label and the wall clock a load stamps into its descriptors. *)
Record BatchStamp : Type := mkBatchStamp { label : string; executionTs : string }.

Definition kChunkSize : nat := 1000.

Section Load.
Context {server : Type} {R : RedisServer server}.
Context {D : Decimal64} {T : DecimalText D} {P : Process}.

Definition currentBatchStamp (now now' : Z) : BatchStamp :=
  mkBatchStamp (currentBatchLabel now) (nowIsoUtc now').

Definition entrySlippageFromEnv : result Z :=
  match from_chars_all (getOr "ENTRY_SLIPPAGE_TENTH_PIPS" "0") with
  | Some tenthPips => if tenthPips <? 0 then Throw InvalidArgument else Ok tenthPips
  | None => Throw InvalidArgument
  end.

Definition makeRunConfiguration (runId symbols : string) (batch : BatchStamp)
    : result (RunConfiguration D) :=
  slippage <~ entrySlippageFromEnv ;
  Ok (mkRunConfiguration D runId symbols (label batch) (executionTs batch) 3 0
        (dec_of_Z 10000) (dec_of_Z 5) 1 60 false true slippage).

(** Creating the week's indices and moving their aliases stops at the first
    failure; a failure is only logged. *)
Fixpoint prepareWeeklyOutcomeIndices (bases : list string) (batchLabel : string) (w : net) : result net :=
  match bases with
  | [] => Ok w
  | base :: bases =>
      let index := weeklyIndex base batchLabel in
      let '(created, w) := ensureIndexExists index w in
      if negb (created =? 0) then Ok w
      else
        '(moved, w) <~ repointAlias (currentAlias base) index w ;
        if negb (moved =? 0) then Ok w else prepareWeeklyOutcomeIndices bases batchLabel w
  end.

(** The identifiers the generator mints, in order. *)
Variable fresh : nat -> string.

Section Run.
Variables (ranges : list (string * list double)) (factory : StrategyFactory).

Definition seed_payload (runId : string) (drawn index : nat) : result KeyedPayload :=
  combo <~ combinationAt ranges index ;
  config <~ factory (fresh (drawn + index)) combo ;
  payload <~ dump (to_json config) ;
  Ok (mkKeyed (queue_keys.strategyPayloadKey runId (UUID config)) payload).

Fixpoint buildStrategyChunk (runId : string) (drawn begin size : nat) : result (list KeyedPayload) :=
  match size with
  | O => Ok []
  | S size =>
      p <~ seed_payload runId drawn begin ;
      chunk <~ buildStrategyChunk runId drawn (S begin) size ;
      Ok (p :: chunk)
  end.

(** What [SweepChunkSource::next] yields from [begin] on: the chunks up to the
    empty one, or up to the exception that ends them. *)
Fixpoint sweep_chunks (fuel : nat) (runId : string) (drawn begin total : nat)
    : list (list KeyedPayload) * option exn :=
  match fuel with
  | O => ([], None)
  | S fuel =>
      let next := Nat.min (begin + kChunkSize) total in
      match buildStrategyChunk runId drawn begin (next - begin) with
      | Throw e => ([], Some e)
      | Ok [] => ([], None)
      | Ok chunk => let '(chunks, e) := sweep_chunks fuel runId drawn next total in (chunk :: chunks, e)
      end
  end.

(** The stream with its source: an exception of the source reaches the loader
    as one of its own, with code 1. *)
Definition stream_source (listKey : string) (source : list (list KeyedPayload) * option exn)
    (events : list request_event) (s : server) : Z * server :=
  let '(o, s) := pushKeyedStream listKey source.1 (1000 * queue_keys.PAYLOAD_TTL_SECONDS) 0 events s in
  (match o, source.2 with Pushed _, Some _ => 1 | _, _ => stream_code o end, s).

(** The store, the identifiers drawn, and what the connection will do during
    each of the calls to come. *)
Record load_state : Type := mkLoadState {
  redis : server; drawn : nat; calls : list (list request_event) }.

Definition next_call (st : load_state) : list request_event * list (list request_event) :=
  match calls st with [] => ([], []) | events :: rest => (events, rest) end.

(** One symbol group. A value is what [run] returns at once. *)
Definition load_group (batch : BatchStamp) (group : string) (st : load_state)
    : result (option Z) * load_state :=
  let symbols := cleanSymbols group in
  let runId := fresh (drawn st) in
  let total := Z.to_nat (combinationCount ranges) in
  let source := sweep_chunks (S total) runId (S (drawn st)) 0 total in
  let '(events, rest) := next_call st in
  let '(code, s) := stream_source (queue_keys.strategyKey runId) source events (redis st) in
  let st := mkLoadState s (S (drawn st) + total) rest in
  if negb (code =? 0) then (Ok (Some code), st)
  else
    match (run <~ makeRunConfiguration runId symbols batch ; j <~ RunConfiguration_to_json run ; dump j) with
    | Throw e => (Throw e, st)
    | Ok runJson =>
        let '(events, rest) := next_call st in
        let '(code, s) := loadPayload queue_keys.RUN runJson events (redis st) in
        let st := mkLoadState s (drawn st) rest in
        (Ok (if negb (code =? 0) then Some code else None), st)
    end.

Fixpoint load_groups (batch : BatchStamp) (groups : list string) (st : load_state)
    : result Z * load_state :=
  match groups with
  | [] => (Ok 0, st)
  | group :: groups =>
      match load_group batch group st with
      | (Throw e, st) => (Throw e, st)
      | (Ok (Some code), st) => (Ok code, st)
      | (Ok None, st) => load_groups batch groups st
      end
  end.

End Run.

(** [LoadCommand::run]: the name, whether the prompt was answered, the clock
    readings and the network. *)
Definition load_run (sweepName : string) (confirmed : bool) (now now' : Z) (w : net) (st : load_state)
    : option (result Z * load_state) :=
  match selectSweep sweepName with
  | None => Some (Ok 1, st)
  | Some (g, factory) =>
      ranges ← evaluated 10 g ;
      if negb confirmed then Some (Ok 1, st)
      else
        let batch := currentBatchStamp now now' in
        match prepareWeeklyOutcomeIndices kWeeklyBases (label batch) w with
        | Throw e => Some (Throw e, st)
        | Ok _ => Some (load_groups ranges factory batch (resolveSymbolGroups (symbolGroups_ g)) st)
        end
  end.

(** ** What a load publishes *)

Context {L : RedisLaws server}.

Lemma strategyKey_inj a b : queue_keys.strategyKey a = queue_keys.strategyKey b -> a = b.
Proof. unfold queue_keys.strategyKey. apply (inj _). Qed.

Lemma strategyKey_not_run a : queue_keys.strategyKey a <> queue_keys.RUN.
Proof. intros H. discriminate H. Qed.

Lemma payloadKey_not_list a b c : queue_keys.strategyPayloadKey a b <> queue_keys.strategyKey c.
Proof. intros H. discriminate H. Qed.

Lemma payloadKey_not_run a b : queue_keys.strategyPayloadKey a b <> queue_keys.RUN.
Proof. intros H. discriminate H. Qed.

(** The identifiers hold no colon, as UUIDs do not. *)
Fixpoint no_colon (s : string) : bool :=
  match s with
  | EmptyString => true
  | String.String c s => negb (Ascii.eqb c (Ascii.ascii_of_nat 58)) && no_colon s
  end.

Lemma colon_split (a b c d : string) :
  no_colon a = true -> no_colon c = true -> a +:+ ":" +:+ b = c +:+ ":" +:+ d -> a = c /\ b = d.
Proof.
  revert c. induction a as [|x a IH]; intros [|y c] Ha Hc; cbn [no_colon] in *; try apply andb_true_iff in Ha as [Hx Ha];
    try apply andb_true_iff in Hc as [Hy Hc].
  - intros H. injection H as H. split; [done|exact H].
  - intros H. injection H as Hh _. now rewrite <- Hh in Hy.
  - intros H. injection H as Hh _. now rewrite Hh in Hx.
  - intros [= -> H]. now destruct (IH c Ha Hc H) as [-> ->].
Qed.

Lemma payloadKey_inj a b c d :
  no_colon a = true -> no_colon c = true ->
  queue_keys.strategyPayloadKey a b = queue_keys.strategyPayloadKey c d -> a = c /\ b = d.
Proof.
  unfold queue_keys.strategyPayloadKey. intros Ha Hc H%(inj (String.append _)). now apply colon_split.
Qed.

(** The payload at an index, for a grid whose every combination serialises. *)
Definition payload_of (ranges : list (string * list double)) (factory : StrategyFactory)
    (runId : string) (d index : nat) : KeyedPayload :=
  match seed_payload ranges factory runId d index with Ok p => p | Throw _ => mkKeyed "" "" end.

Section Source.
Variables (ranges : list (string * list double)) (factory : StrategyFactory) (runId : string) (d : nat).
Hypothesis Hseed : forall index, exists p, seed_payload ranges factory runId d index = Ok p.

Lemma buildStrategyChunk_all begin size :
  buildStrategyChunk ranges factory runId d begin size =
  Ok (map (payload_of ranges factory runId d) (seq begin size)).
Proof.
  revert begin. induction size as [|size IH]; intros begin; [done|].
  cbn [buildStrategyChunk seq map]. unfold payload_of at 1. destruct (Hseed begin) as [p ->].
  cbn [result_bind]. now rewrite IH.
Qed.

Lemma sweep_chunks_all fuel begin total :
  (begin <= total)%nat -> (total - begin < fuel)%nat ->
  (sweep_chunks ranges factory fuel runId d begin total).2 = None /\
  produced (sweep_chunks ranges factory fuel runId d begin total).1 =
    map (payload_of ranges factory runId d) (seq begin (total - begin)).
Proof.
  revert begin. induction fuel as [|fuel IH]; intros begin Hle Hf; [lia|]. cbn [sweep_chunks].
  rewrite buildStrategyChunk_all. set (next := Nat.min (begin + kChunkSize) total).
  destruct (Nat.eq_dec begin total) as [->|Hne].
  - assert (next - total = 0)%nat as -> by lia. now rewrite Nat.sub_diag.
  - assert (exists n, next - begin = S n)%nat as [n Hn].
    { exists (next - begin - 1)%nat. unfold next, kChunkSize. lia. }
    specialize (IH next ltac:(lia) ltac:(lia)).
    destruct (sweep_chunks ranges factory fuel runId d next total) as [chunks e] eqn:Ec.
    cbn [fst snd] in IH. destruct IH as [-> IH]. rewrite Hn. cbn [seq map].
    cbn [fst snd produced]. split; [done|]. rewrite IH.
    change (payload_of ranges factory runId d begin :: map (payload_of ranges factory runId d) (seq (S begin) n))
      with (map (payload_of ranges factory runId d) (seq begin (S n))).
    rewrite <- map_app, <- Hn. f_equal.
    replace (total - begin)%nat with ((next - begin) + (total - next))%nat by lia.
    rewrite seq_app. do 2 f_equal. lia.
Qed.
End Source.

(** One advertised run: its name list, and every payload until the deadline. *)
Record complete (ranges : list (string * list double)) (factory : StrategyFactory) (d total : nat)
    (deadline now : Z) (s : server) : Prop := {
  complete_list :
    held now s (queue_keys.strategyKey (fresh d))
      (rev (map kp_key (map (payload_of ranges factory (fresh d) (S d)) (seq 0 total))));
  complete_payloads : forall index t, (index < total)%nat -> now <= t < deadline ->
    let p := payload_of ranges factory (fresh d) (S d) index in
    string_at s t (kp_key p) = Some (b64encode (kp_rawJson p)) }.

Lemma complete_later ranges factory d total deadline now now' s s' :
  now <= now' ->
  (forall t, now' <= t -> lookup_at s' t (queue_keys.strategyKey (fresh d))
                          = lookup_at s t (queue_keys.strategyKey (fresh d))) ->
  (forall index t, (index < total)%nat -> now' <= t ->
     lookup_at s' t (kp_key (payload_of ranges factory (fresh d) (S d) index)) =
     lookup_at s t (kp_key (payload_of ranges factory (fresh d) (S d) index))) ->
  complete ranges factory d total deadline now s -> complete ranges factory d total deadline now' s'.
Proof.
  intros Hle Hl Hp [Hlist Hpay]. split.
  - intros t Ht. rewrite Hl by done. apply Hlist. lia.
  - intros index t Hi Ht. cbv zeta. unfold string_at. rewrite Hp by (done || lia).
    apply Hpay; [done|lia].
Qed.

Section Published.
Variables (ranges : list (string * list double)) (factory : StrategyFactory) (batch : BatchStamp).
Variables (old : list string) (start : Z).
Let total : nat := Z.to_nat (combinationCount ranges).
Let deadline : Z := start + 1000000 * queue_keys.PAYLOAD_TTL_SECONDS.
Hypothesis fresh_inj : forall i j, fresh i = fresh j -> i = j.
Hypothesis fresh_colon : forall i, no_colon (fresh i) = true.
Hypothesis seeds : forall runId d index, exists p, seed_payload ranges factory runId d index = Ok p /\
  kp_key p = queue_keys.strategyPayloadKey runId (fresh (d + index)).

(** The descriptor of the run numbered [d]. *)
Definition descriptor_of (d : nat) (group descriptor : string) : Prop :=
  exists run j text, makeRunConfiguration (fresh d) (cleanSymbols group) batch = Ok run /\
    RunConfiguration_to_json run = Ok j /\ dump j = Ok text /\ descriptor = b64encode text.

(** The run queue holds the descriptors pushed so far, each of a complete run;
    the lists of the runs to come are empty. *)
Record load_inv (now : Z) (st : load_state) (pushed : list (nat * string * string)) : Prop := {
  inv_queue : held now (redis st) queue_keys.RUN (rev (map snd pushed) ++ old);
  inv_runs : forall d group descriptor, (d, group, descriptor) ∈ pushed ->
    (d < drawn st)%nat /\ descriptor_of d group descriptor /\
    complete ranges factory d total deadline now (redis st);
  inv_fresh : forall d, (drawn st <= d)%nat -> held now (redis st) (queue_keys.strategyKey (fresh d)) [];
  inv_time : start <= now /\ on_time now (concat (calls st)) }.

Lemma payload_of_key runId d index :
  kp_key (payload_of ranges factory runId d index) = queue_keys.strategyPayloadKey runId (fresh (d + index)).
Proof. unfold payload_of. destruct (seeds runId d index) as (p & -> & E). exact E. Qed.

Lemma payload_keys_disjoint d d' i n :
  d <> d' ->
  kp_key (payload_of ranges factory (fresh d) (S d) i)
    ∉ map kp_key (map (payload_of ranges factory (fresh d') (S d')) (seq 0 n)).
Proof.
  intros Hd Hin. rewrite payload_of_key in Hin.
  apply list_elem_of_fmap in Hin as (p & E & Hin). apply list_elem_of_fmap in Hin as (j & -> & _).
  rewrite payload_of_key in E. apply payloadKey_inj in E as [E _]; [|apply fresh_colon..].
  now apply fresh_inj in E.
Qed.

Lemma not_a_payload k d n :
  (forall b, k <> queue_keys.strategyPayloadKey (fresh d) b) ->
  k ∉ map kp_key (map (payload_of ranges factory (fresh d) (S d)) (seq 0 n)).
Proof.
  intros Hk Hin. apply list_elem_of_fmap in Hin as (p & E & Hin).
  apply list_elem_of_fmap in Hin as (j & -> & _). rewrite payload_of_key in E. exact (Hk _ E).
Qed.

Lemma payload_keys_nodup d n :
  NoDup (map kp_key (map (payload_of ranges factory (fresh d) (S d)) (seq 0 n))).
Proof.
  rewrite map_map. apply NoDup_fmap_2_strong; [|apply NoDup_seq].
  intros i j _ _ E. rewrite !payload_of_key in E.
  apply payloadKey_inj in E as [_ E]; [|apply fresh_colon..]. apply fresh_inj in E. lia.
Qed.

Lemma on_time_app now a b : on_time now (a ++ b) <-> on_time now a /\ on_time (end_time now a) b.
Proof.
  revert now. induction a as [|e a IH]; intros now; cbn [app on_time end_time]; [tauto|]. rewrite IH. tauto.
Qed.

Lemma next_call_time now st :
  on_time now (concat (calls st)) ->
  let '(events, rest) := next_call st in
  on_time now events /\ on_time (end_time now events) (concat rest).
Proof.
  unfold next_call. destruct (calls st) as [|events rest]; cbn [concat]; [done|]. apply on_time_app.
Qed.

(** A run whose stream has been sent in full is complete, and nothing else moved. *)
Lemma stream_completes st d events code s' now :
  start <= now -> on_time now events ->
  held now (redis st) (queue_keys.strategyKey (fresh d)) [] ->
  stream_source (queue_keys.strategyKey (fresh d))
    (sweep_chunks ranges factory (S total) (fresh d) (S d) 0 total) events (redis st) = (code, s') ->
  (code = 0 -> complete ranges factory d total deadline (end_time now events) s') /\
  forall t k, end_time now events <= t -> k <> queue_keys.strategyKey (fresh d) ->
    k ∉ map kp_key (map (payload_of ranges factory (fresh d) (S d)) (seq 0 total)) ->
    lookup_at s' t k = lookup_at (redis st) t k.
Proof.
  intros Hstart Ht Hl. unfold stream_source.
  destruct (sweep_chunks_all ranges factory (fresh d) (S d)) with (fuel := S total) (begin := 0%nat) (total := total)
    as [Hnone Hprod]; [intros index; destruct (seeds (fresh d) (S d) index) as (p & Hp & _); now exists p|lia|lia|].
  rewrite Nat.sub_0_r in Hprod. rewrite Hnone.
  assert (0 < 1000 * queue_keys.PAYLOAD_TTL_SECONDS < 2 ^ 63) as Httl by done.
  set (ttl := 1000 * queue_keys.PAYLOAD_TTL_SECONDS) in *.
  destruct (pushKeyedStream _ _ _ _ _ _) as [o s1] eqn:E.
  intros [= <- <-]. set (chunks := (sweep_chunks ranges factory (S total) (fresh d) (S d) 0 total).1) in *.
  assert (queue_keys.strategyKey (fresh d) ∉ map kp_key (produced chunks)) as Hni.
  { rewrite Hprod. apply not_a_payload. intros b Hb. now apply (payloadKey_not_list (fresh d) b (fresh d)). }
  split.
  - intros Hc. assert (exists n, o = Pushed n) as Ho by (destruct o as [n|[]|]; cbn in Hc; eauto; discriminate).
    destruct (stream_published (queue_keys.strategyKey (fresh d)) [] ttl deadline Httl
                chunks 0 events (redis st) now [] o s1 Ht)
      as (names & (now' & stored & Hle & [Hlist Hpay] & _ & Hin) & Hall).
    + unfold deadline, ttl. lia.
    + cbn [app]. rewrite Hprod. apply payload_keys_nodup.
    + exact Hni.
    + split; [exact Hl|]. intros p Hp. now apply not_elem_of_nil in Hp.
    + exact E.
    + specialize (Hall Ho). cbn [app] in *. subst names. rewrite Hprod in *. split.
      * rewrite app_nil_r in Hlist. now apply (held_later now').
      * intros index t Hi Htt. apply Hpay; [|lia].
        assert (payload_of ranges factory (fresh d) (S d) index
                  ∈ map (payload_of ranges factory (fresh d) (S d)) (seq 0 total)) as Hm
          by (apply list_elem_of_fmap_2, elem_of_seq; lia).
        apply Hin; [exact Hm|]. now apply list_elem_of_fmap_2.
  - intros t k Hend Hk Hnk. rewrite <- Hprod in Hnk.
    exact (stream_frame (queue_keys.strategyKey (fresh d)) ttl Httl chunks t k _ _ _ _ _ _ Ht Hend Hk Hnk E).
Qed.

(** The push of a descriptor, whether or not its reply arrives. *)
Lemma descriptor_pushed queue text now events (s : server) l code s' :
  on_time now events -> held now s queue l ->
  loadPayload queue text events s = (code, s') ->
  (exists pushed : bool,
     held (end_time now events) s' queue (if pushed then b64encode text :: l else l) /\
     (code = 0 -> pushed = true)) /\
  forall t k, end_time now events <= t -> k <> queue -> lookup_at s' t k = lookup_at s t k.
Proof.
  intros Ht Hl. pose proof (end_time_le now events Ht) as Hend. unfold loadPayload.
  destruct (isBlank text).
  { intros [= <- <-]. split; [|done]. exists false. split; [now apply (held_later now)|discriminate]. }
  set (op := fun n => match n with O => op_return tt | _ => listPushFront queue (b64encode text) end).
  destruct (send op 1 events s) as [[o ev] s1] eqn:E.
  destruct (send_cases op 1 events s o ev s1 now Ht E) as [[-> ->]|(t1 & n & Ht1 & Hev & He & Hn & -> & Hcase)].
  { intros [= <- <-]. split; [|done]. exists false. split; [now apply (held_later now)|discriminate]. }
  pose proof (end_time_le _ _ Hev). destruct n as [|[|n]]; [| |lia].
  - destruct Hcase as [[e ->]|[? _]]; [|lia]. intros [= <- <-]. split; [|done].
    exists false. split; [now apply (held_later now)|discriminate].
  - destruct (push_all_held queue [b64encode text] l t1 s) as (s2 & E2 & Hl2 & Ho);
      [now apply (held_later now)|].
    change (listPushFrontAll queue [b64encode text] t1 s) with (op 1%nat t1 s) in E2.
    rewrite E2 in *. cbn [fst snd] in *. intros Hcode.
    assert (s' = s2) as -> by (destruct Hcase as [[e ->]|[_ ->]]; now injection Hcode).
    split; [|intros t k Hend' Hk; apply Ho; [lia|done]].
    exists true. split; [apply (held_later t1); [lia|exact Hl2]|done].
Qed.

Lemma inv_streamed now now' st s' drawn' rest pushed :
  load_inv now st pushed -> now <= now' -> (drawn st < drawn')%nat -> on_time now' (concat rest) ->
  (forall t k, now' <= t -> k <> queue_keys.strategyKey (fresh (drawn st)) ->
     k ∉ map kp_key (map (payload_of ranges factory (fresh (drawn st)) (S (drawn st))) (seq 0 total)) ->
     lookup_at s' t k = lookup_at (redis st) t k) ->
  load_inv now' (mkLoadState s' drawn' rest) pushed.
Proof.
  intros [Hq Hruns Hfresh [Hstart _]] Hle Hd Ht Hframe.
  assert (forall t k, now' <= t -> k <> queue_keys.strategyKey (fresh (drawn st)) ->
    (forall b, k <> queue_keys.strategyPayloadKey (fresh (drawn st)) b) ->
    lookup_at s' t k = lookup_at (redis st) t k) as Hkey.
  { intros t k Htt Hk Hp. apply Hframe; [done..|]. now apply not_a_payload. }
  split; cbn [redis drawn calls].
  - intros t Htt. rewrite Hkey; [apply Hq; lia|done| |].
    + intros E. now apply (strategyKey_not_run (fresh (drawn st))).
    + intros b E. now apply (payloadKey_not_run (fresh (drawn st)) b).
  - intros d group descriptor Hin. destruct (Hruns _ _ _ Hin) as (Hlt & Hdesc & Hc).
    split; [lia|]. split; [done|]. apply (complete_later _ _ _ _ _ now now' (redis st) s' Hle); [| |done].
    + intros t Htt. apply Hkey; [done| |].
      * intros E%strategyKey_inj%fresh_inj. lia.
      * intros b E. symmetry in E. now apply payloadKey_not_list in E.
    + intros index t Hi Htt. apply Hframe; [done| |].
      * rewrite payload_of_key. apply payloadKey_not_list.
      * apply payload_keys_disjoint. lia.
  - intros d Hge t Htt. rewrite Hkey; [apply Hfresh; lia|done| |].
    + intros E%strategyKey_inj%fresh_inj. lia.
    + intros b E. symmetry in E. now apply payloadKey_not_list in E.
  - split; [lia|done].
Qed.

Lemma inv_pushed now now' st s' rest pushed new :
  load_inv now st pushed -> now <= now' -> on_time now' (concat rest) ->
  held now' s' queue_keys.RUN (rev (map snd (pushed ++ new)) ++ old) ->
  (forall t k, now' <= t -> k <> queue_keys.RUN -> lookup_at s' t k = lookup_at (redis st) t k) ->
  (forall d group descriptor, (d, group, descriptor) ∈ new ->
     (d < drawn st)%nat /\ descriptor_of d group descriptor /\
     complete ranges factory d total deadline now (redis st)) ->
  load_inv now' (mkLoadState s' (drawn st) rest) (pushed ++ new).
Proof.
  intros [Hq Hruns Hfresh [Hstart _]] Hle Ht Hheld Hframe Hnew. split; cbn [redis drawn calls]; [done| | |split; [lia|done]].
  - intros d group descriptor Hin.
    assert ((d < drawn st)%nat /\ descriptor_of d group descriptor /\
      complete ranges factory d total deadline now (redis st)) as (Hlt & Hdesc & Hc)
      by (apply elem_of_app in Hin as [Hin|Hin]; eauto).
    split; [done|]. split; [done|]. apply (complete_later _ _ _ _ _ now now' (redis st) s' Hle); [| |done].
    + intros t Htt. apply Hframe; [done|apply strategyKey_not_run].
    + intros index t Hi Htt. apply Hframe; [done|]. rewrite payload_of_key. apply payloadKey_not_run.
  - intros d Hge t Htt. rewrite Hframe; [apply Hfresh; [done|lia]|done|apply strategyKey_not_run].
Qed.

Lemma load_group_step group st r st' now pushed :
  load_inv now st pushed -> load_group ranges factory batch group st = (r, st') ->
  exists now' new, load_inv now' st' (pushed ++ new) /\
    (forall x, x ∈ new -> x.1.2 = group) /\ (r = Ok None -> map (snd ∘ fst) new = [group]) /\
    r <> Ok (Some 0).
Proof.
  intros Hinv. unfold load_group. fold total. pose proof (inv_time _ _ _ Hinv) as [Hstart Ht].
  pose proof (next_call_time now st Ht) as Hcall. destruct (next_call st) as [events rest] eqn:Enc.
  destruct Hcall as [Ht1 Ht2]. pose proof (end_time_le _ _ Ht1) as Hle1.
  destruct (stream_source _ _ _ _) as [code s1] eqn:Es.
  destruct (stream_completes st (drawn st) events code s1 now Hstart Ht1
              (inv_fresh _ _ _ Hinv (drawn st) (le_n _)) Es) as [Hcomplete Hframe].
  pose proof (inv_streamed now _ st s1 (S (drawn st) + total) rest pushed Hinv Hle1 ltac:(lia) Ht2 Hframe) as Hinv1.
  destruct (Z.eqb_spec code 0) as [Hc0|Hc0]; cbn [negb].
  2:{ intros [= <- <-]. exists (end_time now events), []. rewrite app_nil_r. split; [done|].
      split; [intros x Hx; now apply not_elem_of_nil in Hx|]. split; [discriminate|congruence]. }
  destruct (run <~ makeRunConfiguration _ _ _; _) as [text|e] eqn:Ej.
  2:{ intros [= <- <-]. exists (end_time now events), []. rewrite app_nil_r. split; [done|].
      split; [intros x Hx; now apply not_elem_of_nil in Hx|]. split; [discriminate|congruence]. }
  set (st1 := mkLoadState s1 (S (drawn st) + total) rest) in *.
  pose proof (next_call_time _ st1 Ht2) as Hcall. destruct (next_call st1) as [events2 rest2] eqn:Enc2.
  destruct Hcall as [Ht3 Ht4]. pose proof (end_time_le _ _ Ht3) as Hle2.
  destruct (loadPayload _ _ _ _) as [code2 s2] eqn:Ep. intros [= <- <-].
  destruct (descriptor_pushed _ _ _ _ _ _ _ _ Ht3 (inv_queue _ _ _ Hinv1) Ep)
    as ((p & Hheld & Hp) & Hframe2).
  exists (end_time (end_time now events) events2).
  exists (if p then [(drawn st, group, b64encode text)] else []). split; [|split; [|split]].
  - apply (inv_pushed (end_time now events) _ st1); [done|done|done| |done|].
    + rewrite map_app, rev_app_distr. now destruct p.
    + intros d g ds Hin. destruct p; [|now apply not_elem_of_nil in Hin].
      apply list_elem_of_singleton in Hin as [= -> -> ->]. split; [cbn; lia|]. split; [|now apply Hcomplete].
      destruct (makeRunConfiguration _ _ _) as [run|] eqn:Er; [|discriminate]. cbn [result_bind] in Ej.
      destruct (RunConfiguration_to_json run) as [j|] eqn:Ej2; [|discriminate]. now exists run, j, text.
  - intros x Hx. destruct p; [|now apply not_elem_of_nil in Hx]. now apply list_elem_of_singleton in Hx as ->.
  - intros Hr. destruct (Z.eqb_spec code2 0) as [Hc2|Hc2]; [|discriminate]. now rewrite (Hp Hc2).
  - destruct (Z.eqb_spec code2 0); cbn; congruence.
Qed.

Lemma load_groups_inv groups : forall st r st' now pushed,
  load_inv now st pushed -> load_groups ranges factory batch groups st = (r, st') ->
  exists now' new, load_inv now' st' (pushed ++ new) /\
    (forall x, x ∈ new -> x.1.2 ∈ groups) /\ (r = Ok 0 -> map (snd ∘ fst) new = groups).
Proof.
  induction groups as [|group groups IH]; intros st r st' now pushed Hinv; cbn [load_groups].
  - intros [= <- <-]. exists now, []. rewrite app_nil_r. split; [done|]. split; [|done].
    intros x Hx. now apply not_elem_of_nil in Hx.
  - destruct (load_group _ _ _ _ _) as [r1 st1] eqn:E.
    destruct (load_group_step _ _ _ _ _ _ Hinv E) as (now1 & new1 & Hinv1 & Hin1 & Hok1 & Hne1).
    assert (forall x, x ∈ new1 -> x.1.2 ∈ group :: groups) as Hin1'.
    { intros x Hx. rewrite (Hin1 x Hx). apply list_elem_of_here. }
    destruct r1 as [[code|]|e].
    + intros [= <- <-]. exists now1, new1. split; [done|]. split; [done|]. congruence.
    + intros Hrest. destruct (IH _ _ _ _ _ Hinv1 Hrest) as (now2 & new2 & Hinv2 & Hin2 & Hok2).
      exists now2, (new1 ++ new2)%list. rewrite app_assoc. split; [done|]. split.
      * intros x [Hx|Hx]%elem_of_app; [now apply Hin1'|apply list_elem_of_further; now apply Hin2].
      * intros Hr. rewrite map_app, (Hok1 eq_refl), (Hok2 Hr). done.
    + intros [= <- <-]. exists now1, new1. split; [done|]. split; [done|]. discriminate.
Qed.

End Published.

Lemma seeds_ok ranges factory :
  runnable ranges factory -> NoDup ranges.*1 -> Forall (fun r => r.2 <> []) ranges ->
  (forall i, text_ok (fresh i)) ->
  forall runId d index, exists p config payload, seed_payload ranges factory runId d index = Ok p /\
    p = mkKeyed (queue_keys.strategyPayloadKey runId (fresh (d + index))) payload /\
    UUID config = fresh (d + index) /\ parseStrategyFromBase64 (b64encode payload) = Ok config /\
    forall (G : Type) (seed : G), exists strategy, StrategyFactory.makeStrategy seed config = Ok strategy.
Proof.
  intros Hrun Hnd Hne Htext runId d index.
  destruct (runnable_at ranges factory index (fresh (d + index)) Hrun Hnd Hne (Htext _))
    as (combo & config & Hc & Hf & Hid & Hok & Hb).
  destruct (payload_round_trip config Hok) as (payload & Hd & Hp).
  exists (mkKeyed (queue_keys.strategyPayloadKey runId (fresh (d + index))) payload), config, payload.
  split; [|auto]. unfold seed_payload. rewrite Hc. cbn [result_bind]. rewrite Hf. cbn [result_bind].
  rewrite Hd. cbn [result_bind]. now rewrite Hid.
Qed.

(** A run on the queue that a worker can drain to the end: every name on its
    list, while the payloads last, leads to a strategy the worker builds. *)
Definition drainable (now deadline : Z) (s : server) (runId : string) : Prop :=
  exists names, names <> [] /\ held now s (queue_keys.strategyKey runId) names /\
    forall name t, name ∈ names -> now <= t < deadline ->
    exists payload config,
      string_at s t name = Some (b64encode payload) /\
      parseStrategyFromBase64 (b64encode payload) = Ok config /\
      name = queue_keys.strategyPayloadKey runId (UUID config) /\
      forall (G : Type) (seed : G), exists strategy,
        StrategyFactory.makeStrategy seed config = Ok strategy.

Lemma complete_drainable ranges factory d deadline now s :
  runnable ranges factory -> NoDup ranges.*1 -> Forall (fun r => r.2 <> []) ranges ->
  (forall i, text_ok (fresh i)) -> 0 < combinationCount ranges ->
  complete ranges factory d (Z.to_nat (combinationCount ranges)) deadline now s ->
  drainable now deadline s (fresh d).
Proof.
  intros Hrun Hnd Hne Htext Hcount [Hlist Hpay]. eexists. split; [|split; [exact Hlist|]].
  - intros Hnil. apply (f_equal length) in Hnil. rewrite length_rev, !length_map, length_seq in Hnil.
    cbn in Hnil. lia.
  - intros name t Hin Ht. apply list_elem_of_In, in_rev, list_elem_of_In in Hin.
    apply list_elem_of_fmap in Hin as (p & -> & Hin). apply list_elem_of_fmap in Hin as (index & -> & Hin).
    apply elem_of_seq in Hin.
    pose proof (Hpay index t ltac:(lia) Ht) as Hs. cbv zeta in Hs.
    destruct (seeds_ok ranges factory Hrun Hnd Hne Htext (fresh d) (S d) index)
      as (p & config & payload & Hp & -> & Hid & Hparse & Hb).
    unfold payload_of in *. rewrite Hp in *. cbn [kp_key kp_rawJson] in *.
    exists payload, config. rewrite Hid. auto.
Qed.


End Load.

(** The first group's stream arrives, its descriptor is executed but the reply
    is cut. *)
Fixpoint unary (i : nat) : string :=
  match i with O => "" | S i => String.String (Ascii.ascii_of_nat 97) (unary i) end.

Lemma unary_length i : String.length (unary i) = i.
Proof. induction i as [|i IH]; cbn; congruence. Qed.

Lemma unary_colon i : no_colon (unary i) = true.
Proof. now induction i. Qed.

Lemma unary_text i : text_ok (unary i).
Proof.
  apply ascii_valid. induction i as [|i IH]; cbn [unary]; constructor; [vm_compute; reflexivity|exact IH].
Qed.

Definition demo_state : load_state (server := store) :=
  mkLoadState ∅ 0 [[Replied 10; Replied 20]; [CutAfter 30 1]].

Example demo_stops :
  option_map (fun '(r, st') => (r, length (calls st'),
      match lookup_at (redis st') 40 queue_keys.RUN with Some (VList l) => length l | _ => O end))
    (load_run (T := plainText) (P := demo_process) unary "random" true 0 0 demo_net demo_state)
  = Some (Ok 3, 0%nat, 1%nat).
Proof. vm_compute. reflexivity. Qed.

