(* ===== verification/ExperimentsCommand.v ===== *)
(** experiments/experimentsCommand.cppm: seeding an experiment sweep, the same
    order of pushes as a strategy load, on the experiment queue. *)
From Stdlib Require Import ZArith Lia SpecFloat.
From stdpp Require Import base gmap sets list strings.
From S2P Require Import Prelude Json JsonDump StdText Double Config Base64 ConfigJson ChainMatcher ExperimentJson Redis RedisStore Queue RedisLoader Sweep SweepConfigs Env IsoTime Elastic LoadCommand.
Open Scope string_scope.
Open Scope Z_scope.

Section Experiments.
Context {server : Type} {R : RedisServer server} {P : Process}.
Variable fresh : nat -> string.

(** The experiments index of the week and its alias; a failure is only logged. *)
Definition prepareWeeklyExperimentsIndex (batchLabel : string) (w : net) : result net :=
  let index := weeklyIndex kExperimentsBase batchLabel in
  let '(created, w) := ensureIndexExists index w in
  if negb (created =? 0) then Ok w
  else '(_, w) <~ repointAlias (currentAlias kExperimentsBase) index w ; Ok w.

Section Run.
Variable spec : ExperimentSweepSpec.
Variable ranges : list (string * list double).

Definition experiment_payload (runId : string) (drawn index : nat) : result KeyedPayload :=
  combo <~ combinationAt ranges index ;
  config <~ SweepConfigs.factory spec (fresh (drawn + index)) combo ;
  payload <~ dump (to_json config) ;
  Ok (mkKeyed (queue_keys.experimentPayloadKey runId (ChainMatcher.UUID config)) payload).

Fixpoint buildExperimentChunk (runId : string) (drawn begin size : nat) : result (list KeyedPayload) :=
  match size with
  | O => Ok []
  | S size =>
      p <~ experiment_payload runId drawn begin ;
      chunk <~ buildExperimentChunk runId drawn (S begin) size ;
      Ok (p :: chunk)
  end.

Fixpoint experiment_chunks (fuel : nat) (runId : string) (drawn begin total : nat)
    : list (list KeyedPayload) * option exn :=
  match fuel with
  | O => ([], None)
  | S fuel =>
      let next := Nat.min (begin + kChunkSize) total in
      match buildExperimentChunk runId drawn begin (next - begin) with
      | Throw e => ([], Some e)
      | Ok [] => ([], None)
      | Ok chunk => let '(chunks, e) := experiment_chunks fuel runId drawn next total in (chunk :: chunks, e)
      end
  end.

Definition experiment_run (runId symbols : string) (batch : BatchStamp) : ExperimentRunConfiguration :=
  mkExperimentRunConfiguration runId symbols (label batch) (executionTs batch) (lastMonths spec) (offsetMonths spec).

Definition experiment_group (batch : BatchStamp) (group : string) (st : load_state (server := server))
    : result (option Z) * load_state :=
  let symbols := cleanSymbols group in
  let runId := fresh (drawn st) in
  let total := Z.to_nat (combinationCount ranges) in
  let source := experiment_chunks (S total) runId (S (drawn st)) 0 total in
  let '(events, rest) := next_call st in
  let '(code, s) := stream_source (queue_keys.experimentKey runId) source events (redis st) in
  let st := mkLoadState s (S (drawn st) + total) rest in
  if negb (code =? 0) then (Ok (Some code), st)
  else
    match dump (to_json (experiment_run runId symbols batch)) with
    | Throw e => (Throw e, st)
    | Ok runJson =>
        let '(events, rest) := next_call st in
        let '(code, s) := loadPayload queue_keys.EXPERIMENT_RUN runJson events (redis st) in
        let st := mkLoadState s (drawn st) rest in
        (Ok (if negb (code =? 0) then Some code else None), st)
    end.

Fixpoint experiment_groups (batch : BatchStamp) (groups : list string) (st : load_state (server := server))
    : result Z * load_state :=
  match groups with
  | [] => (Ok 0, st)
  | group :: groups =>
      match experiment_group batch group st with
      | (Throw e, st) => (Throw e, st)
      | (Ok (Some code), st) => (Ok code, st)
      | (Ok None, st) => experiment_groups batch groups st
      end
  end.

End Run.

Definition experiments_run (sweepName : string) (confirmed : bool) (now now' : Z) (w : net)
    (st : load_state (server := server)) : option (result Z * load_state) :=
  match selectExperimentSweep sweepName with
  | None => Some (Ok 1, st)
  | Some spec =>
      ranges ← evaluated 10 (generator spec) ;
      if negb confirmed then Some (Ok 1, st)
      else
        let batch := currentBatchStamp now now' in
        match prepareWeeklyExperimentsIndex (label batch) w with
        | Throw e => Some (Throw e, st)
        | Ok _ =>
            Some (experiment_groups spec ranges batch (resolveSymbolGroups (symbolGroups_ (generator spec))) st)
        end
  end.

End Experiments.

(** * Every seeded experiment runs *)

Definition dip_ranges : list (string * list double) :=
  [("LEG1_DROP_PERCENT", [dbl_decimal 25 2; dbl_decimal 5 1; dbl_decimal 10 1; dbl_decimal 20 1]);
   ("LEG1_WINDOW_MINUTES", ints [5; 10; 30; 60]);
   ("LEG2_RISE_PERCENT", [dbl_decimal 1 1; dbl_decimal 25 2; dbl_decimal 5 1; dbl_decimal 10 1]);
   ("LEG2_WINDOW_MINUTES", ints [5; 10; 30; 60])].

(** What the matcher's first two legs ask of a percentage. *)
Definition percent_ok (v : double) : bool :=
  negb (dbl_eqb v dbl_zero) &&
  match scaled (dbl_abs v) with Ok _ => true | Throw _ => false end.

Lemma dip_percents :
  Forall (fun v => double_ok v /\ percent_ok v = true)
    ([dbl_decimal 1 1; dbl_decimal 25 2; dbl_decimal 5 1; dbl_decimal 10 1] ++
     map SFopp [dbl_decimal 25 2; dbl_decimal 5 1; dbl_decimal 10 1; dbl_decimal 20 1])%list.
Proof. repeat constructor; vm_compute; reflexivity. Qed.

Lemma percent_accepted v :
  percent_ok v = true -> dbl_eqb v dbl_zero = false /\ exists pct, scaled (dbl_abs v) = Ok pct.
Proof.
  unfold percent_ok. intros [Hn Hs]%andb_true_iff. apply negb_true_iff in Hn. split; [exact Hn|].
  destruct (scaled (dbl_abs v)) as [pct|]; [now exists pct|discriminate].
Qed.

Lemma getValue_at name (c : Combination) v : c !! name = Some v -> getValue name c = Ok v.
Proof. unfold getValue. now intros ->. Qed.

#[local] Opaque getInt getValue scaled dbl_eqb dbl_abs.

(** Every experiment the sweep seeds is one the analysis worker accepts: any
    combination of the grid, with any valid identifier, is serialised, encoded,
    decoded and parsed back unchanged, and the chain matcher is built from it. *)
Theorem seeded_experiments_run (index : nat) (uuid : string) (maxAttemptSamples : nat) :
  text_ok uuid ->
  exists ranges combo config payload matcher,
    evaluated 10 (generator buildDipRecoverySweep) = Some ranges /\
    combinationAt ranges index = Ok combo /\ makeDipRecoveryExperiment uuid combo = Ok config /\
    ChainMatcher.UUID config = uuid /\ dump (to_json config) = Ok payload /\
    parseExperimentFromBase64 (b64encode payload) = Ok config /\
    makeMatcher config maxAttemptSamples = Ok matcher.
Proof.
  intros Hu. exists dip_ranges.
  destruct (combinationAt_get dip_ranges index) as (c & Hc & Hget).
  { apply (bool_decide_unpack _). vm_compute. exact I. }
  { repeat constructor; discriminate. }
  destruct (seeded_int _ _ Hget "LEG1_WINDOW_MINUTES" [5; 10; 30; 60]) as (w1 & Hw1 & E1); [in_list|reflexivity|].
  destruct (seeded_int _ _ Hget "LEG2_WINDOW_MINUTES" [5; 10; 30; 60]) as (w2 & Hw2 & E2); [in_list|reflexivity|].
  destruct (Hget "LEG1_DROP_PERCENT" [dbl_decimal 25 2; dbl_decimal 5 1; dbl_decimal 10 1; dbl_decimal 20 1])
    as (drop & Hdrop & Ed); [in_list|].
  destruct (Hget "LEG2_RISE_PERCENT" [dbl_decimal 1 1; dbl_decimal 25 2; dbl_decimal 5 1; dbl_decimal 10 1])
    as (rise & Hrise & Er); [in_list|].
  pose proof dip_percents as Hall. apply Forall_app in Hall as [Hr Hd].
  rewrite Forall_forall in Hr. rewrite Forall_forall in Hd.
  destruct (Hr rise Hrise) as [Hr1 Hr2]. destruct (Hd (SFopp drop)) as [Hd1 Hd2].
  { now apply (list_elem_of_fmap_2 SFopp). }
  clear Hr Hd Hget. seed_bounds.
  set (config := mkExperimentConfig uuid "dipRecovery"
    [mkActivity DirectionalMove (SFopp drop) (w1 * 60) 0 0 dbl_zero;
     mkActivity DirectionalMove rise (w2 * 60) 0 0 dbl_zero]).
  assert (makeDipRecoveryExperiment uuid c = Ok config) as Hmake.
  { apply getValue_at in Ed, Er. unfold makeDipRecoveryExperiment. rewrite Ed, Er, E1, E2. cbn [result_bind].
    unwrap. reflexivity. }
  assert (codec_ok config) as Hok.
  { split; [exact Hu|]. split; [reflexivity|]. assert (double_ok dbl_zero) as H0 by (vm_compute; auto).
    assert (in_i32 0) as Hi by (split; discriminate).
    apply Forall_cons. split; [|apply Forall_cons; split; [|constructor]].
    - split; [exact Hd1|]. split; [cbn [WINDOW_SECONDS]; ilia|]. auto.
    - split; [exact Hr1|]. split; [cbn [WINDOW_SECONDS]; ilia|]. auto. }
  destruct (payload_round_trip config Hok) as (payload & Hdump & Hparse).
  apply percent_accepted in Hr2 as (Hr2 & pr & Epr), Hd2 as (Hd2 & pd & Epd).
  eexists c, config, payload, _. split; [reflexivity|]. do 4 (split; [done|]).
  split; [exact Hparse|].
  unfold makeMatcher. cbn [CHAIN config]. unfold makeLegs, makeLeg.
  cbn [TYPE MOVE_PERCENT WINDOW_SECONDS config]. rewrite Hd2, Hr2. unfold positive.
  rewrite (proj2 (Z.ltb_ge _ _)), (proj2 (Z.ltb_ge _ _)) by lia. cbn [result_bind].
  rewrite Epd, Epr. reflexivity.
Qed.

Lemma seeded_experiments_run_witness :
  exists config payload, parseExperimentFromBase64 (b64encode payload) = Ok config /\
    ChainMatcher.UUID config = "e-1".
Proof.
  destruct (seeded_experiments_run 200 "e-1" 10 eq_refl)
    as (_ & _ & config & payload & _ & _ & _ & _ & Hid & _ & Hparse & _).
  exists config, payload. split; [exact Hparse|exact Hid].
Defined.
