(* ===== verification/RollingWindow.v ===== *)
(** run/queue/rollingWindow.cppm: the ladder of windows a strategy climbs, the
    descriptor of its next run, and the queue that run belongs on. *)
From Stdlib Require Import ZArith Lia.
From stdpp Require Import base list strings.
From S2P Require Import Prelude Config Queue.
Open Scope Z_scope.

Record Window : Type := mkWindow { lastMonths : Z; offsetMonths : Z }.

#[export] Instance Window_eq_dec : EqDecision Window.
Proof. solve_decision. Defined.

Definition kFullHistory : Window := mkWindow 9 0.

Record Step : Type := mkStep { step_from : Window; step_to : Window }.

Definition kLadder : list Step :=
  [mkStep (mkWindow 3 0) (mkWindow 3 3);
   mkStep (mkWindow 3 3) (mkWindow 3 6);
   mkStep (mkWindow 3 6) kFullHistory].

(** The compile-time check beside the table. *)
Lemma one_queue_per_rung : (length kLadder + 1)%nat = length queue_keys.RUN_QUEUES.
Proof. reflexivity. Qed.

Definition nextWindow (last offset : Z) : option Window :=
  option_map step_to
    (List.find (fun step => bool_decide (step_from step = mkWindow last offset)) kLadder).

(** The first rung whose target is the window, from rung [rung] on. *)
Fixpoint rung_queue (ladder : list Step) (rung : nat) (window : Window) : string :=
  match ladder with
  | [] => queue_keys.RUN
  | step :: ladder =>
      if bool_decide (step_to step = window)
      then default queue_keys.RUN (queue_keys.RUN_QUEUES !! (rung + 1)%nat)
      else rung_queue ladder (S rung) window
  end.

Definition queueKeyFor (window : Window) : string := rung_queue kLadder 0 window.

Definition nextRunConfiguration {D : Decimal64} (configuration : Configuration D) (next : Window)
    (newRunId : string) : RunConfiguration D :=
  let finished := RUN configuration in
  mkRunConfiguration D newRunId (SYMBOLS finished) (BATCH finished) (EXECUTION_TS finished)
    (lastMonths next) (offsetMonths next) (STARTING_BALANCE finished) (MAX_LOSS_PERCENT finished)
    (MAX_OPEN_TRADES finished) (MAX_TRADES_PER_MINUTE finished) (REPORT_FAILURES finished)
    (PEAK_HOURS_ONLY finished) (ENTRY_SLIPPAGE_TENTH_PIPS finished).

(** * The ladder *)

(** The windows a strategy is re-queued over after one, as long as it
    completes each; the fuel bounds the climb. *)
Fixpoint climb (fuel : nat) (window : Window) : list Window :=
  match fuel, nextWindow (lastMonths window) (offsetMonths window) with
  | S fuel, Some next => next :: climb fuel next
  | _, _ => []
  end.

Lemma nextWindow_cases last offset next :
  nextWindow last offset = Some next ->
  (last = 3 /\ offset = 0 /\ next = mkWindow 3 3) \/
  (last = 3 /\ offset = 3 /\ next = mkWindow 3 6) \/
  (last = 3 /\ offset = 6 /\ next = kFullHistory).
Proof.
  unfold nextWindow, kLadder. cbn [List.find step_from].
  repeat (case_bool_decide as E;
    [inversion E; subst; cbn; intros Hnext; simplify_eq; auto|clear E]).
  discriminate.
Qed.

(** The seed's climb; every climb is over after three steps, whatever the fuel,
    and each step moves to the next queue of the priority list. *)
Lemma climb_seed fuel :
  (3 <= fuel)%nat -> climb fuel (mkWindow 3 0) = [mkWindow 3 3; mkWindow 3 6; kFullHistory].
Proof. intros H. destruct fuel as [|[|[|[|fuel]]]]; try lia; reflexivity. Qed.

Lemma climb_ends fuel window : (length (climb fuel window) <= 3)%nat.
Proof.
  destruct fuel as [|fuel]; cbn [climb]; [cbn; lia|].
  destruct (nextWindow _ _) as [next|] eqn:E; [|cbn; lia].
  apply nextWindow_cases in E as [(_ & _ & ->)|[(_ & _ & ->)|(_ & _ & ->)]];
    destruct fuel as [|[|[|fuel]]]; apply Nat.leb_le; reflexivity.
Qed.

Lemma queue_of_rung last offset next :
  nextWindow last offset = Some next ->
  exists rung, queue_keys.RUN_QUEUES !! rung = Some (queueKeyFor (mkWindow last offset)) /\
               queue_keys.RUN_QUEUES !! S rung = Some (queueKeyFor next).
Proof.
  intros H. apply nextWindow_cases in H as [(-> & -> & ->)|[(-> & -> & ->)|(-> & -> & ->)]];
    [exists 0%nat|exists 1%nat|exists 2%nat]; split; reflexivity.
Qed.
