(* ===== verification/TickCache.v ===== *)
(** run/execution/tickCache.cppm: one loaded block of ticks serves every window
    of the ladder as a contiguous slice; a keyed cache of blocks with a lifetime
    and a cap. The loaders are injected by the code, so they are parameters
    here, as are the readings of the steady clock and the iteration order of the
    hash map. *)
From Stdlib Require Import ZArith Lia Sorted.
From stdpp Require Import base gmap list strings.
From S2P Require Import Prelude Models.
Open Scope Z_scope.

Record Superset : Type := mkSuperset { ticks : list PriceData; boundaries : list Z }.

(** [ticks[begin, begin + count)]. *)
Record SliceView : Type := mkSlice { slice_superset : Superset; begin : nat; count : nat }.

(** What the code reads through a view ([runnerBridge.cpp]'s [subspan]). *)
Definition view_ticks (v : SliceView) : list PriceData :=
  take (count v) (drop (begin v) (ticks (slice_superset v))).

(** The view lies inside its block. *)
Definition view_ok (v : SliceView) : Prop := (begin v + count v <= length (ticks (slice_superset v)))%nat.

(** [std::lower_bound] on [l[first, first + len)]: the range is halved [fuel]
    times at most; a range of [len] elements takes at most [len] halvings. *)
Fixpoint lower_bound_from (fuel : nat) (l : list PriceData) (boundary : Z) (first len : nat) : nat :=
  match fuel with
  | O => first
  | S fuel =>
      if (len =? 0)%nat then first
      else
        let half := Nat.div2 len in
        let middle := (first + half)%nat in
        match l !! middle with
        | None => first
        | Some tick =>
            if timestamp tick <? boundary
            then lower_bound_from fuel l boundary (middle + 1) (len - half - 1)
            else lower_bound_from fuel l boundary first half
        end
  end.

Definition lower_bound (l : list PriceData) (boundary : Z) (first : nat) : nat :=
  lower_bound_from (length l - first) l boundary first (length l - first).

Definition sliceForWindow (superset : Superset) (lastMonths offsetMonths : Z) : result SliceView :=
  if (lastMonths <? 1) || (offsetMonths <? 0) then Throw LogicError
  else
    let depth := Z.to_nat (lastMonths + offsetMonths) in
    if (length (boundaries superset) <=? depth)%nat then Throw LogicError
    else
      match boundaries superset !! depth, boundaries superset !! Z.to_nat offsetMonths with
      | Some deepest, Some nearest =>
          let lower := lower_bound (ticks superset) deepest 0 in
          let upper :=
            if offsetMonths =? 0 then length (ticks superset)
            else lower_bound (ticks superset) nearest lower in
          Ok (mkSlice superset lower (upper - lower))
      | _, _ => Throw UndefinedRead
      end.

(** * The search *)

Definition before (boundary : Z) (t : PriceData) : bool := timestamp t <? boundary.

(** Ticks in time order. *)
Definition in_time_order (l : list PriceData) : Prop := StronglySorted (fun a b => timestamp a <= timestamp b) l.

Lemma in_time_order_lookup l i j a b :
  in_time_order l -> (i <= j)%nat -> l !! i = Some a -> l !! j = Some b -> timestamp a <= timestamp b.
Proof.
  intros Hs. revert i j. induction Hs as [|x l Hs IH Hx]; intros i j Hij Hi Hj; [done|].
  destruct i as [|i], j as [|j]; simpl in *; try lia.
  - simplify_eq. lia.
  - simplify_eq. rewrite Forall_forall in Hx. apply Hx. now apply list_elem_of_lookup_2 in Hj.
  - now apply (IH i j); [lia| |].
Qed.

(** The point the search stops at splits the ticks at the boundary, whatever it
    started from, as long as the answer lies in the range. *)
Lemma lower_bound_from_spec fuel l boundary first len :
  in_time_order l -> (len <= fuel)%nat -> (first + len <= length l)%nat ->
  (forall i t, (i < first)%nat -> l !! i = Some t -> timestamp t < boundary) ->
  (forall i t, (first + len <= i)%nat -> l !! i = Some t -> boundary <= timestamp t) ->
  let p := lower_bound_from fuel l boundary first len in
  (first <= p <= first + len)%nat /\
  (forall i t, (i < p)%nat -> l !! i = Some t -> timestamp t < boundary) /\
  (forall i t, (p <= i)%nat -> l !! i = Some t -> boundary <= timestamp t).
Proof.
  intros Hs. revert first len. induction fuel as [|fuel IH]; intros first len Hf Hl Hlo Hhi; cbn.
  - assert (len = 0)%nat as -> by lia. rewrite Nat.add_0_r in Hhi. auto with lia.
  - destruct (Nat.eqb_spec len 0) as [->|Hlen]; [rewrite Nat.add_0_r in Hhi; auto with lia|].
    assert (Nat.div2 len < len)%nat as Hhalf by (apply Nat.lt_div2; lia).
    generalize dependent (Nat.div2 len). intros half Hhalf.
    destruct (lookup_lt_is_Some_2 l (first + half)) as [tick Htick]; [lia|]. rewrite Htick.
    destruct (Z.ltb_spec (timestamp tick) boundary) as [Hb|Hb].
    + destruct (IH (first + half + 1)%nat (len - half - 1)%nat) as (Hp & H1 & H2);
        [lia|lia| | |split_and!; [lia|lia|exact H1|exact H2]].
      * intros i t Hi Ht. pose proof (in_time_order_lookup l i (first + half) t tick Hs ltac:(lia) Ht Htick). lia.
      * intros i t Hi. apply Hhi. lia.
    + destruct (IH first half) as (Hp & H1 & H2);
        [lia|lia|exact Hlo| |split_and!; [lia|lia|exact H1|exact H2]].
      intros i t Hi Ht. pose proof (in_time_order_lookup l (first + half) i tick t Hs ltac:(lia) Htick Ht). lia.
Qed.

Lemma lower_bound_spec l boundary first :
  in_time_order l -> (first <= length l)%nat ->
  (forall i t, (i < first)%nat -> l !! i = Some t -> timestamp t < boundary) ->
  let p := lower_bound l boundary first in
  (first <= p <= length l)%nat /\
  (forall i t, (i < p)%nat -> l !! i = Some t -> timestamp t < boundary) /\
  (forall i t, (p <= i)%nat -> l !! i = Some t -> boundary <= timestamp t).
Proof.
  intros Hs Hf Hlo. unfold lower_bound.
  destruct (lower_bound_from_spec (length l - first) l boundary first (length l - first))
    as (Hp & H1 & H2); [done|lia|lia|done| |split_and!; [lia|lia|done|done]].
  intros i t Hi Ht. apply lookup_lt_Some in Ht. lia.
Qed.

Lemma filter_all {A} (p : A -> bool) l : (forall x, x ∈ l -> p x = true) -> List.filter p l = l.
Proof.
  induction l as [|x l IH]; intros H; [done|]. cbn. rewrite (H x) by constructor. f_equal.
  apply IH. intros y Hy. apply H. now constructor.
Qed.

Lemma filter_none {A} (p : A -> bool) l : (forall x, x ∈ l -> p x = false) -> List.filter p l = [].
Proof.
  induction l as [|x l IH]; intros H; [done|]. cbn. rewrite (H x) by constructor.
  apply IH. intros y Hy. apply H. now constructor.
Qed.

(** A block of the list whose members alone satisfy the test is the filter. *)
Lemma filter_block {A} (p : A -> bool) l i j :
  (i <= j <= length l)%nat ->
  (forall k x, l !! k = Some x -> p x = ((i <=? k) && (k <? j))%nat) ->
  List.filter p l = take (j - i) (drop i l).
Proof.
  intros Hij Hp.
  assert (l = take i l ++ take (j - i) (drop i l) ++ drop j l) as Hl.
  { rewrite <- (take_drop i l) at 1. f_equal. rewrite <- (take_drop (j - i) (drop i l)) at 1. f_equal.
    rewrite drop_drop. f_equal. lia. }
  rewrite Hl at 1. rewrite !List.filter_app.
  rewrite (filter_none p (take i l)), (filter_none p (drop j l)), filter_all, app_nil_r; [done|..].
  - intros x Hx. apply list_elem_of_lookup in Hx as [k Hk].
    assert (k < j - i)%nat as Hkj by (apply lookup_lt_Some in Hk; rewrite length_take in Hk; lia).
    rewrite lookup_take_lt, lookup_drop in Hk by done. rewrite (Hp _ _ Hk).
    apply andb_true_iff. split; [apply Nat.leb_le|apply Nat.ltb_lt]; lia.
  - intros x Hx. apply list_elem_of_lookup in Hx as [k Hk]. rewrite lookup_drop in Hk.
    rewrite (Hp _ _ Hk). apply andb_false_iff. right. apply Nat.ltb_ge. lia.
  - intros x Hx. apply list_elem_of_lookup in Hx as [k Hk].
    assert (k < i)%nat as Hki by (apply lookup_lt_Some in Hk; rewrite length_take in Hk; lia).
    rewrite lookup_take_lt in Hk by done. rewrite (Hp _ _ Hk). apply andb_false_iff. left.
    apply Nat.leb_gt. lia.
Qed.

(** * The slices *)

(** Month boundaries run backwards in time. *)
Definition descending (l : list Z) : Prop := StronglySorted (fun a b => b <= a) l.

Lemma descending_lookup l i j a b :
  descending l -> (i <= j)%nat -> l !! i = Some a -> l !! j = Some b -> b <= a.
Proof.
  intros Hs. revert i j. induction Hs as [|x l Hs IH Hx]; intros i j Hij Hi Hj; [done|].
  destruct i as [|i], j as [|j]; simpl in *; try lia.
  - simplify_eq. lia.
  - simplify_eq. rewrite Forall_forall in Hx. apply Hx. now apply list_elem_of_lookup_2 in Hj.
  - now apply (IH i j); [lia| |].
Qed.

Record well_loaded (s : Superset) : Prop := {
  loaded_ordered : in_time_order (ticks s);
  loaded_descending : descending (boundaries s);
}.

(** The window's SQL condition: [timestamp >= lower AND timestamp < upper], the
    upper bound left off a window that ends at the snapshot. *)
Definition in_window (lower : Z) (upper : option Z) (t : PriceData) : bool :=
  (lower <=? timestamp t) && match upper with Some upper => timestamp t <? upper | None => true end.

Definition window_ticks (s : Superset) (lastMonths offsetMonths : Z) : list PriceData :=
  match boundaries s !! Z.to_nat (lastMonths + offsetMonths) with
  | None => []
  | Some lower =>
      List.filter
        (in_window lower
           (if offsetMonths =? 0 then None else boundaries s !! Z.to_nat offsetMonths)) (ticks s)
  end.

Lemma slice_serves s lastMonths offsetMonths :
  well_loaded s -> 1 <= lastMonths -> 0 <= offsetMonths ->
  lastMonths + offsetMonths < Z.of_nat (length (boundaries s)) ->
  exists v, sliceForWindow s lastMonths offsetMonths = Ok v /\ slice_superset v = s /\
            (begin v + count v <= length (ticks s))%nat /\
            view_ticks v = window_ticks s lastMonths offsetMonths.
Proof.
  intros [Hord Hdesc] Hl Ho Hd. unfold sliceForWindow, window_ticks.
  destruct (Z.ltb_spec lastMonths 1) as [?|_]; [lia|].
  destruct (Z.ltb_spec offsetMonths 0) as [?|_]; [lia|]. cbn [orb].
  destruct (Nat.leb_spec (length (boundaries s)) (Z.to_nat (lastMonths + offsetMonths))) as [?|Hlt]; [lia|].
  destruct (lookup_lt_is_Some_2 _ _ Hlt) as [lo Elo].
  destruct (lookup_lt_is_Some_2 (boundaries s) (Z.to_nat offsetMonths)) as [hi Ehi]; [lia|].
  rewrite Elo, Ehi. pose proof (descending_lookup _ _ _ _ _ Hdesc (ltac:(lia) : (Z.to_nat offsetMonths <= Z.to_nat (lastMonths + offsetMonths))%nat) Ehi Elo) as Hlohi.
  destruct (lower_bound_spec (ticks s) lo 0 Hord ltac:(lia) ltac:(intros; lia)) as (Hp & Hp1 & Hp2).
  cbv zeta in Hp, Hp1, Hp2. revert Hp Hp1 Hp2. generalize (lower_bound (ticks s) lo 0). intros p Hp Hp1 Hp2.
  eexists. split; [reflexivity|]. split; [reflexivity|]. unfold view_ticks. cbn [slice_superset begin count].
  destruct (Z.eqb_spec offsetMonths 0) as [->|Hne].
  - split; [lia|]. symmetry. apply filter_block; [lia|]. intros k t Hk. unfold in_window.
    rewrite andb_true_r. pose proof (lookup_lt_Some _ _ _ Hk) as Hlen.
    rewrite (proj2 (Nat.ltb_lt k _) Hlen), andb_true_r.
    destruct (Nat.leb_spec p k) as [H|H]; [apply Z.leb_le; eauto|apply Z.leb_gt; eauto].
  - destruct (lower_bound_spec (ticks s) hi p Hord ltac:(lia)) as (Hq & Hq1 & Hq2).
    { intros i t Hi Ht. specialize (Hp1 i t Hi Ht). lia. }
    cbv zeta in Hq, Hq1, Hq2. revert Hq Hq1 Hq2. generalize (lower_bound (ticks s) hi p). intros q Hq Hq1 Hq2.
    split; [lia|]. symmetry. apply filter_block; [lia|]. intros k t Hk. unfold in_window. f_equal.
    + destruct (Nat.leb_spec p k) as [H|H]; [apply Z.leb_le; eauto|apply Z.leb_gt; eauto].
    + destruct (Nat.ltb_spec k q) as [H|H]; [apply Z.ltb_lt; eauto|apply Z.ltb_ge; eauto].
Qed.

Lemma slice_degenerate s lastMonths offsetMonths :
  lastMonths < 1 \/ offsetMonths < 0 \/
    Z.of_nat (length (boundaries s)) <= lastMonths + offsetMonths ->
  sliceForWindow s lastMonths offsetMonths = Throw LogicError.
Proof.
  intros H. unfold sliceForWindow.
  destruct (Z.ltb_spec lastMonths 1); [reflexivity|].
  destruct (Z.ltb_spec offsetMonths 0); [reflexivity|]. cbn [orb].
  destruct (Nat.leb_spec (length (boundaries s)) (Z.to_nat (lastMonths + offsetMonths))); [reflexivity|lia].
Qed.

Lemma filter_at l p boundary :
  in_time_order l ->
  List.filter p l = List.filter (fun t => p t && before boundary t) l ++
                    List.filter (fun t => p t && negb (before boundary t)) l.
Proof.
  unfold before. induction 1 as [|x l Hs IH Hx]; [done|]. cbn [List.filter].
  destruct (Z.ltb_spec (timestamp x) boundary) as [Hb|Hb]; cbn [negb].
  - rewrite andb_true_r, andb_false_r, IH. now destruct (p x).
  - rewrite andb_true_r, andb_false_r.
    rewrite (filter_none (fun t => p t && (timestamp t <? boundary)) l), app_nil_l.
    + assert (List.filter (fun t => p t && negb (timestamp t <? boundary)) l = List.filter p l) as ->;
        [|reflexivity].
      rewrite Forall_forall in Hx. apply List.filter_ext_in. intros y Hy%list_elem_of_In.
      specialize (Hx y Hy). destruct (Z.ltb_spec (timestamp y) boundary); [lia|]. apply andb_true_r.
    + intros y Hy. rewrite Forall_forall in Hx. specialize (Hx y Hy). apply andb_false_iff. right.
      apply Z.ltb_ge. lia.
Qed.

(** Two windows that meet make the window that spans both. *)
Lemma windows_meet s older newer offset :
  well_loaded s -> 1 <= older -> 1 <= newer -> 0 <= offset ->
  older + newer + offset < Z.of_nat (length (boundaries s)) ->
  window_ticks s older (newer + offset) ++ window_ticks s newer offset
  = window_ticks s (older + newer) offset.
Proof.
  intros [Hord Hdesc] Ho Hn Hf Hd. unfold window_ticks.
  destruct (lookup_lt_is_Some_2 (boundaries s) (Z.to_nat (older + newer + offset))) as [lo Elo]; [lia|].
  destruct (lookup_lt_is_Some_2 (boundaries s) (Z.to_nat (newer + offset))) as [mid Emid]; [lia|].
  replace (older + (newer + offset)) with (older + newer + offset) by lia. rewrite Elo, Emid.
  destruct (Z.eqb_spec (newer + offset) 0); [lia|].
  set (upper := if offset =? 0 then None else boundaries s !! Z.to_nat offset).
  rewrite (filter_at (ticks s) (in_window lo upper) mid Hord).
  pose proof (descending_lookup _ _ _ _ _ Hdesc (ltac:(lia) : (Z.to_nat (newer + offset) <= Z.to_nat (older + newer + offset))%nat) Emid Elo) as Hlm.
  f_equal; apply List.filter_ext; intros t; unfold in_window, before.
  - destruct (Z.ltb_spec (timestamp t) mid) as [Hb|]; [|now rewrite !andb_false_r].
    rewrite !andb_true_r. destruct (lo <=? timestamp t); [cbn|done]. unfold upper.
    destruct (offset =? 0) eqn:E0; [done|]. apply Z.eqb_neq in E0.
    destruct (lookup_lt_is_Some_2 (boundaries s) (Z.to_nat offset)) as [hi Ehi]; [lia|]. rewrite Ehi.
    pose proof (descending_lookup _ _ _ _ _ Hdesc (ltac:(lia) : (Z.to_nat offset <= Z.to_nat (newer + offset))%nat) Ehi Emid). symmetry. apply Z.ltb_lt. lia.
  - destruct (Z.leb_spec mid (timestamp t)) as [Hb|Hb]; cbn [andb].
    + rewrite (proj2 (Z.leb_le lo (timestamp t))), (proj2 (Z.ltb_ge (timestamp t) mid)) by lia.
      now rewrite andb_true_r.
    + rewrite (proj2 (Z.ltb_lt (timestamp t) mid)) by lia. now rewrite andb_false_r.
Qed.

(** * The cache *)

Record Entry : Type := mkEntry { entry_superset : Superset; loadedAt : Z }.

(** [readings] counts the steady clock's readings so far; it is the model's only
    addition to the members. *)
Record TickCache : Type := mkCache {
  supersets : gmap string Entry;
  hits : nat;
  misses : nat;
  readings : nat;
}.

Definition empty_cache : TickCache := mkCache ∅ 0 0 0.

(** What [get] does besides answering. *)
Inductive load_event : Type :=
| BeforeLoad
| SupersetLoad (symbolsCsv : string) (months : Z)
| WindowLoad (symbolsCsv : string) (lastMonths offsetMonths : Z).

(** The constructor's parameters, and the world it is run in: the [n]-th reading
    of the clock, what the loaders return when called just before that reading,
    and the hash map's iteration order. *)
Class CacheWorld : Type := {
  ttl : Z;
  maxSupersetsGiven : nat;
  defaultMonths : Z;
  clock : nat -> Z;
  supersetLoader : nat -> string -> Z -> result Superset;
  windowLoader : nat -> string -> Z -> Z -> result (list PriceData);
  entry_order : gmap string Entry -> list (string * Entry);
  entry_order_perm m : entry_order m ≡ₚ map_to_list m;
}.

Section Cache.
Context {W : CacheWorld}.

Definition maxSupersets : nat := Nat.max 1 maxSupersetsGiven.

(** [std::erase_if]: one clock reading per entry visited. *)
Definition erase_step (s : nat * gmap string Entry) (kv : string * Entry) : nat * gmap string Entry :=
  let '(n, kept) := s in
  (S n, if ttl <=? clock n - loadedAt kv.2 then base.delete kv.1 kept else kept).

Definition erase_stale (n : nat) (m : gmap string Entry) : nat * gmap string Entry :=
  foldl erase_step (n, m) (entry_order m).

(** [std::min_element]: the first of the smallest. *)
Definition oldest (kv : string * Entry) (rest : list (string * Entry)) : string * Entry :=
  foldl (fun best kv => if loadedAt kv.2 <? loadedAt best.2 then kv else best) kv rest.

Fixpoint evict_over (fuel : nat) (incomingKey : string) (m : gmap string Entry) : gmap string Entry :=
  match fuel with
  | O => m
  | S fuel =>
      if (maxSupersets <=? base.size m)%nat && negb (bool_decide (is_Some (m !! incomingKey))) then
        match entry_order m with
        | [] => m
        | kv :: rest => evict_over fuel incomingKey (base.delete (oldest kv rest).1 m)
        end
      else m
  end.

Definition evictFor (incomingKey : string) (c : TickCache) : TickCache :=
  let '(n, kept) := erase_stale (readings c) (supersets c) in
  mkCache (evict_over (base.size kept) incomingKey kept) (hits c) (misses c) n.

(** A call's answer, what it did, and the cache it leaves. *)
Definition outcome : Type := result SliceView * list load_event * TickCache.

Definition loadAdHoc (symbolsCsv : string) (lastMonths offsetMonths : Z) (beforeLoad : result unit)
    (c : TickCache) : outcome :=
  match beforeLoad with
  | Throw e => (Throw e, [BeforeLoad], c)
  | Ok _ =>
      (loaded <~ windowLoader (readings c) symbolsCsv lastMonths offsetMonths ;
       Ok (mkSlice (mkSuperset loaded []) 0 (length loaded)),
       [BeforeLoad; WindowLoad symbolsCsv lastMonths offsetMonths], c)
  end.

(** From the miss counter to the slice of the block just loaded. *)
Definition load_superset (symbolsCsv : string) (lastMonths offsetMonths monthsNeeded : Z)
    (beforeLoad : result unit) (c : TickCache) : outcome :=
  let c := mkCache (supersets c) (hits c) (S (misses c)) (readings c) in
  match beforeLoad with
  | Throw e => (Throw e, [BeforeLoad], c)
  | Ok _ =>
      let c := evictFor symbolsCsv c in
      let months := Z.max defaultMonths monthsNeeded in
      let events := [BeforeLoad; SupersetLoad symbolsCsv months] in
      match supersetLoader (readings c) symbolsCsv months with
      | Throw e => (Throw e, events, c)
      | Ok superset =>
          (sliceForWindow superset lastMonths offsetMonths, events,
           mkCache (<[symbolsCsv := mkEntry superset (clock (readings c))]> (supersets c))
             (hits c) (misses c) (S (readings c)))
      end
  end.

Definition get (symbolsCsv : string) (lastMonths offsetMonths : Z) (beforeLoad : result unit)
    (c : TickCache) : outcome :=
  if (1 <=? lastMonths) && (0 <=? offsetMonths) then
    let monthsNeeded := lastMonths +₃₂ offsetMonths in
    match supersets c !! symbolsCsv with
    | None => load_superset symbolsCsv lastMonths offsetMonths monthsNeeded beforeLoad c
    | Some entry =>
        let fresh := clock (readings c) - loadedAt entry <? ttl in
        let fits := monthsNeeded mod 2 ^ 64 <? Z.of_nat (length (boundaries (entry_superset entry))) in
        let c := mkCache (supersets c) (hits c) (misses c) (S (readings c)) in
        if fresh && fits then
          (sliceForWindow (entry_superset entry) lastMonths offsetMonths, [],
           mkCache (supersets c) (S (hits c)) (misses c) (readings c))
        else if fresh then loadAdHoc symbolsCsv lastMonths offsetMonths beforeLoad c
        else load_superset symbolsCsv lastMonths offsetMonths monthsNeeded beforeLoad c
    end
  else loadAdHoc symbolsCsv lastMonths offsetMonths beforeLoad c.

(** * What the cache promises *)

(** [loadTickSuperset]'s promise: [months + 1] boundaries running back from the
    snapshot, the ticks in time order. *)
Class LoaderLaws : Prop := {
  loader_laws n key months s :
    1 <= months -> supersetLoader n key months = Ok s ->
    well_loaded s /\ length (boundaries s) = Z.to_nat (months + 1);
}.

Context {L : LoaderLaws}.

(** The block was returned for the key at least this deep, at the moment its
    entry is stamped with. *)
Definition loaded_for (key : string) (s : Superset) (at_reading : nat) : Prop :=
  exists months, 1 <= months /\ defaultMonths <= months /\ supersetLoader at_reading key months = Ok s.

Record cache_inv (c : TickCache) : Prop := {
  inv_bounded : (base.size (supersets c) <= maxSupersets)%nat;
  inv_loaded key e : supersets c !! key = Some e ->
    exists n, (n < readings c)%nat /\ loadedAt e = clock n /\ loaded_for key (entry_superset e) n;
}.

Lemma empty_cache_inv : cache_inv empty_cache.
Proof. split; [cbn [supersets empty_cache]; rewrite map_size_empty; lia|]. intros key e H. cbn in H. now rewrite lookup_empty in H. Qed.

Lemma erase_stale_facts n m :
  (erase_stale n m).2 ⊆ m /\ (n <= (erase_stale n m).1)%nat.
Proof.
  unfold erase_stale. generalize (entry_order m). intros l.
  assert (forall s, (foldl erase_step s l).2 ⊆ s.2 /\ (s.1 <= (foldl erase_step s l).1)%nat) as H.
  { induction l as [|kv l IH]; intros s; [done|]. cbn [foldl].
    destruct (IH (erase_step s kv)) as [H1 H2]. destruct s as [k kept]. cbn in *. split; [|lia].
    etrans; [exact H1|]. destruct (ttl <=? _); [apply delete_subseteq|done]. }
  exact (H (n, m)).
Qed.

Lemma oldest_in kv rest : oldest kv rest ∈ kv :: rest.
Proof.
  unfold oldest. revert kv. induction rest as [|kv' rest IH]; intros kv; cbn [foldl]; [constructor|].
  destruct (loadedAt kv'.2 <? loadedAt kv.2); [constructor; apply IH|].
  specialize (IH kv). apply elem_of_cons in IH as [->|?]; [constructor|now repeat constructor].
Qed.

Lemma evict_over_facts fuel key m :
  (base.size m <= fuel)%nat ->
  let m' := evict_over fuel key m in
  m' ⊆ m /\ (is_Some (m' !! key) \/ (base.size m' < maxSupersets)%nat).
Proof.
  revert m. induction fuel as [|fuel IH]; intros m Hf; cbn [evict_over].
  - split; [done|]. right. unfold maxSupersets. lia.
  - destruct (Nat.leb_spec maxSupersets (base.size m)) as [Hm|Hm]; cbn [andb]; [|auto].
    case_bool_decide as Hk; cbn [negb]; [auto|].
    destruct (entry_order m) as [|kv rest] eqn:E.
    + assert (base.size m = 0%nat) as H0.
      { rewrite <- length_map_to_list, <- (Permutation_length (entry_order_perm m)), E. done. }
      split; [done|]. right. unfold maxSupersets in *. lia.
    + pose proof (oldest_in kv rest) as Hin. rewrite <- E, (entry_order_perm m) in Hin.
      destruct (oldest kv rest) as [k e]. apply elem_of_map_to_list in Hin. cbn [fst].
      destruct (IH (base.delete k m)) as [H1 H2].
      * rewrite map_size_delete_Some by eauto. lia.
      * split; [|exact H2]. etrans; [exact H1|apply delete_subseteq].
Qed.

Lemma evictFor_facts key c :
  let c' := evictFor key c in
  supersets c' ⊆ supersets c /\ (readings c <= readings c')%nat /\
  (is_Some (supersets c' !! key) \/ (base.size (supersets c') < maxSupersets)%nat) /\
  hits c' = hits c /\ misses c' = misses c.
Proof.
  unfold evictFor. pose proof (erase_stale_facts (readings c) (supersets c)) as [H1 H2].
  destruct (erase_stale (readings c) (supersets c)) as [n kept]. cbn in H1, H2 |- *.
  destruct (evict_over_facts (base.size kept) key kept ltac:(lia)) as [H3 H4].
  split_and!; auto. etrans; [exact H3|exact H1].
Qed.

(** How a window came to be served. *)
Inductive served (key : string) (lastMonths offsetMonths : Z) (c : TickCache)
    : SliceView -> list load_event -> Prop :=
(** from the resident block, still within its lifetime: nothing is loaded *)
| served_hit e n v :
    supersets c !! key = Some e -> loaded_for key (entry_superset e) n ->
    clock (readings c) - clock n < ttl ->
    slice_superset v = entry_superset e ->
    view_ticks v = window_ticks (entry_superset e) lastMonths offsetMonths ->
    served key lastMonths offsetMonths c v []
(** from a block loaded for the call, deep enough for the window *)
| served_load n s months v :
    months = Z.max defaultMonths (lastMonths + offsetMonths) ->
    (readings c <= n)%nat -> supersetLoader n key months = Ok s ->
    slice_superset v = s -> view_ticks v = window_ticks s lastMonths offsetMonths ->
    served key lastMonths offsetMonths c v [BeforeLoad; SupersetLoad key months]
(** by itself: the resident block is within its lifetime but too shallow *)
| served_ad_hoc e loaded v :
    supersets c !! key = Some e -> clock (readings c) - loadedAt e < ttl ->
    Z.of_nat (length (boundaries (entry_superset e))) <= lastMonths + offsetMonths ->
    windowLoader (S (readings c)) key lastMonths offsetMonths = Ok loaded ->
    view_ticks v = loaded ->
    served key lastMonths offsetMonths c v [BeforeLoad; WindowLoad key lastMonths offsetMonths].

Lemma size_insert_le {A} (m : gmap string A) k x n :
  is_Some (m !! k) /\ (base.size m <= n)%nat \/ (base.size m < n)%nat ->
  (base.size (<[k := x]> m) <= n)%nat.
Proof.
  intros H. rewrite map_size_insert. destruct H as [[[y Hy] Hn]|Hn].
  - rewrite Hy. done.
  - destruct (m !! k); cbn; unfold id; lia.
Qed.

Lemma view_all s : view_ticks (mkSlice s 0 (length (ticks s))) = ticks s.
Proof. unfold view_ticks. cbn. rewrite drop_0. now rewrite firstn_all. Qed.

Lemma inv_kept c c' :
  cache_inv c -> supersets c' ⊆ supersets c -> (readings c <= readings c')%nat -> cache_inv c'.
Proof.
  intros [Hb Hl] Hsub Hr. split.
  - apply map_subseteq_size in Hsub. lia.
  - intros key e He. destruct (Hl key e) as (n & Hn & H); [now apply (lookup_weaken _ _ _ _ He)|].
    exists n. split; [lia|done].
Qed.

Lemma load_superset_serves key lastMonths offsetMonths beforeLoad c :
  cache_inv c -> 1 <= lastMonths -> 0 <= offsetMonths ->
  let '(r, evs, c') := load_superset key lastMonths offsetMonths (lastMonths + offsetMonths) beforeLoad c in
  let months := Z.max defaultMonths (lastMonths + offsetMonths) in
  cache_inv c' /\ misses c' = S (misses c) /\ hits c' = hits c /\
  match beforeLoad with
  | Throw e => r = Throw e /\ evs = [BeforeLoad] /\ supersets c' = supersets c
  | Ok _ =>
      evs = [BeforeLoad; SupersetLoad key months] /\
      exists n, (readings c <= n)%nat /\
        match supersetLoader n key months with
        | Throw e => r = Throw e
        | Ok s => exists v, r = Ok v /\ slice_superset v = s /\ view_ok v /\
                            view_ticks v = window_ticks s lastMonths offsetMonths /\
                            supersets c' !! key = Some (mkEntry s (clock n)) /\
                            (readings c' = S n)%nat
        end
  end.
Proof.
  intros Hinv Hl Ho. unfold load_superset.
  set (c1 := mkCache (supersets c) (hits c) (S (misses c)) (readings c)).
  assert (cache_inv c1) as Hinv1 by (now apply (inv_kept c)).
  destruct beforeLoad as [[]|e]; [|done].
  pose proof (evictFor_facts key c1) as (Hsub & Hr & Hsz & Hh & Hm). cbv zeta in *.
  pose proof (inv_kept _ _ Hinv1 Hsub Hr) as Hinv2. revert Hsub Hr Hsz Hh Hm Hinv2.
  generalize (evictFor key c1). intros c2 Hsub Hr Hsz Hh Hm Hinv2.
  destruct (supersetLoader (readings c2) key _) as [s|e] eqn:Es.
  - destruct (loader_laws _ key (Z.max defaultMonths (lastMonths + offsetMonths)) _ ltac:(lia) Es) as [Hw Hlen].
    destruct (slice_serves s lastMonths offsetMonths Hw Hl Ho) as (v & Ev & Hv & Hok & Hticks); [lia|]. rewrite <- Hv in Hok.
    rewrite Ev. split; [|split; [exact Hm|split; [exact Hh|split; [done|]]]].
    + split; cbn [supersets readings].
      * apply size_insert_le. destruct Hsz as [Hsz|Hsz]; [left|now right].
        split; [done|]. apply (inv_bounded _ Hinv2).
      * intros key' e'. destruct (decide (key' = key)) as [->|Hk].
        -- rewrite lookup_insert_eq. intros [= <-]. exists (readings c2). split; [lia|]. split; [done|].
           eexists. split; [|split; [|exact Es]]; lia.
        -- rewrite lookup_insert_ne by done. intros He. destruct (inv_loaded _ Hinv2 _ _ He) as (n & Hn & H).
           exists n. split; [lia|done].
    + exists (readings c2). split; [exact Hr|]. rewrite Es. exists v. cbn [supersets readings].
      now rewrite lookup_insert_eq.
  - split; [done|]. split; [exact Hm|]. split; [exact Hh|]. split; [done|].
    exists (readings c2). split; [exact Hr|]. now rewrite Es.
Qed.

Lemma ad_hoc_serves key lastMonths offsetMonths beforeLoad c :
  let '(r, evs, c') := loadAdHoc key lastMonths offsetMonths beforeLoad c in
  c' = c /\
  match beforeLoad with
  | Throw e => r = Throw e /\ evs = [BeforeLoad]
  | Ok _ =>
      evs = [BeforeLoad; WindowLoad key lastMonths offsetMonths] /\
      match windowLoader (readings c) key lastMonths offsetMonths with
      | Throw e => r = Throw e
      | Ok loaded => exists v, r = Ok v /\ view_ok v /\ view_ticks v = loaded
      end
  end.
Proof.
  unfold loadAdHoc. destruct beforeLoad as [[]|e]; [|done]. split; [done|]. split; [done|].
  destruct (windowLoader _ _ _ _) as [loaded|e]; cbn; [|done].
  eexists. split; [done|]. split; [unfold view_ok; cbn; lia|]. apply (view_all (mkSuperset loaded [])).
Qed.

(** The only failures are the caller's callback's and the loaders'. *)
Definition load_failed (key : string) (lastMonths offsetMonths : Z) (beforeLoad : result unit) (e : exn)
    (evs : list load_event) : Prop :=
  (beforeLoad = Throw e /\ evs = [BeforeLoad]) \/
  (exists n months, supersetLoader n key months = Throw e /\
                    evs = [BeforeLoad; SupersetLoad key months]) \/
  (exists n, windowLoader n key lastMonths offsetMonths = Throw e /\
             evs = [BeforeLoad; WindowLoad key lastMonths offsetMonths]).

(** [TickCache::get] keeps the invariant, and answers with what [served] says. *)
Lemma get_serves key lastMonths offsetMonths beforeLoad c :
  cache_inv c -> 1 <= lastMonths -> 0 <= offsetMonths -> lastMonths + offsetMonths <= INT32_MAX ->
  let '(r, evs, c') := get key lastMonths offsetMonths beforeLoad c in
  cache_inv c' /\
  match r with
  | Ok v => served key lastMonths offsetMonths c v evs /\ view_ok v
  | Throw e => load_failed key lastMonths offsetMonths beforeLoad e evs
  end.
Proof.
  intros Hinv Hl Ho Hmax. unfold get.
  rewrite (proj2 (Z.leb_le 1 lastMonths)), (proj2 (Z.leb_le 0 offsetMonths)) by done. cbn [andb].
  unwrap.
  assert (forall c0, cache_inv c0 -> (readings c <= readings c0)%nat ->
    let '(r, evs, c') := load_superset key lastMonths offsetMonths (lastMonths + offsetMonths) beforeLoad c0 in
    cache_inv c' /\
    match r with
    | Ok v => served key lastMonths offsetMonths c v evs /\ view_ok v
    | Throw e => load_failed key lastMonths offsetMonths beforeLoad e evs
    end) as Hload.
  { intros c0 Hinv0 Hr. pose proof (load_superset_serves key lastMonths offsetMonths beforeLoad c0 Hinv0 Hl Ho) as H.
    destruct (load_superset _ _ _ _ _ _) as [[r evs] c']. destruct H as (H1 & _ & _ & H).
    split; [exact H1|]. destruct beforeLoad as [[]|e].
    - destruct H as (-> & n & Hn & H). destruct (supersetLoader n key _) as [s|e] eqn:Es.
      + destruct H as (v & -> & Hv & Hok & Ht & _). split; [|done].
        eapply served_load; [reflexivity| |exact Es|done|done]. lia.
      + subst r. right. left. eauto.
    - destruct H as (-> & -> & _). left. auto. }
  destruct (supersets c !! key) as [entry|] eqn:E; [|now apply Hload].
  assert (cache_inv (mkCache (supersets c) (hits c) (misses c) (S (readings c)))) as Hinv1
    by (apply (inv_kept c); [done|done|cbn; lia]).
  destruct (inv_loaded _ Hinv _ _ E) as (n & Hn & Hat & Hfor).
  rewrite Z.mod_small by (unfold INT32_MAX in Hmax; lia).
  destruct (Z.ltb_spec (clock (readings c) - loadedAt entry) ttl) as [Hfresh|Hstale]; cbn [andb];
    [|now apply Hload; [|cbn; lia]].
  destruct (Z.ltb_spec (lastMonths + offsetMonths) (Z.of_nat (length (boundaries (entry_superset entry)))))
    as [Hfits|Hshallow].
  - split; [apply (inv_kept c); [done|done|cbn; lia]|]. destruct Hfor as (months & H1 & H2 & Es).
    destruct (loader_laws n key months _ H1 Es) as [Hw _].
    destruct (slice_serves _ _ _ Hw Hl Ho Hfits) as (v & -> & Hv & Hok & Ht).
    split; [|unfold view_ok; rewrite Hv; exact Hok].
    eapply (served_hit _ _ _ _ entry n); [done| | |done|done]; [now exists months|now rewrite <- Hat].
  - pose proof (ad_hoc_serves key lastMonths offsetMonths beforeLoad
                  (mkCache (supersets c) (hits c) (misses c) (S (readings c)))) as H.
    destruct (loadAdHoc _ _ _ _ _) as [[r evs] c']. destruct H as [-> H]. split; [exact Hinv1|].
    destruct beforeLoad as [[]|e].
    + destruct H as [-> H]. cbn [readings] in H.
      destruct (windowLoader _ _ _ _) as [loaded|e] eqn:Ew.
      * destruct H as (v & -> & Hok & Ht). split; [|done]. eapply (served_ad_hoc _ _ _ _ entry loaded); done.
      * subst r. right. right. eauto.
    + destruct H as [-> ->]. left. auto.
Qed.
End Cache.

(** On one block, the ladder's three slices, oldest first, are the nine
    months of the final run: the windows overlap nowhere and leave no tick out. *)
Theorem ladder_slices_cover s :
  well_loaded s -> (10 <= length (boundaries s))%nat ->
  exists v1 v2 v3 v,
    sliceForWindow s 3 6 = Ok v1 /\ sliceForWindow s 3 3 = Ok v2 /\ sliceForWindow s 3 0 = Ok v3 /\
    sliceForWindow s 9 0 = Ok v /\
    view_ticks v1 ++ view_ticks v2 ++ view_ticks v3 = view_ticks v.
Proof.
  intros Hw Hlen.
  destruct (slice_serves s 3 6 Hw) as (v1 & -> & _ & _ & H1); [lia..|].
  destruct (slice_serves s 3 3 Hw) as (v2 & -> & _ & _ & H2); [lia..|].
  destruct (slice_serves s 3 0 Hw) as (v3 & -> & _ & _ & H3); [lia..|].
  destruct (slice_serves s 9 0 Hw) as (v & -> & _ & _ & H); [lia..|].
  exists v1, v2, v3, v. split_and!; [done..|]. rewrite H1, H2, H3, H.
  pose proof (windows_meet s 3 3 0 Hw) as E1. pose proof (windows_meet s 3 6 0 Hw) as E2.
  change (3 + 0) with 3 in E1. change (3 + 3) with 6 in E1. change (6 + 0) with 6 in E2.
  change (3 + 6) with 9 in E2. rewrite E1 by lia. apply E2; lia.
Qed.

(** * A concrete world *)

Definition demo_ticks : list PriceData :=
  map (fun i => mkPriceData (1000 + Z.of_nat i) 1000 (Z.of_nat i * 7) "EURUSD") (seq 0 20).

Definition demo_block (months : Z) : Superset :=
  mkSuperset demo_ticks (map (fun i => 140 - 14 * Z.of_nat i) (seq 0 (Z.to_nat (months + 1)))).

#[local] Instance demo_world : CacheWorld := {|
  ttl := 100;
  maxSupersetsGiven := 0;
  defaultMonths := 9;
  clock := fun n => 10 * Z.of_nat n;
  supersetLoader := fun _ _ months => Ok (demo_block months);
  windowLoader := fun _ _ _ _ => Ok demo_ticks;
  entry_order := map_to_list;
  entry_order_perm := fun m => Permutation_refl _;
|}.

Lemma descending_seq f start n :
  (forall i, f (S i) <= f i) -> descending (map f (seq start n)).
Proof.
  intros Hf. revert start. induction n as [|n IH]; intros start; cbn; [constructor|].
  constructor; [apply IH|]. apply Forall_forall. intros x Hx.
  apply list_elem_of_In, in_map_iff in Hx as (i & <- & Hi). apply in_seq in Hi.
  destruct Hi as [Hi _]. clear IH. induction Hi as [|i Hi IH]; [apply Hf|]. specialize (Hf i). lia.
Qed.

Lemma demo_block_loaded months : well_loaded (demo_block months).
Proof.
  split; [|apply descending_seq; lia]. cbn.
  repeat (apply SSorted_cons; [|repeat constructor; cbn; lia]). constructor.
Qed.

#[local] Instance demo_laws : LoaderLaws.
Proof.
  constructor. intros n key months s Hm [= <-]. split; [apply demo_block_loaded|].
  cbn [boundaries demo_block]. now rewrite length_map, length_seq.
Qed.

Lemma ladder_slices_cover_witness :
  exists v1 v2 v3 v,
    sliceForWindow (demo_block 9) 3 6 = Ok v1 /\ sliceForWindow (demo_block 9) 3 3 = Ok v2 /\
    sliceForWindow (demo_block 9) 3 0 = Ok v3 /\ sliceForWindow (demo_block 9) 9 0 = Ok v /\
    view_ticks v1 ++ view_ticks v2 ++ view_ticks v3 = view_ticks v.
Proof. apply (ladder_slices_cover (demo_block 9) (demo_block_loaded 9)). apply Nat.leb_le. reflexivity. Defined.

(** Two calls: a load, then a hit on the same block. *)
Example demo_gets :
  let '(r1, evs1, c1) := get "EURUSD" 3 0 (Ok tt) empty_cache in
  let '(r2, evs2, c2) := get "EURUSD" 3 3 (Ok tt) c1 in
  evs1 = [BeforeLoad; SupersetLoad "EURUSD" 9] /\ evs2 = [] /\
  match r1, r2 with
  | Ok v1, Ok v2 => (count v1, count v2) = (6%nat, 6%nat)
  | _, _ => False
  end /\ (hits c2, misses c2) = (1%nat, 1%nat).
Proof. vm_compute. auto. Qed.
