(* ===== verification/WireTime.v ===== *)
(** The timestamps of the QuestDB wire: [fastParseTimestamp]
    (shared/questdb/databaseConnection.cppm), which reads what the server
    prints, and [SqlManager::formatTimestamp] (shared/questdb/sqlManager.cppm),
    which prints the literals of a query. [std::sscanf], [timegm] and
    [std::format] are the library's. *)
From Stdlib Require Import ZArith Lia.
From stdpp Require Import base list strings.
From S2P Require Import Prelude Chrono Json JsonFloat JsonDump StdText IsoTime.
Open Scope Z_scope.

(** * [std::sscanf] *)

(** Up to [width] digits, and what follows them. *)
Fixpoint take_digits (width : nat) (l : list Ascii.ascii) : list Ascii.ascii * list Ascii.ascii :=
  match width, l with
  | S width, c :: rest =>
      if is_digit c then let '(ds, tail) := take_digits width rest in (c :: ds, tail) else ([], l)
  | _, _ => ([], l)
  end.

(** [%<width>d]: white space is skipped, a sign counts towards the width. *)
Definition scan_int (width : nat) (l : list Ascii.ascii) : option (Z * list Ascii.ascii) :=
  let l := skip_space l in
  let '(sign, width, l) :=
    match l with
    | c :: rest =>
        if byte_of c =? 45 then (-1, pred width, rest)
        else if byte_of c =? 43 then (1, pred width, rest) else (1, width, l)
    | [] => (1, width, l)
    end in
  match take_digits width l with
  | ([], _) => None
  | (ds, rest) => Some (sign * digits_value ds, rest)
  end.

(** A literal character of the format, or one of a set ([%*1[T ]]). *)
Definition scan_one (accepts : Z -> bool) (l : list Ascii.ascii) : option (list Ascii.ascii) :=
  match l with c :: rest => if accepts (byte_of c) then Some rest else None | [] => None end.

Record Fields : Type := mkFields {
  f_year : Z; f_month : Z; f_day : Z; f_hour : Z; f_min : Z; f_sec : Z
}.

(** All six fields of [%4d-%2d-%2d%*1[T ]%2d:%2d:%2d], and the text from [%n] on. *)
Definition scan_fields (l : list Ascii.ascii) : option (Fields * list Ascii.ascii) :=
  year ← scan_int 4 l;
  l ← scan_one (Z.eqb 45) year.2;
  month ← scan_int 2 l;
  l ← scan_one (Z.eqb 45) month.2;
  day ← scan_int 2 l;
  l ← scan_one (fun b => (b =? 84) || (b =? 32)) day.2;
  hour ← scan_int 2 l;
  l ← scan_one (Z.eqb 58) hour.2;
  min ← scan_int 2 l;
  l ← scan_one (Z.eqb 58) min.2;
  sec ← scan_int 2 l;
  Some (mkFields year.1 month.1 day.1 hour.1 min.1 sec.1, sec.2).

(** * [fastParseTimestamp] *)

(** Out-of-range months and days carry over. *)
Definition timegm (year month day : Z) : Z :=
  86400 * (days_from_civil (year + (month - 1) / 12) ((month - 1) mod 12 + 1) 1 + day - 1).

Record DateCache : Type := mkDateCache { cache_date : list Ascii.ascii; cache_epoch : Z }.
Definition emptyDateCache : DateCache := mkDateCache [] 0.

(** The microseconds after the point, scaled by the digits actually present. *)
Definition fraction (rest : list Ascii.ascii) : result Z :=
  match rest with
  | c :: p =>
      if byte_of c =? 46 then
        match (take_digits 6 p).1 with
        | [] => Throw RuntimeError
        | ds => Ok (digits_value ds * 10 ^ (6 - Z.of_nat (length ds)))
        end
      else Ok 0
  | [] => Ok 0
  end.

(** A time point in microseconds, and the cache the call leaves. *)
Definition fastParseTimestamp (ts : list Ascii.ascii) (cache : DateCache) : result Z * DateCache :=
  match scan_fields ts with
  | None => (Throw RuntimeError, cache)
  | Some (f, rest) =>
      match fraction rest with
      | Throw e => (Throw e, cache)
      | Ok usec =>
          let date := take 10 ts in
          let cache :=
            if bool_decide (cache_date cache = date) then cache
            else mkDateCache date (timegm (f_year f) (f_month f) (f_day f)) in
          (Ok ((cache_epoch cache + f_hour f * 3600 + f_min f * 60 + f_sec f) * 1000000 + usec), cache)
      end
  end.

(** * [SqlManager::formatTimestamp] *)

(** [%Y-%m-%d], the year padded to four digits. *)
Definition iso_date (day : Z) : string :=
  let '(y, m, d) := civil_from_days day in
  padded 4 y +:+ "-" +:+ padded 2 m +:+ "-" +:+ padded 2 d.

(** [%S] of a time in microseconds prints all six digits of the fraction. *)
Definition formatTimestamp (tp : Z) : string :=
  iso_date (floor_days tp) +:+ "T" +:+ format_time (tp / 1000000 mod 86400) +:+ "."
    +:+ padded 6 (tp mod 1000000) +:+ "Z".

(** * Digits *)

Lemma digits_value_zeros n l :
  digits_value (repeat (digit_char 0) n ++ l) = digits_value l.
Proof.
  unfold digits_value. rewrite fold_left_app. f_equal. induction n as [|n IH]; [done|]. exact IH.
Qed.

Lemma zero_pad_chars n : chars (zero_pad n) = repeat (digit_char 0) n.
Proof. induction n as [|n IH]; [done|]. cbn [zero_pad]. rewrite chars_append, IH. reflexivity. Qed.

Lemma is_digits_zeros n : is_digits (repeat (digit_char 0) n).
Proof. induction n; constructor; [reflexivity|done]. Qed.

Lemma length_chars s : length (chars s) = String.length s.
Proof. induction s as [|c s IH]; [done|]. cbn. f_equal. exact IH. Qed.

(** A padded number in range is exactly its width's digits. *)
Lemma padded_digits n z :
  (1 <= n <= 18)%nat -> 0 <= z < 10 ^ Z.of_nat n ->
  is_digits (chars (padded n z)) /\ digits_value (chars (padded n z)) = z /\
  length (chars (padded n z)) = n.
Proof.
  intros Hn Hz.
  assert (10 ^ Z.of_nat n <= 10 ^ 18) by (apply Z.pow_le_mono_r; lia).
  assert (is_digits (to_string_chars z) /\ digits_value (to_string_chars z) = z /\
          (length (to_string_chars z) <= n)%nat) as (H1 & H2 & H3).
  { destruct (to_string_chars_prints z ltac:(lia)) as [[-> ->]|[[Hp Hpr]|[? _]]]; [| |lia].
    - split; [|split]; [repeat constructor|reflexivity|cbn; lia].
    - destruct Hpr as (Hd & Hv & Hb & _). split_and!; [done|done|].
      destruct (decide (length (to_string_chars z) <= n)%nat); [done|exfalso].
      assert (10 ^ Z.of_nat n <= 10 ^ (Z.of_nat (length (to_string_chars z)) - 1))
        by (apply Z.pow_le_mono_r; lia). lia. }
  unfold padded, to_string. rewrite chars_append, zero_pad_chars, chars_text.
  split_and!.
  - apply Forall_app. split; [apply is_digits_zeros|done].
  - now rewrite digits_value_zeros.
  - rewrite length_app, repeat_length, <- length_chars, chars_text. lia.
Qed.

Lemma take_digits_exact ds tail : is_digits ds -> take_digits (length ds) (ds ++ tail) = (ds, tail).
Proof.
  induction 1 as [|c ds Hc _ IH]; [now destruct tail|]. cbn. now rewrite Hc, IH.
Qed.

(** The fraction may be shorter than six digits. *)
Definition ends_digits (tail : list Ascii.ascii) : Prop :=
  match tail with c :: _ => is_digit c = false | [] => True end.

Lemma take_digits_short n ds tail :
  is_digits ds -> (length ds <= n)%nat -> ends_digits tail -> take_digits n (ds ++ tail) = (ds, tail).
Proof.
  intros Hd. revert n. induction Hd as [|c ds Hc _ IH]; intros n Hn Ht.
  - destruct tail as [|c tail], n; cbn in *; [done..|]. now rewrite Ht.
  - destruct n as [|n]; cbn in Hn; [lia|]. cbn. rewrite Hc, IH; [done|lia|done].
Qed.

Lemma is_digit_not_space c : is_digit c = true -> is_space c = false.
Proof. intros H%is_digit_bounds. unfold is_space. zbool. lia. Qed.

Lemma scan_int_padded n z tail :
  (1 <= n <= 18)%nat -> 0 <= z < 10 ^ Z.of_nat n ->
  scan_int n (chars (padded n z) ++ tail) = Some (z, tail).
Proof.
  intros Hn Hz. destruct (padded_digits n z Hn Hz) as (Hd & Hv & Hlen).
  destruct (chars (padded n z)) as [|c ds] eqn:E; [cbn in Hlen; lia|].
  pose proof Hd as Hd'. apply Forall_cons in Hd' as [Hc _]. pose proof (is_digit_bounds _ Hc).
  unfold scan_int. cbn [skip_space app]. rewrite (is_digit_not_space _ Hc).
  rewrite (proj2 (Z.eqb_neq (byte_of c) 45)), (proj2 (Z.eqb_neq (byte_of c) 43)) by lia.
  rewrite app_comm_cons, <- Hlen, take_digits_exact by done. rewrite Hv. do 2 f_equal. lia.
Qed.

(** * The round trip *)

(** A timestamp as the wire may carry it: either separator, a fraction of
    [digits] digits (none, and no point, for 0), and whatever follows. *)
Definition wire_text (sep : Ascii.ascii) (digits : nat) (tp : Z) (tail : list Ascii.ascii)
    : list Ascii.ascii :=
  (chars (iso_date (floor_days tp)) ++ sep :: chars (format_time (tp / 1000000 mod 86400)) ++
   match digits with
   | O => []
   | _ => char_of 46 :: chars (padded digits (tp mod 1000000 / 10 ^ (6 - Z.of_nat digits)))
   end ++ tail)%list.

Lemma formatTimestamp_wire tp :
  chars (formatTimestamp tp) = wire_text (char_of 84) 6 tp [char_of 90].
Proof.
  unfold formatTimestamp, wire_text. rewrite !chars_append. rewrite Z.div_1_r.
  reflexivity.
Qed.

Definition separator (sep : Ascii.ascii) : Prop := byte_of sep = 84 \/ byte_of sep = 32.

Lemma scan_one_hit accepts c l : accepts (byte_of c) = true -> scan_one accepts (c :: l) = Some l.
Proof. intros H. cbn. now rewrite H. Qed.

(** The year is one the format prints with four digits. *)
Definition wire_day (day : Z) : Prop := 0 <= year_of day <= 9999.

Lemma civil_bounds day y m d :
  civil_from_days day = (y, m, d) ->
  days_from_civil y m d = day /\ 1 <= m <= 12 /\ 1 <= d <= 31 /\ y = year_of day.
Proof.
  intros E. pose proof (civil_round_trip day) as H. unfold year_of. rewrite E in *. now destruct H as (? & ? & ?).
Qed.

Lemma scan_stamp day sep second tail :
  wire_day day -> separator sep -> 0 <= second < 86400 ->
  scan_fields (chars (iso_date day) ++ sep :: chars (format_time second) ++ tail) =
  let '(y, m, d) := civil_from_days day in
  Some (mkFields y m d (second / 3600) (second / 60 mod 60) (second mod 60), tail).
Proof.
  intros Hd Hs Ht. unfold iso_date. destruct (civil_from_days day) as [[y m] d] eqn:E.
  apply civil_bounds in E as (_ & Hm & Hdd & Hy). unfold wire_day in Hd. rewrite <- Hy in Hd.
  unfold format_time. rewrite !chars_append. rewrite <- !app_assoc.
  change (chars "-") with [char_of 45]. change (chars ":") with [char_of 58]. cbn [app].
  unfold scan_fields.
  rewrite scan_int_padded by (simpl; lia). cbn [mbind option_bind fst snd].
  rewrite scan_one_hit by reflexivity. cbn [mbind option_bind fst snd].
  rewrite scan_int_padded by (simpl; lia). cbn [mbind option_bind fst snd].
  rewrite scan_one_hit by reflexivity. cbn [mbind option_bind fst snd].
  rewrite scan_int_padded by (simpl; lia). cbn [mbind option_bind fst snd].
  rewrite scan_one_hit by (destruct Hs as [-> | ->]; reflexivity). cbn [mbind option_bind fst snd].
  rewrite scan_int_padded by (simpl; Z.div_mod_to_equations; lia). cbn [mbind option_bind fst snd].
  rewrite scan_one_hit by reflexivity. cbn [mbind option_bind fst snd].
  rewrite scan_int_padded by (simpl; Z.div_mod_to_equations; lia). cbn [mbind option_bind fst snd].
  rewrite scan_one_hit by reflexivity. cbn [mbind option_bind fst snd].
  rewrite scan_int_padded by (simpl; Z.div_mod_to_equations; lia). reflexivity.
Qed.

Lemma iso_date_length day : wire_day day -> length (chars (iso_date day)) = 10%nat.
Proof.
  intros Hd. unfold iso_date. destruct (civil_from_days day) as [[y m] d] eqn:E.
  apply civil_bounds in E as (_ & Hm & Hdd & Hy). unfold wire_day in Hd. rewrite <- Hy in Hd.
  rewrite !chars_append, !length_app.
  destruct (padded_digits 4 y ltac:(lia) ltac:(simpl; lia)) as (_ & _ & ->).
  destruct (padded_digits 2 m ltac:(lia) ltac:(simpl; lia)) as (_ & _ & ->).
  destruct (padded_digits 2 d ltac:(lia) ltac:(simpl; lia)) as (_ & _ & ->). reflexivity.
Qed.

Lemma iso_date_inj day day' :
  wire_day day -> wire_day day' -> chars (iso_date day) = chars (iso_date day') -> day = day'.
Proof.
  intros H H' E.
  pose proof (scan_stamp day (char_of 84) 0 [] H (or_introl eq_refl) ltac:(lia)) as S1.
  pose proof (scan_stamp day' (char_of 84) 0 [] H' (or_introl eq_refl) ltac:(lia)) as S2.
  rewrite E, S2 in S1.
  destruct (civil_from_days day) as [[y m] d] eqn:E1, (civil_from_days day') as [[y' m'] d'] eqn:E2.
  injection S1 as -> -> ->. apply civil_bounds in E1 as [<- _], E2 as [<- _]. done.
Qed.

Lemma timegm_civil day y m d : civil_from_days day = (y, m, d) -> timegm y m d = 86400 * day.
Proof.
  intros E. apply civil_bounds in E as (<- & Hm & _ & _). unfold timegm.
  rewrite (Z.div_small (m - 1) 12), (Z.mod_small (m - 1) 12) by lia.
  replace (m - 1 + 1) with m by lia. rewrite Z.add_0_r. unfold days_from_civil. cbv zeta. lia.
Qed.

Definition cache_ok (c : DateCache) : Prop :=
  cache_date c = [] \/
  exists day, wire_day day /\ cache_date c = chars (iso_date day) /\ cache_epoch c = 86400 * day.

Lemma fraction_wire digits usec tail :
  (digits <= 6)%nat -> 0 <= usec < 1000000 -> usec mod 10 ^ (6 - Z.of_nat digits) = 0 ->
  ends_digits tail -> (digits = 0%nat -> match tail with c :: _ => byte_of c <> 46 | [] => True end) ->
  fraction (match digits with
            | O => []
            | _ => char_of 46 :: chars (padded digits (usec / 10 ^ (6 - Z.of_nat digits)))
            end ++ tail) = Ok usec.
Proof.
  intros Hn Hu Hm Ht H0. destruct digits as [|n].
  - cbn [app]. assert (usec = 0) as -> by (cbn in Hm; rewrite Z.mod_small in Hm; lia).
    destruct tail as [|c tail]; [done|]. unfold fraction. specialize (H0 eq_refl).
    now rewrite (proj2 (Z.eqb_neq _ _) H0).
  - assert (0 < 10 ^ (6 - Z.of_nat (S n))) as Hp by (apply Z.pow_pos_nonneg; lia).
    assert (10 ^ (6 - Z.of_nat (S n)) * 10 ^ Z.of_nat (S n) = 1000000) as Hmul.
    { rewrite <- Z.pow_add_r by lia. now replace (6 - Z.of_nat (S n) + Z.of_nat (S n)) with 6 by lia. }
    pose proof (Z.div_mod usec (10 ^ (6 - Z.of_nat (S n))) ltac:(lia)) as Hdiv. rewrite Hm in Hdiv.
    destruct (padded_digits (S n) (usec / 10 ^ (6 - Z.of_nat (S n))) ltac:(lia)) as (Hd & Hv & Hlen).
    { split; [apply Z.div_pos; lia|apply Z.div_lt_upper_bound; [lia|]]. rewrite Hmul. lia. }
    cbn [app fraction]. change (byte_of (char_of 46) =? 46) with true. cbn iota.
    rewrite take_digits_short by (done || lia). cbn [fst].
    destruct (chars (padded (S n) _)) as [|c ds] eqn:Ec; [cbn in Hlen; lia|].
    rewrite Hv, Hlen. f_equal. lia.
Qed.

(** A field that prints the instant: either separator, any number of fraction
    digits once the trailing zeros are trimmed, any text after them. *)
Definition printed (tp : Z) (field : list Ascii.ascii) : Prop :=
  wire_day (floor_days tp) /\
  exists sep digits tail,
    field = wire_text sep digits tp tail /\ separator sep /\ (digits <= 6)%nat /\
    tp mod 1000000 mod 10 ^ (6 - Z.of_nat digits) = 0 /\ ends_digits tail /\
    (digits = 0%nat -> match tail with c :: _ => byte_of c <> 46 | [] => True end).

Lemma parse_printed tp field c :
  printed tp field -> cache_ok c ->
  exists c', fastParseTimestamp field c = (Ok tp, c') /\ cache_ok c'.
Proof.
  intros (Hday & sep & digits & tail & -> & Hsep & Hn & Hm & Ht & H0) Hc.
  unfold fastParseTimestamp, wire_text.
  rewrite scan_stamp by (done || (apply Z.mod_pos_bound; lia)).
  destruct (civil_from_days (floor_days tp)) as [[y m] d] eqn:E.
  rewrite fraction_wire by (done || (apply Z.mod_pos_bound; lia)). cbn [f_year f_month f_day f_hour f_min f_sec].
  rewrite (timegm_civil _ _ _ _ E).
  rewrite take_app_le by (rewrite iso_date_length by done; lia).
  rewrite take_ge by (rewrite iso_date_length by done; lia).
  assert (forall epoch, epoch = 86400 * floor_days tp ->
    (epoch + tp / 1000000 mod 86400 / 3600 * 3600 + tp / 1000000 mod 86400 / 60 mod 60 * 60 +
     tp / 1000000 mod 86400 mod 60) * 1000000 + tp mod 1000000 = tp) as Harith.
  { intros epoch ->. unfold floor_days, day_length. Z.div_mod_to_equations. lia. }
  case_bool_decide as Ed; eexists; (split; [f_equal; f_equal; apply Harith|]).
  - destruct Hc as [Hc|(day & Hwd & Hcd & ->)].
    + rewrite Hc in Ed. apply (f_equal length) in Ed. now rewrite iso_date_length in Ed.
    + rewrite Hcd in Ed. now rewrite (iso_date_inj _ _ Hwd Hday Ed).
  - done.
  - done.
  - right. exists (floor_days tp). done.
Qed.

Lemma formatTimestamp_printed tp :
  wire_day (floor_days tp) -> printed tp (chars (formatTimestamp tp)).
Proof.
  intros H. split; [done|]. exists (char_of 84), 6%nat, [char_of 90].
  split; [apply formatTimestamp_wire|]. split; [now left|]. split; [lia|].
  split; [apply Z.mod_1_r|]. split; [reflexivity|lia].
Qed.

(** One call per field, on one cache. *)
Fixpoint parse_fields (fields : list (list Ascii.ascii)) (c : DateCache) : list (result Z) * DateCache :=
  match fields with
  | [] => ([], c)
  | field :: fields =>
      let '(r, c) := fastParseTimestamp field c in
      let '(rest, c) := parse_fields fields c in (r :: rest, c)
  end.

(** Over a query's rows, [fastParseTimestamp] reads back the microsecond of
    every instant the server printed - a blank or a [T] between date and time,
    any number of fraction digits with the trailing zeros trimmed - its one-entry
    date cache never answering for another day; and a boundary printed by
    [formatTimestamp] for a query literal reads back as the boundary. *)
Theorem timestamps_round_trip instants fields c :
  Forall2 printed instants fields -> cache_ok c ->
  (exists c', cache_ok c' /\ parse_fields fields c = (map Ok instants, c')) /\
  Forall (fun tp => (fastParseTimestamp (chars (formatTimestamp tp)) c).1 = Ok tp) instants.
Proof.
  intros H Hc. split.
  - revert c Hc. induction H as [|tp field instants fields Hp _ IH]; intros c Hc; cbn [parse_fields map].
    + now exists c.
    + destruct (parse_printed _ _ _ Hp Hc) as (c1 & -> & Hc1).
      destruct (IH c1 Hc1) as (c' & Hc' & ->). now exists c'.
  - induction H as [|tp field instants fields Hp _ IH]; constructor; [|exact IH].
    destruct (parse_printed tp (chars (formatTimestamp tp)) c) as (c' & -> & _); [|done|done].
    apply formatTimestamp_printed, Hp.
Qed.

(** Two rows of one day, one of the next, as the wire prints them. *)
Definition demo_instants : list Z := [1783432992500000; 1783432993000001; 1783468800000000].
Definition demo_fields : list (list Ascii.ascii) :=
  [chars "2026-07-07 14:03:12.5"; chars "2026-07-07 14:03:13.000001"; chars "2026-07-08 00:00:00"].

Lemma demo_printed : Forall2 printed demo_instants demo_fields.
Proof.
  constructor; [|constructor; [|constructor; [|constructor]]].
  all: split; [split; apply Z.leb_le; vm_compute; reflexivity|exists (char_of 32)].
  - exists 1%nat, []. split; [vm_compute; reflexivity|]. split; [now right|]. split; [lia|].
    split; [reflexivity|]. split; [exact I|lia].
  - exists 6%nat, []. split; [vm_compute; reflexivity|]. split; [now right|]. split; [lia|].
    split; [reflexivity|]. split; [exact I|lia].
  - exists 0%nat, []. split; [vm_compute; reflexivity|]. split; [now right|]. split; [lia|].
    split; [reflexivity|]. split; [exact I|done].
Qed.

Lemma timestamps_round_trip_witness :
  (exists c', cache_ok c' /\ parse_fields demo_fields emptyDateCache = (map Ok demo_instants, c')) /\
  Forall (fun tp => (fastParseTimestamp (chars (formatTimestamp tp)) emptyDateCache).1 = Ok tp) demo_instants.
Proof. apply (timestamps_round_trip demo_instants demo_fields emptyDateCache demo_printed). now left. Defined.

Example parsed_text :
  fastParseTimestamp (chars "2026-07-07 14:03:12.5") emptyDateCache
  = (Ok 1783432992500000, mkDateCache (chars "2026-07-07") 1783382400).
Proof. vm_compute. reflexivity. Qed.

Example formatted_text : formatTimestamp 1783432992500000 = "2026-07-07T14:03:12.500000Z"%string.
Proof. vm_compute. reflexivity. Qed.

(** Two texts that share their first ten characters but not their date: with
    blanks in front the cache answers for the wrong month. *)
Example cache_fooled_by_blanks :
  let c := (fastParseTimestamp (chars "    2026-1-5 00:00:00") emptyDateCache).2 in
  (fastParseTimestamp (chars "    2026-12-5 00:00:00") c).1
  = (fastParseTimestamp (chars "    2026-1-5 00:00:00") emptyDateCache).1.
Proof. vm_compute. reflexivity. Qed.
