(* ===== verification/QuestDb.v ===== *)
(** The tick database as the engine uses it: shared/questdb/databaseConnection.cppm
    (rows to ticks, bars and instants), connectionFactory.cppm, sqlManager.cppm
    (the queries) and run/execution/backtestRunner.cppm (one window, or one block
    with its month boundaries). The server behind [pqxx] is a parameter. *)
From Stdlib Require Import ZArith Lia Sorted.
From stdpp Require Import base gmap list strings.
From S2P Require Import Prelude Models SymbolScale Json JsonFloat JsonDump StdText Env IsoTime Chrono WireTime TickCache.
From S2P Require Sweep.
Open Scope Z_scope.

(** A result's rows, as text fields: the answer of the server a connection
    string leads to, at the [n]-th moment. *)
Class Pqxx : Type := {
  exec : nat -> string -> string -> result (list (list string));
}.

(** * [DatabaseConnection] *)

Definition connection_string (endpoint : string) (port : Z) (dbname user password : string) : string :=
  "host=" +:+ endpoint +:+ " port=" +:+ to_string port +:+ " dbname=" +:+ dbname
    +:+ " user=" +:+ user +:+ " password=" +:+ password +:+ " connect_timeout=3".

(** [questdb::connectionFromEnv]. *)
Definition connectionFromEnv {E : Environment} (hostOverride : string) : result string :=
  let host := if String.eqb hostOverride "" then getOr "QUESTDB_HOST" "127.0.0.1" else hostOverride in
  match from_chars_all (getOr "QUESTDB_PORT" "8812") with
  | Some port => Ok (connection_string host port "qdb" "admin" "quest")
  | None => Throw RuntimeError
  end.

(** A column of a row: reading past the last one is undefined. *)
Definition column (row : list string) (i : nat) : result string :=
  match row !! i with Some field => Ok field | None => Throw UndefinedRead end.

(** [std::from_chars], whose end pointer the code does not look at. *)
Definition price_field (field : string) : result Z :=
  match from_chars (chars field) with Some (v, _) => Ok v | None => Throw RuntimeError end.

(** One row of [(symbol, ask, bid, timestamp)]. *)
Definition tick_row (row : list string) (cache : DateCache) : result (PriceData * DateCache) :=
  symbol <~ column row 0 ;
  sv1 <~ column row 1 ;
  sv2 <~ column row 2 ;
  ask <~ price_field sv1 ;
  bid <~ price_field sv2 ;
  stamp <~ column row 3 ;
  let '(at_time, cache) := fastParseTimestamp (chars stamp) cache in
  at_time <~ at_time ;
  Ok (mkPriceData ask bid at_time symbol, cache).

(** One row of [(timestamp, open, high, low, close)]. *)
Definition bar_row (row : list string) (cache : DateCache) : result (OhlcObject * DateCache) :=
  stamp <~ column row 0 ;
  let '(at_time, cache) := fastParseTimestamp (chars stamp) cache in
  at_time <~ at_time ;
  open <~ (sv <~ column row 1 ; price_field sv) ;
  high <~ (sv <~ column row 2 ; price_field sv) ;
  low <~ (sv <~ column row 3 ; price_field sv) ;
  close <~ (sv <~ column row 4 ; price_field sv) ;
  Ok (mkOhlcObject at_time open close high low true, cache).

Definition instant_field (field : string) (cache : DateCache) : result (Z * DateCache) :=
  let '(at_time, cache) := fastParseTimestamp (chars field) cache in
  at_time <~ at_time ; Ok (at_time, cache).

(** Every row in turn, one date cache for the whole result. *)
Fixpoint read_rows {A B} (read : A -> DateCache -> result (B * DateCache)) (rows : list A)
    (cache : DateCache) : result (list B) :=
  match rows with
  | [] => Ok []
  | row :: rows =>
      '(x, cache) <~ read row cache ;
      rest <~ read_rows read rows cache ;
      Ok (x :: rest)
  end.

Section Database.
Context {P : Pqxx}.

Definition executeQuery (n : nat) (db query : string) : result (list PriceData) :=
  rows <~ exec n db query ; read_rows tick_row rows emptyDateCache.

Definition queryOhlc (n : nat) (db query : string) : result (list OhlcObject) :=
  rows <~ exec n db query ; read_rows bar_row rows emptyDateCache.

Definition queryTimestampRow (n : nat) (db query : string) : result (list Z) :=
  rows <~ exec n db query ;
  match rows with
  | [row] => read_rows instant_field row emptyDateCache
  | _ => Throw RuntimeError
  end.

(** * [SqlManager] *)

Definition validateSymbols (symbols : list string) : result unit :=
  if forallb (fun symbol => negb (SymbolScale.get symbol =? kUnknown)) symbols then Ok tt else Throw InvalidArgument.

Definition select_from (whereClause symbol : string) : string :=
  "SELECT '" +:+ symbol +:+ "' as symbol, ask, bid, timestamp FROM '" +:+ symbol +:+ "' WHERE " +:+ whereClause.

(** The selects, joined by [UNION ALL]. *)
Fixpoint union_all (whereClause : string) (symbols : list string) : string :=
  match symbols with
  | [] => ""
  | [symbol] => select_from whereClause symbol
  | symbol :: symbols => select_from whereClause symbol +:+ " UNION ALL " +:+ union_all whereClause symbols
  end.

Definition buildTickQuery (symbols : list string) (whereClause : string) : string :=
  union_all whereClause symbols +:+ " ORDER BY timestamp"
    +:+ (if (1 <? length symbols)%nat then ", symbol" else "").

Definition window_where (LAST_MONTHS OFFSET_MONTHS : Z) : string :=
  "timestamp >= dateadd('M', -" +:+ to_string (LAST_MONTHS +₃₂ OFFSET_MONTHS) +:+ ", now())"
    +:+ (if 0 <? OFFSET_MONTHS
         then " AND timestamp < dateadd('M', -" +:+ to_string OFFSET_MONTHS +:+ ", now())" else "").

Definition between_where (lower upper : Z) : string :=
  "timestamp >= cast('" +:+ formatTimestamp lower +:+ "' as timestamp) AND timestamp < cast('"
    +:+ formatTimestamp upper +:+ "' as timestamp)".

Definition buildPriceDataBetweenQuery (symbols : list string) (lower upper : Z) : string :=
  buildTickQuery symbols (between_where lower upper).

(** What a load returns, and the queries it sent. *)
Definition load (n : nat) (db : string) (symbols : list string) (query : string)
    : result (list PriceData) * list string :=
  match symbols with
  | [] => (Ok [], [])
  | _ =>
      match validateSymbols symbols with
      | Throw e => (Throw e, [])
      | Ok _ => (executeQuery n db query, [query])
      end
  end.

Definition loadPriceData (n : nat) (db : string) (symbols : list string) (LAST_MONTHS OFFSET_MONTHS : Z)
    : result (list PriceData) * list string :=
  load n db symbols (buildTickQuery symbols (window_where LAST_MONTHS OFFSET_MONTHS)).

Definition loadPriceDataBetween (n : nat) (db : string) (symbols : list string) (lower upper : Z)
    : result (list PriceData) * list string :=
  load n db symbols (buildPriceDataBetweenQuery symbols lower upper).

(** The columns [1..months] of the boundary query. *)
Definition month_columns (months : nat) : string :=
  foldr (fun m rest => ", dateadd('M', -" +:+ to_string (Z.of_nat m) +:+ ", now())" +:+ rest) ""
    (seq 1 months).

Definition buildMonthBoundariesQuery (months : Z) : result string :=
  if months <? 1 then Throw InvalidArgument
  else Ok ("SELECT now()" +:+ month_columns (Z.to_nat months)).

Definition loadMonthBoundaries (n : nat) (db : string) (months : Z) : result (list Z) :=
  query <~ buildMonthBoundariesQuery months ;
  boundaries <~ queryTimestampRow n db query ;
  if (length boundaries =? Z.to_nat months + 1)%nat then Ok boundaries else Throw RuntimeError.

(** * [backtestRunner] *)

(** [std::getline] on commas: every field, but no empty one at the very end. *)
Definition splitSymbols (symbolsCsv : string) : list string :=
  let fields := Sweep.fields (chars symbolsCsv) in
  map text (match last fields with Some [] => but_last fields | _ => fields end).

Context {E : Environment}.

(** [loadTicks], with the queries it sent. *)
Definition loadTicks (n : nat) (questdbHost symbolsCsv : string) (lastMonths offsetMonths : Z)
    : result (list PriceData) * list string :=
  match connectionFromEnv questdbHost with
  | Throw e => (Throw e, [])
  | Ok db => loadPriceData n db (splitSymbols symbolsCsv) lastMonths offsetMonths
  end.

(** [loadTickSuperset]; the boundary query's text carries no symbol. *)
Definition loadTickSuperset (n : nat) (questdbHost symbolsCsv : string) (months : Z)
    : result Superset * list string :=
  match (db <~ connectionFromEnv questdbHost ;
         boundaries <~ loadMonthBoundaries n db months ; Ok (db, boundaries)) with
  | Throw e => (Throw e, [])
  | Ok (db, boundaries) =>
      match boundaries !! Z.to_nat months, boundaries !! 0%nat with
      | Some lower, Some upper =>
          let '(ticks, sent) := loadPriceDataBetween n db (splitSymbols symbolsCsv) lower upper in
          (ticks <~ ticks ; Ok (mkSuperset ticks boundaries), sent)
      | _, _ => (Throw UndefinedRead, [])
      end
  end.
End Database.

(** * Only known symbols reach the server *)

Definition known (symbol : string) : Prop := SymbolScale.get symbol <> kUnknown.

Lemma validateSymbols_known symbols : validateSymbols symbols = Ok tt <-> Forall known symbols.
Proof.
  unfold validateSymbols, known. destruct (forallb _ symbols) eqn:E; split; intros H; try done.
  - apply Forall_forall. intros s Hs. rewrite forallb_forall in E.
    specialize (E s (proj1 (list_elem_of_In _ _) Hs)). now apply negb_true_iff, Z.eqb_neq in E.
  - exfalso. enough (forallb (fun symbol => negb (SymbolScale.get symbol =? kUnknown)) symbols = true) by congruence.
    apply forallb_forall. intros s Hs. rewrite Forall_forall in H.
    apply negb_true_iff, Z.eqb_neq, H, list_elem_of_In, Hs.
Qed.

(** Letters and digits: nothing a query text could be broken out with. *)
Definition plain_char (c : Ascii.ascii) : bool :=
  let b := byte_of c in is_digit c || ((65 <=? b) && (b <=? 90)).

Lemma known_plain symbol : known symbol -> forallb plain_char (chars symbol) = true.
Proof.
  unfold known, SymbolScale.get. destruct (findEntry symbol) as [e|] eqn:Ef; [|done]. intros _.
  apply findEntry_in in Ef as [Hin <-]. revert e Hin. apply Forall_forall.
  assert (forallb (fun e => forallb plain_char (chars (entry_symbol e))) kTable = true) as H by reflexivity.
  apply Forall_forall. intros e Hin. rewrite forallb_forall in H. apply H. now apply list_elem_of_In.
Qed.

Lemma load_sends {P : Pqxx} n db symbols query q :
  q ∈ (load n db symbols query).2 -> q = query /\ Forall known symbols.
Proof.
  unfold load. destruct symbols as [|s symbols]; [intros H; now apply not_elem_of_nil in H|].
  destruct (validateSymbols (s :: symbols)) as [[]|e] eqn:Ev; [|intros H; now apply not_elem_of_nil in H].
  intros ->%list_elem_of_singleton. split; [done|]. now apply validateSymbols_known.
Qed.

(** * What a block is *)

(** What the server documents, for rows the engine asks for: a boundary row
    prints instants that run backwards ([now()] and [dateadd('M', -m, now())],
    taken at one instant), and a query that ends in [ORDER BY timestamp] prints
    its rows in that order. *)
Class QuestLaws {P : Pqxx} : Prop := {
  boundaries_descend n db months query row :
    buildMonthBoundariesQuery months = Ok query -> exec n db query = Ok [row] ->
    exists instants, Forall2 printed instants (map chars row) /\ descending instants;
  rows_ordered n db symbols whereClause rows :
    Forall known symbols -> exec n db (buildTickQuery symbols whereClause) = Ok rows ->
    exists instants,
      Forall2 (fun tp row => exists field, row !! 3%nat = Some field /\ printed tp (chars field)) instants rows /\
      StronglySorted Z.le instants;
}.

Section Blocks.
Context {P : Pqxx} {E : Environment} {Q : QuestLaws}.

Lemma read_instants instants fields c :
  Forall2 printed instants (map chars fields) -> cache_ok c ->
  read_rows instant_field fields c = Ok instants.
Proof.
  revert fields c. induction instants as [|tp instants IH]; intros fields c H Hc; destruct fields as [|f fields];
    inversion H; subst; [done|].
  cbn [read_rows]. unfold instant_field at 1.
  destruct (parse_printed tp (chars f) c) as (c' & -> & Hc'); [done|done|]. cbn [result_bind].
  now rewrite (IH fields c').
Qed.

(** A row's tick carries the row's instant. *)
Lemma tick_row_instant row tp field c t c' :
  row !! 3%nat = Some field -> printed tp (chars field) -> cache_ok c ->
  tick_row row c = Ok (t, c') -> timestamp t = tp /\ cache_ok c'.
Proof.
  intros Hf Hp Hc. unfold tick_row, column at 4. rewrite Hf.
  destruct (column row 0) as [symbol|]; [|done]. cbn [result_bind].
  destruct (column row 1) as [sv1|]; [|done]. cbn [result_bind].
  destruct (column row 2) as [sv2|]; [|done]. cbn [result_bind].
  destruct (price_field sv1) as [ask|]; [|done]. cbn [result_bind].
  destruct (price_field sv2) as [bid|]; [|done]. cbn [result_bind].
  destruct (parse_printed tp (chars field) c Hp Hc) as (c1 & -> & Hc1). cbn [result_bind].
  intros [= <- <-]. done.
Qed.

Lemma read_ticks instants rows c ticks :
  Forall2 (fun tp row => exists field, row !! 3%nat = Some field /\ printed tp (chars field)) instants rows ->
  cache_ok c -> read_rows tick_row rows c = Ok ticks -> map timestamp ticks = instants.
Proof.
  intros H. revert c ticks. induction H as [|tp row instants rows (field & Hf & Hp) _ IH]; intros c ticks Hc Hr.
  - cbn in Hr. now injection Hr as <-.
  - cbn [read_rows] in Hr. destruct (tick_row row c) as [[t c']|] eqn:Et; [|done]. cbn [result_bind] in Hr.
    destruct (tick_row_instant _ _ _ _ _ _ Hf Hp Hc Et) as [Ht Hc'].
    destruct (read_rows tick_row rows c') as [rest|] eqn:Er; [|done]. cbn in Hr. injection Hr as <-.
    cbn. rewrite Ht. f_equal. now apply (IH c').
Qed.

Lemma in_time_order_of l : StronglySorted Z.le (map timestamp l) -> in_time_order l.
Proof.
  induction l as [|t l IH]; intros H; [constructor|]. inversion H as [|? ? Hs Hall]; subst.
  constructor; [now apply IH|]. apply Forall_forall. intros x Hx.
  apply (proj1 (List.Forall_forall _ _) Hall), in_map, list_elem_of_In, Hx.
Qed.

Lemma executeQuery_ordered n db symbols whereClause ticks :
  Forall known symbols -> executeQuery n db (buildTickQuery symbols whereClause) = Ok ticks -> in_time_order ticks.
Proof.
  intros Hk H. unfold executeQuery in H. destruct (exec n db _) as [rows|] eqn:Er; [|done]. cbn in H.
  destruct (rows_ordered _ _ _ _ _ Hk Er) as (instants & H2 & Hs).
  apply in_time_order_of. erewrite read_ticks; [exact Hs|exact H2| |exact H]. now left.
Qed.

Lemma loadMonthBoundaries_ok n db months boundaries :
  loadMonthBoundaries n db months = Ok boundaries ->
  1 <= months /\ length boundaries = Z.to_nat (months + 1) /\ descending boundaries.
Proof.
  unfold loadMonthBoundaries. destruct (buildMonthBoundariesQuery months) as [query|] eqn:Eq; [|done].
  cbn [result_bind]. unfold queryTimestampRow. destruct (exec n db query) as [rows|] eqn:Er; [|done].
  cbn [result_bind]. destruct rows as [|row [|]]; [done| |done].
  destruct (boundaries_descend _ _ _ _ _ Eq Er) as (instants & Hp & Hd).
  rewrite (read_instants instants row); [|done|now left]. cbn [result_bind].
  unfold buildMonthBoundariesQuery in Eq. destruct (Z.ltb_spec months 1); [done|].
  destruct (Nat.eqb_spec (length instants) (Z.to_nat months + 1)) as [Hl|]; [|done].
  intros [= <-]. split; [done|]. split; [lia|done].
Qed.

Lemma load_ordered n db symbols whereClause ticks :
  (load n db symbols (buildTickQuery symbols whereClause)).1 = Ok ticks -> in_time_order ticks.
Proof.
  unfold load. destruct symbols as [|s symbols]; [intros [= <-]; constructor|].
  destruct (validateSymbols (s :: symbols)) as [[]|] eqn:Ev; [|done]. apply validateSymbols_known in Ev.
  cbn [fst]. now apply executeQuery_ordered.
Qed.

(** A block the engine loads is one the slices can be cut from. *)
Lemma superset_well_loaded n host symbolsCsv months s :
  (loadTickSuperset n host symbolsCsv months).1 = Ok s ->
  well_loaded s /\ length (boundaries s) = Z.to_nat (months + 1).
Proof.
  unfold loadTickSuperset. destruct (connectionFromEnv host) as [db|]; [|done]. cbn [result_bind].
  destruct (loadMonthBoundaries n db months) as [bs|] eqn:Eb; [|done]. cbn [result_bind].
  apply loadMonthBoundaries_ok in Eb as (Hm & Hl & Hd).
  destruct (bs !! Z.to_nat months) as [lower|]; [|done]. destruct (bs !! 0%nat) as [upper|]; [|done].
  destruct (loadPriceDataBetween n db (splitSymbols symbolsCsv) lower upper) as [r sent] eqn:El.
  destruct r as [loaded|e]; cbn; [|done]. intros [= <-]. split; [|done]. split; [|done]. cbn [ticks].
  apply (load_ordered n db (splitSymbols symbolsCsv) (between_where lower upper)).
  unfold loadPriceDataBetween, buildPriceDataBetweenQuery in El. now rewrite El.
Qed.
End Blocks.

(** The sent query's whole text. *)
Definition tick_query (symbolsCsv : string) (q : string) : Prop :=
  exists symbols whereClause,
    symbols = splitSymbols symbolsCsv /\ q = buildTickQuery symbols whereClause /\
    Forall known symbols /\ Forall (fun s => forallb plain_char (chars s) = true) symbols /\
    ((exists last offset, whereClause = window_where last offset) \/
     (exists lower upper, whereClause = between_where lower upper)).

(** The symbols of a run descriptor, which arrive over the queue, reach the
    text of a query only when every one of them is in the engine's own table -
    letters and digits, nothing that could close a quote; otherwise the load
    fails and no query is sent. *)
Theorem only_known_symbols_queried {P : Pqxx} {E : Environment} n host symbolsCsv last offset months :
  Forall (tick_query symbolsCsv) (loadTicks n host symbolsCsv last offset).2 /\
  Forall (tick_query symbolsCsv) (loadTickSuperset n host symbolsCsv months).2 /\
  (~ Forall known (splitSymbols symbolsCsv) ->
   (loadTicks n host symbolsCsv last offset).2 = [] /\ (loadTickSuperset n host symbolsCsv months).2 = [] /\
   (exists e, (loadTicks n host symbolsCsv last offset).1 = Throw e) /\
   (exists e, (loadTickSuperset n host symbolsCsv months).1 = Throw e)).
Proof.
  assert (forall db whereClause,
    ((exists last offset, whereClause = window_where last offset) \/
     (exists lower upper, whereClause = between_where lower upper)) ->
    Forall (tick_query symbolsCsv)
      (load n db (splitSymbols symbolsCsv) (buildTickQuery (splitSymbols symbolsCsv) whereClause)).2) as Hsent.
  { intros db w Hw. apply Forall_forall. intros q Hq. apply load_sends in Hq as [-> Hk].
    exists (splitSymbols symbolsCsv), w. split_and!; try done.
    eapply Forall_impl; [exact Hk|]. apply known_plain. }
  assert (forall db q, ~ Forall known (splitSymbols symbolsCsv) ->
    load n db (splitSymbols symbolsCsv) q = (Throw InvalidArgument, [])) as Hbad.
  { intros db q Hn. unfold load. destruct (splitSymbols symbolsCsv) as [|s l] eqn:Es; [now destruct Hn|].
    destruct (validateSymbols (s :: l)) as [[]|e] eqn:Ev; [now apply validateSymbols_known in Ev|].
    unfold validateSymbols in Ev. now destruct (forallb _ _) in Ev; [|injection Ev as <-]. }
  unfold loadTicks, loadTickSuperset, loadPriceData, loadPriceDataBetween, buildPriceDataBetweenQuery.
  split; [|split].
  - destruct (connectionFromEnv host) as [db|]; [|constructor]. apply Hsent. eauto.
  - destruct (db <~ connectionFromEnv host ; _) as [[db bs]|]; [|constructor].
    destruct (bs !! Z.to_nat months) as [lower|]; [|constructor].
    destruct (bs !! 0%nat) as [upper|]; [|constructor].
    specialize (Hsent db (between_where lower upper) ltac:(eauto)).
    now destruct (load _ _ _ _).
  - intros Hn. split_and!.
    + destruct (connectionFromEnv host) as [db|]; [|done]. now rewrite Hbad.
    + destruct (db <~ connectionFromEnv host ; _) as [[db bs]|]; [|done].
      destruct (bs !! Z.to_nat months), (bs !! 0%nat); try done. now rewrite Hbad.
    + destruct (connectionFromEnv host) as [db|]; [|cbn; eauto]. rewrite Hbad by done. cbn. eauto.
    + destruct (db <~ connectionFromEnv host ; _) as [[db bs]|]; [|cbn; eauto].
      destruct (bs !! Z.to_nat months), (bs !! 0%nat); cbn; eauto. rewrite Hbad by done. cbn. eauto.
Qed.
