(* ===== verification/RunnerBridge.v ===== *)
(** run/execution/runnerBridge.cpp: the worker's one tick cache, built from the
    environment over the QuestDB loads, and the ticks a claimed run is given. *)
From Stdlib Require Import ZArith Lia Sorted.
From stdpp Require Import base gmap list strings.
From S2P Require Import Prelude Models SymbolScale Json JsonFloat JsonDump StdText Env IsoTime Chrono WireTime TickCache QuestDb RollingWindow.
Open Scope Z_scope.

(** Junk, trailing text and negative numbers throw; zero does not. *)
Definition envInt {E : Environment} (name fallback : string) : result Z :=
  match from_chars_all (getOr name fallback) with
  | Some value => if value <? 0 then Throw RuntimeError else Ok value
  | None => Throw RuntimeError
  end.

Section Worker.
Context {E : Environment} {P : Pqxx}.

(** What the process adds: its steady clock, in nanoseconds, and the hash map's
    iteration order. *)
Context (steady : nat -> Z) (order : gmap string Entry -> list (string * Entry))
  (order_perm : forall m, order m ≡ₚ map_to_list m).

Definition cacheFor (questdbHost : string) : result CacheWorld :=
  ttlMinutes <~ envInt "TICK_CACHE_TTL_MINUTES" "60" ;
  cap <~ envInt "TICK_CACHE_MAX_SUPERSETS" "1" ;
  Ok {| ttl := ttlMinutes * 60 * 1000000000;
        maxSupersetsGiven := Z.to_nat cap;
        defaultMonths := lastMonths kFullHistory;
        clock := steady;
        supersetLoader n symbolsCsv months := (loadTickSuperset n questdbHost symbolsCsv months).1;
        windowLoader n symbolsCsv last offset := (loadTicks n questdbHost symbolsCsv last offset).1;
        entry_order := order;
        entry_order_perm := order_perm |}.

(** The slice behind the handle, its tick count, and what the call did; the
    cache is the function's static, threaded through the calls. *)
Definition bridgeGetTicks (questdbHost symbolsCsv : string) (last offset : Z) (beforeLoad : result unit)
    (cache : TickCache) : result (result (SliceView * nat) * list load_event * TickCache) :=
  world <~ cacheFor questdbHost ;
  let '(slice, events, cache) := @get world symbolsCsv last offset beforeLoad cache in
  Ok ((view <~ slice ; Ok (view, count view)), events, cache).

(** The span [bridgeRunOnTicks] hands to the run, which always chains. *)
Definition bridgeRunOnTicks {R} (run : list PriceData -> bool -> R) (view : SliceView) : R :=
  run (view_ticks view) true.

(** * The ticks of a run *)

Lemma filter_in_order p l : in_time_order l -> in_time_order (List.filter p l).
Proof.
  induction 1 as [|t l Hs IH Ht]; [constructor|]. cbn. destruct (p t); [|exact IH].
  constructor; [exact IH|]. apply Forall_forall. intros x Hx. apply list_elem_of_In, List.filter_In in Hx as [Hx _].
  rewrite Forall_forall in Ht. apply Ht. now apply list_elem_of_In.
Qed.

Lemma window_in_order s last offset : well_loaded s -> in_time_order (window_ticks s last offset).
Proof.
  intros [Hs _]. unfold window_ticks. destruct (boundaries s !! _); [|constructor]. now apply filter_in_order.
Qed.

Context {Q : QuestLaws}.

Lemma worker_laws host world : cacheFor host = Ok world -> @LoaderLaws world.
Proof.
  unfold cacheFor. destruct (envInt _ _) as [ttlMinutes|]; [|done]. cbn [result_bind].
  destruct (envInt _ _) as [cap|]; [|done]. cbn [result_bind]. intros [= <-].
  constructor. cbn [supersetLoader]. intros n key months s _ H. now apply superset_well_loaded in H.
Qed.

Lemma worker_fields host world :
  cacheFor host = Ok world ->
  (forall n key months, @supersetLoader world n key months = (loadTickSuperset n host key months).1) /\
  (forall n key last offset, @windowLoader world n key last offset = (loadTicks n host key last offset).1) /\
  @defaultMonths world = 9.
Proof.
  unfold cacheFor. destruct (envInt _ _) as [ttlMinutes|]; [|done]. cbn [result_bind].
  destruct (envInt _ _) as [cap|]; [|done]. cbn [result_bind]. now intros [= <-].
Qed.

Lemma window_load_ordered n host key last offset loaded :
  (loadTicks n host key last offset).1 = Ok loaded -> in_time_order loaded.
Proof.
  unfold loadTicks. destruct (connectionFromEnv host) as [db|]; [|done]. apply load_ordered.
Qed.

End Worker.

(** * A concrete worker *)

#[local] Instance demo_env : Environment := {| getenv := fun _ => None; environ := [] |}.

(** Month boundaries at midnight, thirty days apart, and three ticks. *)
Definition demo_boundaries : list Z := map (fun m => 1783468800000000 - 2592000000000 * Z.of_nat m) (seq 0 10).
Definition demo_rows : list (list string) :=
  [["EURUSD"; "108512"; "108507"; "2026-01-07 14:03:12.5"];
   ["EURUSD"; "108514"; "108509"; "2026-05-07 14:03:13.000001"];
   ["EURUSD"; "108511"; "108506"; "2026-07-07 00:00:00"]].
Definition demo_row_instants : list Z := [1767794592500000; 1778162593000001; 1783382400000000].

#[local] Instance demo_server : Pqxx := {|
  exec := fun _ _ query =>
    if String.prefix "SELECT now()" query then Ok [map formatTimestamp demo_boundaries] else Ok demo_rows
|}.

Lemma demo_rows_printed :
  Forall2 (fun tp row => exists field, row !! 3%nat = Some field /\ printed tp (chars field))
    demo_row_instants demo_rows.
Proof.
  constructor; [|constructor; [|constructor; [|constructor]]]; (eexists; split; [reflexivity|]).
  all: split; [split; apply Z.leb_le; vm_compute; reflexivity|exists (char_of 32)].
  - exists 1%nat, []. split; [vm_compute; reflexivity|]. split; [now right|]. split; [lia|].
    split; [reflexivity|]. split; [exact I|lia].
  - exists 6%nat, []. split; [vm_compute; reflexivity|]. split; [now right|]. split; [lia|].
    split; [reflexivity|]. split; [exact I|lia].
  - exists 0%nat, []. split; [vm_compute; reflexivity|]. split; [now right|]. split; [lia|].
    split; [reflexivity|]. split; [exact I|done].
Qed.

Lemma demo_boundaries_printed : Forall2 printed demo_boundaries (map chars (map formatTimestamp demo_boundaries)).
Proof.
  assert (Forall (fun tp => wire_day (floor_days tp)) demo_boundaries) as H.
  { apply Forall_forall. assert (forallb (fun tp => (0 <=? year_of (floor_days tp)) && (year_of (floor_days tp) <=? 9999))
      demo_boundaries = true) as Hb by (vm_compute; reflexivity).
    intros tp Hin. rewrite forallb_forall in Hb. specialize (Hb tp (proj1 (list_elem_of_In _ _) Hin)).
    unfold wire_day. zbool. lia. }
  induction H as [|tp l Hd _ IH]; cbn [map]; constructor; [now apply formatTimestamp_printed|exact IH].
Qed.

Lemma tick_query_prefix symbols whereClause :
  String.prefix "SELECT now()" (buildTickQuery symbols whereClause) = false.
Proof. destruct symbols as [|s [|s' symbols]]; reflexivity. Qed.

#[local] Instance demo_quest : QuestLaws.
Proof.
  constructor.
  - intros n db months query row Hq H. unfold buildMonthBoundariesQuery in Hq.
    destruct (months <? 1); [done|]. injection Hq as <-. cbn [exec demo_server] in H.
    assert (String.prefix "SELECT now()" ("SELECT now()" +:+ month_columns (Z.to_nat months)) = true) as Hp
      by (destruct (month_columns (Z.to_nat months)); reflexivity).
    rewrite Hp in H. injection H as <-. exists demo_boundaries. split; [apply demo_boundaries_printed|].
    apply descending_seq. lia.
  - intros n db symbols w rows _ H. cbn [exec demo_server] in H. rewrite tick_query_prefix in H.
    injection H as <-. exists demo_row_instants. split; [apply demo_rows_printed|].
    repeat constructor; vm_compute; discriminate.
Qed.

Definition demo_steady (n : nat) : Z := 1000 * Z.of_nat n.

Definition demo_worker : result CacheWorld :=
  cacheFor demo_steady map_to_list (fun m => Permutation_refl _) "questdb".


(** The seed window of the demo history: two of its three ticks. *)
Example demo_window :
  match bridgeGetTicks demo_steady map_to_list (fun m => Permutation_refl _) "questdb" "EURUSD" 3 0 (Ok tt)
          empty_cache with
  | Ok (Ok (v, n), evs, _) =>
      (map bid (view_ticks v), n, evs) = ([108509; 108506], 2%nat, [BeforeLoad; SupersetLoad "EURUSD" 9])
  | _ => False
  end.
Proof. vm_compute. reflexivity. Qed.
