(* ===== verification/ResultsSummary.v ===== *)
(** run/reporting/resultsSummary.cppm: the per-run statistics and the performance
    score, computed in [double]. *)
From S2P Require Import Prelude Models Double Config TradeManager.
From S2P Require Trade.
From Stdlib Require Import SpecFloat.
Import Trade(Trade).

(** The conversions between [decimal64_t] and [double] are the library's. *)
Class DecimalDouble {D : Decimal64} : Type := {
  dec_to_double : decimal64_t -> double;
  dec_of_double : double -> decimal64_t;
}.
Arguments DecimalDouble D : clear implicits.

Record TradingResultsStats {D : Decimal64} : Type := mkStats {
  finalPnl : decimal64_t;
  tradesOpened : nat;
  tradesClosed : nat;
  openedLong : nat;
  openedShort : nat;
  closedLong : nat;
  closedShort : nat;
  winners : nat;
  losers : nat;
  breakeven : nat;
  liquidatedCount : nat;
  avgPnl : option decimal64_t;
  performanceScore : decimal64_t;
  winRate : decimal64_t;
  tradeRatio : decimal64_t;
  expectancyScore : decimal64_t;
  calmarScore : decimal64_t;
  confidenceMultiplier : decimal64_t;
  maxDrawdownPercent : decimal64_t;
}.
Arguments TradingResultsStats D : clear implicits.

(** [finiteOr0]. *)
Definition finiteOr0 (v : double) : double := if dbl_isfinite v then v else dbl_zero.

(** The confidence ladder, by decisive trades per year. *)
Definition confidence (totalSum years : double) : double :=
  let tenths n := dbl_div (dbl_of_Z n) (dbl_of_Z 10) in
  if dbl_leb (dbl_mul (dbl_of_Z 60) years) totalSum then dbl_of_Z 1
  else if dbl_leb (dbl_mul (dbl_of_Z 40) years) totalSum then tenths 9
  else if dbl_leb (dbl_mul (dbl_of_Z 20) years) totalSum then tenths 8
  else if dbl_leb (dbl_mul (dbl_of_Z 10) years) totalSum then tenths 6
  else if dbl_leb (dbl_mul (dbl_of_Z 5) years) totalSum then tenths 4
  else tenths 1.

(** The seven doubles of the score. *)
Record Score : Type := mkScore {
  sc_winRate : double;
  sc_tradeRatio : double;
  sc_expectancyScore : double;
  sc_calmarScore : double;
  sc_confidenceMultiplier : double;
  sc_maxDrawdownPercent : double;
  sc_performance : double;
}.

(** The arithmetic of [computePerformanceScore], [None] where it returns early. *)
Definition score (tradesClosed nWinners nLosers : nat) (startingBalance : double)
    (lastMonths : Z) (winPipSum lossPipSum finalPnl maxDropPips : double) : option Score :=
  if (tradesClosed =? 0)%nat || dbl_leb startingBalance dbl_zero || (lastMonths <=? 0) then None
  else
    let positive := dbl_of_Z (Z.of_nat nWinners) in
    let negative := dbl_of_Z (Z.of_nat nLosers) in
    let totalSum := dbl_add positive negative in
    if dbl_eqb totalSum dbl_zero then None
    else
      let hundred := dbl_of_Z 100 in
      let closedCount := dbl_of_Z (Z.of_nat tradesClosed) in
      let winRate := dbl_div positive closedCount in
      let lossRate := dbl_div negative closedCount in
      let averageWin := if dbl_ltb dbl_zero positive then dbl_div winPipSum positive else dbl_zero in
      let averageLoss :=
        if dbl_ltb dbl_zero negative then dbl_abs (dbl_div lossPipSum negative) else dbl_zero in
      let tradeRatio :=
        if dbl_eqb positive dbl_zero then dbl_zero
        else if dbl_eqb negative dbl_zero || dbl_eqb averageLoss dbl_zero then hundred
        else dbl_div (dbl_mul averageWin positive) (dbl_mul averageLoss negative) in
      let expectancyPips := dbl_sub (dbl_mul averageWin winRate) (dbl_mul averageLoss lossRate) in
      let expectancyPercent := dbl_mul (dbl_div expectancyPips startingBalance) hundred in
      let tradeFreqFactor := dbl_sqrt totalSum in
      let systemQuality := dbl_mul expectancyPercent tradeFreqFactor in
      let expectancyScore := dbl_mul systemQuality (dbl_div (dbl_of_Z 50) (dbl_of_Z 2)) in
      let years := dbl_div (dbl_of_Z lastMonths) (dbl_of_Z 12) in
      let cagrPercent := dbl_mul (dbl_div (dbl_div finalPnl startingBalance) years) hundred in
      let maxDrawdownPercent := dbl_mul (dbl_div maxDropPips startingBalance) hundred in
      let adjustedDrawdown := dbl_max maxDrawdownPercent (dbl_of_Z 2) in
      let calmarScore :=
        dbl_mul (dbl_div cagrPercent adjustedDrawdown) (dbl_div (dbl_of_Z 50) (dbl_of_Z 3)) in
      let confidenceMultiplier := confidence totalSum years in
      let half := dbl_div (dbl_of_Z 1) (dbl_of_Z 2) in
      let rawPerformance := dbl_add (dbl_mul expectancyScore half) (dbl_mul calmarScore half) in
      let performance := dbl_mul rawPerformance confidenceMultiplier in
      Some (mkScore (finiteOr0 winRate) (finiteOr0 tradeRatio) (finiteOr0 expectancyScore)
              (finiteOr0 calmarScore) (finiteOr0 confidenceMultiplier)
              (finiteOr0 maxDrawdownPercent) (finiteOr0 performance)).

(** ** The counting loop *)

Record Counts : Type := mkCounts {
  c_long : nat;
  c_short : nat;
  c_winners : nat;
  c_losers : nat;
  c_breakeven : nat;
  c_liquidated : nat;
  c_unmeasured : nat;
}.

Definition no_counts : Counts := mkCounts 0 0 0 0 0 0 0.

(** The integer half of the loop's body. *)
Definition tally_trade (c : Counts) (trade : Trade) : Counts :=
  let '(long, short) :=
    match Trade.direction trade with
    | LONG => (S (c_long c), c_short c)
    | SHORT => (c_long c, S (c_short c))
    end in
  let liquidated := if Trade.liquidated trade then S (c_liquidated c) else c_liquidated c in
  if Trade.scalingFactor trade =? 0 then
    mkCounts long short (c_winners c) (c_losers c) (c_breakeven c) liquidated
      (S (c_unmeasured c))
  else if 0 <? Trade.pnl trade then
    mkCounts long short (S (c_winners c)) (c_losers c) (c_breakeven c) liquidated (c_unmeasured c)
  else if Trade.pnl trade <? 0 then
    mkCounts long short (c_winners c) (S (c_losers c)) (c_breakeven c) liquidated (c_unmeasured c)
  else
    mkCounts long short (c_winners c) (c_losers c) (S (c_breakeven c)) liquidated (c_unmeasured c).

Definition count_closed (closed : list Trade) : Counts := foldl tally_trade no_counts closed.

(** The loop over the open trades. *)
Definition count_open {H : HashOrder} (active : gmap string Trade) : nat * nat :=
  foldl (fun c e => match Trade.direction e.2 with
                    | LONG => (S c.1, c.2) | SHORT => (c.1, S c.2) end)
    (0%nat, 0%nat) (hash_order active).

Section Collect.
Context {D : Decimal64} {C : DecimalDouble D} {H : HashOrder}.

(** The pip half of the loop's body: [pnlSum], [winPipSum], [lossPipSum]. *)
Definition sum_pips (sums : decimal64_t * decimal64_t * decimal64_t) (trade : Trade)
    : decimal64_t * decimal64_t * decimal64_t :=
  let '(pnlSum, winPipSum, lossPipSum) := sums in
  if Trade.scalingFactor trade =? 0 then sums
  else
    let pips := dec_div (dec_of_Z (Trade.pnl trade)) (dec_of_Z (Trade.scalingFactor trade)) in
    (dec_add pnlSum pips,
     if 0 <? Trade.pnl trade then dec_add winPipSum pips else winPipSum,
     if 0 <? Trade.pnl trade then lossPipSum
     else if Trade.pnl trade <? 0 then dec_add lossPipSum pips else lossPipSum).

Definition collect (m : TradeManager) (startingBalance : decimal64_t) (lastMonths : Z)
    (primaryPointsPerPip : Z) : TradingResultsStats D :=
  let zero := dec_of_Z 0 in
  let closedCount := length (closedTrades m) in
  let openedCount := (base.size (activeTrades m) + closedCount)%nat in
  let '(openLong, openShort) := count_open (activeTrades m) in
  let c := count_closed (closedTrades m) in
  let '(pnlSum, winPipSum, lossPipSum) := foldl sum_pips (zero, zero, zero) (closedTrades m) in
  let maxDropPips :=
    if primaryPointsPerPip =? 0 then zero
    else dec_div (dec_of_Z (maxDrawdownPoints m)) (dec_of_Z primaryPointsPerPip) in
  let average :=
    if (closedCount =? 0)%nat then None
    else Some (dec_div pnlSum (dec_of_Z (Z.of_nat closedCount))) in
  let stats w tr ex ca co dd pe :=
    mkStats D pnlSum openedCount closedCount (openLong + c_long c) (openShort + c_short c)
      (c_long c) (c_short c) (c_winners c) (c_losers c) (c_breakeven c) (c_liquidated c)
      average pe w tr ex ca co dd in
  match score closedCount (c_winners c) (c_losers c) (dec_to_double startingBalance) lastMonths
          (dec_to_double winPipSum) (dec_to_double lossPipSum) (dec_to_double pnlSum)
          (dec_to_double maxDropPips) with
  | None => stats zero zero zero zero zero zero zero
  | Some s =>
      stats (dec_of_double (sc_winRate s)) (dec_of_double (sc_tradeRatio s))
        (dec_of_double (sc_expectancyScore s)) (dec_of_double (sc_calmarScore s))
        (dec_of_double (sc_confidenceMultiplier s)) (dec_of_double (sc_maxDrawdownPercent s))
        (dec_of_double (sc_performance s))
  end.
End Collect.

(** ** Specification *)

Definition count_if (p : Trade -> bool) (l : list Trade) : nat := length (List.filter p l).

Definition is_long (t : Trade) : bool := match Trade.direction t with LONG => true | SHORT => false end.
Definition measured (t : Trade) : bool := negb (Trade.scalingFactor t =? 0).

(** * Facts *)

Lemma count_closed_exact closed :
  let c := count_closed closed in
  c_long c = count_if is_long closed /\
  c_short c = count_if (fun t => negb (is_long t)) closed /\
  c_winners c = count_if (fun t => measured t && (0 <? Trade.pnl t)) closed /\
  c_losers c = count_if (fun t => measured t && (Trade.pnl t <? 0)) closed /\
  c_breakeven c = count_if (fun t => measured t && (Trade.pnl t =? 0)) closed /\
  c_liquidated c = count_if Trade.liquidated closed /\
  c_unmeasured c = count_if (fun t => negb (measured t)) closed.
Proof.
  unfold count_closed, count_if. induction closed as [|t closed IH] using rev_ind; [done|].
  rewrite foldl_app. cbn [foldl]. cbv zeta in IH.
  set (c := foldl tally_trade no_counts closed) in *. rewrite !List.filter_app, !length_app.
  destruct IH as (<- & <- & <- & <- & <- & <- & <-).
  unfold tally_trade, measured, is_long. cbn [List.filter].
  destruct (Trade.direction t), (Trade.liquidated t), (Trade.scalingFactor t =? 0);
    cbn [negb andb length];
    destruct (Z.ltb_spec 0 (Trade.pnl t)), (Z.ltb_spec (Trade.pnl t) 0),
      (Z.eqb_spec (Trade.pnl t) 0); try (exfalso; lia);
    cbn [c_long c_short c_winners c_losers c_breakeven c_liquidated c_unmeasured length];
    split_and!; lia.
Qed.

Lemma count_split (p q : Trade -> bool) l :
  (count_if (fun t => p t && q t) l + count_if (fun t => p t && negb (q t)) l = count_if p l)%nat.
Proof.
  unfold count_if. induction l as [|t l IH]; [done|]. cbn [List.filter].
  destruct (p t), (q t); cbn [andb negb length]; lia.
Qed.

Lemma count_classes closed :
  let c := count_closed closed in
  (c_long c + c_short c = length closed)%nat /\
  (c_winners c + c_losers c + c_breakeven c + c_unmeasured c = length closed)%nat /\
  (c_liquidated c <= length closed)%nat.
Proof.
  intros c. destruct (count_closed_exact closed) as (E1 & E2 & E3 & E4 & E5 & E6 & E7).
  unfold c. rewrite E1, E2, E3, E4, E5, E6, E7. unfold count_if. clear.
  induction closed as [|t closed IH]; [done|]. cbn [List.filter].
  destruct (is_long t), (measured t), (Trade.liquidated t);
    destruct (Z.ltb_spec 0 (Trade.pnl t)), (Z.ltb_spec (Trade.pnl t) 0),
      (Z.eqb_spec (Trade.pnl t) 0); cbn [negb andb length]; lia.
Qed.

Lemma count_open_total {H : HashOrder} active :
  ((count_open active).1 + (count_open active).2 = base.size active)%nat.
Proof.
  unfold count_open. rewrite <- length_map_to_list, <- (Permutation_length (hash_order_perm active)).
  induction (hash_order active) as [|e l IH] using rev_ind; [done|].
  rewrite foldl_app, length_app. cbn [foldl length]. destruct (Trade.direction e.2); simpl; lia.
Qed.

Lemma finiteOr0_finite v : dbl_isfinite (finiteOr0 v) = true.
Proof. unfold finiteOr0. destruct (dbl_isfinite v) eqn:E; [done|reflexivity]. Qed.

(** The reported statistics count every trade once.  For any book, in any
    hash order: every trade ever opened is reported open or closed and long or
    short; every closed trade is exactly one of winner, loser, breakeven or
    unmeasurable (unknown scale), each being the number of closed trades that
    satisfy its definition; and whatever the market did, no component of the
    score that is reported is a NaN or an infinity. *)
Theorem collect_counts {D : Decimal64} {C : DecimalDouble D} {H : HashOrder}
    (m : TradeManager) (balance : decimal64_t) (months ppp : Z) :
  let s := collect m balance months ppp in
  let closed := closedTrades m in
  tradesClosed s = length closed /\
  (tradesOpened s = base.size (activeTrades m) + length closed)%nat /\
  (openedLong s + openedShort s = tradesOpened s)%nat /\
  (closedLong s + closedShort s = tradesClosed s)%nat /\
  winners s = count_if (fun t => measured t && (0 <? Trade.pnl t)) closed /\
  losers s = count_if (fun t => measured t && (Trade.pnl t <? 0)) closed /\
  breakeven s = count_if (fun t => measured t && (Trade.pnl t =? 0)) closed /\
  liquidatedCount s = count_if Trade.liquidated closed /\
  (winners s + losers s + breakeven s + count_if (fun t => negb (measured t)) closed
     = tradesClosed s)%nat /\
  (performanceScore s = dec_of_Z 0 \/
     exists v, performanceScore s = dec_of_double v /\ dbl_isfinite v = true).
Proof.
  intros s closed.
  destruct (count_closed_exact closed) as (E1 & E2 & E3 & E4 & E5 & E6 & E7).
  destruct (count_classes closed) as (F1 & F2 & F3).
  pose proof (count_open_total (activeTrades m)) as Fo.
  unfold s, collect. fold closed.
  destruct (count_open (activeTrades m)) as [ol os].
  destruct (foldl sum_pips _ closed) as [[p w] l]. cbn [fst snd] in Fo.
  destruct (score _ _ _ _ _ _ _ _ _) as [sc|] eqn:Esc;
    cbn [tradesClosed tradesOpened openedLong openedShort closedLong closedShort winners losers
         breakeven liquidatedCount performanceScore].
  - split_and!; try done; try lia. right. eexists. split; [reflexivity|].
    unfold score in Esc. destruct (_ || _); [done|]. destruct (dbl_eqb _ _); [done|].
    injection Esc as <-. apply finiteOr0_finite.
  - split_and!; try done; try lia. now left.
Qed.
