(* ===== verification/RateWindow.v ===== *)
(** The sliding minute of the entry-rate cap, which the backtest loop
    ([runLoop.cppm]) and the live runner ([liveStrategyRunner.cppm]) keep alike: a
    queue of the times of recent entries, the oldest in front. *)
From S2P Require Import Prelude Models MonoDeque.

(** Entries that left the sliding minute. *)
Definition evict (now : Z) (opens : list Z) : list Z :=
  drop_while (fun front => minutes 1 <=? now - front) opens.

Definition in_minute (T t : Z) : bool := (T - minutes 1 <? t) && (t <=? T).

(** At most [cap] entries in every minute, wherever it ends. *)
Definition rate_ok (cap : Z) (times : list Z) : Prop :=
  forall T, Z.of_nat (length (List.filter (in_minute T) times)) <= cap.

(** The rate window after the ticks up to [now]: it holds every entry that can
    still matter. *)
Definition rate_inv (cap : Z) (times recent : list Z) (now : Z) : Prop :=
  exists old, times ≡ₚ old ++ recent /\ StronglySorted Z.le recent /\
    Forall (fun t => t + minutes 1 <= now) old /\ Forall (fun t => t <= now) recent /\
    rate_ok cap times.

Lemma rate_inv_perm cap times times' recent now :
  times' ≡ₚ times -> rate_inv cap times recent now -> rate_inv cap times' recent now.
Proof.
  intros Hp (old & H1 & H2 & H3 & H4 & H5). exists old. split_and!; auto; [now rewrite Hp|].
  intros T. rewrite (filter_permutation _ _ _ Hp). apply H5.
Qed.

Lemma evict_split now l :
  StronglySorted Z.le l ->
  exists dead, l = dead ++ evict now l /\
    Forall (fun t => t + minutes 1 <= now) dead /\
    Forall (fun t => now < t + minutes 1) (evict now l).
Proof.
  unfold evict. induction 1 as [|t l Hs IH Ht]; [now exists []|]. cbn [drop_while].
  destruct (Z.leb_spec (minutes 1) (now - t)) as [Hd|Hl].
  - destruct IH as (dead & E & H1 & H2). exists (t :: dead).
    split_and!; [simpl; congruence|constructor; [lia|done]|done].
  - exists []. split_and!; [done|done|]. constructor; [lia|].
    eapply Forall_impl; [exact Ht|]. intros u Hu. simpl in *. lia.
Qed.

Lemma evict_sorted now l : StronglySorted Z.le l -> StronglySorted Z.le (evict now l).
Proof.
  unfold evict. induction 1 as [|t l Hs IH Ht]; [constructor|]. cbn [drop_while].
  destruct (minutes 1 <=? now - t); [done|now constructor].
Qed.

Lemma rate_inv_evict cap times recent now now' :
  rate_inv cap times recent now -> now <= now' -> rate_inv cap times (evict now' recent) now'.
Proof.
  intros (old & Hp & Hs & Ho & Hr & Hok) Hle.
  destruct (evict_split now' recent Hs) as (dead & E & Hd & Hl).
  exists (old ++ dead). split_and!; [|now apply evict_sorted| | |done].
  - rewrite Hp. rewrite E at 1. now rewrite app_assoc.
  - apply Forall_app_2; [|done]. eapply Forall_impl; [exact Ho|]. intros; simpl in *; lia.
  - rewrite E in Hr. apply Forall_app in Hr as [_ Hr].
    eapply Forall_impl; [exact Hr|]. intros; simpl in *; lia.
Qed.

Lemma rate_ok_push cap times recent now :
  rate_inv cap times recent now -> Forall (fun t => now < t + minutes 1) recent ->
  Z.of_nat (length recent) < cap ->
  rate_ok cap (now :: times).
Proof.
  intros (old & Hp & _ & Ho & Hr & Hok) Hlive Hcap T. cbn [List.filter].
  destruct (in_minute T now) eqn:Ein; [|apply Hok]. cbn [length].
  assert (length (List.filter (in_minute T) times) <= length recent)%nat as Hle; [|lia].
  rewrite (filter_permutation _ _ _ Hp).
  rewrite List.filter_app, length_app.
  assert (List.filter (in_minute T) old = []) as ->.
  { unfold in_minute in *. clear - Ho Ein. induction Ho as [|t old Ht _ IH]; [done|].
    cbn [List.filter]. rewrite IH.
    destruct ((T - minutes 1 <? t) && (t <=? T)) eqn:E; [|done]. zbool. lia. }
  apply List.filter_length_le.
Qed.

Lemma rate_inv_push cap times times' recent now :
  rate_inv cap times recent now -> Forall (fun t => now < t + minutes 1) recent ->
  Z.of_nat (length recent) < cap -> times' ≡ₚ now :: times ->
  rate_inv cap times' (recent ++ [now]) now.
Proof.
  intros Hinv Hlive Hcap Hp'. pose proof (rate_ok_push _ _ _ _ Hinv Hlive Hcap) as Hok'.
  destruct Hinv as (old & Hp & Hs & Ho & Hr & Hok).
  exists old. split_and!; [|..|done| |].
  - now rewrite Hp', Hp, app_assoc, Permutation_cons_append.
  - clear - Hs Hr. induction Hs as [|t l Hs IH Ht]; simpl; [repeat constructor|].
    inversion Hr; subst. constructor; [now apply IH|]. apply Forall_app_2; [done|].
    now repeat constructor.
  - apply Forall_app_2; [done|]. repeat constructor. lia.
  - intros T. specialize (Hok' T).
    now rewrite (filter_permutation _ _ _ Hp').
Qed.

Lemma rate_inv_later cap times recent now now' :
  rate_inv cap times recent now -> now <= now' -> rate_inv cap times recent now'.
Proof.
  intros (old & Hp & Hs & Ho & Hr & Hok) Hle. exists old.
  split_and!; try done; (eapply Forall_impl; [eassumption|]); intros; simpl in *; lia.
Qed.

Lemma rate_inv_empty cap now : 0 < cap -> rate_inv cap [] [] now.
Proof. intros Hc. exists []. split_and!; try constructor. intros T. cbn. lia. Qed.
