(* ===== verification/Effects.v ===== *)
(** Calls with an effect on a state that may throw: what was done until then
    stays. The monad the live process is written in, and what a call leaves alone. *)
From S2P Require Import Prelude.

Definition effect (St A : Type) : Type := St -> result A * St.

Section Effects.
Context {St : Type}.

Definition step_ret {A} (a : A) : effect St A := fun s => (Ok a, s).
Definition step_bind {A B} (m : effect St A) (k : A -> effect St B) : effect St B := fun s =>
  match m s with (Ok a, s) => k a s | (Throw e, s) => (Throw e, s) end.
Definition lift {A} (r : result A) : effect St A := fun s => (r, s).

(** [try]: what an exception is turned into. *)
Definition caught {A} (handler : exn -> A) (m : effect St A) : effect St A := fun s =>
  match m s with (Ok a, s) => (Ok a, s) | (Throw e, s) => (Ok (handler e), s) end.

(** A call that changes the state along a relation only, throwing or not. *)
Definition keeps (P : relation St) {A} (m : effect St A) : Prop := forall s, P s (m s).2.

Lemma keeps_bind P `{!PreOrder P} {A B} (m : effect St A) (k : A -> effect St B) :
  keeps P m -> (forall a, keeps P (k a)) -> keeps P (step_bind m k).
Proof.
  intros Hm Hk s. unfold step_bind. specialize (Hm s). destruct (m s) as [[a|e] s1]; [|exact Hm].
  etransitivity; [exact Hm|apply Hk].
Qed.
Lemma keeps_ret P `{!PreOrder P} {A} (a : A) : keeps P (step_ret a).
Proof. intros s. reflexivity. Qed.
Lemma keeps_lift P `{!PreOrder P} {A} (r : result A) : keeps P (lift r).
Proof. intros s. reflexivity. Qed.
Lemma keeps_caught P {A} (handler : exn -> A) (m : effect St A) : keeps P m -> keeps P (caught handler m).
Proof. intros Hm s. unfold caught. specialize (Hm s). now destruct (m s) as [[a|e] s1]. Qed.
Lemma keeps_ret_inv {A} (m : effect St A) P s r s' : keeps P m -> m s = (r, s') -> P s s'.
Proof. intros Hm E. specialize (Hm s). now rewrite E in Hm. Qed.

End Effects.

Notation "x <-- m ;; k" := (step_bind m (fun x => k)) (at level 60, m at level 59, right associativity).

Create HintDb frames.
#[export] Hint Resolve keeps_ret keeps_lift keeps_caught : frames.

(** Walks through a step: binds, branches, then the leaves. *)
Ltac frame :=
  repeat first
    [ progress intros
    | solve [auto 3 with frames typeclass_instances]
    | apply keeps_bind; [exact _| |]
    | match goal with |- keeps _ (match ?x with _ => _ end) => destruct x end ].
