(* ===== verification/RunLoop.v ===== *)
(** run/trading/runLoop.cppm: the per-tick backtest loop, proved against the
    strategy interface ([IStrategy], [ClosesOnly]) and not any one strategy. *)
From S2P Require Import Prelude Models Double Config OhlcBuilder BarStore TradeManager.
From S2P Require Import ExitRules EntryConditions Strategy RateWindow ResultsSummary.
From S2P Require MarketHours Trade.
From Stdlib Require SpecFloat.

Record RiskLimits {D : Decimal64} : Type := mkRiskLimits {
  startingBalance : decimal64_t;
  maxLossPercent : decimal64_t;
  maxOpenTrades : Z;
  maxTradesPerMinute : Z;
  peakHoursOnly : bool;
  pointsPerPip : Z;
  minPerformanceScore : decimal64_t;
  minDecisiveTrades : Z;
  lastMonths : Z;
}.
Arguments RiskLimits D : clear implicits.

Inductive RunStatus : Type := Completed | LossLimitBreached | Underperformed.

Section RunLoop.
Context {D : Decimal64} {C : DecimalDouble D} {H : HashOrder} {W : World}.
Context {S : Type} {I : IStrategy S}.
Context (vars : TradingVariables) (limits : RiskLimits D) (gateSeries : option SeriesSpec).

(** The locals of [runTicks]. *)
Record LoopState : Type := mkLoopState {
  manager : TradeManager;
  strategy : S;
  sharedBars : BarStore;
  recentOpens : list Z;
}.

Definition lossLimitActive : bool := dec_ltb (dec_of_Z 0) (maxLossPercent limits).

Definition pnlFloorPoints : Z :=
  let sizeScale := Z.max 1 (TRADING_SIZE vars) in
  let budget := dec_to_Z (dec_mul (dec_div (dec_mul (startingBalance limits)
                   (maxLossPercent limits)) (dec_of_Z 100)) (dec_of_Z (pointsPerPip limits))) in
  i64 (- budget) *₆₄ sizeScale.

Definition lossLimitBreached (m : TradeManager) : bool :=
  lossLimitActive && ((calculatePnl m +₆₄ unrealizedPnl m) <=? pnlFloorPoints).

Definition tradeRateCapActive : bool := 0 <? maxTradesPerMinute limits.

Definition belowOpenTradeCap (m : TradeManager) : bool :=
  (maxOpenTrades limits <=? 0) || (Z.of_nat (reviewAccount m) <? maxOpenTrades limits).

Definition belowTradeRateCap (opens : list Z) : bool :=
  negb tradeRateCapActive || (Z.of_nat (length opens) <? maxTradesPerMinute limits).

Definition inSession (tick : PriceData) : bool :=
  negb (peakHoursOnly limits) || MarketHours.tradePermitted (symbol tick) (timestamp tick).

(** Opens the signalled trade and records it for the rate cap. *)
Definition open_entry (st : LoopState) (tick : PriceData) (strategy' : S) (d : Direction)
    (distances : option Distances) : LoopState :=
  let stop := match distances with Some x => stopPips x | None => STOP_DISTANCE_IN_ATR vars end in
  let limit := match distances with Some x => limitPips x | None => LIMIT_DISTANCE_IN_ATR vars end in
  mkLoopState (openTrade (manager st) tick (TRADING_SIZE vars) d stop limit).2
    strategy' (sharedBars st)
    (if tradeRateCapActive then recentOpens st ++ [timestamp tick] else recentOpens st).

(** The gated part of one tick. *)
Definition try_entry (st : LoopState) (tick : PriceData) : result LoopState :=
  if inSession tick && belowOpenTradeCap (manager st) && belowTradeRateCap (recentOpens st)
     && negb (hasActiveTradeForSymbol (manager st) (symbol tick)) then
    distances <~ match gateSeries with
                 | None => Ok None
                 | Some gate => check (sharedBars st) gate tick (STOP_DISTANCE_IN_ATR vars)
                                  (LIMIT_DISTANCE_IN_ATR vars)
                 end;
    let conditionsMet :=
      match gateSeries, distances with Some _, None => false | _, _ => true end in
    if (conditionsMet : bool) then
      ' (signal, strategy') <~ decide (strategy st) tick (sharedBars st);
      match signal with
      | Some d => Ok (open_entry st tick strategy' d distances)
      | None => Ok (mkLoopState (manager st) strategy' (sharedBars st) (recentOpens st))
      end
    else Ok st
  else Ok st.

(** One tick: [inl] goes on, [inr] is the early return on a breach. *)
Definition tick_step (st : LoopState) (tick : PriceData) : result (LoopState + LoopState) :=
  let m := reviewStopAndLimit (markToMarket (manager st) tick) tick in
  store <~ update (sharedBars st) tick;
  if lossLimitBreached m then
    Ok (inr (mkLoopState (closeAllTrades m tick true) (strategy st) store (recentOpens st)))
  else
    let opens := if tradeRateCapActive then evict (timestamp tick) (recentOpens st)
                 else recentOpens st in
    st <~ try_entry (mkLoopState m (strategy st) store opens) tick;
    let '(strategy', m') := during (strategy st) tick (sharedBars st) (manager st) in
    Ok (inl (mkLoopState m' strategy' (sharedBars st) (recentOpens st))).

Fixpoint loop (st : LoopState) (ticks : list PriceData) : result (LoopState + LoopState) :=
  match ticks with
  | [] => Ok (inl st)
  | tick :: ticks' =>
      next <~ tick_step st tick;
      match next with
      | inl st' => loop st' ticks'
      | inr st' => Ok (inr st')
      end
  end.

(** The performance gate at the bottom of [runTicks]. *)
Definition performance_gate (m : TradeManager) : RunStatus :=
  if dec_ltb (dec_of_Z 0) (minPerformanceScore limits) || (0 <? minDecisiveTrades limits) then
    let stats := collect m (startingBalance limits) (lastMonths limits) (pointsPerPip limits) in
    let decisiveTrades := Z.of_nat (winners stats + losers stats) in
    if (0 <? minDecisiveTrades limits) && (decisiveTrades <=? minDecisiveTrades limits)
    then Underperformed
    else if dec_ltb (dec_of_Z 0) (minPerformanceScore limits)
            && dec_leb (performanceScore stats) (minPerformanceScore limits)
    then Underperformed
    else Completed
  else Completed.

Definition runTicks (m : TradeManager) (s : S) (ticks : list PriceData)
    (barStore : option BarStore) : result (RunStatus * LoopState) :=
  let store := default emptyStore barStore in
  outcome <~ loop (mkLoopState m s store []) ticks;
  match outcome with
  | inr st => Ok (LossLimitBreached, st)
  | inl st =>
      let finish l := match last ticks with
                      | Some back => closeAllTrades (manager st) back l
                      | None => manager st
                      end in
      let with_manager m' := mkLoopState m' (strategy st) (sharedBars st) (recentOpens st) in
      if lossLimitBreached (manager st)
      then Ok (LossLimitBreached, with_manager (finish true))
      else Ok (performance_gate (finish false), with_manager (finish false))
  end.

(** ** Invariants *)

Lemma hasActive_false m s : hasActiveTradeForSymbol m s = false -> activeTrades m !! s = None.
Proof. unfold hasActiveTradeForSymbol, findActiveTrade. now destruct (activeTrades m !! s). Qed.

(** What one entry attempt did: nothing to the book, or one open under every
    guard. *)
Definition entered (st : LoopState) (tick : PriceData) (o : Opening) : Prop :=
  inSession tick = true /\ belowOpenTradeCap (manager st) = true /\
  belowTradeRateCap (recentOpens st) = true /\
  activeTrades (manager st) !! symbol tick = None /\
  op_symbol o = symbol tick /\ op_time o = timestamp tick /\ op_size o = TRADING_SIZE vars /\
  match gateSeries with
  | None => op_stop o = STOP_DISTANCE_IN_ATR vars /\ op_limit o = LIMIT_DISTANCE_IN_ATR vars
  | Some gate => check (sharedBars st) gate tick (STOP_DISTANCE_IN_ATR vars)
                   (LIMIT_DISTANCE_IN_ATR vars) = Ok (Some (mkDistances (op_stop o) (op_limit o)))
  end.

Lemma try_entry_cases st tick st' :
  try_entry st tick = Ok st' ->
  sharedBars st' = sharedBars st /\
  ((manager st' = manager st /\ recentOpens st' = recentOpens st) \/
   exists o, entered st tick o /\
     manager st' = (openTrade (manager st) tick (op_size o) (op_direction o)
                      (op_stop o) (op_limit o)).2 /\
     recentOpens st' = if tradeRateCapActive then recentOpens st ++ [timestamp tick]
                       else recentOpens st).
Proof.
  unfold try_entry.
  destruct (inSession tick) eqn:E1, (belowOpenTradeCap (manager st)) eqn:E2,
    (belowTradeRateCap (recentOpens st)) eqn:E3; cbn [andb]; try (intros [= <-]; auto).
  destruct (hasActiveTradeForSymbol (manager st) (symbol tick)) eqn:E4; cbn [negb];
    [intros [= <-]; auto|].
  apply hasActive_false in E4.
  destruct (match gateSeries with None => _ | Some _ => _ end) as [distances|] eqn:E5; [|done].
  cbn [result_bind].
  destruct (match gateSeries with Some _ => _ | None => _ end : bool) eqn:E6;
    [|intros [= <-]; auto].
  destruct (decide (strategy st) tick (sharedBars st)) as [[[d|] s']|]; cbn [result_bind];
    [|intros [= <-]; auto|done].
  intros [= <-]. split; [done|]. right.
  exists (mkOpening (symbol tick) (timestamp tick) (TRADING_SIZE vars) d
    (match distances with Some x => stopPips x | None => STOP_DISTANCE_IN_ATR vars end)
    (match distances with Some x => limitPips x | None => LIMIT_DISTANCE_IN_ATR vars end)).
  split; [|split; reflexivity]. unfold entered. cbn. split_and!; auto.
  destruct gateSeries as [gate|].
  - destruct distances as [[sp lp]|]; [|done]. exact E5.
  - injection E5 as <-. auto.
Qed.

(** One tick on the book: marks and closes, at most one entry, at most one
    close. *)
Definition reviewed (m : TradeManager) (tick : PriceData) : TradeManager :=
  reviewStopAndLimit (markToMarket m tick) tick.

Definition after_entry (m m' : TradeManager) (tick : PriceData) (o : option Opening) : Prop :=
  match o with
  | None => m' = m
  | Some o => activeTrades m !! symbol tick = None /\ op_symbol o = symbol tick /\
              op_time o = timestamp tick /\
              m' = (openTrade m tick (op_size o) (op_direction o) (op_stop o) (op_limit o)).2
  end.

Context {L : ClosesOnly S}.

Lemma tick_step_cases st tick out :
  tick_step st tick = Ok out ->
  let m := reviewed (manager st) tick in
  match out with
  | inr st' => lossLimitBreached m = true /\ manager st' = closeAllTrades m tick true
  | inl st' =>
      lossLimitBreached m = false /\
      let opens := if tradeRateCapActive then evict (timestamp tick) (recentOpens st)
                   else recentOpens st in
      exists mid o store,
        after_entry m (manager mid) tick o /\ closed_own tick (manager mid) (manager st') /\
        recentOpens st' = recentOpens mid /\
        match o with
        | None => recentOpens mid = opens
        | Some o => entered (mkLoopState m (strategy st) store opens) tick o /\
            recentOpens mid = if tradeRateCapActive then opens ++ [timestamp tick] else opens
        end
  end.
Proof.
  unfold tick_step. fold (reviewed (manager st) tick). set (m := reviewed (manager st) tick).
  destruct (update (sharedBars st) tick) as [store|]; [|done]. cbn [result_bind].
  destruct (lossLimitBreached m) eqn:Eb; [intros [= <-]; auto|].
  set (opens := if tradeRateCapActive then _ else _).
  destruct (try_entry _ tick) as [mid|] eqn:Et; [|done]. cbn [result_bind].
  destruct (during _ _ _ _) as [s' m'] eqn:Ed. intros [= <-]. split; [done|].
  assert (closed_own tick (manager mid) m') as Hc.
  { pose proof (during_closes_own (strategy mid) tick (sharedBars mid) (manager mid)) as Hd.
    now rewrite Ed in Hd. }
  apply try_entry_cases in Et as [_ [[Hm Hr]|(o & He & Hm & Hr)]].
  - exists mid, None, store. split_and!; done.
  - exists mid, (Some o), store. split_and!; try done.
    destruct He as (_ & _ & _ & Hn & Hs & Ht & _). now split_and!.
Qed.

(** *** Steps that open nothing *)

Definition organic (m : TradeManager) : Prop :=
  Forall (fun t => Trade.liquidated t = false) (closedTrades m).

(** No entry, no forced close, no more open trades than before. *)
Record quiet (m m' : TradeManager) : Prop := mkQuiet {
  quiet_ledger : ledger m -> ledger m';
  quiet_openings : openings m' ≡ₚ openings m;
  quiet_size : (reviewAccount m' <= reviewAccount m)%nat;
  quiet_organic : organic m -> organic m';
}.

Lemma quiet_refl m : quiet m m.
Proof. split; auto. Qed.

Lemma quiet_trans m1 m2 m3 : quiet m1 m2 -> quiet m2 m3 -> quiet m1 m3.
Proof.
  intros [A1 A2 A3 A4] [B1 B2 B3 B4]. split; auto; [now rewrite B2|lia].
Qed.

Lemma quiet_mark m tick : quiet m (markToMarket m tick).
Proof.
  split; [apply markToMarket_ledger|apply markToMarket_openings|..];
    unfold markToMarket, reviewAccount, organic;
    destruct (activeTrades m !! symbol tick) as [t|] eqn:E; auto.
  cbn [activeTrades updateDrawdown set_book]. rewrite map_size_insert_Some; [done|by rewrite E].
Qed.

Lemma quiet_close m s price tick : quiet m (closeTrade m s price tick false).2.
Proof.
  split; [apply closeTrade_ledger|apply closeTrade_openings|..].
  - unfold reviewAccount. rewrite closeTrade_active, map_size_delete.
    destruct (activeTrades m !! s); simpl; lia.
  - unfold organic, closeTrade. destruct (activeTrades m !! s); [|done].
    cbn. intros Ho. apply Forall_app_2; [done|]. now repeat constructor.
Qed.

Lemma quiet_reviewed m tick : quiet m (reviewed m tick).
Proof.
  unfold reviewed. eapply quiet_trans; [apply quiet_mark|].
  unfold reviewStopAndLimit. destruct (findActiveTrade _ _) as [t|]; [|apply quiet_refl].
  destruct (checkExit t tick); [apply quiet_close|apply quiet_refl].
Qed.

Lemma quiet_closed_own tick m m' : closed_own tick m m' -> quiet m m'.
Proof. intros [->|(t & _ & ->)]; [apply quiet_refl|apply quiet_close]. Qed.

(** *** The loop invariant *)

Definition distances_ok (o : Opening) : Prop :=
  match gateSeries with
  | None => op_stop o = STOP_DISTANCE_IN_ATR vars /\ op_limit o = LIMIT_DISTANCE_IN_ATR vars
  | Some _ => 10 <= op_stop o <= 80 /\ 3 <= op_limit o <= 300
  end.

(** An entry made on one of the [seen] ticks, under every per-entry guard. *)
Definition opening_ok (seen : list PriceData) (o : Opening) : Prop :=
  exists tick, tick ∈ seen /\ op_symbol o = symbol tick /\ op_time o = timestamp tick /\
    op_size o = TRADING_SIZE vars /\ inSession tick = true /\ distances_ok o.

Definition entry_times (m : TradeManager) : list Z := map op_time (openings m).

Record loop_inv (st : LoopState) (seen : list PriceData) (now : Z) : Prop := mkLoopInv {
  inv_ledger : ledger (manager st);
  inv_organic : organic (manager st);
  inv_entries : Forall (opening_ok seen) (openings (manager st));
  inv_cap : 0 < maxOpenTrades limits ->
            Z.of_nat (reviewAccount (manager st)) <= maxOpenTrades limits;
  inv_rate : tradeRateCapActive = true ->
             rate_inv (maxTradesPerMinute limits) (entry_times (manager st)) (recentOpens st) now;
}.

Lemma openings_seen seen seen' m :
  (forall t, t ∈ seen -> t ∈ seen') -> Forall (opening_ok seen) (openings m) ->
  Forall (opening_ok seen') (openings m).
Proof.
  intros Hs Hf. eapply Forall_impl; [exact Hf|].
  intros o (t & Hin & Ho). exists t. auto.
Qed.

Lemma openTrade_organic m tick sz d sp lp : organic m -> organic (openTrade m tick sz d sp lp).2.
Proof.
  unfold organic, openTrade. cbn [activeTrades count_trade].
  destruct (activeTrades m !! symbol tick); exact (fun h => h).
Qed.

Lemma tick_step_inv st seen now tick out :
  loop_inv st seen now -> now <= timestamp tick -> tick_step st tick = Ok out ->
  match out with
  | inl st' => loop_inv st' (seen ++ [tick]) (timestamp tick)
  | inr st' => exists m, ledger m /\ organic m /\ lossLimitBreached m = true /\
      Forall (opening_ok seen) (openings m) /\ manager st' = closeAllTrades m tick true
  end.
Proof.
  intros [Il Io Ie Ic Ir] Hnow Hstep. apply tick_step_cases in Hstep.
  pose proof (quiet_reviewed (manager st) tick) as [Ql Qo Qs Qg].
  set (m := reviewed (manager st) tick) in *.
  assert (Forall (opening_ok seen) (openings m)) as Hem by (now rewrite Qo).
  destruct out as [st'|st']; [|destruct Hstep as [Hb Hm]; exists m; split_and!; auto].
  destruct Hstep as (_ & mid & o & store & He & Hc & Hr & Ho).
  apply quiet_closed_own in Hc as [Cl Co Cs Cg].
  assert (forall x, x ∈ seen -> x ∈ seen ++ [tick]) as Hsub by set_solver.
  set (opens := if tradeRateCapActive then evict (timestamp tick) (recentOpens st)
                else recentOpens st) in *.
  assert (tradeRateCapActive = true -> rate_inv (maxTradesPerMinute limits) (entry_times m) opens (timestamp tick)) as Hrate.
  { intros Ha. unfold opens. rewrite Ha. eapply rate_inv_evict; [|exact Hnow].
    eapply rate_inv_perm; [|exact (Ir Ha)]. exact (Permutation_map op_time Qo). }
  destruct o as [o|].
  2: { destruct He. split.
       - exact (Cl (Ql Il)).
       - exact (Cg (Qg Io)).
       - rewrite Co. eapply openings_seen; [exact Hsub|exact Hem].
       - intros Hcap. specialize (Ic Hcap). lia.
       - intros Ha. rewrite Hr, Ho.
         eapply rate_inv_perm; [exact (Permutation_map op_time Co)|exact (Hrate Ha)]. }
  destruct He as (Hfree & Hsym & Htime & Hmid), Ho as [Hentered Hopens].
  pose proof (openTrade_openings m tick (op_size o) (op_direction o) (op_stop o) (op_limit o) Hfree)
    as Hop. rewrite <- Hmid in Hop.
  destruct Hentered as (G1 & G2 & G3 & _ & _ & _ & Hsize & Hdist).
  cbn [manager recentOpens sharedBars] in G2, G3, Hdist.
  split.
  - apply Cl. rewrite Hmid. apply openTrade_ledger, Ql, Il.
  - apply Cg. rewrite Hmid. apply openTrade_organic, Qg, Io.
  - rewrite Co, Hop. constructor; [|eapply openings_seen; [exact Hsub|exact Hem]].
    exists tick. cbn. split_and!; auto; [set_solver|]. unfold distances_ok. cbn.
    destruct gateSeries as [gate|]; [|exact Hdist].
    exact (check_clamped _ _ _ _ _ _ Hdist).
  - intros Hcap. specialize (Ic Hcap). unfold belowOpenTradeCap in G2.
    assert (reviewAccount (manager mid) = (1 + reviewAccount m)%nat) as Hs1.
    { rewrite Hmid, openTrade_free by done. unfold reviewAccount. cbn.
      now rewrite map_size_insert_None. }
    zbool. lia.
  - intros Ha. rewrite Hr, Hopens, Ha.
    assert (opens = evict (timestamp tick) (recentOpens st)) as Eo by (unfold opens; now rewrite Ha).
    destruct (Ir Ha) as (old & _ & Hsorted & _).
    destruct (evict_split (timestamp tick) _ Hsorted) as (_ & _ & _ & Hlive). rewrite <- Eo in Hlive.
    eapply rate_inv_push; [exact (Hrate Ha)|exact Hlive|..].
    + unfold belowTradeRateCap in G3. rewrite Ha in G3. cbn [negb orb] in G3. now zbool.
    + unfold entry_times. rewrite (Permutation_map op_time Co), (Permutation_map op_time Hop).
      cbn [map op_time]. done.
Qed.

Lemma loop_inv_run ticks : forall st seen now out,
  loop_inv st seen now -> StronglySorted Z.le (now :: map timestamp ticks) ->
  loop st ticks = Ok out ->
  match out with
  | inl st' => exists now', loop_inv st' (seen ++ ticks) now'
  | inr st' => exists m tick, ledger m /\ organic m /\ lossLimitBreached m = true /\
      Forall (opening_ok (seen ++ ticks)) (openings m) /\ manager st' = closeAllTrades m tick true
  end.
Proof.
  induction ticks as [|tick ticks IH]; intros st seen now out Hi Hs Hl; cbn [loop] in Hl.
  { injection Hl as <-. rewrite app_nil_r. eauto. }
  cbn [map] in Hs. inversion Hs as [|? ? Hs1 Hs2]; subst.
  inversion Hs2 as [|? ? Hle _]; subst.
  destruct (tick_step st tick) as [next|] eqn:E; [|done]. cbn [result_bind] in Hl.
  pose proof (tick_step_inv st seen now tick next Hi Hle E) as Hn.
  destruct next as [st1|st1].
  - specialize (IH st1 (seen ++ [tick]) (timestamp tick) out Hn Hs1 Hl).
    rewrite <- app_assoc in IH. exact IH.
  - injection Hl as <-. destruct Hn as (m & H1 & H2 & H3 & H4 & H5).
    exists m, tick. split_and!; auto. eapply openings_seen; [|exact H4]. set_solver.
Qed.

Definition fresh_state (slippage : Z) (s : S) (store : BarStore) : LoopState :=
  mkLoopState (newTradeManager slippage) s store [].

Lemma loop_inv_fresh slippage s store now :
  0 <= maxTradesPerMinute limits -> loop_inv (fresh_state slippage s store) [] now.
Proof.
  intros Hcap. split; [apply ledger_new|apply Forall_nil_2|apply Forall_nil_2|..].
  { intros Hm. change (0 <= maxOpenTrades limits). lia. }
  intros _. exists []. split_and!; [done|constructor|constructor|constructor|].
  intros T. exact Hcap.
Qed.

(** Sorted times, as the queries' ORDER BY timestamp gives them. *)
Definition ticks_sorted (ticks : list PriceData) : Prop :=
  StronglySorted Z.le (map timestamp ticks).

Lemma sorted_from ticks :
  ticks_sorted ticks -> exists now, StronglySorted Z.le (now :: map timestamp ticks).
Proof.
  intros Hs. destruct ticks as [|t ticks]; [exists 0; repeat constructor|].
  exists (timestamp t). unfold ticks_sorted in Hs. cbn [map] in *. inversion Hs; subst.
  constructor; [done|]. constructor; [lia|done].
Qed.

(** C2: the entry caps hold at every moment of a run.  For any strategy that
    keeps the interface's promise, any limits and any time-ordered ticks: after
    every prefix the loop survives, no more than [maxOpenTrades] trades are open,
    no one-minute window of tick time holds more than [maxTradesPerMinute]
    entries (trades that have closed since included), every trade ever opened
    was entered on a tick of the run inside its session, with the configured
    size and, under the ATR gate, a stop of 10 to 80 pips and a limit of 3 to
    300, and the account's running sums agree with the book. *)
Theorem entry_caps (slippage : Z) (s : S) (store : BarStore) (ticks : list PriceData)
    (st : LoopState)
    (Hsorted : ticks_sorted ticks) (Hrate : 0 <= maxTradesPerMinute limits)
    (Hloop : loop (fresh_state slippage s store) ticks = Ok (inl st)) :
  (0 < maxOpenTrades limits -> Z.of_nat (reviewAccount (manager st)) <= maxOpenTrades limits) /\
  (0 < maxTradesPerMinute limits ->
     rate_ok (maxTradesPerMinute limits) (entry_times (manager st))) /\
  Forall (opening_ok ticks) (openings (manager st)) /\
  ledger (manager st).
Proof.
  destruct (sorted_from ticks Hsorted) as [now Hs].
  destruct (loop_inv_run ticks _ [] now _ (loop_inv_fresh slippage s store now Hrate) Hs Hloop)
    as [now' [Il Io Ie Ic Ir]].
  split_and!; auto. intros Hp. destruct Ir as (_ & _ & _ & _ & _ & Hok); [|exact Hok].
  unfold tradeRateCapActive. now zbool.
Qed.

(** How a run ended, seen from its state. *)
Lemma runTicks_end slippage s ticks barStore status st :
  ticks_sorted ticks -> 0 <= maxTradesPerMinute limits ->
  runTicks (newTradeManager slippage) s ticks barStore = Ok (status, st) ->
  exists m, ledger m /\ organic m /\ Forall (opening_ok ticks) (openings m) /\
    (status = LossLimitBreached <-> lossLimitBreached m = true) /\
    ((ticks = [] /\ manager st = m /\ activeTrades m = ∅) \/
     exists back, manager st = closeAllTrades m back (lossLimitBreached m)).
Proof.
  intros Hsorted Hrate Hrun. unfold runTicks in Hrun.
  fold (fresh_state slippage s (default emptyStore barStore)) in Hrun.
  destruct (sorted_from ticks Hsorted) as [now Hs].
  destruct (loop _ ticks) as [out|] eqn:El; [|done]. cbn [result_bind] in Hrun.
  pose proof (loop_inv_run ticks _ [] now out (loop_inv_fresh slippage s _ now Hrate) Hs El) as Hi.
  destruct out as [st0|st0].
  2: { injection Hrun as <- <-. destruct Hi as (m & tick & H1 & H2 & H3 & H4 & H5).
       exists m. rewrite H3. split_and!; [done..|right; eauto]. }
  destruct Hi as [now' [Il Io Ie _ _]]. exists (manager st0). split_and!; auto.
  - destruct (lossLimitBreached (manager st0)); injection Hrun as <- <-.
    + done.
    + split; [|done]. unfold performance_gate. destruct (_ || _); [|done].
      destruct (_ && _); [done|]. now destruct (_ && _).
  - destruct (last ticks) as [back|] eqn:Eb.
    + right. exists back. destruct (lossLimitBreached (manager st0)); now injection Hrun as <- <-.
    + left. apply last_None in Eb. subst ticks. cbn in El. injection El as <-.
      destruct (lossLimitBreached _); injection Hrun as <- <-; done.
Qed.

(** C1: a finished run is settled.  Whenever [runTicks] returns, for any
    interface-abiding strategy, limits and time-ordered ticks: no trade is left
    open and nothing is floating; the realised profit is the sum over the
    closed trades; with the loss limit active the status is LossLimitBreached
    exactly when that final profit is at or below the floor (so liquidation
    neither rescues nor sinks a run), and with it inactive never; in a run that
    did not breach, no close is marked as a liquidation; and every trade of the
    run met the entry guards. *)
Theorem run_settles (slippage : Z) (s : S) (ticks : list PriceData) (barStore : option BarStore)
    (status : RunStatus) (st : LoopState)
    (Hsorted : ticks_sorted ticks) (Hrate : 0 <= maxTradesPerMinute limits)
    (Hrun : runTicks (newTradeManager slippage) s ticks barStore = Ok (status, st)) :
  activeTrades (manager st) = ∅ /\ unrealizedPnl (manager st) = 0 /\
  calculatePnl (manager st) = i64 (realised_sum (closedTrades (manager st))) /\
  (status = LossLimitBreached <->
     lossLimitActive = true /\ calculatePnl (manager st) <= pnlFloorPoints) /\
  (status <> LossLimitBreached ->
     Forall (fun t => Trade.liquidated t = false) (closedTrades (manager st))) /\
  Forall (opening_ok ticks) (openings (manager st)).
Proof.
  destruct (runTicks_end slippage s ticks barStore status st Hsorted Hrate Hrun)
    as (m & Hl & Ho & He & Hst & Hend).
  assert (activeTrades (manager st) = ∅ /\ unrealizedPnl (manager st) = 0 /\
    calculatePnl (manager st) = equity m /\ ledger (manager st) /\
    (lossLimitBreached m = false -> organic (manager st)) /\
    openings (manager st) ≡ₚ openings m) as (F1 & F2 & F3 & F4 & F5 & F6).
  { destruct Hend as [(_ & -> & Hempty)|[back ->]].
    - pose proof (ledger_open m Hl) as Hop. rewrite Hempty, floating_sum_empty in Hop.
      change (i64 0) with 0 in Hop. split_and!; auto. unfold equity, calculatePnl.
      rewrite Hop, Z.add_0_r, (ledger_realised m Hl). symmetry. apply eq64_i64.
    - destruct (closeAllTrades_book m back (lossLimitBreached m) Hl) as (G1 & G2 & _ & G3 & G4).
      destruct (closeAllTrades_pnl m back (lossLimitBreached m) Hl) as [G5 G6].
      split_and!; auto using closeAllTrades_openings. intros Hf. unfold organic. rewrite G3.
      apply Forall_app_2; [exact Ho|]. apply Forall_fmap, Forall_forall.
      intros e _. exact Hf. }
  assert (lossLimitBreached m = true <->
    lossLimitActive = true /\ calculatePnl (manager st) <= pnlFloorPoints) as Hb.
  { unfold lossLimitBreached. rewrite F3, andb_true_iff, Z.leb_le. reflexivity. }
  split_and!; auto.
  - apply (ledger_realised _ F4).
  - now rewrite Hst.
  - intros Hne. apply F5. rewrite Hst in Hne. now destruct (lossLimitBreached m).
  - now rewrite F6.
Qed.
End RunLoop.

(** ** Witnesses: integers as decimals, a coin that always lands heads *)

Definition integerDecimal : Decimal64 := {|
  decimal64_t := Z; dec_of_Z := fun z => z; dec_add := Z.add; dec_mul := Z.mul;
  dec_div := Z.quot; dec_ltb := Z.ltb; dec_leb := Z.leb; dec_to_Z := fun z => z;
|}.

Definition integerDouble : DecimalDouble integerDecimal :=
  @Build_DecimalDouble integerDecimal dbl_of_Z
    (fun v => match v with
              | SpecFloat.S754_finite s m e => (if s then -1 else 1) * Zpos m * 2 ^ e
              | _ => 0
              end).

Definition heads : IStrategy unit := RandomStrategy (fun _ => (true, tt)).

Definition demo_vars : TradingVariables := mkTradingVariables "RandomStrategy" 10 20 1.

Definition demo_limits : RiskLimits integerDecimal :=
  mkRiskLimits integerDecimal 10000 5 1 2 false 10 0 0 0.

Definition demo_ticks : list PriceData :=
  [book_tick "EURUSD" 0 110000; book_tick "GBPUSD" (seconds 1) 130000;
   book_tick "EURUSD" (seconds 2) 110250; book_tick "EURUSD" (seconds 3) 110260].

Lemma demo_ticks_sorted : ticks_sorted demo_ticks.
Proof. unfold ticks_sorted. repeat constructor; vm_compute; discriminate. Defined.

Lemma entry_caps_witness :
  exists st,
    loop (H := canonicalOrder) (W := quietWorld) (I := heads)
      demo_vars demo_limits None (fresh_state 0 tt emptyStore) demo_ticks = Ok (inl st) /\
    Z.of_nat (reviewAccount (manager st)) <= 1.
Proof.
  destruct (loop (H := canonicalOrder) (W := quietWorld) (I := heads)
      demo_vars demo_limits None (fresh_state 0 tt emptyStore) demo_ticks) as [[st|st]|] eqn:E;
    [|vm_compute in E; discriminate..].
  exists st. split; [reflexivity|].
  apply (entry_caps (H := canonicalOrder) (W := quietWorld) (I := heads)
    (L := RandomStrategy_closes_only (fun _ => (true, tt)))
    demo_vars demo_limits None 0 tt emptyStore demo_ticks st demo_ticks_sorted);
    [vm_compute; discriminate|exact E|vm_compute; reflexivity].
Defined.

Lemma run_settles_witness :
  exists status st,
    runTicks (C := integerDouble) (H := canonicalOrder) (W := quietWorld) (I := heads)
      demo_vars demo_limits None (newTradeManager 0) tt demo_ticks None = Ok (status, st) /\
    activeTrades (manager st) = ∅.
Proof.
  destruct (runTicks (C := integerDouble) (H := canonicalOrder) (W := quietWorld) (I := heads)
      demo_vars demo_limits None (newTradeManager 0) tt demo_ticks None) as [[status st]|] eqn:E;
    [|vm_compute in E; discriminate].
  exists status, st. split; [reflexivity|].
  apply (run_settles (C := integerDouble) (H := canonicalOrder) (W := quietWorld) (I := heads)
    (L := RandomStrategy_closes_only (fun _ => (true, tt)))
    demo_vars demo_limits None 0 tt demo_ticks None status st demo_ticks_sorted);
    [vm_compute; discriminate|exact E].
Defined.
