(* ===== verification/Reports.v ===== *)
(** The outcome documents of a run: run/reporting/tradingResults.cpp,
    tradeDocument.cpp, decimalJson.hpp's numeric form, and
    run/reporting/elasticClient.cppm, which routes them to their indices. *)
From Stdlib Require Import ZArith Lia.
From stdpp Require Import base list strings.
From S2P Require Import Prelude Models Double Config Json JsonDump JsonRoundTrip StdText ConfigJson Chrono Env IsoTime WireTime TradeManager ResultsSummary RollingWindow Elastic.
From S2P Require Trade SymbolScale.
Open Scope Z_scope.

(** [j[k1][k2]... = v]: null becomes an object on the way, anything else that is
    no object throws. *)
Fixpoint set_path (path : list string) (v : json) (j : json) : result json :=
  match path with
  | [] => Ok v
  | key :: path =>
      match j with
      | JObject members =>
          member <~ set_path path v (default JNull (obj_find key members)) ;
          Ok (JObject (obj_set key member members))
      | JNull => member <~ set_path path v JNull ; Ok (JObject (obj_set key member []))
      | _ => Throw (JsonError 305)
      end
  end.

Fixpoint set_paths (assignments : list (list string * json)) (j : json) : result json :=
  match assignments with
  | [] => Ok j
  | (path, v) :: assignments => j <~ set_path path v j ; set_paths assignments j
  end.

Definition json_of_size (n : nat) : json := JUnsigned (Z.of_nat n).

Section Reports.
Context {D : Decimal64} {T : DecimalText D} {C : DecimalDouble D}.

(** * tradingResults.cpp *)

Definition decimalToJsonNumber (value : decimal64_t) : json := JFloat (dec_to_double value).

Definition TradingResultsStats_to_json (s : TradingResultsStats D) : result json :=
  set_path ["avgPnl"] (match avgPnl s with Some d => decimalToJsonNumber d | None => JNull end)
    (json_object
       [("finalPnl", decimalToJsonNumber (finalPnl s));
        ("tradesOpened", json_of_size (tradesOpened s));
        ("tradesClosed", json_of_size (tradesClosed s));
        ("openedLong", json_of_size (openedLong s));
        ("openedShort", json_of_size (openedShort s));
        ("closedLong", json_of_size (closedLong s));
        ("closedShort", json_of_size (closedShort s));
        ("winners", json_of_size (winners s));
        ("losers", json_of_size (losers s));
        ("breakeven", json_of_size (breakeven s));
        ("liquidated", json_of_size (liquidatedCount s));
        ("performanceScore", decimalToJsonNumber (performanceScore s));
        ("winRate", decimalToJsonNumber (winRate s));
        ("tradeRatio", decimalToJsonNumber (tradeRatio s));
        ("expectancyScore", decimalToJsonNumber (expectancyScore s));
        ("calmarScore", decimalToJsonNumber (calmarScore s));
        ("confidenceMultiplier", decimalToJsonNumber (confidenceMultiplier s));
        ("maxDrawdownPercent", decimalToJsonNumber (maxDrawdownPercent s))]).

Definition reportConfigJson (c : Configuration D) : result json :=
  let v := TRADING_VARIABLES (STRATEGY_CONFIG c) in
  let tv field := ["STRATEGY"; "TRADING_VARIABLES"; field] in
  j <~ Configuration_to_json c ;
  set_paths
    [(["STARTING_BALANCE"], decimalToJsonNumber (STARTING_BALANCE (RUN c)));
     (["MAX_LOSS_PERCENT"], decimalToJsonNumber (MAX_LOSS_PERCENT (RUN c)));
     (tv "STOP_DISTANCE_IN_ATR", JInteger (STOP_DISTANCE_IN_ATR v));
     (tv "LIMIT_DISTANCE_IN_ATR", JInteger (LIMIT_DISTANCE_IN_ATR v));
     (tv "TRADING_SIZE", JInteger (TRADING_SIZE v))] j.

Definition appendBatchMetadata (j : json) (c : Configuration D) : result json :=
  set_paths
    ((if String.eqb (EXECUTION_TS (RUN c)) "" then []
      else [(["executionTimestamp"], JString (EXECUTION_TS (RUN c)))]) ++
     (if String.eqb (BATCH (RUN c)) "" then [] else [(["batch"], JString (BATCH (RUN c)))]))%list j.

Record TradingResults : Type := mkTradingResults {
  tr_RUN_ID : string;
  tr_timestamp : string;
  tr_durationSeconds : double;
  tr_hostname : string;
  tr_config : Configuration D;
  tr_results : TradingResultsStats D;
}.

Record TradingFailure : Type := mkTradingFailure {
  tf_RUN_ID : string;
  tf_timestamp : string;
  tf_durationSeconds : double;
  tf_reason : string;
  tf_breachPnlPips : double;
  tf_lossFloorPips : double;
  tf_hostname : string;
  tf_config : Configuration D;
  tf_results : TradingResultsStats D;
}.

Record TradeFinal : Type := mkTradeFinal {
  fin_RUN_ID : string;
  fin_timestamp : string;
  fin_durationSeconds : double;
  fin_success : Z;
  fin_status : string;
  fin_hostname : string;
  fin_config : Configuration D;
}.

Definition TradingResults_to_json (r : TradingResults) : result json :=
  config <~ reportConfigJson (tr_config r) ;
  results <~ TradingResultsStats_to_json (tr_results r) ;
  appendBatchMetadata
    (json_object
       [("RUN_ID", JString (tr_RUN_ID r));
        ("@timestamp", JString (tr_timestamp r));
        ("durationSeconds", JFloat (tr_durationSeconds r));
        ("hostname", JString (tr_hostname r));
        ("config", config);
        ("results", results)]) (tr_config r).

Definition TradingFailure_to_json (f : TradingFailure) : result json :=
  config <~ reportConfigJson (tf_config f) ;
  results <~ TradingResultsStats_to_json (tf_results f) ;
  appendBatchMetadata
    (json_object
       [("RUN_ID", JString (tf_RUN_ID f));
        ("@timestamp", JString (tf_timestamp f));
        ("durationSeconds", JFloat (tf_durationSeconds f));
        ("reason", JString (tf_reason f));
        ("breachPnlPips", JFloat (tf_breachPnlPips f));
        ("lossFloorPips", JFloat (tf_lossFloorPips f));
        ("hostname", JString (tf_hostname f));
        ("config", config);
        ("results", results)]) (tf_config f).

Definition TradeFinal_to_json (f : TradeFinal) : result json :=
  config <~ reportConfigJson (fin_config f) ;
  appendBatchMetadata
    (json_object
       [("RUN_ID", JString (fin_RUN_ID f));
        ("@timestamp", JString (fin_timestamp f));
        ("durationSeconds", JFloat (fin_durationSeconds f));
        ("success", JInteger (fin_success f));
        ("status", JString (fin_status f));
        ("hostname", JString (fin_hostname f));
        ("config", config)]) (fin_config f).

(** * tradeDocument.cpp *)

Record TradeDocument : Type := mkTradeDocument {
  td_RUN_ID : string; td_timestamp : string; td_ingestedAt : string; td_hostname : string;
  td_strategyUuid : string; td_strategyName : string; td_tradeId : string; td_symbol : string;
  td_direction : string; td_size : Z;
  td_entryPrice : double; td_entryBid : double; td_entryAsk : double; td_closePrice : double;
  td_stopPrice : double; td_limitPrice : double;
  td_stopDistancePips : Z; td_limitDistancePips : Z;
  td_openTime : string; td_closeTime : string; td_holdSeconds : double;
  td_pnlPoints : Z; td_pnlPips : double; td_liquidated : bool;
  td_scalingFactor : Z; td_priceScale : Z;
}.

Definition TradeDocument_to_json (t : TradeDocument) : result json :=
  let trigger distance price := if distance =? 0 then JNull else JFloat price in
  set_paths
    [(["stopPrice"], trigger (td_stopDistancePips t) (td_stopPrice t));
     (["limitPrice"], trigger (td_limitDistancePips t) (td_limitPrice t))]
    (json_object
       [("RUN_ID", JString (td_RUN_ID t));
        ("@timestamp", JString (td_timestamp t));
        ("ingestedAt", JString (td_ingestedAt t));
        ("hostname", JString (td_hostname t));
        ("strategyUuid", JString (td_strategyUuid t));
        ("strategyName", JString (td_strategyName t));
        ("tradeId", JString (td_tradeId t));
        ("symbol", JString (td_symbol t));
        ("direction", JString (td_direction t));
        ("size", JInteger (td_size t));
        ("entryPrice", JFloat (td_entryPrice t));
        ("entryBid", JFloat (td_entryBid t));
        ("entryAsk", JFloat (td_entryAsk t));
        ("closePrice", JFloat (td_closePrice t));
        ("stopDistancePips", JInteger (td_stopDistancePips t));
        ("limitDistancePips", JInteger (td_limitDistancePips t));
        ("openTime", JString (td_openTime t));
        ("closeTime", JString (td_closeTime t));
        ("holdSeconds", JFloat (td_holdSeconds t));
        ("pnlPoints", JInteger (td_pnlPoints t));
        ("pnlPips", JFloat (td_pnlPips t));
        ("liquidated", JBoolean (td_liquidated t));
        ("scalingFactor", JInteger (td_scalingFactor t));
        ("priceScale", JInteger (td_priceScale t))]).

(** * elasticClient.cppm *)

Definition resultsBaseFor (lastMonths offsetMonths : Z) : string :=
  if (lastMonths =? RollingWindow.lastMonths kFullHistory) && (offsetMonths =? RollingWindow.offsetMonths kFullHistory)
  then kWinnersBase else kResultsBase.

Definition outcomeDocId (runId : string) (config : Configuration D) : string :=
  let uuid := UUID (STRATEGY_CONFIG config) in
  if String.eqb uuid "" then "" else runId +:+ ":" +:+ uuid.

Context {P : Process}.

(** Serialise, then hand the text to the publisher's queue. *)
Definition put (index : string) (doc : result json) (docId : string) (pending_ : batcher) (w : net)
    : result (batcher * net) :=
  body <~ (j <~ doc ; dump j) ; Ok (enqueueDocument index body docId pending_ w).

Definition putTradingResults (results : TradingResults) : batcher -> net -> result (batcher * net) :=
  put (weeklyIndex (resultsBaseFor (LAST_MONTHS (RUN (tr_config results))) (OFFSET_MONTHS (RUN (tr_config results))))
         (BATCH (RUN (tr_config results))))
    (TradingResults_to_json results) (outcomeDocId (tr_RUN_ID results) (tr_config results)).

Definition putTradingFailure (failure : TradingFailure) : batcher -> net -> result (batcher * net) :=
  put (weeklyIndex kFailuresBase (BATCH (RUN (tf_config failure))))
    (TradingFailure_to_json failure) (outcomeDocId (tf_RUN_ID failure) (tf_config failure)).

Definition putTradeFinal (final : TradeFinal) : batcher -> net -> result (batcher * net) :=
  put (weeklyIndex kFinalBase (BATCH (RUN (fin_config final))))
    (TradeFinal_to_json final) (outcomeDocId (fin_RUN_ID final) (fin_config final)).

Definition toPrice (priceScale points : Z) : double :=
  if 0 <? priceScale then dbl_div (dbl_of_Z points) (dbl_of_Z priceScale) else dbl_of_Z points.

Definition pnl_pips (trade : Trade.Trade) : double :=
  if negb (Trade.scalingFactor trade =? 0) && negb (Trade.size trade =? 0)
  then dbl_div (dbl_of_Z (Trade.pnl trade))
         (dbl_mul (dbl_of_Z (Trade.scalingFactor trade)) (dbl_of_Z (Trade.size trade)))
  else dbl_zero.

Definition trade_document (config : Configuration D) (hostname ingestedAt : string) (trade : Trade.Trade)
    : TradeDocument :=
  let priceScale := SymbolScale.getPriceScale (Trade.symbol trade) in
  let closeIso := isoUtcMillis (Trade.closeTime trade) in
  {| td_RUN_ID := RUN_ID (RUN config);
     td_timestamp := closeIso;
     td_ingestedAt := ingestedAt;
     td_hostname := hostname;
     td_strategyUuid := UUID (STRATEGY_CONFIG config);
     td_strategyName := STRATEGY (TRADING_VARIABLES (STRATEGY_CONFIG config));
     td_tradeId := Trade.id trade;
     td_symbol := Trade.symbol trade;
     td_direction := match Trade.direction trade with LONG => "LONG" | SHORT => "SHORT" end;
     td_size := Trade.size trade;
     td_entryPrice := toPrice priceScale (Trade.entryPrice trade);
     td_entryBid := toPrice priceScale (Trade.entryBid trade);
     td_entryAsk := toPrice priceScale (Trade.entryAsk trade);
     td_closePrice := toPrice priceScale (Trade.closePrice trade);
     td_stopPrice := toPrice priceScale (Trade.stopPrice trade);
     td_limitPrice := toPrice priceScale (Trade.limitPrice trade);
     td_stopDistancePips := Trade.stopDistancePips trade;
     td_limitDistancePips := Trade.limitDistancePips trade;
     td_openTime := isoUtcMillis (Trade.openTime trade);
     td_closeTime := closeIso;
     td_holdSeconds := dbl_div (dbl_of_Z (Trade.closeTime trade - Trade.openTime trade)) (dbl_of_Z 1000000);
     td_pnlPoints := Trade.pnl trade;
     td_pnlPips := pnl_pips trade;
     td_liquidated := Trade.liquidated trade;
     td_scalingFactor := Trade.scalingFactor trade;
     td_priceScale := priceScale |}.

Definition trade_id_prefix (config : Configuration D) : string :=
  let outcomeId := outcomeDocId (RUN_ID (RUN config)) config in
  (if String.eqb outcomeId "" then RUN_ID (RUN config) else outcomeId) +:+ ":".

Fixpoint trade_docs (config : Configuration D) (hostname ingestedAt : string) (closedTrades : list Trade.Trade)
    : result (list BulkDoc) :=
  match closedTrades with
  | [] => Ok []
  | trade :: closedTrades =>
      text <~ (j <~ TradeDocument_to_json (trade_document config hostname ingestedAt trade) ; dump j) ;
      rest <~ trade_docs config hostname ingestedAt closedTrades ;
      Ok (mkDoc (trade_id_prefix config +:+ Trade.id trade) text :: rest)
  end.

Definition bulkPutTrades (closedTrades : list Trade.Trade) (config : Configuration D) (hostname : string)
    (pending_ : batcher) (w : net) : result (batcher * net) :=
  match closedTrades with
  | [] => Ok (pending_, w)
  | _ =>
      docs <~ trade_docs config hostname (nowIsoUtc (seconds w)) closedTrades ;
      Ok (enqueueDocuments kTradesIndex docs pending_, w)
  end.

(** * Facts *)

(** The winners index takes the full-history window and nothing else. *)
Lemma resultsBaseFor_winners last offset :
  resultsBaseFor last offset = kWinnersBase <-> mkWindow last offset = kFullHistory.
Proof.
  unfold resultsBaseFor, kFullHistory. cbn [RollingWindow.lastMonths RollingWindow.offsetMonths].
  destruct (Z.eqb_spec last 9) as [->|H]; destruct (Z.eqb_spec offset 0) as [->|H']; cbn [andb];
    split; intros E; first [done|discriminate E|congruence].
Qed.

Lemma trade_docs_ids config hostname at_ closed docs :
  trade_docs config hostname at_ closed = Ok docs ->
  map Elastic.id docs = map (fun t => trade_id_prefix config +:+ Trade.id t) closed.
Proof.
  revert docs. induction closed as [|t closed IH]; intros docs; cbn [trade_docs]; [now intros [= <-]|].
  destruct (j <~ _ ; dump j) as [text|]; [|done]. cbn [result_bind].
  destruct (trade_docs config hostname at_ closed) as [rest|] eqn:E; [|done]. cbn [result_bind].
  intros [= <-]. cbn. f_equal. now apply IH.
Qed.

(** Distinct trades get distinct documents: a retry overwrites its own. *)
Lemma trade_docs_distinct config hostname at_ closed docs :
  trade_docs config hostname at_ closed = Ok docs -> NoDup (map Trade.id closed) ->
  NoDup (map Elastic.id docs).
Proof.
  intros E Hnd. rewrite (trade_docs_ids _ _ _ _ _ E).
  rewrite <- (map_map Trade.id (fun i => trade_id_prefix config +:+ i)).
  apply (NoDup_fmap_2 (fun i => trade_id_prefix config +:+ i)), Hnd.
Qed.
End Reports.
Arguments TradingResults D : clear implicits.
Arguments TradingFailure D : clear implicits.
Arguments TradeFinal D : clear implicits.

(** * Every document serialises *)

(** What [dump] needs: integers of a width it prints and valid text; unlike the
    round trip it asks nothing of a double. *)
Fixpoint dumpable (j : json) : bool :=
  match j with
  | JNull | JBoolean _ | JFloat _ => true
  | JInteger z | JUnsigned z => (- 2 ^ 63 <=? z) && (z <? 2 ^ 64)
  | JString s => utf8_valid (chars s)
  | JArray l => forallb dumpable l
  | JObject m => forallb (fun kv => utf8_valid (chars kv.1) && dumpable kv.2) m
  end.

Definition member_dumpable (kv : string * json) : bool := utf8_valid (chars kv.1) && dumpable kv.2.

Lemma dumpable_dumps j : dumpable j = true -> exists s, dump j = Ok s.
Proof.
  intros Hj. enough (exists t, dump_json strict false j = Ok t) as [t Ht] by (unfold dump; rewrite Ht; eauto).
  revert Hj. induction j as [|b|z|z|d|s|l IH|m IH] using json_ind'; intros Hj; cbn [dumpable] in Hj; try (eexists; reflexivity).
  - zbool. cbn [dump_json]. destruct (dump_integer_prints z) as [[_ E]|[(_ & ds & E & _)|(_ & ds & E & _)]]; [lia|eauto..].
  - zbool. cbn [dump_json]. destruct (dump_integer_prints z) as [[_ E]|[(_ & ds & E & _)|(_ & ds & E & _)]]; [lia|eauto..].
  - cbn [dump_json]. rewrite dump_escaped_strict, Hj. cbn. eauto.
  - assert (exists ts, Forall2 (fun j t => dump_json strict false j = Ok t) l ts) as [ts Hts].
    { apply Forall_exists_Forall2. rewrite forallb_forall in Hj. rewrite Forall_forall in IH |- *.
      intros j Hin. apply IH; [done|]. now apply Hj, list_elem_of_In. }
    destruct l as [|j l]; [eexists; reflexivity|].
    change (dump_json strict false (JArray (j :: l))) with
      (t <~ dump_elements (dump_json strict false) (j :: l) ; Ok ([char_of 91] ++ t ++ [char_of 93])%list).
    rewrite (dump_elements_join _ _ ts Hts). cbn. eauto.
  - assert (exists ts, Forall2 (fun kv t => dump_member false strict (dump_json strict false) kv.1 kv.2 = Ok t) m ts)
      as [ts Hts].
    { apply Forall_exists_Forall2. rewrite forallb_forall in Hj. rewrite Forall_forall in IH |- *.
      intros kv Hin. specialize (Hj kv (proj1 (list_elem_of_In _ _) Hin)).
      apply andb_true_iff in Hj as [Hk Hv]. destruct (IH kv Hin Hv) as [t Ht].
      unfold dump_member. rewrite dump_escaped_strict, Hk, Ht. cbn. eauto. }
    destruct m as [|kv m]; [eexists; reflexivity|].
    change (dump_json strict false (JObject (kv :: m))) with
      (t <~ dump_members false strict (dump_json strict false) (kv :: m) ;
       Ok ([char_of 123] ++ t ++ [char_of 125])%list).
    rewrite (dump_members_join _ _ ts Hts). cbn. eauto.
Qed.

Lemma json_ok_dumpable j : json_ok j = true -> dumpable j = true.
Proof.
  induction j as [|b|z|z|d|s|l IH|m IH] using json_ind'; intros Hj; cbn [json_ok dumpable] in *; try done.
  - zbool. lia.
  - zbool. lia.
  - rewrite forallb_forall in Hj |- *. intros j Hin. rewrite Forall_forall in IH.
    apply IH; [now apply list_elem_of_In|now apply Hj].
  - apply andb_true_iff in Hj as [_ Hj]. rewrite forallb_forall in Hj |- *. intros kv Hin.
    specialize (Hj kv Hin). apply andb_true_iff in Hj as [-> Hv]. cbn [andb]. rewrite Forall_forall in IH.
    apply IH; [now apply list_elem_of_In|done].
Qed.

Lemma obj_set_dumpable k v m :
  member_dumpable (k, v) = true -> forallb member_dumpable m = true ->
  forallb member_dumpable (obj_set k v m) = true.
Proof.
  intros Hkv. induction m as [|[k' v'] m IH]; [cbn [obj_set forallb]; now rewrite Hkv|].
  cbn [obj_set forallb]. intros [H1 H2]%andb_true_iff.
  destruct (String.eqb k' k); [cbn [forallb]; now rewrite Hkv, H2|].
  destruct (String.ltb k k'); cbn [forallb]; rewrite ?Hkv, H1; [now rewrite H2|now rewrite IH].
Qed.

Lemma json_object_dumpable pairs :
  forallb member_dumpable pairs = true -> dumpable (json_object pairs) = true.
Proof.
  unfold json_object. cbn [dumpable]. fold member_dumpable. intros H.
  assert (forall m, forallb member_dumpable m = true ->
    forallb member_dumpable (foldl (fun m kv => obj_emplace kv.1 kv.2 m) m pairs) = true) as Hgen; [|now apply Hgen].
  induction pairs as [|[k v] pairs IH]; intros m Hm; cbn [foldl fst snd]; [done|].
  cbn [forallb] in H. apply andb_true_iff in H as [Hkv H]. apply IH; [done|].
  unfold obj_emplace. destruct (obj_find k m); [done|]. now apply obj_set_dumpable.
Qed.

(** One assignment into an object. *)
Lemma set_key_ok key v m :
  utf8_valid (chars key) = true -> dumpable v = true -> dumpable (JObject m) = true ->
  exists m', set_path [key] v (JObject m) = Ok (JObject m') /\ dumpable (JObject m') = true /\
             m' = obj_set key v m.
Proof.
  intros Hk Hv Hm. eexists. split; [reflexivity|]. split; [|reflexivity].
  apply obj_set_dumpable; [|exact Hm]. unfold member_dumpable. cbn [fst snd]. now rewrite Hk, Hv.
Qed.

Lemma set_path1 key v m : set_path [key] v (JObject m) = Ok (JObject (obj_set key v m)).
Proof. reflexivity. Qed.

Lemma set_path3 k1 k2 k3 v m m1 m2 :
  obj_find k1 m = Some (JObject m1) -> obj_find k2 m1 = Some (JObject m2) ->
  set_path [k1; k2; k3] v (JObject m) =
  Ok (JObject (obj_set k1 (JObject (obj_set k2 (JObject (obj_set k3 v m2)) m1)) m)).
Proof. intros H1 H2. simpl. rewrite H1. simpl. rewrite H2. reflexivity. Qed.

Lemma dumpable_member key m v : dumpable (JObject m) = true -> obj_find key m = Some v -> dumpable v = true.
Proof.
  cbn [dumpable]. induction m as [|[k w] m IH]; [discriminate|]. cbn [forallb obj_find fst snd].
  intros [Hw Hm]%andb_true_iff. destruct (String.eqb k key); [|now apply IH].
  intros [= <-]. now apply andb_true_iff in Hw as [_ Hw].
Qed.

Lemma set_dumpable key v m :
  utf8_valid (chars key) = true -> dumpable v = true -> dumpable (JObject m) = true ->
  dumpable (JObject (obj_set key v m)) = true.
Proof. intros Hk Hv Hm. now destruct (set_key_ok key v m Hk Hv Hm) as (? & _ & ? & ->). Qed.

Lemma dumpable_int z : in_i64 z -> dumpable (JInteger z) = true.
Proof. unfold in_i64. intros. cbn [dumpable]. apply andb_true_iff. lia. Qed.

Section Serialise.
Context {D : Decimal64} {T : DecimalText D} {C : DecimalDouble D}.

(** The members a report's configuration keeps, and the numbers it retypes: the
    value found along a path of keys. *)
Fixpoint json_path (path : list string) (j : json) : option json :=
  match path with
  | [] => Some j
  | key :: path => match j with JObject m => v ← obj_find key m; json_path path v | _ => None end
  end.

Definition retyped (c : Configuration D) : list (list string * json) :=
  let v := TRADING_VARIABLES (STRATEGY_CONFIG c) in
  [(["STARTING_BALANCE"], decimalToJsonNumber (STARTING_BALANCE (RUN c)));
   (["MAX_LOSS_PERCENT"], decimalToJsonNumber (MAX_LOSS_PERCENT (RUN c)));
   (["STRATEGY"; "TRADING_VARIABLES"; "STOP_DISTANCE_IN_ATR"], JInteger (STOP_DISTANCE_IN_ATR v));
   (["STRATEGY"; "TRADING_VARIABLES"; "LIMIT_DISTANCE_IN_ATR"], JInteger (LIMIT_DISTANCE_IN_ATR v));
   (["STRATEGY"; "TRADING_VARIABLES"; "TRADING_SIZE"], JInteger (TRADING_SIZE v))].

Lemma Configuration_members (c : Configuration D) j :
  Configuration_to_json c = Ok j ->
  exists m m1 m2, j = JObject m /\ obj_find "STRATEGY" m = Some (JObject m1) /\
                  obj_find "TRADING_VARIABLES" m1 = Some (JObject m2).
Proof.
  unfold Configuration_to_json. destruct (decimal_to_json (STARTING_BALANCE (RUN c))) as [balance|]; [|done].
  cbn [result_bind]. destruct (decimal_to_json (MAX_LOSS_PERCENT (RUN c))) as [loss|]; [|done].
  cbn [result_bind]. intros [= <-]. unfold json_object at 1.
  set (strategy := to_json (STRATEGY_CONFIG c)).
  eexists _, _, _. split; [reflexivity|]. split.
  - rewrite obj_find_emplaced. cbn [obj_find]. unfold RunConfiguration_pairs.
    cbn [app assoc String.eqb Ascii.eqb Bool.eqb]. reflexivity.
  - rewrite obj_find_emplaced. cbn [obj_find assoc String.eqb Ascii.eqb Bool.eqb]. reflexivity.
Qed.

(** The reporting view: numbers where the queue's JSON has text, at five paths,
    and everything else as it was. *)
Lemma reportConfig_shape (c : Configuration D) j :
  Configuration_to_json c = Ok j -> codec_ok (STRATEGY_CONFIG c) -> dumpable j = true ->
  exists j', reportConfigJson c = Ok j' /\ dumpable j' = true /\
    Forall (fun pv => json_path pv.1 j' = Some pv.2) (retyped c) /\
    (forall key, key ∉ ["STARTING_BALANCE"; "MAX_LOSS_PERCENT"; "STRATEGY"] ->
       json_path [key] j' = json_path [key] j) /\
    (forall key, key <> "TRADING_VARIABLES" -> json_path ["STRATEGY"; key] j' = json_path ["STRATEGY"; key] j) /\
    (forall key, key ∉ ["STOP_DISTANCE_IN_ATR"; "LIMIT_DISTANCE_IN_ATR"; "TRADING_SIZE"] ->
       json_path ["STRATEGY"; "TRADING_VARIABLES"; key] j' =
       json_path ["STRATEGY"; "TRADING_VARIABLES"; key] j).
Proof.
  intros Ej Hc Hd. destruct (Configuration_members c j Ej) as (m & m1 & m2 & -> & H1 & H2).
  pose proof (dumpable_member _ _ _ Hd H1) as Hd1. pose proof (dumpable_member _ _ _ Hd1 H2) as Hd2.
  unfold reportConfigJson. rewrite Ej. cbn [result_bind set_paths].
  set (v := TRADING_VARIABLES (STRATEGY_CONFIG c)).
  assert (in_i32 (STOP_DISTANCE_IN_ATR v) /\ in_i32 (LIMIT_DISTANCE_IN_ATR v) /\ in_i32 (TRADING_SIZE v))
    as (Hi1 & Hi2 & Hi3).
  { destruct Hc as (_ & Hv & _). cbn in Hv. fold v in Hv. tauto. }
  rewrite set_path1. cbn [result_bind]. rewrite set_path1. cbn [result_bind].
  assert (forall m', obj_find "STRATEGY" m' = Some (JObject m1) ->
    forall v1 v2 v3,
    (j <~ set_path ["STRATEGY"; "TRADING_VARIABLES"; "STOP_DISTANCE_IN_ATR"] v1 (JObject m') ;
     j <~ set_path ["STRATEGY"; "TRADING_VARIABLES"; "LIMIT_DISTANCE_IN_ATR"] v2 j ;
     j <~ set_path ["STRATEGY"; "TRADING_VARIABLES"; "TRADING_SIZE"] v3 j ; Ok j) =
    let m21 := obj_set "STOP_DISTANCE_IN_ATR" v1 m2 in
    let m22 := obj_set "LIMIT_DISTANCE_IN_ATR" v2 m21 in
    let m11 := obj_set "TRADING_VARIABLES" (JObject m21) m1 in
    let m12 := obj_set "TRADING_VARIABLES" (JObject m22) m11 in
    let m13 := obj_set "TRADING_VARIABLES" (JObject (obj_set "TRADING_SIZE" v3 m22)) m12 in
    Ok (JObject (obj_set "STRATEGY" (JObject m13) (obj_set "STRATEGY" (JObject m12)
         (obj_set "STRATEGY" (JObject m11) m'))))) as Hsets.
  { intros m' Hm' v1 v2 v3. rewrite (set_path3 _ _ _ _ _ _ _ Hm' H2). cbn [result_bind].
    rewrite (set_path3 _ _ _ _ _ _ _ (obj_find_set_eq _ _ _) (obj_find_set_eq _ _ _)). cbn [result_bind].
    now rewrite (set_path3 _ _ _ _ _ _ _ (obj_find_set_eq _ _ _) (obj_find_set_eq _ _ _)). }
  rewrite Hsets by (rewrite !obj_find_set; exact H1). clear Hsets. cbv zeta.
  eexists. split; [reflexivity|]. split.
  - repeat first [apply set_dumpable; [reflexivity|..] | apply dumpable_int; unfold in_i32 in *; unfold in_i64; lia
                 | exact Hd | exact Hd1 | exact Hd2 | reflexivity].
  - repeat split.
    + unfold retyped. repeat constructor; cbn [json_path fst snd].
      all: repeat (rewrite ?obj_find_set; cbn [String.eqb Ascii.eqb Bool.eqb mbind option_bind json_path]); reflexivity.
    + intros key Hk. rewrite !not_elem_of_cons in Hk. destruct Hk as (Hk1 & Hk2 & Hk3 & _).
      cbn [json_path]. rewrite !obj_find_set.
      repeat rewrite (proj2 (String.eqb_neq _ key)) by congruence. reflexivity.
    + intros key Hk. cbn [json_path]. rewrite obj_find_set_eq, H1. cbn [mbind option_bind json_path].
      rewrite !obj_find_set. repeat rewrite (proj2 (String.eqb_neq _ key)) by congruence. reflexivity.
    + intros key Hk. rewrite !not_elem_of_cons in Hk. destruct Hk as (Hk1 & Hk2 & Hk3 & _).
      cbn [json_path]. rewrite obj_find_set_eq, H1. cbn [mbind option_bind json_path].
      rewrite obj_find_set_eq, H2. cbn [mbind option_bind json_path].
      rewrite !obj_find_set. repeat rewrite (proj2 (String.eqb_neq _ key)) by congruence. reflexivity.
Qed.
End Serialise.

Section Documents.
Context {D : Decimal64} {T : DecimalText D} {C : DecimalDouble D}.

Definition size_fits (n : nat) : Prop := Z.of_nat n < 2 ^ 64.

Record stats_fit (s : TradingResultsStats D) : Prop := {
  fit_opened : size_fits (tradesOpened s);
  fit_closed : size_fits (tradesClosed s);
  fit_openedLong : size_fits (openedLong s);
  fit_openedShort : size_fits (openedShort s);
  fit_closedLong : size_fits (closedLong s);
  fit_closedShort : size_fits (closedShort s);
  fit_winners : size_fits (winners s);
  fit_losers : size_fits (losers s);
  fit_breakeven : size_fits (breakeven s);
  fit_liquidated : size_fits (liquidatedCount s);
}.

Lemma dumpable_size n : size_fits n -> dumpable (json_of_size n) = true.
Proof. unfold size_fits. intros. unfold json_of_size. cbn [dumpable]. apply andb_true_iff. lia. Qed.

Ltac members_ok :=
  cbn [forallb]; unfold member_dumpable; cbn [fst snd];
  repeat rewrite andb_true_iff; repeat match goal with |- _ /\ _ => split end;
  lazymatch goal with
  | |- utf8_valid (chars (String _ _)) = true => reflexivity
  | |- dumpable (JFloat _) = true => reflexivity
  | |- dumpable (JBoolean _) = true => reflexivity
  | |- dumpable (decimalToJsonNumber _) = true => reflexivity
  | |- true = true => reflexivity
  | |- dumpable (json_of_size _) = true => apply dumpable_size
  | |- dumpable (JString _) = true => idtac
  | |- _ => idtac
  end.

Lemma stats_serialise s :
  stats_fit s -> exists j, TradingResultsStats_to_json s = Ok j /\ dumpable j = true.
Proof.
  intros []. unfold TradingResultsStats_to_json.
  match goal with |- context [json_object ?l] => assert (dumpable (json_object l) = true) as Hd end.
  { apply json_object_dumpable. members_ok; done. }
  unfold json_object in *.
  edestruct set_key_ok as (m' & E & Hm & _); [| |exact Hd|rewrite E; eauto].
  - reflexivity.
  - now destruct (avgPnl s).
Qed.

Lemma append_ok m (c : Configuration D) :
  run_ok (RUN c) -> dumpable (JObject m) = true ->
  exists j, appendBatchMetadata (JObject m) c = Ok j /\ dumpable j = true.
Proof.
  intros (_ & _ & Hb & Ht & _) Hm. unfold appendBatchMetadata.
  destruct (String.eqb (EXECUTION_TS (RUN c)) ""), (String.eqb (BATCH (RUN c)) "");
    cbn [app set_paths]; rewrite ?set_path1; cbn [result_bind]; rewrite ?set_path1; cbn [result_bind];
    (eexists; split; [reflexivity|]); repeat (apply set_dumpable; [reflexivity| |]); done.
Qed.

(** The configuration's part of every document. *)
Lemma config_serialises (c : Configuration D) :
  run_ok (RUN c) -> codec_ok (STRATEGY_CONFIG c) ->
  exists j, reportConfigJson c = Ok j /\ dumpable j = true.
Proof.
  intros Hr Hc. destruct (Configuration_round_trip c Hr Hc) as (j & Ej & Hj & _).
  destruct (reportConfig_shape c j Ej Hc (json_ok_dumpable _ Hj)) as (j' & E & Hd & _). eauto.
Qed.

Ltac document c :=
  match goal with Hr : run_ok (RUN c), Hc : codec_ok (STRATEGY_CONFIG c) |- _ =>
    destruct (config_serialises c Hr Hc) as (jc & Ec & Hd); rewrite Ec; cbn [result_bind] end.

Lemma final_serialises (f : TradeFinal D) :
  run_ok (RUN (fin_config f)) -> codec_ok (STRATEGY_CONFIG (fin_config f)) ->
  text_ok (fin_RUN_ID f) -> text_ok (fin_timestamp f) -> text_ok (fin_status f) -> text_ok (fin_hostname f) ->
  in_i32 (fin_success f) ->
  exists body, (j <~ TradeFinal_to_json f ; dump j) = Ok body.
Proof.
  intros Hr Hc H1 H2 H3 H4 H5. unfold TradeFinal_to_json. document (fin_config f). unfold json_object.
  match goal with |- context [JObject ?m] => destruct (append_ok m (fin_config f) Hr) as (j & E & Hj) end.
  - apply json_object_dumpable. members_ok; try done. apply dumpable_int. unfold in_i32 in *. unfold in_i64. lia.
  - rewrite E. cbn [result_bind]. now apply dumpable_dumps.
Qed.

Lemma results_serialise (r : TradingResults D) :
  run_ok (RUN (tr_config r)) -> codec_ok (STRATEGY_CONFIG (tr_config r)) ->
  text_ok (tr_RUN_ID r) -> text_ok (tr_timestamp r) -> text_ok (tr_hostname r) -> stats_fit (tr_results r) ->
  exists body, (j <~ TradingResults_to_json r ; dump j) = Ok body.
Proof.
  intros Hr Hc H1 H2 H3 Hs. unfold TradingResults_to_json. document (tr_config r).
  destruct (stats_serialise _ Hs) as (js & Es & Hds). rewrite Es. cbn [result_bind]. unfold json_object.
  match goal with |- context [JObject ?m] => destruct (append_ok m (tr_config r) Hr) as (j & E & Hj) end.
  - apply json_object_dumpable. members_ok; done.
  - rewrite E. cbn [result_bind]. now apply dumpable_dumps.
Qed.

Lemma failure_serialises (f : TradingFailure D) :
  run_ok (RUN (tf_config f)) -> codec_ok (STRATEGY_CONFIG (tf_config f)) ->
  text_ok (tf_RUN_ID f) -> text_ok (tf_timestamp f) -> text_ok (tf_reason f) -> text_ok (tf_hostname f) ->
  stats_fit (tf_results f) ->
  exists body, (j <~ TradingFailure_to_json f ; dump j) = Ok body.
Proof.
  intros Hr Hc H1 H2 H3 H4 Hs. unfold TradingFailure_to_json. document (tf_config f).
  destruct (stats_serialise _ Hs) as (js & Es & Hds). rewrite Es. cbn [result_bind]. unfold json_object.
  match goal with |- context [JObject ?m] => destruct (append_ok m (tf_config f) Hr) as (j & E & Hj) end.
  - apply json_object_dumpable. members_ok; done.
  - rewrite E. cbn [result_bind]. now apply dumpable_dumps.
Qed.
End Documents.

Lemma number_ascii z : - 2 ^ 63 <= z < 2 ^ 63 -> Forall (fun c => byte_of c < 128) (chars (to_string z)).
Proof. intros ?. unfold to_string. rewrite chars_text. now apply to_string_ascii. Qed.

Lemma padded_ascii n z : - 2 ^ 63 <= z < 2 ^ 63 -> Forall (fun c => byte_of c < 128) (chars (padded n z)).
Proof.
  intros ?. unfold padded. rewrite chars_append. apply Forall_app. split; [|now apply number_ascii].
  rewrite zero_pad_chars. apply Forall_forall. intros c Hc. now apply list_elem_of_In, repeat_spec in Hc as ->.
Qed.

(** The clock's text is plain ASCII while the year has a number of digits at all
    within 64 bits. *)
Lemma nowIsoUtc_text secs : 0 <= year_of (day_of secs) <= 9999 -> text_ok (nowIsoUtc secs).
Proof.
  intros Hy. apply ascii_valid.
  assert (0 <= second_of_day secs < 86400) as Hs by (apply Z.mod_pos_bound; lia).
  unfold nowIsoUtc, format_date, format_time.
  destruct (civil_from_days (day_of secs)) as [[y m] d] eqn:E.
  apply civil_bounds in E as (_ & Hm & Hd & Hyy). rewrite <- Hyy in Hy. rewrite !chars_append.
  repeat (apply Forall_app; split); try (apply padded_ascii || apply number_ascii); try (Z.div_mod_to_equations; lia); repeat constructor.
Qed.

(** No count exceeds the trades opened. *)
Lemma collect_fits {D : Decimal64} {C : DecimalDouble D} {H : HashOrder} m balance months ppp :
  size_fits (base.size (activeTrades m) + length (closedTrades m)) ->
  stats_fit (collect m balance months ppp).
Proof.
  intros Hf. destruct (collect_counts m balance months ppp) as (E1 & E2 & E3 & E4 & E5 & E6 & E7 & E8 & E9 & _).
  assert (count_if Trade.liquidated (closedTrades m) <= length (closedTrades m))%nat as Hl.
  { unfold count_if. generalize (closedTrades m). intros l. induction l as [|t l IH]; [done|].
    cbn [List.filter]. destruct (Trade.liquidated t); cbn [length]; lia. }
  unfold size_fits in *. split; unfold size_fits; lia.
Qed.
