(* ===== verification/Percentile.v ===== *)
(** The percentiles of an experiment's samples: [detail::nearestRank] and
    [detail::quantiles] of shared/experiments/chainMatcher.cppm, with the rounding
    of a product of two doubles they depend on. *)
From Stdlib Require Import ZArith Lia SpecFloat.
From stdpp Require Import base list sorting.
From S2P Require Import Prelude Double.
Open Scope Z_scope.

(** [std::ceil] and the cast to [std::size_t], which is undefined outside its
    range. *)
Definition ceil_size (v : double) : result nat :=
  let z :=
    match v with
    | S754_zero _ => Some 0
    | S754_finite s m e =>
        let z := if s then Zneg m else Zpos m in
        Some (if 0 <=? e then z * 2 ^ e else - (- z / 2 ^ (- e)))
    | S754_infinity _ | S754_nan => None
    end in
  match z with
  | Some z => if (0 <=? z) && (z <? 2 ^ 64) then Ok (Z.to_nat z) else Throw UndefinedRead
  | None => Throw UndefinedRead
  end.

Definition nearestRank (sorted : list double) (q : double) : result double :=
  rank <~ ceil_size (dbl_mul q (dbl_of_Z (Z.of_nat (length sorted)))) ;
  match sorted !! (Nat.max rank 1 - 1)%nat with Some v => Ok v | None => Throw UndefinedRead end.

Record QuantilePair : Type := mkQuantilePair { p50 : double; p90 : double }.

(** Not [b < a], the order a sort by [<] leaves its elements in. *)
Definition dbl_le (a b : double) : Prop := dbl_ltb b a = false.
#[export] Instance dbl_le_dec : RelDecision dbl_le.
Proof. intros a b. unfold dbl_le. apply _. Defined.

(** [std::ranges::sort], whose result is determined on values without a NaN up
    to the sign of a zero. *)
Definition sort_doubles : list double -> list double := merge_sort dbl_le.

Definition quantiles (values : list double) : result QuantilePair :=
  let sorted := sort_doubles values in
  a <~ nearestRank sorted (dbl_decimal 5 1) ;
  b <~ nearestRank sorted (dbl_decimal 9 1) ;
  Ok (mkQuantilePair a b).

(** * Rounding *)

(** What the shifted-out bits of [m] look like after [k] shifts. *)
Definition shifted (m k : Z) (rec : shr_record) : Prop :=
  shr_m rec = m / 2 ^ k /\
  match shr_r rec, shr_s rec with
  | false, false => m mod 2 ^ k = 0
  | false, true => 0 < 2 * (m mod 2 ^ k) < 2 ^ k
  | true, false => 2 * (m mod 2 ^ k) = 2 ^ k
  | true, true => 2 ^ k < 2 * (m mod 2 ^ k)
  end.

Lemma shr_1_value rec :
  0 <= shr_m rec ->
  shr_m (shr_1 rec) = shr_m rec / 2 /\ shr_r (shr_1 rec) = Z.odd (shr_m rec) /\
  shr_s (shr_1 rec) = shr_r rec || shr_s rec.
Proof.
  destruct rec as [m r s]. cbn [shr_m]. intros H.
  destruct m as [|[p|p|]|p]; [done| | |done|lia]; cbn [shr_1 shr_m shr_r shr_s Z.odd]; split_and!; try done.
  - rewrite Pos2Z.inj_xI. apply Z.div_unique with 1; lia.
  - rewrite Pos2Z.inj_xO. apply Z.div_unique with 0; lia.
Qed.

Lemma shr_1_shifted m k rec : 0 <= m -> 0 <= k -> shifted m k rec -> shifted m (k + 1) (shr_1 rec).
Proof.
  intros Hm Hk [Hq Hf]. unfold shifted.
  destruct (shr_1_value rec) as (E1 & E2 & E3); [rewrite Hq; apply Z.div_pos; lia|].
  rewrite E1, E2, E3, Hq, Z.pow_add_r, Z.pow_1_r by lia.
  assert (0 < 2 ^ k) as Hp by lia.
  split; [apply Z.div_div; lia|].
  rewrite Z.rem_mul_r by lia. pose proof (Z.mod_pos_bound m (2 ^ k) Hp) as Hb.
  pose proof (Zmod_odd (m / 2 ^ k)) as Ho. destruct (Z.odd (m / 2 ^ k)); rewrite Ho;
    destruct (shr_r rec), (shr_s rec); cbn [orb] in *; lia.
Qed.

Lemma iter_shifted m p : forall k rec,
  0 <= m -> 0 <= k -> shifted m k rec -> shifted m (k + Zpos p) (SpecFloat.iter_pos shr_1 p rec).
Proof.
  induction p as [p IH|p IH|]; intros k rec Hm Hk H; cbn [SpecFloat.iter_pos].
  - replace (k + Zpos p~1) with (k + 1 + Zpos p + Zpos p) by lia.
    apply IH; [done|lia|]. apply IH; [done|lia|]. now apply shr_1_shifted.
  - replace (k + Zpos p~0) with (k + Zpos p + Zpos p) by lia. apply IH; [done|lia|]. now apply IH.
  - now apply shr_1_shifted.
Qed.

(** To nearest: the rounded quotient is within half a unit. *)
Lemma rounds_near m k rec :
  0 <= m -> 0 <= k -> shifted m k rec ->
  let r := round_nearest_even (shr_m rec) (loc_of_shr_record rec) in
  m / 2 ^ k <= r <= m / 2 ^ k + 1 /\ Z.abs (2 * r * 2 ^ k - 2 * m) <= 2 ^ k.
Proof.
  intros Hm Hk [Hq Hf] r. assert (0 < 2 ^ k) as Hp by lia.
  pose proof (Z.div_mod m (2 ^ k) ltac:(lia)) as Hd. pose proof (Z.mod_pos_bound m (2 ^ k) Hp) as Hb.
  unfold r. destruct rec as [q a b]. cbn [shr_m shr_r shr_s] in *. subst q.
  destruct a, b; cbn [loc_of_shr_record round_nearest_even];
    try destruct (Z.even _); split; nia.
Qed.

Lemma shifted_start m l : l = loc_Exact -> shifted m 0 (shr_record_of_loc m l).
Proof. intros ->. unfold shifted. cbn. rewrite Z.div_1_r, Z.mod_1_r. auto. Qed.

Lemma digits2_unique p k : 2 ^ (k - 1) <= Zpos p < 2 ^ k -> Zpos (digits2_pos p) = k.
Proof.
  intros [Hl Hu]. pose proof (digits2_pos_bounds p) as [Bl Bu].
  destruct (Z.lt_trichotomy (Zpos (digits2_pos p)) k) as [H|[H|H]]; [|done|].
  - pose proof (Z.pow_le_mono_r 2 (Zpos (digits2_pos p)) (k - 1)). lia.
  - pose proof (Z.pow_le_mono_r 2 k (Zpos (digits2_pos p) - 1)). lia.
Qed.

(** A long significand, in the normal range: what it is rounded to. *)
Lemma round_long p e :
  let d := Zpos (digits2_pos p) in
  53 < d -> -1074 <= e + (d - 53) -> e + d < 1024 ->
  exists m e' r, binary_round_aux 53 1024 false (Zpos p) e loc_Exact = S754_finite false m e' /\
    Zpos m * 2 ^ (e' - (e + (d - 53))) = r /\
    e + (d - 53) <= e' <= e + (d - 53) + 1 /\
    Z.abs (2 * r * 2 ^ (d - 53) - 2 * Zpos p) <= 2 ^ (d - 53).
Proof.
  intros d Hd He Hmax. unfold binary_round_aux, shr_fexp. cbn [Zdigits2]. fold d.
  replace (fexp 53 1024 (d + e) - e) with (d - 53) by (unfold fexp, emin; lia).
  unfold shr at 1. destruct (d - 53) as [|s|s] eqn:Es; [lia| |lia].
  pose proof (iter_shifted (Zpos p) s 0 _ ltac:(lia) ltac:(lia) (shifted_start (Zpos p) loc_Exact eq_refl)) as Hs.
  set (rec := SpecFloat.iter_pos shr_1 s (shr_record_of_loc (Zpos p) loc_Exact)) in *.
  replace (0 + Zpos s) with (Zpos s) in Hs by lia.
  destruct (rounds_near (Zpos p) (Zpos s) rec ltac:(lia) ltac:(lia) Hs) as [Hr Hn].
  set (r := round_nearest_even (shr_m rec) (loc_of_shr_record rec)) in *.
  pose proof (digits2_pos_bounds p) as [Bl Bu]. fold d in Bl, Bu.
  assert (2 ^ 52 <= Zpos p / 2 ^ Zpos s < 2 ^ 53) as Hq.
  { replace (d - 1) with (52 + Zpos s) in Bl by lia. replace d with (53 + Zpos s) in Bu by lia.
    rewrite Z.pow_add_r in Bl, Bu by lia. split.
    - apply Z.div_le_lower_bound; lia.
    - apply Z.div_lt_upper_bound; lia. }
  change (SpecFloat.iter_pos shr_1 s (shr_record_of_loc (Zpos p) loc_Exact)) with rec. fold r.
  clearbody r. clear Hs rec. destruct r as [|r|r]; [lia| |lia].
  cbn [Zdigits2].
  destruct (Z.eq_dec (Zpos r) (2 ^ 53)) as [Er|Er].
  - rewrite (digits2_unique r 54) by (rewrite Er; lia).
    replace (fexp 53 1024 (54 + (e + Zpos s)) - (e + Zpos s)) with 1 by (unfold fexp, emin; lia).
    injection Er as ->. cbn [shr shr_record_of_loc SpecFloat.iter_pos shr_1 shr_m].
    rewrite (proj2 (Z.leb_le _ _)) by lia.
    do 3 eexists. split; [reflexivity|]. split; [reflexivity|].
    split; [lia|]. replace (e + Zpos s + 1 - (e + Zpos s)) with 1 by lia. exact Hn.
  - rewrite (digits2_unique r 53) by lia.
    replace (fexp 53 1024 (53 + (e + Zpos s)) - (e + Zpos s)) with 0 by (unfold fexp, emin; lia).
    cbn [shr shr_record_of_loc shr_m]. rewrite (proj2 (Z.leb_le _ _)) by lia.
    do 3 eexists. split; [reflexivity|]. split; [reflexivity|].
    split; [lia|]. replace (e + Zpos s - (e + Zpos s)) with 0 by lia. rewrite Z.pow_0_r, Z.mul_1_r. exact Hn.
Qed.

Lemma ceil_size_neg m e k :
  e < 0 -> 0 <= k < 2 ^ 64 -> (k - 1) * 2 ^ (- e) < Zpos m <= k * 2 ^ (- e) ->
  ceil_size (S754_finite false m e) = Ok (Z.to_nat k).
Proof.
  intros He Hk Hm. unfold ceil_size. rewrite (proj2 (Z.leb_gt 0 e)) by lia.
  assert (0 < 2 ^ (- e)) as Hp by (apply Z.pow_pos_nonneg; lia).
  assert (- (- Zpos m / 2 ^ (- e)) = k) as ->.
  { enough (- k = - Zpos m / 2 ^ (- e)) by lia.
    apply (Z.div_unique _ _ _ (k * 2 ^ (- e) - Zpos m)); lia. }
  rewrite (proj2 (Z.leb_le 0 k)), (proj2 (Z.ltb_lt k (2 ^ 64))) by lia. done.
Qed.

(** The arithmetic of a product with a double just above [a/10]: the nearest
    multiple of a unit lies in the same interval between integers. *)
Lemma tenth_ceiling a t n c s P r k :
  10 * P * 1 = n * c * (a * 2 ^ 53 + t) -> 0 <= t <= 2 -> 0 < n -> 0 < c ->
  n * c < 2 ^ 53 -> 52 <= s <= 53 -> 2 ^ 13 <= c ->
  Z.abs (2 * r * 2 ^ s - 2 * P) <= 2 ^ s ->
  10 * (k - 1) < a * n <= 10 * k ->
  (k - 1) * (c * 2 ^ 53) < r * 2 ^ s <= k * (c * 2 ^ 53) + 2 ^ s - 1.
Proof.
  intros HP Ht Hn Hc Hnc Hs Hc' Hr Hk.
  assert (2 ^ 52 <= 2 ^ s <= 2 ^ 53) as Hp by (split; apply Z.pow_le_mono_r; lia).
  change (2 ^ 13) with 8192 in *. change (2 ^ 52) with 4503599627370496 in *.
  change (2 ^ 53) with 9007199254740992 in *.
  set (u := 2 ^ s) in *. clearbody u.
  assert (10 * (2 * P) = 2 * c * (a * n) * 9007199254740992 + 2 * (n * c) * t) as HP2 by lia.
  assert (0 <= (n * c) * t <= 2 * (n * c)) as Hnct by nia.
  split.
  - assert (2 * c * (10 * (k - 1) + 1) * 9007199254740992 <= 2 * c * (a * n) * 9007199254740992) by nia.
    nia.
  - assert (2 * c * (a * n) * 9007199254740992 <= 2 * c * (10 * k) * 9007199254740992) by nia.
    nia.
Qed.

Lemma rank_product M a t n :
  2 ^ 52 <= Zpos M < 2 ^ 53 -> 10 * Zpos M = a * 2 ^ 53 + t -> 0 <= t <= 2 -> 0 < a <= 10 ->
  Zpos n < 2 ^ 40 ->
  ceil_size (dbl_mul (S754_finite false M (-53)) (dbl_of_Z (Zpos n))) =
  Ok (Z.to_nat ((a * Zpos n + 9) / 10)).
Proof.
  intros HM Ha Ht Ha10 Hn. rewrite dbl_of_Z_pos by lia. unfold dbl_mul, SFmul. cbn [xorb].
  pose proof (int_significand_value n ltac:(lia)) as Hv.
  pose proof (int_significand_digits n ltac:(lia)) as Hd.
  set (sig := int_significand n) in *. set (d := Zpos (digits2_pos n)) in *.
  pose proof (digits2_pos_bounds sig) as Hsb. rewrite Hd in Hsb. change (53 - 1) with 52 in Hsb.
  pose proof (digits2_pos_bounds n) as Hnb. fold d in Hnb.
  assert (d <= 40) as Hd40.
  { destruct (Z.leb_spec d 40) as [|H]; [done|]. pose proof (Z.pow_le_mono_r 2 40 (d - 1)). lia. }
  assert (1 <= d) as Hd1 by lia.
  set (c := 2 ^ (53 - d)) in *.
  assert (2 ^ 13 <= c) as Hc by (apply Z.pow_le_mono_r; lia).
  assert (Zpos (M * sig) = Zpos M * (Zpos n * c)) as HP by (rewrite Pos2Z.inj_mul; lia).
  assert (2 ^ 104 <= Zpos (M * sig) < 2 ^ 106) as HPb.
  { rewrite HP. change (2 ^ 104) with (2 ^ 52 * 2 ^ 52). change (2 ^ 106) with (2 ^ 53 * 2 ^ 53).
    rewrite <- Hv. nia. }
  pose proof (digits2_pos_bounds (M * sig)) as HDb.
  set (D := Zpos (digits2_pos (M * sig))) in *.
  assert (105 <= D <= 106) as HD.
  { split.
    - destruct (Z.leb_spec 105 D) as [|H]; [done|]. pose proof (Z.pow_le_mono_r 2 D 104). lia.
    - destruct (Z.leb_spec D 106) as [|H]; [done|]. pose proof (Z.pow_le_mono_r 2 106 (D - 1)). lia. }
  destruct (round_long (M * sig) (-53 + (d - 53))) as (m & e' & r & -> & Hm & He' & Hr); fold D; [lia..|].
  fold D in Hm, He', Hr.
  set (k := (a * Zpos n + 9) / 10).
  assert (10 * (k - 1) < a * Zpos n <= 10 * k) as Hk.
  { unfold k. pose proof (Z.div_mod (a * Zpos n + 9) 10). pose proof (Z.mod_pos_bound (a * Zpos n + 9) 10). lia. }
  pose proof (tenth_ceiling a t (Zpos n) c (D - 53) (Zpos (M * sig)) r k) as Hten.
  set (E := -53 + (d - 53) + (D - 53)) in *.
  assert (c * 2 ^ 53 = 2 ^ (- E) * 2 ^ (D - 53)) as Hce
    by (unfold c; rewrite <- !Z.pow_add_r by lia; f_equal; lia).
  rewrite Hce in Hten. assert (0 < 2 ^ (D - 53)) as Hs by (apply Z.pow_pos_nonneg; lia).
  assert (2 ^ (- E) = 2 ^ (- e') * 2 ^ (e' - E)) as HE by (rewrite <- Z.pow_add_r by lia; f_equal; lia).
  assert (0 < 2 ^ (e' - E)) as Hee by (apply Z.pow_pos_nonneg; lia).
  assert ((k - 1) * (2 ^ (- E) * 2 ^ (D - 53)) < r * 2 ^ (D - 53)
          <= k * (2 ^ (- E) * 2 ^ (D - 53)) + 2 ^ (D - 53) - 1) as [Hlo Hhi]
    by (apply Hten; try lia; rewrite HP, ?Hv; try lia; replace (10 * (Zpos M * (Zpos n * c)) * 1) with (Zpos n * c * (10 * Zpos M)) by ring; now rewrite Ha).
  assert (0 < a * Zpos n <= 10 * 2 ^ 40) as Han by (split; [apply Z.mul_pos_pos; lia|apply Z.mul_le_mono_nonneg; lia]).
  apply ceil_size_neg; [lia|lia|]. fold k. rewrite HE in *.
  clear - Hlo Hhi Hs Hee Hm.
  set (u := 2 ^ (D - 53)) in *. set (w := 2 ^ (e' - E)) in *. set (x := 2 ^ (- e')) in *.
  clearbody u w x.
  assert ((k - 1) * x * w < Zpos m * w /\ Zpos m * w < k * x * w + 1) as [L U].
  { rewrite Hm. split; apply (Z.mul_lt_mono_pos_r u); try lia. }
  split.
  - apply (Z.mul_lt_mono_pos_r w); lia.
  - apply (Z.mul_le_mono_pos_r _ _ w); lia.
Qed.

(** Both ranks, exactly: half and nine tenths of the samples, rounded up. *)
Lemma median_rank n :
  (0 < n)%nat -> Z.of_nat n < 2 ^ 40 ->
  ceil_size (dbl_mul (dbl_decimal 5 1) (dbl_of_Z (Z.of_nat n))) = Ok ((n + 1) / 2)%nat.
Proof.
  intros H Hn. destruct n as [|n]; [lia|].
  change (dbl_decimal 5 1) with (S754_finite false 4503599627370496 (-53)).
  destruct (Z.of_nat (S n)) as [|p|p] eqn:E; [lia| |lia].
  rewrite (rank_product 4503599627370496 5 0 p) by lia. f_equal. rewrite <- E.
  apply Nat2Z.inj. rewrite Z2Nat.id by (apply Z.div_pos; lia). rewrite Nat2Z.inj_div, Nat2Z.inj_add.
  change (Z.of_nat 1) with 1. change (Z.of_nat 2) with 2.
  pose proof (Z.div_mod (5 * Z.of_nat (S n) + 9) 10). pose proof (Z.mod_pos_bound (5 * Z.of_nat (S n) + 9) 10).
  pose proof (Z.div_mod (Z.of_nat (S n) + 1) 2). pose proof (Z.mod_pos_bound (Z.of_nat (S n) + 1) 2). lia.
Qed.

Lemma ninety_rank n :
  (0 < n)%nat -> Z.of_nat n < 2 ^ 40 ->
  ceil_size (dbl_mul (dbl_decimal 9 1) (dbl_of_Z (Z.of_nat n))) = Ok ((9 * n + 9) / 10)%nat.
Proof.
  intros H Hn. destruct (Z.of_nat n) as [|p|p] eqn:E; [lia| |lia].
  change (dbl_decimal 9 1) with (S754_finite false 8106479329266893 (-53)).
  rewrite (rank_product 8106479329266893 9 2 p) by lia. f_equal. rewrite <- E.
  apply Nat2Z.inj. rewrite Z2Nat.id by (apply Z.div_pos; lia). rewrite Nat2Z.inj_div, Nat2Z.inj_add, Nat2Z.inj_mul.
  done.
Qed.

(** * The percentiles *)

Definition not_nan (v : double) : Prop := v <> S754_nan.

(** The order as integers: sign, then exponent, then significand. *)
Definition below (a b : double) : Prop :=
  match a, b with
  | S754_nan, _ | _, S754_nan => False
  | S754_zero _, S754_zero _ => False
  | S754_zero _, (S754_infinity s | S754_finite s _ _) => s = false
  | S754_infinity s, S754_infinity s' => s = true /\ s' = false
  | S754_infinity s, _ => s = true
  | S754_finite s _ _, S754_zero _ => s = true
  | S754_finite _ _ _, S754_infinity s => s = false
  | S754_finite true m e, S754_finite true m' e' => e' < e \/ (e = e' /\ (m' < m)%positive)
  | S754_finite true _ _, S754_finite false _ _ => True
  | S754_finite false _ _, S754_finite true _ _ => False
  | S754_finite false m e, S754_finite false m' e' => e < e' \/ (e = e' /\ (m < m')%positive)
  end.

Lemma dbl_ltb_below a b : dbl_ltb a b = true <-> below a b.
Proof.
  unfold dbl_ltb, SFltb, SFcompare, below.
  destruct a as [s|s| |s m e], b as [s'|s'| |s' m' e']; try destruct s; try destruct s';
    try (split; (done || intros [? ?]; done)).
  all: change (PosDef.Pos.compare_cont Eq) with Pos.compare;
    destruct (Z.compare_spec e e') as [->|H|H]; try (split; (done || lia)).
  all: destruct (Pos.compare_spec m m') as [->|H|H]; cbn [CompOpp]; split; (done || lia).
Qed.

Lemma dbl_le_below a b : dbl_le a b <-> ~ below b a.
Proof. unfold dbl_le. rewrite <- dbl_ltb_below. now destruct (dbl_ltb b a). Qed.

#[export] Instance dbl_le_total : Total dbl_le.
Proof.
  intros a b. rewrite !dbl_le_below. unfold below.
  destruct a as [s|s| |s m e], b as [s'|s'| |s' m' e']; try destruct s; try destruct s'; intuition (done || lia).
Qed.

Lemma dbl_le_trans a b c : not_nan b -> dbl_le a b -> dbl_le b c -> dbl_le a c.
Proof.
  rewrite !dbl_le_below. unfold not_nan, below.
  destruct a as [s|s| |s m e], b as [s'|s'| |s' m' e'], c as [s''|s''| |s'' m'' e'']; try done;
    try destruct s; try destruct s'; try destruct s''; intuition (done || lia).
Qed.

Lemma sort_doubles_sorted values :
  Forall not_nan values -> StronglySorted dbl_le (sort_doubles values).
Proof.
  intros Hn. assert (Forall not_nan (sort_doubles values)) as Hn'
    by (unfold sort_doubles; now rewrite merge_sort_Permutation).
  pose proof (Sorted_merge_sort dbl_le values) as Hs. fold (sort_doubles values) in Hs.
  induction Hs as [|x l Hs IH Hx]; [constructor|].
  inversion Hn' as [|? ? Nx Nl]; subst. specialize (IH Nl). constructor; [exact IH|].
  destruct Hx as [|y l Hxy]; [constructor|]. inversion Nl as [|? ? Ny Nl']; subst.
  inversion IH as [|? ? _ Hy]; subst. constructor; [exact Hxy|].
  rewrite Forall_forall in Hy |- *. intros z Hz. exact (dbl_le_trans x y z Ny Hxy (Hy z Hz)).
Qed.

Lemma sorted_lookup {A} (R : A -> A -> Prop) l : StronglySorted R l ->
  forall i j a b, (i < j)%nat -> l !! i = Some a -> l !! j = Some b -> R a b.
Proof.
  induction 1 as [|x l Hs IH Hx]; intros i j a b Hij Ha Hb; [done|].
  destruct j as [|j]; [lia|]. destruct i as [|i].
  - injection Ha as ->. rewrite Forall_forall in Hx. apply Hx. eapply list_elem_of_lookup_2, Hb.
  - apply (IH i j); [lia|done|done].
Qed.

(** The two percentiles are the samples of nearest rank: with [n] samples, the
    [n/2]-th and the [9n/10]-th smallest, both rounded up - no rounding of the
    product of doubles ever moves a rank, and no read misses. *)
Theorem quantiles_exact values :
  values <> [] -> Z.of_nat (length values) < 2 ^ 40 -> Forall not_nan values ->
  let n := length values in
  exists sorted a b, sorted ≡ₚ values /\ StronglySorted dbl_le sorted /\
    sorted !! ((n + 1) / 2 - 1)%nat = Some a /\ sorted !! ((9 * n + 9) / 10 - 1)%nat = Some b /\
    dbl_le a b /\ quantiles values = Ok (mkQuantilePair a b).
Proof.
  intros Hne Hlen Hnum n. pose proof (merge_sort_Permutation dbl_le values) as Hp.
  fold (sort_doubles values) in Hp.
  pose proof (sort_doubles_sorted values Hnum) as Hs. exists (sort_doubles values).
  assert (length (sort_doubles values) = n) as Hl by (unfold n; now rewrite Hp).
  assert (0 < n)%nat as Hn by (unfold n; destruct values; [done|simpl; lia]).
  pose proof (Nat.div_mod_eq (n + 1) 2) as D2. pose proof (Nat.mod_upper_bound (n + 1) 2 ltac:(lia)) as B2.
  pose proof (Nat.div_mod_eq (9 * n + 9) 10) as D9. pose proof (Nat.mod_upper_bound (9 * n + 9) 10 ltac:(lia)) as B9.
  destruct (lookup_lt_is_Some_2 (sort_doubles values) ((n + 1) / 2 - 1)) as [a Ha]; [lia|].
  destruct (lookup_lt_is_Some_2 (sort_doubles values) ((9 * n + 9) / 10 - 1)) as [b Hb]; [lia|].
  exists a, b. split_and!; [exact Hp|exact Hs|exact Ha|exact Hb| |].
  - destruct (Nat.eq_dec ((n + 1) / 2 - 1) ((9 * n + 9) / 10 - 1)) as [E|E].
    + rewrite E in Ha. rewrite Ha in Hb. injection Hb as ->. apply dbl_le_below. unfold below.
      destruct b as [s|s| |s m e]; try destruct s; intuition (done || lia).
    + eapply (sorted_lookup dbl_le _ Hs); [|exact Ha|exact Hb]. lia.
  - unfold quantiles, nearestRank. rewrite Hl. rewrite median_rank, ninety_rank by done.
    cbn [result_bind]. replace (Nat.max ((n + 1) / 2) 1 - 1)%nat with ((n + 1) / 2 - 1)%nat by lia.
    replace (Nat.max ((9 * n + 9) / 10) 1 - 1)%nat with ((9 * n + 9) / 10 - 1)%nat by lia.
    rewrite Ha. cbn [result_bind]. now rewrite Hb.
Qed.

Lemma quantiles_exact_witness :
  exists sorted a b, sorted ≡ₚ map dbl_of_Z [30; 10; 20] /\ StronglySorted dbl_le sorted /\
    sorted !! 1%nat = Some a /\ sorted !! 2%nat = Some b /\
    dbl_le a b /\ quantiles (map dbl_of_Z [30; 10; 20]) = Ok (mkQuantilePair a b).
Proof.
  apply (quantiles_exact (map dbl_of_Z [30; 10; 20])); [done|done|].
  repeat (constructor; [done|]). constructor.
Defined.
