(* ===== verification/Evaluate.v ===== *)
(** One experiment over a tick stream: [evaluateExperiment] of
    shared/experiments/chainMatcher.cppm, which demultiplexes the stream into one
    matcher per symbol and aggregates them, the wire form of
    analysis/reporting/experimentResults.hpp, and the pooled task of
    analysis/queue/drainExperiments.cpp that reports it. *)
From Stdlib Require Import ZArith Lia.
From stdpp Require Import base gmap list strings sorting.
From S2P Require Import Prelude Models Double Json JsonDump StdText ConfigJson Chrono Env IsoTime Tracker ChainMatcher ExperimentJson Percentile WireTime Elastic Reports.
Open Scope Z_scope.

(** * Data *)

Record ExcursionStats : Type := mkExcursionStats {
  samples : nat;
  mfePoints : QuantilePair; maePoints : QuantilePair;
  mfePercent : QuantilePair; maePercent : QuantilePair }.

Record SymbolOutcome : Type := mkSymbolOutcome {
  so_occurrences : nat; so_ticksScanned : nat; so_daysSpanned : double }.

(** Ordered maps are finite maps here; [in_key_order] lists one the way its
    iteration does. *)
Record ExperimentOutcome : Type := mkExperimentOutcome {
  eo_occurrences : nat;
  eo_ticksScanned : nat;
  eo_daysSpanned : double;
  eo_attempts : nat;
  eo_failuresByLeg : list nat;
  eo_occurrencesByMonth : gmap string nat;
  eo_occurrencesByHourUtc : list nat;
  eo_perSymbol : gmap string SymbolOutcome;
  eo_occurrencesBySymbol : gmap string nat;
  eo_completedAttempts : option ExcursionStats;
  eo_failedAttempts : option ExcursionStats;
  eo_completionSeconds : option QuantilePair;
  eo_meanSpreadAtTriggerPoints : option double;
  eo_excursionOrientation : string;
  eo_samplesTruncated : bool }.

Definition key_le {A} (a b : string * A) : Prop := String.leb a.1 b.1 = true.
#[export] Instance key_le_dec {A} : RelDecision (key_le (A := A)).
Proof. intros a b. unfold key_le. apply _. Defined.

Definition in_key_order {A} (m : gmap string A) : list (string * A) := merge_sort key_le (map_to_list m).

(** [std::chrono::duration<double, std::ratio<86'400>>]. *)
Definition days_of (span : Z) : double := dbl_div (dbl_of_Z span) (dbl_of_Z 86400000000).

(** * The aggregation helpers *)

Definition favorableUp (finalLeg : Activity) : bool :=
  match TYPE finalLeg with
  | DirectionalMove => dbl_leb dbl_zero (MOVE_PERCENT finalLeg)
  | NewExtreme | RangeRelativeMove => 0 <=? DIRECTION finalLeg
  | StaysInBand => true
  end.

Definition favorable (up : bool) (s : ExcursionSample) : double :=
  dbl_of_Z (if up then abovePoints s else belowPoints s).
Definition adverse (up : bool) (s : ExcursionSample) : double :=
  dbl_of_Z (if up then belowPoints s else abovePoints s).
Definition percent_of (points : double) (s : ExcursionSample) : double :=
  dbl_div (dbl_mul (dbl_of_Z 100) points) (dbl_of_Z (sampleAnchorMid s)).

Definition summariseExcursions (samples : list ExcursionSample) (up : bool)
    : result (option ExcursionStats) :=
  match samples with
  | [] => Ok None
  | _ =>
      a <~ quantiles (map (favorable up) samples) ;
      b <~ quantiles (map (adverse up) samples) ;
      c <~ quantiles (map (fun s => percent_of (favorable up s) s) samples) ;
      d <~ quantiles (map (fun s => percent_of (adverse up s) s) samples) ;
      Ok (Some (mkExcursionStats (length samples) a b c d))
  end.

(** * The replay *)

Record SymbolSpan : Type := mkSpan { sp_ticks : nat; sp_minTs : Z; sp_maxTs : Z }.

(** [TimePoint::max()] and [TimePoint::min()]. *)
Definition emptySpan : SymbolSpan := mkSpan 0 INT64_MAX (-1 - INT64_MAX).

Definition widen_span (s : SymbolSpan) (ts : Z) : SymbolSpan :=
  mkSpan (S (sp_ticks s)) (Z.min (sp_minTs s) ts) (Z.max (sp_maxTs s) ts).

Record replay : Type := mkReplay {
  matchers : gmap string ChainMatcher;
  spans : gmap string SymbolSpan;
  months : gmap string nat;
  hours : list nat;
  whole : SymbolSpan }.

Definition emptyReplay : replay := mkReplay ∅ ∅ ∅ (replicate 24 0%nat) emptySpan.

(** [{:04}-{:02}] of the year and month, the sign of a year taking a place. *)
Definition month_key (ts : Z) : string :=
  let '(y, m, _) := civil_from_days (floor_days ts) in
  (if y <? 0 then "-" +:+ padded 3 (- y) else padded 4 y) +:+ "-" +:+ padded 2 m.

Definition hour_of (ts : Z) : nat := Z.to_nat ((ts - floor_days ts * day_length) ÷ 3600000000).

(** The mid price, halved towards zero in 64 bits. *)
Definition mid_of (t : PriceData) : Z := i32 ((ask t + bid t) ÷ 2).
Definition mid_tick (t : PriceData) : MidTick := mkMidTick (mid_of t) (ask t -₃₂ bid t) (timestamp t).

Definition replay_tick (config : ExperimentConfig) (r : replay) (t : PriceData) : result replay :=
  matcher <~ (match matchers r !! symbol t with
              | Some m => Ok m
              | None => makeMatcher config kMaxAttemptSamples
              end) ;
  matcher' <~ onTick matcher (mt_mid (mid_tick t)) (mt_spread (mid_tick t)) (timestamp t) ;
  let completed := (occurrences (stats_ matcher) <? occurrences (stats_ matcher'))%nat in
  let ts := timestamp t in
  Ok (mkReplay (<[symbol t := matcher']> (matchers r))
        (<[symbol t := widen_span (default emptySpan (spans r !! symbol t)) ts]> (spans r))
        (if completed then <[month_key ts := S (default 0%nat (months r !! month_key ts))]> (months r)
         else months r)
        (if completed then alter S (hour_of ts) (hours r) else hours r)
        (widen_span (whole r) ts)).

Fixpoint replay_ticks (config : ExperimentConfig) (r : replay) (ticks : list PriceData) : result replay :=
  match ticks with
  | [] => Ok r
  | t :: ticks => r <~ replay_tick config r t ; replay_ticks config r ticks
  end.

(** * The aggregate *)

(** [total[leg] += failures[leg]], for as many legs as the matcher has. *)
Fixpoint add_failures (total failures : list nat) : result (list nat) :=
  match failures, total with
  | [], _ => Ok total
  | f :: failures, t :: total => rest <~ add_failures total failures ; Ok ((t + f)%nat :: rest)
  | _ :: _, [] => Throw UndefinedRead
  end.

(** The sums over the matchers. *)
Record tally : Type := mkTally {
  ta_occurrences : nat; ta_attempts : nat; ta_failures : list nat;
  ta_perSymbol : gmap string SymbolOutcome; ta_bySymbol : gmap string nat;
  ta_completed : list ExcursionSample; ta_failed : list ExcursionSample;
  ta_seconds : list double; ta_spreadSum : Z; ta_spreadCount : nat; ta_truncated : bool }.

Definition emptyTally (legs : nat) : tally :=
  mkTally 0 0 (replicate legs 0%nat) ∅ ∅ [] [] [] 0 0 false.

Definition tally_matcher (spans : gmap string SymbolSpan) (a : tally) (kv : string * ChainMatcher)
    : result tally :=
  let '(symbol, m) := kv in
  let stats := stats_ m in
  failures <~ add_failures (ta_failures a) (failuresByLeg stats) ;
  span <~ deref (spans !! symbol) ;
  Ok (mkTally (ta_occurrences a + occurrences stats) (ta_attempts a + attempts stats) failures
        (<[symbol := mkSymbolOutcome (occurrences stats) (sp_ticks span)
                       (days_of (sp_maxTs span -₆₄ sp_minTs span))]> (ta_perSymbol a))
        (<[symbol := occurrences stats]> (ta_bySymbol a))
        (ta_completed a ++ completedExcursions stats) (ta_failed a ++ failedExcursions stats)
        (ta_seconds a ++ map dbl_of_Z (completionSeconds stats))
        (ta_spreadSum a +₆₄ spreadAtTriggerSum stats) (ta_spreadCount a + spreadAtTriggerCount stats)
        (ta_truncated a || samplesTruncated stats)).

Fixpoint tally_matchers (spans : gmap string SymbolSpan) (a : tally) (l : list (string * ChainMatcher))
    : result tally :=
  match l with
  | [] => Ok a
  | kv :: l => a <~ tally_matcher spans a kv ; tally_matchers spans a l
  end.

Definition evaluateExperiment (ticks : list PriceData) (config : ExperimentConfig)
    : result ExperimentOutcome :=
  _ <~ makeMatcher config kMaxAttemptSamples ;
  r <~ replay_ticks config emptyReplay ticks ;
  a <~ tally_matchers (spans r) (emptyTally (length (CHAIN config))) (in_key_order (matchers r)) ;
  finalLeg <~ deref (last (CHAIN config)) ;
  let up := favorableUp finalLeg in
  completed <~ summariseExcursions (ta_completed a) up ;
  failed <~ summariseExcursions (ta_failed a) up ;
  seconds <~ (match ta_seconds a with
              | [] => Ok None
              | _ => q <~ quantiles (ta_seconds a) ; Ok (Some q)
              end) ;
  Ok (mkExperimentOutcome (ta_occurrences a) (length ticks)
        (match ticks with [] => dbl_zero | _ => days_of (sp_maxTs (whole r) -₆₄ sp_minTs (whole r)) end)
        (ta_attempts a) (ta_failures a) (months r) (hours r) (ta_perSymbol a) (ta_bySymbol a)
        completed failed seconds
        (if (0 <? ta_spreadCount a)%nat
         then Some (dbl_div (dbl_of_Z (ta_spreadSum a)) (dbl_of_Z (Z.of_nat (ta_spreadCount a)))) else None)
        (if up then "up" else "down") (ta_truncated a)).

(** * A matcher on its own *)

(** One tick neither loses an occurrence nor begins two attempts. *)
Definition counts (m m' : ChainMatcher) : Prop :=
  (occurrences (stats_ m) <= occurrences (stats_ m'))%nat /\
  (attempts (stats_ m') <= attempts (stats_ m) + 1)%nat.

Lemma counts_record m c ts :
  occurrences (stats_ (recordAttempt m c ts)) = occurrences (stats_ m) /\
  attempts (stats_ (recordAttempt m c ts)) = attempts (stats_ m).
Proof. now destruct (recordAttempt_fields m c ts) as (_ & _ & _ & -> & -> & _). Qed.

Lemma completeActiveLeg_counts m mid spread ts m' : completeActiveLeg m mid spread ts = Ok m' -> counts m m'.
Proof.
  unfold completeActiveLeg, counts.
  assert (occurrences (stats_ (if (active_ m =? 0)%nat then begin_attempt m mid spread ts else m)) =
          occurrences (stats_ m) /\
          (attempts (stats_ (if (active_ m =? 0)%nat then begin_attempt m mid spread ts else m)) <=
           attempts (stats_ m) + 1)%nat) as [Eo Ea].
  { destruct (active_ m =? 0)%nat; cbn; lia. }
  set (m1 := if (active_ m =? 0)%nat then begin_attempt m mid spread ts else m) in *.
  rewrite <- Eo. clearbody m1. clear Eo.
  destruct (_ =? _)%nat.
  - intros [= <-]. cbn [resetAfterMatch stats_].
    destruct (counts_record (count_occurrence m1) true ts) as [-> ->]. cbn. lia.
  - destruct (deref _) as [leg|]; [|done]. cbn [result_bind].
    destruct (next_anchor _ _ _ _); [|done]. intros [= <-]. cbn. lia.
Qed.

Lemma scan_first_counts m mid spread ts m' : scan_first m mid spread ts = Ok m' -> counts m m'.
Proof.
  unfold scan_first. destruct (conditionHolds _ _ _) as [[|]|]; [apply completeActiveLeg_counts| |done].
  cbn. intros [= <-]. unfold counts. lia.
Qed.

Lemma onTick_counts m mid spread ts m' : onTick m mid spread ts = Ok m' -> counts m m'.
Proof.
  unfold onTick. set (m0 := mkChainMatcher _ _ _ _ _ _).
  assert (counts m0 m' -> counts m m') as Hm0 by done. clearbody m0. intros H. apply Hm0. revert H. clear Hm0.
  destruct (_ <? _)%nat; [|apply scan_first_counts].
  destruct (deref _) as [leg|]; [|done]. cbn [result_bind]. destruct (_ <? _).
  - intros H%scan_first_counts. unfold counts, fail_attempt in *. cbn [stats_ occurrences attempts] in H.
    destruct (counts_record (extend_attempt m0 mid) false ts) as [Eo Ea]. rewrite Eo, Ea in H. exact H.
  - destruct (conditionHolds _ _ _) as [[|]|]; [|cbn; intros [= <-]; unfold counts; cbn; lia|done].
    intros H%completeActiveLeg_counts. exact H.
Qed.

Record sound (config : ExperimentConfig) (m : ChainMatcher) : Prop := {
  sound_accounts : accounts m;
  sound_legs : legs_ok (legs_ m);
  sound_length : length (legs_ m) = length (CHAIN config);
  sound_cap : maxSamples_ m = kMaxAttemptSamples }.

(** A tick completes at most one occurrence. *)
Lemma onTick_sound config m t :
  sound config m ->
  exists m', onTick m (mt_mid t) (mt_spread t) (mt_ts t) = Ok m' /\ sound config m' /\
    occurrences (stats_ m') =
      (occurrences (stats_ m) + if (occurrences (stats_ m) <? occurrences (stats_ m'))%nat then 1 else 0)%nat /\
    (pace m' <= pace m + 1)%nat /\ (attempts (stats_ m') <= attempts (stats_ m) + 1)%nat.
Proof.
  intros [Ha Hl Hn Hc].
  destruct (onTick_ok m (mt_mid t) (mt_spread t) (mt_ts t) Ha Hl) as (m' & E & Ha' & Hl' & Hn' & Hc' & Hp).
  pose proof (onTick_counts _ _ _ _ _ E) as [Hmono Hatt].
  exists m'. split; [exact E|]. split; [split; auto; congruence|]. split; [|split; [exact Hp|exact Hatt]].
  destruct (Nat.ltb_spec (occurrences (stats_ m)) (occurrences (stats_ m'))) as [H|H]; [|lia].
  unfold pace in Hp. rewrite Hn' in Hp. pose proof (acc_active _ Ha) as Hact. nia.
Qed.

Lemma matcher_feed_snoc l t : forall m,
  feed_matcher m (l ++ [t]) =
  (m' <~ feed_matcher m l ; onTick m' (mt_mid t) (mt_spread t) (mt_ts t)).
Proof.
  induction l as [|t' l IH]; intros m; cbn [feed_matcher app].
  - cbn [result_bind]. now destruct (onTick _ _ _ _).
  - destruct (onTick m _ _ _); cbn [result_bind]; [apply IH|done].
Qed.

Lemma month_hour ts : (hour_of ts < 24)%nat.
Proof.
  unfold hour_of. pose proof (floor_days_bounds ts) as H. unfold day_length in *.
  rewrite Z.quot_div_nonneg by lia.
  assert (0 <= (ts - floor_days ts * 86400000000) / 3600000000 < 24); [|lia].
  split; [apply Z.div_pos; lia|apply Z.div_lt_upper_bound; lia].
Qed.

(** * Sums over a map *)

Definition map_sum {A} (f : A -> nat) (m : gmap string A) : nat :=
  sum_list_with (fun kv => f kv.2) (map_to_list m).

Lemma map_sum_empty {A} (f : A -> nat) : map_sum f (∅ : gmap string A) = 0%nat.
Proof. unfold map_sum. now rewrite map_to_list_empty. Qed.

Lemma map_sum_fresh {A} (f : A -> nat) (m : gmap string A) k x :
  m !! k = None -> map_sum f (<[k := x]> m) = (f x + map_sum f m)%nat.
Proof. intros H. unfold map_sum. now rewrite map_to_list_insert by done. Qed.

Lemma map_sum_insert {A} (f : A -> nat) (m : gmap string A) k x :
  (map_sum f (<[k := x]> m) + from_option f 0 (m !! k) = f x + map_sum f m)%nat.
Proof.
  destruct (m !! k) as [y|] eqn:E; cbn [from_option]; [|rewrite map_sum_fresh by done; lia].
  rewrite <- insert_delete_eq, map_sum_fresh by apply lookup_delete_eq.
  rewrite <- (insert_delete_id m k y E) at 2. rewrite map_sum_fresh by apply lookup_delete_eq. lia.
Qed.

Lemma sum_alter i l v : l !! i = Some v -> sum_list (alter S i l) = S (sum_list l).
Proof.
  revert i. induction l as [|x l IH]; intros [|i] H; cbn in *; try done.
  rewrite (IH i H). lia.
Qed.

(** * The replay, symbol by symbol *)

(** The ticks of one symbol, and what they make of its matcher and span. *)
Definition ticks_of (s : string) (ticks : list PriceData) : list PriceData :=
  base.filter (fun t => symbol t = s) ticks.

Definition span_of (ticks : list PriceData) : SymbolSpan :=
  foldl (fun sp t => widen_span sp (timestamp t)) emptySpan ticks.

Definition alone (m0 : ChainMatcher) (ticks : list PriceData) : result ChainMatcher :=
  feed_matcher m0 (map mid_tick ticks).

Definition seen {A} (ticks : list PriceData) (x : A) : option A :=
  match ticks with [] => None | _ => Some x end.

Record replayed (config : ExperimentConfig) (m0 : ChainMatcher) (done : list PriceData) (r : replay) : Prop := {
  rp_matchers s : match ticks_of s done with
                  | [] => matchers r !! s = None
                  | l => exists m, matchers r !! s = Some m /\ alone m0 l = Ok m
                  end;
  rp_sound : map_Forall (fun _ => sound config) (matchers r);
  rp_spans s : spans r !! s = seen (ticks_of s done) (span_of (ticks_of s done));
  rp_whole : whole r = span_of done;
  rp_months : map_sum (fun n => n) (months r) = map_sum (fun m => occurrences (stats_ m)) (matchers r);
  rp_hours : sum_list (hours r) = map_sum (fun m => occurrences (stats_ m)) (matchers r);
  rp_day : length (hours r) = 24%nat;
  rp_pace : (map_sum pace (matchers r) <= length done)%nat;
  rp_attempts : (map_sum (fun m => attempts (stats_ m)) (matchers r) <= length done)%nat;
  rp_keys : map_Forall (fun k _ => exists t, t ∈ done /\ k = month_key (timestamp t)) (months r) }.

Lemma symbol_ticks_snoc s done t :
  ticks_of s (done ++ [t]) = (ticks_of s done ++ if String.eqb (symbol t) s then [t] else [])%list.
Proof.
  unfold ticks_of. rewrite filter_app. f_equal. rewrite filter_cons, filter_nil.
  destruct (String.eqb_spec (symbol t) s); case_decide; congruence.
Qed.

Lemma span_snoc ticks t : span_of (ticks ++ [t]) = widen_span (span_of ticks) (timestamp t).
Proof. unfold span_of. now rewrite foldl_app. Qed.

Lemma span_count ticks : sp_ticks (span_of ticks) = length ticks.
Proof.
  induction ticks as [|t ticks IH] using rev_ind; [done|].
  rewrite span_snoc, length_app. cbn [widen_span sp_ticks length]. lia.
Qed.

Lemma replayed_empty config m0 : replayed config m0 [] emptyReplay.
Proof. now split. Qed.

Lemma makeMatcher_sound config m0 : makeMatcher config kMaxAttemptSamples = Ok m0 ->
  sound config m0 /\ pace m0 = 0%nat /\ attempts (stats_ m0) = 0%nat.
Proof.
  intros H. destruct (makeMatcher_ok _ _ _ H) as (Ha & Hl & Hn & Hc & Ho & Hact).
  split; [now split|]. unfold pace. rewrite Ho, Hact. split; [lia|].
  unfold makeMatcher in H. destruct (CHAIN config); [done|]. destruct (makeLegs _ _); [|done].
  now injection H as <-.
Qed.

(** The matcher a tick finds: the symbol's own, or a new one. *)
Lemma replayed_finds config m0 done r s :
  makeMatcher config kMaxAttemptSamples = Ok m0 -> replayed config m0 done r ->
  exists m, match matchers r !! s with Some m => Ok m | None => makeMatcher config kMaxAttemptSamples end = Ok m /\
    alone m0 (ticks_of s done) = Ok m /\ sound config m /\
    occurrences (stats_ m) = from_option (fun m => occurrences (stats_ m)) 0%nat (matchers r !! s) /\
    pace m = from_option pace 0%nat (matchers r !! s) /\
    attempts (stats_ m) = from_option (fun m => attempts (stats_ m)) 0%nat (matchers r !! s).
Proof.
  intros H0 Hr. pose proof (rp_matchers _ _ _ _ Hr s) as Hm.
  destruct (ticks_of s done) as [|t l] eqn:E.
  - rewrite Hm, H0. exists m0. destruct (makeMatcher_sound _ _ H0) as (Hs & Hp & Hat).
    destruct (makeMatcher_ok _ _ _ H0) as (_ & _ & _ & _ & Ho & _). split_and!; auto.
  - destruct Hm as (m & Hm & Ha). rewrite Hm. exists m. split_and!; auto.
    exact (rp_sound _ _ _ _ Hr s m Hm).
Qed.

Lemma replay_tick_ok config m0 done r t :
  makeMatcher config kMaxAttemptSamples = Ok m0 -> replayed config m0 done r ->
  exists r', replay_tick config r t = Ok r' /\ replayed config m0 (done ++ [t]) r'.
Proof.
  intros H0 Hr. destruct (replayed_finds config m0 done r (symbol t) H0 Hr) as (m & Hf & Ha & Hs & Ho & Hp & Hat).
  destruct (onTick_sound config m (mid_tick t) Hs) as (m' & Et & Hs' & Hc & Hpace & Hatt).
  change (mt_ts (mid_tick t)) with (timestamp t) in Et.
  unfold replay_tick. rewrite Hf. cbn [result_bind]. rewrite Et. cbn [result_bind]. eexists. split; [reflexivity|].
  destruct Hr as [R1 R2 R3 R4 R5 R6 R7 R8 R9 R10].
  set (hit := (occurrences (stats_ m) <? occurrences (stats_ m'))%nat) in *.
  pose proof (map_sum_insert (fun m => occurrences (stats_ m)) (matchers r) (symbol t) m') as Mo.
  pose proof (map_sum_insert pace (matchers r) (symbol t) m') as Mp.
  pose proof (map_sum_insert (fun m => attempts (stats_ m)) (matchers r) (symbol t) m') as Ma.
  rewrite <- Ho in Mo. rewrite <- Hp in Mp. rewrite <- Hat in Ma. cbn beta in Mo, Ma.
  split; cbn [matchers spans months hours whole].
  - intros s. rewrite symbol_ticks_snoc. destruct (String.eqb_spec (symbol t) s) as [<-|Hne].
    + rewrite lookup_insert_eq. destruct (ticks_of (symbol t) done ++ [t]) as [|u l] eqn:E; [now apply app_eq_nil in E as [_ E]|].
      exists m'. split; [done|]. rewrite <- E. unfold alone. rewrite map_app. cbn [map]. rewrite matcher_feed_snoc.
      unfold alone in Ha. rewrite Ha. exact Et.
    + rewrite app_nil_r, lookup_insert_ne by done. apply R1.
  - apply map_Forall_insert_2; [exact Hs'|exact R2].
  - intros s. rewrite symbol_ticks_snoc. destruct (String.eqb_spec (symbol t) s) as [<-|Hne].
    + rewrite lookup_insert_eq, R3, span_snoc. destruct (ticks_of (symbol t) done); reflexivity.
    + rewrite app_nil_r, lookup_insert_ne by done. apply R3.
  - now rewrite R4, span_snoc.
  - pose proof (map_sum_insert (fun n => n) (months r) (month_key (timestamp t))
      (S (default 0%nat (months r !! month_key (timestamp t))))) as Mm.
    cbn beta in Mm. destruct hit; [|lia].
    destruct (months r !! month_key (timestamp t)); cbn [from_option default Datatypes.id] in *; lia.
  - destruct hit; [|lia]. pose proof (month_hour (timestamp t)) as Hh. rewrite <- R7 in Hh.
    destruct (lookup_lt_is_Some_2 _ _ Hh) as [v Hv]. rewrite (sum_alter _ _ _ Hv). lia.
  - destruct hit; [now rewrite length_alter|done].
  - rewrite length_app. cbn [length]. lia.
  - rewrite length_app. cbn [length]. lia.
  - assert (map_Forall (fun k _ => exists u, u ∈ done ++ [t] /\ k = month_key (timestamp u)) (months r)) as Hold.
    { eapply map_Forall_impl; [exact R10|]. intros k x (u & Hu & Ek). exists u. split; [set_solver|done]. }
    destruct hit; [|exact Hold]. apply map_Forall_insert_2; [|exact Hold]. exists t. split; [set_solver|done].
Qed.

Lemma replay_ticks_ok config m0 ticks : forall done r,
  makeMatcher config kMaxAttemptSamples = Ok m0 -> replayed config m0 done r ->
  exists r', replay_ticks config r ticks = Ok r' /\ replayed config m0 (done ++ ticks) r'.
Proof.
  induction ticks as [|t ticks IH]; intros done r H0 Hr; cbn [replay_ticks].
  { exists r. now rewrite app_nil_r. }
  destruct (replay_tick_ok config m0 done r t H0 Hr) as (r1 & E & Hr1). rewrite E. cbn [result_bind].
  destruct (IH _ _ H0 Hr1) as (r' & E' & Hr'). exists r'. split; [exact E'|].
  now rewrite <- app_assoc in Hr'.
Qed.

(** * The tally *)

Lemma add_failures_ok failures : forall total,
  (length failures <= length total)%nat ->
  exists l, add_failures total failures = Ok l /\ length l = length total /\
    foldr Nat.add 0%nat l = (foldr Nat.add 0 total + foldr Nat.add 0 failures)%nat /\
    (forall t f, total !! 0%nat = Some t -> failures !! 0%nat = Some f -> l !! 0%nat = Some (t + f)%nat).
Proof.
  induction failures as [|f failures IH]; intros total H.
  - exists total. cbn. destruct total; (split_and!; [done|done|cbn; lia|done]).
  - destruct total as [|t total]; [cbn in H; lia|]. cbn [add_failures].
    destruct (IH total) as (l & -> & Hl & Hs & _); [cbn in H; lia|]. cbn [result_bind].
    exists ((t + f)%nat :: l). split_and!; [done|cbn; lia|cbn; lia|].
    intros t' f' [= <-] [= <-]. done.
Qed.

Definition symbol_outcome (m : ChainMatcher) (span : SymbolSpan) : SymbolOutcome :=
  mkSymbolOutcome (occurrences (stats_ m)) (sp_ticks span) (days_of (sp_maxTs span -₆₄ sp_minTs span)).

(** What the tally holds once the matchers [l] are in. *)
Record tallied (config : ExperimentConfig) (spans : gmap string SymbolSpan)
    (l : list (string * ChainMatcher)) (a : tally) : Prop := {
  tl_occurrences : ta_occurrences a = sum_list_with (fun kv => occurrences (stats_ kv.2)) l;
  tl_attempts : ta_attempts a = sum_list_with (fun kv => attempts (stats_ kv.2)) l;
  tl_legs : length (ta_failures a) = length (CHAIN config);
  tl_failures : foldr Nat.add 0%nat (ta_failures a) = sum_list_with (fun kv => total_failures (stats_ kv.2)) l;
  tl_first : CHAIN config <> [] -> ta_failures a !! 0%nat = Some 0%nat;
  tl_perSymbol s : ta_perSymbol a !! s =
    m ← (list_to_map l : gmap string ChainMatcher) !! s; span ← spans !! s; Some (symbol_outcome m span);
  tl_sum : map_sum so_occurrences (ta_perSymbol a) = ta_occurrences a;
  tl_size : base.size (ta_perSymbol a) = length l;
  tl_bySymbol : ta_bySymbol a = so_occurrences <$> ta_perSymbol a;
  tl_completed : length (ta_completed a) = sum_list_with (fun kv => length (completedExcursions (stats_ kv.2))) l;
  tl_failed : length (ta_failed a) = sum_list_with (fun kv => length (failedExcursions (stats_ kv.2))) l;
  tl_seconds : length (ta_seconds a) = length (ta_completed a);
  tl_spread : ta_spreadCount a = ta_attempts a;
  tl_truncated : ta_truncated a = existsb (fun kv => samplesTruncated (stats_ kv.2)) l }.

Lemma tallied_empty config spans : tallied config spans [] (emptyTally (length (CHAIN config))).
Proof.
  split; cbn [emptyTally ta_occurrences ta_attempts ta_failures ta_perSymbol ta_bySymbol ta_completed ta_failed
    ta_seconds ta_spreadCount ta_truncated sum_list_with list_to_map existsb length]; try done.
  - apply length_replicate.
  - now induction (length (CHAIN config)).
  - now destruct (CHAIN config).
Qed.

Lemma sum_snoc {A} (f : A -> nat) l x : sum_list_with f (l ++ [x]) = (sum_list_with f l + f x)%nat.
Proof. rewrite sum_list_with_app. cbn. lia. Qed.

Lemma tally_matcher_ok config spans l a symbol m span :
  tallied config spans l a -> sound config m -> spans !! symbol = Some span -> symbol ∉ l.*1 ->
  exists a', tally_matcher spans a (symbol, m) = Ok a' /\ tallied config spans (l ++ [(symbol, m)]) a'.
Proof.
  intros [T1 T2 T3 T4 T5 T6 Ts Tz T7 T8 T9 T10 T11 T12] [Ha _ Hn _] Hspan Hnew.
  pose proof (acc_legs _ Ha) as Hlegs. pose proof (acc_first _ Ha) as Hfirst.
  destruct (add_failures_ok (failuresByLeg (stats_ m)) (ta_failures a)) as (fs & Ef & Lf & Sf & Ff); [lia|].
  assert (ta_perSymbol a !! symbol = None) as Hfresh
    by (rewrite T6, (proj1 (not_elem_of_list_to_map _ _)) by done; done).
  unfold tally_matcher. rewrite Ef, Hspan. cbn [result_bind deref]. eexists. split; [reflexivity|].
  split; cbn [ta_occurrences ta_attempts ta_failures ta_perSymbol ta_bySymbol ta_completed ta_failed
    ta_seconds ta_spreadCount ta_truncated]; rewrite ?sum_snoc, ?length_app, ?length_map; cbn [snd].
  - lia.
  - lia.
  - congruence.
  - rewrite Sf, T4. reflexivity.
  - intros Hne. apply (Ff 0%nat 0%nat); auto.
  - intros s. rewrite list_to_map_app. destruct (decide (s = symbol)) as [->|Hs].
    + rewrite lookup_insert_eq, lookup_union_r by now apply not_elem_of_list_to_map_1.
      cbn [list_to_map foldr uncurry]. rewrite lookup_insert_eq. cbn [mbind option_bind]. now rewrite Hspan.
    + rewrite lookup_insert_ne, T6 by done.
      replace ((list_to_map l ∪ list_to_map [(symbol, m)] : gmap string ChainMatcher) !! s)
        with ((list_to_map l : gmap string ChainMatcher) !! s); [done|].
      cbn [list_to_map foldr]. destruct ((list_to_map l : gmap string ChainMatcher) !! s) eqn:E.
      * symmetry. now apply lookup_union_Some_l.
      * rewrite lookup_union_r by done. cbn. now rewrite lookup_insert_ne.
  - rewrite map_sum_fresh by done. cbn [so_occurrences]. lia.
  - rewrite map_size_insert_None by done. cbn [length]. lia.
  - rewrite fmap_insert. now rewrite T7.
  - lia.
  - lia.
  - rewrite T10. pose proof (acc_seconds _ Ha). lia.
  - rewrite T11. now rewrite (acc_spread _ Ha).
  - rewrite T12, existsb_app. cbn. now rewrite orb_false_r.
Qed.

Lemma tally_matchers_ok config spans l : forall done a,
  tallied config spans done a -> Forall (fun kv => sound config kv.2 /\ is_Some (spans !! kv.1)) l ->
  NoDup (done ++ l).*1 ->
  exists a', tally_matchers spans a l = Ok a' /\ tallied config spans (done ++ l) a'.
Proof.
  induction l as [|[s m] l IH]; intros done a Ht Hl Hnd; cbn [tally_matchers].
  { exists a. now rewrite app_nil_r. }
  inversion Hl as [|? ? [Hs [span Hspan]] Hl']; subst. cbn [fst snd] in *.
  destruct (tally_matcher_ok config spans done a s m span Ht Hs Hspan) as (a1 & E1 & Ht1).
  { rewrite fmap_app in Hnd. apply NoDup_app in Hnd as (_ & Hnd & _). intros Hin. apply (Hnd s Hin). cbn. left. }
  rewrite E1. cbn [result_bind]. replace (done ++ (s, m) :: l)%list with ((done ++ [(s, m)]) ++ l)%list in *
    by now rewrite <- app_assoc.
  now apply IH.
Qed.

Lemma in_key_order_perm {A} (m : gmap string A) : in_key_order m ≡ₚ map_to_list m.
Proof. apply merge_sort_Permutation. Qed.

(** * The outcome *)

Lemma nearestRank_returns sorted q k :
  (0 < k <= length sorted)%nat ->
  ceil_size (dbl_mul q (dbl_of_Z (Z.of_nat (length sorted)))) = Ok k -> exists v, nearestRank sorted q = Ok v.
Proof.
  intros Hk E. unfold nearestRank. rewrite E. cbn [result_bind].
  destruct (lookup_lt_is_Some_2 sorted (Nat.max k 1 - 1)) as [v ->]; [lia|eauto].
Qed.

Lemma quantiles_returns values :
  values <> [] -> Z.of_nat (length values) < 2 ^ 40 -> exists q, quantiles values = Ok q.
Proof.
  intros Hne Hlen. assert (0 < length values)%nat as Hn by (destruct values; [done|cbn; lia]).
  assert (length (sort_doubles values) = length values) as El by (unfold sort_doubles; now rewrite merge_sort_Permutation).
  unfold quantiles. rewrite <- El in Hlen, Hn. set (n := length (sort_doubles values)) in *.
  pose proof (Nat.div_mod_eq (n + 1) 2). pose proof (Nat.mod_upper_bound (n + 1) 2 ltac:(lia)).
  pose proof (Nat.div_mod_eq (9 * n + 9) 10). pose proof (Nat.mod_upper_bound (9 * n + 9) 10 ltac:(lia)).
  assert (0 < (n + 1) / 2 <= n)%nat as K2 by lia. assert (0 < (9 * n + 9) / 10 <= n)%nat as K9 by lia.
  destruct (nearestRank_returns (sort_doubles values) _ _ K2 (median_rank n Hn Hlen)) as [a ->].
  destruct (nearestRank_returns (sort_doubles values) _ _ K9 (ninety_rank n Hn Hlen)) as [b ->].
  cbn. eauto.
Qed.

Definition population (o : option ExcursionStats) : nat := from_option samples 0%nat o.

Lemma summarise_returns l up :
  Z.of_nat (length l) < 2 ^ 40 ->
  exists o, summariseExcursions l up = Ok o /\ population o = length l /\ (o = None <-> length l = 0%nat).
Proof.
  intros Hlen. destruct l as [|s l]; [now exists None|].
  assert (forall f : ExcursionSample -> double, exists q, quantiles (map f (s :: l)) = Ok q) as Hq.
  { intros f. apply quantiles_returns; [done|]. now rewrite length_map. }
  cbn [summariseExcursions].
  destruct (Hq (favorable up)) as [a ->]. cbn [result_bind].
  destruct (Hq (adverse up)) as [b ->]. cbn [result_bind].
  destruct (Hq (fun s => percent_of (favorable up s) s)) as [c ->]. cbn [result_bind].
  destruct (Hq (fun s => percent_of (adverse up s) s)) as [d ->]. cbn [result_bind].
  eexists. split; [reflexivity|]. done.
Qed.

Lemma map_sum_ordered {A} (f : A -> nat) (m : gmap string A) :
  sum_list_with (fun kv => f kv.2) (in_key_order m) = map_sum f m.
Proof. unfold map_sum. now rewrite in_key_order_perm. Qed.

Lemma sum_le {A} (f g : A -> nat) l : (forall x, x ∈ l -> (f x <= g x)%nat) ->
  (sum_list_with f l <= sum_list_with g l)%nat.
Proof.
  induction l as [|x l IH]; intros H; cbn; [lia|].
  pose proof (H x ltac:(left)). specialize (IH ltac:(intros y Hy; apply H; now right)). lia.
Qed.

Lemma sum_zero {A} (f : A -> nat) l : sum_list_with f l = 0%nat <-> forall x, x ∈ l -> f x = 0%nat.
Proof.
  induction l as [|x l IH]; cbn; [set_solver|]. split.
  - intros H y [->|Hy]%elem_of_cons; [lia|]. apply IH; [lia|done].
  - intros H. rewrite (H x) by left. cbn. apply IH. intros y Hy. apply H. now right.
Qed.

Lemma sum_eq {A} (f g : A -> nat) l : (forall x, x ∈ l -> f x = g x) ->
  sum_list_with f l = sum_list_with g l.
Proof. intros H. apply Nat.le_antisymm; apply sum_le; intros x Hx; rewrite (H x Hx); done. Qed.

Lemma sum_mult {A} (f : A -> nat) n l :
  sum_list_with (fun x => f x * n)%nat l = (sum_list_with f l * n)%nat.
Proof. induction l as [|x l IH]; cbn; [done|]. rewrite IH. lia. Qed.

Lemma sum_plus {A} (f g : A -> nat) l :
  sum_list_with (fun x => f x + g x)%nat l = (sum_list_with f l + sum_list_with g l)%nat.
Proof. induction l as [|x l IH]; cbn; [done|]. rewrite IH. lia. Qed.

Lemma sum_ones {A} (l : list A) : sum_list_with (fun _ => 1%nat) l = length l.
Proof. induction l as [|x l IH]; cbn; [done|]. now rewrite IH. Qed.

(** The sums of a tallied replay, in terms of each matcher's books. *)
Section Sums.
Context (config : ExperimentConfig) (m0 : ChainMatcher) (ticks : list PriceData) (r : replay) (a : tally).
Context (Hr : replayed config m0 ticks r) (Ha : tallied config (spans r) (in_key_order (matchers r)) a).
Notation entries := (in_key_order (matchers r)).

Lemma entries_sound kv : kv ∈ entries -> sound config kv.2.
Proof.
  rewrite in_key_order_perm. destruct kv as [s m]. intros H%elem_of_map_to_list.
  exact (rp_sound _ _ _ _ Hr s m H).
Qed.

Lemma sum_occurrences : ta_occurrences a = map_sum (fun m => occurrences (stats_ m)) (matchers r).
Proof. rewrite (tl_occurrences _ _ _ _ Ha). apply (map_sum_ordered (fun m => occurrences (stats_ m))). Qed.

Lemma entries_length : length entries = base.size (matchers r).
Proof. rewrite in_key_order_perm. apply length_map_to_list. Qed.

Lemma attempts_bounds :
  (ta_occurrences a + foldr Nat.add 0 (ta_failures a) <= ta_attempts a
   <= ta_occurrences a + foldr Nat.add 0 (ta_failures a) + base.size (matchers r))%nat.
Proof.
  rewrite (tl_occurrences _ _ _ _ Ha), (tl_attempts _ _ _ _ Ha), (tl_failures _ _ _ _ Ha), <- entries_length.
  rewrite <- (sum_ones entries), <- !sum_plus.
  split; apply sum_le; intros kv Hkv; pose proof (acc_attempts _ (sound_accounts _ _ (entries_sound kv Hkv)));
    destruct (_ =? _)%nat; lia.
Qed.

Lemma attempts_paced : (ta_attempts a <= length ticks)%nat.
Proof.
  pose proof (rp_attempts _ _ _ _ Hr) as Hp. rewrite <- (map_sum_ordered (fun m => attempts (stats_ m))) in Hp.
  now rewrite (tl_attempts _ _ _ _ Ha).
Qed.

Lemma occurrences_paced : (ta_occurrences a * length (CHAIN config) <= length ticks)%nat.
Proof.
  pose proof (rp_pace _ _ _ _ Hr) as Hp. rewrite <- map_sum_ordered in Hp.
  rewrite (tl_occurrences _ _ _ _ Ha), <- sum_mult. etrans; [|exact Hp].
  apply sum_le. intros kv Hkv. unfold pace. rewrite (sound_length _ _ (entries_sound kv Hkv)). lia.
Qed.

Lemma cap_positive : (0 < kMaxAttemptSamples)%nat.
Proof. unfold kMaxAttemptSamples. lia. Qed.

(** A population's size and what it is drawn from. *)
Lemma samples_capped (f g : string * ChainMatcher -> nat) :
  (forall kv, kv ∈ entries -> f kv = Nat.min kMaxAttemptSamples (g kv)) ->
  (sum_list_with f entries <= sum_list_with g entries)%nat /\
  (sum_list_with f entries = 0%nat <-> sum_list_with g entries = 0%nat) /\
  ((forall kv, kv ∈ entries -> (g kv <= kMaxAttemptSamples)%nat) -> sum_list_with f entries = sum_list_with g entries).
Proof.
  intros H. pose proof cap_positive. split_and!.
  - apply sum_le. intros kv Hkv. rewrite (H kv Hkv). lia.
  - rewrite !sum_zero. split; intros Hz kv Hkv; specialize (H kv Hkv); specialize (Hz kv Hkv); lia.
  - intros Hg. apply sum_eq. intros kv Hkv. rewrite (H kv Hkv). specialize (Hg kv Hkv). lia.
Qed.

Lemma untruncated : ta_truncated a = false ->
  forall kv, kv ∈ entries -> (occurrences (stats_ kv.2) <= kMaxAttemptSamples)%nat /\
                             (total_failures (stats_ kv.2) <= kMaxAttemptSamples)%nat.
Proof.
  rewrite (tl_truncated _ _ _ _ Ha). intros H kv Hkv.
  destruct (entries_sound kv Hkv) as [A _ _ Hc].
  assert (samplesTruncated (stats_ kv.2) = false) as Ht.
  { destruct (samplesTruncated (stats_ kv.2)) eqn:E; [|done]. rewrite <- H. symmetry.
    apply existsb_exists. exists kv. split; [now apply list_elem_of_In|done]. }
  rewrite (acc_truncated _ A), Hc in Ht. apply orb_false_iff in Ht as [H1 H2].
  apply Nat.ltb_ge in H1, H2. done.
Qed.

Lemma completed_population :
  (length (ta_completed a) <= ta_occurrences a)%nat /\ (length (ta_completed a) = 0%nat <-> ta_occurrences a = 0%nat) /\
  (ta_truncated a = false -> length (ta_completed a) = ta_occurrences a).
Proof.
  rewrite (tl_completed _ _ _ _ Ha), (tl_occurrences _ _ _ _ Ha).
  destruct (samples_capped (fun kv => length (completedExcursions (stats_ kv.2))) (fun kv => occurrences (stats_ kv.2)))
    as (H1 & H2 & H3).
  { intros kv Hkv. destruct (entries_sound kv Hkv) as [A _ _ Hc]. now rewrite (acc_completed _ A), Hc. }
  split_and!; [done|done|]. intros Ht. apply H3. intros kv Hkv. now apply untruncated.
Qed.

Lemma failed_population :
  let failures := foldr Nat.add 0%nat (ta_failures a) in
  (length (ta_failed a) <= failures)%nat /\ (length (ta_failed a) = 0%nat <-> failures = 0%nat) /\
  (ta_truncated a = false -> length (ta_failed a) = failures).
Proof.
  cbv zeta. rewrite (tl_failed _ _ _ _ Ha), (tl_failures _ _ _ _ Ha).
  destruct (samples_capped (fun kv => length (failedExcursions (stats_ kv.2))) (fun kv => total_failures (stats_ kv.2)))
    as (H1 & H2 & H3).
  { intros kv Hkv. destruct (entries_sound kv Hkv) as [A _ _ Hc]. now rewrite (acc_failed _ A), Hc. }
  split_and!; [done|done|]. intros Ht. apply H3. intros kv Hkv. now apply untruncated.
Qed.
End Sums.

Lemma NoDup_keys (r : replay) : NoDup (in_key_order (matchers r)).*1.
Proof. rewrite in_key_order_perm. apply NoDup_fst_map_to_list. Qed.

(** What a valid experiment's outcome is made of: the replay, its tally, and the
    summaries of the tally's populations. *)
Lemma evaluate_form (ticks : list PriceData) (config : ExperimentConfig) m0 :
  makeMatcher config kMaxAttemptSamples = Ok m0 -> Z.of_nat (length ticks) < 2 ^ 40 ->
  exists r a o, replayed config m0 ticks r /\ tallied config (spans r) (in_key_order (matchers r)) a /\
    evaluateExperiment ticks config = Ok o /\
    (exists completed failed seconds days mean up, o =
       mkExperimentOutcome (ta_occurrences a) (length ticks) days (ta_attempts a) (ta_failures a) (months r)
         (hours r) (ta_perSymbol a) (ta_bySymbol a) completed failed seconds mean (if (up : bool) then "up" else "down")
         (ta_truncated a)) /\
    population (eo_completedAttempts o) = length (ta_completed a) /\
    (eo_completedAttempts o = None <-> length (ta_completed a) = 0%nat) /\
    population (eo_failedAttempts o) = length (ta_failed a) /\
    (eo_failedAttempts o = None <-> length (ta_failed a) = 0%nat) /\
    (eo_completionSeconds o = None <-> length (ta_completed a) = 0%nat) /\
    (eo_meanSpreadAtTriggerPoints o = None <-> ta_attempts a = 0%nat).
Proof.
  intros H0 Hlen.
  destruct (replay_ticks_ok config m0 ticks [] emptyReplay H0 (replayed_empty config m0)) as (r & Er & Hr).
  cbn [app] in Hr.
  destruct (tally_matchers_ok config (spans r) (in_key_order (matchers r)) [] _ (tallied_empty config (spans r)))
    as (a & Ea & Ha).
  { apply Forall_forall. intros [s m] Hin. split; [exact (entries_sound _ _ _ _ Hr _ Hin)|].
    rewrite in_key_order_perm in Hin. apply elem_of_map_to_list in Hin. cbn [fst].
    rewrite (rp_spans _ _ _ _ Hr). pose proof (rp_matchers _ _ _ _ Hr s) as Hm.
    destruct (ticks_of s ticks); [congruence|]. cbn. eauto. }
  { apply NoDup_keys. }
  cbn [app] in Ha.
  assert (CHAIN config <> []) as Hne by (intros E; unfold makeMatcher in H0; now rewrite E in H0).
  destruct (completed_population config m0 ticks r a Hr Ha) as (C1 & _).
  destruct (failed_population config m0 ticks r a Hr Ha) as (F1 & _).
  pose proof (attempts_bounds config m0 ticks r a Hr Ha) as Hatt.
  pose proof (attempts_paced config m0 ticks r a Hr Ha) as Hpaced.
  destruct (last (CHAIN config)) as [leg|] eqn:El; [|now apply last_None in El].
  destruct (summarise_returns (ta_completed a) (favorableUp leg)) as (oc & Eoc & Pc & Nc); [lia|].
  destruct (summarise_returns (ta_failed a) (favorableUp leg)) as (ofl & Eof & Pf & Nf); [lia|].
  assert (exists os, (match ta_seconds a with [] => Ok None | _ => q <~ quantiles (ta_seconds a) ; Ok (Some q) end) =
    Ok os /\ (os = None <-> length (ta_seconds a) = 0%nat)) as (os & Eos & Ns).
  { destruct (ta_seconds a) as [|x l] eqn:Es; [now exists None|].
    destruct (quantiles_returns (x :: l)) as [q Eq]; [done|rewrite <- Es, (tl_seconds _ _ _ _ Ha); lia|].
    rewrite Eq. cbn [result_bind]. eexists. split; [reflexivity|]. done. }
  unfold evaluateExperiment. rewrite H0. cbn [result_bind]. rewrite Er. cbn [result_bind]. rewrite Ea. cbn [result_bind]. rewrite El. cbn [result_bind deref].
  rewrite Eoc. cbn [result_bind]. rewrite Eof. cbn [result_bind]. rewrite Eos. cbn [result_bind]. do 3 eexists.
  split; [exact Hr|]. split; [exact Ha|]. split; [reflexivity|].
  split; [do 6 eexists; reflexivity|].
  cbn [eo_completedAttempts eo_failedAttempts eo_completionSeconds eo_meanSpreadAtTriggerPoints].
  rewrite (tl_spread _ _ _ _ Ha). rewrite (tl_seconds _ _ _ _ Ha) in Ns.
  split_and!; try tauto.
  destruct (Nat.ltb_spec 0 (ta_attempts a)); split; (done || lia).
Qed.

(** C22: the aggregate of an experiment is that of its symbols, each replayed on its
    own. An invalid chain is refused whatever the ticks; a valid one always gives
    an outcome. Each symbol's line is exactly what a matcher fed that symbol's
    ticks alone reports; occurrences are the sum over the symbols, and over the
    months, and over the hours of the day; every attempt is an occurrence, a
    failure of some leg, or one still in flight (at most one per symbol); a chain
    of [n] legs took at least [n] ticks each time. Populations are missing exactly
    when they are empty, and complete unless the outcome says it was truncated. *)
Theorem experiment_outcome_exact (ticks : list PriceData) (config : ExperimentConfig) :
  Z.of_nat (length ticks) < 2 ^ 40 ->
  match makeMatcher config kMaxAttemptSamples with
  | Throw e => evaluateExperiment ticks config = Throw e
  | Ok m0 => exists o, evaluateExperiment ticks config = Ok o /\
      let failures := foldr Nat.add 0%nat (eo_failuresByLeg o) in
      eo_ticksScanned o = length ticks /\
      (forall s, match ticks_of s ticks with
       | [] => eo_perSymbol o !! s = None
       | own => exists m, alone m0 own = Ok m /\
           eo_perSymbol o !! s = Some (symbol_outcome m (span_of own)) /\ sp_ticks (span_of own) = length own
       end) /\
      eo_occurrencesBySymbol o = so_occurrences <$> eo_perSymbol o /\
      eo_occurrences o = map_sum so_occurrences (eo_perSymbol o) /\
      eo_occurrences o = map_sum (fun n => n) (eo_occurrencesByMonth o) /\
      eo_occurrences o = sum_list (eo_occurrencesByHourUtc o) /\ length (eo_occurrencesByHourUtc o) = 24%nat /\
      (eo_occurrences o + failures <= eo_attempts o
       <= eo_occurrences o + failures + base.size (eo_perSymbol o))%nat /\
      length (eo_failuresByLeg o) = length (CHAIN config) /\ eo_failuresByLeg o !! 0%nat = Some 0%nat /\
      (eo_occurrences o * length (CHAIN config) <= length ticks)%nat /\
      (eo_completedAttempts o = None <-> eo_occurrences o = 0%nat) /\
      (eo_completionSeconds o = None <-> eo_occurrences o = 0%nat) /\
      (eo_failedAttempts o = None <-> failures = 0%nat) /\
      (eo_meanSpreadAtTriggerPoints o = None <-> eo_attempts o = 0%nat) /\
      (eo_samplesTruncated o = false ->
       population (eo_completedAttempts o) = eo_occurrences o /\ population (eo_failedAttempts o) = failures)
  end.
Proof.
  intros Hlen. destruct (makeMatcher config kMaxAttemptSamples) as [m0|e] eqn:H0;
    [|unfold evaluateExperiment; now rewrite H0].
  destruct (evaluate_form ticks config m0 H0 Hlen)
    as (r & a & o & Hr & Ha & Eo & (c & f & sec & days & mean & up & ->) & Pc & Nc & Pf & Nf & Ns & Nm).
  exists (mkExperimentOutcome (ta_occurrences a) (length ticks) days (ta_attempts a) (ta_failures a) (months r)
         (hours r) (ta_perSymbol a) (ta_bySymbol a) c f sec mean (if (up : bool) then "up" else "down")
         (ta_truncated a)).
  split; [exact Eo|]. clear Eo.
  assert (CHAIN config <> []) as Hne by (intros E; unfold makeMatcher in H0; now rewrite E in H0).
  destruct (completed_population config m0 ticks r a Hr Ha) as (C1 & C2 & C3).
  destruct (failed_population config m0 ticks r a Hr Ha) as (F1 & F2 & F3). cbv zeta in F1, F2, F3.
  pose proof (attempts_bounds config m0 ticks r a Hr Ha) as Hatt.
  pose proof (sum_occurrences config r a Ha) as Hocc. cbv zeta.
  cbn [eo_occurrences eo_ticksScanned eo_attempts eo_failuresByLeg eo_occurrencesByMonth eo_occurrencesByHourUtc
    eo_perSymbol eo_occurrencesBySymbol eo_completedAttempts eo_failedAttempts eo_completionSeconds
    eo_meanSpreadAtTriggerPoints eo_samplesTruncated].
  rewrite (tl_size _ _ _ _ Ha), (entries_length r).
  cbn [eo_completedAttempts eo_failedAttempts eo_completionSeconds eo_meanSpreadAtTriggerPoints] in *. rewrite Pc, Pf.
  split_and!; try tauto; try lia.
  - intros s. pose proof (rp_matchers _ _ _ _ Hr s) as Hm. rewrite (tl_perSymbol _ _ _ _ Ha).
    rewrite (list_to_map_proper _ _ (NoDup_keys r) (in_key_order_perm _)), list_to_map_to_list.
    rewrite (rp_spans _ _ _ _ Hr). destruct (ticks_of s ticks) as [|t own]; [now rewrite Hm|].
    destruct Hm as (m & Hm & Hown). exists m. split; [done|]. rewrite Hm. cbn [mbind option_bind seen].
    split; [done|]. apply span_count.
  - exact (tl_bySymbol _ _ _ _ Ha).
  - symmetry. exact (tl_sum _ _ _ _ Ha).
  - rewrite Hocc. symmetry. exact (rp_months _ _ _ _ Hr).
  - rewrite Hocc. symmetry. exact (rp_hours _ _ _ _ Hr).
  - exact (rp_day _ _ _ _ Hr).
  - exact (tl_legs _ _ _ _ Ha).
  - now apply (tl_first _ _ _ _ Ha).
  - exact (occurrences_paced config m0 ticks r a Hr Ha).
Qed.

(** * Witness: two symbols, one of which drops one percent and recovers *)

Definition demo_ticks : list PriceData :=
  let at_second s := 1783432800000000 + s * 1000000 in
  [mkPriceData 10001 9999 (at_second 0) "EURUSD"; mkPriceData 20001 19999 (at_second 1) "GBPUSD";
   mkPriceData 9900 9898 (at_second 3) "EURUSD"; mkPriceData 9951 9949 (at_second 8) "EURUSD";
   mkPriceData 20000 19998 (at_second 9) "GBPUSD"].

Lemma experiment_outcome_exact_witness :
  Z.of_nat (length demo_ticks) < 2 ^ 40 /\
  exists o, evaluateExperiment demo_ticks dip_recovery = Ok o /\
    eo_occurrences o = map_sum so_occurrences (eo_perSymbol o) /\ eo_ticksScanned o = 5%nat /\
    (eo_occurrences o * 2 <= 5)%nat.
Proof.
  assert (Z.of_nat (length demo_ticks) < 2 ^ 40) as Hlen by reflexivity. split; [exact Hlen|].
  pose proof (experiment_outcome_exact demo_ticks dip_recovery Hlen) as H.
  destruct (makeMatcher dip_recovery kMaxAttemptSamples) as [m0|e] eqn:E;
    [|exfalso; assert (match makeMatcher dip_recovery kMaxAttemptSamples with Ok _ => true | Throw _ => false end = true)
        as Hok by (vm_compute; reflexivity); rewrite E in Hok; discriminate].
  destruct H as (o & Ho & Hn & _ & _ & Hocc & _ & _ & _ & _ & _ & _ & Hpace & _).
  exists o. split; [exact Ho|]. split; [exact Hocc|]. split; [exact Hn|exact Hpace].
Defined.

Example demo_outcome :
  match evaluateExperiment demo_ticks dip_recovery with
  | Ok o => (eo_occurrences o, eo_attempts o, in_key_order (eo_occurrencesBySymbol o), in_key_order (eo_occurrencesByMonth o))
            = (1%nat, 1%nat, [("EURUSD", 1%nat); ("GBPUSD", 0%nat)], [("2026-07", 1%nat)])
  | Throw _ => False
  end.
Proof. vm_compute. reflexivity. Qed.
