(* ===== verification/ExperimentReport.v ===== *)
(** The report of one experiment: analysis/reporting/experimentResults.hpp, the
    put of experimentElastic.cppm behind analysis/queue/analysisBridge.cpp, and the
    pooled task of analysis/queue/drainExperiments.cpp. *)
From Stdlib Require Import ZArith Lia.
From stdpp Require Import base gmap list strings.
From S2P Require Import Prelude Models Double Json JsonDump JsonRoundTrip StdText ConfigJson Chrono Env IsoTime WireTime ChainMatcher ExperimentJson Percentile Evaluate Elastic Reports QuestDb.
From S2P Require Tracker.
Open Scope Z_scope.

Record ExperimentResults : Type := mkExperimentResults {
  er_RUN_ID : string;
  er_timestamp : string;
  er_hostname : string;
  er_durationSeconds : double;
  er_runConfig : ExperimentRunConfiguration;
  er_experiment : ExperimentConfig;
  er_occurrencesPerDay : double;
  er_outcome : ExperimentOutcome }.

(** A [std::map] of counts, and an array of them. *)
Definition counts_json (m : gmap string nat) : json :=
  json_object (map (fun kv => (kv.1, json_of_size kv.2)) (in_key_order m)).
Definition sizes_json (l : list nat) : json := JArray (map json_of_size l).

Definition quantileJson (q : QuantilePair) : json :=
  json_object [("p50", JFloat (p50 q)); ("p90", JFloat (p90 q))].

Definition excursionJson (s : option ExcursionStats) : json :=
  match s with
  | None => JNull
  | Some s =>
      json_object
        [("samples", json_of_size (samples s));
         ("mfePoints", quantileJson (mfePoints s));
         ("maePoints", quantileJson (maePoints s));
         ("mfePercent", quantileJson (mfePercent s));
         ("maePercent", quantileJson (maePercent s))]
  end.

Definition symbolJson (s : SymbolOutcome) : json :=
  json_object
    [("occurrences", json_of_size (so_occurrences s));
     ("ticksScanned", json_of_size (so_ticksScanned s));
     ("daysSpanned", JFloat (so_daysSpanned s))].

(** Null, never a fake zero, without attempts. *)
Definition completionRate (o : ExperimentOutcome) : json :=
  if (0 <? eo_attempts o)%nat
  then JFloat (dbl_div (dbl_of_Z (Z.of_nat (eo_occurrences o))) (dbl_of_Z (Z.of_nat (eo_attempts o))))
  else JNull.

Definition ExperimentResults_to_json (r : ExperimentResults) : result json :=
  let o := er_outcome r in
  let run := er_runConfig r in
  set_paths
    ([(["completionRate"], completionRate o);
      (["perSymbol"], json_object (map (fun kv => (kv.1, symbolJson kv.2)) (in_key_order (eo_perSymbol o))));
      (["completedAttempts"], excursionJson (eo_completedAttempts o));
      (["failedAttempts"], excursionJson (eo_failedAttempts o));
      (["completionSeconds"], match eo_completionSeconds o with Some q => quantileJson q | None => JNull end);
      (["meanSpreadAtTriggerPoints"], match eo_meanSpreadAtTriggerPoints o with Some d => JFloat d | None => JNull end);
      (["excursionOrientation"], JString (eo_excursionOrientation o));
      (["samplesTruncated"], JBoolean (eo_samplesTruncated o))] ++
     (if String.eqb (exp_EXECUTION_TS run) "" then []
      else [(["executionTimestamp"], JString (exp_EXECUTION_TS run))]) ++
     (if String.eqb (exp_BATCH run) "" then [] else [(["batch"], JString (exp_BATCH run))]))%list
    (json_object
       [("RUN_ID", JString (er_RUN_ID r));
        ("@timestamp", JString (er_timestamp r));
        ("hostname", JString (er_hostname r));
        ("durationSeconds", JFloat (er_durationSeconds r));
        ("runConfig", ExperimentRunConfiguration_to_json run);
        ("experiment", ExperimentConfig_to_json (er_experiment r));
        ("occurrences", json_of_size (eo_occurrences o));
        ("ticksScanned", json_of_size (eo_ticksScanned o));
        ("daysSpanned", JFloat (eo_daysSpanned o));
        ("occurrencesPerDay", JFloat (er_occurrencesPerDay r));
        ("attempts", json_of_size (eo_attempts o));
        ("failuresByLeg", sizes_json (eo_failuresByLeg o));
        ("occurrencesByMonth", counts_json (eo_occurrencesByMonth o));
        ("occurrencesByHourUtc", sizes_json (eo_occurrencesByHourUtc o));
        ("occurrencesBySymbol", counts_json (eo_occurrencesBySymbol o))]).

(** [bridgeLoadExperimentTicks]: the window's own load, no cache. *)
Definition bridgeLoadExperimentTicks {E : Environment} {Q : Pqxx} (n : nat) (questdbHost symbolsCsv : string)
    (lastMonths offsetMonths : Z) : result (list PriceData * nat) :=
  ticks <~ (loadTicks n questdbHost symbolsCsv lastMonths offsetMonths).1 ; Ok (ticks, length ticks).

Section Task.
Context {P : Process}.

Definition putExperimentResults (r : ExperimentResults) : batcher -> net -> result (batcher * net) :=
  put (weeklyIndex kExperimentsBase (exp_BATCH (er_runConfig r))) (ExperimentResults_to_json r)
    (er_RUN_ID r +:+ ":" +:+ UUID (er_experiment r)).

Definition occurrencesPerDay (o : ExperimentOutcome) : double :=
  if dbl_ltb dbl_zero (eo_daysSpanned o)
  then dbl_div (dbl_of_Z (Z.of_nat (eo_occurrences o))) (eo_daysSpanned o) else dbl_zero.

(** The task a worker's pool runs: evaluate, report, and turn whatever is thrown
    into an exception document; [what] is its text. *)
Definition run_experiment (what : exn -> string) (hostname : string) (durationSeconds : double)
    (ticks : list PriceData) (run : ExperimentRunConfiguration) (experiment : ExperimentConfig)
    (pending_ : batcher) (w : net) : batcher * net :=
  match
    (outcome <~ evaluateExperiment ticks experiment ;
     putExperimentResults
       (mkExperimentResults (exp_RUN_ID run) (nowIsoUtc (Elastic.seconds w)) hostname durationSeconds run experiment
          (occurrencesPerDay outcome) outcome) pending_ w)
  with
  | Ok o => o
  | Throw e =>
      putEngineException
        (mkException (nowIsoUtc (Elastic.seconds w)) "experiment"
           ("experiment " +:+ UUID experiment +:+ " failed: " +:+ what e) (exp_RUN_ID run)) pending_ w
  end.

End Task.

(** * Every experiment reports once *)

Lemma map_sum_member {A} (f : A -> nat) (m : gmap string A) k x : m !! k = Some x -> (f x <= map_sum f m)%nat.
Proof. intros H. rewrite <- (insert_delete_id m k x H), map_sum_fresh by apply lookup_delete_eq. lia. Qed.

Lemma sum_member (l : list nat) x : x ∈ l -> (x <= sum_list l)%nat.
Proof. induction l as [|y l IH]; [set_solver|]. intros [->|H]%elem_of_cons; cbn; [lia|]. specialize (IH H). lia. Qed.

Lemma foldr_sum l : foldr Nat.add 0%nat l = sum_list l.
Proof. reflexivity. Qed.

Lemma sizes_dumpable l : Forall (fun n => Z.of_nat n < 2 ^ 64) l -> dumpable (sizes_json l) = true.
Proof.
  intros H. unfold sizes_json. cbn [dumpable]. apply forallb_forall. intros j Hj.
  apply in_map_iff in Hj as (n & <- & Hn). rewrite Forall_forall in H. apply dumpable_size, H. now apply list_elem_of_In.
Qed.

(** A map as an object. *)
Lemma map_dumpable {A} (f : A -> json) (m : gmap string A) :
  map_Forall (fun k x => text_ok k /\ dumpable (f x) = true) m ->
  dumpable (json_object (map (fun kv => (kv.1, f kv.2)) (in_key_order m))) = true.
Proof.
  intros H. apply json_object_dumpable, forallb_forall. intros kv Hkv.
  apply in_map_iff in Hkv as ([k x] & <- & Hin). apply list_elem_of_In in Hin.
  rewrite in_key_order_perm in Hin. apply elem_of_map_to_list in Hin. destruct (H k x Hin) as [Hk Hx].
  unfold member_dumpable. cbn [fst snd]. rewrite Hx, andb_true_r. exact Hk.
Qed.

(** The texts and counts of an outcome. *)
Record outcome_fits (o : ExperimentOutcome) : Prop := {
  of_occurrences : size_fits (eo_occurrences o);
  of_ticks : size_fits (eo_ticksScanned o);
  of_attempts : size_fits (eo_attempts o);
  of_failures : Forall size_fits (eo_failuresByLeg o);
  of_hours : Forall size_fits (eo_occurrencesByHourUtc o);
  of_months : map_Forall (fun k n => text_ok k /\ size_fits n) (eo_occurrencesByMonth o);
  of_symbols : map_Forall (fun k s => text_ok k /\ size_fits (so_occurrences s) /\ size_fits (so_ticksScanned s)) (eo_perSymbol o);
  of_flat : eo_occurrencesBySymbol o = so_occurrences <$> eo_perSymbol o;
  of_completed : size_fits (population (eo_completedAttempts o));
  of_failed : size_fits (population (eo_failedAttempts o));
  of_orientation : text_ok (eo_excursionOrientation o) }.

Lemma month_key_text ts : 0 <= year_of (floor_days ts) <= 9999 -> text_ok (month_key ts).
Proof.
  intros Hy. apply ascii_valid.
  unfold month_key. destruct (civil_from_days (floor_days ts)) as [[y m] d] eqn:E.
  apply WireTime.civil_bounds in E as (_ & Hm & Hd & Hyy). rewrite <- Hyy in Hy. rewrite (proj2 (Z.ltb_ge y 0)) by lia.
  rewrite !chars_append. repeat (apply Forall_app; split); try (apply padded_ascii; lia). repeat constructor.
Qed.

(** The ticks of a replay, as the database serves them. *)
Definition tick_ok (t : PriceData) : Prop :=
  text_ok (symbol t) /\ 0 <= year_of (floor_days (timestamp t)) <= 9999.

Lemma perSymbol_found config m0 ticks r a s v :
  replayed config m0 ticks r -> tallied config (spans r) (in_key_order (matchers r)) a ->
  ta_perSymbol a !! s = Some v ->
  (exists t, t ∈ ticks /\ symbol t = s) /\ (so_ticksScanned v <= length ticks)%nat.
Proof.
  intros Hr Ha. rewrite (tl_perSymbol _ _ _ _ Ha).
  destruct ((list_to_map _ : gmap string ChainMatcher) !! s) as [m|]; [|done]. cbn [mbind option_bind].
  rewrite (rp_spans _ _ _ _ Hr). destruct (ticks_of s ticks) as [|t own] eqn:E; [done|].
  cbn [seen mbind option_bind]. intros [= <-]. split.
  - assert (t ∈ ticks_of s ticks) as Ht by (rewrite E; left).
    apply list_elem_of_filter in Ht as [Hs Ht]. eauto.
  - cbn [symbol_outcome so_ticksScanned]. rewrite span_count, <- E. apply length_filter.
Qed.

Lemma evaluate_fits ticks config m0 :
  makeMatcher config kMaxAttemptSamples = Ok m0 -> Z.of_nat (length ticks) < 2 ^ 40 -> Forall tick_ok ticks ->
  exists o, evaluateExperiment ticks config = Ok o /\ outcome_fits o.
Proof.
  intros H0 Hlen Hok.
  destruct (evaluate_form ticks config m0 H0 Hlen)
    as (r & a & o & Hr & Ha & Eo & (c & f & sec & days & mean & up & ->) & Pc & _ & Pf & _).
  eexists. split; [exact Eo|]. clear Eo.
  cbn [eo_completedAttempts eo_failedAttempts] in Pc, Pf.
  destruct (completed_population config m0 ticks r a Hr Ha) as (C1 & _).
  destruct (failed_population config m0 ticks r a Hr Ha) as (F1 & _). cbv zeta in F1.
  pose proof (attempts_bounds config m0 ticks r a Hr Ha) as Hatt.
  pose proof (attempts_paced config m0 ticks r a Hr Ha) as Hpaced.
  pose proof (sum_occurrences config r a Ha) as Hocc.
  pose proof (rp_hours _ _ _ _ Hr) as Hh. pose proof (rp_months _ _ _ _ Hr) as Hm.
  rewrite Forall_forall in Hok. rewrite foldr_sum in *.
  assert (forall n, (n <= length ticks)%nat -> size_fits n) as Hfit by (intros n ?; unfold size_fits; lia).
  split; cbn [eo_occurrences eo_ticksScanned eo_attempts eo_failuresByLeg eo_occurrencesByHourUtc
    eo_occurrencesByMonth eo_perSymbol eo_occurrencesBySymbol eo_completedAttempts eo_failedAttempts
    eo_excursionOrientation]; try (apply Hfit; lia).
  - apply Forall_forall. intros n Hn. apply Hfit. pose proof (sum_member _ _ Hn). lia.
  - apply Forall_forall. intros n Hn. apply Hfit. pose proof (sum_member _ _ Hn). lia.
  - intros k n Hk. pose proof (map_sum_member (fun n => n) _ _ _ Hk) as Hle. cbn beta in Hle. split; [|apply Hfit; lia].
    destruct (rp_keys _ _ _ _ Hr k n Hk) as (t & Ht & ->). apply month_key_text. now destruct (Hok t Ht).
  - intros s v Hs. destruct (perSymbol_found _ _ _ _ _ _ _ Hr Ha Hs) as ((t & Ht & <-) & Hle).
    pose proof (map_sum_member so_occurrences _ _ _ Hs) as Hso. rewrite (tl_sum _ _ _ _ Ha) in Hso.
    split_and!; [now destruct (Hok t Ht)|apply Hfit; lia|apply Hfit; lia].
  - exact (tl_bySymbol _ _ _ _ Ha).
  - now destruct up.
Qed.

Definition assignable (pv : list string * json) : Prop :=
  exists key, pv.1 = [key] /\ text_ok key /\ dumpable pv.2 = true.

Lemma set_paths_dumpable assignments : forall m,
  Forall assignable assignments -> dumpable (JObject m) = true ->
  exists j, set_paths assignments (JObject m) = Ok j /\ dumpable j = true.
Proof.
  induction assignments as [|[path v] rest IH]; intros m Hf Hm; cbn [set_paths]; [eauto|].
  inversion Hf as [|? ? (key & Hp & Hk & Hv) Hrest]; subst. cbn [fst snd] in *. subst path.
  rewrite set_path1. cbn [result_bind]. apply IH; [done|]. now apply set_dumpable.
Qed.

Lemma quantile_dumpable q : dumpable (quantileJson q) = true.
Proof. reflexivity. Qed.

Lemma excursion_dumpable s : size_fits (population s) -> dumpable (excursionJson s) = true.
Proof.
  intros Hs. destruct s as [s|]; [|done]. apply json_object_dumpable. cbn [forallb].
  unfold member_dumpable. cbn [fst snd]. rewrite !quantile_dumpable, dumpable_size by exact Hs. reflexivity.
Qed.

Lemma symbol_dumpable s :
  size_fits (so_occurrences s) -> size_fits (so_ticksScanned s) -> dumpable (symbolJson s) = true.
Proof.
  intros H1 H2. apply json_object_dumpable. cbn [forallb]. unfold member_dumpable. cbn [fst snd].
  now rewrite !dumpable_size.
Qed.

Lemma results_dump r :
  text_ok (er_RUN_ID r) -> text_ok (er_timestamp r) -> text_ok (er_hostname r) ->
  codec_ok (er_runConfig r) -> codec_ok (er_experiment r) -> outcome_fits (er_outcome r) ->
  exists body, (j <~ ExperimentResults_to_json r ; dump j) = Ok body.
Proof.
  intros H1 H2 H3 Hrun Hex []. unfold ExperimentResults_to_json.
  assert (text_ok (exp_BATCH (er_runConfig r)) /\ text_ok (exp_EXECUTION_TS (er_runConfig r))) as [Hb Ht]
    by (destruct Hrun as (_ & _ & ? & ? & _); done).
  match goal with |- context [set_paths ?l (json_object ?m)] =>
    assert (Forall assignable l) as Hl; [|assert (dumpable (json_object m) = true) as Hm] end.
  - unfold assignable. repeat (apply Forall_app; split); repeat (constructor; [eexists; split; [reflexivity|]|]);
      try constructor; cbn [snd]; try reflexivity; try done.
    + unfold completionRate. now destruct (0 <? eo_attempts (er_outcome r))%nat.
    + apply (map_dumpable symbolJson). eapply map_Forall_impl; [exact of_symbols0|].
      intros k s (? & ? & ?). split; [done|now apply symbol_dumpable].
    + now apply excursion_dumpable.
    + now apply excursion_dumpable.
    + now destruct (eo_completionSeconds _).
    + now destruct (eo_meanSpreadAtTriggerPoints _).
    + destruct (String.eqb _ _); constructor; [|constructor]. eexists. split; [reflexivity|]. split; [reflexivity|exact Ht].
    + destruct (String.eqb _ _); constructor; [|constructor]. eexists. split; [reflexivity|]. split; [reflexivity|exact Hb].
  - apply json_object_dumpable. cbn [forallb]. unfold member_dumpable. cbn [fst snd].
    rewrite !dumpable_size, !sizes_dumpable by done.
    rewrite (json_ok_dumpable _ (codec_json_ok (er_runConfig r) Hrun) : dumpable (ExperimentRunConfiguration_to_json _) = _).
    rewrite (json_ok_dumpable _ (codec_json_ok (er_experiment r) Hex) : dumpable (ExperimentConfig_to_json _) = _).
    unfold counts_json. rewrite !map_dumpable.
    + cbn [dumpable]. unfold text_ok in *. rewrite H1, H2, H3. reflexivity.
    + rewrite of_flat0. intros k n Hn. apply lookup_fmap_Some in Hn as (s & <- & Hs).
      destruct (of_symbols0 k s Hs) as (? & ? & ?). split; [done|now apply dumpable_size].
    + intros k n Hn. destruct (of_months0 k n Hn). split; [done|now apply dumpable_size].
  - destruct (set_paths_dumpable _ _ Hl Hm) as (j & E & Hj). unfold json_object in *. rewrite E.
    cbn [result_bind]. now apply dumpable_dumps.
Qed.

Section Reported.
Context {P : Process}.

(** A claimed experiment reports exactly once, and nothing escapes its
    task: one the matcher accepts queues its results, serialised, in the batch's
    experiments index under its run and its own identifier; one it refuses queues
    the exception that says so. *)
Theorem experiment_reported (what : exn -> string) hostname durationSeconds ticks
    (run : ExperimentRunConfiguration) (experiment : ExperimentConfig) (pending_ : batcher) (w : net) :
  codec_ok run -> codec_ok experiment -> text_ok hostname ->
  0 <= year_of (day_of (Elastic.seconds w)) <= 9999 ->
  Forall tick_ok ticks -> Z.of_nat (length ticks) < 2 ^ 40 ->
  let reported := run_experiment what hostname durationSeconds ticks run experiment pending_ w in
  match makeMatcher experiment kMaxAttemptSamples with
  | Ok _ => exists outcome body,
      evaluateExperiment ticks experiment = Ok outcome /\
      (j <~ ExperimentResults_to_json
              (mkExperimentResults (exp_RUN_ID run) (nowIsoUtc (Elastic.seconds w)) hostname durationSeconds run
                 experiment (occurrencesPerDay outcome) outcome) ; dump j) = Ok body /\
      reported = enqueueDocument (weeklyIndex kExperimentsBase (exp_BATCH run)) body
                   (exp_RUN_ID run +:+ ":" +:+ UUID experiment) pending_ w
  | Throw e =>
      reported = putEngineException
        (mkException (nowIsoUtc (Elastic.seconds w)) "experiment"
           ("experiment " +:+ UUID experiment +:+ " failed: " +:+ what e) (exp_RUN_ID run)) pending_ w
  end.
Proof.
  intros Hrun Hex Hhost Hclock Hticks Hlen reported. unfold reported, run_experiment.
  destruct (makeMatcher experiment kMaxAttemptSamples) as [m0|e] eqn:H0;
    [|unfold evaluateExperiment; now rewrite H0].
  destruct (evaluate_fits ticks experiment m0 H0 Hlen Hticks) as (o & Eo & Hfits). rewrite Eo. cbn [result_bind].
  destruct (results_dump (mkExperimentResults (exp_RUN_ID run) (nowIsoUtc (Elastic.seconds w)) hostname durationSeconds
    run experiment (occurrencesPerDay o) o)) as [body Eb]; try done.
  { now destruct Hrun. }
  { now apply nowIsoUtc_text. }
  exists o, body. split; [reflexivity|]. split; [exact Eb|].
  unfold putExperimentResults, put. rewrite Eb. reflexivity.
Qed.
End Reported.

Definition demo_experiment_run : ExperimentRunConfiguration :=
  mkExperimentRunConfiguration "r" "EURUSD,GBPUSD" "2026-28" "" 9 0.

Lemma experiment_reported_witness :
  Forall tick_ok demo_ticks /\ codec_ok sample_experiment /\
  exists o body, evaluateExperiment demo_ticks sample_experiment = Ok o /\
    run_experiment (P := demo_process) (fun _ => "refused") "host-1" dbl_zero demo_ticks demo_experiment_run
      sample_experiment [] demo_net =
    enqueueDocument (P := demo_process) "backtesting-experiments-2026-28" body "r:e-1" [] demo_net.
Proof.
  assert (Forall tick_ok demo_ticks) as Ht.
  { repeat (constructor; [split; [vm_compute; reflexivity|vm_compute; split; discriminate]|]). constructor. }
  assert (codec_ok sample_experiment) as Hc.
  { split; [vm_compute; reflexivity|]. split; [vm_compute; reflexivity|].
    repeat constructor; vm_compute; first [reflexivity | discriminate]. }
  assert (codec_ok demo_experiment_run) as Hr.
  { cbn. split_and!; vm_compute; try reflexivity; (split; discriminate). }
  split; [exact Ht|]. split; [exact Hc|].
  pose proof (experiment_reported (P := demo_process) (fun _ => "refused") "host-1" dbl_zero demo_ticks
    demo_experiment_run sample_experiment [] demo_net Hr Hc eq_refl) as H.
  destruct (makeMatcher sample_experiment kMaxAttemptSamples) as [m0|e] eqn:E;
    [|exfalso; assert (match makeMatcher sample_experiment kMaxAttemptSamples with Ok _ => true | Throw _ => false end = true)
        as Hok by (vm_compute; reflexivity); rewrite E in Hok; discriminate].
  destruct H as (o & body & Ho & _ & Hr'); [vm_compute; split; discriminate|exact Ht|reflexivity|].
  exists o, body. split; [exact Ho|exact Hr'].
Defined.
