(* ===== verification/TickPacket.v ===== *)
(** shared/net/tickPacket.cppm: the forty-byte tick datagram and its decoder. *)
From Stdlib Require Import ZArith Lia SpecFloat.
From stdpp Require Import base list strings.
From S2P Require Import Prelude Models Double Json Percentile SymbolScale.
Open Scope Z_scope.

(** * The decoder *)

Definition kBidOffset : nat := 0.
Definition kAskOffset : nat := 8.
Definition kTsOffset : nat := 16.
Definition kSymbolOffset : nat := 24.
Definition kSymbolSize : nat := 16.
Definition kPacketSize : nat := 40.

(** A datagram is a list of bytes, each between 0 and 255. *)
Fixpoint little_endian (bytes : list Z) : Z :=
  match bytes with [] => 0 | b :: bytes => b + 256 * little_endian bytes end.

(** [std::bit_cast<double>] of 64 bits. *)
Definition double_of_bits (bits : Z) : double :=
  let sign := Z.testbit bits 63 in
  let exponent := Z.land (Z.shiftr bits 52) 2047 in
  let fraction := Z.land bits (2 ^ 52 - 1) in
  if exponent =? 2047 then (if fraction =? 0 then S754_infinity sign else S754_nan)
  else
    match (if exponent =? 0 then fraction else fraction + 2 ^ 52) with
    | Zpos m => S754_finite sign m (Z.max exponent 1 - 1075)
    | _ => S754_zero sign
    end.

(** [readLE<double>] and [readLE<std::int64_t>] at an offset. *)
Definition read_double (offset : nat) (bytes : list Z) : double :=
  double_of_bits (little_endian (take 8 (drop offset bytes))).
Definition read_int64 (offset : nat) (bytes : list Z) : Z :=
  i64 (little_endian (take 8 (drop offset bytes))).

Definition kMaxTsMicros : Z := 4102444800000000.

(** The bytes up to the first NUL. *)
Fixpoint until_nul (bytes : list Z) : list Ascii.ascii :=
  match bytes with
  | [] => []
  | b :: bytes => if b =? 0 then [] else char_of b :: until_nul bytes
  end.

Definition tradable (price : double) : bool := dbl_isfinite price && negb (dbl_leb price dbl_zero).

(** The price in points. [std::llround] leaves a result outside 64 bits
    unspecified. *)
Definition scale_price (multiplier : Z) (price : double) : result (option Z) :=
  match dbl_llround (dbl_mul price (dbl_of_Z multiplier)) with
  | None => Throw UndefinedRead
  | Some scaled =>
      Ok (if (scaled <? INT32_MIN) || (INT32_MAX <? scaled) then None else Some scaled)
  end.

Definition decodeTick (bytes : list Z) : result (option PriceData) :=
  if negb (length bytes =? kPacketSize)%nat then Ok None
  else
    let bid := read_double kBidOffset bytes in
    let ask := read_double kAskOffset bytes in
    let tsMicros := read_int64 kTsOffset bytes in
    if negb (tradable bid && tradable ask) then Ok None
    else if (tsMicros <=? 0) || (kMaxTsMicros <? tsMicros) then Ok None
    else
      let symbol := text (until_nul (take kSymbolSize (drop kSymbolOffset bytes))) in
      let multiplier := getPriceScale symbol in
      if multiplier =? kUnknown then Ok None
      else
        bidScaled <~ scale_price multiplier bid ;
        askScaled <~ scale_price multiplier ask ;
        Ok (match bidScaled, askScaled with
            | Some bid, Some ask => Some (mkPriceData ask bid tsMicros symbol)
            | _, _ => None
            end).

(** * The documented layout, as a sender writes it *)

Fixpoint to_little_endian (n : nat) (v : Z) : list Z :=
  match n with O => [] | S n => v mod 256 :: to_little_endian n (v / 256) end.

Definition padded_symbol (symbol : string) : list Z :=
  let bytes := map byte_of (chars symbol) in
  (bytes ++ replicate (kSymbolSize - length bytes) 0)%list.

Definition packet (bid_bits ask_bits ts : Z) (symbol : string) : list Z :=
  (to_little_endian 8 bid_bits ++ to_little_endian 8 ask_bits ++ to_little_endian 8 ts ++ padded_symbol symbol)%list.

(** * Facts *)

Lemma to_little_endian_length n v : length (to_little_endian n v) = n.
Proof. revert v. induction n as [|n IH]; intros v; cbn; [done|now rewrite IH]. Qed.

Lemma little_endian_round_trip n : forall v, 0 <= v < 256 ^ Z.of_nat n -> little_endian (to_little_endian n v) = v.
Proof.
  induction n as [|n IH]; intros v Hv; [cbn in *; lia|].
  cbn [to_little_endian little_endian]. rewrite Nat2Z.inj_succ, Z.pow_succ_r in Hv by lia.
  rewrite IH by (Z.div_mod_to_equations; nia). pose proof (Z.div_mod v 256). lia.
Qed.

Lemma until_nul_padded l n :
  Forall (fun c => byte_of c <> 0) l -> until_nul (map byte_of l ++ replicate n 0) = l.
Proof.
  induction 1 as [|c l Hc _ IH]; cbn [map app until_nul]; [now destruct n|].
  rewrite (proj2 (Z.eqb_neq _ _)) by done. now rewrite char_of_byte_of, IH.
Qed.

(** A normal double whose product with [s] is within a quarter point of [p]. *)
Definition quotes (s p : Z) (v : double) : Prop :=
  exists m e, v = S754_finite false m e /\ 2 ^ 52 <= Zpos m < 2 ^ 53 /\ -1000 <= e < 0 /\
    Z.abs (4 * (Zpos m * s) - 4 * (p * 2 ^ (- e))) <= 2 ^ (- e).

Lemma llround_near m e p :
  e < 0 -> 0 <= p <= INT64_MAX -> Z.abs (4 * Zpos m - 4 * (p * 2 ^ (- e))) < 2 * 2 ^ (- e) ->
  dbl_llround (S754_finite false m e) = Some p.
Proof.
  intros He Hp Hm. unfold dbl_llround. rewrite (proj2 (Z.leb_gt 0 e)) by lia.
  assert (2 ^ (- e) = 2 * 2 ^ (- e - 1)) as E2 by (rewrite <- Z.pow_succ_r by lia; f_equal; lia).
  assert (0 < 2 ^ (- e - 1)) as Hh by (apply Z.pow_pos_nonneg; lia).
  assert ((Zpos m + 2 ^ (- e - 1)) / 2 ^ (- e) = p) as ->.
  { symmetry. apply (Z.div_unique _ _ _ (Zpos m + 2 ^ (- e - 1) - p * 2 ^ (- e))); lia. }
  rewrite (proj2 (Z.leb_le _ _)), (proj2 (Z.leb_le _ _)) by lia. done.
Qed.

Lemma digits_product m sig :
  2 ^ 52 <= Zpos m < 2 ^ 53 -> 2 ^ 52 <= Zpos sig < 2 ^ 53 -> 105 <= Zpos (digits2_pos (m * sig)) <= 106.
Proof.
  intros Hm Hs. pose proof (digits2_pos_bounds (m * sig)) as Hb.
  assert (2 ^ 104 <= Zpos (m * sig) < 2 ^ 106) as HP.
  { rewrite Pos2Z.inj_mul. change (2 ^ 104) with (2 ^ 52 * 2 ^ 52). change (2 ^ 106) with (2 ^ 53 * 2 ^ 53). nia. }
  set (d := Zpos (digits2_pos (m * sig))) in *. split.
  - destruct (Z.leb_spec 105 d) as [|H]; [done|]. pose proof (Z.pow_le_mono_r 2 d 104). lia.
  - destruct (Z.leb_spec d 106) as [|H]; [done|]. pose proof (Z.pow_le_mono_r 2 106 (d - 1)). lia.
Qed.

(** A quote within a quarter point comes out as that point. *)
Lemma scale_quote s p v :
  0 < s < 2 ^ 20 -> 0 < p <= INT32_MAX -> quotes s p v -> scale_price s v = Ok (Some p) /\ tradable v = true.
Proof.
  intros Hs Hp (m & e & -> & Hm & He & Hq). split; [|done].
  destruct s as [|n|n]; [lia| |lia].
  pose proof (int_significand_value n ltac:(lia)) as Hv.
  pose proof (int_significand_digits n ltac:(lia)) as Hd.
  pose proof (digits_of_int n ltac:(lia)) as Hd53.
  unfold scale_price. rewrite dbl_of_Z_pos by lia. unfold dbl_mul, SFmul. cbn [xorb].
  set (sig := int_significand n) in *. set (ds := Zpos (digits2_pos n)) in *.
  pose proof (digits2_pos_bounds sig) as Hsb. rewrite Hd in Hsb. change (53 - 1) with 52 in Hsb.
  pose proof (digits_product m sig Hm Hsb) as HD.
  pose proof (digits2_pos_bounds (m * sig)) as [HDl _].
  assert (Zpos (m * sig) = Zpos m * Zpos n * 2 ^ (53 - ds)) as HP by (rewrite Pos2Z.inj_mul, Hv; ring).
  set (d := Zpos (digits2_pos (m * sig))) in *.
  assert (0 < 2 ^ (53 - ds)) as Hc by (apply Z.pow_pos_nonneg; lia).
  assert (0 < 2 ^ (- e)) as Hpe by (apply Z.pow_pos_nonneg; lia).
  assert (d <= 85 - e - ds) as Hdu.
  { assert (2 ^ (d - 1) < 2 ^ (32 + - e + (53 - ds))) as Hlt.
    { eapply Z.le_lt_trans; [exact HDl|]. rewrite HP, !Z.pow_add_r by lia.
      apply Z.mul_lt_mono_pos_r; [done|]. unfold INT32_MAX in Hp. change (2 ^ 32) with 4294967296. nia. }
    apply Z.pow_lt_mono_r_iff in Hlt; lia. }
  assert (1 <= ds) as Hds1 by (unfold ds; lia).
  destruct (round_long (m * sig) (e + (ds - 53))) as (m' & e' & r & -> & Hm' & He' & Hr); fold d; [lia..|].
  fold d in Hm', He', Hr. set (E := e + (ds - 53) + (d - 53)) in *.
  set (k := d - 53) in *. assert (0 < 2 ^ k) as Hk by (apply Z.pow_pos_nonneg; lia).
  assert (2 ^ (- e) * 2 ^ (53 - ds) = 2 ^ k * 2 ^ (- E)) as Hsplit
    by (rewrite <- !Z.pow_add_r by lia; f_equal; lia).
  assert (Z.abs (4 * Zpos (m * sig) - 4 * (p * (2 ^ k * 2 ^ (- E)))) <= 2 ^ k * 2 ^ (- E)) as HPq.
  { rewrite <- Hsplit, HP. clear - Hq Hc. set (c := 2 ^ (53 - ds)) in *. set (b := 2 ^ (- e)) in *.
    clearbody b c. nia. }
  assert (4 <= 2 ^ (- E)) as H4 by (change 4 with (2 ^ 2); apply Z.pow_le_mono_r; lia).
  assert (Z.abs (4 * r - 4 * (p * 2 ^ (- E))) < 2 * 2 ^ (- E)) as Hnear.
  { clear - HPq Hr Hk H4. set (u := 2 ^ k) in *. set (w := 2 ^ (- E)) in *. set (P := Zpos (m * sig)) in *.
    clearbody u w P. nia. }
  assert (0 < 2 ^ (e' - E)) as Hee by (apply Z.pow_pos_nonneg; lia).
  assert (2 ^ (- E) = 2 ^ (- e') * 2 ^ (e' - E)) as HE by (rewrite <- Z.pow_add_r by lia; f_equal; lia).
  rewrite (llround_near m' e' p); [|lia|unfold INT32_MAX, INT64_MAX in *; lia|].
  - rewrite (proj2 (Z.ltb_ge _ _)), (proj2 (Z.ltb_ge _ _)) by (unfold INT32_MIN, INT32_MAX in *; lia). done.
  - rewrite HE, <- Hm' in Hnear. clear - Hnear Hee. set (u := 2 ^ (e' - E)) in *. set (w := 2 ^ (- e')) in *.
    clearbody u w. nia.
Qed.

(** Every symbol of the table fits its field and holds no NUL. *)
Lemma table_symbol_fits symbol :
  getPriceScale symbol <> kUnknown ->
  0 < getPriceScale symbol < 2 ^ 20 /\ (length (chars symbol) <= kSymbolSize)%nat /\
  Forall (fun c => byte_of c <> 0) (chars symbol).
Proof.
  unfold getPriceScale. destruct (findEntry symbol) as [entry|] eqn:E; [|done]. intros _.
  apply findEntry_in in E as [Hin <-]. apply list_elem_of_In in Hin.
  assert (forallb (fun e => (0 <? priceScale e) && (priceScale e <? 2 ^ 20) &&
    (length (chars (entry_symbol e)) <=? kSymbolSize)%nat &&
    forallb (fun c => negb (byte_of c =? 0)) (chars (entry_symbol e))) kTable = true) as Hall by (vm_compute; reflexivity).
  rewrite forallb_forall in Hall. pose proof (Hall entry Hin) as [[[H1 H2]%andb_true_iff H3]%andb_true_iff H4]%andb_true_iff.
  apply Z.ltb_lt in H1, H2. apply Nat.leb_le in H3. rewrite forallb_forall in H4.
  split_and!; [lia..|]. apply Forall_forall. intros c Hc%list_elem_of_In.
  now apply Z.eqb_neq, negb_true_iff, H4.
Qed.

Lemma packet_fields bid_bits ask_bits ts symbol :
  (length (chars symbol) <= kSymbolSize)%nat ->
  let p := packet bid_bits ask_bits ts symbol in
  length p = kPacketSize /\
  take 8 (drop kBidOffset p) = to_little_endian 8 bid_bits /\
  take 8 (drop kAskOffset p) = to_little_endian 8 ask_bits /\
  take 8 (drop kTsOffset p) = to_little_endian 8 ts /\
  take kSymbolSize (drop kSymbolOffset p) = padded_symbol symbol.
Proof.
  intros Hl p. unfold p, packet.
  assert (length (padded_symbol symbol) = kSymbolSize) as Hp
    by (unfold padded_symbol; rewrite length_app, length_replicate, length_map; lia).
  pose proof (to_little_endian_length 8 bid_bits) as L1. pose proof (to_little_endian_length 8 ask_bits) as L2.
  pose proof (to_little_endian_length 8 ts) as L3.
  unfold kPacketSize, kBidOffset, kAskOffset, kTsOffset, kSymbolOffset, kSymbolSize in *.
  split_and!.
  - rewrite !length_app. lia.
  - rewrite drop_0. now rewrite take_app_length'.
  - rewrite drop_app_length' by done. now rewrite take_app_length'.
  - rewrite (assoc_L (++)), drop_app_length' by (rewrite length_app; lia). now rewrite take_app_length'.
  - rewrite !(assoc_L (++)), drop_app_length' by (rewrite !length_app; lia). apply take_ge. lia.
Qed.

(** C30: a tick's datagram decodes to the tick that was quoted. The documented
    forty bytes carrying two positive quotes of a known symbol, each within a
    quarter of a point of a number of points that 32 bits hold - as the nearest
    double to a decimal quote is - decode to exactly those points, with the
    timestamp and the symbol intact: no decimal is lost to the double that
    carries it. *)
Theorem tick_packet_exact bid_bits ask_bits ts symbol bid_points ask_points :
  0 <= bid_bits < 2 ^ 64 -> 0 <= ask_bits < 2 ^ 64 -> 0 < ts <= kMaxTsMicros ->
  getPriceScale symbol <> kUnknown ->
  0 < bid_points <= INT32_MAX -> 0 < ask_points <= INT32_MAX ->
  quotes (getPriceScale symbol) bid_points (double_of_bits bid_bits) ->
  quotes (getPriceScale symbol) ask_points (double_of_bits ask_bits) ->
  decodeTick (packet bid_bits ask_bits ts symbol) = Ok (Some (mkPriceData ask_points bid_points ts symbol)).
Proof.
  intros Hb Ha Hts Hsym Hbp Hap Hbq Haq.
  destruct (table_symbol_fits symbol Hsym) as (Hs & Hlen & Hnul).
  destruct (packet_fields bid_bits ask_bits ts symbol Hlen) as (L & E1 & E2 & E3 & E4).
  destruct (scale_quote _ _ _ Hs Hbp Hbq) as [Sb Tb]. destruct (scale_quote _ _ _ Hs Hap Haq) as [Sa Ta].
  assert (0 <= ts < 2 ^ 63) as Hts' by (unfold kMaxTsMicros in Hts; lia).
  unfold decodeTick, read_double, read_int64. cbv zeta. rewrite L, Nat.eqb_refl, E1, E2, E3, E4. cbn [negb].
  rewrite !little_endian_round_trip by (change (256 ^ Z.of_nat 8) with (2 ^ 64); lia).
  rewrite i64_id by (unfold in_i64; lia). rewrite Tb, Ta. cbn [andb negb].
  rewrite (proj2 (Z.leb_gt ts 0)), (proj2 (Z.ltb_ge kMaxTsMicros ts)) by lia. cbn [orb].
  unfold padded_symbol. rewrite until_nul_padded, text_chars by done.
  rewrite (proj2 (Z.eqb_neq _ _)) by exact Hsym. rewrite Sb. cbn [result_bind]. rewrite Sa. reflexivity.
Qed.

(** 1.10000 and 1.10001, as the nearest doubles. *)
Lemma tick_packet_exact_witness :
  decodeTick (packet 0x3FF199999999999A 0x3FF199A415F45E0B 1719360000000000 "EURUSD") =
  Ok (Some (mkPriceData 110001 110000 1719360000000000 "EURUSD")).
Proof.
  apply tick_packet_exact.
  - lia.
  - lia.
  - unfold kMaxTsMicros. lia.
  - vm_compute. discriminate.
  - unfold INT32_MAX. lia.
  - unfold INT32_MAX. lia.
  - exists 4953959590107546%positive, (-52). split; [vm_compute; reflexivity|].
    split; [lia|]. split; [lia|]. vm_compute. discriminate.
  - exists 4954004626103819%positive, (-52). split; [vm_compute; reflexivity|].
    split; [lia|]. split; [lia|]. vm_compute. discriminate.
Defined.

(** A positive price below half a point passes the zero check and decodes to
    zero points. *)
Example tiny_price_decodes_to_zero :
  decodeTick (packet 0x3EB0C6F7A0B5ED8D 0x3FF199A415F45E0B 1719360000000000 "EURUSD") =
  Ok (Some (mkPriceData 110001 0 1719360000000000 "EURUSD")).
Proof. vm_compute. reflexivity. Qed.

(** * What a decoded tick satisfies *)

Lemma tradable_positive v : tradable v = true -> exists m e, v = S754_finite false m e.
Proof.
  unfold tradable. destruct v as [s|s| |s m e]; try done; try (now destruct s).
  destruct s; [done|]. intros _. eauto.
Qed.

Lemma scale_nonnegative s v z :
  0 < s < 2 ^ 20 -> tradable v = true -> scale_price s v = Ok (Some z) -> 0 <= z <= INT32_MAX.
Proof.
  intros Hs (m & e & ->)%tradable_positive. unfold scale_price.
  destruct s as [|n|n]; [lia| |lia]. rewrite dbl_of_Z_pos by lia. unfold dbl_mul, SFmul. cbn [xorb].
  destruct (dbl_llround _) as [r|] eqn:E; [|done].
  destruct (Z.ltb_spec r INT32_MIN), (Z.ltb_spec INT32_MAX r); cbn [orb]; try done. intros [= <-].
  split; [|done]. revert E. unfold binary_round_aux.
  destruct (shr_fexp _ _ _ _ _) as [r1 e1]. destruct (shr_fexp _ _ _ _ _) as [r2 e2].
  destruct (shr_m r2) as [|q|q]; cbn [dbl_llround]; [now intros [= <-]| |done].
  destruct (e2 <=? _); cbn [dbl_llround]; [|done].
  set (mag := if 0 <=? e2 then _ else _).
  assert (0 <= mag) as Hmag.
  { unfold mag. destruct (Z.leb_spec 0 e2).
    - assert (0 < 2 ^ e2) by (apply Z.pow_pos_nonneg; lia). nia.
    - assert (0 < 2 ^ (- e2)) by (apply Z.pow_pos_nonneg; lia).
      assert (0 <= 2 ^ (- e2 - 1)) by (apply Z.pow_nonneg; lia). apply Z.div_pos; lia. }
  destruct (_ && _); [now intros [= <-]|done].
Qed.

Lemma decoded_sound bytes t :
  decodeTick bytes = Ok (Some t) ->
  getPriceScale (symbol t) <> kUnknown /\ 0 < timestamp t <= kMaxTsMicros /\
  0 <= bid t <= INT32_MAX /\ 0 <= ask t <= INT32_MAX.
Proof.
  unfold decodeTick. destruct (negb (_ =? _)%nat); [done|]. cbv zeta.
  destruct (tradable (read_double kBidOffset bytes)) eqn:Tb; [|done].
  destruct (tradable (read_double kAskOffset bytes)) eqn:Ta; [|done]. cbn [andb negb].
  destruct (Z.leb_spec (read_int64 kTsOffset bytes) 0); [done|].
  destruct (Z.ltb_spec kMaxTsMicros (read_int64 kTsOffset bytes)); [done|]. cbn [orb].
  set (sym := text _). destruct (Z.eqb_spec (getPriceScale sym) kUnknown) as [|Hk]; [done|].
  destruct (table_symbol_fits sym Hk) as (Hs & _).
  destruct (scale_price _ (read_double kBidOffset bytes)) as [[b|]|] eqn:Eb; cbn [result_bind]; [| |done];
    (destruct (scale_price _ (read_double kAskOffset bytes)) as [[a|]|] eqn:Ea; cbn [result_bind]; try done).
  intros [= <-]. cbn [Models.symbol Models.timestamp Models.bid Models.ask].
  pose proof (scale_nonnegative _ _ _ Hs Tb Eb). pose proof (scale_nonnegative _ _ _ Hs Ta Ea).
  split_and!; (done || lia).
Qed.
