(* ===== verification/Ingest.v ===== *)
(** ingest/ and shared/net/udpReceiver.cpp: the process that receives tick
    datagrams and writes them to QuestDB - the receive loop, the datagram's
    line, the bounded queue and its writer thread. Boost.Asio and libcurl are
    the labels of the step relation: what a receive completes with, when a
    signal arrives, what a POST returns. *)
From Stdlib Require Import ZArith Lia.
From stdpp Require Import base list strings.
From S2P Require Import Prelude Models Double Json JsonFloat StdText Env Percentile SymbolScale TickPacket.
Open Scope Z_scope.

(** * Ports *)

(** [std::from_chars] to an [unsigned]: digits, no sign. *)
Definition from_chars_unsigned (l : list Ascii.ascii) : option (Z * list Ascii.ascii) :=
  match span_digits l with
  | ([], _) => None
  | (ds, rest) => let value := digits_value ds in if value <? 2 ^ 32 then Some (value, rest) else None
  end.

Definition parsePort (text : string) (fallback : Z) : Z :=
  match from_chars_unsigned (chars text) with
  | Some (value, _) => if (value =? 0) || (65535 <? value) then fallback else value
  | None => fallback
  end.

Definition kSave : Z := 11111.

Definition bind_port {E : Environment} (argv : list string) : Z :=
  let bindPort := parsePort (getOr "INGEST_UDP_PORT" "") kSave in
  match argv !! 2%nat with Some arg => parsePort arg bindPort | None => bindPort end.

Definition ilp_port {E : Environment} : Z := parsePort (getOr "QUESTDB_ILP_PORT" "") 9000.

(** * The queue and its writer thread: questdbIngestClient.cpp *)

Inductive PostResult : Type := TransportError | Response (status : Z).

Definition persisted (r : PostResult) : bool :=
  match r with TransportError => false | Response status => (200 <=? status) && (status <? 300) end.

(** Where the writer thread is: at the loop's test, in the timed wait, before
    taking a batch, in the POST of one, or past the last drain. *)
Inductive Pc : Type :=
  | Testing
  | Waiting
  | Draining (final : bool)
  | Posting (final : bool) (body : string) (lineCount : Z)
  | Exited.

#[global] Instance Pc_eq_dec : EqDecision Pc.
Proof. solve_decision. Defined.

Record Impl : Type := mkImpl {
  batchSize : Z;
  maxQueue : Z;
  curl : bool;
  queue : list string;
  droppedTotal : Z;
  failedTotal : Z;
  stop_requested : bool;
  pc : Pc }.

(** What the outside sees of a step. *)
Inductive Obs : Type :=
  | Shed (line : string)
  | Warned (dropped : Z)
  | Notified
  | Took (lines : list string)
  | Posted (body : string) (lineCount : Z) (kept : bool).

Definition newImpl (batch maxQueueLines : Z) (handle : bool) : Impl :=
  mkImpl batch maxQueueLines handle [] 0 0 false Testing.

Definition set_pc (p : Pc) (w : Impl) : Impl :=
  mkImpl (batchSize w) (maxQueue w) (curl w) (queue w) (droppedTotal w) (failedTotal w) (stop_requested w) p.

Definition request_stop (w : Impl) : Impl :=
  mkImpl (batchSize w) (maxQueue w) (curl w) (queue w) (droppedTotal w) (failedTotal w) true (pc w).

Definition size_of (l : list string) : Z := Z.of_nat (length l).

(** A full queue loses its oldest line; popping an empty one is undefined. *)
Definition enqueueLine (line : string) (w : Impl) : result (Impl * list Obs) :=
  let push (q : list string) (dropped : Z) (obs : list Obs) :=
    let q := (q ++ [line])%list in
    Ok (mkImpl (batchSize w) (maxQueue w) (curl w) q dropped (failedTotal w) (stop_requested w) (pc w),
        obs ++ (if batchSize w <=? size_of q then [Notified] else []))%list in
  if maxQueue w <=? size_of (queue w) then
    match queue w with
    | [] => Throw UndefinedRead
    | oldest :: q =>
        let dropped := u64 (droppedTotal w + 1) in
        push q dropped
          (Shed oldest :: (if (dropped =? 1) || (negb (dropped =? 0) && (dropped mod 100000 =? 0)) then [Warned dropped] else []))
    end
  else push (queue w) (droppedTotal w) [].

Definition body_of (lines : list string) : string := foldr String.append EmptyString lines.

(** Up to a batch off the front; an empty body ends the drain. *)
Definition drain (final : bool) (w : Impl) : Impl * list Obs :=
  let n := Z.min (size_of (queue w)) (batchSize w) in
  let lines := take (Z.to_nat n) (queue w) in
  let body := body_of lines in
  (mkImpl (batchSize w) (maxQueue w) (curl w) (drop (Z.to_nat n) (queue w)) (droppedTotal w) (failedTotal w)
     (stop_requested w)
     (if String.eqb body "" then (if final then Exited else Testing) else Posting final body n),
   [Took lines]).

(** The lines of a batch that did not persist are counted as failed. *)
Definition post (final : bool) (body : string) (lineCount : Z) (r : PostResult) (w : Impl) : Impl * list Obs :=
  let kept := curl w && persisted r in
  (mkImpl (batchSize w) (maxQueue w) (curl w) (queue w) (droppedTotal w)
     (if kept then failedTotal w else u64 (failedTotal w + lineCount)) (stop_requested w)
     (if final then Draining true else Testing),
   [Posted body lineCount kept]).

(** One step of [workerLoop]. The wait ends on a line, a stop or its timeout, so
    at any moment. *)
Definition worker_step (r : PostResult) (w : Impl) : option (Impl * list Obs) :=
  match pc w with
  | Testing => Some (set_pc (if stop_requested w then Draining true else Waiting) w, [])
  | Waiting => Some (set_pc (Draining false) w, [])
  | Draining final => Some (drain final w)
  | Posting final body lineCount => Some (post final body lineCount r w)
  | Exited => None
  end.

(** * The receive loop: udpReceiver.cpp *)

Inductive Completion : Type := Received (bytes : list Z) | OperationAborted | SocketError.

Record Receiver : Type := mkReceiver { socket_open : bool; armed : bool; running : bool }.

Definition opened (bound : bool) : Receiver := mkReceiver bound bound bound.

Definition rearmed (c : Completion) (u : Receiver) : Receiver :=
  match c with
  | OperationAborted => mkReceiver (socket_open u) false (running u)
  | _ => mkReceiver (socket_open u) (socket_open u) (running u)
  end.

Definition shutdown (u : Receiver) : Receiver := mkReceiver false (armed u) false.

(** * The command: ingestCommand.cppm *)

(** The line-protocol row of a tick. *)
Definition ilp_line (t : PriceData) : string :=
  let tsNanos := i64 (timestamp t * 1000) in
  String.append (symbol t) (String.append " ask=" (String.append (to_string (ask t)) (String.append "i,bid="
    (String.append (to_string (bid t)) (String.append "i " (String.append (to_string tsNanos) (text [char_of 10]))))))).

Record Ingest : Type := mkIngest {
  receiver : Receiver;
  received : Z;
  dropped : Z;
  writer : Impl }.

Definition on_datagram (bytes : list Z) (s : Ingest) : result (Ingest * list Obs) :=
  tick <~ decodeTick bytes ;
  match tick with
  | None => Ok (mkIngest (receiver s) (received s) (u64 (dropped s + 1)) (writer s), [])
  | Some tick =>
      '(w, obs) <~ enqueueLine (ilp_line tick) (writer s) ;
      Ok (mkIngest (receiver s) (u64 (received s + 1)) (dropped s) w, obs)
  end.

Inductive Label : Type :=
  | Complete (c : Completion)
  | Interrupt
  | Leave
  | Worker (r : PostResult).

Definition with_receiver (u : Receiver) (s : Ingest) : Ingest := mkIngest u (received s) (dropped s) (writer s).
Definition with_writer (w : Impl) (s : Ingest) : Ingest := mkIngest (receiver s) (received s) (dropped s) w.

(** [None] when the step cannot happen. The writer is destroyed, and told to
    stop, when [run] returns: after the receive loop has ended. *)
Definition step (l : Label) (s : Ingest) : result (option (Ingest * list Obs)) :=
  match l with
  | Complete c =>
      if running (receiver s) && armed (receiver s) then
        '(s', obs) <~ match c with Received bytes => on_datagram bytes s | _ => Ok (s, []) end ;
        Ok (Some (with_receiver (rearmed c (receiver s')) s', obs))
      else Ok None
  | Interrupt =>
      Ok (if running (receiver s) then Some (with_receiver (shutdown (receiver s)) s, []) else None)
  | Leave =>
      Ok (if running (receiver s) || stop_requested (writer s) then None
          else Some (with_writer (request_stop (writer s)) s, []))
  | Worker r =>
      Ok (match worker_step r (writer s) with Some (w, obs) => Some (with_writer w s, obs) | None => None end)
  end.

Definition kBatchSize : Z := 1000.
Definition kMaxQueue : Z := 1000000.

Definition ingest_start (bound handle : bool) : Ingest :=
  mkIngest (opened bound) 0 0 (newImpl kBatchSize kMaxQueue handle).

Definition exit_code (bound : bool) : Z := if bound then 0 else 1.

(** A schedule, and everything it shows. *)
Inductive steps : Ingest -> list Label -> list Obs -> Ingest -> Prop :=
  | steps_done s : steps s [] [] s
  | steps_more s ls obs s1 l o s2 :
      steps s ls obs s1 -> step l s1 = Ok (Some (s2, o)) -> steps s (ls ++ [l]) (obs ++ o) s2.

(** * What a schedule did *)

Definition shed (o : Obs) : list string := match o with Shed line => [line] | _ => [] end.
Definition taken (o : Obs) : list string := match o with Took lines => lines | _ => [] end.

(** The lines that left the queue, in the order they left it. *)
Definition removed (obs : list Obs) : list string := flat_map (fun o => shed o ++ taken o)%list obs.

Definition batch_of (lines : list string) : list (string * Z) :=
  if String.eqb (body_of lines) "" then [] else [(body_of lines, size_of lines)].
Definition batches (obs : list Obs) : list (string * Z) :=
  flat_map (fun o => match o with Took lines => batch_of lines | _ => [] end) obs.
Definition posts (obs : list Obs) : list (string * Z) :=
  flat_map (fun o => match o with Posted body n _ => [(body, n)] | _ => [] end) obs.
Definition in_flight (p : Pc) : list (string * Z) :=
  match p with Posting _ body n => [(body, n)] | _ => [] end.

Definition total (weight : Obs -> Z) (obs : list Obs) : Z := foldr (fun o n => weight o + n) 0 obs.
Definition shed_lines : list Obs -> Z := total (fun o => size_of (shed o)).
Definition kept_lines : list Obs -> Z := total (fun o => match o with Posted _ n true => n | _ => 0 end).
Definition failed_lines : list Obs -> Z := total (fun o => match o with Posted _ n false => n | _ => 0 end).
Definition flying_lines (p : Pc) : Z := match p with Posting _ _ n => n | _ => 0 end.

(** The ticks of the datagrams handled, and how many datagrams held none. *)
Definition tick_of (l : Label) : list PriceData :=
  match l with
  | Complete (Received bytes) => match decodeTick bytes with Ok (Some t) => [t] | _ => [] end
  | _ => []
  end.
Definition ticks_of (labels : list Label) : list PriceData := flat_map tick_of labels.
Definition waste_of (l : Label) : list Label :=
  match l with
  | Complete (Received bytes) => match decodeTick bytes with Ok None => [l] | _ => [] end
  | _ => []
  end.
Definition wasted (labels : list Label) : Z := Z.of_nat (length (flat_map waste_of labels)).

(** * Facts *)

Lemma total_app weight l k : total weight (l ++ k) = total weight l + total weight k.
Proof. induction l as [|o l IH]; cbn; [done|]. fold (total weight (l ++ k)) (total weight l). lia. Qed.

Lemma u64_add a b : u64 (u64 a + b) = u64 (a + b).
Proof. apply Zplus_mod_idemp_l. Qed.

Lemma size_of_app l k : size_of (l ++ k) = size_of l + size_of k.
Proof. unfold size_of. rewrite length_app. lia. Qed.

Lemma append_nonempty s c t : String.append s (String.String c t) <> EmptyString.
Proof. now destruct s. Qed.

Lemma ilp_line_nonempty t : ilp_line t <> EmptyString.
Proof. apply append_nonempty. Qed.

Lemma body_of_empty lines :
  Forall (fun line => line <> EmptyString) lines -> String.eqb (body_of lines) "" = true -> lines = [].
Proof. destruct 1 as [|line lines Hl _]; [done|]. cbn. now destruct line. Qed.

(** An operation that takes [new] lines in: what it adds to each account. *)
Record moves (new : list string) (w : Impl) (o : list Obs) (w' : Impl) : Prop := {
  mv_lines : (queue w ++ new)%list = (removed o ++ queue w')%list;
  mv_batches : (in_flight (pc w) ++ batches o)%list = (posts o ++ in_flight (pc w'))%list;
  mv_count : flying_lines (pc w) + size_of (queue w) + size_of new =
             shed_lines o + kept_lines o + failed_lines o + flying_lines (pc w') + size_of (queue w');
  mv_dropped : forall n, droppedTotal w = u64 n -> droppedTotal w' = u64 (n + shed_lines o);
  mv_failed : forall n, failedTotal w = u64 n -> failedTotal w' = u64 (n + failed_lines o);
  mv_bound : size_of (queue w) <= maxQueue w -> size_of (queue w') <= maxQueue w';
  mv_sizes : batchSize w' = batchSize w /\ maxQueue w' = maxQueue w }.

Ltac account :=
  split; unfold shed_lines, kept_lines, failed_lines;
  cbn [queue pc droppedTotal failedTotal maxQueue batchSize removed batches posts shed taken total foldr flat_map app
       in_flight flying_lines];
  rewrite ?app_nil_r, ?size_of_app; change (size_of []) with 0.

Ltac balance := cbn [flying_lines in_flight]; try done; try lia; (let m := fresh in intros m ->; rewrite ?u64_add; f_equal; lia).

Lemma enqueue_moves line w w' o :
  0 < maxQueue w -> enqueueLine line w = Ok (w', o) -> moves [line] w o w' /\ pc w' = pc w /\ stop_requested w' = stop_requested w.
Proof.
  intros Hm. unfold enqueueLine. destruct (Z.leb_spec (maxQueue w) (size_of (queue w))) as [Hfull|Hroom].
  - destruct (queue w) as [|oldest q] eqn:Eq; [done|]. intros [= <- <-]. split; [|done].
    assert (size_of (oldest :: q) = 1 + size_of q) as Hq by (unfold size_of; cbn [length]; lia).
    assert (size_of [line] = 1 /\ size_of [oldest] = 1) as [H1 H1'] by done.
    destruct (_ || _), (batchSize w <=? _); account; rewrite ?Eq, ?H1, ?H1' in *; balance.
  - intros [= <- <-]. split; [|done]. assert (size_of [line] = 1) as H1 by done.
    destruct (batchSize w <=? _); account; rewrite ?H1; balance.
Qed.

Lemma worker_moves r w w' o :
  0 <= batchSize w -> Forall (fun line => line <> EmptyString) (queue w) -> worker_step r w = Some (w', o) -> moves [] w o w'.
Proof.
  intros Hb Hne. unfold worker_step.
  destruct (pc w) as [| |final|final body n|] eqn:Epc; intros E; simplify_eq.
  - unfold set_pc. destruct (stop_requested w); account; rewrite ?Epc; balance.
  - unfold set_pc. account; rewrite ?Epc; balance.
  - unfold drain in E. simplify_eq. set (k := Z.to_nat _).
    pose proof (take_drop k (queue w)) as Htd. pose proof (size_of_app (take k (queue w)) (drop k (queue w))) as Hs.
    rewrite Htd in Hs. assert (0 <= size_of (queue w)) as H0 by (unfold size_of; lia).
    assert (size_of (take k (queue w)) = Z.min (size_of (queue w)) (batchSize w)) as Hn
      by (unfold size_of in *; rewrite length_take; lia).
    destruct (String.eqb _ _) eqn:Eb.
    + pose proof (body_of_empty _ (Forall_take _ k _ Hne) Eb) as Et. assert (size_of (take k (queue w)) = 0) as E0 by now rewrite Et.
      destruct final; account; unfold batch_of; rewrite ?Eb, ?Htd, ?Epc in *; cbn [app foldr flat_map length]; balance.
    + destruct final; account; unfold batch_of; rewrite ?Eb, ?Htd, ?Hn, ?Epc in *; cbn [app foldr flat_map length]; balance.
  - unfold post in E. destruct (curl w && persisted r); simplify_eq; destruct final; account; rewrite ?Epc; balance.
Qed.

(** The accounts of a writer that has received [lines]. *)
Record accounts (lines : list string) (obs : list Obs) (w : Impl) : Prop := {
  acc_lines : lines = (removed obs ++ queue w)%list;
  acc_bound : size_of (queue w) <= maxQueue w;
  acc_batches : batches obs = (posts obs ++ in_flight (pc w))%list;
  acc_count : size_of lines = shed_lines obs + kept_lines obs + failed_lines obs + flying_lines (pc w) + size_of (queue w);
  acc_dropped : droppedTotal w = u64 (shed_lines obs);
  acc_failed : failedTotal w = u64 (failed_lines obs) }.

Lemma accounts_move lines obs w new o w' :
  accounts lines obs w -> moves new w o w' -> accounts (lines ++ new) (obs ++ o) w'.
Proof.
  intros [A1 A2 A3 A4 A5 A6] [M1 M2 M3 M4 M5 M6 M7]. split.
  - unfold removed in *. rewrite flat_map_app, A1, <- !app_assoc. now rewrite M1.
  - now apply M6.
  - unfold batches, posts in *. rewrite !flat_map_app, A3, <- !app_assoc. now rewrite M2.
  - unfold shed_lines, kept_lines, failed_lines in *. rewrite !total_app, size_of_app. lia.
  - unfold shed_lines in *. rewrite total_app. now apply M4.
  - unfold failed_lines in *. rewrite total_app. now apply M5.
Qed.

(** The writer's last drain follows a stop, which follows the receive loop. *)
Record reached (labels : list Label) (obs : list Obs) (s : Ingest) : Prop := {
  re_accounts : accounts (map ilp_line (ticks_of labels)) obs (writer s);
  re_received : received s = u64 (Z.of_nat (length (ticks_of labels)));
  re_dropped : dropped s = u64 (wasted labels);
  re_sizes : batchSize (writer s) = kBatchSize /\ maxQueue (writer s) = kMaxQueue;
  re_stop : stop_requested (writer s) = true -> running (receiver s) = false;
  re_final : match pc (writer s) with
             | Draining true | Posting true _ _ => stop_requested (writer s) = true
             | Exited => stop_requested (writer s) = true /\ queue (writer s) = []
             | _ => True
             end }.

Lemma flat_map_one {A B} (f : A -> list B) l x : flat_map f (l ++ [x]) = (flat_map f l ++ f x)%list.
Proof. rewrite flat_map_app. cbn. now rewrite app_nil_r. Qed.

Lemma queue_nonempty labels obs s :
  reached labels obs s -> Forall (fun line => line <> EmptyString) (queue (writer s)).
Proof.
  intros R. pose proof (acc_lines _ _ _ (re_accounts _ _ _ R)) as E.
  assert (Forall (fun line => line <> EmptyString) (map ilp_line (ticks_of labels))) as H.
  { apply Forall_forall. intros line Hl%list_elem_of_In%in_map_iff. destruct Hl as (t & <- & _). apply ilp_line_nonempty. }
  rewrite E in H. now apply Forall_app in H as [_ H].
Qed.

Lemma start_reached bound handle : reached [] [] (ingest_start bound handle).
Proof. now repeat split. Qed.

Lemma worker_final r w w' o :
  worker_step r w = Some (w', o) -> 0 < batchSize w -> Forall (fun line => line <> EmptyString) (queue w) ->
  stop_requested w' = stop_requested w /\
  (match pc w with Draining true | Posting true _ _ => stop_requested w = true | _ => True end ->
   match pc w' with
   | Draining true | Posting true _ _ => stop_requested w' = true
   | Exited => stop_requested w' = true /\ queue w' = []
   | _ => True
   end).
Proof.
  intros E Hb Hne. unfold worker_step in E. destruct (pc w) as [| |final|final body n|]; simplify_eq.
  - split; [done|]. intros _. cbn. now destruct (stop_requested w).
  - done.
  - unfold drain in E. simplify_eq. split; [done|]. cbn.
    destruct (String.eqb _ _) eqn:Eb; destruct final; try done. intros H. split; [done|].
    pose proof (body_of_empty _ (Forall_take _ _ _ Hne) Eb) as Et.
    assert (length (take (Z.to_nat (size_of (queue w) `min` batchSize w)) (queue w)) = O) as E0 by now rewrite Et.
    rewrite length_take in E0. unfold size_of in E0. destruct (queue w); [now rewrite drop_nil|].
    cbn [length] in E0. lia.
  - unfold post in E. simplify_eq. split; [done|]. cbn. now destruct final.
Qed.

Lemma on_datagram_reached labels obs s bytes s' o u :
  reached labels obs s -> running (receiver s) = true -> on_datagram bytes s = Ok (s', o) ->
  running u = running (receiver s) -> receiver s' = receiver s ->
  reached (labels ++ [Complete (Received bytes)]) (obs ++ o) (with_receiver u s').
Proof.
  intros [A R1 R2 R3 R4 R5] Hrun E Hu Hrec. unfold on_datagram in E.
  destruct (decodeTick bytes) as [[t|]|] eqn:Ed; cbn [result_bind] in E; [| |done].
  - destruct (enqueueLine (ilp_line t) (writer s)) as [[w o1]|] eqn:Eq; [|done]. cbn [result_bind] in E. simplify_eq.
    destruct R3 as [Hb Hm]. destruct (enqueue_moves _ _ _ _ ltac:(rewrite Hm; done) Eq) as (M & Hpc & Hst).
    pose proof (mv_sizes _ _ _ _ M) as [Hb' Hm'].
    assert (stop_requested (writer s) = false) as Hs by (destruct (stop_requested (writer s)); [now rewrite R4 in Hrun|done]).
    split; cbn; unfold ticks_of, wasted in *; rewrite ?flat_map_one; cbn [tick_of waste_of]; rewrite ?Ed.
    + rewrite map_app. now apply accounts_move with (writer s).
    + rewrite R1, u64_add, length_app. f_equal. cbn. lia.
    + now rewrite app_nil_r.
    + now rewrite Hb', Hm'.
    + rewrite Hst, Hs. done.
    + rewrite Hpc, Hst, Hs in *. destruct (pc (writer s)) as [| |[]|[]|]; try done. now destruct R5.
  - simplify_eq. split; cbn; unfold ticks_of, wasted in *; rewrite ?flat_map_one; cbn [tick_of waste_of]; rewrite ?Ed, ?app_nil_r; try done.
    + rewrite R2, u64_add, length_app. f_equal. cbn. lia.
    + intros H. now rewrite Hu, R4.
Qed.

Lemma step_reached labels obs s l s' o :
  reached labels obs s -> step l s = Ok (Some (s', o)) -> reached (labels ++ [l]) (obs ++ o) s'.
Proof.
  intros R E. destruct l as [c| | |r]; cbn [step] in E.
  - destruct (running (receiver s)) eqn:Hrun; [|done]. destruct (armed (receiver s)); [|done]. cbn [andb] in E.
    assert (forall c', running (rearmed c' (receiver s)) = running (receiver s)) as Hre by now destruct c'.
    destruct c as [bytes| |]; cbn [result_bind] in E.
    + destruct (on_datagram bytes s) as [[s1 o1]|] eqn:Eo; [|done]. cbn [result_bind] in E. simplify_eq.
      assert (receiver s1 = receiver s) as Hrec.
      { unfold on_datagram in Eo. destruct (decodeTick bytes) as [[t|]|]; cbn [result_bind] in Eo; [| |done];
          [destruct (enqueueLine _ _) as [[w o1]|]; [|done]; cbn [result_bind] in Eo|]; now simplify_eq. }
      rewrite Hrec. eapply on_datagram_reached; eauto.
    + simplify_eq. destruct R as [A R1 R2 R3 R4 R5]. split; cbn; unfold ticks_of, wasted in *; rewrite ?flat_map_one, ?app_nil_r; auto.
    + simplify_eq. destruct R as [A R1 R2 R3 R4 R5]. split; cbn; unfold ticks_of, wasted in *; rewrite ?flat_map_one, ?app_nil_r; auto.
  - destruct (running (receiver s)) eqn:Hrun; [|done]. simplify_eq. destruct R as [A R1 R2 R3 R4 R5].
    split; cbn; unfold ticks_of, wasted in *; rewrite ?flat_map_one, ?app_nil_r; auto.
  - destruct (running (receiver s)) eqn:Hrun; [done|]. destruct (stop_requested (writer s)) eqn:Hst; [done|]. cbn [orb] in E.
    simplify_eq. destruct R as [A R1 R2 R3 R4 R5]. destruct A as [A1 A2 A3 A4 A5 A6].
    split; cbn; unfold ticks_of, wasted in *; rewrite ?flat_map_one, ?app_nil_r; auto.
    + now split.
    + rewrite Hst in R5. destruct (pc (writer s)) as [| |[]|[]|]; try done. now destruct R5.
  - destruct (worker_step r (writer s)) as [[w o1]|] eqn:Ew; [|done]. simplify_eq.
    pose proof (queue_nonempty _ _ _ R) as Hne. destruct R as [A R1 R2 [Hb Hm] R4 R5].
    destruct (worker_final _ _ _ _ Ew ltac:(rewrite Hb; done) Hne) as [Hst Hfin].
    pose proof (worker_moves r (writer s) w o ltac:(rewrite Hb; done) Hne Ew) as M.
    pose proof (mv_sizes _ _ _ _ M) as [Hb' Hm'].
    split; cbn; unfold ticks_of, wasted in *; rewrite ?flat_map_one; cbn [tick_of waste_of]; rewrite ?app_nil_r; auto.
    + rewrite <- (app_nil_r (map _ _)). now apply accounts_move with (writer s).
    + now rewrite Hb', Hm'.
    + now rewrite Hst.
    + apply Hfin. destruct (pc (writer s)) as [| |[]|[]|]; try done.
Qed.

Lemma steps_reached bound handle labels obs s :
  steps (ingest_start bound handle) labels obs s -> reached labels obs s.
Proof.
  remember (ingest_start bound handle) as s0 eqn:E. induction 1 as [|s ls obs s1 l o s2 _ IH Hl].
  - subst. apply start_reached.
  - eapply step_reached; eauto.
Qed.

(** A decoded timestamp's nanoseconds fit the row's 64 bits. *)
Lemma nanos_exact bytes t : decodeTick bytes = Ok (Some t) -> i64 (timestamp t * 1000) = timestamp t * 1000.
Proof. intros (_ & Ht & _)%decoded_sound. apply i64_id. unfold kMaxTsMicros in Ht. unfold in_i64. lia. Qed.

(** C29: no tick is lost in silence. Under every interleaving of datagrams,
    socket errors, the signal, the writer thread's steps and the outcomes of its
    POSTs, the rows of the datagrams that held a tick are, in their order of
    arrival, those that have left the queue followed by those still in it, and
    the queue stays within its cap; the bodies posted are the batches taken, in
    order and each once. Every row is shed, persisted, failed, in flight or
    queued, and the four counters are those numbers; once the writer has exited
    nothing is left queued. *)
Theorem ingest_accounts bound handle labels obs s :
  steps (ingest_start bound handle) labels obs s ->
  let rows := map ilp_line (ticks_of labels) in
  let w := writer s in
  rows = (removed obs ++ queue w)%list /\ size_of (queue w) <= kMaxQueue /\
  batches obs = (posts obs ++ in_flight (pc w))%list /\
  size_of rows = shed_lines obs + kept_lines obs + failed_lines obs + flying_lines (pc w) + size_of (queue w) /\
  received s = u64 (size_of rows) /\ dropped s = u64 (wasted labels) /\
  droppedTotal w = u64 (shed_lines obs) /\ failedTotal w = u64 (failed_lines obs) /\
  (pc w = Exited -> rows = removed obs /\ size_of rows = shed_lines obs + kept_lines obs + failed_lines obs).
Proof.
  intros H. destruct (steps_reached _ _ _ _ _ H) as [[A1 A2 A3 A4 A5 A6] R1 R2 [Hb Hm] R4 R5]. cbv zeta.
  rewrite Hm in A2. split_and!; try done.
  - rewrite R1. f_equal. unfold size_of. now rewrite length_map.
  - intros Hpc. rewrite Hpc in *. destruct R5 as [_ Hq]. rewrite Hq in *. rewrite app_nil_r in A1. split; [done|].
    change (size_of []) with 0 in A4. cbn [flying_lines] in A4. lia.
Qed.

(** * Shutting down *)

Definition steps_left (w : Impl) : Z :=
  2 * size_of (queue w) +
  match pc w with
  | Testing => 2 | Waiting => 4 | Draining false => 3 | Draining true => 1
  | Posting false _ _ => 3 | Posting true _ _ => 2 | Exited => - 2 * size_of (queue w)
  end.

Lemma worker_progress r w :
  0 < batchSize w -> stop_requested w = true -> pc w <> Exited ->
  exists w' o, worker_step r w = Some (w', o) /\ stop_requested w' = true /\ batchSize w' = batchSize w /\
    steps_left w' < steps_left w.
Proof.
  intros Hb Hst Hpc. unfold worker_step, steps_left.
  assert (0 <= size_of (queue w)) as H0 by (unfold size_of; lia).
  destruct (pc w) as [| |final|final body n|] eqn:Epc; [| | | |done].
  - rewrite Hst. do 2 eexists. split; [reflexivity|]. cbn [set_pc queue pc stop_requested batchSize]. split_and!; (done || lia).
  - do 2 eexists. split; [reflexivity|]. cbn [set_pc queue pc stop_requested batchSize]. split_and!; (done || lia).
  - do 2 eexists. split; [reflexivity|]. cbn [drain fst queue pc stop_requested batchSize]. split_and!; [done..|].
    set (k := Z.to_nat _). pose proof (length_drop (queue w) k) as Hd. unfold size_of in *.
    destruct (String.eqb _ _) eqn:Eb; destruct final; try lia.
    all: assert (k <> O) as Hk by (intros Hk; unfold k in *; rewrite Hk in Eb; done).
    all: assert (length (queue w) <> O) as Hq by (intros Hq; unfold k in Hk; lia). all: lia.
  - do 2 eexists. split; [reflexivity|]. destruct final; cbn [post fst queue pc stop_requested batchSize]; split_and!; (done || lia).
Qed.

(** Shutting down drains the queue. Once the receive loop has ended and the
    writer is told to stop, the writer thread alone reaches its exit, whatever
    its POSTs return: within two steps per queued row and four more, and then
    every row that ever arrived has been shed or posted. *)
Theorem shutdown_drains bound handle labels obs s rs :
  steps (ingest_start bound handle) labels obs s -> stop_requested (writer s) = true ->
  2 * size_of (queue (writer s)) + 4 <= Z.of_nat (length rs) ->
  exists k obs' s', steps (ingest_start bound handle) (labels ++ map Worker (take k rs)) (obs ++ obs') s' /\
    pc (writer s') = Exited /\ map ilp_line (ticks_of labels) = removed (obs ++ obs').
Proof.
  intros Hs Hst Hlen.
  assert (steps_left (writer s) <= Z.of_nat (length rs)) as Hleft.
  { unfold steps_left. destruct (pc (writer s)) as [| |[]|[]|]; unfold size_of in *; lia. }
  assert (exists k obs' s', steps (ingest_start bound handle) (labels ++ map Worker (take k rs)) (obs ++ obs') s' /\
    pc (writer s') = Exited) as (k & obs' & s' & Hs' & Hpc).
  { clear Hlen. revert labels obs s Hs Hst Hleft. induction rs as [|r rs IH]; intros labels obs s Hs Hst Hleft.
    all: destruct (decide (pc (writer s) = Exited)) as [E|E].
    - exists O, [], s. now rewrite !app_nil_r.
    - exfalso. unfold steps_left, size_of in Hleft. cbn [length] in Hleft.
      destruct (pc (writer s)) as [| |[]|[]|]; (done || lia).
    - exists O, [], s. now rewrite !app_nil_r.
    - destruct (re_sizes _ _ _ (steps_reached _ _ _ _ _ Hs)) as [Hb _].
      destruct (worker_progress r (writer s) ltac:(rewrite Hb; done) Hst E) as (w' & o & Ew & Hst' & _ & Hlt).
      destruct (IH (labels ++ [Worker r])%list (obs ++ o)%list (with_writer w' s)) as (k & obs' & s' & Hs' & Hpc).
      + eapply steps_more; [exact Hs|]. cbn [step]. now rewrite Ew.
      + done.
      + cbn [writer with_writer length] in *. lia.
      + exists (S k), (o ++ obs')%list, s'. cbn [take map]. rewrite <- !app_assoc in Hs'. done. }
  exists k, obs', s'. split_and!; [done..|].
  destruct (steps_reached _ _ _ _ _ Hs') as [[A1 _ _ _ _ _] _ _ _ _ R5]. rewrite Hpc in R5. destruct R5 as [_ Hq].
  rewrite Hq, app_nil_r in A1. rewrite <- A1. unfold ticks_of. rewrite flat_map_app.
  assert (forall l, flat_map tick_of (map Worker l) = []) as -> by now induction l. now rewrite app_nil_r.
Qed.

(** * A run *)

(** A schedule as a function. *)
Fixpoint play (labels : list Label) (s : Ingest) : option (list Obs * Ingest) :=
  match labels with
  | [] => Some ([], s)
  | l :: labels =>
      match step l s with
      | Ok (Some (s1, o)) => match play labels s1 with Some (obs, s2) => Some ((o ++ obs)%list, s2) | None => None end
      | _ => None
      end
  end.

Lemma ingest_steps_app s0 ls0 obs0 s labels obs s' :
  steps s0 ls0 obs0 s -> play labels s = Some (obs, s') -> steps s0 (ls0 ++ labels) (obs0 ++ obs) s'.
Proof.
  revert ls0 obs0 s obs. induction labels as [|l labels IH]; intros ls0 obs0 s obs H E; cbn in E.
  - simplify_eq. now rewrite !app_nil_r.
  - destruct (step l s) as [[[s1 o]|]|] eqn:El; [|done..]. destruct (play labels s1) as [[obs1 s2]|] eqn:Ep; [|done].
    simplify_eq. specialize (IH (ls0 ++ [l])%list (obs0 ++ o)%list s1 obs1).
    rewrite <- !app_assoc in IH. apply IH; [|done]. eapply steps_more; eauto.
Qed.

Lemma play_steps s labels obs s' : play labels s = Some (obs, s') -> steps s labels obs s'.
Proof. intros E. exact (ingest_steps_app s [] [] s labels obs s' (steps_done s) E). Qed.

(** A tick persists, noise is dropped, and a tick caught by the signal fails in
    the last drain. *)
Definition demo_packet : list Z := packet 0x3FF199999999999A 0x3FF199A415F45E0B 1719360000000000 "EURUSD".
Definition demo_labels : list Label :=
  [Complete (Received demo_packet); Worker TransportError; Worker TransportError; Worker TransportError;
   Worker (Response 204); Complete (Received [1; 2; 3]); Complete SocketError; Complete (Received demo_packet);
   Interrupt; Leave].
Definition demo_posts : list PostResult :=
  [TransportError; TransportError; Response 500; TransportError; TransportError; TransportError].

Definition demo_row : string :=
  String.append "EURUSD ask=110001i,bid=110000i 1719360000000000000" (text [char_of 10]).

Example demo_run :
  match play (demo_labels ++ map Worker (take 4 demo_posts)) (ingest_start true true) with
  | Some (obs, s) =>
      (obs, received s, dropped s, failedTotal (writer s), pc (writer s)) =
      ([Took [demo_row]; Posted demo_row 1 true; Took [demo_row]; Posted demo_row 1 false; Took []], 2, 1, 1, Exited)
  | None => False
  end.
Proof. vm_compute. reflexivity. Qed.

(** A queue at its cap sheds its oldest row. *)
Example full_queue_sheds :
  enqueueLine "c" (mkImpl 1000 2 true ["a"; "b"] 0 0 false Waiting) =
  Ok (mkImpl 1000 2 true ["b"; "c"] 1 0 false Waiting, [Shed "a"; Warned 1]).
Proof. vm_compute. reflexivity. Qed.

Lemma ingest_accounts_witness :
  match play (demo_labels ++ map Worker (take 4 demo_posts)) (ingest_start true true) with
  | Some (obs, s) => pc (writer s) = Exited /\ removed obs = [demo_row; demo_row]
  | None => False
  end.
Proof.
  destruct (play _ _) as [[obs s]|] eqn:E; [|vm_compute in E; discriminate].
  pose proof (ingest_accounts true true _ obs s (play_steps _ _ _ _ E)) as (_ & _ & _ & _ & _ & _ & _ & _ & H).
  assert (pc (writer s) = Exited) as Hpc by (vm_compute in E; injection E as <- <-; reflexivity).
  destruct (H Hpc) as [Hr _]. split; [exact Hpc|]. rewrite <- Hr. vm_compute. reflexivity.
Defined.

Lemma shutdown_drains_witness :
  match play demo_labels (ingest_start true true) with
  | Some (obs, s) => exists k obs' s',
      steps (ingest_start true true) (demo_labels ++ map Worker (take k demo_posts)) (obs ++ obs') s' /\
      pc (writer s') = Exited /\ map ilp_line (ticks_of demo_labels) = removed (obs ++ obs')
  | None => False
  end.
Proof.
  destruct (play demo_labels (ingest_start true true)) as [[obs s]|] eqn:E; [|vm_compute in E; discriminate].
  apply (shutdown_drains true true demo_labels obs s demo_posts (play_steps _ _ _ _ E)).
  - vm_compute in E. injection E as <- <-. reflexivity.
  - vm_compute in E. injection E as <- <-. vm_compute. discriminate.
Defined.

(** * Ports *)

Lemma span_digits_value l ds rest v : span_digits l = (ds, rest) -> 0 <= v -> 0 <= fold_left (fun v c => v * 10 + digit_value c) ds v.
Proof.
  revert ds v. induction l as [|c l IH]; intros ds v E Hv; cbn in E; [now simplify_eq|].
  destruct (is_digit c) eqn:Ec; [|now simplify_eq]. destruct (span_digits l) as [ds' tail]. simplify_eq. cbn [fold_left].
  apply IH; [done|]. pose proof (is_digit_bounds c Ec). unfold digit_value. lia.
Qed.

(** The port in use is one of 1 to 65535, whatever the text. *)
Lemma parsePort_range text fallback : 1 <= fallback <= 65535 -> 1 <= parsePort text fallback <= 65535.
Proof.
  intros Hf. unfold parsePort, from_chars_unsigned. destruct (span_digits (chars text)) as [ds rest] eqn:Ed.
  pose proof (span_digits_value _ _ _ 0 Ed ltac:(lia)) as Hv. destruct ds as [|c ds]; [done|].
  fold (digits_value (c :: ds)) in Hv. set (v := digits_value _) in *. destruct (v <? 2 ^ 32); [|done].
  destruct (Z.eqb_spec v 0), (Z.ltb_spec 65535 v); cbn [orb]; lia.
Qed.

(** Text after the digits is ignored, where the comment promises the fallback
    for garbage. *)
Example trailing_text_is_a_port :
  parsePort "9000x" 11111 = 9000 /\ parsePort "x9000" 11111 = 11111 /\ parsePort "70000" 11111 = 11111.
Proof. vm_compute. done. Qed.
