(* ===== verification/LiveWorker.v ===== *)
(** live/execution/liveStrategyRunner.cppm: one live worker, from a tick to the
    orders and closes it hands out. The gate, the sinks, the position count, the
    position feed and the steady clock are a class over an environment, as the
    source has them as functions; each may throw, and what happened before stays. *)
From S2P Require Import Prelude Models Double Config OhlcBuilder BarStore TradeManager.
From S2P Require Import ExitRules EntryConditions Strategy RateWindow Effects.
From S2P Require MarketHours Trade RangeBar SymbolScale.

(** * Data *)

Record OrderIntent : Type := mkIntent {
  oi_strategyName : string;
  oi_strategyUuid : string;
  oi_symbol : string;
  oi_direction : Direction;
  oi_size : Z;
  oi_stopDistancePips : Z;
  oi_limitDistancePips : Z;
  oi_bid : Z;
  oi_ask : Z;
  oi_timestamp : Z }.

Record BookedPosition : Type := mkBooked {
  bp_dealId : string;
  bp_dealReference : string;
  bp_direction : Direction;
  bp_brokerSize : double;
  bp_engineSize : Z;
  bp_level : Z;
  bp_openedAt : Z }.

Record CloseIntent : Type := mkCloseIntent {
  ci_strategyName : string;
  ci_strategyUuid : string;
  ci_symbol : string;
  ci_direction : Direction;
  ci_brokerSize : double;
  ci_dealId : string;
  ci_dealReference : string;
  ci_timestamp : Z }.

(** The strategy itself is kept beside the specification, with the state. *)
Record WorkerSpec : Type := mkSpec {
  ws_symbol : string;
  ws_strategyName : string;
  ws_strategyUuid : string;
  ws_vars : TradingVariables;
  ws_maxOpenTrades : Z;
  ws_maxTradesPerMinute : Z;
  ws_peakHoursOnly : bool;
  ws_barSeries : list SeriesSpec;
  ws_rangeSeries : list RangeBar.RangeBarSpec;
  ws_gateSeries : option SeriesSpec }.

(** The fields of [RunnerStats]. *)
Inductive Counter : Type :=
  | routed | ignoredSymbol | queueDropped | sessionSkipped | conditionsSkipped | signals
  | rateBlocked | positionBlocked | lockBlocked | ordersLogged | bookSeeded | bookRemoved
  | bookSyncFailed | strategyCloses | closeDropped.

#[global] Instance Counter_eq_dec : EqDecision Counter.
Proof. solve_decision. Defined.

Definition RunnerStats : Type := Counter -> N.
Definition bump (c : Counter) (st : RunnerStats) : RunnerStats :=
  fun c' => if base.decide (c = c') then (st c' + 1)%N else st c'.

Definition directionName (d : Direction) : string := match d with LONG => "LONG" | SHORT => "SHORT" end.

(** What a runner is wired to; an absent function is one that is not wired. *)
Class Seams (E : Type) : Type := {
  gate_ : string -> string -> E -> result bool * E;
  sink_ : OrderIntent -> E -> result unit * E;
  positions_ : option (string -> E -> result (option Z) * E);
  feed_ : option (string -> string -> E -> result (option (list BookedPosition)) * E);
  closeSink_ : option (CloseIntent -> E -> result unit * E);
  steady_now : E -> Z }.

Section Worker.
Context {W : World} {S : Type} {I : IStrategy S} {E : Type} {X : Seams E}.
Context (bookSyncInterval : Z).

Record Worker : Type := mkWorker {
  spec : WorkerSpec;
  strategy : S;
  barStore : BarStore;
  tradeManager : TradeManager;
  sideMap : gmap string BookedPosition;
  nextSyncAt : Z;
  recentOpens : list Z }.

(** The constructor: every declared series is registered before the first tick. *)
Fixpoint register_series (specs : list SeriesSpec) (store : BarStore) : result BarStore :=
  match specs with
  | [] => Ok store
  | s :: specs => store <~ registerSeries store (ssMinutes s) (ssCount s) ; register_series specs store
  end.
Fixpoint register_ranges (specs : list RangeBar.RangeBarSpec) (store : BarStore) : result BarStore :=
  match specs with
  | [] => Ok store
  | s :: specs => store <~ registerRangeSeries store s ; register_ranges specs store
  end.

Definition makeWorker (s : WorkerSpec) (strat : S) : result Worker :=
  store <~ register_series (ws_barSeries s) emptyStore ;
  store <~ register_ranges (ws_rangeSeries s) store ;
  store <~ match ws_gateSeries s with
           | Some g => registerSeries store (ssMinutes g) (ssCount g)
           | None => Ok store
           end ;
  Ok (mkWorker s strat store (newTradeManager 0) ∅ 0 []).

(** A worker at work: its environment, the counters, and every call of the two
    sinks with how it ended, in order. *)
Record machine : Type := mkMachine {
  worker : Worker;
  env : E;
  stats : RunnerStats;
  ordered : list (OrderIntent * result unit);
  closing : list (CloseIntent * result unit) }.

Definition step (A : Type) : Type := effect machine A.
Definition call {A} (f : E -> result A * E) : step A := fun s =>
  let '(r, e) := f (env s) in (r, mkMachine (worker s) e (stats s) (ordered s) (closing s)).
Definition update_worker (f : Worker -> Worker) : step unit := fun s =>
  (Ok tt, mkMachine (f (worker s)) (env s) (stats s) (ordered s) (closing s)).
Definition count (c : Counter) : step unit := fun s =>
  (Ok tt, mkMachine (worker s) (env s) (bump c (stats s)) (ordered s) (closing s)).
Definition get : step Worker := fun s => (Ok (worker s), s).

Definition set_store (b : BarStore) (w : Worker) : Worker :=
  mkWorker (spec w) (strategy w) b (tradeManager w) (sideMap w) (nextSyncAt w) (recentOpens w).
Definition set_strategy (x : S) (w : Worker) : Worker :=
  mkWorker (spec w) x (barStore w) (tradeManager w) (sideMap w) (nextSyncAt w) (recentOpens w).
Definition set_manager (m : TradeManager) (w : Worker) : Worker :=
  mkWorker (spec w) (strategy w) (barStore w) m (sideMap w) (nextSyncAt w) (recentOpens w).
Definition set_side (m : gmap string BookedPosition) (w : Worker) : Worker :=
  mkWorker (spec w) (strategy w) (barStore w) (tradeManager w) m (nextSyncAt w) (recentOpens w).
Definition set_sync (t : Z) (w : Worker) : Worker :=
  mkWorker (spec w) (strategy w) (barStore w) (tradeManager w) (sideMap w) t (recentOpens w).
Definition set_opens (l : list Z) (w : Worker) : Worker :=
  mkWorker (spec w) (strategy w) (barStore w) (tradeManager w) (sideMap w) (nextSyncAt w) l.

(** ** The book *)

Definition refreshed (booked latest : BookedPosition) : BookedPosition :=
  mkBooked (bp_dealId latest) (bp_dealReference booked) (bp_direction booked) (bp_brokerSize latest)
    (bp_engineSize booked) (bp_level booked) (bp_openedAt booked).

(** The booked deal, if any: its broker identity is refreshed, or it is gone. *)
Definition review_booked (fetched : list BookedPosition) (tick : PriceData) : step unit :=
  w <-- get ;;
  let sym := ws_symbol (spec w) in
  match sideMap w !! sym with
  | None => step_ret tt
  | Some booked =>
      match List.find (fun p => String.eqb (bp_dealReference p) (bp_dealReference booked)) fetched with
      | Some latest => update_worker (set_side (<[sym := refreshed booked latest]> (sideMap w)))
      | None =>
          let closePrice := match findActiveTrade (tradeManager w) sym with
                            | Some trade => Trade.lastMarkPrice trade | None => bid tick end in
          _ <-- update_worker (set_manager (closeTrade (tradeManager w) sym closePrice tick false).2) ;;
          _ <-- update_worker (set_side (delete sym (sideMap w))) ;;
          count bookRemoved
      end
  end.

(** The oldest deal is booked when nothing is. *)
Definition seed_book (fetched : list BookedPosition) : step unit :=
  w <-- get ;;
  let sym := ws_symbol (spec w) in
  match sideMap w !! sym, fetched with
  | None, first :: _ =>
      if hasActiveTradeForSymbol (tradeManager w) sym then step_ret tt
      else
        let synthetic := mkPriceData (bp_level first) (bp_level first) (bp_openedAt first) sym in
        _ <-- update_worker (set_manager
                (openTrade (tradeManager w) synthetic (bp_engineSize first) (bp_direction first) 0 0).2) ;;
        _ <-- update_worker (set_side (<[sym := first]> (sideMap w))) ;;
        count bookSeeded
  | _, _ => step_ret tt
  end.

Definition syncBookIfDue (tick : PriceData) : step unit := fun s =>
  match feed_ with
  | None => (Ok tt, s)
  | Some feed =>
      let now := steady_now (env s) in
      let w := worker s in
      if now <? nextSyncAt w then (Ok tt, s)
      else
        (_ <-- update_worker (set_sync (now + bookSyncInterval)) ;;
         fetched <-- call (feed (ws_strategyUuid (spec w)) (ws_symbol (spec w))) ;;
         match fetched with
         | None => count bookSyncFailed
         | Some fetched => _ <-- review_booked fetched tick ;; seed_book fetched
         end) s
  end.

(** ** Entries *)

Definition belowTradeRateCap (now : Z) : step bool :=
  w <-- get ;;
  if ws_maxTradesPerMinute (spec w) <=? 0 then step_ret true
  else
    let opens := evict now (recentOpens w) in
    _ <-- update_worker (set_opens opens) ;;
    step_ret (Z.of_nat (length opens) <? ws_maxTradesPerMinute (spec w)).

Definition belowOpenTradeCap : step bool :=
  w <-- get ;;
  if ws_maxOpenTrades (spec w) <=? 0 then step_ret true
  else
    match positions_ with
    | None => step_ret false
    | Some positions =>
        opened <-- call (positions (ws_strategyUuid (spec w))) ;;
        step_ret match opened with Some n => n <? ws_maxOpenTrades (spec w) | None => false end
    end.

Definition intent_of (s : WorkerSpec) (d : Direction) (distances : option Distances) (tick : PriceData) : OrderIntent :=
  mkIntent (ws_strategyName s) (ws_strategyUuid s) (ws_symbol s) d (TRADING_SIZE (ws_vars s))
    (match distances with Some x => stopPips x | None => STOP_DISTANCE_IN_ATR (ws_vars s) end)
    (match distances with Some x => limitPips x | None => LIMIT_DISTANCE_IN_ATR (ws_vars s) end)
    (bid tick) (ask tick) (timestamp tick).

Definition send_order (intent : OrderIntent) : step unit := fun s =>
  let '(r, e) := sink_ intent (env s) in
  (r, mkMachine (worker s) e (stats s) (ordered s ++ [(intent, r)]) (closing s)).

Definition place (d : Direction) (distances : option Distances) (tick : PriceData) : step unit :=
  _ <-- count signals ;;
  below <-- belowTradeRateCap (timestamp tick) ;;
  if negb below then count rateBlocked
  else
    open <-- belowOpenTradeCap ;;
    if negb open then count positionBlocked
    else
      w <-- get ;;
      permitted <-- call (gate_ (ws_strategyUuid (spec w)) (directionName d)) ;;
      if (permitted : bool) then
        _ <-- send_order (intent_of (spec w) d distances tick) ;;
        _ <-- (if 0 <? ws_maxTradesPerMinute (spec w)
               then update_worker (fun w => set_opens (recentOpens w ++ [timestamp tick]) w) else step_ret tt) ;;
        count ordersLogged
      else count lockBlocked.

Definition ask_strategy (distances : option Distances) (tick : PriceData) : step unit :=
  w <-- get ;;
  ds <-- lift (decide (strategy w) tick (barStore w)) ;;
  _ <-- update_worker (set_strategy ds.2) ;;
  match ds.1 with Some d => place d distances tick | None => step_ret tt end.

Definition try_entry (tick : PriceData) : step unit :=
  w <-- get ;;
  if ws_peakHoursOnly (spec w) && negb (MarketHours.tradePermitted (symbol tick) (timestamp tick))
  then count sessionSkipped
  else
    match ws_gateSeries (spec w) with
    | None => ask_strategy None tick
    | Some gate =>
        distances <-- lift (check (barStore w) gate tick (STOP_DISTANCE_IN_ATR (ws_vars (spec w)))
                              (LIMIT_DISTANCE_IN_ATR (ws_vars (spec w)))) ;;
        match distances with
        | None => count conditionsSkipped
        | Some d => ask_strategy (Some d) tick
        end
    end.

(** ** Closes *)

Definition send_close (f : CloseIntent -> E -> result unit * E) (intent : CloseIntent) : step unit := fun s =>
  let '(r, e) := f intent (env s) in
  (r, mkMachine (worker s) e (stats s) (ordered s) (closing s ++ [(intent, r)])).

Definition close_intent (s : WorkerSpec) (sym : string) (b : BookedPosition) (tick : PriceData) : CloseIntent :=
  mkCloseIntent (ws_strategyName s) (ws_strategyUuid s) sym (bp_direction b) (bp_brokerSize b)
    (bp_dealId b) (bp_dealReference b) (timestamp tick).

Definition emitClose (closed : Trade.Trade) (tick : PriceData) : step unit :=
  w <-- get ;;
  let sym := Trade.symbol closed in
  let forget := update_worker (fun w => set_side (delete sym (sideMap w)) w) in
  let dropped := _ <-- count closeDropped ;; forget in
  match closeSink_, sideMap w !! sym with
  | Some sink, Some booked =>
      if String.eqb (bp_dealId booked) "" then dropped
      else
        _ <-- send_close sink (close_intent (spec w) sym booked tick) ;;
        _ <-- count strategyCloses ;;
        forget
  | _, _ => dropped
  end.

Fixpoint emit_closes (closed : list Trade.Trade) (tick : PriceData) : step unit :=
  match closed with
  | [] => step_ret tt
  | t :: closed => _ <-- emitClose t tick ;; emit_closes closed tick
  end.

Definition manage (tick : PriceData) : step unit :=
  w <-- get ;;
  let closedBefore := length (closedTrades (tradeManager w)) in
  let '(strat, m) := during (strategy w) tick (barStore w) (tradeManager w) in
  _ <-- update_worker (fun w => set_manager m (set_strategy strat w)) ;;
  emit_closes (drop closedBefore (closedTrades m)) tick.

Definition update_bars (tick : PriceData) : step unit :=
  w <-- get ;;
  store <-- lift (update (barStore w) tick) ;;
  update_worker (set_store store).

Definition processTick (tick : PriceData) : step unit :=
  _ <-- syncBookIfDue tick ;;
  _ <-- update_bars tick ;;
  _ <-- try_entry tick ;;
  manage tick.

(** [workerLoop] on the ticks it takes from its queue: an exception ends the tick,
    not the worker. *)
Definition workerLoop (ticks : list PriceData) (s : machine) : machine :=
  foldl (fun s tick => (processTick tick s).2) s ticks.

End Worker.

(** * What a step leaves alone *)

Section Frames.
Context {W : World} {S : Type} {I : IStrategy S} {E : Type} {X : Seams E}.
Context (bookSyncInterval : Z).
Notation machine := (machine (S := S) (E := E)).

Lemma keeps_get (P : relation machine) `{!PreOrder P} : keeps P get.
Proof. intros s. reflexivity. Qed.
(** Nothing about orders. *)
Definition orderless : relation machine := fun s s' =>
  ordered s' = ordered s /\ recentOpens (worker s') = recentOpens (worker s) /\ spec (worker s') = spec (worker s).
(** The counters that follow the book. *)
Definition book_counter (c : Counter) : bool :=
  match c with bookSeeded | bookRemoved | strategyCloses | closeDropped => true | _ => false end.

(** Nothing about the book. *)
Definition bookless : relation machine := fun s s' =>
  closing s' = closing s /\ tradeManager (worker s') = tradeManager (worker s) /\
  sideMap (worker s') = sideMap (worker s) /\ spec (worker s') = spec (worker s) /\
  forall c, book_counter c = true -> stats s' c = stats s c.

#[global] Instance orderless_pre : PreOrder orderless.
Proof. split; [now intros s|]. intros s1 s2 s3 (A & B & C) (A' & B' & C'). unfold orderless. now rewrite A', B', C'. Qed.
#[global] Instance bookless_pre : PreOrder bookless.
Proof.
  split; [now intros s|]. intros s1 s2 s3 (A & B & C & F & G) (A' & B' & C' & F' & G'). unfold bookless.
  rewrite A', B', C', F'. split_and!; try done. intros c Hc. now rewrite G', G.
Qed.

Lemma keeps_call_orderless {A} (f : E -> result A * E) : keeps orderless (call f).
Proof. intros s. unfold call. now destruct (f (env s)). Qed.
Lemma keeps_call_bookless {A} (f : E -> result A * E) : keeps bookless (call f).
Proof. intros s. unfold call. now destruct (f (env s)). Qed.
Lemma keeps_count_orderless c : keeps orderless (count c).
Proof. now intros s. Qed.
Lemma keeps_count_bookless c : book_counter c = false -> keeps bookless (count c).
Proof.
  intros H s. unfold bookless, count. cbn. split_and!; try done. intros c' Hc'. unfold bump.
  case_decide; [congruence|done].
Qed.
Lemma keeps_order_bookless o : keeps bookless (send_order o).
Proof. intros s. unfold send_order. now destruct (sink_ o (env s)). Qed.
Lemma keeps_close_orderless f o : keeps orderless (send_close f o).
Proof. intros s. unfold send_close. now destruct (f o (env s)). Qed.
Lemma keeps_update_orderless f :
  (forall w, recentOpens (f w) = recentOpens w /\ spec (f w) = spec w) -> keeps orderless (update_worker f).
Proof. intros H s. unfold update_worker, orderless. cbn. split; [done|]. apply H. Qed.
Lemma keeps_update_bookless f :
  (forall w, tradeManager (f w) = tradeManager w /\ sideMap (f w) = sideMap w /\ spec (f w) = spec w) ->
  keeps bookless (update_worker f).
Proof. intros H s. unfold update_worker, bookless. cbn. destruct (H (worker s)) as (? & ? & ?). now split_and!. Qed.

End Frames.

#[export] Hint Resolve keeps_get keeps_call_orderless keeps_call_bookless keeps_count_orderless
  keeps_order_bookless keeps_close_orderless : frames.
#[export] Hint Extern 1 (keeps bookless (count _)) => (apply keeps_count_bookless; reflexivity) : frames.
#[export] Hint Extern 1 (keeps orderless (update_worker _)) => (apply keeps_update_orderless; intros; now split_and?) : frames.
#[export] Hint Extern 1 (keeps bookless (update_worker _)) => (apply keeps_update_bookless; intros; now split_and?) : frames.

Section FrameFacts.
Context {W : World} {S : Type} {I : IStrategy S} {E : Type} {X : Seams E}.
Context (bookSyncInterval : Z).

Lemma sync_orderless tick : keeps (St := machine (S := S) (E := E)) orderless (syncBookIfDue bookSyncInterval tick).
Proof.
  intros s. unfold syncBookIfDue. destruct feed_ as [feed|]; [|reflexivity].
  destruct (_ <? _); [reflexivity|]. match goal with |- orderless _ (snd (?m s)) => assert (keeps orderless m) as H; [|apply H] end.
  unfold review_booked, seed_book. frame.
Qed.

Lemma bars_orderless tick : keeps (St := machine (S := S) (E := E)) orderless (update_bars tick).
Proof. unfold update_bars. frame. Qed.

Lemma emit_orderless closed tick : keeps (St := machine (S := S) (E := E)) orderless (emit_closes closed tick).
Proof. induction closed as [|t closed IH]; cbn [emit_closes]; [frame|]. apply keeps_bind; [exact _| |intros; exact IH]. unfold emitClose. frame. Qed.

Lemma manage_orderless tick : keeps (St := machine (S := S) (E := E)) orderless (manage tick).
Proof. unfold manage. frame. apply emit_orderless. Qed.

Lemma bars_bookless tick : keeps (St := machine (S := S) (E := E)) bookless (update_bars tick).
Proof. unfold update_bars. frame. Qed.

Lemma entry_bookless tick : keeps (St := machine (S := S) (E := E)) bookless (try_entry tick).
Proof. unfold try_entry, ask_strategy, place, belowTradeRateCap, belowOpenTradeCap. frame. Qed.

End FrameFacts.

(** * Entries *)

Section Entries.
Context {W : World} {S : Type} {I : IStrategy S} {E : Type} {X : Seams E}.
Context (bookSyncInterval : Z).
Notation machine := (machine (S := S) (E := E)).

(** The open count was known and below its cap, the gate let the order through,
    and the sink was called right after. *)
Definition may_open (s : WorkerSpec) (d : Direction) (intent : OrderIntent) (outcome : result unit) : Prop :=
  exists e0 e1 e2 e3,
    (0 < ws_maxOpenTrades s -> exists positions n, positions_ = Some positions /\
       positions (ws_strategyUuid s) e0 = (Ok (Some n), e1) /\ n < ws_maxOpenTrades s) /\
    gate_ (ws_strategyUuid s) (directionName d) e1 = (Ok true, e2) /\ sink_ intent e2 = (outcome, e3).

(** The rate window once [now] is looked at. *)
Definition window (s : WorkerSpec) (now : Z) (opens : list Z) : list Z :=
  if ws_maxTradesPerMinute s <=? 0 then opens else evict now opens.

(** One order, and what it does to the window. *)
Definition opened (s : WorkerSpec) (d : Direction) (distances : option Distances) (tick : PriceData)
    (opens : list Z) (before after : machine) : Prop :=
  exists outcome, ordered after = ordered before ++ [(intent_of s d distances tick, outcome)] /\
    may_open s d (intent_of s d distances tick) outcome /\
    (0 < ws_maxTradesPerMinute s -> Z.of_nat (length opens) < ws_maxTradesPerMinute s) /\
    recentOpens (worker after) =
      match outcome with
      | Ok _ => if 0 <? ws_maxTradesPerMinute s then opens ++ [timestamp tick] else opens
      | Throw _ => opens
      end.

Lemma rate_cap_step now (s : machine) :
  exists s1, belowTradeRateCap now s =
      (Ok ((ws_maxTradesPerMinute (spec (worker s)) <=? 0) ||
           (Z.of_nat (length (window (spec (worker s)) now (recentOpens (worker s)))) <? ws_maxTradesPerMinute (spec (worker s)))), s1) /\
    ordered s1 = ordered s /\ spec (worker s1) = spec (worker s) /\ env s1 = env s /\
    recentOpens (worker s1) = window (spec (worker s)) now (recentOpens (worker s)).
Proof.
  unfold belowTradeRateCap, step_bind, get, window, update_worker, step_ret. cbn.
  destruct (ws_maxTradesPerMinute (spec (worker s)) <=? 0); cbn; eauto 10.
Qed.

Lemma open_cap_step (s : machine) :
  exists r s1, belowOpenTradeCap s = (r, s1) /\ ordered s1 = ordered s /\ worker s1 = worker s /\
    (r = Ok true -> 0 < ws_maxOpenTrades (spec (worker s)) -> exists positions n, positions_ = Some positions /\
       positions (ws_strategyUuid (spec (worker s))) (env s) = (Ok (Some n), env s1) /\ n < ws_maxOpenTrades (spec (worker s))).
Proof.
  unfold belowOpenTradeCap, step_bind, get, step_ret, call. cbn.
  destruct (Z.leb_spec (ws_maxOpenTrades (spec (worker s))) 0); [do 2 eexists; split_and!; eauto; lia|].
  destruct positions_ as [f|] eqn:Ef; [|do 2 eexists; split_and!; eauto; done].
  destruct (f _ (env s)) as [[n|e] e'] eqn:En; [|do 2 eexists; split_and!; eauto; done].
  do 2 eexists. split_and!; try done. cbn. intros Hr _. destruct n as [n|]; [|done]. injection Hr as Hr.
  exists f, n. split_and!; try done. now apply Z.ltb_lt.
Qed.

Lemma place_cases d distances tick (s : machine) r s' :
  place d distances tick s = (r, s') ->
  let opens := window (spec (worker s)) (timestamp tick) (recentOpens (worker s)) in
  (ordered s' = ordered s /\ recentOpens (worker s') = opens) \/
  opened (spec (worker s)) d distances tick opens s s'.
Proof.
  intros H opens. unfold place in H. unfold step_bind at 1, count at 1 in H.
  set (s0 := mkMachine _ _ _ _ _) in H.
  unfold step_bind at 1 in H. destruct (rate_cap_step (timestamp tick) s0) as (s1 & E1 & O1 & P1 & V1 & R1).
  rewrite E1 in H. cbn in E1, O1, P1, V1, R1. fold opens in R1, H.
  destruct (_ || _) eqn:Eb; cbn [negb] in H; [|injection H as _ <-; left; now cbn].
  unfold step_bind at 1 in H. destruct (open_cap_step s1) as (ro & s2 & E2 & O2 & W2 & C2). rewrite E2 in H.
  destruct ro as [[]|e]; cbn [negb] in H; [|injection H as _ <-; left; cbn; rewrite ?W2; split; congruence..].
  unfold step_bind at 1, get at 1 in H. unfold step_bind at 1, call at 1 in H.
  rewrite W2, P1 in H. destruct (gate_ _ _ (env s2)) as [g e2] eqn:Eg.
  destruct g as [[]|e]; [|injection H as _ <-; left; cbn; rewrite ?W2; split; congruence..].
  unfold step_bind at 1, send_order at 1 in H. cbn [env worker ordered] in H.
  destruct (sink_ _ e2) as [outcome e3] eqn:Es. right. exists outcome.
  assert (may_open (spec (worker s)) d (intent_of (spec (worker s)) d distances tick) outcome) as Hmay.
  { exists (env s1), (env s2), e2, e3. split_and!; try done. rewrite <- P1. now apply C2. }
  assert (0 < ws_maxTradesPerMinute (spec (worker s)) ->
    Z.of_nat (length opens) < ws_maxTradesPerMinute (spec (worker s))) as Hrate.
  { intros Hp. change (worker s0) with (worker s) in Eb. fold opens in Eb. apply orb_true_iff in Eb as [Eb|Eb]; zbool; lia. }
  destruct outcome as [[]|e]; [|injection H as _ <-; cbn; rewrite ?W2; split_and!; try assumption; congruence].
  unfold step_bind in H. destruct (0 <? _); injection H as _ <-; cbn; rewrite ?W2; split_and!; try assumption; congruence.
Qed.

(** What an entry looked like: who asked, and what was checked first. *)
Definition entry_checked (s : WorkerSpec) (distances : option Distances) (tick : PriceData) : Prop :=
  (ws_peakHoursOnly s = true -> MarketHours.tradePermitted (symbol tick) (timestamp tick) = true) /\
  match ws_gateSeries s with
  | None => distances = None
  | Some gate => exists store x, distances = Some x /\ 10 <= stopPips x <= 80 /\ 3 <= limitPips x <= 300 /\
      check store gate tick (STOP_DISTANCE_IN_ATR (ws_vars s)) (LIMIT_DISTANCE_IN_ATR (ws_vars s)) = Ok (Some x)
  end.

Lemma live_entry_cases tick (s : machine) r s' :
  try_entry tick s = (r, s') ->
  let sp := spec (worker s) in
  let opens := window sp (timestamp tick) (recentOpens (worker s)) in
  (ordered s' = ordered s /\ (recentOpens (worker s') = recentOpens (worker s) \/ recentOpens (worker s') = opens)) \/
  (exists d distances, entry_checked sp distances tick /\ opened sp d distances tick opens s s').
Proof.
  intros H sp opens. unfold try_entry in H. unfold step_bind at 1, get at 1 in H. fold sp in H.
  destruct (ws_peakHoursOnly sp && _) eqn:Ep; [injection H as _ <-; left; cbn; auto|].
  assert (ws_peakHoursOnly sp = true -> MarketHours.tradePermitted (symbol tick) (timestamp tick) = true) as Hp.
  { intros Hh. rewrite Hh in Ep. now apply negb_false_iff in Ep. }
  assert (forall distances, entry_checked sp distances tick -> ask_strategy distances tick s = (r, s') ->
    (ordered s' = ordered s /\ (recentOpens (worker s') = recentOpens (worker s) \/ recentOpens (worker s') = opens)) \/
    (exists d distances, entry_checked sp distances tick /\ opened sp d distances tick opens s s')) as Hask.
  { intros distances Hd Ha. unfold ask_strategy, step_bind, get, lift in Ha.
    destruct (decide _ tick _) as [[sig strat']|e]; [|injection Ha as _ <-; left; auto]. cbn in Ha.
    destruct sig as [d|]; [|injection Ha as _ <-; left; cbn; auto].
    apply place_cases in Ha. cbn in Ha. destruct Ha as [[? ?]|?]; [left; auto|right; eauto]. }
  destruct (ws_gateSeries sp) as [gate|] eqn:Eg; [|apply (Hask None); [split; [done|now rewrite Eg]|exact H]].
  unfold step_bind at 1, lift at 1 in H.
  destruct (check _ gate tick _ _) as [[x|]|e] eqn:Ec; [|injection H as _ <-; left; cbn; auto..].
  apply (Hask (Some x)); [|exact H]. split; [done|]. rewrite Eg. destruct (check_clamped _ _ _ _ _ _ Ec) as [? ?]. exists (barStore (worker s)), x. now split_and!.
Qed.

(** What a tick adds to the orders. *)
Lemma processTick_orders tick (s : machine) r s' :
  processTick bookSyncInterval tick s = (r, s') ->
  let sp := spec (worker s) in
  let opens := window sp (timestamp tick) (recentOpens (worker s)) in
  spec (worker s') = sp /\
  ((ordered s' = ordered s /\ (recentOpens (worker s') = recentOpens (worker s) \/ recentOpens (worker s') = opens)) \/
   (exists d distances, entry_checked sp distances tick /\ opened sp d distances tick opens s s')).
Proof.
  intros H sp opens. unfold processTick in H. unfold step_bind at 1 in H.
  pose proof (sync_orderless bookSyncInterval tick s) as (A1 & B1 & C1).
  destruct (syncBookIfDue bookSyncInterval tick s) as [[[]|e] s1]; [|injection H as _ <-; auto].
  unfold step_bind at 1 in H. pose proof (bars_orderless tick s1) as (A2 & B2 & C2).
  destruct (update_bars tick s1) as [[[]|e] s2]; cbn [snd] in *;
    [|injection H as _ <-; rewrite A2, B2, C2, A1, B1, C1; auto].
  unfold step_bind at 1 in H. pose proof (entry_bookless tick s2) as (_ & _ & _ & C3 & _).
  destruct (try_entry tick s2) as [re s3] eqn:Ee. apply live_entry_cases in Ee. cbn [snd] in *.
  rewrite C2, C1, B2, B1, A2, A1 in Ee.
  assert (ordered s' = ordered s3 /\ recentOpens (worker s') = recentOpens (worker s3) /\
    spec (worker s') = spec (worker s3)) as (A4 & B4 & C4).
  { destruct re as [[]|e]; [|now injection H as _ <-]. pose proof (manage_orderless tick s3) as Hm. now rewrite H in Hm. }
  split; [unfold sp; congruence|]. unfold opened in *. fold sp opens in Ee. rewrite A2, A1 in Ee. rewrite A4, B4. exact Ee.
Qed.

End Entries.

(** * A worker's orders *)

Section Orders.
Context {W : World} {S : Type} {I : IStrategy S} {E : Type} {X : Seams E}.
Context (bookSyncInterval : Z).
Notation machine := (machine (S := S) (E := E)).

(** A worker that starts. *)
Definition start (w : Worker) (e : E) : machine := mkMachine w e (fun _ => 0%N) [] [].

Lemma makeWorker_fresh s (strat : S) w :
  makeWorker s strat = Ok w ->
  spec w = s /\ tradeManager w = newTradeManager 0 /\ sideMap w = ∅ /\ recentOpens w = [].
Proof.
  unfold makeWorker. destruct (register_series _ _) as [b|]; [|done]. cbn [result_bind].
  destruct (register_ranges _ _) as [b2|]; [|done]. cbn [result_bind].
  destruct (match ws_gateSeries s with Some _ => _ | None => _ end); [|done]. cbn [result_bind]. now intros [= <-].
Qed.

(** The times of the orders the sink took. *)
Definition completed (orders : list (OrderIntent * result unit)) : list Z :=
  omap (fun o => match o.2 with Ok _ => Some (oi_timestamp o.1) | Throw _ => None end) orders.

Lemma completed_app l1 l2 : completed (l1 ++ l2) = completed l1 ++ completed l2.
Proof. unfold completed. now rewrite omap_app. Qed.

(** An order as one tick may give it. *)
Definition order_ok (s : WorkerSpec) (ticks : list PriceData) (o : OrderIntent * result unit) : Prop :=
  exists tick d distances, tick ∈ ticks /\ entry_checked s distances tick /\
    o.1 = intent_of s d distances tick /\ may_open s d o.1 o.2.

Definition rate_kept (s : machine) (now : Z) : Prop :=
  let cap := ws_maxTradesPerMinute (spec (worker s)) in
  0 < cap -> rate_inv cap (completed (ordered s)) (recentOpens (worker s)) now.

Lemma processTick_rate tick (s : machine) r s' now :
  processTick bookSyncInterval tick s = (r, s') -> now <= timestamp tick ->
  rate_kept s now -> rate_kept s' (timestamp tick).
Proof.
  intros H Hle Hi Hcap. destruct (processTick_orders _ _ _ _ _ H) as [Esp Hc]. rewrite Esp in *.
  set (sp := spec (worker s)) in *. specialize (Hi Hcap). fold sp in Hi.
  assert (window sp (timestamp tick) (recentOpens (worker s)) = evict (timestamp tick) (recentOpens (worker s))) as Ew
    by (unfold window; now rewrite (proj2 (Z.leb_gt _ _) Hcap)).
  rewrite Ew in Hc. pose proof (rate_inv_evict _ _ _ _ _ Hi Hle) as Hev.
  pose proof (rate_inv_later _ _ _ _ _ Hi Hle) as Hlater.
  destruct Hc as [[-> [-> | ->]]|(d & distances & _ & outcome & -> & _ & Hlt & ->)]; [done|done|].
  rewrite completed_app. destruct outcome as [[]|e]; cbn; [|now rewrite app_nil_r].
  rewrite (proj2 (Z.ltb_lt _ _) Hcap). destruct Hi as (_ & _ & Hsorted & _).
  destruct (evict_split (timestamp tick) _ Hsorted) as (_ & _ & _ & Hlive).
  apply (rate_inv_push _ _ _ _ _ Hev Hlive (Hlt Hcap)). now rewrite Permutation_app_comm.
Qed.

Lemma order_ok_more s ticks ticks' o : (forall t, t ∈ ticks -> t ∈ ticks') -> order_ok s ticks o -> order_ok s ticks' o.
Proof. intros H (tick & d & x & Hin & Ho). exists tick, d, x. split; [now apply H|done]. Qed.

Lemma workerLoop_orders ticks : forall (s : machine) now,
  StronglySorted Z.le (now :: map timestamp ticks) -> rate_kept s now ->
  let s' := workerLoop bookSyncInterval ticks s in
  exists new now', spec (worker s') = spec (worker s) /\ ordered s' = ordered s ++ new /\ rate_kept s' now' /\
    Forall (order_ok (spec (worker s)) ticks) new /\
    sublist (map (fun o => oi_timestamp o.1) new) (map timestamp ticks).
Proof.
  induction ticks as [|tick ticks IH]; intros s now Hs Hi; cbn.
  { exists [], now. rewrite app_nil_r. split_and!; (done || constructor). }
  cbn [map] in Hs. inversion Hs as [|? ? Hs1 Hs2]; subst. inversion Hs2 as [|? ? Hle _]; subst.
  destruct (processTick bookSyncInterval tick s) as [r s1] eqn:Ep. cbn [snd].
  pose proof (processTick_rate _ _ _ _ _ Ep Hle Hi) as Hi1.
  destruct (processTick_orders _ _ _ _ _ Ep) as [Esp Hc].
  destruct (IH s1 (timestamp tick) Hs1 Hi1) as (new & now' & A & B & C & F & G). fold (workerLoop bookSyncInterval ticks s1).
  rewrite Esp in A, F.
  assert (Forall (order_ok (spec (worker s)) (tick :: ticks)) new) as F'.
  { eapply Forall_impl; [exact F|]. intros o. apply order_ok_more. intros t. now right. }
  destruct Hc as [[Ho _]|(d & distances & Hch & outcome & Ho & Hmay & _)]; rewrite Ho in B.
  - exists new, now'. split_and!; try done. now apply sublist_cons.
  - exists ((intent_of (spec (worker s)) d distances tick, outcome) :: new), now'. rewrite <- app_assoc in B.
    split_and!; try done.
    + constructor; [|exact F']. exists tick, d, distances. split_and!; try done. now left.
    + now apply sublist_skip.
Qed.

(** What a live worker hands to its order sink, over any environment, strategy
    and time-ordered ticks: at most one order per tick, in the order of the ticks;
    each on a tick inside the session, with distances the volatility gate allows,
    its open count known and below the cap, and the trade lock granted just
    before; and no minute of tick time holds more completed orders than the rate
    cap, whatever throws. *)
Lemma worker_orders_capped sp (strat : S) w (e : E) (ticks : list PriceData) :
  makeWorker sp strat = Ok w -> StronglySorted Z.le (map timestamp ticks) ->
  let s' := workerLoop bookSyncInterval ticks (start w e) in
  (0 < ws_maxTradesPerMinute sp -> rate_ok (ws_maxTradesPerMinute sp) (completed (ordered s'))) /\
  Forall (order_ok sp ticks) (ordered s') /\
  sublist (map (fun o => oi_timestamp o.1) (ordered s')) (map timestamp ticks).
Proof.
  intros Hw Hs s'. destruct (makeWorker_fresh _ _ _ Hw) as (Hsp & _ & _ & Hr).
  assert (exists now, StronglySorted Z.le (now :: map timestamp ticks)) as [now Hn].
  { destruct ticks as [|t ticks]; [exists 0; repeat constructor|]. exists (timestamp t). constructor; [exact Hs|].
    cbn [map] in *. inversion Hs; subst. now constructor. }
  destruct (workerLoop_orders ticks (start w e) now Hn) as (new & now' & A & B & C & F & G).
  { intros Hcap. cbn. rewrite Hr. now apply rate_inv_empty. }
  fold s' in A, B, C. cbn in A, B, F. rewrite Hsp in *. rewrite B. split_and!; [|exact F|exact G].
  intros Hcap. unfold rate_kept in C. rewrite A, B in C. destruct (C Hcap) as (_ & _ & _ & _ & _ & Hok). exact Hok.
Qed.

End Orders.

(** * A worker's book *)

Section Book.
Context {W : World} {S : Type} {I : IStrategy S} {E : Type} {X : Seams E}.
Context (bookSyncInterval : Z).
Notation machine := (machine (S := S) (E := E)).

(** The broker identity of a booked deal, as one answer of the feed gave it. *)
Definition from_feed (s : WorkerSpec) (b : BookedPosition) : Prop :=
  exists feed e0 e1 fetched p, feed_ = Some feed /\
    feed (ws_strategyUuid s) (ws_symbol s) e0 = (Ok (Some fetched), e1) /\ p ∈ fetched /\
    bp_dealId b = bp_dealId p /\ bp_dealReference b = bp_dealReference p /\ bp_brokerSize b = bp_brokerSize p.

Definition mirror_of (sym : string) (b : BookedPosition) (t : Trade.Trade) : Prop :=
  Trade.symbol t = sym /\ Trade.direction t = bp_direction b /\ Trade.size t = bp_engineSize b /\
  Trade.entryPrice t = bp_level b.

(** At most one trade, of the worker's symbol; the side map and the book agree. *)
Definition mirrors (s : WorkerSpec) (side : gmap string BookedPosition) (m : TradeManager) : Prop :=
  entrySlippageTenthPips m = 0 /\
  ((side = ∅ /\ activeTrades m = ∅) \/
   exists b t, side = {[ws_symbol s := b]} /\ activeTrades m = {[ws_symbol s := t]} /\
     mirror_of (ws_symbol s) b t /\ from_feed s b).

(** A close that names a confirmed deal the feed gave. *)
Definition addressed (s : WorkerSpec) (c : CloseIntent * result unit) : Prop :=
  exists b tick, from_feed s b /\ bp_dealId b <> EmptyString /\ c.1 = close_intent s (ws_symbol s) b tick.

Record book_ok (s : machine) : Prop := mkBookOk {
  bo_mirrors : mirrors (spec (worker s)) (sideMap (worker s)) (tradeManager (worker s));
  bo_closed : N.of_nat (length (closedTrades (tradeManager (worker s)))) =
              (stats s bookRemoved + stats s strategyCloses + stats s closeDropped)%N;
  bo_seeded : stats s bookSeeded = N.of_nat (length (closedTrades (tradeManager (worker s))) +
                                             base.size (activeTrades (tradeManager (worker s))));
  bo_sent : N.of_nat (length (closing s)) = stats s strategyCloses;
  bo_addressed : Forall (addressed (spec (worker s))) (closing s) }.

Lemma bookless_ok (s s' : machine) : bookless s s' -> book_ok s -> book_ok s'.
Proof.
  intros (A & B & C & F & G) [H1 H2 H3 H4 H5]. split; rewrite ?A, ?B, ?C, ?F, ?(G bookSeeded eq_refl), ?(G bookRemoved eq_refl),
    ?(G strategyCloses eq_refl), ?(G closeDropped eq_refl); done.
Qed.

Lemma bump_at c st : bump c st c = (st c + 1)%N.
Proof. unfold bump. now case_decide. Qed.
Lemma bump_other c c' st : c <> c' -> bump c st c' = st c'.
Proof. unfold bump. intros H. now case_decide. Qed.
Ltac bumps := rewrite ?bump_at; repeat rewrite bump_other by discriminate.

(** One close of the booked trade. *)
Lemma closeTrade_booked m sym t price tick :
  activeTrades m = {[sym := t]} ->
  let m' := (closeTrade m sym price tick false).2 in
  activeTrades m' = ∅ /\ entrySlippageTenthPips m' = entrySlippageTenthPips m /\
  exists c, closedTrades m' = closedTrades m ++ [c] /\ Trade.symbol c = Trade.symbol t.
Proof.
  intros Ea m'. assert (activeTrades m !! sym = Some t) as El by (rewrite Ea; apply lookup_singleton_eq).
  subst m'. unfold closeTrade. rewrite El. cbn. rewrite Ea, delete_singleton_eq. eauto.
Qed.

Lemma review_booked_ok fetched tick (s : machine) feed e0 e1 :
  feed_ = Some feed -> feed (ws_strategyUuid (spec (worker s))) (ws_symbol (spec (worker s))) e0 = (Ok (Some fetched), e1) ->
  book_ok s ->
  exists s', review_booked fetched tick s = (Ok tt, s') /\ book_ok s' /\ spec (worker s') = spec (worker s).
Proof.
  intros Ef Er [[Hsl Hm] Hc Hs Ht Ha]. unfold review_booked, step_bind, get, step_ret.
  destruct Hm as [[Es Em]|(b & t & Es & Em & Hmir & Hfeed)].
  { rewrite Es, lookup_empty. exists s. split_and!; try done. split; try done. split; [done|]. now left. }
  rewrite Es, lookup_singleton_eq. destruct (List.find _ fetched) as [latest|] eqn:El.
  - apply List.find_some in El as [Hin Heq]. apply list_elem_of_In in Hin. apply String.eqb_eq in Heq.
    eexists. split; [reflexivity|]. split; [|done]. split; cbn; try done.
    split; [done|]. right. exists (refreshed b latest), t. rewrite insert_singleton_eq. split_and!; try done.
    exists feed, e0, e1, fetched, latest. cbn. now split_and!.
  - unfold update_worker, count. cbn. eexists. split; [reflexivity|]. split; [|done].
    set (price := match findActiveTrade _ _ with Some _ => _ | None => _ end).
    destruct (closeTrade_booked _ _ _ price tick Em) as (A1 & A2 & c & A3 & _).
    split; cbn; bumps; rewrite ?A1, ?A2, ?A3, ?length_app, ?map_size_empty; cbn [length]; try done.
    + split; [now rewrite A2|]. left. split; [apply delete_singleton_eq|done].
    + lia.
    + rewrite Hs, Em, map_size_singleton. lia.
Qed.

Lemma seed_book_ok fetched (s : machine) feed e0 e1 :
  feed_ = Some feed -> feed (ws_strategyUuid (spec (worker s))) (ws_symbol (spec (worker s))) e0 = (Ok (Some fetched), e1) ->
  book_ok s -> book_ok (seed_book fetched s).2.
Proof.
  intros Ef Er H. assert (H' := H). destruct H' as [[Hsl Hm] Hc Hs Ht Ha]. unfold seed_book, step_bind, get, step_ret.
  destruct Hm as [[Es Em]|(b & t & Es & Em & _)]; [|now rewrite Es, lookup_singleton_eq].
  rewrite Es, lookup_empty. destruct fetched as [|first fetched]; [done|].
  unfold hasActiveTradeForSymbol, findActiveTrade. rewrite Em, lookup_empty.
  set (tick := mkPriceData _ _ _ _). unfold update_worker, count. cbn.
  set (sym := ws_symbol (spec (worker s))) in *.
  assert (activeTrades (tradeManager (worker s)) !! symbol tick = None) as En by (cbn; now rewrite Em).
  rewrite (openTrade_free _ _ _ _ _ _ En). cbn.
  split; cbn; bumps; try done.
  - split; [done|]. right. eexists first, _. rewrite Em. split_and!; [reflexivity|reflexivity| |].
    + unfold mirror_of, build_trade, slipped_entry. cbn. rewrite Hsl. cbn. split_and!; try done. now destruct (bp_direction first).
    + exists feed, e0, e1, (first :: fetched), first. split_and!; try done. now left.
  - rewrite Hs, Em, map_size_empty. rewrite map_size_insert_None by done. rewrite map_size_empty. lia.
Qed.

Lemma sync_book_ok tick (s : machine) : book_ok s -> book_ok (syncBookIfDue bookSyncInterval tick s).2.
Proof.
  intros H. unfold syncBookIfDue. destruct feed_ as [feed|] eqn:Ef; [|done].
  destruct (_ <? _); [done|]. unfold step_bind at 1, update_worker at 1. unfold step_bind at 1, call at 1.
  cbn [env worker stats ordered closing spec set_sync].
  destruct (feed _ _ (env s)) as [[fetched|e] e1] eqn:Er; [|eapply bookless_ok; [|exact H]; now split_and!].
  set (s1 := mkMachine _ _ _ _ _). assert (book_ok s1) as H1 by (eapply bookless_ok; [|exact H]; now split_and!).
  destruct fetched as [fetched|]; [|eapply bookless_ok; [|exact H1]; now apply keeps_count_bookless].
  destruct (review_booked_ok fetched tick s1 feed _ _ Ef Er H1) as (s2 & E2 & H2 & P2).
  unfold step_bind. rewrite E2. apply (seed_book_ok fetched s2 feed (env s) e1 Ef); [|exact H2]. rewrite P2. exact Er.
Qed.

(** The close sink returns: [OrderChannel::closePosition] catches what the broker
    call throws. *)
Definition close_returns : Prop := forall f intent e, closeSink_ = Some f -> exists e', f intent e = (Ok tt, e').

Lemma emitClose_ok tick (s : machine) b c :
  close_returns -> sideMap (worker s) = {[ws_symbol (spec (worker s)) := b]} -> from_feed (spec (worker s)) b ->
  activeTrades (tradeManager (worker s)) = ∅ -> entrySlippageTenthPips (tradeManager (worker s)) = 0 ->
  Trade.symbol c = ws_symbol (spec (worker s)) ->
  N.of_nat (length (closedTrades (tradeManager (worker s)))) =
    (stats s bookRemoved + stats s strategyCloses + stats s closeDropped + 1)%N ->
  stats s bookSeeded = N.of_nat (length (closedTrades (tradeManager (worker s)))) ->
  N.of_nat (length (closing s)) = stats s strategyCloses -> Forall (addressed (spec (worker s))) (closing s) ->
  book_ok (emit_closes [c] tick s).2.
Proof.
  intros Hret Es Hfeed Em Hsl Hc Hcl Hse Hlen Had. cbn [emit_closes]. unfold emitClose, step_bind, get. rewrite Hc, Es.
  assert (forall s' : machine, worker s' = set_side (delete (ws_symbol (spec (worker s))) (sideMap (worker s))) (worker s) ->
    mirrors (spec (worker s')) (sideMap (worker s')) (tradeManager (worker s')) /\
    spec (worker s') = spec (worker s) /\
    closedTrades (tradeManager (worker s')) = closedTrades (tradeManager (worker s)) /\
    activeTrades (tradeManager (worker s')) = ∅) as Hw.
  { intros s' ->. cbn. rewrite Es. split_and!; try done. split; [done|]. left. split; [apply delete_singleton_eq|done]. }
  assert (forall s' : machine, worker s' = set_side (delete (ws_symbol (spec (worker s))) (sideMap (worker s))) (worker s) ->
    closing s' = closing s -> stats s' = bump closeDropped (stats s) -> book_ok s') as Hdrop.
  { intros s' Ew Ec Est. destruct (Hw s' Ew) as (M1 & M2 & M3 & M4). split; rewrite ?M2, ?M3, ?M4, ?Ec, ?Est; bumps; try done.
    - now rewrite <- M2.
    - lia.
    - rewrite map_size_empty. lia. }
  rewrite lookup_singleton_eq. destruct closeSink_ as [sink|] eqn:Ek; [|now apply Hdrop].
  destruct (String.eqb_spec (bp_dealId b) "") as [Eid|Eid]; [now apply Hdrop|].
  unfold send_close. set (intent := close_intent _ _ _ _). destruct (Hret sink intent (env s) Ek) as [e' ->].
  unfold count, update_worker, step_ret. cbn [snd worker env stats ordered closing].
  match goal with |- book_ok ?s' => destruct (Hw s' eq_refl) as (M1 & M2 & M3 & M4) end.
  split; [exact M1|rewrite M3|rewrite M3, M4|cbn|rewrite M2; cbn]; cbn [stats]; bumps.
  - lia.
  - rewrite map_size_empty. lia.
  - rewrite length_app. cbn [length]. lia.
  - apply Forall_app_2; [exact Had|]. constructor; [|constructor]. exists b, tick. split_and!; try done.
Qed.

Lemma manage_ok {L : ClosesOnly S} tick (s : machine) :
  close_returns -> symbol tick = ws_symbol (spec (worker s)) -> book_ok s -> book_ok (manage tick s).2.
Proof.
  intros Hret Htick H. unfold manage. unfold step_bind at 1, get at 1.
  pose proof (during_closes_own (strategy (worker s)) tick (barStore (worker s)) (tradeManager (worker s))) as Hd.
  destruct (during _ _ _ _) as [strat m]. cbn [snd] in Hd.
  unfold step_bind at 1, update_worker at 1. cbn [spec set_manager set_strategy].
  destruct Hd as [->|(t & Ef & ->)].
  { rewrite drop_all. eapply bookless_ok; [|exact H]. now split_and!. }
  destruct H as [[Hsl Hm] Hc Hs Ht Ha]. unfold findActiveTrade in Ef. rewrite Htick in *.
  destruct Hm as [[_ Em]|(b & t' & Es & Em & Hmir & Hfeed)]; [now rewrite Em in Ef|].
  rewrite Em, lookup_singleton_eq in Ef. injection Ef as ->.
  destruct (closeTrade_booked _ _ _ (exit_side (Trade.direction t) tick) tick Em) as (A1 & A2 & c & A3 & A4).
  rewrite A3, drop_app_length.
  apply (emitClose_ok _ _ b); cbn; rewrite ?A1, ?A2, ?A3, ?length_app; cbn [length]; try done.
  - rewrite A4. now destruct Hmir.
  - lia.
  - rewrite Hs, Em, map_size_singleton. lia.
Qed.

Lemma processTick_book {L : ClosesOnly S} tick (s : machine) :
  close_returns -> symbol tick = ws_symbol (spec (worker s)) -> book_ok s ->
  book_ok (processTick bookSyncInterval tick s).2.
Proof.
  intros Hret Htick H. unfold processTick, step_bind. pose proof (sync_book_ok tick s H) as H1.
  pose proof (sync_orderless bookSyncInterval tick s) as (_ & _ & P1).
  destruct (syncBookIfDue bookSyncInterval tick s) as [[[]|e] s1]; [|exact H1]. cbn [snd] in *.
  pose proof (bars_bookless tick s1) as B2. pose proof (bookless_ok _ _ B2 H1) as H2. destruct B2 as (_ & _ & _ & P2 & _).
  destruct (update_bars tick s1) as [[[]|e] s2]; [|exact H2]. cbn [snd] in *.
  pose proof (entry_bookless tick s2) as B3. pose proof (bookless_ok _ _ B3 H2) as H3. destruct B3 as (_ & _ & _ & P3 & _).
  destruct (try_entry tick s2) as [[[]|e] s3]; [|exact H3]. cbn [snd] in *.
  apply manage_ok; [done|congruence|done].
Qed.

(** The worker's book mirrors the broker. After any ticks of its symbol,
    whatever its environment answers: it holds at most one trade, with the side,
    size and price of the deal in the side map, and the side map a deal the feed
    gave; every deal that was booked is in the book or left it once, removed at
    the broker, closed by the strategy with a close sent, or dropped for want of
    a broker identity; and every close that went out names a confirmed deal as
    the feed gave it. *)
Lemma worker_book_mirrors {L : ClosesOnly S} sp strat (w : Worker) (e : E) (ticks : list PriceData) :
  makeWorker sp strat = Ok w -> close_returns -> Forall (fun t => symbol t = ws_symbol sp) ticks ->
  let s' := workerLoop bookSyncInterval ticks (start w e) in
  mirrors sp (sideMap (worker s')) (tradeManager (worker s')) /\
  let left := N.of_nat (length (closedTrades (tradeManager (worker s')))) in
  left = (stats s' bookRemoved + stats s' strategyCloses + stats s' closeDropped)%N /\
  stats s' bookSeeded = (left + N.of_nat (base.size (activeTrades (tradeManager (worker s')))))%N /\
  N.of_nat (length (closing s')) = stats s' strategyCloses /\
  Forall (addressed sp) (closing s').
Proof.
  intros Hw Hret Ht. destruct (makeWorker_fresh _ _ _ Hw) as (Hsp & Hm & Hside & _).
  assert (forall s : machine, spec (worker s) = sp -> book_ok s -> let s' := workerLoop bookSyncInterval ticks s in
    spec (worker s') = sp /\ book_ok s') as Hloop.
  { clear Hw Hm Hside. induction Ht as [|tick ticks Htick _ IH]; intros s Hs Hb; [done|]. cbn.
    apply IH; [|apply processTick_book; [done|congruence|done]].
    destruct (processTick bookSyncInterval tick s) as [r s1] eqn:Ep. destruct (processTick_orders _ _ _ _ _ Ep) as [Hsp' _].
    cbn [snd]. congruence. }
  destruct (Hloop (start w e) Hsp) as [Hsp' [H1 H2 H3 H4 H5]].
  { split; cbn; rewrite ?Hm, ?Hside; cbn; try done. split; [done|]. now left. }
  intros s'. fold s' in Hsp', H1, H2, H3, H4, H5. rewrite Hsp' in *. rewrite Nat2N.inj_add in H3. cbv zeta. now split_and!.
Qed.

End Book.

(** * A scripted environment: a clock and the deals the broker holds *)

Record desk : Type := mkDesk { dk_clock : Z; dk_deals : list BookedPosition }.

Definition desk_sink (o : OrderIntent) (e : desk) : result unit * desk :=
  (Ok tt, mkDesk (dk_clock e)
            (dk_deals e ++ [mkBooked "DI1" "REF1" (oi_direction o) (dbl_of_Z (oi_size o)) (oi_size o) (oi_ask o) (oi_timestamp o)])).

(** Every position query takes sixteen seconds. *)
Definition desk_seams (close : CloseIntent -> desk -> result unit * desk) : Seams desk := {|
  gate_ := fun _ _ e => (Ok true, e);
  sink_ := desk_sink;
  positions_ := Some (fun _ e => (Ok (Some (Z.of_nat (length (dk_deals e)))), e));
  feed_ := Some (fun _ _ e => (Ok (Some (dk_deals e)), mkDesk (dk_clock e + 16000000) (dk_deals e)));
  closeSink_ := Some close;
  steady_now := dk_clock |}.

Definition close_all (_ : CloseIntent) (e : desk) : result unit * desk := (Ok tt, mkDesk (dk_clock e) []).
Definition close_throws (_ : CloseIntent) (e : desk) : result unit * desk := (Throw RuntimeError, e).

(** Long on every tick, out after a minute. *)
Definition eager : IStrategy unit :=
  {| decide := fun _ _ _ => Ok (Some LONG, tt);
     during := fun _ tick _ m => (tt, (closeIfPastCap tick m (minutes 1)).2) |}.
Lemma eager_closes_only : ClosesOnly unit (I := eager).
Proof. split. intros s tick store m. apply closeIfPastCap_closes_own. Qed.

Definition desk_spec (openCap rateCap : Z) : WorkerSpec :=
  mkSpec "EURUSD" "eager" "s1" (mkTradingVariables "eager" 20 30 1) openCap rateCap false [] [] None.
Definition desk_worker (openCap rateCap : Z) : Worker (S := unit) :=
  mkWorker (desk_spec openCap rateCap) tt emptyStore (newTradeManager 0) ∅ 0 [].
Definition desk_ticks (times : list Z) : list PriceData :=
  map (fun t => mkPriceData 110002 110000 (t * 1000000) "EURUSD") times.
Definition desk_run (close : CloseIntent -> desk -> result unit * desk) (openCap rateCap : Z) (times : list Z)
    : machine (S := unit) (E := desk) :=
  workerLoop (W := quietWorld) (I := eager) (X := desk_seams close) 15000000 (desk_ticks times)
    (start (desk_worker openCap rateCap) (mkDesk 0 [])).

(** A tick that comes late finds the window already moved on: with two orders a
    minute allowed, three fall into the minute up to its time. *)
Example late_tick_slips_through :
  let times := completed (ordered (desk_run close_all 0 2 [100; 101; 161; 130])) in
  length (List.filter (in_minute 130000000) times) = 3%nat.
Proof. vm_compute. reflexivity. Qed.

(** When the close sink throws, the trade has left the book and the side map keeps
    the deal: later syncs find it there and never book it again. *)
Example throwing_close_sink_unbooks :
  let s' := desk_run close_throws 1 5 [0; 20; 61; 80; 100; 120] in
  length (dk_deals (env s')) = 1%nat /\ activeTrades (tradeManager (worker s')) = ∅ /\
  length (map_to_list (sideMap (worker s'))) = 1%nat /\ length (closing s') = 1%nat.
Proof. vm_compute. auto. Qed.
