(* ===== verification/LiveRunner.v ===== *)
(** live/execution/liveStrategyRunner.cppm: the receiver's thread routes each tick
    to the workers of its symbol, every worker takes from its own bounded queue.
    One step relation over the critical sections of the workers' mutexes. *)
From S2P Require Import Prelude Models Config OhlcBuilder BarStore TradeManager Strategy RateWindow Effects LiveWorker.

Section Runner.
Context {W : World} {S : Type} {I : IStrategy S} {E : Type} {X : Seams E}.
Context (bookSyncInterval : Z).
Notation machine := (machine (S := S) (E := E)).

Definition kMaxQueuedTicks : nat := 8192.

(** One worker with its queue; what reached it, what it took and what was shed
    is kept beside. *)
Record lane : Type := mkLane {
  ln_machine : machine;
  ln_queue : list PriceData;
  ln_exited : bool;
  ln_arrived : list PriceData;
  ln_taken : list PriceData;
  ln_shed : list PriceData }.

(** The receiver's thread has a tick in hand for the workers of [rn_pending]. *)
Record runner : Type := mkRunner {
  rn_lanes : list lane;
  rn_pending : list (nat * PriceData);
  rn_stopping : bool;
  rn_routed : N;
  rn_ignored : N;
  rn_dropped : N;
  rn_fed : list PriceData }.

Definition lane_symbol (l : lane) : string := ws_symbol (spec (worker (ln_machine l))).

(** [bySymbol_]: the workers of a symbol, in the order of the specifications. *)
Fixpoint workers_from (i : nat) (lanes : list lane) (sym : string) : list nat :=
  match lanes with
  | [] => []
  | l :: lanes => (if String.eqb (lane_symbol l) sym then [i] else []) ++ workers_from (1 + i) lanes sym
  end.
Definition bySymbol (lanes : list lane) (sym : string) : list nat := workers_from 0 lanes sym.

(** [onTick]: what it will deliver, or one more ignored tick. *)
Definition onTick (tick : PriceData) (r : runner) : runner :=
  match bySymbol (rn_lanes r) (symbol tick) with
  | [] => mkRunner (rn_lanes r) [] (rn_stopping r) (rn_routed r) (rn_ignored r + 1) (rn_dropped r) (rn_fed r ++ [tick])
  | ws => mkRunner (rn_lanes r) (map (fun i => (i, tick)) ws) (rn_stopping r) (rn_routed r) (rn_ignored r)
            (rn_dropped r) (rn_fed r ++ [tick])
  end.

(** The locked part of one delivery: the oldest tick goes when the queue is over. *)
Definition enqueue (tick : PriceData) (l : lane) : lane :=
  let q := ln_queue l ++ [tick] in
  if (kMaxQueuedTicks <? length q)%nat then
    match q with
    | oldest :: q => mkLane (ln_machine l) q (ln_exited l) (ln_arrived l ++ [tick]) (ln_taken l) (ln_shed l ++ [oldest])
    | [] => l
    end
  else mkLane (ln_machine l) q (ln_exited l) (ln_arrived l ++ [tick]) (ln_taken l) (ln_shed l).

Definition overflows (l : lane) : bool := (kMaxQueuedTicks <? length (ln_queue l) + 1)%nat.

Definition deliver (r : runner) : option runner :=
  match rn_pending r with
  | [] => None
  | (i, tick) :: pending =>
      match rn_lanes r !! i with
      | None => None
      | Some l =>
          Some (mkRunner (<[i := enqueue tick l]> (rn_lanes r)) pending (rn_stopping r) (rn_routed r + 1) (rn_ignored r)
                  (rn_dropped r + (if overflows l then 1 else 0)) (rn_fed r))
      end
  end.

(** One turn of [workerLoop]: a tick is taken and processed, or the worker leaves
    when it is told to stop and has nothing left. *)
Definition turn (i : nat) (r : runner) : option runner :=
  match rn_lanes r !! i with
  | None => None
  | Some l =>
      let with_lane l' := mkRunner (<[i := l']> (rn_lanes r)) (rn_pending r) (rn_stopping r) (rn_routed r)
                            (rn_ignored r) (rn_dropped r) (rn_fed r) in
      if ln_exited l then None
      else
        match ln_queue l with
        | tick :: q =>
            Some (with_lane (mkLane (processTick bookSyncInterval tick (ln_machine l)).2 q false (ln_arrived l)
                               (ln_taken l ++ [tick]) (ln_shed l)))
        | [] =>
            if rn_stopping r
            then Some (with_lane (mkLane (ln_machine l) [] true (ln_arrived l) (ln_taken l) (ln_shed l)))
            else None
        end
  end.

Definition request_stop (r : runner) : runner :=
  mkRunner (rn_lanes r) (rn_pending r) true (rn_routed r) (rn_ignored r) (rn_dropped r) (rn_fed r).

Inductive action : Type := Arrives (tick : PriceData) | Delivers | Turns (i : nat) | Stops.

Definition perform (a : action) (r : runner) : option runner :=
  match a with
  | Arrives tick => match rn_pending r with [] => Some (onTick tick r) | _ => None end
  | Delivers => deliver r
  | Turns i => turn i r
  | Stops => Some (request_stop r)
  end.

Inductive runner_step (r r' : runner) : Prop := step_by a : perform a r = Some r' -> runner_step r r'.

Fixpoint performs (l : list action) (r : runner) : option runner :=
  match l with [] => Some r | a :: l => match perform a r with Some r => performs l r | None => None end end.

(** A runner that starts, with the machines of its workers. *)
Definition launch (ms : list machine) : runner :=
  mkRunner (map (fun m => mkLane m [] false [] [] []) ms) [] false 0 0 0 [].

(** * What the queues promise *)

Definition owed (i : nat) (pending : list (nat * PriceData)) : list PriceData :=
  omap (fun p => if Nat.eqb p.1 i then Some p.2 else None) pending.

Definition of_symbol (sym : string) (ticks : list PriceData) : list PriceData :=
  List.filter (fun t => String.eqb (symbol t) sym) ticks.

(** A worker's queue is the newest of what arrived, never too long; what was taken
    arrived in this order before it; nothing is lost but what was shed; and the
    worker is where its taken ticks brought it. *)
Record lane_ok (m0 : machine) (fed : list PriceData) (due : list PriceData) (l : lane) : Prop := mkLaneOk {
  lk_bound : (length (ln_queue l) <= kMaxQueuedTicks)%nat;
  lk_newest : exists past, ln_arrived l = past ++ ln_queue l /\ sublist (ln_taken l) past;
  lk_count : length (ln_arrived l) = (length (ln_taken l) + length (ln_shed l) + length (ln_queue l))%nat;
  lk_lossless : ln_shed l = [] -> ln_arrived l = ln_taken l ++ ln_queue l;
  lk_routed : ln_arrived l ++ due = of_symbol (lane_symbol l) fed;
  lk_machine : ln_machine l = workerLoop bookSyncInterval (ln_taken l) m0;
  lk_spec : spec (worker (ln_machine l)) = spec (worker m0) }.

Definition total (f : lane -> list PriceData) (lanes : list lane) : N :=
  N.of_nat (foldr (fun l n => length (f l) + n)%nat 0%nat lanes).

Record runner_ok (ms : list machine) (r : runner) : Prop := mkRunnerOk {
  rk_lanes : forall i m0, ms !! i = Some m0 -> exists l, rn_lanes r !! i = Some l /\
               lane_ok m0 (rn_fed r) (owed i (rn_pending r)) l;
  rk_size : length (rn_lanes r) = length ms;
  rk_pending : Forall (fun p => (p.1 < length ms)%nat) (rn_pending r);
  rk_counted : rn_routed r = total ln_arrived (rn_lanes r);
  rk_dropped : rn_dropped r = total ln_shed (rn_lanes r) }.

End Runner.

Section RunnerFacts.
Context {W : World} {S : Type} {I : IStrategy S} {E : Type} {X : Seams E}.
Context (bookSyncInterval : Z).
Notation machine := (machine (S := S) (E := E)).
Notation lane := (lane (S := S) (E := E)).
Notation runner := (runner (S := S) (E := E)).

Lemma owed_workers tick sym (lanes : list lane) i : forall k,
  owed i (map (fun j => (j, tick)) (workers_from k lanes sym)) =
  match lanes !! (i - k)%nat with
  | Some l => if (k <=? i)%nat && String.eqb (lane_symbol l) sym then [tick] else []
  | None => []
  end.
Proof.
  induction lanes as [|l lanes IH]; intros k; [done|]. cbn [workers_from]. rewrite map_app. unfold owed in *.
  rewrite omap_app, IH. destruct (Nat.lt_trichotomy i k) as [Hlt|[->|Hgt]].
  - rewrite (proj2 (Nat.leb_gt _ _) Hlt), (proj2 (Nat.leb_gt (1 + k) i)) by lia. cbn [andb].
    destruct (String.eqb _ sym); cbn; rewrite ?(proj2 (Nat.eqb_neq k i)) by lia;
      destruct ((l :: lanes) !! _), (lanes !! _); done.
  - rewrite Nat.sub_diag. cbn [lookup list_lookup]. rewrite Nat.leb_refl. cbn [andb].
    rewrite (proj2 (Nat.leb_gt (1 + k) k)) by lia. cbn [andb].
    destruct (String.eqb _ sym); cbn; rewrite ?Nat.eqb_refl; destruct (lanes !! _); done.
  - replace (i - k)%nat with (Datatypes.S (i - (1 + k)))%nat by lia. cbn [lookup list_lookup].
    rewrite (proj2 (Nat.leb_le k i)), (proj2 (Nat.leb_le (1 + k) i)) by lia.
    destruct (String.eqb (lane_symbol l) sym); cbn; rewrite ?(proj2 (Nat.eqb_neq k i)) by lia; done.
Qed.

Lemma kMaxQueuedTicks_pos : (1 <= kMaxQueuedTicks)%nat.
Proof. apply Nat.leb_le. vm_compute. reflexivity. Qed.

Lemma workers_below sym (lanes : list lane) : forall k,
  Forall (fun j => (j < k + length lanes)%nat) (workers_from k lanes sym).
Proof.
  induction lanes as [|l lanes IH]; intros k; [constructor|]. cbn [workers_from length].
  apply Forall_app_2; [destruct (String.eqb _ _); repeat constructor; lia|].
  eapply Forall_impl; [apply IH|]. intros j Hj. cbn in Hj. lia.
Qed.

Lemma total_insert f (lanes : list lane) i l l' d :
  lanes !! i = Some l -> length (f l') = (length (f l) + d)%nat ->
  total f (<[i := l']> lanes) = (total f lanes + N.of_nat d)%N.
Proof.
  unfold total. rewrite <- Nat2N.inj_add. intros Hl Hd. f_equal. revert i Hl.
  induction lanes as [|x lanes IH]; intros i Hl; [done|]. destruct i as [|i]; cbn in *; [injection Hl as ->; lia|].
  rewrite IH by done. lia.
Qed.

Lemma of_symbol_app sym l1 l2 : of_symbol sym (l1 ++ l2) = of_symbol sym l1 ++ of_symbol sym l2.
Proof. unfold of_symbol. now rewrite List.filter_app. Qed.

Lemma workerLoop_snoc ticks tick (s : machine) :
  workerLoop bookSyncInterval (ticks ++ [tick]) s = (processTick bookSyncInterval tick (workerLoop bookSyncInterval ticks s)).2.
Proof. unfold workerLoop. now rewrite foldl_app. Qed.

Lemma enqueue_ok m0 fed due tick (l : lane) :
  lane_ok bookSyncInterval m0 fed (tick :: due) l -> lane_ok bookSyncInterval m0 fed due (enqueue tick l).
Proof.
  intros [H1 (past & H2 & H2') H3 H4 H5 H6 H7]. unfold enqueue.
  assert (ln_arrived l ++ tick :: due = (ln_arrived l ++ [tick]) ++ due) as Ea by now rewrite <- app_assoc.
  rewrite Ea in H5. destruct (Nat.ltb_spec kMaxQueuedTicks (length (ln_queue l ++ [tick]))) as [Hlt|Hge].
  - rewrite length_app in Hlt. cbn [length] in Hlt. destruct (ln_queue l) as [|oldest q] eqn:Eq; [pose proof kMaxQueuedTicks_pos; cbn [length] in Hlt; lia|].
    cbn [app]. cbn [length] in *. split; cbn [ln_queue ln_arrived ln_taken ln_shed ln_machine]; try done.
    + rewrite length_app. cbn [length]. lia.
    + exists (past ++ [oldest]). split; [rewrite H2, <- !app_assoc; done|]. now apply sublist_inserts_r.
    + rewrite !length_app. cbn [length]. lia.
    + intros Hs. now apply app_nil in Hs as [_ Hs].
  - split; cbn [ln_queue ln_arrived ln_taken ln_shed ln_machine]; try done.
    + exists past. split; [now rewrite H2, app_assoc|done].
    + rewrite !length_app. cbn [length]. lia.
    + intros Hs. now rewrite (H4 Hs), app_assoc.
Qed.

Lemma enqueue_symbol tick (l : lane) : lane_symbol (enqueue tick l) = lane_symbol l.
Proof. unfold enqueue. destruct (_ <? _)%nat; [|done]. now destruct (ln_queue l ++ [tick]). Qed.

Lemma turn_lane_ok m0 fed due tick q (l : lane) :
  ln_queue l = tick :: q -> lane_ok bookSyncInterval m0 fed due l ->
  lane_ok bookSyncInterval m0 fed due
    (mkLane (processTick bookSyncInterval tick (ln_machine l)).2 q false (ln_arrived l) (ln_taken l ++ [tick]) (ln_shed l)).
Proof.
  intros Eq [H1 (past & H2 & H2') H3 H4 H5 H6 H7]. rewrite Eq in *. cbn [length] in *.
  assert (spec (worker (processTick bookSyncInterval tick (ln_machine l)).2) = spec (worker (ln_machine l))) as Es.
  { destruct (processTick bookSyncInterval tick (ln_machine l)) as [r s1] eqn:Ep.
    destruct (processTick_orders _ _ _ _ _ Ep) as [Esp _]. exact Esp. }
  split; cbn [ln_queue ln_arrived ln_taken ln_shed ln_machine]; try done.
  - lia.
  - exists (past ++ [tick]). split; [now rewrite H2, <- app_assoc|]. now apply sublist_app.
  - rewrite length_app. cbn [length]. lia.
  - intros Hs. now rewrite (H4 Hs), <- app_assoc.
  - unfold lane_symbol in *. cbn [ln_machine]. now rewrite Es.
  - now rewrite workerLoop_snoc, <- H6.
  - congruence.
Qed.

End RunnerFacts.

(** * Every run *)

Section RunnerRuns.
Context {W : World} {S : Type} {I : IStrategy S} {E : Type} {X : Seams E}.
Context (bookSyncInterval : Z).
Notation machine := (machine (S := S) (E := E)).
Notation lane := (lane (S := S) (E := E)).
Notation runner := (runner (S := S) (E := E)).
Notation runner_step := (runner_step (S := S) (E := E) bookSyncInterval).
Notation runner_ok := (runner_ok (S := S) (E := E) bookSyncInterval).
Notation lane_ok := (lane_ok (S := S) (E := E) bookSyncInterval).

Lemma onTick_fields tick (r : runner) :
  rn_lanes (onTick tick r) = rn_lanes r /\ rn_fed (onTick tick r) = rn_fed r ++ [tick] /\
  rn_routed (onTick tick r) = rn_routed r /\ rn_dropped (onTick tick r) = rn_dropped r /\
  rn_pending (onTick tick r) = map (fun i => (i, tick)) (bySymbol (rn_lanes r) (symbol tick)).
Proof. unfold onTick. now destruct (bySymbol _ _). Qed.

Lemma onTick_routes ms tick (r : runner) : rn_pending r = [] -> runner_ok ms r -> runner_ok ms (onTick tick r).
Proof.
  intros Hp [H1 H2 H3 H4 H5]. destruct (onTick_fields tick r) as (A & B & C & D & F).
  split; rewrite ?A, ?B, ?C, ?D, ?F; try done.
  - intros i m0 Hi. destruct (H1 i m0 Hi) as (l & Hl & [K1 K2 K3 K4 K5 K6 K7]). exists l. split; [done|].
    split; try done. rewrite Hp in K5. cbn in K5. rewrite app_nil_r in K5. unfold bySymbol. rewrite owed_workers, Nat.sub_0_r, Hl.
    rewrite of_symbol_app, K5. cbn. rewrite (String.eqb_sym (symbol tick)). now destruct (String.eqb _ _).
  - apply Forall_map. rewrite <- H2. eapply Forall_impl; [apply workers_below|]. done.
Qed.

Lemma owed_head i j tick pending :
  owed j ((i, tick) :: pending) = if Nat.eqb i j then tick :: owed j pending else owed j pending.
Proof. unfold owed. cbn. now destruct (Nat.eqb i j). Qed.

Lemma deliver_ok ms (r r' : runner) : deliver r = Some r' -> runner_ok ms r -> runner_ok ms r'.
Proof.
  intros H [H1 H2 H3 H4 H5]. unfold deliver in H. destruct (rn_pending r) as [|[i tick] pending] eqn:Ep; [done|].
  destruct (rn_lanes r !! i) as [l|] eqn:El; [|done]. injection H as <-.
  assert (i < length (rn_lanes r))%nat as Hi by now apply lookup_lt_Some in El.
  split; cbn [rn_lanes rn_pending rn_routed rn_dropped rn_fed].
  - intros j m0 Hj. destruct (H1 j m0 Hj) as (lj & Hlj & K). rewrite owed_head in K.
    destruct (Nat.eqb_spec i j) as [->|Hne].
    + rewrite Hlj in El. injection El as <-. exists (enqueue tick lj). rewrite list_lookup_insert_eq by done.
      split; [done|now apply enqueue_ok].
    + exists lj. now rewrite list_lookup_insert_ne.
  - now rewrite length_insert.
  - now inversion H3.
  - rewrite (total_insert _ _ _ _ _ 1%nat El), H4; [done|]. unfold enqueue.
    destruct (_ <? _)%nat; [destruct (ln_queue l) as [|? ?]|]; cbn [app ln_arrived]; rewrite length_app; done.
  - rewrite (total_insert _ _ _ _ _ (if overflows l then 1%nat else 0%nat) El), H5; [now destruct (overflows l)|].
    unfold overflows, enqueue. rewrite length_app. cbn [length]. destruct (_ <? _)%nat; [|cbn [ln_shed]; lia].
    destruct (ln_queue l) as [|? ?]; cbn [app ln_shed]; rewrite length_app; done.
Qed.

Lemma turn_ok ms i (r r' : runner) : turn bookSyncInterval i r = Some r' -> runner_ok ms r -> runner_ok ms r'.
Proof.
  intros H [H1 H2 H3 H4 H5]. unfold turn in H. destruct (rn_lanes r !! i) as [l|] eqn:El; [|done].
  assert (i < length (rn_lanes r))%nat as Hi by now apply lookup_lt_Some in El.
  assert (forall l', (forall m0 due, lane_ok m0 (rn_fed r) due l -> lane_ok m0 (rn_fed r) due l') ->
    ln_arrived l' = ln_arrived l -> ln_shed l' = ln_shed l ->
    runner_ok ms (mkRunner (<[i := l']> (rn_lanes r)) (rn_pending r) (rn_stopping r) (rn_routed r) (rn_ignored r)
                    (rn_dropped r) (rn_fed r))) as Hset.
  { intros l' Hok Ea Es. split; cbn [rn_lanes rn_pending rn_routed rn_dropped rn_fed]; try done.
    - intros j m0 Hj. destruct (H1 j m0 Hj) as (lj & Hlj & K). destruct (Nat.eq_dec i j) as [->|Hne].
      + rewrite Hlj in El. injection El as <-. exists l'. rewrite list_lookup_insert_eq by done. auto.
      + exists lj. now rewrite list_lookup_insert_ne.
    - now rewrite length_insert.
    - rewrite (total_insert _ _ _ _ _ 0%nat El), H4; [lia|rewrite Ea; lia].
    - rewrite (total_insert _ _ _ _ _ 0%nat El), H5; [lia|rewrite Es; lia]. }
  destruct (ln_exited l); [done|]. destruct (ln_queue l) as [|tick q] eqn:Eq.
  - destruct (rn_stopping r); [|done]. injection H as <-. apply Hset; [|done..].
    intros m0 due [K1 K2 K3 K4 K5 K6 K7]. rewrite Eq in *. now split.
  - injection H as <-. apply Hset; [|done..]. intros m0 due K. now apply turn_lane_ok.
Qed.

Lemma runner_step_ok ms r r' : runner_step r r' -> runner_ok ms r -> runner_ok ms r'.
Proof.
  intros [a H] Hok. destruct a as [tick| |i|]; cbn in H.
  - destruct (rn_pending r) eqn:Ep; [|done]. injection H as <-. now apply onTick_routes.
  - now apply (deliver_ok _ r).
  - now apply (turn_ok _ i r).
  - injection H as <-. destruct Hok. now split.
Qed.

Lemma total_fresh f (ms : list machine) :
  (forall m, length (f (mkLane m [] false [] [] [])) = 0%nat) -> total f (map (fun m => mkLane m [] false [] [] []) ms) = 0%N.
Proof. intros H. unfold total. induction ms as [|m ms IH]; [done|]. cbn. rewrite H. exact IH. Qed.

Lemma runner_reached ms r : rtc runner_step (launch ms) r -> runner_ok ms r.
Proof.
  assert (forall x y, rtc runner_step x y -> runner_ok ms x -> runner_ok ms y) as Hrtc.
  { induction 1 as [|x y z Hs _ IH]; [done|]. intros Hx. apply IH. now apply (runner_step_ok _ x). }
  intros H. apply (Hrtc _ _ H). clear Hrtc H.
  split; cbn; try done.
  - intros i m0 Hi. rewrite list_lookup_fmap, Hi. eexists. split; [reflexivity|].
    split; cbn [ln_queue ln_arrived ln_taken ln_shed ln_machine length]; try done; [apply Nat.le_0_l|exists []; split; [done|constructor]].
  - now rewrite length_map.
  - now rewrite total_fresh.
  - now rewrite total_fresh.
Qed.

End RunnerRuns.

(** * What a worker took *)

Lemma of_symbol_sublist sym ticks : sublist (of_symbol sym ticks) ticks.
Proof.
  induction ticks as [|t ticks IH]; [constructor|]. unfold of_symbol in *. cbn.
  destruct (String.eqb _ _); now constructor.
Qed.

Lemma sublist_map {A B} (f : A -> B) l1 l2 : sublist l1 l2 -> sublist (map f l1) (map f l2).
Proof. induction 1; cbn; now constructor. Qed.

Lemma sublist_elem {A} (l1 l2 : list A) : sublist l1 l2 -> forall x, x ∈ l1 -> x ∈ l2.
Proof. induction 1; intros z Hz; [done|inversion Hz; subst; [now left|right; auto]|right; auto]. Qed.

Lemma sublist_sorted (l1 l2 : list Z) : sublist l1 l2 -> StronglySorted Z.le l2 -> StronglySorted Z.le l1.
Proof.
  induction 1 as [|x l1 l2 Hl IH|x l1 l2 Hl IH]; intros Hs; [done| |]; inversion Hs as [|? ? Hs1 Hf]; subst; [|auto].
  constructor; [auto|]. rewrite Forall_forall in *. intros y Hy. apply Hf. now apply (sublist_elem _ _ Hl).
Qed.

Section Took.
Context {W : World} {S : Type} {I : IStrategy S} {E : Type} {X : Seams E}.
Context (bookSyncInterval : Z).

(** In order, ticks of its symbol; and they made the worker what it is. *)
Lemma lane_took m0 fed due (l : lane (S := S) (E := E)) :
  lane_ok bookSyncInterval m0 fed due l ->
  sublist (ln_taken l) (of_symbol (ws_symbol (spec (worker m0))) fed) /\
  ln_machine l = workerLoop bookSyncInterval (ln_taken l) m0.
Proof.
  intros [_ (past & E1 & E2) _ _ K5 K6 K7]. split; [|exact K6]. unfold lane_symbol in K5. rewrite K7 in K5.
  rewrite <- K5, E1, <- app_assoc. now apply sublist_inserts_r.
Qed.

End Took.

(** * Theorems *)

Section RunnerTheorems.
Context {W : World} {S : Type} {I : IStrategy S} {E : Type} {X : Seams E}.
Context (bookSyncInterval : Z).
Notation machine := (machine (S := S) (E := E)).
Notation lane := (lane (S := S) (E := E)).
Notation runner := (runner (S := S) (E := E)).
Notation runner_step := (runner_step (S := S) (E := E) bookSyncInterval).
Notation lane_ok := (lane_ok (S := S) (E := E) bookSyncInterval).

(** C31: routing loses nothing unnoticed. Whatever the threads' interleaving, for
    every worker: its queue never exceeds its bound and is the newest part of what
    reached it; what it took came in arrival order; what reached it and what the
    receiver still has in hand are the ticks of its symbol, each once; an arrived
    tick was taken, is queued, or was shed for an overflow; and the two counters
    are the totals over the workers. *)
Theorem runner_accounts (ms : list machine) (r : runner) :
  rtc runner_step (launch ms) r ->
  (forall i m0, ms !! i = Some m0 -> exists l, rn_lanes r !! i = Some l /\
     lane_ok m0 (rn_fed r) (owed i (rn_pending r)) l) /\
  rn_routed r = total ln_arrived (rn_lanes r) /\ rn_dropped r = total ln_shed (rn_lanes r).
Proof. intros [H1 _ _ H4 H5]%(runner_reached bookSyncInterval). auto. Qed.

(** A worker told to stop takes what is queued and leaves. *)
Lemma lane_drains i (r : runner) l :
  rn_stopping r = true -> rn_lanes r !! i = Some l -> (ln_exited l = true -> ln_queue l = []) ->
  exists r' l', rtc runner_step r r' /\ rn_lanes r' = <[i := l']> (rn_lanes r) /\ ln_exited l' = true /\
    ln_queue l' = [] /\ rn_stopping r' = true /\ rn_pending r' = rn_pending r /\ rn_fed r' = rn_fed r.
Proof.
  remember (ln_queue l) as q eqn:Eq. revert r l Eq. induction q as [|tick q IH]; intros r l Eq Hs Hl Hx.
  all: assert (i < length (rn_lanes r))%nat as Hi by now apply lookup_lt_Some in Hl.
  - destruct (ln_exited l) eqn:Ex.
    + exists r, l. split_and!; try done. now rewrite list_insert_id.
    + eexists _, _. split.
      { apply rtc_once. exists (Turns i). cbn. unfold turn. rewrite Hl, Ex, <- Eq, Hs. reflexivity. }
      cbn. split_and!; done.
  - destruct (ln_exited l) eqn:Ex; [now specialize (Hx eq_refl)|].
    assert (exists r1, turn bookSyncInterval i r = Some r1) as [r1 Ht] by (unfold turn; rewrite Hl, Ex, <- Eq; eauto).
    assert (Ht' := Ht). unfold turn in Ht'. rewrite Hl, Ex, <- Eq in Ht'. injection Ht' as Er.
    set (l1 := mkLane _ _ _ _ _ _) in Er.
    assert (rn_lanes r1 !! i = Some l1) as Hl1 by (rewrite <- Er; cbn; now rewrite list_lookup_insert_eq).
    destruct (IH r1 l1 eq_refl) as (r' & l' & R1 & R2 & R3); [now rewrite <- Er|done|done|].
    exists r', l'. split.
    { eapply rtc_l; [|exact R1]. exists (Turns i). exact Ht. }
    rewrite R2, <- Er. cbn. rewrite list_insert_insert_eq. split; [done|]. rewrite <- Er in R3. exact R3.
Qed.

(** Nobody leaves before the stop is requested. *)
Lemma runner_works (ms : list machine) (r : runner) :
  rtc runner_step (launch ms) r -> rn_stopping r = false -> forall i l, rn_lanes r !! i = Some l -> ln_exited l = false.
Proof.
  intros H. assert (forall x y, rtc runner_step x y ->
    (rn_stopping x = false -> forall i l, rn_lanes x !! i = Some l -> ln_exited l = false) ->
    (rn_stopping y = false -> forall i l, rn_lanes y !! i = Some l -> ln_exited l = false)) as Hrtc.
  { induction 1 as [|x y z [a Ha] _ IH]; [done|]. intros Hx. apply IH. clear IH. intros Hs i l Hl.
    destruct a as [tick| |j|]; cbn in Ha.
    - destruct (rn_pending x); [|done]. injection Ha as <-. destruct (onTick_fields tick x) as (A & _).
      rewrite A in Hl. assert (rn_stopping x = false) as Hs0 by (revert Hs; unfold onTick; now destruct (bySymbol _ _)). now apply (Hx Hs0 i).
    - unfold deliver in Ha. destruct (rn_pending x) as [|[j tick] pending]; [done|].
      destruct (rn_lanes x !! j) as [lj|] eqn:Ej; [|done]. injection Ha as <-. cbn in *. specialize (Hx Hs).
      destruct (Nat.eq_dec j i) as [->|Hne]; [|rewrite list_lookup_insert_ne in Hl by done; now apply (Hx i)].
      rewrite list_lookup_insert_eq in Hl by now apply lookup_lt_Some in Ej. injection Hl as <-.
      rewrite <- (Hx _ _ Ej). unfold enqueue. destruct (_ <? _)%nat; [|done]. now destruct (ln_queue lj ++ [tick]).
    - unfold turn in Ha. destruct (rn_lanes x !! j) as [lj|] eqn:Ej; [|done].
      destruct (ln_exited lj); [done|]. destruct (ln_queue lj) as [|tick q].
      { destruct (rn_stopping x) eqn:Es; [|done]. injection Ha as <-. cbn in Hs. congruence. }
      injection Ha as <-. cbn in *. destruct (Nat.eq_dec j i) as [->|Hne].
      + rewrite list_lookup_insert_eq in Hl by now apply lookup_lt_Some in Ej. now injection Hl as <-.
      + rewrite list_lookup_insert_ne in Hl by done. now apply (Hx Hs i).
    - injection Ha as <-. now cbn in Hs. }
  apply (Hrtc _ _ H). intros _ i l Hl. cbn in Hl. rewrite list_lookup_fmap in Hl. destruct (ms !! i); [|done]. now injection Hl as <-.
Qed.

(** C32: stopping is lossless. Once the receiver is done, the workers can finish
    after the stop; then every one has left with an empty queue, and each tick of
    its symbol was processed or shed: all of them when none was shed. *)
Theorem stop_drains (ms : list machine) (r : runner) :
  rtc runner_step (launch ms) r -> rn_stopping r = false -> rn_pending r = [] ->
  exists r', rtc runner_step (request_stop r) r' /\ rn_fed r' = rn_fed r /\
    forall i m0, ms !! i = Some m0 -> exists l, rn_lanes r' !! i = Some l /\ ln_exited l = true /\ ln_queue l = [] /\
      length (of_symbol (ws_symbol (spec (worker m0))) (rn_fed r)) = (length (ln_taken l) + length (ln_shed l))%nat /\
      (ln_shed l = [] -> ln_taken l = of_symbol (ws_symbol (spec (worker m0))) (rn_fed r)).
Proof.
  intros Hr Hs Hp. pose proof (runner_works ms r Hr Hs) as Hworks.
  assert (rtc runner_step (launch ms) (request_stop r)) as Hr0 by (eapply rtc_r; [exact Hr|now exists Stops]).
  assert (forall n, (n <= length ms)%nat -> exists r', rtc runner_step (request_stop r) r' /\ rn_stopping r' = true /\
    rn_pending r' = [] /\ rn_fed r' = rn_fed r /\
    forall i l, rn_lanes r' !! i = Some l ->
      if (i <? n)%nat then ln_exited l = true /\ ln_queue l = [] else ln_exited l = false) as Hall.
  { induction n as [|n IH]; intros Hn; [exists (request_stop r); split_and!; try done; exact Hworks|].
    destruct (IH ltac:(lia)) as (r1 & R1 & S1 & P1 & F1 & X1).
    destruct (runner_reached bookSyncInterval ms r1) as [H1 H2 _ _ _]; [now transitivity (request_stop r)|].
    destruct (lookup_lt_is_Some_2 ms n) as [m0 Hm]; [lia|]. destruct (H1 n m0 Hm) as (l & Hl & _).
    pose proof (X1 n l Hl) as Hx. rewrite Nat.ltb_irrefl in Hx.
    destruct (lane_drains n r1 l S1 Hl) as (r2 & l2 & R2 & L2 & E2 & Q2 & S2 & P2 & F2); [now rewrite Hx|].
    exists r2. split_and!; [now transitivity r1|done|congruence|congruence|].
    intros i x Hlk. rewrite L2 in Hlk. destruct (Nat.eq_dec i n) as [->|Hne].
    - rewrite list_lookup_insert_eq in Hlk by now apply lookup_lt_Some in Hl. injection Hlk as <-.
      now rewrite (proj2 (Nat.ltb_lt n (Datatypes.S n))) by lia.
    - rewrite list_lookup_insert_ne in Hlk by done. specialize (X1 i x Hlk).
      destruct (Nat.ltb_spec i n), (Nat.ltb_spec i (Datatypes.S n)); (done || lia). }
  destruct (Hall (length ms) ltac:(lia)) as (r' & R' & S' & P' & F' & X').
  exists r'. split_and!; [done..|]. intros i m0 Hi.
  destruct (runner_reached bookSyncInterval ms r') as [H1 _ _ _ _]; [now transitivity (request_stop r)|].
  destruct (H1 i m0 Hi) as (l & Hl & [K1 K2 K3 K4 K5 K6 K7]). rewrite P' in K5. cbn in K5. rewrite app_nil_r, F' in K5.
  pose proof (X' i l Hl) as Hx. apply lookup_lt_Some in Hi as Hlt. rewrite (proj2 (Nat.ltb_lt _ _) Hlt) in Hx.
  destruct Hx as [Ex Eq]. rewrite Eq in *. cbn [length] in *.
  unfold lane_symbol in K5. rewrite K7 in K5. exists l. split_and!; try done.
  - rewrite <- K5. lia.
  - intros Hsh. rewrite <- K5, (K4 Hsh). now rewrite app_nil_r.
Qed.



End RunnerTheorems.

(** * Two workers on a scripted desk *)

Lemma performs_reach {W : World} {S E : Type} {I : IStrategy S} {X : Seams E} sync l :
  forall r r' : runner (S := S) (E := E), performs sync l r = Some r' -> rtc (runner_step sync) r r'.
Proof.
  induction l as [|a l IH]; intros r r' H; cbn in H; [injection H as <-; reflexivity|].
  destruct (perform sync a r) as [r1|] eqn:Ea; [|done]. apply (rtc_l _ r r1 r'); [exists a; exact Ea|now apply IH].
Qed.

Definition demo_machines (openCap rateCap : Z) : list (machine (S := unit) (E := desk)) :=
  [start (desk_worker openCap rateCap) (mkDesk 0 []); start (desk_worker 1 1) (mkDesk 0 [])].

(** Each tick goes to both workers; the first one takes it at once. *)
Definition demo_actions (times : list Z) : list action :=
  concat (map (fun tick => [Arrives tick; Delivers; Delivers; Turns 0]) (desk_ticks times)).

Definition demo_performs (openCap rateCap : Z) (times : list Z) : option (runner (S := unit) (E := desk)) :=
  performs (W := quietWorld) (I := eager) (X := desk_seams close_all) 15000000 (demo_actions times)
    (launch (demo_machines openCap rateCap)).

Definition demo_run (openCap rateCap : Z) (times : list Z) : runner (S := unit) (E := desk) :=
  default (launch (demo_machines openCap rateCap)) (demo_performs openCap rateCap times).

Lemma demo_run_reached openCap rateCap times :
  bool_decide (is_Some (demo_performs openCap rateCap times)) = true ->
  rtc (runner_step (W := quietWorld) (I := eager) (X := desk_seams close_all) 15000000)
    (launch (demo_machines openCap rateCap)) (demo_run openCap rateCap times).
Proof.
  unfold demo_run. intros H%bool_decide_eq_true. destruct H as [r E]. rewrite E. cbn [default].
  exact (performs_reach _ _ _ _ E).
Qed.

Lemma runner_accounts_witness :
  let r := demo_run 0 2 [100; 101; 102; 161] in
  rn_routed r = 8%N /\ rn_routed r = total ln_arrived (rn_lanes r) /\ rn_dropped r = total ln_shed (rn_lanes r).
Proof.
  split; [vm_compute; reflexivity|].
  exact (proj2 (runner_accounts (W := quietWorld) (I := eager) (X := desk_seams close_all) 15000000 (demo_machines 0 2) _
    (demo_run_reached 0 2 [100; 101; 102; 161] ltac:(vm_compute; reflexivity)))).
Defined.

Lemma stop_drains_witness :
  let r := demo_run 0 2 [100; 101; 102; 161] in
  map (fun l => length (ln_queue l)) (rn_lanes r) = [0; 4]%nat /\
  exists r' : runner (S := unit) (E := desk), rn_fed r' = rn_fed r /\
    exists l : lane (S := unit) (E := desk), rn_lanes r' !! 1%nat = Some l /\ ln_exited l = true /\ ln_queue l = [].
Proof.
  split; [vm_compute; reflexivity|].
  destruct (stop_drains (W := quietWorld) (I := eager) (X := desk_seams close_all) 15000000 (demo_machines 0 2) _
    (demo_run_reached 0 2 [100; 101; 102; 161] ltac:(vm_compute; reflexivity)) ltac:(vm_compute; reflexivity)
    ltac:(vm_compute; reflexivity)) as (r' & _ & Hfed & H).
  exists r'. split; [exact Hfed|]. destruct (H 1%nat _ eq_refl) as (l & Hl & Hx & Hq & _). eauto.
Defined.


