(* ===== verification/Markets.v ===== *)
(** live/broker/marketDefinitions.cppm: the broker's markets, by engine symbol and
    by the contract traded. *)
From Stdlib Require Import ZArith Lia.
From stdpp Require Import base list strings.
From S2P Require Import Prelude Models Double SymbolScale.
Open Scope Z_scope.

Inductive MarketType : Type := Forex | Indice.

Record MarketDefinition : Type := mkMarket {
  market_symbol : string;
  igMarketId : string;
  epicCfd : string;
  epicMini : string;
  currency : string;
  polygonIdentifier : string;
  polygonScale : double;
  market_type : MarketType;
  tradeSizeModifier : double }.

Definition sizeModifier (m : MarketDefinition) : double :=
  if dbl_ltb dbl_zero (tradeSizeModifier m) then tradeSizeModifier m else dbl_of_Z 1.

Definition kMarkets : list MarketDefinition :=
  [
    mkMarket "AUDNZD" "AUDNZD" "CS.D.AUDNZD.CFD.IP" "CS.D.AUDNZD.MINI.IP" "NZD" "C.AUD/NZD"
      dbl_zero Forex dbl_zero;
    mkMarket "AUDUSD" "AUDUSD" "CS.D.AUDUSD.CFD.IP" "CS.D.AUDUSD.MINI.IP" "USD" "C.AUD/USD"
      dbl_zero Forex dbl_zero;
    mkMarket "AUSIDXAUD" "AUSIDXAUD" "IX.D.ASX.IFS.IP" "IX.D.ASX.IFS.IP" "GBP" ""
      dbl_zero Indice dbl_zero;
    mkMarket "BRENTCMDUSD" "BRENTCMDUSD" "CC.D.LCO.UMP.IP" "CC.D.LCO.UMP.IP" "GBP" ""
      dbl_zero Indice dbl_zero;
    mkMarket "COPPERCMDUSD" "COPPERCMDUSD" "CC.D.HG.UMP.IP" "CC.D.HG.UMP.IP" "GBP" ""
      dbl_zero Indice dbl_zero;
    mkMarket "DEUIDXEUR" "DEUIDXEUR" "IX.D.DAX.IFS.IP" "IX.D.DAX.IFS.IP" "GBP" ""
      dbl_zero Indice dbl_zero;
    mkMarket "EURAUD" "EURAUD" "CS.D.EURAUD.CFD.IP" "CS.D.EURAUD.MINI.IP" "AUD" "C.EUR/AUD"
      dbl_zero Forex dbl_zero;
    mkMarket "EURCHF" "EURCHF" "CS.D.EURCHF.CFD.IP" "CS.D.EURCHF.MINI.IP" "CHF" "C.EUR/CHF"
      dbl_zero Forex dbl_zero;
    mkMarket "EURGBP" "EURGBP" "CS.D.EURGBP.CFD.IP" "CS.D.EURGBP.MINI.IP" "GBP" "C.EUR/GBP"
      dbl_zero Forex dbl_zero;
    mkMarket "EURJPY" "EURJPY" "CS.D.EURJPY.CFD.IP" "CS.D.EURJPY.MINI.IP" "JPY" "C.EUR/JPY"
      dbl_zero Forex dbl_zero;
    mkMarket "EURNOK" "EURNOK" "CS.D.EURNOK.CFD.IP" "CS.D.EURNOK.MINI.IP" "NOK" "C.EUR/NOK"
      dbl_zero Forex dbl_zero;
    mkMarket "EURUSD" "EURUSD" "CS.D.EURUSD.CFD.IP" "CS.D.EURUSD.MINI.IP" "USD" "C.EUR/USD"
      dbl_zero Forex dbl_zero;
    mkMarket "FRAIDXEUR" "FRAIDXEUR" "IX.D.CAC.IFS.IP" "IX.D.CAC.IFS.IP" "GBP" ""
      dbl_zero Indice dbl_zero;
    mkMarket "GBPJPY" "GBPJPY" "CS.D.GBPJPY.CFD.IP" "CS.D.GBPJPY.MINI.IP" "JPY" "C.GBP/JPY"
      dbl_zero Forex dbl_zero;
    mkMarket "GBPUSD" "GBPUSD" "CS.D.GBPUSD.CFD.IP" "CS.D.GBPUSD.MINI.IP" "USD" "C.GBP/USD"
      dbl_zero Forex dbl_zero;
    mkMarket "GBRIDXGBP" "GBRIDXGBP" "IX.D.FTSE.CFD.IP" "IX.D.FTSE.IFM.IP" "GBP" ""
      dbl_zero Indice (dbl_decimal 5 1);
    mkMarket "HKGIDXHKD" "HKGIDXHKD" "IX.D.HANGSENG.IFU.IP" "IX.D.HANGSENG.IFU.IP" "USD" ""
      dbl_zero Indice dbl_zero;
    mkMarket "JPNIDXJPY" "JPNIDXJPY" "IX.D.NIKKEI.IFM.IP" "IX.D.NIKKEI.IFM.IP" "USD" ""
      dbl_zero Indice dbl_zero;
    mkMarket "LIGHTCMDUSD" "LIGHTCMDUSD" "CC.D.CL.UMP.IP" "CC.D.CL.UMP.IP" "GBP" ""
      dbl_zero Indice dbl_zero;
    mkMarket "NZDUSD" "NZDUSD" "CS.D.NZDUSD.CFD.IP" "CS.D.NZDUSD.MINI.IP" "USD" "C.NZD/USD"
      dbl_zero Forex dbl_zero;
    mkMarket "USA30IDXUSD" "USA30IDXUSD" "IX.D.DOW.IFS.IP" "IX.D.DOW.IFS.IP" "GBP" ""
      dbl_zero Indice dbl_zero;
    mkMarket "USA500IDXUSD" "USA500IDXUSD" "IX.D.SPTRD.IFS.IP" "IX.D.SPTRD.IFS.IP" "GBP" ""
      dbl_zero Indice dbl_zero;
    mkMarket "USATECHIDXUSD" "USATECHIDXUSD" "IX.D.NASDAQ.IFS.IP" "IX.D.NASDAQ.IFS.IP" "GBP" ""
      dbl_zero Indice dbl_zero;
    mkMarket "USDCAD" "USDCAD" "CS.D.USDCAD.CFD.IP" "CS.D.USDCAD.MINI.IP" "CAD" "C.USD/CAD"
      dbl_zero Forex dbl_zero;
    mkMarket "USDCHF" "USDCHF" "CS.D.USDCHF.CFD.IP" "CS.D.USDCHF.MINI.IP" "CHF" "C.USD/CHF"
      dbl_zero Forex dbl_zero;
    mkMarket "USDJPY" "USDJPY" "CS.D.USDJPY.CFD.IP" "CS.D.USDJPY.MINI.IP" "JPY" "C.USD/JPY"
      dbl_zero Forex dbl_zero;
    mkMarket "USDSEK" "USDSEK" "CS.D.USDSEK.CFD.IP" "CS.D.USDSEK.MINI.IP" "SEK" "C.USD/SEK"
      dbl_zero Forex dbl_zero;
    mkMarket "XAGUSD" "XAGUSD" "CS.D.CFDSILVER.CFM.IP" "CS.D.CFDSILVER.CFM.IP" "USD" "C.XAG/USD"
      (dbl_of_Z 100) Forex (dbl_decimal 2 1);
    mkMarket "XAUUSD" "XAUUSD" "CS.D.CFPGOLD.CFP.IP" "CS.D.CFPGOLD.CFP.IP" "GBP" "C.XAU/USD"
      dbl_zero Forex (dbl_decimal 10 1) ]%string.

Definition kTradableSymbols : list string := map market_symbol kMarkets.

Definition findMarket (symbol : string) : option MarketDefinition :=
  table_search market_symbol kMarkets symbol.

(** A linear scan, the first match. *)
Definition findMarketByEpicMini (epic : string) : option MarketDefinition :=
  List.find (fun entry => String.eqb (epicMini entry) epic) kMarkets.

(** * Facts *)

(** The [static_assert] under the table. *)
Lemma markets_sorted : table_sorted market_symbol kMarkets = true.
Proof. vm_compute. reflexivity. Qed.

Lemma findMarket_in s m : findMarket s = Some m -> m ∈ kMarkets /\ market_symbol m = s.
Proof.
  unfold findMarket. rewrite table_search_find by apply markets_sorted.
  intros [Hin Heq]%List.find_some. split; [now apply list_elem_of_In|now apply String.eqb_eq].
Qed.

(** The two tables cover the same symbols, in the same order. *)
Lemma tables_agree : kTradableSymbols = map entry_symbol kTable.
Proof. vm_compute. reflexivity. Qed.

(** Anything priced can be traded, and the other way round. *)
Lemma tradable_iff_priced s : findMarket s <> None <-> get s <> kUnknown.
Proof.
  unfold findMarket, get. rewrite findEntry_find, table_search_find by apply markets_sorted.
  pose proof tables_agree as T.
  assert (forall (l : list MarketDefinition) (k : list Entry), map market_symbol l = map entry_symbol k ->
    (List.find (fun e => String.eqb (market_symbol e) s) l <> None <->
     List.find (fun e => String.eqb (entry_symbol e) s) k <> None)) as H.
  { induction l as [|m l IH]; intros [|e k] E; cbn in *; try done. injection E as E1 E2.
    rewrite <- E1. destruct (String.eqb _ _); [done|]. now apply IH. }
  rewrite (H _ _ T). destruct (List.find _ kTable) as [e|] eqn:E; [|done].
  split; [|done]. intros _. apply List.find_some in E as [Hin _].
  assert (forallb (fun e => negb (scale e =? 0)) kTable = true) as Hall by (vm_compute; reflexivity).
  rewrite forallb_forall in Hall. now apply Z.eqb_neq, negb_true_iff, Hall.
Qed.

(** Each market's contract leads back to it: no two share one. *)
Lemma epic_round_trip m : m ∈ kMarkets -> findMarketByEpicMini (epicMini m) = Some m.
Proof.
  intros Hin%list_elem_of_In.
  assert (List.NoDup (map epicMini kMarkets)) as Hn.
  { apply NoDup_ListNoDup. apply (bool_decide_unpack _). vm_compute. exact I. }
  unfold findMarketByEpicMini. revert Hn Hin. generalize kMarkets.
  induction l as [|e l IH]; intros Hn Hin; [done|]. cbn in *. inversion Hn as [|? ? Hx Hn']; subst.
  destruct Hin as [->|Hin]; [now rewrite String.eqb_refl|].
  destruct (String.eqb_spec (epicMini e) (epicMini m)) as [E|_]; [|now apply IH].
  destruct Hx. rewrite E. now apply in_map.
Qed.

(** What reaches the broker is a whole multiple, half or fifth of the size. *)
Lemma sizeModifier_cases m :
  m ∈ kMarkets -> sizeModifier m = dbl_of_Z 1 \/ sizeModifier m = dbl_decimal 5 1 \/ sizeModifier m = dbl_decimal 2 1.
Proof.
  intros Hin. unfold kMarkets in Hin.
  repeat (apply elem_of_cons in Hin as [->|Hin]; [vm_compute; auto|]). now apply elem_of_nil in Hin.
Qed.
