(* ===== verification/IgMarkets.v ===== *)
(** live/broker/igMarkets.cppm: what is exchanged with the broker, its codecs, and
    the outcomes the order channel reacts to. *)
From Stdlib Require Import ZArith Lia.
From stdpp Require Import base list strings.
From S2P Require Import Prelude Double Json JsonDump JsonParse JsonRoundTrip ConfigJson Positions.
Open Scope Z_scope.

(** * Data *)

Record TradeOpenObj : Type := mkOpen {
  open_currencyCode : string;
  open_epic : string;
  open_expiry : string;
  open_direction : string;
  open_size : double;
  open_forceOpen : bool;
  open_guaranteedStop : bool;
  open_orderType : string;
  open_stopDistance : Z;
  open_limitDistance : Z;
  open_dealReference : string }.

Record TradeCloseObj : Type := mkClose {
  close_orderType : string;
  close_direction : string;
  close_dealId : string;
  close_size : double }.

Record IGPositionResponseObject : Type := mkResponse {
  response_dealReference : string;
  errorCode : option string }.

Record DealConfirmation : Type := mkConfirmation {
  confirm_dealId : string;
  confirm_dealReference : string;
  dealStatus : string;
  confirm_reason : string }.

Record OrderContext : Type := mkContext {
  cx_strategyUuid : string;
  cx_strategyName : string;
  cx_symbol : string;
  cx_openDirection : string }.

Inductive OpenStatus : Type := Accepted | Rejected | OpenFailed.

Record OpenResult : Type := mkOpenResult {
  or_status : OpenStatus;
  or_dealReference : string;
  or_dealId : string;
  or_reason : string }.

Inductive CloseStatus : Type := CloseOk | Gone | CloseFailed.

Record CloseResult : Type := mkCloseResult { cr_status : CloseStatus; cr_reason : string }.

(** * Codecs *)

(** The optional legs and the reference are set only when there is one. *)
Definition open_extras (order : TradeOpenObj) : list (string * json) :=
  (if 0 <? open_stopDistance order then [("stopDistance", JInteger (open_stopDistance order))] else []) ++
  (if 0 <? open_limitDistance order then [("limitDistance", JInteger (open_limitDistance order))] else []) ++
  (if String.eqb (open_dealReference order) "" then [] else [("dealReference", JString (open_dealReference order))]).

Definition open_members (order : TradeOpenObj) : list (string * json) :=
  [("currencyCode", JString (open_currencyCode order));
   ("epic", JString (open_epic order));
   ("expiry", JString (open_expiry order));
   ("direction", JString (open_direction order));
   ("size", JFloat (open_size order));
   ("forceOpen", JBoolean (open_forceOpen order));
   ("guaranteedStop", JBoolean (open_guaranteedStop order));
   ("orderType", JString (open_orderType order))].

Fixpoint set_all (pairs : list (string * json)) (j : json) : result json :=
  match pairs with
  | [] => Ok j
  | (k, v) :: pairs => j <~ json_set k v j ; set_all pairs j
  end.

Definition encodeTradeOpen (order : TradeOpenObj) : result string :=
  body <~ set_all (open_extras order) (json_object (open_members order)) ; dump body.

Definition encodeTradeClose (close : TradeCloseObj) : result string :=
  dump (json_object
          [("orderType", JString (close_orderType close));
           ("direction", JString (close_direction close));
           ("dealId", JString (close_dealId close));
           ("size", JFloat (close_size close))]).

Definition parsePositionResponse (body : string) : option IGPositionResponseObject :=
  match parse body with
  | Ok parsed =>
      if is_object parsed
      then Some (mkResponse (readString "dealReference" parsed)
                   (match json_find "errorCode" parsed with Some (JString s) => Some s | _ => None end))
      else None
  | Throw _ => None
  end.

Definition parseDealConfirmation (body : string) : option DealConfirmation :=
  match parse body with
  | Ok parsed =>
      if is_object parsed
      then Some (mkConfirmation (readString "dealId" parsed) (readString "dealReference" parsed)
                   (readString "dealStatus" parsed) (readString "reason" parsed))
      else None
  | Throw _ => None
  end.

(** Closing a position trades the opposite side. *)
Definition closingDirection (openBrokerDirection : string) : string :=
  if String.eqb openBrokerDirection "BUY" then "SELL" else "BUY".

(** * Facts *)

Lemma set_all_object pairs m :
  set_all pairs (JObject m) = Ok (JObject (foldl (fun m kv => obj_set kv.1 kv.2 m) m pairs)).
Proof. revert m. induction pairs as [|[k v] pairs IH]; intros m; [done|]. cbn. apply IH. Qed.
