(* ===== verification/IgRest.v ===== *)
(** shared/ig/igRestClient.cpp and shared/aws/dynamoAuth.cpp: one bounded, retried
    exchange with the broker, and where its session comes from. What an attempt
    meets on the network and what the session store answers are inputs, consumed
    one by one; once they run out nothing answers. *)
From Stdlib Require Import ZArith Lia.
From stdpp Require Import base gmap list strings.
From S2P Require Import Prelude Json StdText Redis.
Open Scope Z_scope.

Record Auth : Type := mkAuth { auth_url : string; apiKey : string; cst : string; xSecurityToken : string }.
Definition Headers : Type := list (string * string).
Record HttpResponse : Type := mkHttp { status : Z; http_body : string }.

(** * Headers *)

Definition caseInsensitiveEquals (a b : string) : bool :=
  bool_decide (map lower (chars a) = map lower (chars b)).

Fixpoint versionFor (extraHeaders : Headers) : string :=
  match extraHeaders with
  | [] => "2"
  | (name, value) :: rest =>
      if caseInsensitiveEquals name "_method" && caseInsensitiveEquals value "delete" then "1" else versionFor rest
  end.

Definition hasHeader (headers : Headers) (name : string) : bool :=
  existsb (fun h => caseInsensitiveEquals h.1 name) headers.

(** * The exchange *)

Record HttpRequest : Type := mkRequest {
  rq_url : string; rq_method : string; rq_headers : list string; rq_body : string }.

Definition header_line (h : string * string) : string := h.1 +:+ ": " +:+ h.2.

Definition request_headers (auth : Auth) (extraHeaders : Headers) : list string :=
  (["Content-Type: application/json; charset=UTF-8"; "Accept: application/json";
    "X-IG-API-KEY: " +:+ apiKey auth; "CST: " +:+ cst auth; "X-SECURITY-TOKEN: " +:+ xSecurityToken auth] ++
   (if hasHeader extraHeaders "Version" then [] else ["Version: " +:+ versionFor extraHeaders]) ++
   map header_line extraHeaders)%list.

(** What an attempt meets: no handle, a transport failure, a response; the last
    two take some microseconds. *)
Inductive Exchange : Type :=
  | NoHandle
  | TransportFailure (took : N)
  | Answered (took : N) (response : HttpResponse).

(** What the session store answers: an error, or the string attributes of the
    item, none for a missing one. *)
Inductive Pull : Type := ServiceError | Item (fields : gmap string string).

Record io (server : Type) : Type := mkIo {
  redis : world server;
  exchanges : list Exchange;
  pulls : list Pull;
  sent : list (HttpRequest * Exchange);
  audited : list string }.
Arguments mkIo {server} _ _ _ _ _.
Arguments redis {server} _.
Arguments exchanges {server} _.
Arguments pulls {server} _.
Arguments sent {server} _.
Arguments audited {server} _.

Section Transport.
Context {server : Type}.
Implicit Types s : io server.

Definition sleep (micros : Z) (s : io server) : io server :=
  mkIo (mkWorld (w_server (redis s)) (w_clock (redis s) + micros) (w_net (redis s)))
    (exchanges s) (pulls s) (sent s) (audited s).

Definition with_redis (w : world server) (s : io server) : io server :=
  mkIo w (exchanges s) (pulls s) (sent s) (audited s).

Definition next_exchange (s : io server) : Exchange * list Exchange :=
  match exchanges s with [] => (TransportFailure 0, []) | e :: rest => (e, rest) end.

Definition attempt (auth : Auth) (path method jsonBody : string) (extraHeaders : Headers) (s : io server)
    : option HttpResponse * io server :=
  let '(e, rest) := next_exchange s in
  let r := mkRequest (auth_url auth +:+ path) method (request_headers auth extraHeaders) jsonBody in
  let s' log := mkIo (redis s) rest (pulls s) (sent s ++ log)%list (audited s) in
  match e with
  | NoHandle => (None, s' [])
  | TransportFailure took => (None, sleep (Z.of_N took) (s' [(r, e)]))
  | Answered took response => (Some response, sleep (Z.of_N took) (s' [(r, e)]))
  end.

Definition transient (r : HttpResponse) : bool := (500 <=? status r) || (status r =? 408).

(** Attempts [attemptNo], [attemptNo + 1], ..., with [n] of them left; the last
    outcome is kept when they are exhausted. *)
Fixpoint execute_from (n : nat) (attemptNo : Z) (response : option HttpResponse) (auth : Auth)
    (path method jsonBody : string) (extraHeaders : Headers) (s : io server)
    : option HttpResponse * io server :=
  match n with
  | O => (response, s)
  | S n =>
      let s := if 0 <? attemptNo then sleep (1000000 * 2 ^ attemptNo) s else s in
      let '(response, s) := attempt auth path method jsonBody extraHeaders s in
      match response with
      | Some r =>
          if transient r then execute_from n (attemptNo + 1) response auth path method jsonBody extraHeaders s
          else (response, s)
      | None => execute_from n (attemptNo + 1) response auth path method jsonBody extraHeaders s
      end
  end.

Definition execute (auth : Auth) (path method jsonBody : string) (extraHeaders : Headers) (maxRetries : Z)
    : io server -> option HttpResponse * io server :=
  execute_from (Z.to_nat (maxRetries + 1)) 0 None auth path method jsonBody extraHeaders.

(** * The session *)

Definition authKey (environment : string) : string := "Auth#" +:+ environment.

Definition authFromItem (item : gmap string string) : option Auth :=
  let field name := default EmptyString (item !! name) in
  let auth := mkAuth (field "url") (field "apikey") (field "CST") (field "xSecurityToken") in
  if String.eqb (auth_url auth) "" || String.eqb (apiKey auth) "" || String.eqb (cst auth) ""
     || String.eqb (xSecurityToken auth) ""
  then None else Some auth.

(** The session, and whether a failure is worth another try. *)
Definition pullOnce (s : io server) : option Auth * bool * io server :=
  let '(p, rest) := match pulls s with [] => (ServiceError, []) | p :: rest => (p, rest) end in
  let s := mkIo (redis s) (exchanges s) rest (sent s) (audited s) in
  match p with
  | ServiceError => (None, true, s)
  | Item fields => (if bool_decide (fields = ∅) then None else authFromItem fields, false, s)
  end.

Definition pullAuthWithRetry (s : io server) : option Auth * io server :=
  let '(auth, retryable, s) := pullOnce s in
  match auth with
  | Some auth => (Some auth, s)
  | None =>
      if (retryable : bool) then let '(auth, _, s) := pullOnce (sleep 100000 s) in (auth, s) else (None, s)
  end.

(** * Facts *)

Lemma attempt_sends auth path method body extra s r s' :
  attempt auth path method body extra s = (r, s') ->
  exists log, sent s' = (sent s ++ log)%list /\ (length log <= 1)%nat /\ audited s' = audited s /\
    pulls s' = pulls s /\ w_clock (redis s) <= w_clock (redis s') /\
    Forall (fun x => rq_method x.1 = method /\ rq_url x.1 = auth_url auth +:+ path /\ rq_body x.1 = body) log /\
    match r with
    | Some response => exists rq took, log = [(rq, Answered took response)]
    | None => Forall (fun x => exists took, x.2 = TransportFailure took) log
    end.
Proof.
  unfold attempt. destruct (next_exchange s) as [e rest]. destruct e as [|took|took response]; intros E; simplify_eq; cbn.
  - exists []. rewrite app_nil_r. cbn [length]. split_and!; (done || lia || constructor).
  - eexists [_]. split_and!; [done|cbn; lia|done|done|lia|repeat constructor|]. repeat constructor. eauto.
  - eexists [_]. split_and!; [done|cbn; lia|done|done|lia|repeat constructor|]. eauto.
Qed.

(** Every attempt sends the same request, at most once each; every answer but the
    one returned is transient. *)
Lemma execute_from_sends n auth path method body extra : forall k response s r s',
  execute_from n k response auth path method body extra s = (r, s') ->
  exists log, sent s' = (sent s ++ log)%list /\ (length log <= n)%nat /\ audited s' = audited s /\
    w_clock (redis s) <= w_clock (redis s') /\
    Forall (fun x => rq_method x.1 = method /\ rq_url x.1 = auth_url auth +:+ path /\ rq_body x.1 = body /\
                     match x.2 with Answered _ a => transient a = true \/ r = Some a | _ => True end) log /\
    (r = response \/ match r with Some r => exists rq took, (rq, Answered took r) ∈ log | None => True end).
Proof.
  induction n as [|n IH]; intros k response s r s' E; cbn [execute_from] in E.
  { simplify_eq. exists []. rewrite app_nil_r. cbn [length]. split_and!; auto; lia. }
  set (s1 := if 0 <? k then _ else s) in E.
  assert (sent s1 = sent s /\ audited s1 = audited s /\ w_clock (redis s) <= w_clock (redis s1)) as (S1 & S2 & S3).
  { unfold s1. destruct (Z.ltb_spec 0 k); [|split_and!; (done || lia)]. cbn. split_and!; try done.
    assert (0 <= 2 ^ k) by (apply Z.pow_nonneg; lia). lia. }
  destruct (attempt auth path method body extra s1) as [r1 s2] eqn:Ea.
  destruct (attempt_sends _ _ _ _ _ _ _ _ Ea) as (log1 & L1 & L2 & L3 & _ & L4 & L5 & L6). rewrite S1 in L1.
  set (fits r x := rq_method (fst x) = method /\ rq_url x.1 = auth_url auth +:+ path /\ rq_body x.1 = body /\
    match x.2 with Answered _ a => transient a = true \/ r = Some a | _ => True end).
  assert (forall r', match r1 with Some x => transient x = true \/ r' = Some x | None => True end ->
    Forall (fits r') log1) as Hfit.
  { intros r' Hr'. apply Forall_forall. intros x Hx. rewrite Forall_forall in L5. destruct (L5 x Hx) as (M1 & M2 & M3).
    split; [done|]. split; [done|]. split; [done|]. destruct r1 as [a|].
    - destruct L6 as (rq & took & ->). apply list_elem_of_singleton in Hx as ->. exact Hr'.
    - rewrite Forall_forall in L6. destruct (L6 x Hx) as [took ->]. done. }
  assert (r1 = None \/ exists x rq took, r1 = Some x /\ (rq, Answered took x) ∈ log1) as Hr1.
  { destruct r1 as [x|]; [right|now left]. destruct L6 as (rq & took & ->). exists x, rq, took. split; [done|set_solver]. }
  assert (forall k, match r1 with Some x => transient x = true | None => True end ->
    execute_from n k r1 auth path method body extra s2 = (r, s') ->
    exists log, sent s' = (sent s ++ log)%list /\ (length log <= S n)%nat /\ audited s' = audited s /\
    w_clock (redis s) <= w_clock (redis s') /\ Forall (fits r) log /\
    (r = response \/ match r with Some r => exists rq took, (rq, Answered took r) ∈ log | None => True end)) as Hrec.
  { intros k' Ht (log2 & M1 & M2 & M3 & M4 & M5 & M6)%IH. exists (log1 ++ log2)%list.
    rewrite M1, L1, app_assoc, length_app. split_and!; [done|lia|congruence|lia| |].
    - apply Forall_app. split; [|exact M5]. apply Hfit. destruct r1; auto.
    - right. destruct M6 as [->|M6].
      + destruct Hr1 as [->|(x & rq & took & -> & Hin)]; [done|]. exists rq, took. set_solver.
      + destruct r; [|done]. destruct M6 as (rq & took & Hin). exists rq, took. set_solver. }
  destruct r1 as [x|]; [|now apply (Hrec (k + 1))]. destruct (transient x) eqn:Et; [now apply (Hrec (k + 1))|].
  simplify_eq. exists log1. split_and!; [done|lia|congruence|lia|apply Hfit; auto|]. right.
  destruct Hr1 as [?|(x' & rq & took & [= <-] & Hin)]; [done|]. eauto.
Qed.

Lemma pullOnce_quiet s a b s' :
  pullOnce s = (a, b, s') ->
  sent s' = sent s /\ audited s' = audited s /\ redis s' = redis s /\ exchanges s' = exchanges s.
Proof. unfold pullOnce. destruct (pulls s) as [|[|fields] rest]; intros E; now simplify_eq. Qed.

Lemma pullAuth_quiet s a s' :
  pullAuthWithRetry s = (a, s') ->
  sent s' = sent s /\ audited s' = audited s /\ exchanges s' = exchanges s /\ w_clock (redis s) <= w_clock (redis s').
Proof.
  unfold pullAuthWithRetry. destruct (pullOnce s) as [[a1 b1] s1] eqn:E1.
  destruct (pullOnce_quiet _ _ _ _ E1) as (Q1 & Q2 & Q3 & Q4).
  destruct a1; intros E; [simplify_eq; rewrite Q3; split_and!; (done || lia)|].
  destruct b1; [|simplify_eq; rewrite Q3; split_and!; (done || lia)].
  destruct (pullOnce (sleep 100000 s1)) as [[a2 b2] s2] eqn:E2. simplify_eq.
  destruct (pullOnce_quiet _ _ _ _ E2) as (P1 & P2 & P3 & P4). cbn in *. rewrite P3, <- Q3. cbn.
  split_and!; (congruence || lia).
Qed.

End Transport.

(** A tunnelled delete is version 1, a version given by the caller is the only
    one on the wire. *)
Example version_samples :
  (versionFor [("_Method", "DELETE")], versionFor [], hasHeader [("version", "1")] "Version",
   request_headers (mkAuth "u" "k" "c" "t") [("Version", "1")]) =
  ("1", "2", true,
   ["Content-Type: application/json; charset=UTF-8"; "Accept: application/json"; "X-IG-API-KEY: k"; "CST: c";
    "X-SECURITY-TOKEN: t"; "Version: 1"])%string.
Proof. vm_compute. reflexivity. Qed.
