(* ===== verification/IgRequests.v ===== *)
(** live/broker/igRequests.cppm: the guarded request path to the broker, and the
    open and close calls over it. The calls are written over any request path
    ([RequestFn]); the live one passes the Redis gate, pulls a session and sends. First
    the request budget it is held to, shared/redis/apiRequestGate.cpp: a counter per
    minute of the hour and a short marker per deal. *)
From Stdlib Require Import ZArith Lia.
From stdpp Require Import base gmap sets list strings.
From S2P Require Import Prelude Double Json JsonFloat JsonDump JsonParse JsonRoundTrip StdText ConfigJson IsoTime Redis Positions RedisStore IgMarkets IgRest.
Open Scope Z_scope.

(** * The request budget *)

Definition requestWindowKey (minuteOfHour : Z) : string := "REQ#" +:+ to_string minuteOfHour.
Definition dealRequestKey (dealId : string) : string := "API#" +:+ dealId.

(** The integer a counter's text starts with; what follows it is ignored. *)
Definition from_chars_int (text : string) : option Z := option_map fst (from_chars (chars text)).

Section ApiRequestGate.
Context {server : Type} {R : RedisServer server}.

(** Zero for a missing or unreadable counter, nothing when the server cannot be
    reached. *)
Definition requestsMade (minuteOfHour : Z) : method (server := server) (option Z) := fun c w =>
  let '(value, c, w) := run (getString (requestWindowKey minuteOfHour)) c w in
  (match value with
   | inr _ => None
   | inl None => Some 0
   | inl (Some text) =>
       match from_chars_int text with
       | Some count => if count <? 0 then Some 0 else Some count
       | None => Some 0
       end
   end, c, w).

Definition recordRequest (minuteOfHour : Z) : method (server := server) bool := fun c w =>
  let '(current, c, w) := requestsMade minuteOfHour c w in
  match current with
  | None => (false, c, w)
  | Some current =>
      let '(r, c, w) := run (setStringWhen (requestWindowKey minuteOfHour)
                               (to_string (current +₃₂ 1)) Always (Some 60000)) c w in
      (write_ok r, c, w)
  end.

Definition isDuplicateDeal (dealId : string) : method (server := server) (option bool) := fun c w =>
  if String.eqb dealId "" then (Some false, c, w)
  else
    let '(value, c, w) := run (getString (dealRequestKey dealId)) c w in
    (match value with inr _ => None | inl v => Some (bool_decide (is_Some v)) end, c, w).

(** The lifetime is in seconds. *)
Definition recordDealRequest (dealId : string) (ttl : Z) : method (server := server) bool := fun c w =>
  if String.eqb dealId "" then (true, c, w)
  else
    let '(r, c, w) := run (setStringWhen (dealRequestKey dealId) "1" Always (Some (1000 * ttl))) c w in
    (write_ok r, c, w).

(** * Facts *)

Lemma from_chars_to_string z : 0 <= z <= INT32_MAX -> from_chars_int (to_string z) = Some z.
Proof.
  intros Hz. unfold from_chars_int, from_chars, to_string. rewrite chars_text.
  destruct (to_string_chars_prints z) as [[-> _]|[[_ Hp]|[? _]]]; [unfold INT32_MAX in *; lia|done| |lia].
  destruct Hp as (Hd & Hv & _ & c & tl & E & Hc). rewrite E in *.
  assert (byte_of c =? 45 = false) as -> by lia. cbv beta iota.
  rewrite span_digits_all by done. cbv zeta. rewrite Hv.
  rewrite (proj2 (Z.leb_le INT32_MIN z)), (proj2 (Z.leb_le z INT32_MAX)) by (unfold INT32_MIN; lia). done.
Qed.

Context {L : RedisLaws server}.

(** The count read where the key holds a printed one. *)
Lemma requestsMade_spec m c w n c' w' :
  requestsMade m c w = (Some n, c', w') ->
  exists t, w_clock w <= t <= w_clock w' /\ unchanged t (w_server w) (w_server w') /\
    match string_at (w_server w) t (requestWindowKey m) with
    | None => n = 0
    | Some text => n = match from_chars_int text with
                       | Some count => if count <? 0 then 0 else count | None => 0 end
    end.
Proof.
  unfold requestsMade. destruct (run _ c w) as [[v c1] w1] eqn:E. intros H.
  destruct v as [v|]; [|discriminate]. destruct (run_result _ _ _ _ _ _ E) as (t & Ht & Hop & _).
  pose proof (getString_spec t (requestWindowKey m) (w_server w)) as Hs. rewrite Hop in Hs.
  destruct Hs as [Hun Hr]. injection H as Hn <- <-. exists t. split; [done|]. split; [done|].
  unfold string_at. destruct (lookup_at _ t _) as [[x| |]|]; [|discriminate|discriminate|].
  - injection Hr as ->. destruct (from_chars_int x) as [k|]; [|congruence]. destruct (k <? 0); congruence.
  - injection Hr as ->. congruence.
Qed.

(** A recorded request is counted: the window then holds one more than what was
    read, for a minute. *)
Lemma recordRequest_counts m c w c' w' :
  recordRequest m c w = (true, c', w') ->
  exists n t, w_clock w <= t <= w_clock w' /\ (requestsMade m c w).1.1 = Some n /\
    stored t (requestWindowKey m) (VString (to_string (n +₃₂ 1))) (Some (t + 60000000))
      (w_server w) (w_server w').
Proof.
  unfold recordRequest. destruct (requestsMade m c w) as [[n c1] w1] eqn:E.
  destruct n as [n|]; [|discriminate]. destruct (run _ c1 w1) as [[r c2] w2] eqn:E2.
  destruct r as [b|]; [|discriminate]. simpl. intros [= -> <- <-].
  apply requestsMade_spec in E as (t1 & Ht1 & Hun & _).
  destruct (run_result _ _ _ _ _ _ E2) as (t & Ht & Hop & _).
  pose proof (setStringWhen_spec t (requestWindowKey m) (to_string (n +₃₂ 1)) Always (Some 60000) (w_server w1)) as H.
  rewrite Hop in H. destruct H as [_ H]; [intros ? [= <-]; lia|]. exists n, t. split; [lia|].
  split; [done|]. apply (stored_unchanged t1 t _ _ _ _ (w_server w1)); [lia|done|exact H].
Qed.

End ApiRequestGate.

Record RequestOptions : Type := mkOptions { dealKey : string; riskReducing : bool; transportRetries : Z }.
Definition defaultOptions : RequestOptions := mkOptions "" false 2.

Inductive RequestOutcome : Type :=
  | Refused (detail : string)
  | TransportFailed (detail : string)
  | Responded (response : HttpResponse).

(** * The gate *)

Inductive GateRefusal : Type := DuplicateDeal | DuplicateUnknown | BudgetUnknown | RateLimited.

Definition kMaxRequestsPerMinute : Z := 30.

Definition gatePolicy (duplicate : option bool) (requestsMade : option Z) (riskReducing : bool) : option GateRefusal :=
  match duplicate with
  | Some true => Some DuplicateDeal
  | _ =>
      if riskReducing then None
      else
        match duplicate, requestsMade with
        | None, _ => Some DuplicateUnknown
        | _, None => Some BudgetUnknown
        | _, Some made => if kMaxRequestsPerMinute <? made then Some RateLimited else None
        end
  end.

Definition refusalReason (refusal : GateRefusal) : string :=
  match refusal with
  | DuplicateDeal => "duplicateDeal" | DuplicateUnknown => "duplicateUnknown"
  | BudgetUnknown => "budgetUnknown" | RateLimited => "rateLimit"
  end.

(** * The calls *)

Section Calls.
Context {St : Type}.
Definition RequestFn : Type :=
  string -> string -> string -> Headers -> RequestOptions -> St -> RequestOutcome * St.
Context (request : RequestFn) (pause : Z -> St -> St).

(** What one confirmation response settles. *)
Definition settled (confirmReference reportReference : string) (outcome : RequestOutcome) : option OpenResult :=
  match outcome with
  | Responded response =>
      if status response =? 200 then
        match parseDealConfirmation (http_body response) with
        | None => None
        | Some c =>
            if String.eqb (dealStatus c) "REJECTED" then
              Some (mkOpenResult Rejected confirmReference ""
                      (if String.eqb (confirm_reason c) "" then "REJECTED" else confirm_reason c))
            else if String.eqb (dealStatus c) "ACCEPTED" then
              Some (mkOpenResult Accepted reportReference (confirm_dealId c) "")
            else None
        end
      else None
  | _ => None
  end.

(** Attempt [attempt] and those after it, [n] in all. *)
Fixpoint pollConfirm (n : nat) (attempt : Z) (confirmReference reportReference : string) (delay : Z) (s : St)
    : option OpenResult * St :=
  match n with
  | O => (None, s)
  | S n =>
      let s := if (0 <? attempt) && (0 <? delay) then pause delay s else s in
      let '(confirm, s) := request ("/confirms/" +:+ confirmReference) "GET" "" [("Version", "1")] defaultOptions s in
      match settled confirmReference reportReference confirm with
      | Some result => (Some result, s)
      | None => pollConfirm n (attempt + 1) confirmReference reportReference delay s
      end
  end.

Definition failed (reason : string) : OpenResult := mkOpenResult OpenFailed "" "" reason.

(** How an answer leaves the order's fate open. *)
Definition ambiguity (outcome : RequestOutcome) : option string :=
  match outcome with
  | Refused _ => None
  | TransportFailed detail => Some detail
  | Responded r => if (500 <=? status r) || (status r =? 408) then Some ("HTTP " +:+ to_string (status r)) else None
  end.

Definition makeOpen (confirmAttempts : Z) (confirmDelay : Z) (order : TradeOpenObj) (context : OrderContext) (s : St)
    : result OpenResult * St :=
  let poll := pollConfirm (Z.to_nat confirmAttempts) 0 in
  match encodeTradeOpen order with
  | Throw e => (Throw e, s)
  | Ok body =>
      let '(outcome, s) := request "/positions/otc" "POST" body []
        (mkOptions (cx_strategyUuid context +:+ cx_openDirection context) false 0) s in
      match ambiguity outcome, outcome with
      | _, Refused detail => (Ok (failed ("refused: " +:+ detail)), s)
      | Some how, _ =>
          if String.eqb (open_dealReference order) "" then
            (Ok (failed ("ambiguous open (" +:+ how +:+ ") with no dealReference to confirm under — not re-sent")), s)
          else
            let '(resolved, s) := poll (open_dealReference order) (open_dealReference order) confirmDelay s in
            (Ok (match resolved with
                 | Some result => result
                 | None => failed ("unconfirmed after ambiguous open (" +:+ how +:+ ") — not re-sent")
                 end), s)
      | None, TransportFailed detail => (Ok (failed detail), s)
      | None, Responded response =>
          if negb (status response =? 200) then
            (Ok (failed ("HTTP " +:+ to_string (status response) +:+ ": " +:+ http_body response)), s)
          else
            match parsePositionResponse (http_body response) with
            | None => (Ok (failed ("failed to parse response: " +:+ http_body response)), s)
            | Some parsed =>
                let code := default EmptyString (errorCode parsed) in
                if negb (String.eqb code "") then (Ok (failed ("errorCode: " +:+ code)), s)
                else
                  let echo := response_dealReference parsed in
                  let reference := if String.eqb echo "" then open_dealReference order else echo in
                  let '(resolved, s) := poll reference echo confirmDelay s in
                  (Ok (match resolved with
                       | Some result => result
                       | None => mkOpenResult Accepted echo "" ""
                       end), s)
            end
      end
  end.

(** What the outcome of a close request means for the position. *)
Definition closed (outcome : RequestOutcome) : CloseResult :=
  match outcome with
  | Refused detail => mkCloseResult CloseFailed ("refused: " +:+ detail)
  | TransportFailed detail => mkCloseResult Gone ("no response after send (" +:+ detail +:+ ")")
  | Responded response =>
      if negb (status response =? 200) then
        mkCloseResult CloseFailed ("HTTP " +:+ to_string (status response) +:+ ": " +:+ http_body response)
      else
        match parsePositionResponse (http_body response) with
        | None => mkCloseResult CloseFailed ("failed to parse response: " +:+ http_body response)
        | Some _ => mkCloseResult CloseOk ""
        end
  end.

Definition makeClose (close : TradeCloseObj) (context : OrderContext) (s : St) : result CloseResult * St :=
  match encodeTradeClose close with
  | Throw e => (Throw e, s)
  | Ok body =>
      let '(outcome, s) := request "/positions/otc" "POST" body [("_method", "DELETE")]
        (mkOptions ("close#" +:+ close_dealId close) true 2) s in
      (Ok (closed outcome), s)
  end.

End Calls.

(** * The live path *)

Section Live.
Context {server : Type} {R : RedisServer server}.

(** The gate's client and what it talks to. *)
Definition requests (server : Type) : Type := client * io server.

Definition gated {A} (m : method (server := server) A) (s : requests server) : A * requests server :=
  let '(a, c, w) := m s.1 (redis s.2) in (a, (c, with_redis w s.2)).

Definition currentMinuteOfHour (s : requests server) : Z := Z.rem (w_clock (redis s.2) ÷ 60000000) 60.

Definition guarded_request : RequestFn (St := requests server) :=
  fun path meth jsonBody extraHeaders options s =>
  let '(duplicate, s) :=
    if String.eqb (dealKey options) "" then (Some false, s) else gated (isDuplicateDeal (dealKey options)) s in
  let minute := currentMinuteOfHour s in
  let '(made, s) := gated (requestsMade minute) s in
  match gatePolicy duplicate made (riskReducing options) with
  | Some refusal => (Refused (refusalReason refusal), s)
  | None =>
      let '(_, s) := gated (recordRequest minute) s in
      let '(_, s) := gated (recordDealRequest (dealKey options) 30) s in
      let '(auth, world) := pullAuthWithRetry s.2 in
      match auth with
      | None => (Refused "noAuthSession", (s.1, world))
      | Some auth =>
          let '(response, world) :=
            execute auth path meth jsonBody extraHeaders (transportRetries options) world in
          (match response with
           | None => TransportFailed "transport failed"
           | Some response => Responded response
           end, (s.1, world))
      end
  end.

Definition pause_for (micros : Z) (s : requests server) : requests server := (s.1, sleep micros s.2).

(** The audit document, queued for the publisher; its text is [dump]'s. *)
Context (tradingEnv : string).

Definition audit_members (action : string) (context : OrderContext) (dealReference dealId now : string) : list (string * json) :=
  [("date", JString now); ("env", JString tradingEnv); ("symbol", JString (cx_symbol context));
   ("action", JString action); ("strategy", JString (cx_strategyUuid context));
   ("dealReference", JString dealReference)] ++
  (if String.eqb dealId "" then [] else [("dealId", JString dealId)]).

Definition auditTrade (action : string) (context : OrderContext) (dealReference dealId : string) (s : requests server)
    : result unit * requests server :=
  let now := nowIsoUtc (w_clock (redis s.2) / 1000000) in
  match dump (json_object (audit_members action context dealReference dealId now)) with
  | Throw e => (Throw e, s)
  | Ok body =>
      (Ok tt, (s.1, mkIo (redis s.2) (exchanges s.2) (pulls s.2) (sent s.2) (audited s.2 ++ [body])%list))
  end.

Definition kConfirmAttempts : Z := 3.
Definition kConfirmDelay : Z := 300000.

Definition makeLiveOpen (order : TradeOpenObj) (context : OrderContext) (s : requests server)
    : result OpenResult * requests server :=
  let '(r, s) := makeOpen guarded_request pause_for kConfirmAttempts kConfirmDelay order context s in
  match r with
  | Ok result =>
      match or_status result with
      | Accepted =>
          let '(a, s) := auditTrade "Open Trade" context (or_dealReference result) (or_dealId result) s in
          (match a with Ok _ => Ok result | Throw e => Throw e end, s)
      | _ => (Ok result, s)
      end
  | Throw e => (Throw e, s)
  end.

Definition makeLiveClose (close : TradeCloseObj) (context : OrderContext) (s : requests server)
    : result CloseResult * requests server :=
  let '(r, s) := makeClose guarded_request close context s in
  match r with
  | Ok result =>
      match cr_status result with
      | CloseOk =>
          let '(a, s) := auditTrade "Close Trade" context (close_dealId close) "" s in
          (match a with Ok _ => Ok result | Throw e => Throw e end, s)
      | _ => (Ok result, s)
      end
  | Throw e => (Throw e, s)
  end.

End Live.

(** * What the log of exchanges supports *)

(** What one exchange says of an order. *)
Definition verdict (x : HttpRequest * Exchange) : option OpenStatus :=
  match x.2 with
  | Answered _ a =>
      if negb (status a =? 200) then None
      else if String.eqb (rq_method x.1) "POST" then
        match parsePositionResponse (http_body a) with
        | Some p => if String.eqb (default EmptyString (errorCode p)) "" then Some Accepted else None
        | None => None
        end
      else
        match parseDealConfirmation (http_body a) with
        | Some c => if String.eqb (dealStatus c) "REJECTED" then Some Rejected
                    else if String.eqb (dealStatus c) "ACCEPTED" then Some Accepted else None
        | None => None
        end
  | _ => None
  end.

Definition supports (log : list (HttpRequest * Exchange)) (st : OpenStatus) : Prop :=
  match st with
  | OpenFailed => Forall (fun x => verdict x = None) log
  | _ => List.Exists (fun x => verdict x = Some st) log
  end.

Definition posts_of (log : list (HttpRequest * Exchange)) : list (HttpRequest * Exchange) :=
  List.filter (fun x => String.eqb (rq_method x.1) "POST") log.

(** What a request adds to the log. *)
Definition exchanged (meth body : string) (n : nat) (outcome : RequestOutcome) (log : list (HttpRequest * Exchange)) : Prop :=
  (length log <= n)%nat /\
  Forall (fun x => rq_method x.1 = meth /\ rq_body x.1 = body /\
    match x.2 with Answered _ a => transient a = true \/ outcome = Responded a | _ => True end) log /\
  match outcome with
  | Refused _ => log = []
  | TransportFailed _ => True
  | Responded a => exists rq took, (rq, Answered took a) ∈ log
  end.

Lemma exchanged_refused meth body n detail : exchanged meth body n (Refused detail) [].
Proof. split; [cbn; lia|]. split; [constructor|done]. Qed.

Section LiveFacts.
Context {server : Type} {R : RedisServer server}.

Lemma gated_quiet {A} (m : method (server := server) A) s a s' :
  gated m s = (a, s') -> sent s'.2 = sent s.2 /\ audited s'.2 = audited s.2.
Proof. unfold gated. destruct (m s.1 (redis s.2)) as [[x c] w]. intros E. now simplify_eq. Qed.

Lemma guarded_request_sends path meth body extra options s outcome s' :
  guarded_request path meth body extra options s = (outcome, s') ->
  exists log, sent s'.2 = (sent s.2 ++ log)%list /\ audited s'.2 = audited s.2 /\
    exchanged meth body (Z.to_nat (transportRetries options + 1)) outcome log.
Proof.
  unfold guarded_request.
  destruct (if String.eqb (dealKey options) "" then _ else _) as [duplicate s1] eqn:E1.
  assert (sent s1.2 = sent s.2 /\ audited s1.2 = audited s.2) as [S1 A1].
  { destruct (String.eqb _ _); [now simplify_eq|now apply gated_quiet in E1]. }
  destruct (gated (requestsMade (currentMinuteOfHour s1)) s1) as [made s2] eqn:E2. apply gated_quiet in E2 as [S2 A2].
  destruct (gatePolicy _ _ _) as [refusal|].
  { intros E. simplify_eq. exists []. rewrite app_nil_r. split_and!; [congruence..|apply exchanged_refused]. }
  destruct (gated (recordRequest _) s2) as [u3 s3] eqn:E3. apply gated_quiet in E3 as [S3 A3].
  destruct (gated (recordDealRequest _ _) s3) as [u4 s4] eqn:E4. apply gated_quiet in E4 as [S4 A4].
  destruct (pullAuthWithRetry s4.2) as [auth world] eqn:E5. apply pullAuth_quiet in E5 as (S5 & A5 & _ & _).
  destruct auth as [auth|].
  2:{ intros E. simplify_eq. exists []. rewrite app_nil_r. cbn [snd]. split_and!; [congruence..|apply exchanged_refused]. }
  destruct (execute auth path meth body extra (transportRetries options) world) as [response world'] eqn:E6.
  intros E. simplify_eq. destruct (execute_from_sends _ _ _ _ _ _ _ _ _ _ _ E6) as (log & L1 & L2 & L3 & _ & L5 & L6).
  exists log. cbn [snd]. split_and!; [congruence..|]. split; [exact L2|split].
  - eapply Forall_impl; [exact L5|]. intros x (M1 & M2 & M3 & M4). split; [done|]. split; [done|].
    destruct x.2; [done|done|]. destruct M4 as [M4| ->]; [now left|now right].
  - destruct response as [a|]; [|done]. now destruct L6.
Qed.

(** A request that is answered says what its answer says; otherwise nothing. *)
Lemma exchanged_verdict meth body n outcome log :
  exchanged meth body n outcome log ->
  Forall (fun x => verdict x = None \/
    exists a, outcome = Responded a /\ x.2 = Answered (match x.2 with Answered t _ => t | _ => 0%N end) a) log.
Proof.
  intros (_ & Hf & _). eapply Forall_impl; [exact Hf|]. intros x (_ & _ & Hx).
  destruct x.2 as [|took|took a] eqn:E; [left; unfold verdict; now rewrite E..|].
  destruct Hx as [Ht| ->]; [|right; eauto]. left. unfold verdict. rewrite E.
  unfold transient in Ht. destruct (Z.eqb_spec (status a) 200) as [E2|]; [|reflexivity]. now rewrite E2 in Ht.
Qed.

(** A confirmation poll sends GETs only, and settles as the log does. *)
Lemma pollConfirm_sends n : forall k ref report delay s r s',
  pollConfirm guarded_request pause_for n k ref report delay s = (r, s') ->
  exists log, sent s'.2 = (sent s.2 ++ log)%list /\ audited s'.2 = audited s.2 /\
    Forall (fun x => rq_method x.1 = "GET") log /\
    match r with
    | Some result => supports log (or_status result) /\ or_status result <> OpenFailed
    | None => Forall (fun x => verdict x = None) log
    end.
Proof.
  induction n as [|n IH]; intros k ref report delay s r s' E; cbn [pollConfirm] in E.
  { simplify_eq. exists []. rewrite app_nil_r. split_and!; (done || constructor). }
  set (s0 := if (0 <? k) && (0 <? delay) then _ else s) in E.
  assert (sent s0.2 = sent s.2 /\ audited s0.2 = audited s.2) as [S0 A0] by (unfold s0; now destruct (_ && _)).
  destruct (guarded_request _ _ _ _ _ s0) as [outcome s1] eqn:Eg.
  destruct (guarded_request_sends _ _ _ _ _ _ _ _ Eg) as (log & L1 & L2 & X).
  pose proof (exchanged_verdict _ _ _ _ _ X) as Hv. destruct X as (_ & Xf & Xo).
  assert (Forall (fun x => rq_method x.1 = "GET") log) as Hget by (eapply Forall_impl; [exact Xf|]; now intros x (M & _)).
  assert (forall a x, outcome = Responded a -> x ∈ log -> x.2 = Answered (match x.2 with Answered t _ => t | _ => 0%N end) a ->
    verdict x = or_status <$> settled ref report outcome) as Hset.
  { intros a x -> Hx Ex. rewrite Forall_forall in Hget. specialize (Hget x Hx). cbn in Hget. unfold verdict. rewrite Ex, Hget. cbn [settled].
    destruct (status a =? 200); [|done]. cbn [negb]. change (String.eqb "GET" "POST") with false. cbv iota.
    destruct (parseDealConfirmation _) as [c|]; [|done]. destruct (String.eqb _ "REJECTED"); [done|].
    now destruct (String.eqb _ "ACCEPTED"). }
  destruct (settled ref report outcome) as [result|] eqn:Es.
  - simplify_eq. exists log. split_and!; [congruence|congruence|done| |].
    + destruct outcome as [| |a]; [done..|]. destruct Xo as (rq & took & Hin).
      pose proof (Hset a _ eq_refl Hin eq_refl) as Hr. cbn in Hr.
      assert (List.Exists (fun x => verdict x = Some (or_status result)) log) as He by (apply Exists_exists; eauto).
      assert (or_status result <> OpenFailed) as Hn.
      { clear - Es. cbn in Es. destruct (_ =? _); [|done]. destruct (parseDealConfirmation _); [|done].
        destruct (String.eqb _ _); [now simplify_eq|]. destruct (String.eqb _ _); [now simplify_eq|done]. }
      unfold supports. destruct (or_status result); (done || exact He).
    + clear - Es. unfold settled in Es. destruct outcome as [| |a]; [done..|]. destruct (_ =? _); [|done].
      destruct (parseDealConfirmation _); [|done].
      destruct (String.eqb _ _); [now simplify_eq|]. destruct (String.eqb _ _); [now simplify_eq|done].
  - destruct (IH _ _ _ _ _ _ _ E) as (log2 & M1 & M2 & M3 & M4).
    assert (Forall (fun x => verdict x = None) log) as Hnone.
    { apply Forall_forall. intros x Hx. rewrite Forall_forall in Hv. destruct (Hv x Hx) as [?|(a & Ea & Ex)]; [done|].
      now rewrite (Hset a x Ea Hx Ex). }
    exists (log ++ log2)%list. rewrite M1, L1, S0, app_assoc. split_and!; [done|congruence|now apply Forall_app|].
    destruct r as [result|]; [|now apply Forall_app]. destruct M4 as [M4 Hn]. split; [|done].
    unfold supports in *. destruct (or_status result); [apply Exists_app; now right..|done].
Qed.

Lemma auditTrade_quiet env action context reference dealId (s : requests server) r s' :
  auditTrade env action context reference dealId s = (r, s') ->
  sent s'.2 = sent s.2 /\ redis s'.2 = redis s.2 /\
  (r = Ok tt -> exists doc, audited s'.2 = (audited s.2 ++ [doc])%list).
Proof. unfold auditTrade. destruct (dump _) as [doc|e]; intros E; simplify_eq; cbn; split_and!; eauto; done. Qed.

Lemma posts_of_gets log : Forall (fun x => rq_method x.1 = "GET") log -> posts_of log = [].
Proof. induction 1 as [|x log Hx _ IH]; [done|]. unfold posts_of in *. cbn. now rewrite Hx, IH. Qed.

Lemma posts_of_bound log : (length (posts_of log) <= length log)%nat.
Proof. unfold posts_of. induction log as [|x log IH]; [done|]. cbn. destruct (String.eqb _ _); cbn; lia. Qed.

Lemma supports_app log log' st :
  (st = OpenFailed -> supports log OpenFailed) -> supports log' st -> supports (log ++ log') st.
Proof.
  destruct st; cbn; intros H H'; [apply Exists_app; now right..|]. apply Forall_app. auto.
Qed.

(** Both counters answered, and within the budget. *)
Definition gate_passed (key : string) (s : requests server) : Prop :=
  exists s1 s2 made, gated (isDuplicateDeal key) s = (Some false, s1) /\
    gated (requestsMade (currentMinuteOfHour s1)) s1 = (Some made, s2) /\ made <= kMaxRequestsPerMinute.

(** What the two counters said when a request passed the gate, and the only
    reasons to refuse one that reduces risk. *)
Lemma guarded_request_gate path meth body extra options s outcome s' :
  dealKey options <> "" -> guarded_request path meth body extra options s = (outcome, s') ->
  (forall detail, outcome = Refused detail -> riskReducing options = true ->
     detail = "duplicateDeal" \/ detail = "noAuthSession") /\
  ((forall detail, outcome <> Refused detail) -> riskReducing options = false ->
     gate_passed (dealKey options) s).
Proof.
  intros Hk. apply String.eqb_neq in Hk. unfold guarded_request. rewrite Hk.
  destruct (gated (isDuplicateDeal _) s) as [duplicate s1] eqn:E1. destruct (gated (requestsMade _) s1) as [made s2] eqn:E2.
  destruct (gatePolicy _ _ _) as [refusal|] eqn:Eg.
  { intros E. simplify_eq. split; [|intros Hn; now destruct (Hn (refusalReason refusal))].
    intros detail [= <-] Hr. rewrite Hr in Eg. destruct duplicate as [[]|]; cbn in Eg; simplify_eq. now left. }
  destruct (gated (recordRequest _) s2) as [u3 s3]. destruct (gated (recordDealRequest _ _) s3) as [u4 s4].
  destruct (pullAuthWithRetry s4.2) as [auth world]. intros E. split.
  - intros detail -> _. destruct auth; [|simplify_eq; now right]. destruct (execute _ _ _ _ _ _ _) as [[?|] ?]; simplify_eq.
  - intros _ Hr. rewrite Hr in Eg. exists s1, s2. destruct duplicate as [[]|]; [done| |done]. cbn in Eg.
    destruct made as [made|]; [|done]. exists made. split_and!; try done.
    destruct (Z.ltb_spec kMaxRequestsPerMinute made); [done|lia].
Qed.

(** What an open call has sent, and what it may conclude from it. *)
Definition opened (order : TradeOpenObj) (key : string) (s : requests server)
    (r : result OpenResult) (log : list (HttpRequest * Exchange)) : Prop :=
  (length (posts_of log) <= 1)%nat /\
  Forall (fun x => encodeTradeOpen order = Ok (rq_body x.1)) (posts_of log) /\
  (log <> [] -> gate_passed key s) /\
  (forall result, r = Ok result -> supports log (or_status result)).

Lemma makeOpen_sends order context s r s' :
  cx_strategyUuid context <> "" ->
  makeOpen guarded_request pause_for kConfirmAttempts kConfirmDelay order context s = (r, s') ->
  exists log, sent s'.2 = (sent s.2 ++ log)%list /\ audited s'.2 = audited s.2 /\
    opened order (cx_strategyUuid context +:+ cx_openDirection context) s r log.
Proof.
  intros Hkey. unfold makeOpen, opened. destruct (encodeTradeOpen order) as [body|e]; intros E.
  2:{ simplify_eq. exists []. rewrite app_nil_r. split_and!; [done|done|cbn; lia|constructor|now intros []|done]. }
  destruct (guarded_request _ _ _ _ _ s) as [outcome s1] eqn:Eg.
  destruct (guarded_request_sends _ _ _ _ _ _ _ _ Eg) as (log & L1 & L2 & X).
  pose proof (exchanged_verdict _ _ _ _ _ X) as Hv. destruct X as (X1 & X2 & X3).
  assert ((forall detail, outcome <> Refused detail) ->
    gate_passed (cx_strategyUuid context +:+ cx_openDirection context) s) as Hgate.
  { intros Hn. apply guarded_request_gate in Eg; [now apply (proj2 Eg)|]. cbn. now destruct (cx_strategyUuid context). }
  assert (forall log2, Forall (fun x => rq_method x.1 = "GET") log2 ->
    (length (posts_of (log ++ log2)) <= 1)%nat /\
    Forall (fun x => Ok body = Ok (rq_body x.1)) (posts_of (log ++ log2))) as Hposts.
  { intros log2 G. unfold posts_of in *. rewrite List.filter_app. fold (posts_of log2). rewrite (posts_of_gets log2 G), app_nil_r.
    split; [etransitivity; [apply posts_of_bound|exact X1]|]. apply Forall_forall. intros x Hx.
    apply list_elem_of_In, List.filter_In in Hx as [Hx _]. apply list_elem_of_In in Hx.
    rewrite Forall_forall in X2. now destruct (X2 x Hx) as (_ & -> & _). }
  assert (Hfail : (forall a, outcome = Responded a ->
      forall rq took, rq_method rq = "POST" -> verdict (rq, Answered took a) = None) -> supports log OpenFailed).
  { intros Hn. cbn. apply Forall_forall. intros x Hx. rewrite Forall_forall in Hv, X2.
    destruct (Hv x Hx) as [?|(a & Ea & Ex)]; [done|]. destruct (X2 _ Hx) as [M _]. destruct x as [rq ex]. cbn in Ex, M.
    rewrite Ex. now apply (Hn a Ea). }
  assert (Hstop : forall result, (Ok result, s1) = (r, s') -> supports log (or_status result) ->
    exists log, sent s'.2 = (sent s.2 ++ log)%list /\ audited s'.2 = audited s.2 /\ (length (posts_of log) <= 1)%nat /\
      Forall (fun x => Ok body = Ok (rq_body x.1)) (posts_of log) /\
      (log <> [] -> gate_passed (cx_strategyUuid context +:+ cx_openDirection context) s) /\
      (forall result, r = Ok result -> supports log (or_status result))).
  { intros result E' Hs. simplify_eq. exists log. destruct (Hposts [] (List.Forall_nil _)) as [P1 P2].
    rewrite app_nil_r in P1, P2. split_and!; try done; [|now intros ? [= <-]].
    intros Hl. apply Hgate. intros d ->. now apply Hl. }
  assert (Hpoll : forall ref report fallback,
    (let '(resolved, s2) := pollConfirm guarded_request pause_for (Z.to_nat kConfirmAttempts) 0 ref report kConfirmDelay s1 in
     (Ok (match resolved with Some result => result | None => fallback end), s2)) = (r, s') ->
    supports log (or_status fallback) -> (forall detail, outcome <> Refused detail) ->
    exists log, sent s'.2 = (sent s.2 ++ log)%list /\ audited s'.2 = audited s.2 /\ (length (posts_of log) <= 1)%nat /\
      Forall (fun x => Ok body = Ok (rq_body x.1)) (posts_of log) /\
      (log <> [] -> gate_passed (cx_strategyUuid context +:+ cx_openDirection context) s) /\
      (forall result, r = Ok result -> supports log (or_status result))).
  { intros ref report fallback E' Hs Hn. destruct (pollConfirm _ _ _ _ ref report _ _) as [resolved s2] eqn:Ep. 
    injection E' as <- <-.
    destruct (pollConfirm_sends _ _ _ _ _ _ _ _ Ep) as (log2 & M1 & M2 & M3 & M4). destruct (Hposts log2 M3) as [P1 P2].
    exists (log ++ log2)%list. rewrite M1, L1, app_assoc. split_and!; try done; [congruence|now intros _; apply Hgate|]. intros x [= <-].
    destruct resolved as [result|].
    - destruct M4 as [M4 Ho]. apply supports_app; [congruence|done].
    - destruct (or_status fallback); cbn in *; [apply Exists_app; now left..|now apply Forall_app]. }
  assert (Hmeth : forall x, x ∈ log -> rq_method x.1 = "POST").
  { intros x Hx. rewrite Forall_forall in X2. now destruct (X2 x Hx). }
  clear Hv X1 X2 Hposts. destruct outcome as [d|d|a]; cbn [ambiguity] in E.
  - apply (Hstop _ E). now apply Hfail.
  - destruct (String.eqb _ ""); [apply (Hstop _ E)|apply (Hpoll _ _ _ E)]; (done || now apply Hfail).
  - fold (transient a) in E. assert (transient a = true -> supports log OpenFailed) as Ht.
    { intros Ht. apply Hfail. intros x [= <-] rq took _. unfold verdict. cbn.
      unfold transient in Ht. destruct (Z.eqb_spec (status a) 200) as [E2|]; [|done]. now rewrite E2 in Ht. }
    destruct (transient a).
    { destruct (String.eqb _ ""); [apply (Hstop _ E)|apply (Hpoll _ _ _ E)]; (done || now apply Ht). }
    destruct (status a =? 200) eqn:E2; cbn [negb] in E.
    2:{ apply (Hstop _ E), Hfail. intros x [= <-] rq took _. unfold verdict. cbn. now rewrite E2. }
    destruct (parsePositionResponse (http_body a)) as [parsed|] eqn:Ep.
    2:{ apply (Hstop _ E), Hfail. intros x [= <-] rq took M. unfold verdict. cbn. now rewrite E2, M, Ep. }
    destruct (String.eqb (default EmptyString (errorCode parsed)) "") eqn:Ec; cbn [negb] in E.
    2:{ apply (Hstop _ E), Hfail. intros x [= <-] rq took M. unfold verdict. cbn. now rewrite E2, M, Ep, Ec. }
    apply (Hpoll _ _ _ E); [|done]. destruct X3 as (rq & took & Hin). apply Exists_exists. eexists. split; [exact Hin|].
    assert (rq_method rq = "POST") as M by now apply (Hmeth _ Hin). unfold verdict. cbn. now rewrite E2, M, Ep, Ec.
Qed.

(** C5: an open is put to the broker at most once, however its exchange ends, and
    what the call reports is what the log of exchanges supports: accepted or
    rejected only on the broker's word, failed only when nothing settles it. When
    anything was sent, both counters were known and within the budget. Exactly
    one audit line goes with an accepted order, none with any other. *)
Theorem open_sent_once env order context s r s' :
  cx_strategyUuid context <> "" ->
  makeLiveOpen env order context s = (r, s') ->
  exists log, sent s'.2 = (sent s.2 ++ log)%list /\
    (length (posts_of log) <= 1)%nat /\
    Forall (fun x => encodeTradeOpen order = Ok (rq_body x.1)) (posts_of log) /\
    (log <> [] -> gate_passed (cx_strategyUuid context +:+ cx_openDirection context) s) /\
    (forall result, r = Ok result -> supports log (or_status result) /\
       match or_status result with
       | Accepted => exists doc, audited s'.2 = (audited s.2 ++ [doc])%list
       | _ => audited s'.2 = audited s.2
       end).
Proof.
  intros Hk. unfold makeLiveOpen. destruct (makeOpen _ _ _ _ _ _ s) as [r1 s1] eqn:Eo.
  destruct (makeOpen_sends _ _ _ _ _ Hk Eo) as (log & L1 & L2 & P1 & P2 & P3 & P4). intros E.
  exists log. assert (sent s'.2 = sent s1.2 /\ forall result, r = Ok result -> r1 = Ok result /\
    match or_status result with
    | Accepted => exists doc, audited s'.2 = (audited s1.2 ++ [doc])%list
    | _ => audited s'.2 = audited s1.2
    end) as [S1 S2].
  { destruct r1 as [result|e]; [|now simplify_eq].
    destruct (or_status result) eqn:Es; try (simplify_eq; split; [done|]; intros ? [= <-]; now rewrite Es).
    destruct (auditTrade _ _ _ _ _ s1) as [a s2] eqn:Ea. destruct (auditTrade_quiet _ _ _ _ _ _ _ _ Ea) as (Q1 & _ & Q3).
    destruct a as [[]|e]; simplify_eq; split; try done. intros ? [= <-]. rewrite Es. split; [done|]. now apply Q3. }
  rewrite S1, L1. split_and!; try done. intros result Hr. destruct (S2 result Hr) as [-> H]. rewrite L2 in H. auto.
Qed.

(** What the outcome of a close request means, by its log. *)
Lemma closed_means body n outcome log :
  (forall detail, outcome = Refused detail -> detail = "duplicateDeal" \/ detail = "noAuthSession") ->
  exchanged "POST" body n outcome log ->
  match cr_status (closed outcome) with
  | CloseOk => exists rq took answer, (rq, Answered took answer) ∈ log /\ status answer = 200 /\
      is_Some (parsePositionResponse (http_body answer))
  | Gone => Forall (fun x => match x.2 with Answered _ answer => transient answer = true | _ => True end) log
  | CloseFailed => log = [] ->
      cr_reason (closed outcome) = "refused: duplicateDeal" \/ cr_reason (closed outcome) = "refused: noAuthSession"
  end.
Proof.
  intros Hr (_ & X2 & X3). destruct outcome as [d|d|a]; cbn [closed cr_status cr_reason].
  - intros _. destruct (Hr d eq_refl) as [-> | ->]; [now left|now right].
  - eapply Forall_impl; [exact X2|]. intros x (_ & _ & Hx). destruct x.2; [done|done|]. now destruct Hx.
  - destruct X3 as (rq & took & Hin).
    assert (log <> []) as Hsent by (intros ->; now apply not_elem_of_nil in Hin).
    destruct (Z.eqb_spec (status a) 200) as [E2|]; [|now intros Hl]. cbn [negb].
    destruct (parsePositionResponse (http_body a)) eqn:Ep; [|now intros Hl]. cbn [cr_status].
    exists rq, took, a. rewrite Ep. eauto.
Qed.


End LiveFacts.

(** * An ambiguous open, and a close that has no answer *)

Definition text_of (r : result string) : string := match r with Ok t => t | Throw _ => EmptyString end.

Definition demo_order : TradeOpenObj :=
  mkOpen "USD" "CS.D.EURUSD.TODAY.IP" "DFB" "BUY" (dbl_of_Z 1) true false "MARKET" 20 30 "REF1".
Definition demo_context : OrderContext := mkContext "s1" "FvgStrategy" "EURUSD" "LONG".
Definition demo_session : Pull :=
  Item (list_to_map [("url", "u"); ("apikey", "k"); ("CST", "c"); ("xSecurityToken", "t")]).
Definition demo_requests (answers : list Exchange) : requests store :=
  (makeClient, mkIo (mkWorld ∅ 5000 []) answers [demo_session; demo_session] [] []).

(** The answer to the open is lost; its confirmation says it was accepted. *)
Definition demo_lost : requests store :=
  demo_requests [TransportFailure 30000000;
    Answered 9 (mkHttp 200 (text_of (dump (json_object
      [("dealId", JString "DI1"); ("dealStatus", JString "ACCEPTED"); ("reason", JString "SUCCESS")]))))].

Lemma open_sent_once_witness :
  (makeLiveOpen "demo" demo_order demo_context demo_lost).1 = Ok (mkOpenResult Accepted "REF1" "DI1" "") /\
  exists log, (length log = 2 /\ length (posts_of log) <= 1)%nat /\ supports log Accepted.
Proof.
  assert ((makeLiveOpen "demo" demo_order demo_context demo_lost).1 = Ok (mkOpenResult Accepted "REF1" "DI1" "")) as H
    by (vm_compute; reflexivity).
  assert (length (sent (makeLiveOpen "demo" demo_order demo_context demo_lost).2.2) = 2%nat) as Hl
    by (vm_compute; reflexivity).
  split; [exact H|]. destruct (makeLiveOpen "demo" demo_order demo_context demo_lost) as [r s'] eqn:E.
  destruct (open_sent_once "demo" demo_order demo_context demo_lost r s' ltac:(discriminate) E)
    as (log & L1 & L2 & _ & _ & L5).
  exists log. cbn in H, Hl. rewrite L1 in Hl. split; [split; [exact Hl|exact L2]|]. exact (proj1 (L5 _ H)).
Defined.

(** No attempt gets a handle: the position is reported gone though nothing was
    sent. *)
Definition demo_close : TradeCloseObj := mkClose "MARKET" "SELL" "DI1" (dbl_of_Z 1).
Definition demo_unsent : requests store := demo_requests [NoHandle; NoHandle; NoHandle].

