(* ===== verification/OrderChannel.v ===== *)
(** live/execution/orderRequest.cppm and orderChannel.cppm: what an order is placed
    with, and the channel between a decision and the broker. The broker calls and
    the bookkeeping hooks are a record of functions over a state, as in the source. *)
From S2P Require Import Prelude Models Double Json JsonDump JsonParse JsonRoundTrip StdText IsoTime Positions PositionText Markets IgMarkets Effects.
From S2P Require SymbolScale LiveWorker.

(** * Order requests *)

Record OrderRequest : Type := mkOrder {
  rq_symbol : string;
  rq_strategyUuid : string;
  rq_strategyName : string;
  rq_dealReference : string;
  rq_direction : Direction;
  rq_bid : Z;
  rq_ask : Z;
  rq_timestamp : Z;
  rq_size : Z;
  rq_stopDistancePips : Z;
  rq_limitDistancePips : Z;
  rq_pointsPerPip : Z;
  rq_level : Z;
  rq_stopLevel : Z;
  rq_limitLevel : Z;
  rq_spreadPoints : Z }.

Definition alphanumeric (c : Ascii.ascii) : bool :=
  let n := Z.of_N (Ascii.N_of_ascii c) in
  ((48 <=? n) && (n <=? 57)) || ((97 <=? n) && (n <=? 122)) || ((65 <=? n) && (n <=? 90)).

Definition makeDealReference (strategyUuid : string) (direction : Direction) (timestamp : Z) : string :=
  text (take 8 (List.filter alphanumeric (chars strategyUuid))) +:+ "-" +:+
  (match direction with LONG => "L" | SHORT => "S" end) +:+ to_string (Z.quot timestamp 1000).

Definition makeOrderRequest (intent : LiveWorker.OrderIntent) : option OrderRequest :=
  let pointsPerPip := SymbolScale.get (LiveWorker.oi_symbol intent) in
  if pointsPerPip =? SymbolScale.kUnknown then None
  else
    let direction := LiveWorker.oi_direction intent in
    let stopPoints := i32 (LiveWorker.oi_stopDistancePips intent * pointsPerPip) in
    let limitPoints := i32 (LiveWorker.oi_limitDistancePips intent * pointsPerPip) in
    let level := match direction with LONG => LiveWorker.oi_ask intent | SHORT => LiveWorker.oi_bid intent end in
    Some (mkOrder (LiveWorker.oi_symbol intent) (LiveWorker.oi_strategyUuid intent) (LiveWorker.oi_strategyName intent)
            (makeDealReference (LiveWorker.oi_strategyUuid intent) direction (LiveWorker.oi_timestamp intent))
            direction (LiveWorker.oi_bid intent) (LiveWorker.oi_ask intent) (LiveWorker.oi_timestamp intent)
            (LiveWorker.oi_size intent) (LiveWorker.oi_stopDistancePips intent) (LiveWorker.oi_limitDistancePips intent)
            pointsPerPip level
            (i32 match direction with LONG => level - stopPoints | SHORT => level + stopPoints end)
            (i32 match direction with LONG => level + limitPoints | SHORT => level - limitPoints end)
            (i32 (LiveWorker.oi_ask intent - LiveWorker.oi_bid intent))).

(** * What is written for an open deal *)

Record CloseRequest : Type := mkCloseRequest {
  cq_strategyUuid : string;
  cq_strategyName : string;
  cq_symbol : string;
  cq_direction : Direction;
  cq_size : double;
  cq_dealId : string;
  cq_dealReference : string }.

Definition lockDirection (d : Direction) : string := match d with LONG => "LONG" | SHORT => "SHORT" end.
Definition brokerDirection (d : Direction) : string := match d with LONG => "BUY" | SHORT => "SELL" end.

Definition isoUtcSeconds (tp : Z) : string := nowIsoUtc (tp / 1000000).

(** The same text as [encodePositionRecord] prints for this record. *)
Definition position_of (r : OrderRequest) (order : TradeOpenObj) (dealReference dealId : string) : PositionRecord :=
  mkPosition dealId dealReference (rq_symbol r) (open_epic order) (open_direction order) (open_size order)
    (rq_level r) (rq_stopLevel r) (rq_limitLevel r) (rq_strategyUuid r) (rq_strategyName r) (rq_timestamp r).

Definition buildPositionPayload (r : OrderRequest) (order : TradeOpenObj) (dealReference dealId : string) : string :=
  braces
    [text_field "dealId" dealId; text_field "dealReference" dealReference; text_field "symbol" (rq_symbol r);
     text_field "epic" (open_epic order); text_field "direction" (open_direction order);
     field "size" (format_double (open_size order)); field "level" (to_string (rq_level r));
     field "stopLevel" (to_string (rq_stopLevel r)); field "limitLevel" (to_string (rq_limitLevel r));
     text_field "strategyId" (rq_strategyUuid r); text_field "strategyName" (rq_strategyName r);
     field "openedAt" (to_string (rq_timestamp r))].

Definition buildDealReceipt (r : OrderRequest) (dealReference dealId : string) : string :=
  braces
    [text_field "id" ("DealId#" +:+ dealReference); text_field "sort" (rq_symbol r);
     text_field "date" (isoUtcSeconds (rq_timestamp r)); text_field "dealReference" dealReference;
     text_field "strategyId" (rq_strategyUuid r); text_field "dealId" dealId;
     text_field "strategyName" (rq_strategyName r)].

(** * The channel *)

Record Hooks (St : Type) : Type := mkHooks {
  hook_clusterBlocked : string -> string -> effect St bool;
  hook_clusterOpened : option (string -> effect St unit);
  hook_extendLock : string -> string -> Z -> effect St bool;
  hook_releaseLock : string -> string -> effect St bool;
  hook_savePosition : string -> string -> effect St bool;
  hook_addPosition : string -> string -> effect St bool;
  hook_saveDealReceipt : string -> string -> string -> effect St bool;
  hook_removePosition : string -> string -> effect St bool }.
Arguments mkHooks {St}.
Arguments hook_clusterBlocked {St} _ _ _.
Arguments hook_clusterOpened {St} _.
Arguments hook_extendLock {St} _ _ _ _.
Arguments hook_releaseLock {St} _ _ _.
Arguments hook_savePosition {St} _ _ _.
Arguments hook_addPosition {St} _ _ _.
Arguments hook_saveDealReceipt {St} _ _ _ _.
Arguments hook_removePosition {St} _ _ _.

Section OrderChannel.
Context {St : Type} (steady_now : St -> Z).
Context (lookup : string -> option MarketDefinition).
Context (placeOrder : TradeOpenObj -> OrderContext -> effect St OpenResult).
Context (placeClose : TradeCloseObj -> OrderContext -> effect St CloseResult).
Context (hooks : Hooks St) (inFlightTtl failureTtl closedTtl : Z).
(** The text of an exception; it only reaches the log. *)
Context (what : exn -> string).

Definition open_order (r : OrderRequest) (market : MarketDefinition) : TradeOpenObj :=
  mkOpen (currency market) (epicMini market) "-" (brokerDirection (rq_direction r))
    (dbl_mul (dbl_of_Z (rq_size r)) (sizeModifier market)) true false "MARKET"
    (rq_stopDistancePips r) (rq_limitDistancePips r) (rq_dealReference r).

Definition open_context (r : OrderRequest) : OrderContext :=
  mkContext (rq_strategyUuid r) (rq_strategyName r) (rq_symbol r) (brokerDirection (rq_direction r)).

(** The broker's echo, or the reference that was sent. *)
Definition booked_reference (r : OrderRequest) (result : OpenResult) : string :=
  if String.eqb (or_dealReference result) "" then rq_dealReference r else or_dealReference result.

Definition book_open (r : OrderRequest) (order : TradeOpenObj) (result : OpenResult) : effect St bool :=
  let reference := booked_reference r result in
  _ <-- match hook_clusterOpened hooks with Some opened => opened (rq_symbol r) | None => step_ret tt end ;;
  _ <-- hook_savePosition hooks reference (buildPositionPayload r order reference (or_dealId result)) ;;
  _ <-- hook_addPosition hooks (rq_strategyUuid r) reference ;;
  _ <-- hook_saveDealReceipt hooks reference (rq_symbol r) (buildDealReceipt r reference (or_dealId result)) ;;
  step_ret true.

Definition request (r : OrderRequest) : effect St bool :=
  match lookup (rq_symbol r) with
  | None => step_ret false
  | Some market =>
      let uuid := rq_strategyUuid r in
      let direction := lockDirection (rq_direction r) in
      blocked <-- hook_clusterBlocked hooks (rq_symbol r) (rq_strategyName r) ;;
      if (blocked : bool) then step_ret false
      else
        _ <-- hook_extendLock hooks uuid direction inFlightTtl ;;
        let order := open_order r market in
        result <-- caught (fun e => mkOpenResult OpenFailed "" "" (what e)) (placeOrder order (open_context r)) ;;
        match or_status result with
        | Accepted => book_open r order result
        | Rejected => _ <-- hook_releaseLock hooks uuid direction ;; step_ret false
        | OpenFailed => _ <-- hook_extendLock hooks uuid direction failureTtl ;; step_ret false
        end
  end.

(** ** Closes: the deals closed lately, with the instant they leave the window *)

Definition channel : Type := gmap string Z * St.
Definition on_state {A} (m : effect St A) : effect channel A := fun c =>
  let '(r, s) := m c.2 in (r, (c.1, s)).
Definition set_recent (f : gmap string Z -> gmap string Z) : effect channel unit := fun c => (Ok tt, (f c.1, c.2)).

Definition close_order (q : CloseRequest) : TradeCloseObj :=
  mkClose "MARKET" (closingDirection (brokerDirection (cq_direction q))) (cq_dealId q) (cq_size q).
Definition close_context (q : CloseRequest) : OrderContext :=
  mkContext (cq_strategyUuid q) (cq_strategyName q) (cq_symbol q) (brokerDirection (cq_direction q)).

Definition remove_entry (q : CloseRequest) : effect channel unit :=
  if String.eqb (cq_dealReference q) "" then step_ret tt
  else _ <-- on_state (hook_removePosition hooks (cq_strategyUuid q) (cq_dealReference q)) ;; step_ret tt.

Definition place_close (now : Z) (q : CloseRequest) : effect channel bool :=
  result <-- on_state (caught (fun e => mkCloseResult CloseFailed (what e)) (placeClose (close_order q) (close_context q))) ;;
  match cr_status result with
  | CloseOk =>
      _ <-- set_recent (<[cq_dealId q := now + closedTtl]>) ;;
      _ <-- remove_entry q ;; step_ret true
  | Gone => _ <-- remove_entry q ;; step_ret false
  | CloseFailed => step_ret false
  end.

Definition closePosition (q : CloseRequest) : effect channel bool :=
  if String.eqb (cq_dealId q) "" then step_ret false
  else fun c =>
    let now := steady_now c.2 in
    match c.1 !! cq_dealId q with
    | Some until =>
        if now <? until then (Ok false, c)
        else (_ <-- set_recent (delete (cq_dealId q)) ;; place_close now q) c
    | None => place_close now q c
    end.

End OrderChannel.

(** * Facts *)

Section ChannelFacts.
Context {St : Type} (steady_now : St -> Z).
Context (placeClose : TradeCloseObj -> OrderContext -> effect St CloseResult).
Context (hooks : Hooks St) (closedTtl : Z) (what : exn -> string).
Notation closePosition := (closePosition steady_now placeClose hooks closedTtl what).
Implicit Types (c : channel (St := St)) (q : CloseRequest).

(** On the state under the window. *)
Definition below (P : relation St) : relation (channel (St := St)) := fun c c' => P c.2 c'.2.
#[local] Instance below_pre P `{!PreOrder P} : PreOrder (below P).
Proof. split; [intros c; unfold below; reflexivity|]. intros c1 c2 c3. unfold below. apply transitivity. Qed.

(** A close leaves alone what the two calls it makes leave alone. *)
Lemma close_below P `{!PreOrder P} q :
  (forall order cx, keeps P (placeClose order cx)) -> (forall uuid reference, keeps P (hook_removePosition hooks uuid reference)) ->
  keeps (below P) (closePosition q).
Proof.
  intros Hp Hr.
  assert (forall A (m : effect St A), keeps P m -> keeps (below P) (on_state m)) as Hon.
  { intros A m Hm c. unfold on_state, below. specialize (Hm c.2). now destruct (m c.2). }
  assert (forall f, keeps (below P) (set_recent f)) as Hset by (intros f c; unfold below; cbn; reflexivity).
  assert (forall now, keeps (below P) (place_close placeClose hooks closedTtl what now q)) as Hplace.
  { intros now. unfold place_close, remove_entry. frame.
    all: first [apply Hset|apply Hon; first [apply Hr|apply keeps_caught, Hp]]. }
  unfold closePosition. destruct (String.eqb _ _); [frame|]. intros c.
  destruct (c.1 !! _) as [until|]; [|apply Hplace]. destruct (_ <? _); [unfold below; reflexivity|].
  apply keeps_bind; [exact _|apply Hset|intros; apply Hplace].
Qed.

(** Only the requested deal's place in the window changes. *)
Lemma close_window q c d until :
  (forall order cx, keeps (fun s s' => steady_now s <= steady_now s') (placeClose order cx)) ->
  (forall uuid reference, keeps (fun s s' => steady_now s <= steady_now s') (hook_removePosition hooks uuid reference)) ->
  c.1 !! d = Some until ->
  (closePosition q c).2.1 !! d = Some until \/ until <= steady_now (closePosition q c).2.2.
Proof.
  intros Hp Hr Hd.
  assert (PreOrder (fun s s' : St => steady_now s <= steady_now s')) as Hpre by (split; [intros s; lia|intros s1 s2 s3; lia]).
  pose proof (close_below _ q Hp Hr c) as Hnow. unfold below in Hnow.
  assert (forall now c0, cq_dealId q <> d -> (place_close placeClose hooks closedTtl what now q c0).2.1 !! d = c0.1 !! d) as Hother.
  { intros now c0 Hne. unfold place_close, remove_entry, step_bind, on_state, set_recent, step_ret, caught.
    repeat (cbn [fst snd]; match goal with |- context [match ?x with _ => _ end] =>
      lazymatch x with context [match _ with _ => _ end] => fail | _ => destruct x end end);
    cbn [fst snd]; rewrite ?lookup_insert_ne by done; done. }
  unfold closePosition in *. destruct (String.eqb _ _); [now left|].
  destruct (base.decide (cq_dealId q = d)) as [<-|Hne].
  - rewrite Hd in *. destruct (Z.ltb_spec (steady_now c.2) until) as [Hlt|Hge]; [now left|]. right. lia.
  - left. destruct (c.1 !! cq_dealId q) as [until'|]; [|now rewrite Hother].
    destruct (_ <? _); [done|]. unfold step_bind at 1, set_recent at 1. rewrite Hother by done. cbn. now rewrite lookup_delete_ne.
Qed.

(** A close within the window goes no further. *)
Lemma close_suppressed q c until :
  c.1 !! cq_dealId q = Some until -> steady_now c.2 < until -> closePosition q c = (Ok false, c).
Proof.
  intros Hd Hlt. unfold closePosition. destruct (String.eqb _ _); [done|]. now rewrite Hd, (proj2 (Z.ltb_lt _ _) Hlt).
Qed.

(** Not in the window any more, or never. *)
Definition closable q c : Prop :=
  cq_dealId q <> "" /\ match c.1 !! cq_dealId q with Some until => until <= steady_now c.2 | None => True end.

(** An accepted close puts its deal there, also when the bookkeeping throws. *)
Lemma close_marks q c result :
  closable q c -> (placeClose (close_order q) (close_context q) c.2).1 = Ok result -> cr_status result = CloseOk ->
  (closePosition q c).2.1 !! cq_dealId q = Some (steady_now c.2 + closedTtl).
Proof.
  intros [Hid Hw] Hr Hok.
  assert (forall now c0, c0.2 = c.2 -> (place_close placeClose hooks closedTtl what now q c0).2.1 !! cq_dealId q = Some (now + closedTtl)) as Hplace.
  { intros now c0 E0. unfold place_close. unfold step_bind at 1, on_state at 1, caught at 1. rewrite E0.
    destruct (placeClose _ _ c.2) as [r s1]. cbn [fst] in Hr. subst r. rewrite Hok.
    unfold step_bind, set_recent, remove_entry, on_state, step_ret. destruct (String.eqb _ _); cbn [fst snd].
    - apply lookup_insert_eq.
    - unfold step_bind. cbn. destruct (hook_removePosition _ _ _ _) as [[]]; cbn; apply lookup_insert_eq. }
  unfold closePosition. rewrite (proj2 (String.eqb_neq _ _) Hid).
  destruct (c.1 !! cq_dealId q) as [until|]; [|now apply Hplace].
  rewrite (proj2 (Z.ltb_ge _ _) Hw). unfold step_bind at 1, set_recent at 1. now apply Hplace.
Qed.

End ChannelFacts.

(** * The reference of an order *)

(** What the broker takes in a reference. *)
Definition reference_char (c : Ascii.ascii) : bool := alphanumeric c || (byte_of c =? 45) || (byte_of c =? 95).

Lemma to_string_reference z :
  - 2 ^ 63 <= z < 2 ^ 63 ->
  forallb reference_char (to_string_chars z) = true /\ (1 <= length (to_string_chars z) <= 20)%nat.
Proof.
  intros Hz. assert (forall ds, is_digits ds -> forallb reference_char ds = true) as Hd.
  { intros ds H. apply forallb_forall. intros c Hc. apply list_elem_of_In in Hc. unfold is_digits in H. rewrite Forall_forall in H.
    specialize (H c Hc). clear -H. destruct c as [[] [] [] [] [] [] [] []]; (reflexivity || (vm_compute in H; discriminate)). }
  assert (forall v ds, prints v ds -> v <= 2 ^ 63 -> (1 <= length ds <= 19)%nat) as Hl.
  { intros v ds (_ & _ & Hb & c & tl & -> & _) Hv. cbn [length] in *. split; [lia|].
    destruct (base.decide (S (length tl) <= 19)%nat); [done|exfalso].
    assert (10 ^ 19 <= 10 ^ (Z.of_nat (S (length tl)) - 1)) by (apply Z.pow_le_mono_r; lia). lia. }
  destruct (to_string_chars_prints z Hz) as [[_ ->]|[[_ Hp]|(_ & ds & -> & Hp)]].
  - split; [reflexivity|cbn; lia].
  - split; [apply Hd, Hp|]. pose proof (Hl _ _ Hp ltac:(lia)). lia.
  - split; [cbn [forallb]; now rewrite (Hd ds) by apply Hp|]. pose proof (Hl _ _ Hp ltac:(lia)). cbn [length]. lia.
Qed.

(** Every reference is one the broker takes: of its alphabet, at most thirty
    characters, and never empty. *)
Lemma deal_reference_fits uuid direction timestamp :
  in_i64 timestamp ->
  let reference := chars (makeDealReference uuid direction timestamp) in
  forallb reference_char reference = true /\ (3 <= length reference <= 30)%nat.
Proof.
  intros Ht. unfold makeDealReference, to_string. rewrite !chars_append, !chars_text. cbn [chars].
  assert (- 2 ^ 63 <= timestamp ÷ 1000 < 2 ^ 63) as Hm by (unfold in_i64 in Ht; Z.to_euclidean_division_equations; lia).
  destruct (to_string_reference _ Hm) as [H1 H2].
  assert (forallb reference_char (take 8 (List.filter alphanumeric (chars uuid))) = true) as H3.
  { apply forallb_forall. intros c Hc. apply list_elem_of_In in Hc. apply elem_of_take in Hc as (i & Hi & _).
    apply list_elem_of_lookup_2, list_elem_of_In, List.filter_In in Hi as [_ Hi]. unfold reference_char. now rewrite Hi. }
  pose proof (firstn_le_length 8 (List.filter alphanumeric (chars uuid))) as H4.
  cbv zeta. rewrite !forallb_app, H1, H3, !length_app. split; [now destruct direction|].
  assert (length (chars (match direction with LONG => "L" | SHORT => "S" end)) = 1%nat) as -> by now destruct direction.
  change (length (chars "-")) with 1%nat. lia.
Qed.

Lemma reference_plain s : forallb reference_char (chars s) = true -> plain s = true.
Proof.
  unfold plain. rewrite !forallb_forall. intros H c Hc. specialize (H c Hc). clear -H.
  destruct c as [[] [] [] [] [] [] [] []]; (reflexivity || (vm_compute in H; discriminate)).
Qed.
