(* ===== verification/LiveWiring.v ===== *)
(** What the live process wires a worker to: live/execution/redisTradeGate.cppm,
    redisPositionCounter.cppm, redisPositionFeed.cppm and brokerOrderSink.cppm,
    over the locks, positions, clusters and broker calls. Everything here is
    thread-local in the source: one state per worker thread. Before it, the one clock of
    the engine and the server, which only goes forward whatever the calls meet. *)
From S2P Require Import Prelude Models Double Json JsonDump JsonParse JsonRoundTrip ConfigJson StdText Redis RedisStore TradeLocks Positions PositionText Clusters Markets IgMarkets IgRest IgRequests Effects LiveWorker OrderChannel.
From S2P Require SymbolScale.

(** * The clock *)

Section Clocks.
Context {server : Type} {R : RedisServer server}.

Definition advances {C A} (m : C -> world server -> A * C * world server) : Prop :=
  forall c w, w_clock w <= w_clock (m c w).2.

Ltac run_clocks :=
  repeat match goal with
  | |- context [run ?op ?c ?w] =>
      let E := fresh "E" in destruct (run op c w) as [[? ?] ?] eqn:E; apply run_bounded in E as [? _]; cbn [fst snd] in *
  | |- context [match ?x with _ => _ end] => destruct x; cbn [fst snd] in *
  end; cbn [fst snd]; try lia.

Lemma gate_advances owner uuid dir ttl : advances (isThereATradeLock (server := server) owner uuid dir ttl).
Proof. intros c w. unfold isThereATradeLock. run_clocks. Qed.
Lemma extend_advances owner uuid dir ttl : advances (extendLock (server := server) owner uuid dir ttl).
Proof. intros c w. unfold extendLock. run_clocks. Qed.
Lemma release_advances uuid dir : advances (releaseLock (server := server) uuid dir).
Proof. intros c w. unfold releaseLock. run_clocks. Qed.
Lemma fetch_advances uuid : advances (fetchList (server := server) uuid).
Proof. intros c w. unfold fetchList. run_clocks. Qed.
Lemma payloads_advances uuid : advances (getPositionPayloads (server := server) uuid).
Proof.
  intros c w. unfold getPositionPayloads. pose proof (fetch_advances uuid c w) as H.
  destruct (fetchList uuid c w) as [[st c1] w1]. cbn [snd] in H. run_clocks.
Qed.
Lemma count_advances uuid : advances (getPositionCount (server := server) uuid).
Proof.
  intros c w. unfold getPositionCount. pose proof (payloads_advances uuid c w) as H.
  destruct (getPositionPayloads uuid c w) as [[p c1] w1]. exact H.
Qed.
Lemma write_advances uuid ids : advances (write_list (server := server) uuid ids).
Proof. intros c w. unfold write_list. run_clocks. Qed.
Lemma save_advances d p ttl : advances (savePosition (server := server) d p ttl).
Proof. intros c w. unfold savePosition. run_clocks. Qed.
Lemma receipt_advances d s p ttl : advances (saveDealReceipt (server := server) d s p ttl).
Proof. intros c w. unfold saveDealReceipt. run_clocks. Qed.
Lemma add_advances uuid d : advances (addPosition (server := server) uuid d).
Proof.
  intros c w. unfold addPosition. pose proof (fetch_advances uuid c w) as H.
  destruct (fetchList uuid c w) as [[st c1] w1]. cbn [snd] in H.
  assert (forall ids, w_clock w <= w_clock (if bool_decide (d ∈ ids) then (Ok true, c1, w1)
    else write_list uuid (ids ++ [d]) c1 w1).2) as Hadd.
  { intros ids. destruct (bool_decide _); [done|]. pose proof (write_advances uuid (ids ++ [d]) c1 w1). lia. }
  destruct st; [apply Hadd|apply Hadd|done].
Qed.
Lemma remove_advances uuid d : advances (removePosition (server := server) uuid d).
Proof.
  intros c w. unfold removePosition. destruct (run (getDelete _) c w) as [[p c1] w1] eqn:E1. apply run_bounded in E1 as [H1 _].
  destruct p as [p|]; [|done].
  assert (forall cw : client * world server, w_clock w <= w_clock cw.2 -> w_clock w <= w_clock
    (let '(state, c, w) := fetchList uuid cw.1 cw.2 in match state with
      | ListMissing => (Ok true, c, w) | ListFailed => (Ok false, c, w)
      | ListOk ids => write_list uuid (base.filter (fun x => x <> d) ids) c w end).2) as H.
  { intros [c2 w2] H2. cbn [fst snd] in *. pose proof (fetch_advances uuid c2 w2) as H3.
    destruct (fetchList uuid c2 w2) as [[st c3] w3]. cbn [snd] in H3. destruct st as [ids| |]; [|cbn; lia..].
    pose proof (write_advances uuid (base.filter (fun x => x <> d) ids) c3 w3). lia. }
  destruct p as [p|]; [|exact (H (c1, w1) H1)].
  destruct (run (setStringWhen _ _ _ _) c1 w1) as [[r2 c2] w2] eqn:E2. apply run_bounded in E2 as [H2 _].
  apply (H (c2, w2)). cbn. lia.
Qed.
Lemma lock_groups_advances groups symbol ttl : advances (lock_groups (server := server) groups symbol ttl).
Proof.
  induction groups as [|g groups IH]; intros c w; cbn [lock_groups]; [cbn; lia|].
  destruct (run _ c w) as [[r c1] w1] eqn:E. apply run_bounded in E as [H _]. specialize (IH c1 w1).
  destruct r as [[]|]; cbn [snd]; lia.
Qed.
Lemma check_groups_advances groups symbol name : advances (check_groups (server := server) groups symbol name).
Proof.
  induction groups as [|g groups IH]; intros c w; cbn [check_groups]; [cbn; lia|].
  destruct (run _ c w) as [[r c1] w1] eqn:E. apply run_bounded in E as [H _]. specialize (IH c1 w1).
  destruct r as [m|]; [destruct (evaluateClusterGroup _ _ _ _ _)|]; cbn [snd]; lia.
Qed.
Lemma blocked_advances symbol name ttl : advances (isClusterBlocked (server := server) symbol name ttl).
Proof.
  intros c w. unfold isClusterBlocked. destruct (groupsFor symbol) as [|g groups]; [cbn; lia|].
  pose proof (lock_groups_advances (g :: groups) symbol ttl c w) as H.
  destruct (lock_groups _ _ _ c w) as [[l c1] w1]. cbn [snd] in H. destruct l; [|exact H].
  pose proof (check_groups_advances (g :: groups) symbol name c1 w1) as H1.
  destruct (check_groups _ _ _ c1 w1) as [[p c2] w2]. cbn [snd] in *. lia.
Qed.
Lemma mark_advances groups symbol ttl : forall c (w : world server), w_clock w <= w_clock (mark_groups groups symbol ttl c w).2.
Proof.
  induction groups as [|g groups IH]; intros c w; cbn [mark_groups]; [cbn; lia|].
  destruct (run _ c w) as [[r c1] w1] eqn:E. apply run_bounded in E as [H _]. specialize (IH c1 w1). lia.
Qed.
Lemma requests_made_advances m : advances (requestsMade (server := server) m).
Proof. intros c w. unfold requestsMade. run_clocks. Qed.
Lemma record_request_advances m : advances (recordRequest (server := server) m).
Proof.
  intros c w. unfold recordRequest. pose proof (requests_made_advances m c w) as H.
  destruct (requestsMade m c w) as [[n c1] w1]. cbn [snd] in H. run_clocks.
Qed.
Lemma duplicate_advances d : advances (isDuplicateDeal (server := server) d).
Proof. intros c w. unfold isDuplicateDeal. run_clocks. Qed.
Lemma record_deal_advances d ttl : advances (recordDealRequest (server := server) d ttl).
Proof. intros c w. unfold recordDealRequest. run_clocks. Qed.

(** The broker's path. *)
Definition now_of (s : requests server) : Z := w_clock (redis s.2).

Lemma gated_forward {A} (m : method (server := server) A) s : advances m -> now_of s <= now_of (gated m s).2.
Proof. intros H. unfold gated, now_of. specialize (H s.1 (redis s.2)). destruct (m _ _) as [[a c] w]. exact H. Qed.

Lemma request_forward path meth body extra options s :
  now_of s <= now_of (guarded_request path meth body extra options s).2.
Proof.
  unfold guarded_request.
  destruct (if String.eqb (dealKey options) "" then _ else _) as [duplicate s1] eqn:E1.
  assert (now_of s <= now_of s1) as H1.
  { destruct (String.eqb _ _); [injection E1 as <- <-; lia|]. apply (f_equal snd) in E1. cbn in E1. subst s1.
    apply gated_forward, duplicate_advances. }
  pose proof (gated_forward (requestsMade (currentMinuteOfHour s1)) s1 (requests_made_advances _)) as H2.
  destruct (gated (requestsMade _) s1) as [made s2]. cbn [snd] in H2.
  destruct (gatePolicy _ _ _); [cbn; lia|].
  pose proof (gated_forward (recordRequest (currentMinuteOfHour s1)) s2 (record_request_advances _)) as H3.
  destruct (gated (recordRequest _) s2) as [u3 s3]. cbn [snd] in H3.
  pose proof (gated_forward (recordDealRequest (dealKey options) 30) s3 (record_deal_advances _ _)) as H4.
  destruct (gated (recordDealRequest _ _) s3) as [u4 s4]. cbn [snd] in H4.
  destruct (pullAuthWithRetry s4.2) as [auth world] eqn:E5. apply pullAuth_quiet in E5 as (_ & _ & _ & H5).
  unfold now_of in *. destruct auth as [auth|]; [|cbn; lia].
  destruct (execute auth _ _ _ _ _ world) as [response world'] eqn:E6.
  destruct (execute_from_sends _ _ _ _ _ _ _ _ _ _ _ E6) as (_ & _ & _ & _ & H6 & _). cbn. lia.
Qed.

Lemma confirm_forward n : forall k ref report delay s,
  now_of s <= now_of (pollConfirm guarded_request pause_for n k ref report delay s).2.
Proof.
  induction n as [|n IH]; intros k ref report delay s; cbn [pollConfirm]; [cbn; lia|].
  set (s0 := if (0 <? k) && (0 <? delay) then _ else s).
  assert (now_of s <= now_of s0) as H0.
  { unfold s0, now_of, pause_for. destruct (Z.ltb_spec 0 k), (Z.ltb_spec 0 delay); cbn; lia. }
  match goal with |- context [guarded_request ?p ?m ?b ?e ?o s0] => pose proof (request_forward p m b e o s0) as H2;
    destruct (guarded_request p m b e o s0) as [outcome s1] end. cbn [snd] in H2.
  destruct (settled _ _ _); [cbn; unfold now_of in *; cbn in *; lia|]. specialize (IH (k + 1) ref report delay s1). unfold now_of in *. lia.
Qed.

Lemma core_forward order context s :
  now_of s <= now_of (makeOpen guarded_request pause_for kConfirmAttempts kConfirmDelay order context s).2.
Proof.
  unfold makeOpen. destruct (encodeTradeOpen order) as [body|e]; [|cbn; lia].
  match goal with |- context [guarded_request ?p ?m ?b ?e ?o s] => pose proof (request_forward p m b e o s) as H1;
    destruct (guarded_request p m b e o s) as [outcome s1] end. cbn [snd] in H1.
  assert (forall ref report, now_of s <= now_of (pollConfirm guarded_request pause_for (Z.to_nat kConfirmAttempts) 0 ref report kConfirmDelay s1).2) as Hpoll.
  { intros ref report. pose proof (confirm_forward (Z.to_nat kConfirmAttempts) 0 ref report kConfirmDelay s1). lia. }
  repeat match goal with
  | |- context [pollConfirm guarded_request pause_for ?n 0 ?ref ?report kConfirmDelay s1] =>
      let H := fresh in pose proof (Hpoll ref report) as H;
      destruct (pollConfirm guarded_request pause_for n 0 ref report kConfirmDelay s1); cbn [snd] in H
  | |- context [match ?x with _ => _ end] => lazymatch x with context [match _ with _ => _ end] => fail | _ => destruct x end
  end; cbn [snd]; assumption.
Qed.

(** The audit line takes no time. *)
Lemma audit_forward env action context reference dealId s :
  now_of (auditTrade env action context reference dealId s).2 = now_of s.
Proof.
  destruct (auditTrade _ _ _ _ _ s) as [a s3] eqn:E. apply auditTrade_quiet in E as (_ & E & _).
  unfold now_of. cbn [snd]. now rewrite E.
Qed.

Lemma open_forward env order context s : now_of s <= now_of (makeLiveOpen env order context s).2.
Proof.
  unfold makeLiveOpen. pose proof (core_forward order context s) as H.
  destruct (makeOpen _ _ _ _ order context s) as [[result|e] s1]; [|exact H]. cbn [snd] in H.
  destruct (or_status result); [|exact H..].
  pose proof (audit_forward env "Open Trade" context (or_dealReference result) (or_dealId result) s1) as Ha.
  destruct (auditTrade _ _ _ _ _ s1) as [a s3]. cbn [snd] in *. now rewrite Ha.
Qed.

Lemma close_forward env close context s : now_of s <= now_of (makeLiveClose env close context s).2.
Proof.
  unfold makeLiveClose, makeClose. destruct (encodeTradeClose close) as [body|e]; [|cbn; lia].
  match goal with |- context [guarded_request ?p ?m ?b ?e ?o s] => pose proof (request_forward p m b e o s) as H1;
    destruct (guarded_request p m b e o s) as [outcome s1] end. cbn [snd] in H1.
  destruct (cr_status (closed outcome)); [|exact H1..].
  pose proof (audit_forward env "Close Trade" context (close_dealId close) "" s1) as Ha.
  destruct (auditTrade _ _ _ _ _ s1) as [a s3]. cbn [snd] in *. now rewrite Ha.
Qed.

End Clocks.

(** * The position feed's records *)

(** A size that [llround] cannot represent is unspecified. *)
Definition toBookedPosition (record : PositionRecord) (market : option MarketDefinition) : result (option BookedPosition) :=
  let direction :=
    if String.eqb (pr_direction record) "BUY" then Some LONG
    else if String.eqb (pr_direction record) "SELL" then Some SHORT else None in
  match direction with
  | None => Ok None
  | Some direction =>
      let modifier := match market with Some m => sizeModifier m | None => dbl_of_Z 1 end in
      match dbl_llround (dbl_div (pr_size record) modifier) with
      | None => Throw UndefinedRead
      | Some size =>
          Ok (Some (mkBooked (pr_dealId record) (pr_dealReference record) direction (pr_size record) (i32 size)
                      (pr_level record) (pr_openedAtMicros record)))
      end
  end.

(** The payloads of one symbol; what does not decode or has no direction is left out. *)
Fixpoint booked_positions (symbol : string) (payloads : list (string * string)) : result (list BookedPosition) :=
  match payloads with
  | [] => Ok []
  | (reference, payload) :: payloads =>
      record <~ decodePositionRecord payload ;
      position <~ match record with
                  | Some record => if String.eqb (pr_symbol record) symbol
                                   then toBookedPosition record (findMarket symbol) else Ok None
                  | None => Ok None
                  end ;
      positions <~ booked_positions symbol payloads ;
      Ok match position with Some p => p :: positions | None => positions end
  end.

(** * The cached count *)

(** The count and the instant it is fresh until. *)
Definition CachedCount : Type := Z * Z.
Definition cached_count (strategyUuid : string) (now : Z) (cache : gmap string CachedCount) : option Z :=
  match cache !! strategyUuid with
  | Some (n, freshUntil) => if freshUntil <=? now then None else Some n
  | None => None
  end.

(** * One worker thread *)

Section LiveWiring.
Context {server : Type} {R : RedisServer server}.

Record thread : Type := mkThread {
  th_io : io server;
  th_gate : TradeLocks;
  th_counter : client;
  th_counts : gmap string CachedCount;
  th_feed : client;
  th_locks : TradeLocks;
  th_positions : client;
  th_clusters : client;
  th_recent : gmap string Z;
  th_broker : client }.

Definition th_clock (t : thread) : Z := w_clock (redis (th_io t)).
Definition th_server (t : thread) : server := w_server (redis (th_io t)).

Definition set_io (x : io server) (t : thread) : thread :=
  mkThread x (th_gate t) (th_counter t) (th_counts t) (th_feed t) (th_locks t) (th_positions t) (th_clusters t)
    (th_recent t) (th_broker t).
Definition set_gate (x : TradeLocks) (t : thread) : thread :=
  mkThread (th_io t) x (th_counter t) (th_counts t) (th_feed t) (th_locks t) (th_positions t) (th_clusters t)
    (th_recent t) (th_broker t).
Definition set_counter (x : client) (t : thread) : thread :=
  mkThread (th_io t) (th_gate t) x (th_counts t) (th_feed t) (th_locks t) (th_positions t) (th_clusters t)
    (th_recent t) (th_broker t).
Definition set_counts (x : gmap string CachedCount) (t : thread) : thread :=
  mkThread (th_io t) (th_gate t) (th_counter t) x (th_feed t) (th_locks t) (th_positions t) (th_clusters t)
    (th_recent t) (th_broker t).
Definition set_feed (x : client) (t : thread) : thread :=
  mkThread (th_io t) (th_gate t) (th_counter t) (th_counts t) x (th_locks t) (th_positions t) (th_clusters t)
    (th_recent t) (th_broker t).
Definition set_locks (x : TradeLocks) (t : thread) : thread :=
  mkThread (th_io t) (th_gate t) (th_counter t) (th_counts t) (th_feed t) x (th_positions t) (th_clusters t)
    (th_recent t) (th_broker t).
Definition set_positions (x : client) (t : thread) : thread :=
  mkThread (th_io t) (th_gate t) (th_counter t) (th_counts t) (th_feed t) (th_locks t) x (th_clusters t)
    (th_recent t) (th_broker t).
Definition set_clusters (x : client) (t : thread) : thread :=
  mkThread (th_io t) (th_gate t) (th_counter t) (th_counts t) (th_feed t) (th_locks t) (th_positions t) x
    (th_recent t) (th_broker t).
Definition set_recents (x : gmap string Z) (t : thread) : thread :=
  mkThread (th_io t) (th_gate t) (th_counter t) (th_counts t) (th_feed t) (th_locks t) (th_positions t) (th_clusters t)
    x (th_broker t).
Definition set_broker (x : client) (t : thread) : thread :=
  mkThread (th_io t) (th_gate t) (th_counter t) (th_counts t) (th_feed t) (th_locks t) (th_positions t) (th_clusters t)
    (th_recent t) x.

(** Something of the thread that talks to the server. *)
Definition talk {C A} (get : thread -> C) (set : C -> thread -> thread) (m : C -> world server -> A * C * world server)
    : thread -> A * thread := fun t =>
  let '(a, c, w) := m (get t) (redis (th_io t)) in (a, set c (set_io (with_redis w (th_io t)) t)).
Definition sure {A} (m : thread -> A * thread) : effect thread A := fun t => let '(a, t) := m t in (Ok a, t).

Definition cacheTtl : Z := 15 * 1000000.
Definition kClusterLockTtl : Z := 10.
Definition kOpenedTtl : Z := 120.
Definition kPositionTtl : Z := 5 * 60 * 1000.
Definition kReceiptTtl : Z := 24 * 60.
Definition kFailureTtl : Z := 120.
Definition kClosedTtl : Z := 5 * 60 * 1000000.

Context (lockOwner tradingEnv : string) (lockTtl : Z) (what : exn -> string).

(** ** RedisTradeGate, RedisPositionCounter, RedisPositionFeed *)

Definition trade_gate (strategyUuid direction : string) : effect thread bool :=
  sure (fun t =>
    let '(locked, t) := talk th_gate set_gate (isThereATradeLock lockOwner strategyUuid direction lockTtl) t in
    (negb locked, t)).

Definition position_counter (strategyUuid : string) : effect thread (option Z) :=
  sure (fun t =>
    let now := th_clock t in
    match cached_count strategyUuid now (th_counts t) with
    | Some n => (Some n, t)
    | None =>
        let '(n, t) := talk th_counter set_counter (getPositionCount strategyUuid) t in
        (n, match n with Some n => set_counts (<[strategyUuid := (n, now + cacheTtl)]> (th_counts t)) t | None => t end)
    end).
Definition invalidateCache (strategyUuid : string) : effect thread unit :=
  fun t => (Ok tt, set_counts (delete strategyUuid (th_counts t)) t).

Definition position_feed (strategyUuid symbol : string) : effect thread (option (list BookedPosition)) := fun t =>
  let '(payloads, t) := talk th_feed set_feed (getPositionPayloads strategyUuid) t in
  match payloads with
  | None => (Ok None, t)
  | Some payloads => (l <~ booked_positions symbol payloads ; Ok (Some l), t)
  end.

(** ** BrokerOrderSink *)

Definition live_hooks : Hooks thread := {|
  hook_clusterBlocked := fun symbol strategyName =>
    sure (talk th_clusters set_clusters (isClusterBlocked symbol strategyName kClusterLockTtl));
  hook_clusterOpened := Some (fun symbol =>
    sure (talk th_clusters set_clusters (fun c w => let '(c, w) := markOpened symbol kOpenedTtl c w in (tt, c, w))));
  hook_extendLock := fun uuid direction ttl => sure (talk th_locks set_locks (extendLock lockOwner uuid direction ttl));
  hook_releaseLock := fun uuid direction => sure (talk th_locks set_locks (releaseLock uuid direction));
  hook_savePosition := fun reference payload =>
    sure (talk th_positions set_positions (savePosition reference payload kPositionTtl));
  hook_addPosition := fun uuid reference => talk th_positions set_positions (addPosition uuid reference);
  hook_saveDealReceipt := fun reference symbol payload =>
    sure (talk th_positions set_positions (saveDealReceipt reference symbol payload kReceiptTtl));
  hook_removePosition := fun uuid reference => talk th_positions set_positions (removePosition uuid reference) |}.

(** The broker calls of this thread. *)
Definition broker {A} (m : requests server -> A * requests server) : thread -> A * thread := fun t =>
  let '(a, (c, x)) := m (th_broker t, th_io t) in (a, set_broker c (set_io x t)).
Definition place_order (order : TradeOpenObj) (context : OrderContext) : effect thread OpenResult :=
  broker (makeLiveOpen tradingEnv order context).
Definition place_close_order (close : TradeCloseObj) (context : OrderContext) : effect thread CloseResult :=
  broker (makeLiveClose tradingEnv close context).

Definition order_sink (intent : OrderIntent) : effect thread unit :=
  match makeOrderRequest intent with
  | None => step_ret tt
  | Some r =>
      accepted <-- request findMarket place_order live_hooks lockTtl kFailureTtl what r ;;
      if (accepted : bool) then invalidateCache (rq_strategyUuid r) else step_ret tt
  end.

Definition close_request (i : CloseIntent) : CloseRequest :=
  mkCloseRequest (ci_strategyUuid i) (ci_strategyName i) (ci_symbol i) (ci_direction i) (ci_brokerSize i)
    (ci_dealId i) (ci_dealReference i).

(** The channel's window of closed deals lives in the thread. *)
Definition on_channel {A} (m : effect (channel (St := thread)) A) : effect thread A := fun t =>
  let '(r, (recent, t)) := m (th_recent t, t) in (r, set_recents recent t).

Definition close_sink (intent : CloseIntent) : effect thread unit :=
  closed <-- on_channel (closePosition th_clock place_close_order live_hooks kClosedTtl what (close_request intent)) ;;
  if (closed : bool) then invalidateCache (ci_strategyUuid intent) else step_ret tt.

(** LiveCommand's wiring. *)
Definition live_seams : Seams thread := {|
  gate_ := trade_gate;
  sink_ := order_sink;
  positions_ := Some position_counter;
  feed_ := Some position_feed;
  closeSink_ := Some close_sink;
  steady_now := th_clock |}.

End LiveWiring.
Arguments thread : clear implicits.

(** * A worker thread at work *)

Section Threads.
Context {server : Type} {R : RedisServer server}.
Context (lockOwner tradingEnv : string) (lockTtl : Z) (what : exn -> string).
Notation thread := (thread server).
Notation trade_gate := (trade_gate (server := server) lockOwner lockTtl).
Notation order_sink := (order_sink (server := server) lockOwner tradingEnv lockTtl what).
Notation close_sink := (close_sink (server := server) lockOwner tradingEnv what).
Implicit Types t : thread.

(** What can happen to a thread: it waits, while others use the server, or it makes
    one of the runner's calls. *)
Inductive thread_step (t t' : thread) : Prop :=
  | Waits x : t' = set_io x t -> th_clock t <= w_clock (redis x) -> thread_step t t'
  | Asks uuid direction : t' = (trade_gate uuid direction t).2 -> thread_step t t'
  | Counts uuid : t' = (position_counter uuid t).2 -> thread_step t t'
  | Feeds uuid symbol : t' = (position_feed uuid symbol t).2 -> thread_step t t'
  | Orders intent : t' = (order_sink intent t).2 -> thread_step t t'
  | Closes intent : t' = (close_sink intent t).2 -> thread_step t t'.

(** Part of the thread stays, and time goes forward. *)
Definition holds {X} (f : thread -> X) : relation thread := fun t t' => f t' = f t /\ th_clock t <= th_clock t'.
#[local] Instance holds_pre {X} (f : thread -> X) : PreOrder (holds f).
Proof. split; [now split|]. intros t1 t2 t3 [A B] [A' B']. split; [congruence|lia]. Qed.

Lemma keeps_sure (P : relation thread) {A} (m : thread -> A * thread) : (forall t, P t (m t).2) -> keeps P (sure m).
Proof. intros H t. unfold sure. specialize (H t). now destruct (m t). Qed.

Lemma talk_holds {X C A} (f : thread -> X) (get : thread -> C) set (m : C -> world server -> A * C * world server) :
  advances m -> (forall c t, f (set c t) = f t /\ th_io (set c t) = th_io t) -> (forall x t, f (set_io x t) = f t) ->
  forall t, holds f t (talk get set m t).2.
Proof.
  intros Hm Hs Hio t. unfold talk. specialize (Hm (get t) (redis (th_io t))).
  destruct (m _ _) as [[a c] w]. cbn [snd] in *. destruct (Hs c (set_io (with_redis w (th_io t)) t)) as [H1 H2].
  split; [now rewrite H1, Hio|]. unfold th_clock. rewrite H2. exact Hm.
Qed.

Lemma broker_holds {X A} (f : thread -> X) (m : requests server -> result A * requests server) :
  (forall s, now_of s <= now_of (m s).2) -> (forall x t, f (set_broker x t) = f t) -> (forall x t, f (set_io x t) = f t) ->
  keeps (holds f) (broker m).
Proof.
  intros Hm Hb Hio t. unfold broker. specialize (Hm (th_broker t, th_io t)). destruct (m _) as [a [c x]].
  cbn [snd] in *. split; [now rewrite Hb, Hio|exact Hm].
Qed.

(** What the window and the gate's locks have to do with: neither of them with the
    counter, the feed and an order, the locks not with a close, the window not with
    the gate. *)
Section Frames.
Context {X : Type} (f : thread -> X).
Hypothesis frame_io : forall x t, f (set_io x t) = f t.
Hypothesis frame_counter : forall x t, f (set_counter x t) = f t.
Hypothesis frame_counts : forall x t, f (set_counts x t) = f t.
Hypothesis frame_feed : forall x t, f (set_feed x t) = f t.
Hypothesis frame_locks : forall x t, f (set_locks x t) = f t.
Hypothesis frame_positions : forall x t, f (set_positions x t) = f t.
Hypothesis frame_clusters : forall x t, f (set_clusters x t) = f t.
Hypothesis frame_broker : forall x t, f (set_broker x t) = f t.

Ltac talks := try (apply keeps_sure; intros ?); apply talk_holds; [|intros ? ?; now split|done].

Lemma counter_holds uuid : keeps (holds f) (position_counter uuid).
Proof.
  unfold position_counter. apply keeps_sure. intros t. cbv zeta. destruct (cached_count uuid _ _) as [n|]; [reflexivity|].
  assert (holds f t (talk th_counter set_counter (getPositionCount uuid) t).2) as H by (talks; apply count_advances).
  destruct (talk _ _ _ t) as [n t1]. cbn [snd] in *. destruct n as [n|]; [|exact H].
  destruct H as [H1 H2]. split; [now rewrite frame_counts|exact H2].
Qed.

Lemma feed_holds uuid symbol : keeps (holds f) (position_feed uuid symbol).
Proof.
  intros t. unfold position_feed.
  assert (holds f t (talk th_feed set_feed (getPositionPayloads uuid) t).2) as H by (talks; apply payloads_advances).
  destruct (talk _ _ _ t) as [payloads t1]. now destruct payloads.
Qed.

Lemma hook_blocked_holds symbol name : keeps (holds f) (hook_clusterBlocked (live_hooks lockOwner) symbol name).
Proof. talks. apply blocked_advances. Qed.
Lemma hook_opened_holds symbol opened : hook_clusterOpened (live_hooks lockOwner) = Some opened -> keeps (holds f) (opened symbol).
Proof.
  intros [= <-]. talks. intros c w. pose proof (mark_advances (groupsFor symbol) symbol kOpenedTtl c w) as H.
  unfold markOpened. now destruct (mark_groups _ _ _ c w).
Qed.
Lemma hook_extend_holds uuid dir ttl : keeps (holds f) (hook_extendLock (live_hooks lockOwner) uuid dir ttl).
Proof. talks. apply extend_advances. Qed.
Lemma hook_release_holds uuid dir : keeps (holds f) (hook_releaseLock (live_hooks lockOwner) uuid dir).
Proof. talks. apply release_advances. Qed.
Lemma hook_save_holds d payload : keeps (holds f) (hook_savePosition (live_hooks lockOwner) d payload).
Proof. talks. apply save_advances. Qed.
Lemma hook_add_holds uuid d : keeps (holds f) (hook_addPosition (live_hooks lockOwner) uuid d).
Proof. intros t. apply (talk_holds f th_positions set_positions); [apply add_advances|now split|done]. Qed.
Lemma hook_receipt_holds d symbol payload : keeps (holds f) (hook_saveDealReceipt (live_hooks lockOwner) d symbol payload).
Proof. talks. apply receipt_advances. Qed.
Lemma hook_remove_holds uuid d : keeps (holds f) (hook_removePosition (live_hooks lockOwner) uuid d).
Proof. intros t. apply (talk_holds f th_positions set_positions); [apply remove_advances|now split|done]. Qed.
Lemma place_order_holds order cx : keeps (holds f) (place_order tradingEnv order cx).
Proof. apply broker_holds; [apply open_forward|done|done]. Qed.
Lemma place_close_holds order cx : keeps (holds f) (place_close_order tradingEnv order cx).
Proof. apply broker_holds; [apply close_forward|done|done]. Qed.
Lemma invalidate_holds uuid : keeps (holds f) (invalidateCache (server := server) uuid).
Proof. intros t. split; [apply frame_counts|reflexivity]. Qed.

Lemma order_holds intent : keeps (holds f) (order_sink intent).
Proof.
  unfold order_sink, request, book_open. destruct (makeOrderRequest intent) as [r|]; [|frame].
  apply keeps_bind; [exact _| |intros []; [apply invalidate_holds|frame]].
  destruct (findMarket _) as [market|]; [|frame].
  apply keeps_bind; [exact _|apply hook_blocked_holds|]. intros []; [frame|].
  apply keeps_bind; [exact _|apply hook_extend_holds|]. intros _.
  apply keeps_bind; [exact _|apply keeps_caught, place_order_holds|]. intros result. destruct (or_status result).
  - repeat (apply keeps_bind; [exact _| |intros _]); [|apply hook_save_holds|apply hook_add_holds|apply hook_receipt_holds|frame].
    destruct (hook_clusterOpened _) eqn:E; [now apply hook_opened_holds|frame].
  - apply keeps_bind; [exact _|apply hook_release_holds|frame].
  - apply keeps_bind; [exact _|apply hook_extend_holds|frame].
Qed.

End Frames.

Lemma close_holds {X} (f : thread -> X) intent :
  (forall x t, f (set_io x t) = f t) -> (forall x t, f (set_positions x t) = f t) -> (forall x t, f (set_broker x t) = f t) ->
  (forall x t, f (set_counts x t) = f t) -> (forall x t, f (set_recents x t) = f t) -> keeps (holds f) (close_sink intent).
Proof.
  intros Hio Hp Hb Hc Hrec. unfold close_sink. apply keeps_bind; [exact _| |intros []; [now apply invalidate_holds|frame]].
  intros t. unfold on_channel.
  pose proof (close_below th_clock (place_close_order tradingEnv) (live_hooks lockOwner) kClosedTtl what (holds f)
    (close_request intent)
    ltac:(intros; now apply place_close_holds) ltac:(intros; now apply hook_remove_holds) (th_recent t, t)) as H.
  destruct (closePosition _ _ _ _ _ _ _) as [r [recent t1]]. unfold below in H. cbn [fst snd] in *.
  destruct H as [H1 H2]. split; [now rewrite Hrec|exact H2].
Qed.

Lemma asks_gate uuid dir t :
  let t' := (trade_gate uuid dir t).2 in
  th_gate t' = (isThereATradeLock lockOwner uuid dir lockTtl (th_gate t) (redis (th_io t))).1.2 /\
  th_recent t' = th_recent t /\ th_clock t <= th_clock t'.
Proof.
  unfold trade_gate, sure, talk. pose proof (gate_advances lockOwner uuid dir lockTtl (th_gate t) (redis (th_io t))) as H.
  now destruct (isThereATradeLock _ _ _ _ _ _) as [[b l] w].
Qed.

Lemma step_forward t t' : thread_step t t' -> th_clock t <= th_clock t'.
Proof.
  intros [x -> H|uuid dir ->|uuid ->|uuid symbol ->|intent ->|intent ->]; [exact H|now destruct (asks_gate uuid dir t) as (_ & _ & ?)|..];
    eapply (fun H => proj2 (H t : holds (fun _ => tt) _ _)).
  - now apply counter_holds.
  - now apply feed_holds.
  - now apply order_holds.
  - now apply close_holds.
Qed.

(** A lock the gate took stays in its record until its lifetime is over. *)
Lemma step_keeps_lock t t' key until :
  thread_step t t' -> heldUntil_ (th_gate t) !! key = Some until ->
  heldUntil_ (th_gate t') !! key = Some until \/ until <= th_clock t'.
Proof.
  intros Hs Hk. pose proof (step_forward _ _ Hs) as Hf.
  assert (th_gate t' = th_gate t -> heldUntil_ (th_gate t') !! key = Some until) as Hsame by (intros ->; exact Hk).
  destruct Hs as [x -> H|uuid dir ->|uuid ->|uuid symbol ->|intent ->|intent ->]; [now left| |left; apply Hsame..].
  2-5: eapply (fun H => proj1 (H t : holds th_gate _ _)).
  2: now apply counter_holds. 2: now apply feed_holds. 2: now apply order_holds. 2: now apply close_holds.
  destruct (asks_gate uuid dir t) as (Eg & _ & _). rewrite Eg. unfold isThereATradeLock.
  destruct (base.decide (lockKey uuid dir = key)) as [<-|Hne].
  - unfold known_held. rewrite Hk. destruct (Z.ltb_spec (w_clock (redis (th_io t))) until) as [Hlt|Hge]; [now left|].
    right. unfold th_clock in *. lia.
  - left. destruct (known_held _ _ _); [exact Hk|]. destruct (run _ _ _) as [[[[]|] c] w]; cbn; rewrite ?lookup_insert_ne by done;
      now rewrite lookup_delete_ne.
Qed.

(** A closed deal stays in the window until its time is over. *)
Lemma step_keeps_window t t' d until :
  thread_step t t' -> th_recent t !! d = Some until -> th_recent t' !! d = Some until \/ until <= th_clock t'.
Proof.
  intros Hs Hk. assert (th_recent t' = th_recent t -> th_recent t' !! d = Some until) as Hsame by (intros ->; exact Hk).
  destruct Hs as [x -> H|uuid dir ->|uuid ->|uuid symbol ->|intent ->|intent ->]; [now left|left; apply Hsame..|].
  1: now destruct (asks_gate uuid dir t) as (_ & ? & _).
  1-3: eapply (fun H => proj1 (H t : holds th_recent _ _)).
  1: now apply counter_holds. 1: now apply feed_holds. 1: now apply order_holds.
  assert (forall m : effect thread CloseResult, keeps (holds (fun _ => tt)) m -> keeps (fun s s' => th_clock s <= th_clock s') m) as Hw
    by (intros m Hm s; apply Hm).
  pose proof (close_window th_clock (place_close_order tradingEnv) (live_hooks lockOwner) kClosedTtl what (close_request intent)
    (th_recent t, t) d until) as H.
  assert (forall (A : Type) (m : effect thread A), keeps (holds (fun _ => tt)) m -> keeps (fun s s' => th_clock s <= th_clock s') m) as Hk'
    by (intros A m Hm s; apply Hm).
  specialize (H ltac:(intros; apply Hk'; now apply place_close_holds) ltac:(intros; apply Hk'; now apply hook_remove_holds) Hk).
  unfold close_sink, step_bind, on_channel. destruct (closePosition _ _ _ _ _ _ _) as [r [recent t1]]. cbn [fst snd] in H.
  destruct r as [[]|]; exact H.
Qed.

Lemma steps_keep (f : thread -> gmap string Z) key until t t' :
  (forall t t', thread_step t t' -> f t !! key = Some until -> f t' !! key = Some until \/ until <= th_clock t') ->
  rtc thread_step t t' -> f t !! key = Some until -> th_clock t' < until -> f t' !! key = Some until.
Proof.
  intros Hstep Hr. induction Hr as [t|t t1 t' H1 Hr IH]; [done|]. intros Hk Hlt.
  assert (th_clock t1 <= th_clock t') as Hf by (clear - Hr; induction Hr as [|t1 t2 t3 H _ IH]; [lia|apply step_forward in H; lia]).
  destruct (Hstep _ _ H1 Hk) as [Hk1|Hover]; [now apply IH|lia].
Qed.


(** C8: one market order per close. When the broker has accepted the close of a
    deal, no further close of that deal reaches it for five minutes, whatever the
    thread does in between: the sink leaves everything as it is. It holds also when
    removing the deal from the book throws. *)
Theorem deal_closed_once i t result t2 i' :
  closable th_clock (close_request i) (th_recent t, t) ->
  (place_close_order tradingEnv (close_order (close_request i)) (close_context (close_request i)) t).1 = Ok result ->
  cr_status result = CloseOk ->
  rtc thread_step (close_sink i t).2 t2 -> th_clock t2 < th_clock t + kClosedTtl -> ci_dealId i' = ci_dealId i ->
  close_sink i' t2 = (Ok tt, t2).
Proof.
  intros Hc Hr Hok Hs Hlt Hid.
  assert (th_recent (close_sink i t).2 !! ci_dealId i = Some (th_clock t + kClosedTtl)) as Hheld.
  { pose proof (close_marks th_clock (place_close_order tradingEnv) (live_hooks lockOwner) kClosedTtl what _ _ _ Hc Hr Hok) as H.
    unfold close_sink, step_bind, on_channel. destruct (closePosition _ _ _ _ _ _ _) as [r [recent t1]]. cbn [fst snd] in H.
    destruct r as [[]|]; exact H. }
  pose proof (steps_keep th_recent _ _ _ _ (fun t t' H K => step_keeps_window t t' _ _ H K) Hs Hheld Hlt) as Hk.
  unfold close_sink, step_bind, on_channel. rewrite <- Hid in Hk.
  rewrite (close_suppressed th_clock _ _ _ _ (close_request i') (th_recent t2, t2) _ Hk Hlt). unfold step_ret. now destruct t2.
Qed.

End Threads.

(** * What an order writes, the feed reads *)

Lemma market_texts : forallb (fun m => plain (market_symbol m) && plain (epicMini m) && negb (String.eqb (market_symbol m) "")) kMarkets = true.
Proof. vm_compute. reflexivity. Qed.

(** The engine's size comes back out of the broker's. *)
Lemma sizes_unscale :
  forallb (fun lots => forallb (fun tenths =>
    match dbl_llround (dbl_div (broker_size lots tenths) (dbl_decimal tenths 1)) with
    | Some z => z =? Z.of_nat lots | None => false end) [10; 5; 2]) (seq 0 101) = true.
Proof. vm_compute. reflexivity. Qed.

Lemma market_sizes m : m ∈ kMarkets -> exists tenths, tenths ∈ [10; 5; 2] /\ sizeModifier m = dbl_decimal tenths 1.
Proof.
  intros [->|[->| ->]]%sizeModifier_cases; [exists 10|exists 5|exists 2]; (split; [set_solver|]); vm_compute; reflexivity.
Qed.

(** The texts and numbers of an order that are not the market's. *)
Definition recordable (intent : OrderIntent) (result : OpenResult) : Prop :=
  forallb plain [oi_strategyUuid intent; oi_strategyName intent; or_dealReference result; or_dealId result] = true /\
  0 <= oi_size intent <= 100 /\ in_i32 (oi_bid intent) /\ in_i32 (oi_ask intent) /\ in_i64 (oi_timestamp intent).

Definition booked_as (intent : OrderIntent) (r : OrderRequest) (m : MarketDefinition) (result : OpenResult) : BookedPosition :=
  mkBooked (or_dealId result) (booked_reference r result) (oi_direction intent) (open_size (open_order r m)) (oi_size intent)
    (match oi_direction intent with LONG => oi_ask intent | SHORT => oi_bid intent end) (oi_timestamp intent).

Lemma booked_reference_plain intent r result :
  makeOrderRequest intent = Some r -> recordable intent result ->
  plain (booked_reference r result) = true /\ booked_reference r result <> "".
Proof.
  unfold makeOrderRequest. destruct (_ =? _); [done|]. intros [= <-] (Hp & _ & _ & _ & Ht). unfold booked_reference. cbn.
  destruct (String.eqb_spec (or_dealReference result) "") as [_|Hne].
  - destruct (deal_reference_fits (oi_strategyUuid intent) (oi_direction intent) _ Ht) as [H1 H2].
    split; [now apply reference_plain|]. intros E. rewrite E in H2. cbn in H2. lia.
  - split; [|done]. cbn [forallb] in Hp. rewrite !andb_true_iff in Hp. tauto.
Qed.

Lemma order_back intent r m result :
  makeOrderRequest intent = Some r -> findMarket (oi_symbol intent) = Some m -> recordable intent result ->
  exists record,
    decodePositionRecord (buildPositionPayload r (open_order r m) (booked_reference r result) (or_dealId result)) = Ok (Some record) /\
    pr_symbol record = oi_symbol intent /\
    toBookedPosition record (findMarket (oi_symbol intent)) = Ok (Some (booked_as intent r m result)).
Proof.
  intros Hr Hm Hrec. destruct (booked_reference_plain _ _ _ Hr Hrec) as [Hbp Hbn].
  destruct Hrec as (Hp & Hsz & Hb & Ha & Ht). destruct (findMarket_in _ _ Hm) as [Hin Hsym].
  pose proof market_texts as Hmt. rewrite forallb_forall in Hmt. specialize (Hmt m ltac:(now apply list_elem_of_In)).
  rewrite Hsym, !andb_true_iff in Hmt. destruct Hmt as [[Hs1 Hs2] Hs3]. apply negb_true_iff, String.eqb_neq in Hs3.
  destruct (market_sizes m Hin) as (tenths & Htin & Hmod).
  set (record := position_of r (open_order r m) (booked_reference r result) (or_dealId result)).
  assert (open_size (open_order r m) = broker_size (Z.to_nat (oi_size intent)) tenths) as Hsize.
  { unfold open_order, broker_size. cbn. rewrite Z2Nat.id by lia. revert Hr. unfold makeOrderRequest. destruct (_ =? _); [done|].
    intros [= <-]. cbn. now rewrite Hmod. }
  exists record. split; [|split].
  - change (buildPositionPayload r (open_order r m) (booked_reference r result) (or_dealId result)) with (encodePositionRecord record).
    apply record_reads; revert Hr; unfold makeOrderRequest; destruct (_ =? _); try done; intros [= <-]; cbn in *; try done.
    all: try apply i32_range.
    + unfold plain_record. cbn. rewrite !andb_true_iff in *. split_and!; try tauto; [now destruct (oi_direction intent)|].
      rewrite Hsize. pose proof broker_sizes_read as H. rewrite forallb_forall in H.
      specialize (H (Z.to_nat (oi_size intent)) ltac:(apply in_seq; lia)). rewrite forallb_forall in H. apply H. now apply list_elem_of_In.
    + now destruct (oi_direction intent).
    + now destruct (oi_direction intent).
  - revert Hr. unfold makeOrderRequest. destruct (_ =? _); [done|]. now intros [= <-].
  - rewrite Hm. unfold toBookedPosition, record, position_of. cbn [pr_direction pr_size]. rewrite Hsize, Hmod.
    pose proof sizes_unscale as H. rewrite forallb_forall in H.
    specialize (H (Z.to_nat (oi_size intent)) ltac:(apply in_seq; lia)). rewrite forallb_forall in H.
    specialize (H tenths ltac:(now apply list_elem_of_In)).
    destruct (dbl_llround _) as [z|]; [|done]. apply Z.eqb_eq in H. rewrite Z2Nat.id in H by lia. subst z.
    unfold booked_as. rewrite Hsize. revert Hr. unfold makeOrderRequest. destruct (_ =? _); [done|]. intros [= <-]. cbn.
    rewrite (i32_id (oi_size intent)) by ilia. now destruct (oi_direction intent).
Qed.

(** C11: the book reads what an order writes. For every order of up to a hundred lots
    on a market of the table, the record stored for the accepted open decodes, and
    the feed books it as the deal that was opened: same identifiers, direction,
    engine size, entry price and time, and the size the broker was sent. *)
Theorem order_reads_back intent r m result :
  makeOrderRequest intent = Some r -> findMarket (oi_symbol intent) = Some m -> recordable intent result ->
  exists record,
    decodePositionRecord (buildPositionPayload r (open_order r m) (booked_reference r result) (or_dealId result)) = Ok (Some record) /\
    pr_symbol record = oi_symbol intent /\
    toBookedPosition record (findMarket (oi_symbol intent)) = Ok (Some (booked_as intent r m result)).
Proof. apply order_back. Qed.

(** * From the order to the book *)

Section Bookkeeping.
Context {server : Type} {R : RedisServer server} {L : RedisLaws server}.
Implicit Types (c : client) (w : world server).

(** The network answers at once, the client does not hold back. *)
Definition prompt c w : Prop := w_net w = [] /\ 0 <= w_clock w /\ failFastUntil c <= w_clock w.

Lemma prompt_next c w s' : prompt c w -> prompt (mkClient 0) (mkWorld s' (w_clock w) []).
Proof. intros (_ & H & _). now split. Qed.

Lemma run_prompt {T} (op : operation T) c w x s' :
  prompt c w -> op (w_clock w) (w_server w) = (Ok x, s') -> run op c w = (inl x, mkClient 0, mkWorld s' (w_clock w) []).
Proof.
  intros (Hn & _ & Hc) Hop. unfold run, breakerOpen. rewrite (proj2 (Z.ltb_ge _ _) Hc). unfold pumpUntil, next_event.
  rewrite Hn. change (Z.of_N 0 + Z.of_N 0) with 0. change (Z.of_N 0) with 0. rewrite !Z.add_0_r. now rewrite Hop.
Qed.

Lemma set_prompt k v expiry c w :
  prompt c w -> valid_expiry expiry ->
  exists s', run (setStringWhen k v Always expiry) c w = (inl true, mkClient 0, mkWorld s' (w_clock w) []) /\
    stored (w_clock w) k (VString v) (expires_at (w_clock w) expiry) (w_server w) s'.
Proof.
  intros Hp Hms. pose proof (setStringWhen_spec (w_clock w) k v Always expiry (w_server w) Hms) as H.
  destruct (setStringWhen _ _ _ _ _ _) as [r s'] eqn:E. destruct H as [-> H]. exists s'. split; [|exact H]. now apply run_prompt.
Qed.

(** Keys outside a family keep what they hold. *)
Definition spares (family : string -> Prop) (now : Z) (s s' : server) : Prop :=
  forall t k, now <= t -> ~ family k -> lookup_at s' t k = lookup_at s t k.

Lemma spares_stored (family : string -> Prop) now k v x (s s' : server) :
  family k -> stored now k v x s s' -> spares family now s s'.
Proof. intros Hk Hs t k' Ht Hn. rewrite (Hs t k' Ht). case_decide; [subst; tauto|done]. Qed.
Lemma spares_trans family now (s1 s2 s3 : server) : spares family now s1 s2 -> spares family now s2 s3 -> spares family now s1 s3.
Proof. intros H1 H2 t k Ht Hn. rewrite H2 by done. now apply H1. Qed.

Lemma mark_prompt groups symbol : forall c w, prompt c w ->
  exists c' s', mark_groups groups symbol kOpenedTtl c w = (c', mkWorld s' (w_clock w) []) /\
    prompt c' (mkWorld s' (w_clock w) []) /\ spares (fun k => exists g, k = clusterLockKey g) (w_clock w) (w_server w) s'.
Proof.
  induction groups as [|g groups IH]; intros c w Hp; cbn [mark_groups].
  { destruct w as [s n net]. destruct Hp as (Hn & Hp). cbn in Hn. subst net. exists c, s. split_and!; [done|done|now intros t k]. }
  destruct (set_prompt (clusterLockKey g) symbol (Some (1000 * kOpenedTtl)) c w Hp ltac:(intros ? [= <-]; unfold kOpenedTtl; lia)) as (s1 & -> & H1).
  destruct (IH _ _ (prompt_next _ _ s1 Hp)) as (c' & s' & E & Hp' & H'). exists c', s'. cbn [w_clock w_server] in *.
  split; [exact E|]. split; [exact Hp'|]. eapply spares_trans; [|exact H']. eapply spares_stored; [|exact H1]. now exists g.
Qed.

Lemma fetch_prompt uuid c w :
  prompt c w -> list_at (w_server w) (w_clock w) uuid <> ListFailed ->
  exists s', fetchList uuid c w = (list_at (w_server w) (w_clock w) uuid, mkClient 0, mkWorld s' (w_clock w) []) /\
    unchanged (w_clock w) (w_server w) s'.
Proof.
  intros Hp Hl. pose proof (getString_spec (w_clock w) (positionListKey uuid) (w_server w)) as H.
  destruct (getString _ _ _) as [r s'] eqn:E. destruct H as [Hu Hr]. unfold list_at in *. unfold fetchList.
  destruct (lookup_at _ _ _) as [[v| |]|]; [|done|done|]; subst r; exists s'; rewrite (run_prompt _ _ _ _ _ Hp E).
  - split; [|exact Hu]. now destruct (decodePositionList v).
  - now split.
Qed.

Lemma plain_list_encodes ids : forallb plain ids = true -> exists text, encodePositionList ids = Ok text.
Proof.
  intros H. destruct (dump_parse_canon (JArray (map JString ids))) as (text & Hd & _); [|now exists text].
  cbn [json_ok]. apply forallb_forall. intros j (d & <- & Hd)%in_map_iff. rewrite forallb_forall in H.
  exact (proj2 (plain_escape _ (H d Hd))).
Qed.

Definition listed (s : server) (t : Z) (uuid : string) : list string :=
  match list_at s t uuid with ListOk ids => ids | _ => [] end.

Lemma add_prompt uuid d c w :
  prompt c w -> list_at (w_server w) (w_clock w) uuid <> ListFailed ->
  forallb plain (listed (w_server w) (w_clock w) uuid ++ [d]) = true -> d ∉ listed (w_server w) (w_clock w) uuid ->
  exists s', addPosition uuid d c w = (Ok true, mkClient 0, mkWorld s' (w_clock w) []) /\
    (forall t, w_clock w <= t -> list_at s' t uuid = ListOk (listed (w_server w) (w_clock w) uuid ++ [d])) /\
    spares (fun k => k = positionListKey uuid) (w_clock w) (w_server w) s'.
Proof.
  intros Hp Hl Hids Hd. destruct (fetch_prompt uuid c w Hp Hl) as (s1 & E1 & Hu).
  destruct (plain_list_encodes _ Hids) as [text He].
  destruct (set_prompt (positionListKey uuid) text None _ _ (prompt_next _ _ s1 Hp) ltac:(done)) as (s2 & E2 & H2).
  cbn [w_clock w_server] in *.
  assert (addPosition uuid d c w = (Ok true, mkClient 0, mkWorld s2 (w_clock w) [])) as E.
  { unfold addPosition. rewrite E1. unfold listed in *.
    destruct (list_at _ _ uuid) as [ids| |]; [|..|done]; (rewrite bool_decide_eq_false_2 by done);
      unfold write_list; cbn [app] in *; rewrite He, E2; done. }
  exists s2. split; [exact E|]. split.
  - eapply stored_list_at; [exact He|exact H2].
  - intros t k Ht Hk. rewrite (H2 t k Ht). rewrite decide_False by done. now apply Hu.
Qed.


Lemma booked_positions_in symbol reference payload record b payloads l :
  (reference, payload) ∈ payloads -> decodePositionRecord payload = Ok (Some record) -> pr_symbol record = symbol ->
  toBookedPosition record (findMarket symbol) = Ok (Some b) -> booked_positions symbol payloads = Ok l -> b ∈ l.
Proof.
  intros Hin Hd Hs Hb. revert l. induction payloads as [|[ref' p'] payloads IH]; intros l; [now apply elem_of_nil in Hin|].
  cbn [booked_positions]. apply elem_of_cons in Hin as [[= <- <-]|Hin].
  - rewrite Hd. cbn [result_bind]. rewrite Hs, String.eqb_refl, Hb. cbn [result_bind].
    destruct (booked_positions symbol payloads) as [l'|]; [|done]. intros [= <-]. now left.
  - destruct (decodePositionRecord p') as [record'|]; [|done]. cbn [result_bind].
    destruct (match record' with Some _ => _ | None => _ end) as [position|]; [|done]. cbn [result_bind].
    destruct (booked_positions symbol payloads) as [l'|]; [|done]. cbn [result_bind]. intros [= <-].
    destruct position; [right|]; now apply IH.
Qed.

Lemma feed_finds uuid symbol d payload record b (t t' : thread server) l ids :
  (forall time, th_clock t <= time -> list_at (th_server t) time uuid = ListOk ids) -> d ∈ ids ->
  (forall time, th_clock t <= time <= th_clock t' -> string_at (th_server t) time (positionKey d) = Some payload) ->
  decodePositionRecord payload = Ok (Some record) -> pr_symbol record = symbol ->
  toBookedPosition record (findMarket symbol) = Ok (Some b) ->
  position_feed uuid symbol t = (Ok (Some l), t') -> b ∈ l.
Proof.
  intros Hl Hin Hp Hd Hs Hb. unfold position_feed, talk.
  destruct (getPositionPayloads uuid _ _) as [[payloads c1] w1] eqn:E. destruct payloads as [payloads|]; [|done].
  destruct (booked_positions symbol payloads) as [l'|] eqn:Ep; [|done]. cbn [result_bind]. intros [= <- <-].
  destruct (getPositionPayloads_spec _ _ _ _ _ _ E) as (t1 & t2 & Ht1 & Ht2 & _ & Hlist).
  unfold th_clock, th_server in *. cbn in Hp. rewrite Hl in Hlist by lia. subst payloads.
  eapply booked_positions_in; [|exact Hd|exact Hs|exact Hb|exact Ep].
  apply list_elem_of_omap. exists d. split; [exact Hin|]. rewrite Hp by lia. done.
Qed.

Context (lockOwner : string).

(** What the bookkeeping of an accepted open leaves on the server. *)
Lemma book_open_stores r order result (t : thread server) :
  let reference := booked_reference r result in
  let uuid := rq_strategyUuid r in
  let ids := listed (th_server t) (th_clock t) uuid in
  prompt (th_clusters t) (redis (th_io t)) -> prompt (th_positions t) (redis (th_io t)) ->
  list_at (th_server t) (th_clock t) uuid <> ListFailed -> forallb plain (ids ++ [reference]) = true -> reference ∉ ids ->
  exists t', book_open (live_hooks lockOwner) r order result t = (Ok true, t') /\ th_clock t' = th_clock t /\
    (forall time, th_clock t <= time -> list_at (th_server t') time uuid = ListOk (ids ++ [reference])) /\
    (forall time, th_clock t <= time < th_clock t + 1000 * kPositionTtl ->
       string_at (th_server t') time (positionKey reference) = Some (buildPositionPayload r order reference (or_dealId result))).
Proof.
  cbv zeta. intros Hpc Hpp Hl Hids Hnew. destruct t as [[w xs ps sent audited] gate counter counts feed locks positions clusters recent broker].
  unfold th_clock, th_server in *. cbn [redis th_io th_clusters th_positions] in *.
  set (payload := buildPositionPayload _ _ _ _). set (reference := booked_reference r result) in *. set (uuid := rq_strategyUuid r) in *.
  destruct (mark_prompt (groupsFor (rq_symbol r)) (rq_symbol r) clusters w Hpc) as (c1 & s1 & E1 & _ & H1).
  assert (prompt positions (mkWorld s1 (w_clock w) [])) as Hp1 by (destruct Hpp as (_ & A & B); now split).
  destruct (set_prompt (positionKey reference) payload (Some kPositionTtl) _ _ Hp1 ltac:(intros ? [= <-]; unfold kPositionTtl; lia)) as (s2 & E2 & H2).
  cbn [w_clock w_server expires_at] in *.
  assert (forall t, w_clock w <= t -> list_at s2 t uuid = list_at (w_server w) t uuid) as Hl2.
  { intros t Ht. unfold list_at. rewrite (H2 t _ Ht), decide_False by discriminate.
    rewrite H1; [done|exact Ht|]. intros [g Hg]. discriminate Hg. }
  assert (listed s2 (w_clock w) uuid = listed (w_server w) (w_clock w) uuid) as Hl2' by (unfold listed; now rewrite Hl2 by lia).
  destruct (add_prompt uuid reference (mkClient 0) (mkWorld s2 (w_clock w) [])) as (s3 & E3 & H3 & H3').
  { exact (prompt_next _ _ s2 Hp1). } { cbn. now rewrite Hl2 by lia. } { cbn. now rewrite Hl2'. } { cbn. now rewrite Hl2'. }
  cbn [w_clock w_server] in *. rewrite Hl2' in H3.
  destruct (set_prompt (dealReceiptKey reference (rq_symbol r)) (buildDealReceipt r reference (or_dealId result))
    (Some (kReceiptTtl * 3600 * 1000)) _ _ (prompt_next _ _ s3 (prompt_next _ _ s2 Hp1)) ltac:(intros ? [= <-]; unfold kReceiptTtl; lia)) as (s4 & E4 & H4).
  cbn [w_clock w_server] in *.
  eexists. split; [|split_and!].
  - unfold book_open, step_bind, live_hooks. cbn [hook_clusterOpened hook_savePosition hook_addPosition hook_saveDealReceipt].
    unfold sure, talk. cbn [th_io redis set_clusters set_positions set_io with_redis th_clusters th_positions].
    unfold markOpened. rewrite E1. cbn [th_io redis set_clusters set_positions set_io with_redis th_clusters th_positions].
    unfold savePosition. fold reference. fold payload. rewrite E2. cbn [th_io redis set_clusters set_positions set_io with_redis th_clusters th_positions].
    fold uuid. rewrite E3. cbn [th_io redis set_clusters set_positions set_io with_redis th_clusters th_positions].
    unfold saveDealReceipt. rewrite E4. cbn [th_io redis set_clusters set_positions set_io with_redis th_clusters th_positions].
    reflexivity.
  - done.
  - cbn. intros time Ht. rewrite <- (H3 time Ht). unfold list_at. rewrite (H4 time _ Ht). now rewrite decide_False by discriminate.
  - cbn. intros time Ht. unfold string_at. rewrite (H4 time _ ltac:(lia)), decide_False by discriminate.
    rewrite H3' by (lia || discriminate). rewrite (H2 time _ ltac:(lia)), decide_True by done.
    now rewrite (proj2 (Z.ltb_lt _ _)) by lia.
Qed.

(** C9: an accepted open enters the book. When the server answers the bookkeeping,
    it succeeds, and every later read of the feed that succeeds within the record's
    five minutes, the two keys left alone by others, lists the deal as it was
    opened: that is what the worker's next sync books. *)
Theorem accepted_open_booked intent r m result (t : thread server) :
  makeOrderRequest intent = Some r -> findMarket (oi_symbol intent) = Some m -> recordable intent result ->
  prompt (th_clusters t) (redis (th_io t)) -> prompt (th_positions t) (redis (th_io t)) ->
  list_at (th_server t) (th_clock t) (oi_strategyUuid intent) <> ListFailed ->
  forallb plain (listed (th_server t) (th_clock t) (oi_strategyUuid intent)) = true ->
  booked_reference r result ∉ listed (th_server t) (th_clock t) (oi_strategyUuid intent) ->
  exists t1, book_open (live_hooks lockOwner) r (open_order r m) result t = (Ok true, t1) /\
    forall t2 l t3,
      th_clock t1 <= th_clock t2 ->
      (forall time k, th_clock t2 <= time -> k = positionListKey (oi_strategyUuid intent) \/ k = positionKey (booked_reference r result) ->
         lookup_at (th_server t2) time k = lookup_at (th_server t1) time k) ->
      position_feed (oi_strategyUuid intent) (oi_symbol intent) t2 = (Ok (Some l), t3) ->
      th_clock t3 < th_clock t1 + 1000 * kPositionTtl ->
      booked_as intent r m result ∈ l.
Proof.
  intros Hr Hm Hrec Hpc Hpp Hl Hids Hnew.
  assert (rq_strategyUuid r = oi_strategyUuid intent) as Hu.
  { revert Hr. unfold makeOrderRequest. destruct (_ =? _); [done|]. now intros [= <-]. }
  destruct (booked_reference_plain _ _ _ Hr Hrec) as [Hbp _].
  destruct (book_open_stores r (open_order r m) result t) as (t1 & E & Hc & Hlist & Hrecord).
  { done. } { done. } { now rewrite Hu. } { rewrite Hu, forallb_app, Hids. cbn. now rewrite Hbp. } { now rewrite Hu. }
  exists t1. split; [exact E|]. intros t2 l t3 H12 Hkeep Hf H3. rewrite Hu in Hlist.
  destruct (order_back intent r m result Hr Hm Hrec) as (record & Hd & Hs & Hb).
  eapply (feed_finds _ _ (booked_reference r result) _ record); [| | |exact Hd|exact Hs|exact Hb|exact Hf].
  - intros time Ht. rewrite <- (Hlist time) by lia. unfold list_at. now rewrite Hkeep by auto.
  - apply elem_of_app. right. now left.
  - intros time Ht. rewrite <- (Hrecord time) by lia. unfold string_at. now rewrite Hkeep by (auto || lia).
Qed.

End Bookkeeping.

(** * An order and its ways *)

Definition demo_thread (answers : list Exchange) : thread store :=
  mkThread (mkIo (mkWorld ∅ 1767225600000000 []) answers [demo_session; demo_session; demo_session] [] [])
    makeTradeLocks makeClient ∅ makeClient makeTradeLocks makeClient makeClient ∅ makeClient.
Definition demo_intent : OrderIntent :=
  mkIntent "FvgStrategy" "s1" "EURUSD" LONG 3 20 30 110000 110002 1767225600000000.
Definition answer (members : list (string * json)) : Exchange :=
  Answered 9 (mkHttp 200 (text_of (dump (json_object members)))).
Definition rejecting : list Exchange :=
  [answer [("dealReference", JString "REF1")]; answer [("dealStatus", JString "REJECTED"); ("reason", JString "FUNDS")]].
Definition no_text (_ : exn) : string := "".

(** The gate lets an order through and the broker rejects it. The sink releases the
    lock: the server no longer holds it and another process could take it. This
    worker's gate keeps its own record of the lock and refuses until that expires. *)
Example rejected_open_still_locked :
  let gate := trade_gate "host" 30 "s1" "LONG" in
  let t1 := (gate (demo_thread rejecting)).2 in
  let t2 := (order_sink "host" "demo" 30 no_text demo_intent t1).2 in
  (gate (demo_thread rejecting)).1 = Ok true /\
  length (sent (th_io t2)) = 2%nat /\
  lookup_at (th_server t2) (th_clock t2) (lockKey "s1" "LONG") = None /\
  (gate t2).1 = Ok false.
Proof. vm_compute. auto. Qed.

Definition gated_thread : thread store := (trade_gate "host" 30 "s1" "LONG" (demo_thread rejecting)).2.
Definition rejected_thread : thread store := (order_sink "host" "demo" 30 no_text demo_intent gated_thread).2.


(** The strategy asks twice; the broker is asked once. *)
Definition demo_close_intent : CloseIntent := mkCloseIntent "FvgStrategy" "s1" "EURUSD" LONG (dbl_of_Z 3) "DI1" "REF1" 1767225600000000.
Definition closing_thread : thread store := demo_thread [answer [("dealReference", JString "REF2")]].
Definition closed_thread : thread store := (close_sink "host" "demo" no_text demo_close_intent closing_thread).2.

Lemma deal_closed_once_witness :
  length (sent (th_io closed_thread)) = 1%nat /\
  close_sink "host" "demo" no_text demo_close_intent closed_thread = (Ok tt, closed_thread).
Proof.
  split; [vm_compute; reflexivity|].
  apply (deal_closed_once "host" "demo" 30 no_text demo_close_intent closing_thread (mkCloseResult CloseOk "") closed_thread).
  - split; [discriminate|exact Logic.I].
  - vm_compute. reflexivity.
  - reflexivity.
  - apply rtc_refl.
  - vm_compute. reflexivity.
  - reflexivity.
Defined.

Definition demo_request : OrderRequest := default (mkOrder "" "" "" "" LONG 0 0 0 0 0 0 0 0 0 0 0) (makeOrderRequest demo_intent).
Definition demo_market : MarketDefinition := default (mkMarket "" "" "" "" "" "" dbl_zero Forex dbl_zero) (findMarket "EURUSD").
Definition demo_accepted : OpenResult := mkOpenResult Accepted "" "DI1" "".

Lemma demo_recordable : recordable demo_intent demo_accepted.
Proof. unfold recordable, demo_intent, demo_accepted. cbn. split; [reflexivity|]. unfold in_i32, in_i64, INT32_MIN, INT32_MAX. cbn. lia. Qed.

Lemma order_reads_back_witness :
  exists record,
    decodePositionRecord (buildPositionPayload demo_request (open_order demo_request demo_market) "s1-L1767225600000" "DI1") = Ok (Some record) /\
    toBookedPosition record (findMarket "EURUSD") = Ok (Some (booked_as demo_intent demo_request demo_market demo_accepted)).
Proof.
  destruct (order_reads_back demo_intent demo_request demo_market demo_accepted) as (record & H1 & _ & H3);
    [vm_compute; reflexivity|vm_compute; reflexivity|exact demo_recordable|].
  exists record. split; [exact H1|exact H3].
Defined.

Lemma accepted_open_booked_witness :
  exists t1, book_open (live_hooks "host") demo_request (open_order demo_request demo_market) demo_accepted (demo_thread []) = (Ok true, t1) /\
    forall l t3, position_feed "s1" "EURUSD" t1 = (Ok (Some l), t3) -> th_clock t3 < th_clock t1 + 1000 * kPositionTtl ->
      booked_as demo_intent demo_request demo_market demo_accepted ∈ l.
Proof.
  destruct (accepted_open_booked "host" demo_intent demo_request demo_market demo_accepted (demo_thread [])) as (t1 & E & H).
  - vm_compute. reflexivity.
  - vm_compute. reflexivity.
  - exact demo_recordable.
  - split; [reflexivity|split; vm_compute; discriminate].
  - split; [reflexivity|split; vm_compute; discriminate].
  - vm_compute. discriminate.
  - vm_compute. reflexivity.
  - vm_compute. intros Hin. inversion Hin.
  - exists t1. split; [exact E|]. intros l t3. apply H; [lia|done].
Defined.
