(* ===== verification/Operations.v ===== *)
(** run/operations.cppm: one backtest from its ticks to its documents - the
    strategy, the bar series and the limits a configuration asks for, the run
    itself, the next window of the ladder, and the outcome documents. *)
From Stdlib Require Import ZArith Lia.
From stdpp Require Import base gmap list strings.
From S2P Require Import Prelude Models Double Config Json JsonDump StdText ConfigJson Env IsoTime Chrono BarStore TradeManager EntryConditions Strategy StrategyFactory Redis RedisStore Base64 Queue RedisLoader RollingWindow Elastic ResultsSummary RunLoop Reports LoadCommand.
From S2P Require Trade SymbolScale RangeBar OhlcBuilder Sweep JsonRoundTrip.
Open Scope Z_scope.

(** [SYMBOLS.substr(0, SYMBOLS.find(','))]. *)
Fixpoint before_comma (s : string) : string :=
  match s with
  | EmptyString => EmptyString
  | String.String c s => if Json.byte_of c =? 44 then EmptyString else String.String c (before_comma s)
  end.

Section Operations.
Context {D : Decimal64} {T : DecimalText D} {C : DecimalDouble D}.
Context {H : HashOrder} {W : OhlcBuilder.World}.
Context {G : Type} (coin : G -> bool * G) (seed : G).

(** * The run *)

Definition riskLimits (config : Configuration D) : RiskLimits D :=
  mkRiskLimits D (STARTING_BALANCE (RUN config)) (MAX_LOSS_PERCENT (RUN config))
    (MAX_OPEN_TRADES (RUN config)) (MAX_TRADES_PER_MINUTE (RUN config)) (PEAK_HOURS_ONLY (RUN config))
    (SymbolScale.get (before_comma (SYMBOLS (RUN config)))) (dec_of_Z 5) 5 (LAST_MONTHS (RUN config)).

(** A feed of zeros registers nothing. *)
Fixpoint register_ohlc (feeds : list OHLCVariables) (store : BarStore) : result BarStore :=
  match feeds with
  | [] => Ok store
  | v :: feeds =>
      store <~ (if (1 <=? OHLC_MINUTES v) && (1 <=? OHLC_COUNT v)
                then registerSeries store (OHLC_MINUTES v) (OHLC_COUNT v) else Ok store) ;
      register_ohlc feeds store
  end.

Fixpoint register_range (feeds : list RangeBarVariables) (store : BarStore) : result BarStore :=
  match feeds with
  | [] => Ok store
  | v :: feeds =>
      store <~ (if (1 <=? RANGE_ATR_TICK_WINDOW v) && (1 <=? RANGE_ATR_PERCENT v) && (1 <=? RANGE_COUNT v)
                then registerRangeSeries store
                       (RangeBar.mkRangeBarSpec (RANGE_ATR_TICK_WINDOW v) (RANGE_ATR_PERCENT v) (RANGE_COUNT v))
                else Ok store) ;
      register_range feeds store
  end.

Definition register_all_series (config : StrategyConfig) : result BarStore :=
  store <~ register_ohlc (OHLC_VARIABLES config) emptyStore ;
  store <~ register_range (RANGE_VARIABLES config) store ;
  registerSeries store (ssMinutes (gateSeriesFor config)) (ssCount (gateSeriesFor config)).

(** Up to [runTicks]: the status, and the book at the end. *)
Definition backtest (ticks : list PriceData) (config : Configuration D) : result (RunStatus * TradeManager) :=
  let strategyConfig := STRATEGY_CONFIG config in
  strategy <~ makeStrategy seed strategyConfig ;
  store <~ register_all_series strategyConfig ;
  '(status, st) <~ runTicks (I := Any_IStrategy coin) (TRADING_VARIABLES strategyConfig) (riskLimits config)
                     (Some (gateSeriesFor strategyConfig))
                     (newTradeManager (ENTRY_SLIPPAGE_TENTH_PIPS (RUN config))) strategy ticks (Some store) ;
  Ok (status, manager st).

(** [ResultsSummary::collect] of a configuration. *)
Definition collect_run (m : TradeManager) (config : Configuration D) : TradingResultsStats D :=
  collect m (STARTING_BALANCE (RUN config)) (LAST_MONTHS (RUN config))
    (SymbolScale.get (before_comma (SYMBOLS (RUN config)))).

(** * The next window *)

Section Effects.
Context {server : Type} {R : RedisServer server} {P : Process}.

(** What the log and the exception document say of an exception. *)
Context (what : exn -> string).

(** The payload, its name, then the advert; [newRunId] is what the generator
    mints, the event lists are what the connection does during the two calls. *)
Definition push_window (config : Configuration D) (next : Window) (newRunId : string)
    (events events' : list request_event) (s : server) : result unit * server :=
  let strategy := STRATEGY_CONFIG config in
  match dump (to_json strategy) with
  | Throw e => (Throw e, s)
  | Ok strategyJson =>
      let '(code, s) :=
        loadKeyedPayloadStream (queue_keys.strategyKey newRunId)
          [[mkKeyed (queue_keys.strategyPayloadKey newRunId (UUID strategy)) strategyJson]]
          queue_keys.PAYLOAD_TTL_SECONDS events s in
      if negb (code =? 0) then (Throw RuntimeError, s)
      else
        match (runJson <~ RunConfiguration_to_json (nextRunConfiguration config next newRunId) ; dump runJson) with
        | Throw e => (Throw e, s)
        | Ok runJson =>
            let '(code, s) := loadPayload (queueKeyFor next) runJson events' s in
            (if negb (code =? 0) then Throw RuntimeError else Ok tt, s)
        end
  end.

(** The publisher's queue and the network behind it. *)
Notation outbox := (batcher * net)%type.

Definition report_exception (message : string) (config : Configuration D) (o : outbox) : outbox :=
  putEngineException
    (mkException (nowIsoUtc (seconds o.2)) "Operations" message (RUN_ID (RUN config))) o.1 o.2.

Definition queueNextWindow (config : Configuration D) (next : Window) (newRunId : string)
    (events events' : list request_event) (s : server) (o : outbox) : server * outbox :=
  match push_window config next newRunId events events' s with
  | (Ok _, s) => (s, o)
  | (Throw e, s) => (s, report_exception ("rolling-window re-queue failed: " +:+ what e) config o)
  end.

(** * The documents *)

(** A statement of the reporting block: it may throw, keeping what was queued. *)
Definition statement : Type := outbox -> result unit * outbox.

Definition skip : statement := fun o => (Ok tt, o).
Definition attempt (f : batcher -> net -> result outbox) : statement := fun o =>
  match f o.1 o.2 with Ok o' => (Ok tt, o') | Throw e => (Throw e, o) end.
Definition and_then (a b : statement) : statement := fun o =>
  match a o with (Ok _, o') => b o' | (Throw e, o') => (Throw e, o') end.

Definition statusLabel (status : RunStatus) : string :=
  match status with
  | LossLimitBreached => "loss_limit_breached"
  | Underperformed => "underperformed"
  | Completed => "completed"
  end.

Definition breachPnlPips (m : TradeManager) (config : Configuration D) : double :=
  let tradingSize := Z.max 1 (TRADING_SIZE (TRADING_VARIABLES (STRATEGY_CONFIG config))) in
  let pnlDivisor := dbl_mul (dbl_of_Z (pointsPerPip (riskLimits config))) (dbl_of_Z tradingSize) in
  if dbl_eqb pnlDivisor dbl_zero then dbl_zero
  else dbl_div (dbl_of_Z (calculatePnl m)) pnlDivisor.

Definition lossFloorPips (config : Configuration D) : double :=
  dec_to_double (dec_div (dec_mul (STARTING_BALANCE (RUN config)) (MAX_LOSS_PERCENT (RUN config))) (dec_of_Z 100)).

(** The block from the terminal record to the detailed document; the run's
    elapsed seconds and the host's name come from outside. *)
Definition put_outcome (durationSeconds : double) (hostname : string) (config : Configuration D)
    (status : RunStatus) (m : TradeManager) : statement :=
  let now o := nowIsoUtc (seconds (snd o)) in
  let runId := RUN_ID (RUN config) in
  and_then
    (fun o => attempt (putTradeFinal
       (mkTradeFinal runId (now o) durationSeconds
          (match status with Completed => 1 | _ => 0 end) (statusLabel status) hostname config)) o)
    (and_then
       (if String.eqb (getOr "ELASTIC_TRADES_ENABLED" "0") "1"
        then attempt (bulkPutTrades (closedTrades m) config hostname) else skip)
       (match status with
        | LossLimitBreached =>
            if REPORT_FAILURES (RUN config) then
              fun o => attempt (putTradingFailure
                (mkTradingFailure runId (now o) durationSeconds
                   "account loss limit reached (open trades liquidated)" (breachPnlPips m config)
                   (lossFloorPips config) hostname config (collect_run m config))) o
            else skip
        | Completed =>
            fun o => attempt (putTradingResults
              (mkTradingResults runId (now o) durationSeconds hostname config (collect_run m config))) o
        | Underperformed => skip
        end)).

(** * [Operations::run] *)

(** The outside of one run. *)
Record Surroundings : Type := mkSurroundings {
  sr_duration : double;
  sr_hostname : string;
  sr_newRunId : string;
  sr_events : list request_event;
  sr_events' : list request_event;
}.

Definition run (x : Surroundings) (ticks : list PriceData) (config : Configuration D) (chainWindows : bool)
    (s : server) (o : outbox) : result RunStatus * server * outbox :=
  match backtest ticks config with
  | Throw e => (Throw e, s, o)
  | Ok (status, m) =>
      let '(s, o) :=
        match status, nextWindow (LAST_MONTHS (RUN config)) (OFFSET_MONTHS (RUN config)) with
        | Completed, Some next =>
            if chainWindows
            then queueNextWindow config next (sr_newRunId x) (sr_events x) (sr_events' x) s o
            else (s, o)
        | _, _ => (s, o)
        end in
      match put_outcome (sr_duration x) (sr_hostname x) config status m o with
      | (Ok _, o) => (Ok status, s, o)
      | (Throw e, o) => (Ok status, s, report_exception (what e) config o)
      end
  end.
End Effects.
End Operations.

(** * The advert of a next window *)

Section Chain.
Context {D : Decimal64} {T : DecimalText D} {server : Type} {R : RedisServer server} {L : RedisLaws server}.

Lemma next_run_ok (config : Configuration D) last offset next newRunId :
  run_ok (RUN config) -> nextWindow last offset = Some next -> text_ok newRunId ->
  run_ok (nextRunConfiguration config next newRunId).
Proof.
  intros (? & ? & ? & ? & ? & ? & ? & ? & ? & ? & ?) Hn Hid.
  unfold nextRunConfiguration, run_ok.
  cbn [RUN_ID SYMBOLS BATCH EXECUTION_TS LAST_MONTHS OFFSET_MONTHS STARTING_BALANCE MAX_LOSS_PERCENT
       MAX_OPEN_TRADES MAX_TRADES_PER_MINUTE ENTRY_SLIPPAGE_TENTH_PIPS].
  apply nextWindow_cases in Hn as [(_ & _ & ->)|[(_ & _ & ->)|(_ & _ & ->)]];
    split_and!; try done; unfold in_i32; cbn; lia.
Qed.

Lemma next_queue_apart last offset next newRunId :
  nextWindow last offset = Some next ->
  queueKeyFor next <> queue_keys.strategyKey newRunId /\
  forall uuid, queueKeyFor next <> queue_keys.strategyPayloadKey newRunId uuid.
Proof.
  intros Hn. apply nextWindow_cases in Hn as [(_ & _ & ->)|[(_ & _ & ->)|(_ & _ & ->)]];
    (split; [|intros uuid]; intros E; discriminate E).
Qed.

(** Whatever a worker reads of an advertised run. *)
Record claimable (config : Configuration D) (next : Window) (newRunId : string) (now deadline : Z)
    (descriptor : string) (s : server) : Prop := {
  claim_descriptor :
    parseRunConfigurationFromBase64 descriptor = Ok (nextRunConfiguration config next newRunId);
  claim_name :
    held now s (queue_keys.strategyKey newRunId)
      [queue_keys.strategyPayloadKey newRunId (UUID (STRATEGY_CONFIG config))];
  claim_payload t : now <= t < deadline ->
    exists payload,
      string_at s t (queue_keys.strategyPayloadKey newRunId (UUID (STRATEGY_CONFIG config))) = Some payload /\
      parseStrategyFromBase64 payload = Ok (STRATEGY_CONFIG config) }.

(** C4: a run that advances is advertised on its rung's queue only once its one
    strategy is claimable: whatever requests of the two pushes are cut, the queue
    holds either what it held or one new descriptor, and beside a new descriptor
    stand the strategy's name and its payload, which reads back as the very
    configuration that was tested, until the payload's lifetime is over. The
    descriptor reads back as the finished run's with a fresh id and the next
    window. The push reports success only when the descriptor is there. *)
Theorem next_window_claimable (config : Configuration D) next newRunId events events' (s : server) old now r s' :
  run_ok (RUN config) -> codec_ok (STRATEGY_CONFIG config) -> text_ok newRunId ->
  nextWindow (LAST_MONTHS (RUN config)) (OFFSET_MONTHS (RUN config)) = Some next ->
  on_time now (events ++ events') ->
  held now s (queue_keys.strategyKey newRunId) [] -> held now s (queueKeyFor next) old ->
  push_window config next newRunId events events' s = (r, s') ->
  let ends := end_time (end_time now events) events' in
  (held ends s' (queueKeyFor next) old /\ r <> Ok tt) \/
  exists descriptor,
    held ends s' (queueKeyFor next) (descriptor :: old) /\
    claimable config next newRunId ends (now + 1000000 * queue_keys.PAYLOAD_TTL_SECONDS) descriptor s'.
Proof.
  intros Hrun Hcodec Hid Hn Ht Hfresh Hq.
  apply on_time_app in Ht as [Ht Ht']. pose proof (end_time_le _ _ Ht) as He. pose proof (end_time_le _ _ Ht') as He'.
  destruct (next_queue_apart _ _ _ newRunId Hn) as [Hqk Hqp].
  unfold push_window.
  destruct (payload_round_trip _ Hcodec) as (strategyJson & Hdump & Hparse). rewrite Hdump.
  set (key := queue_keys.strategyPayloadKey newRunId (UUID (STRATEGY_CONFIG config))) in *.
  set (payload := mkKeyed key strategyJson).
  destruct (loadKeyedPayloadStream _ _ _ events s) as [code s1] eqn:E1.
  unfold loadKeyedPayloadStream in E1.
  assert (0 < 1000 * queue_keys.PAYLOAD_TTL_SECONDS < 2 ^ 63) as Httl by (split; reflexivity).
  destruct (pushKeyedStream _ _ _ _ _ _) as [out s1'] eqn:Es. injection E1 as <- <-.
  assert (queue_keys.strategyKey newRunId <> key) as Hkk
    by (intros Ek; symmetry in Ek; now apply payloadKey_not_list in Ek).
  assert (held (end_time now events) s1' (queueKeyFor next) old) as Hq1.
  { intros t Hte.
    rewrite (stream_frame (queue_keys.strategyKey newRunId) _ Httl _ t (queueKeyFor next) _ _ _ now _ _ Ht Hte Hqk) with
      (2 := Es); [apply Hq; lia|]. cbn [produced map app kp_key]. intros Hin%list_elem_of_singleton.
    now apply (Hqp (UUID (STRATEGY_CONFIG config))). }
  destruct (Z.eqb_spec (stream_code out) 0) as [Hc|Hc]; cbn [negb].
  2:{ intros [= <- <-]. left. split; [|discriminate]. apply (held_later (end_time now events)); [lia|exact Hq1]. }
  assert (exists n, out = Pushed n) as Ho by (destruct out as [n|[]|]; cbn in Hc; eauto; discriminate).
  destruct (stream_published (queue_keys.strategyKey newRunId) [] (1000 * queue_keys.PAYLOAD_TTL_SECONDS)
              (now + 1000000 * queue_keys.PAYLOAD_TTL_SECONDS) Httl [[payload]] 0 events s now [] out s1' Ht)
    as (names & (now' & stored & Hle & [Hlist Hpay] & _ & Hin) & Hall); [lia| | | |exact Es|].
  { cbn. apply NoDup_singleton. }
  { cbn. rewrite list_elem_of_singleton. exact Hkk. }
  { split; [exact Hfresh|]. intros p Hp. now apply not_elem_of_nil in Hp. }
  specialize (Hall Ho). cbn in Hall. subst names. cbn [rev app] in Hlist.
  destruct (RunConfiguration_round_trip (nextRunConfiguration config next newRunId)) as (j & Ej & Hj & Hback);
    [now apply (next_run_ok _ _ _ _ _ Hrun Hn)|].
  rewrite Ej. cbn [result_bind].
  destruct (b64_parse_round_trip RunConfiguration_from_json j _ Hj Hback) as (runJson & Edump & Hread).
  rewrite Edump.
  destruct (loadPayload (queueKeyFor next) runJson events' s1') as [code' s2] eqn:E2.
  destruct (descriptor_pushed [] 0 _ _ _ _ _ _ _ _ Ht' Hq1 E2) as [(pushed & Hheld & Hpushed) Hframe].
  assert (held (end_time (end_time now events) events') s2 (queue_keys.strategyKey newRunId) [key]) as Hname.
  { intros t Hte. rewrite Hframe by (done || congruence). apply Hlist. lia. }
  intros [= <- <-]. destruct pushed.
  - right. exists (b64encode runJson). split; [exact Hheld|]. split.
    + exact Hread.
    + exact Hname.
    + intros t Htt. exists (b64encode strategyJson). split.
      * unfold string_at. rewrite Hframe; [|lia|intros Ek; now apply (Hqp (UUID (STRATEGY_CONFIG config)))].
        apply (Hpay payload); [|lia]. apply Hin; cbn; now constructor.
      * exact Hparse.
  - left. split; [exact Hheld|]. destruct (Z.eqb_spec code' 0) as [Hz|Hz]; cbn [negb]; [|discriminate].
    now specialize (Hpushed Hz).
Qed.
End Chain.

(** * The outcome *)

Section Outcome.
Context {D : Decimal64} {T : DecimalText D} {C : DecimalDouble D}.
Context {H : HashOrder} {W : OhlcBuilder.World}.
Context {G : Type} (coin : G -> bool * G) (seed : G).
Context {server : Type} {R : RedisServer server} {P : Process} (what : exn -> string).

Notation outbox := (batcher * net)%type.

(** Publisher operations other than a flush, in order. *)
Definition op_effect (op : outbox_op) (o : outbox) : outbox :=
  match outbox_step op o.1 o.2 with Ok o' => o' | Throw _ => o end.
Definition ops_effect (ops : list outbox_op) (o : outbox) : outbox := foldl (fun o op => op_effect op o) o ops.

Definition docId (config : Configuration D) : string := outcomeDocId (RUN_ID (RUN config)) config.
Definition weekly (base : string) (config : Configuration D) : string := weeklyIndex base (BATCH (RUN config)).

(** The clock's year has four digits. *)
Definition clock_ok (w : net) : Prop := 0 <= year_of (day_of (seconds w)) <= 9999.

Lemma seconds_op op (o : outbox) : op <> Flush -> seconds (op_effect op o).2 = seconds o.2.
Proof.
  intros Hf. destruct o as [q w]. unfold op_effect, outbox_step. cbn [fst snd].
  assert (forall index body docId q w, seconds (enqueueDocument index body docId q w).2 = seconds w) as He.
  { intros index body id q0 w0. unfold enqueueDocument. destruct (negb enabled); [done|].
    destruct (String.eqb id ""); [|done]. destruct (generateUuid w0) as [i w1] eqn:E.
    unfold generateUuid in E. now injection E as _ <-. }
  destruct op as [index body id|index docs|e|].
  - cbn. apply He.
  - done.
  - unfold putEngineException. cbn. destruct (dump _); [apply He|done].
  - now destruct Hf.
Qed.

(** What a run may report of its outcome, by its status. *)
Inductive detail (config : Configuration D) : RunStatus -> list outbox_op -> Prop :=
| detail_completed body :
    detail config Completed
      [EnqueueOne (weekly (resultsBaseFor (LAST_MONTHS (RUN config)) (OFFSET_MONTHS (RUN config))) config)
         body (docId config)]
| detail_breached body :
    REPORT_FAILURES (RUN config) = true ->
    detail config LossLimitBreached [EnqueueOne (weekly kFailuresBase config) body (docId config)]
| detail_silenced : REPORT_FAILURES (RUN config) = false -> detail config LossLimitBreached []
| detail_underperformed : detail config Underperformed [].

(** The trades' documents, when the process asks for them. *)
Definition trades_reported (config : Configuration D) (hostname : string) (m : TradeManager) (o : outbox)
    (ops : list outbox_op) : Prop :=
  if String.eqb (getOr "ELASTIC_TRADES_ENABLED" "0") "1"
  then exists docs, trade_docs config hostname (nowIsoUtc (seconds o.2)) (closedTrades m) = Ok docs /\
                    ops = [EnqueueMany kTradesIndex docs]
  else ops = [].

Lemma attempt_ok f (o o' : outbox) : f o.1 o.2 = Ok o' -> attempt f o = (Ok tt, o').
Proof. intros E. unfold attempt. now rewrite E. Qed.

Lemma put_outcome_queues dur host config status m trades (o : outbox) :
  run_ok (RUN config) -> codec_ok (STRATEGY_CONFIG config) -> text_ok host -> clock_ok o.2 ->
  size_fits (base.size (activeTrades m) + length (closedTrades m)) ->
  trades_reported config host m o trades ->
  exists body ops,
    put_outcome dur host config status m o =
      (Ok tt, ops_effect (EnqueueOne (weekly kFinalBase config) body (docId config) :: trades ++ ops) o) /\
    detail config status ops.
Proof.
  intros Hr Hc Hh Hk Hf Htr. pose proof Hr as (Hid & _).
  assert (forall w, seconds w = seconds o.2 -> text_ok (nowIsoUtc (seconds w))) as Hnow
    by (intros w ->; now apply nowIsoUtc_text).
  unfold put_outcome. unfold and_then at 1. cbv beta.
  match goal with |- context [putTradeFinal ?f] =>
    destruct (final_serialises f) as [body Eb]; try done; [now apply Hnow|now destruct status|now destruct status|] end.
  set (op := EnqueueOne (weekly kFinalBase config) body (docId config)).
  erewrite (attempt_ok _ o (op_effect op o)).
  2:{ unfold putTradeFinal, put. rewrite Eb. reflexivity. }
  assert (seconds (op_effect op o).2 = seconds o.2) as Hs1 by (apply seconds_op; discriminate).
  set (o1 := op_effect op o) in *.
  assert ((if String.eqb (getOr "ELASTIC_TRADES_ENABLED" "0") "1"
           then attempt (bulkPutTrades (closedTrades m) config host) else skip) o1
          = (Ok tt, ops_effect trades o1)) as Et.
  { unfold trades_reported in Htr. destruct (String.eqb _ "1").
    - destruct Htr as (docs & Ed & ->). apply attempt_ok. unfold bulkPutTrades.
      destruct (closedTrades m) as [|t closed].
      + injection Ed as <-. now destruct o1.
      + rewrite Hs1, Ed. reflexivity.
    - subst trades. reflexivity. }
  unfold and_then at 1. rewrite Et.
  assert (seconds (ops_effect trades o1).2 = seconds o.2) as Hs2.
  { rewrite <- Hs1. unfold trades_reported in Htr. destruct (String.eqb _ "1").
    - destruct Htr as (docs & _ & ->).
      change (seconds (op_effect (EnqueueMany kTradesIndex docs) o1).2 = seconds o1.2). now apply seconds_op.
    - now subst trades. }
  set (o2 := ops_effect trades o1) in *.
  assert (forall ops, ops_effect (op :: trades ++ ops) o = ops_effect ops o2) as Hops.
  { intros ops. unfold ops_effect. cbn [foldl]. now rewrite foldl_app. }
  pose proof (collect_fits m (STARTING_BALANCE (RUN config)) (LAST_MONTHS (RUN config))
                (SymbolScale.get (before_comma (SYMBOLS (RUN config)))) Hf) as Hfit.
  destruct status; cbv beta.
  - match goal with |- context [putTradingResults ?r] =>
      destruct (results_serialise r) as [body2 Eb2]; try done; [now apply Hnow|] end.
    eexists body, [EnqueueOne _ body2 _]. split; [|apply detail_completed].
    rewrite Hops. apply attempt_ok. unfold putTradingResults, put. rewrite Eb2. reflexivity.
  - destruct (REPORT_FAILURES (RUN config)) eqn:Erf.
    + match goal with |- context [putTradingFailure ?r] =>
        destruct (failure_serialises r) as [body2 Eb2]; try done; [now apply Hnow|] end.
      eexists body, [EnqueueOne _ body2 _]. split; [|now apply detail_breached].
      rewrite Hops. apply attempt_ok. unfold putTradingFailure, put. rewrite Eb2. reflexivity.
    + eexists body, []. split; [|now apply detail_silenced]. now rewrite Hops.
  - eexists body, []. split; [|apply detail_underperformed]. now rewrite Hops.
Qed.

(** The gate a completed run has passed. *)
Lemma completed_gate ticks (config : Configuration D) m :
  backtest coin seed ticks config = Ok (Completed, m) ->
  let stats := collect_run m config in
  (5 < winners stats + losers stats)%nat /\
  (dec_ltb (dec_of_Z 0) (dec_of_Z 5) = true -> dec_leb (performanceScore stats) (dec_of_Z 5) = false).
Proof.
  unfold backtest. destruct (makeStrategy seed (STRATEGY_CONFIG config)) as [strategy|]; [|done]. cbn [result_bind].
  destruct (register_all_series (STRATEGY_CONFIG config)) as [store|]; [|done]. cbn [result_bind].
  set (limits := riskLimits config).
  destruct (runTicks _ _ _ _ _ _ _) as [[status st]|] eqn:E; [|done]. cbn [result_bind]. intros [= -> <-].
  unfold runTicks in E. destruct (loop _ _ _ _ _) as [[st'|st']|]; cbn [result_bind] in E; [|discriminate E|discriminate E].
  destruct (lossLimitBreached _ _ _); [discriminate E|].
  match type of E with Ok (performance_gate ?l ?m, _) = _ => set (m' := m) in * end.
  assert (performance_gate limits m' = Completed /\ manager st = m') as [Hg ->] by (now injection E as -> <-).
  clear E. unfold performance_gate in Hg. cbn [minDecisiveTrades minPerformanceScore limits riskLimits] in Hg.
  change (0 <? 5) with true in Hg. rewrite orb_true_r in Hg. cbn [andb] in Hg.
  change (collect m' (startingBalance limits) (lastMonths limits) (pointsPerPip limits)) with (collect_run m' config) in Hg.
  destruct (Z.leb_spec (Z.of_nat (winners (collect_run m' config) + losers (collect_run m' config))) 5) as [|Hd];
    [discriminate Hg|].
  split; [lia|]. intros Hlt. rewrite Hlt in Hg. cbn [andb] in Hg. now destruct (dec_leb _ _).
Qed.

End Outcome.

(** * A concrete run *)

Definition demo_run : RunConfiguration plainDecimal :=
  mkRunConfiguration plainDecimal "r1" "EURUSD,GBPUSD" "2026-28" "2026-07-08T10:00:00.000Z" 3 0
    10000 25 3 60 false false 3.

Definition demo_config : Configuration plainDecimal :=
  mkConfiguration plainDecimal demo_run
    (mkStrategyConfig "7b0c" (mkTradingVariables "RandomStrategy" 2 3 1) [mkOHLCVariables 30 5] []
       noVariables).

Definition plainDouble : DecimalDouble plainDecimal :=
  @Build_DecimalDouble plainDecimal dbl_of_Z (fun _ => 0).

Definition heads_draw (_ : unit) : bool * unit := (true, tt).

Lemma demo_run_ok : run_ok (T := plainText) demo_run.
Proof.
  unfold run_ok. split_and!;
    lazymatch goal with
    | |- text_ok _ => vm_compute; reflexivity
    | |- decimal_ok ?d => exists (to_string d); split_and!; vm_compute; reflexivity
    | |- _ => vm_compute; split; discriminate
    end.
Qed.

Lemma demo_strategy_ok : codec_ok (STRATEGY_CONFIG demo_config).
Proof.
  cbn. unfold text_ok, in_i32. repeat match goal with
  | |- _ /\ _ => split | |- Forall _ _ => constructor | |- utf8_valid _ = true => vm_compute; reflexivity
  | |- True => exact I | |- _ => lia end; cbn; lia.
Qed.

Definition demo_backtest : result (RunStatus * TradeManager) :=
  backtest (C := plainDouble) (H := canonicalOrder) (W := OhlcBuilder.quietWorld) heads_draw tt demo_ticks demo_config.

(** Too few decisive trades for the gate. *)
Example demo_status :
  match demo_backtest with Ok (status, m) => (status, length (closedTrades m)) = (Underperformed, 0%nat) | _ => False end.
Proof. vm_compute. reflexivity. Qed.

Definition demo_surroundings : Surroundings := mkSurroundings dbl_zero "host-1" "r2" [] [].


(** The second push is cut after its command was executed: the advert stands, and
    so does what it promises. *)
Lemma next_window_claimable_witness :
  exists r s',
    push_window (T := plainText) demo_config (mkWindow 3 3) "r2" [Replied 10; Replied 20] [CutAfter 30 1] (∅ : store)
      = (r, s') /\
    ((held 30 s' (queueKeyFor (mkWindow 3 3)) [] /\ r <> Ok tt) \/
     exists descriptor,
       held 30 s' (queueKeyFor (mkWindow 3 3)) [descriptor] /\
       claimable (T := plainText) demo_config (mkWindow 3 3) "r2" 30 (1000000 * queue_keys.PAYLOAD_TTL_SECONDS)
         descriptor s').
Proof.
  destruct (push_window (T := plainText) demo_config (mkWindow 3 3) "r2" [Replied 10; Replied 20] [CutAfter 30 1] (∅ : store))
    as [r s'] eqn:E.
  exists r, s'. split; [reflexivity|].
  apply (next_window_claimable (T := plainText) demo_config (mkWindow 3 3) "r2" [Replied 10; Replied 20]
           [CutAfter 30 1] (∅ : store) [] 0 r s' demo_run_ok demo_strategy_ok).
  - vm_compute. reflexivity.
  - reflexivity.
  - cbn. lia.
  - intros t _. reflexivity.
  - intros t _. reflexivity.
  - exact E.
Defined.
