(* ===== verification/Winners.v ===== *)
(** live/winners/liveWinners.cppm: which past runs the live process trades. *)
From S2P Require Import Prelude Models Double Json JsonDump JsonParse Config ConfigJson IsoTime Env Elastic.
From S2P Require Sweep RollingWindow Fvg.
From Stdlib Require Import SpecFloat Sorting.Sorted.

(** * Candidates *)

Record Winner : Type := mkWinner {
  win_symbol : string;
  win_strategyName : string;
  win_runId : string;
  win_performanceScore : double;
  win_finalPnl : double;
  win_tradesClosed : Z;
  win_openedLong : Z;
  win_openedShort : Z;
  win_maxOpenTrades : Z;
  win_maxTradesPerMinute : Z;
  win_peakHoursOnly : bool;
  win_config : StrategyConfig }.

Definition kMaxHits : Z := 5000.
Definition kOhlcCountDiversityGap : Z := 10.
Definition kBehaviourNeighbourFrac : double := dbl_decimal 2 1.
Definition kMinTradeGap : Z := 3.
Definition kMinPnlGap : double := dbl_of_Z 500.

Definition findHitsArray (response : json) : option (list json) :=
  match json_find "hits" response with
  | Some hits => match json_find "hits" hits with Some (JArray l) => Some l | _ => None end
  | None => None
  end.

(** ** Behaviour *)

Definition sameResults (a b : Winner) : bool :=
  dbl_eqb (win_performanceScore a) (win_performanceScore b) && dbl_eqb (win_finalPnl a) (win_finalPnl b)
  && (win_tradesClosed a =? win_tradesClosed b).

Fixpoint any_differs {A} (differs : A -> A -> bool) (x y : list A) : bool :=
  match x, y with
  | a :: x, b :: y => differs a b || any_differs differs x y
  | _, _ => false
  end.

Definition ohlcDiffers (x y : list OHLCVariables) : bool :=
  negb (length x =? length y)%nat ||
  any_differs (fun a b => negb (OHLC_MINUTES a =? OHLC_MINUTES b) ||
                          (kOhlcCountDiversityGap <? Z.abs (OHLC_COUNT a -₃₂ OHLC_COUNT b))) x y.

Definition rangeDiffers (x y : list RangeBarVariables) : bool :=
  negb (length x =? length y)%nat ||
  any_differs (fun a b => negb (RANGE_ATR_TICK_WINDOW a =? RANGE_ATR_TICK_WINDOW b) ||
                          negb (RANGE_ATR_PERCENT a =? RANGE_ATR_PERCENT b)) x y.

Definition is_nil {A} (l : list A) : bool := match l with [] => true | _ => false end.

Definition legacyConfigDiverse (a b : Winner) : bool :=
  let x := win_config a in
  let y := win_config b in
  ohlcDiffers (OHLC_VARIABLES x) (OHLC_VARIABLES y) || rangeDiffers (RANGE_VARIABLES x) (RANGE_VARIABLES y) ||
  (is_nil (OHLC_VARIABLES x) && is_nil (OHLC_VARIABLES y) && is_nil (RANGE_VARIABLES x) && is_nil (RANGE_VARIABLES y)).

Definition tradesClose (a b : Winner) : bool :=
  let x := win_tradesClosed a in
  let y := win_tradesClosed b in
  let delta := if y <=? x then x -₆₄ y else y -₆₄ x in
  let band := dbl_max (dbl_of_Z kMinTradeGap) (dbl_mul kBehaviourNeighbourFrac (dbl_of_Z (Z.max x y))) in
  dbl_leb (dbl_of_Z delta) band.

Definition pnlClose (a b : Winner) : bool :=
  let band := dbl_max kMinPnlGap
                (dbl_mul kBehaviourNeighbourFrac (dbl_max (dbl_abs (win_finalPnl a)) (dbl_abs (win_finalPnl b)))) in
  dbl_leb (dbl_abs (dbl_sub (win_finalPnl a) (win_finalPnl b))) band.

Definition directionClose (a b : Winner) : bool :=
  if (win_openedLong a <? 0) || (win_openedShort a <? 0) || (win_openedLong b <? 0) || (win_openedShort b <? 0) then true
  else
    let aTotal := win_openedLong a +₆₄ win_openedShort a in
    let bTotal := win_openedLong b +₆₄ win_openedShort b in
    if (aTotal =? 0) || (bTotal =? 0) then true
    else
      let aFrac := dbl_div (dbl_of_Z (win_openedLong a)) (dbl_of_Z aTotal) in
      let bFrac := dbl_div (dbl_of_Z (win_openedLong b)) (dbl_of_Z bTotal) in
      dbl_leb (dbl_abs (dbl_sub aFrac bFrac)) kBehaviourNeighbourFrac.

Definition isDiverse (a b : Winner) : bool :=
  if (win_tradesClosed a <? 0) || (win_tradesClosed b <? 0) then legacyConfigDiverse a b
  else negb (tradesClose a b && pnlClose a b && directionClose a b).

(** ** The groups: sorted by symbol, then strategy, as a map of pairs is *)

Definition group_key : Type := string * string.
Definition key_ltb (a b : group_key) : bool :=
  if String.eqb a.1 b.1 then String.ltb a.2 b.2 else String.ltb a.1 b.1.
Definition key_eqb (a b : group_key) : bool := String.eqb a.1 b.1 && String.eqb a.2 b.2.
Definition GroupMap : Type := list (group_key * list Winner).
Definition key_of (w : Winner) : group_key := (win_symbol w, win_strategyName w).

Fixpoint push_winner (w : Winner) (groups : GroupMap) : GroupMap :=
  match groups with
  | [] => [(key_of w, [w])]
  | (k, ws) :: rest =>
      if key_eqb (key_of w) k then (k, ws ++ [w]) :: rest
      else if key_ltb (key_of w) k then (key_of w, [w]) :: groups
      else (k, ws) :: push_winner w rest
  end.

(** The groups of a list of candidates. *)
Definition grouped (candidates : list Winner) (groups : GroupMap) : GroupMap :=
  foldl (fun g w => push_winner w g) groups candidates.

Section Winners.
Context {D : Decimal64}.

(** A number of the results, or what stands for a document without it. *)
Definition number_or {A} (get : json -> result A) (key : string) (default : A) (results : json) : result A :=
  match json_find key results with Some v => if is_number v then get v else Ok default | None => Ok default end.

(** The candidates of one hit. *)
Definition read_hit (activeStrategies : list string) (hit : json) : result (list Winner) :=
  source <~ json_at "_source" hit ;
  config <~ json_at "config" source ;
  results <~ json_at "results" source ;
  runId <~ json_value get_string "RUN_ID" "" source ;
  score <~ from_strict get_double "performanceScore" results ;
  pnl <~ number_or get_double "finalPnl" dbl_zero results ;
  trades <~ number_or get_int64 "tradesClosed" (-1) results ;
  long <~ number_or get_int64 "openedLong" (-1) results ;
  short <~ number_or get_int64 "openedShort" (-1) results ;
  strategy <~ from_strict StrategyConfig_from_json "STRATEGY" config ;
  maxOpen <~ json_value get_int "MAX_OPEN_TRADES" (MAX_OPEN_TRADES defaultRun) config ;
  rate <~ json_value get_int "MAX_TRADES_PER_MINUTE" (MAX_TRADES_PER_MINUTE defaultRun) config ;
  peak <~ json_value get_bool "PEAK_HOURS_ONLY" (PEAK_HOURS_ONLY defaultRun) config ;
  let name := STRATEGY (TRADING_VARIABLES strategy) in
  if negb (existsb (String.eqb name) activeStrategies) then Ok []
  else
    symbols <~ from_strict get_string "SYMBOLS" config ;
    Ok (map (fun symbol => mkWinner symbol name runId score pnl trades long short maxOpen rate peak strategy)
          (Sweep.splitSymbols symbols)).

(** A hit that throws is skipped; a conversion the language leaves undefined is not
    an exception. *)
Fixpoint collect_hits (activeStrategies : list string) (hits : list json) (groups : GroupMap) : result GroupMap :=
  match hits with
  | [] => Ok groups
  | hit :: hits =>
      match read_hit activeStrategies hit with
      | Ok ws => collect_hits activeStrategies hits (grouped ws groups)
      | Throw UndefinedRead => Throw UndefinedRead
      | Throw _ => collect_hits activeStrategies hits groups
      end
  end.

Definition collectCandidates (searchResponse : json) (activeStrategies : list string) (groups : GroupMap) : result GroupMap :=
  match findHitsArray searchResponse with
  | None => Ok groups
  | Some hits => collect_hits activeStrategies hits groups
  end.

(** ** Picking *)

(** Stable, by score descending. *)
Fixpoint insert_by_score (w : Winner) (l : list Winner) : list Winner :=
  match l with
  | [] => [w]
  | x :: rest => if dbl_ltb (win_performanceScore x) (win_performanceScore w) then w :: l else x :: insert_by_score w rest
  end.
Definition by_score (l : list Winner) : list Winner := foldl (fun acc w => insert_by_score w acc) [] l.

Fixpoint pick (topPerGroup : nat) (picked candidates : list Winner) : list Winner :=
  match candidates with
  | [] => picked
  | c :: rest =>
      if (length picked =? topPerGroup)%nat then picked
      else if existsb (sameResults c) picked || negb (forallb (isDiverse c) picked)
      then pick topPerGroup picked rest
      else pick topPerGroup (picked ++ [c]) rest
  end.

Definition pickWinners (groups : GroupMap) (topPerGroup : nat) : list Winner :=
  flat_map (fun g => pick topPerGroup [] (by_score g.2)) groups.

Definition selectTopWinners (searchResponseBody : string) (activeStrategies : list string) (topPerGroup : nat)
    : result (list Winner) :=
  match parse searchResponseBody with
  | Throw _ => Ok []
  | Ok response =>
      groups <~ collectCandidates response activeStrategies [] ;
      Ok (pickWinners groups topPerGroup)
  end.

(** ** The query *)

Definition range_filter (field op : string) (v : json) : json :=
  JObject [("range", JObject [(field, JObject [(op, v)])])].

Definition buildWinnersQueryBody (minScore maxDrawdownPercent minCalmarScore : double) (strategyName symbol : string)
    : result string :=
  let filters :=
    [range_filter "results.performanceScore" "gt" (JFloat minScore);
     range_filter "results.maxDrawdownPercent" "lte" (JFloat maxDrawdownPercent);
     range_filter "results.calmarScore" "gte" (JFloat minCalmarScore);
     JObject [("term", JObject [("config.LAST_MONTHS", JInteger (RollingWindow.lastMonths RollingWindow.kFullHistory))])];
     JObject [("term", JObject [("config.STRATEGY.TRADING_VARIABLES.STRATEGY.keyword", JString strategyName)])];
     JObject [("match", JObject [("config.SYMBOLS", JString symbol)])]] in
  let excluded :=
    [range_filter "config.OFFSET_MONTHS" "gt" (JInteger (RollingWindow.offsetMonths RollingWindow.kFullHistory))] in
  dump (json_object
          [("query", JObject [("bool", json_object [("filter", JArray filters); ("must_not", JArray excluded)])]);
           ("sort", JArray [JObject [("results.performanceScore", JString "desc")]]);
           ("size", JUnsigned kMaxHits)]).

(** One search per active strategy and symbol; one that fails is skipped. The query
    text throws outside any handler when a name is not UTF-8. *)
Context {P : Process}.

Fixpoint fetch_pairs (pairs : list (string * string)) (minScore maxDrawdownPercent minCalmarScore : double)
    (activeStrategies : list string) (groups : GroupMap) (w : net) : result GroupMap * net :=
  match pairs with
  | [] => (Ok groups, w)
  | (strategyName, symbol) :: pairs =>
      match buildWinnersQueryBody minScore maxDrawdownPercent minCalmarScore strategyName symbol with
      | Throw e => (Throw e, w)
      | Ok query =>
          let '(rc, response, _, w) := searchIndex (currentAlias kWinnersBase) query w in
          let skip := fetch_pairs pairs minScore maxDrawdownPercent minCalmarScore activeStrategies groups w in
          if negb (rc =? 0) then skip
          else
            match parse response with
            | Throw _ => skip
            | Ok parsed =>
                match collectCandidates parsed activeStrategies groups with
                | Throw e => (Throw e, w)
                | Ok groups =>
                    fetch_pairs pairs minScore maxDrawdownPercent minCalmarScore activeStrategies groups w
                end
            end
      end
  end.

Definition fetchWinners (minScore maxDrawdownPercent minCalmarScore : double) (topPerGroup : nat)
    (activeStrategies symbols : list string) (w : net) : result (list Winner) * net :=
  let pairs := flat_map (fun strategyName => map (fun symbol => (strategyName, symbol)) symbols) activeStrategies in
  let '(groups, w) := fetch_pairs pairs minScore maxDrawdownPercent minCalmarScore activeStrategies [] w in
  (groups <~ groups ; Ok (pickWinners groups topPerGroup), w).

End Winners.

(** * Lemmas: scores *)

Definition scored (w : Winner) : Prop := win_performanceScore w <> S754_nan.
Definition outscores (a b : Winner) : Prop := dbl_ltb (win_performanceScore a) (win_performanceScore b) = false.

Lemma dbl_lt_asym a b : dbl_ltb a b = true -> dbl_ltb b a = false.
Proof.
  unfold dbl_ltb, SFltb. destruct a as [[]|[]| |[] m e], b as [[]|[]| |[] m' e']; cbn [SFcompare]; try done;
    destruct (Z.compare_spec e e'), (Z.compare_spec e' e); try done; try lia;
    change (Pos.compare_cont Eq m m') with (Pos.compare m m'); change (Pos.compare_cont Eq m' m) with (Pos.compare m' m);
    destruct (Pos.compare_spec m m'), (Pos.compare_spec m' m); done || lia.
Qed.

Lemma dbl_not_lt_trans a b c :
  b <> S754_nan -> dbl_ltb a b = false -> dbl_ltb b c = false -> dbl_ltb a c = false.
Proof.
  unfold dbl_ltb, SFltb. intros Hb.
  destruct a as [[]|[]| |[] m e], b as [[]|[]| |[] m' e'], c as [[]|[]| |[] m'' e'']; cbn [SFcompare]; try done;
    destruct (Z.compare_spec e e'), (Z.compare_spec e' e''), (Z.compare_spec e e''); try done; try lia;
    change (Pos.compare_cont Eq m m') with (Pos.compare m m'); change (Pos.compare_cont Eq m' m'') with (Pos.compare m' m'');
    change (Pos.compare_cont Eq m m'') with (Pos.compare m m'');
    destruct (Pos.compare_spec m m'), (Pos.compare_spec m' m''), (Pos.compare_spec m m''); done || lia.
Qed.

Lemma outscores_trans a b c : scored b -> outscores a b -> outscores b c -> outscores a c.
Proof. apply dbl_not_lt_trans. Qed.

(** * Lemmas: the sort *)

Lemma insert_by_score_perm w l : insert_by_score w l ≡ₚ w :: l.
Proof.
  induction l as [|x l IH]; [done|]. cbn [insert_by_score]. destruct (dbl_ltb _ _); [done|].
  rewrite IH. apply Permutation_swap.
Qed.

Lemma by_score_perm l : by_score l ≡ₚ l.
Proof.
  unfold by_score. enough (forall acc, foldl (fun acc w => insert_by_score w acc) acc l ≡ₚ l ++ acc) as H.
  { rewrite (H []). now rewrite app_nil_r. }
  induction l as [|w l IH]; intros acc; [done|]. cbn [foldl]. rewrite IH, insert_by_score_perm.
  symmetry. apply Permutation_middle.
Qed.

Lemma insert_by_score_sorted w l :
  Forall scored l -> StronglySorted outscores l -> StronglySorted outscores (insert_by_score w l).
Proof.
  intros Hn. induction 1 as [|x l Hs IH Hx]; cbn [insert_by_score]; [repeat constructor|].
  apply Forall_cons in Hn as [Hxn Hn]. destruct (dbl_ltb _ _) eqn:E.
  - apply dbl_lt_asym in E. constructor; [now constructor|]. constructor; [done|].
    eapply Forall_impl; [exact Hx|]. intros y Hy. now apply (outscores_trans w x y).
  - constructor; [now apply IH|]. rewrite insert_by_score_perm. now constructor.
Qed.

Lemma by_score_sorted l : Forall scored l -> StronglySorted outscores (by_score l).
Proof.
  unfold by_score. enough (forall acc, Forall scored (l ++ acc) -> StronglySorted outscores acc ->
    StronglySorted outscores (foldl (fun acc w => insert_by_score w acc) acc l)) as H.
  { intros. apply H; [now rewrite app_nil_r|constructor]. }
  induction l as [|w l IH]; intros acc Hn Hs; [done|]. cbn [foldl]. apply IH.
  - rewrite insert_by_score_perm, <- Permutation_middle. apply Hn.
  - apply insert_by_score_sorted; [|done]. cbn in Hn. rewrite Forall_cons, Forall_app in Hn. apply Hn.
Qed.

(** * Lemmas: picking *)

(** What one already picked winner asks of a later candidate. *)
Definition distinct_from (p c : Winner) : Prop := sameResults c p = false /\ isDiverse c p = true.

Lemma pick_longer n acc cs : (length acc <= length (pick n acc cs))%nat.
Proof.
  revert acc. induction cs as [|c cs IH]; intros acc; cbn [pick]; [done|].
  destruct (_ =? _)%nat; [done|]. destruct (_ || _); [done|]. specialize (IH (acc ++ [c])).
  rewrite length_app in IH. cbn in IH. lia.
Qed.

Lemma pick_bounded n acc cs : (length acc <= n)%nat -> (length (pick n acc cs) <= n)%nat.
Proof.
  revert acc. induction cs as [|c cs IH]; intros acc H; cbn [pick]; [done|].
  destruct (_ =? _)%nat eqn:E; [done|]. apply Nat.eqb_neq in E. destruct (_ || _); [now apply IH|].
  apply IH. rewrite length_app. cbn. lia.
Qed.

Lemma pick_keeps n acc cs p : p ∈ acc -> p ∈ pick n acc cs.
Proof.
  revert acc. induction cs as [|c cs IH]; intros acc H; cbn [pick]; [done|].
  destruct (_ =? _)%nat; [done|]. destruct (_ || _); [now apply IH|]. apply IH, elem_of_app. now left.
Qed.

Lemma pick_from n acc cs p : p ∈ pick n acc cs -> p ∈ acc \/ p ∈ cs.
Proof.
  revert acc. induction cs as [|c cs IH]; intros acc; cbn [pick]; [auto|].
  destruct (_ =? _)%nat; [auto|]. rewrite elem_of_cons.
  destruct (_ || _); intros [H|H]%IH; auto. apply elem_of_app in H as [H|H%list_elem_of_singleton]; auto.
Qed.

Lemma strongly_sorted_app {A} (R : A -> A -> Prop) l1 l2 :
  StronglySorted R l1 -> StronglySorted R l2 -> Forall (fun x => Forall (R x) l2) l1 -> StronglySorted R (l1 ++ l2).
Proof.
  intros H1 H2. induction H1 as [|x l1 H1 IH Hx]; intros Hc; [done|]. apply Forall_cons in Hc as [Hc Hc'].
  cbn. constructor; [now apply IH|]. now apply Forall_app.
Qed.

(** The winners picked stay in the order of the scores and apart from each other. *)
Lemma pick_ordered n acc cs :
  StronglySorted outscores cs -> Forall (fun p => Forall (outscores p) cs) acc ->
  StronglySorted (fun p c => outscores p c /\ distinct_from p c) acc ->
  StronglySorted (fun p c => outscores p c /\ distinct_from p c) (pick n acc cs).
Proof.
  intros Hs. revert acc. induction Hs as [|c cs Hs IH Hc]; intros acc Ha Hd; cbn [pick]; [done|].
  assert (Forall (fun p => Forall (outscores p) cs) acc) as Ha'.
  { eapply Forall_impl; [exact Ha|]. intros p Hp. now apply Forall_cons in Hp. }
  destruct (_ =? _)%nat; [done|]. destruct (_ || _) eqn:E; [now apply IH|].
  apply orb_false_iff in E as [E1 E2]. apply negb_false_iff in E2. rewrite forallb_forall in E2.
  apply IH; [apply Forall_app; split; [done|now constructor]|]. apply strongly_sorted_app; [done|repeat constructor|].
  apply Forall_forall. intros p Hp. constructor; [|constructor]. split.
  - rewrite Forall_forall in Ha. specialize (Ha p Hp). now apply Forall_cons in Ha.
  - split; [|apply E2; now apply list_elem_of_In]. apply not_true_is_false. intros S.
    eapply not_true_iff_false; [exact E1|]. apply existsb_exists. exists p. split; [now apply list_elem_of_In|done].
Qed.

(** What a candidate left out is left out for. *)
Definition outdone (n : nat) (picked : list Winner) (c : Winner) : Prop :=
  (exists p, p ∈ picked /\ outscores p c /\ ~ distinct_from p c) \/
  (length picked = n /\ Forall (fun p => outscores p c) picked).

Lemma pick_best n acc cs :
  StronglySorted outscores cs -> Forall (fun p => Forall (outscores p) cs) acc ->
  Forall (fun c => c ∈ pick n acc cs \/ outdone n (pick n acc cs) c) cs.
Proof.
  intros Hs. revert acc. induction Hs as [|c cs Hs IH Hc]; intros acc Ha; cbn [pick]; [done|].
  assert (Forall (fun p => Forall (outscores p) cs) acc) as Ha'.
  { eapply Forall_impl; [exact Ha|]. intros p Hp. now apply Forall_cons in Hp. }
  destruct (_ =? _)%nat eqn:E.
  - apply Nat.eqb_eq in E. apply Forall_forall. intros x Hx. right. right. split; [done|].
    eapply Forall_impl; [exact Ha|]. intros p Hp. rewrite Forall_forall in Hp. now apply Hp.
  - destruct (_ || _) eqn:F.
    + constructor; [|now apply IH]. right. left. apply orb_true_iff in F as [F|F].
      * apply existsb_exists in F as (p & Hp%list_elem_of_In & S). exists p.
        split; [now apply pick_keeps|]. rewrite Forall_forall in Ha. specialize (Ha p Hp).
        apply Forall_cons in Ha as [Ha _]. split; [done|]. intros [S' _]. congruence.
      * apply negb_true_iff, not_true_iff_false in F. rewrite forallb_forall in F.
        destruct (decide (Forall (fun p => isDiverse c p = true) acc)) as [G|G].
        { destruct F. intros p Hp%list_elem_of_In. rewrite Forall_forall in G. now apply G. }
        apply not_Forall_Exists in G; [|solve_decision]. apply Exists_exists in G as (p & Hp & G). exists p.
        split; [now apply pick_keeps|]. rewrite Forall_forall in Ha. specialize (Ha p Hp).
        apply Forall_cons in Ha as [Ha _]. split; [done|]. intros [_ S']. now destruct G.
    + assert (Forall (fun p => Forall (outscores p) cs) (acc ++ [c])) as Ha'' by
        (apply Forall_app; split; [done|now constructor]).
      constructor; [|now apply IH]. left. apply pick_keeps, elem_of_app. right. now apply list_elem_of_singleton.
Qed.

(** * Lemmas: the groups *)

Lemma key_eqb_eq a b : key_eqb a b = true <-> a = b.
Proof.
  destruct a, b. unfold key_eqb. cbn. rewrite andb_true_iff, !String.eqb_eq. split; [intros []|intros [=]]; now subst.
Qed.

Lemma key_ltb_irrefl a : key_ltb a a = false.
Proof. unfold key_ltb. rewrite String.eqb_refl. apply string_ltb_irrefl. Qed.

Lemma key_ltb_trans a b c : key_ltb a b = true -> key_ltb b c = true -> key_ltb a c = true.
Proof.
  unfold key_ltb. destruct (String.eqb_spec a.1 b.1) as [E|E], (String.eqb_spec b.1 c.1) as [F|F];
    destruct (String.eqb_spec a.1 c.1) as [G|G]; try congruence; intros H1 H2.
  - now apply (string_ltb_trans _ b.2).
  - exfalso. rewrite G in H1. pose proof (string_ltb_trans _ _ _ H1 H2) as H. now rewrite string_ltb_irrefl in H.
  - now apply (string_ltb_trans _ b.1).
Qed.

Lemma key_ltb_total a b : key_eqb a b = false -> key_ltb a b = false -> key_ltb b a = true.
Proof.
  unfold key_eqb, key_ltb. rewrite (String.eqb_sym b.1). destruct (String.eqb_spec a.1 b.1) as [E|E]; cbn;
    intros H1 H2; destruct (String.ltb _ _) eqn:L in |- *; try done; pose proof (string_ltb_total _ _ H2 L).
  - now apply String.eqb_neq in H1.
  - now destruct E.
Qed.

#[export] Hint Resolve key_ltb_trans : core.

Definition key_lt (a b : group_key) : Prop := key_ltb a b = true.

(** The groups in order, each holding its own winners. *)
Definition groups_ok (groups : GroupMap) : Prop :=
  StronglySorted key_lt (groups.*1) /\ Forall (fun g => Forall (fun w => key_of w = g.1) g.2) groups.

Lemma push_winner_keys w groups k : k ∈ (push_winner w groups).*1 -> k = key_of w \/ k ∈ groups.*1.
Proof.
  induction groups as [|[k' ws] groups IH]; cbn [push_winner fmap list_fmap fst].
  - rewrite elem_of_cons. auto.
  - destruct (key_eqb _ _); [auto|]. destruct (key_ltb _ _); cbn [fmap list_fmap fst]; rewrite !elem_of_cons; [auto|].
    intros [->|H%IH]; tauto.
Qed.

Lemma push_winner_ok w groups : groups_ok groups -> groups_ok (push_winner w groups).
Proof.
  unfold groups_ok. induction groups as [|[k ws] groups IH]; cbn [push_winner fmap list_fmap fst]; intros [Hs Hk].
  { split; repeat constructor. }
  apply StronglySorted_inv in Hs as [Hs Hh]. apply Forall_cons in Hk as [Hw Hk].
  destruct (key_eqb _ _) eqn:E; [|destruct (key_ltb _ _) eqn:L].
  - apply key_eqb_eq in E. split; [now constructor|]. constructor; [|done]. cbn in *.
    apply Forall_app. split; [done|now constructor].
  - split; cbn [fmap list_fmap fst].
    + constructor; [now constructor|]. constructor; [done|]. eapply Forall_impl; [exact Hh|].
      intros k' Hk'. now apply (key_ltb_trans _ k).
    + constructor; [now constructor|now constructor].
  - destruct (IH (conj Hs Hk)) as [Hs' Hk']. split; cbn [fmap list_fmap fst]; [|now constructor].
    constructor; [done|]. apply Forall_forall. intros k' [->|H]%push_winner_keys.
    + now apply key_ltb_total.
    + rewrite Forall_forall in Hh. now apply Hh.
Qed.

Lemma push_winner_perm w groups : flat_map snd (push_winner w groups) ≡ₚ w :: flat_map snd groups.
Proof.
  induction groups as [|[k ws] groups IH]; cbn [push_winner flat_map snd]; [done|].
  destruct (key_eqb _ _); [|destruct (key_ltb _ _)]; cbn [flat_map snd]; [|done|].
  - rewrite <- app_assoc. symmetry. apply Permutation_middle.
  - rewrite IH. symmetry. apply Permutation_middle.
Qed.

Lemma grouped_ok cs groups : groups_ok groups -> groups_ok (grouped cs groups).
Proof. revert groups. induction cs as [|w cs IH]; intros groups H; [done|]. apply IH. now apply push_winner_ok. Qed.

Lemma grouped_perm cs groups : flat_map snd (grouped cs groups) ≡ₚ cs ++ flat_map snd groups.
Proof.
  revert groups. induction cs as [|w cs IH]; intros groups; [done|]. cbn. unfold grouped in IH. rewrite IH.
  rewrite push_winner_perm. symmetry. apply Permutation_middle.
Qed.

(** * The winners traded *)

Definition of_key (k : group_key) (ws : list Winner) : list Winner := filter (fun w => key_of w = k) ws.

(** In the order of the groups, and inside one by score and apart from each other. *)
Definition ranked (a b : Winner) : Prop :=
  key_ltb (key_of b) (key_of a) = false /\ (key_of a = key_of b -> outscores a b /\ distinct_from a b).

Record selection (n : nat) (cs ws : list Winner) : Prop := mkSelection {
  selection_from : ws ⊆ cs;
  selection_ranked : StronglySorted ranked ws;
  selection_bounded : forall k, (length (of_key k ws) <= n)%nat;
  selection_best : Forall (fun c => c ∈ ws \/ outdone n (of_key (key_of c) ws) c) cs }.

Lemma of_key_same k ws : Forall (fun w => key_of w = k) ws -> of_key k ws = ws.
Proof.
  unfold of_key. induction 1 as [|w ws Hw Hs IH]; [done|]. rewrite filter_cons_True by done. now rewrite IH.
Qed.

Lemma of_key_none k ws : Forall (fun w => key_of w <> k) ws -> of_key k ws = [].
Proof.
  unfold of_key. induction 1 as [|w ws Hw Hs IH]; [done|]. now rewrite filter_cons_False.
Qed.

Lemma strongly_sorted_impl_in {A} (R R' : A -> A -> Prop) l :
  (forall x y, x ∈ l -> y ∈ l -> R x y -> R' x y) -> StronglySorted R l -> StronglySorted R' l.
Proof.
  intros H Hs. induction Hs as [|x l Hs IH Hx]; constructor.
  - apply IH. intros. apply H; auto using list_elem_of_further.
  - rewrite Forall_forall in Hx |- *. intros y Hy. apply H; auto using list_elem_of_here, list_elem_of_further.
Qed.

(** One group. *)
Lemma pick_selection n k ws :
  Forall scored ws -> Forall (fun w => key_of w = k) ws -> selection n ws (pick n [] (by_score ws)).
Proof.
  intros Hn Hk. pose proof (by_score_sorted _ Hn) as Hs. pose proof (by_score_perm ws) as Hp.
  assert (forall w, w ∈ pick n [] (by_score ws) -> w ∈ ws) as Hsub.
  { intros w [H|H]%pick_from; [now apply not_elem_of_nil in H|]. now rewrite <- Hp. }
  rewrite Forall_forall in Hk.
  assert (of_key k (pick n [] (by_score ws)) = pick n [] (by_score ws)) as Hof.
  { apply of_key_same, Forall_forall. intros w Hw. apply Hk. now apply Hsub. }
  split; [exact Hsub| | |].
  - eapply strongly_sorted_impl_in; [|apply (pick_ordered n [] _ Hs); constructor].
    intros x y Hx%Hsub%Hk Hy%Hsub%Hk R. split; [|done]. rewrite Hx, Hy. apply key_ltb_irrefl.
  - intros k'. etransitivity; [apply length_filter|]. apply pick_bounded. cbn. lia.
  - pose proof (pick_best n [] _ Hs (Forall_nil_2 _)) as Hb. rewrite Forall_forall in Hb |- *.
    intros c Hc. rewrite (Hk c Hc), Hof. apply Hb. now rewrite Hp.
Qed.

Lemma selection_app n cs cs' ws ws' :
  selection n cs ws -> selection n cs' ws' ->
  (forall c c', c ∈ cs -> c' ∈ cs' -> key_lt (key_of c) (key_of c')) -> selection n (cs ++ cs') (ws ++ ws').
Proof.
  intros [F R B C] [F' R' B' C'] Hlt.
  assert (forall c c', c ∈ cs -> c' ∈ cs' -> key_of c <> key_of c') as Hne.
  { intros c c' Hc Hc' E. specialize (Hlt _ _ Hc Hc'). unfold key_lt in Hlt. rewrite E, key_ltb_irrefl in Hlt. done. }
  assert (forall c, c ∈ cs -> of_key (key_of c) (ws ++ ws') = of_key (key_of c) ws) as Hl.
  { intros c Hc. unfold of_key at 1. rewrite filter_app. fold (of_key (key_of c) ws'). rewrite of_key_none; [apply app_nil_r|].
    apply Forall_forall. intros w Hw E. now apply (Hne c w Hc (F' _ Hw)). }
  assert (forall c, c ∈ cs' -> of_key (key_of c) (ws ++ ws') = of_key (key_of c) ws') as Hr.
  { intros c Hc. unfold of_key at 1. rewrite filter_app. fold (of_key (key_of c) ws). rewrite of_key_none; [done|].
    apply Forall_forall. intros w Hw. now apply (Hne w c (F _ Hw)). }
  split.
  - intros w. rewrite !elem_of_app. intros [H|H]; [left; now apply F|right; now apply F'].
  - apply strongly_sorted_app; [done|done|]. apply Forall_forall. intros x Hx. apply Forall_forall. intros y Hy.
    specialize (Hlt x y (F _ Hx) (F' _ Hy)). unfold key_lt in Hlt. split.
    + apply not_true_is_false. intros G. pose proof (key_ltb_trans _ _ _ Hlt G) as K. now rewrite key_ltb_irrefl in K.
    + intros E. exfalso. now apply (Hne x y (F _ Hx) (F' _ Hy)).
  - intros k. destruct (decide (Exists (fun w => key_of w = k) ws)) as [(w & Hw & <-)%Exists_exists|N].
    + rewrite Hl by now apply F. apply B.
    + unfold of_key. rewrite filter_app. fold (of_key k ws) (of_key k ws'). rewrite of_key_none; [apply B'|].
      apply Forall_forall. intros w Hw E. apply N, Exists_exists. eauto.
  - rewrite Forall_forall in C, C'. apply Forall_app. split; apply Forall_forall; intros c Hc; rewrite elem_of_app.
    + rewrite Hl by done. destruct (C c Hc); auto.
    + rewrite Hr by done. destruct (C' c Hc); auto.
Qed.

Lemma groups_member groups c : groups_ok groups -> c ∈ flat_map snd groups -> key_of c ∈ groups.*1.
Proof.
  intros [_ Hk] (g & Hg & Hc)%list_elem_of_In%in_flat_map. apply list_elem_of_In in Hg, Hc.
  rewrite Forall_forall in Hk. specialize (Hk g Hg). rewrite Forall_forall in Hk. rewrite (Hk c Hc).
  now apply list_elem_of_fmap_2.
Qed.

Lemma pickWinners_selection n groups :
  groups_ok groups -> Forall scored (flat_map snd groups) -> selection n (flat_map snd groups) (pickWinners groups n).
Proof.
  induction groups as [|[k ws] groups IH]; intros [Hs Hk] Hn.
  { split; cbn; [done|constructor|intros; cbn; lia|constructor]. }
  cbn [fmap list_fmap fst] in Hs. apply StronglySorted_inv in Hs as [Hs Hh]. apply Forall_cons in Hk as [Hw Hk].
  cbn [flat_map snd] in Hn |- *. apply Forall_app in Hn as [Hn Hn']. cbn [fst snd] in Hw.
  unfold pickWinners. cbn [flat_map snd]. apply selection_app.
  - now apply (pick_selection n k).
  - now apply IH.
  - intros c c' Hc Hc'. rewrite Forall_forall in Hw. rewrite Forall_forall in Hh. rewrite (Hw c Hc). apply Hh.
    now apply groups_member.
Qed.

Lemma grouped_selection n cs : Forall scored cs -> selection n cs (pickWinners (grouped cs []) n).
Proof.
  intros Hn. assert (flat_map snd (grouped cs []) ≡ₚ cs) as P.
  { rewrite grouped_perm. cbn. now rewrite app_nil_r. }
  destruct (pickWinners_selection n (grouped cs [])) as [F R B C].
  - apply grouped_ok. split; constructor.
  - now rewrite P.
  - split; [|done|done|now rewrite <- P]. intros w Hw. rewrite <- P. now apply F.
Qed.

(** ** The candidates of a response *)

Section Response.
Context {D : Decimal64}.

(** What the hits offer, in their order: the reference the groups are checked against. *)
Fixpoint offered (activeStrategies : list string) (hits : list json) : result (list Winner) :=
  match hits with
  | [] => Ok []
  | hit :: hits =>
      match read_hit activeStrategies hit with
      | Ok ws => rest <~ offered activeStrategies hits ; Ok (ws ++ rest)
      | Throw UndefinedRead => Throw UndefinedRead
      | Throw _ => offered activeStrategies hits
      end
  end.

Lemma collect_hits_offered active hits groups :
  collect_hits active hits groups = (cs <~ offered active hits ; Ok (grouped cs groups)).
Proof.
  revert groups. induction hits as [|hit hits IH]; intros groups; cbn [collect_hits offered]; [done|].
  destruct (read_hit active hit) as [ws|[]]; rewrite ?IH; try done.
  destruct (offered active hits); cbn [result_bind]; [|done]. unfold grouped. now rewrite foldl_app.
Qed.

Lemma result_bind_ok {A B} (m : result A) (k : A -> result B) b :
  result_bind m k = Ok b -> exists a, m = Ok a /\ k a = Ok b.
Proof. destruct m; [eauto|done]. Qed.

Lemma read_hit_active active hit ws :
  read_hit active hit = Ok ws -> Forall (fun w => win_strategyName w ∈ active) ws.
Proof.
  unfold read_hit. intros H. do 13 (let a := fresh "a" in apply result_bind_ok in H as (a & _ & H)).
  destruct (existsb _ _) eqn:A; cbn [negb] in H; [|injection H as <-; constructor].
  apply result_bind_ok in H as (symbols & _ & H). injection H as <-. apply Forall_forall. intros w (s & -> & _)%list_elem_of_fmap. cbn.
  apply existsb_exists in A as (x & Hx%list_elem_of_In & E). apply String.eqb_eq in E. now rewrite E.
Qed.
Lemma offered_active active hits cs :
  offered active hits = Ok cs -> Forall (fun w => win_strategyName w ∈ active) cs.
Proof.
  revert cs. induction hits as [|hit hits IH]; intros cs; cbn [offered]; [now intros [= <-]|].
  destruct (read_hit active hit) as [ws|[]] eqn:E; try done; try apply IH.
  intros (rest & Hr & [= <-])%result_bind_ok. apply Forall_app. split; [now apply (read_hit_active active hit)|now apply IH].
Qed.

(** A response selected from is a selection of what it offers. *)
Lemma selectTopWinners_selection body active n response hits cs :
  parse body = Ok response -> findHitsArray response = Some hits -> offered active hits = Ok cs -> Forall scored cs ->
  exists ws, selectTopWinners body active n = Ok ws /\ selection n cs ws /\
    Forall (fun w => win_strategyName w ∈ active) ws.
Proof.
  intros Hp Hh Ho Hn. unfold selectTopWinners, collectCandidates. rewrite Hp, Hh, collect_hits_offered, Ho.
  cbn [result_bind]. pose proof (grouped_selection n cs Hn) as Hs. eexists. split; [done|]. split; [done|].
  apply Forall_forall. intros w Hw. pose proof (offered_active _ _ _ Ho) as Ha. rewrite Forall_forall in Ha.
  apply Ha. now apply (selection_from _ _ _ Hs).
Qed.

End Response.

(** C14: the runs traded are a selection of the candidates: grouped by symbol and
    strategy in that order, no more of a group than asked for, each group in the
    order of the scores and no run a clone or a neighbour of one before it; and a
    candidate left out is outdone, by a run at least as good that is too much like
    it, or because the group is full of runs at least as good. *)
Theorem winners_best n cs :
  Forall scored cs -> selection n cs (pickWinners (grouped cs []) n).
Proof. apply grouped_selection. Qed.

Definition some_winner (symbol : string) (score pnl : Z) : Winner :=
  mkWinner symbol "FvgStrategy" "run" (dbl_of_Z score) (dbl_of_Z pnl) 40 20 20 1 60 false Fvg.fvg_config.

(** Three runs of one group, two of them the same behaviour, and one of another. *)
Theorem winners_best_witness :
  let cs := [some_winner "EURUSD" 60 1200; some_winner "EURUSD" 70 1250; some_winner "AUDUSD" 10 100; some_winner "EURUSD" 50 4000] in
  map win_performanceScore (pickWinners (grouped cs []) 2) = map dbl_of_Z [10; 70; 50] /\
  selection 2 cs (pickWinners (grouped cs []) 2).
Proof. split; [vm_compute; reflexivity|]. apply (winners_best 2). repeat constructor; vm_compute; discriminate. Defined.
