(* ===== verification/PositionSync.v ===== *)
(** positions/positionSync.cppm: one cycle of the process that mirrors the broker's
    book into Redis. *)
From S2P Require Import Prelude Double Json JsonDump JsonParse StdText Chrono IsoTime Redis Positions PositionText.
From S2P Require Import IgRest IgRequests Effects RedisStore Clusters.
From S2P Require SymbolScale Markets.

(** * The broker's book *)

Record IgPosition : Type := mkIgPosition {
  ip_epic : string;
  ip_dealReference : string;
  ip_dealId : string;
  ip_direction : string;
  ip_createdDate : string;
  ip_dealSize : double;
  ip_openLevel : double;
  ip_stopLevel : double;
  ip_limitLevel : double }.

(** A nested object, or one without members. *)
Definition sub_object (key : string) (entry : json) : json :=
  match json_find key entry with Some (JObject m) => JObject m | _ => JObject [] end.

Definition decode_entry (entry : json) : result IgPosition :=
  let market := sub_object "market" entry in
  let detail := sub_object "position" entry in
  dealSize <~ readNumber get_double (dbl_of_Z 0) "dealSize" detail ;
  openLevel <~ readNumber get_double (dbl_of_Z 0) "openLevel" detail ;
  stopLevel <~ readNumber get_double (dbl_of_Z 0) "stopLevel" detail ;
  limitLevel <~ readNumber get_double (dbl_of_Z 0) "limitLevel" detail ;
  Ok (mkIgPosition (readString "epic" market) (readString "dealReference" detail) (readString "dealId" detail)
        (readString "direction" detail) (readString "createdDate" detail) dealSize openLevel stopLevel limitLevel).

Fixpoint decode_entries (entries : list json) : result (option (list IgPosition)) :=
  match entries with
  | [] => Ok (Some [])
  | entry :: entries =>
      if negb (is_object entry) then Ok None
      else
        position <~ decode_entry entry ;
        rest <~ decode_entries entries ;
        Ok (option_map (cons position) rest)
  end.

Definition decodeAccountPositions (text : string) : result (option (list IgPosition)) :=
  match parse text with
  | Throw _ => Ok None
  | Ok parsed =>
      if negb (is_object parsed) then Ok None
      else match json_find "positions" parsed with
           | None | Some JNull => Ok (Some [])
           | Some (JArray entries) => decode_entries entries
           | Some _ => Ok None
           end
  end.

(** * Instants *)

(** [readInt]: [len] characters at [pos], all of them the number. *)
Definition readInt (text : list Ascii.ascii) (pos len : nat) : option Z :=
  match from_chars (take len (drop pos text)) with Some (v, []) => Some v | _ => None end.

Definition char_is (code : Z) (pos : nat) (text : list Ascii.ascii) : bool :=
  match text !! pos with Some c => byte_of c =? code | None => false end.

(** [std::chrono::month] and [day] keep eight bits; the year sixteen. *)
Definition ymd_ok (y m d : Z) : bool :=
  (1 <=? m) && (m <=? 12) && (1 <=? d) && (days_from_civil y m d <=? last_day_of_month y m).

Definition micros_of (y m d h mi s ms : Z) : Z :=
  ((((days_from_civil y m d * 24 + h) * 60 + mi) * 60 + s) * 1000 + ms) * 1000.

Definition parseCreatedDateMicros (createdDate : string) (fallbackMicros : Z) : Z :=
  let l := chars createdDate in
  if negb (length l =? 23)%nat || negb (char_is 47 4 l) || negb (char_is 47 7 l) || negb (char_is 32 10 l)
     || negb (char_is 58 13 l) || negb (char_is 58 16 l) || negb (char_is 58 19 l)
  then fallbackMicros
  else
    match readInt l 0 4, readInt l 5 2, readInt l 8 2, readInt l 11 2, readInt l 14 2, readInt l 17 2, readInt l 20 3 with
    | Some year, Some month, Some day, Some hour, Some minute, Some second, Some millis =>
        let month := month mod 256 in
        let day := day mod 256 in
        if negb (ymd_ok year month day) || (23 <? hour) || (59 <? minute) || (59 <? second) then fallbackMicros
        else micros_of year month day hour minute second millis
    | _, _, _, _, _, _, _ => fallbackMicros
    end.

(** Milliseconds, from an instant in seconds. *)
Definition updateTtl (nowUtc : Z) : Z :=
  let day := nowUtc / 86400 in
  let timeOfDay := nowUtc mod 86400 in
  if (weekday day =? Friday) && (timeOfDay / 3600 =? 21) && (55 <=? timeOfDay mod 3600 / 60)
  then (2 * 24 + 2) * 3600 * 1000 else 10 * 60 * 1000.

Definition kFreshPositionTtl : Z := 30 * 60 * 1000.

(** * Records *)

(** A level [llround] cannot represent is unspecified. *)
Definition scalePrice (priceScale : Z) (level : double) : result Z :=
  if priceScale <=? 0 then Ok 0
  else match dbl_llround (dbl_mul level (dbl_of_Z priceScale)) with
       | Some points => Ok (i32 points)
       | None => Throw UndefinedRead
       end.

Definition makeFreshRecord (position : IgPosition) (symbol strategyId strategyName : string) (priceScale nowMicros : Z)
    : result PositionRecord :=
  level <~ scalePrice priceScale (ip_openLevel position) ;
  stopLevel <~ scalePrice priceScale (ip_stopLevel position) ;
  limitLevel <~ scalePrice priceScale (ip_limitLevel position) ;
  Ok (mkPosition (ip_dealId position) (ip_dealReference position) symbol (ip_epic position) (ip_direction position)
        (ip_dealSize position) level stopLevel limitLevel strategyId strategyName
        (parseCreatedDateMicros (ip_createdDate position) nowMicros)).

Definition applyBrokerUpdate (record : PositionRecord) (position : IgPosition) (strategyId : string) : PositionRecord :=
  mkPosition (if String.eqb (ip_dealId position) "" then pr_dealId record else ip_dealId position)
    (pr_dealReference record) (pr_symbol record) (pr_epic record) (pr_direction record) (pr_size record)
    (pr_level record) (pr_stopLevel record) (pr_limitLevel record)
    (if String.eqb (pr_strategyId record) "" || String.eqb (pr_strategyId record) "Unknown" then strategyId
     else pr_strategyId record)
    (pr_strategyName record) (pr_openedAtMicros record).

(** * The cycle *)

Section Sync.
Context {server : Type} {R : RedisServer server}.
Context (processNonce : string).

Record cycle : Type := mkCycle {
  cy_store : client;
  cy_clusters : client;
  cy_io : io server;
  cy_members : list ClusterMember;
  cy_matched : N;
  cy_fresh : N;
  cy_updated : N;
  cy_skippedUnknown : N }.

Definition set_net (x : io server) (s : cycle) : cycle :=
  mkCycle (cy_store s) (cy_clusters s) x (cy_members s) (cy_matched s) (cy_fresh s) (cy_updated s) (cy_skippedUnknown s).

Definition on_store {A} (m : method (server := server) A) : effect cycle A := fun s =>
  let '(a, c, w) := m (cy_store s) (redis (cy_io s)) in
  (Ok a, mkCycle c (cy_clusters s) (with_redis w (cy_io s)) (cy_members s) (cy_matched s) (cy_fresh s) (cy_updated s)
           (cy_skippedUnknown s)).
(** A call that may throw after its writes. *)
Definition on_store_result {A} (m : method (server := server) (result A)) : effect cycle A :=
  r <-- on_store m ;; lift r.
Definition clustered {A} (m : method (server := server) A) : effect cycle A := fun s =>
  let '(a, c, w) := m (cy_clusters s) (redis (cy_io s)) in
  (Ok a, mkCycle (cy_store s) c (with_redis w (cy_io s)) (cy_members s) (cy_matched s) (cy_fresh s) (cy_updated s)
           (cy_skippedUnknown s)).
Definition nowMicros : effect cycle Z := fun s => (Ok (w_clock (redis (cy_io s))), s).

Definition collect_member (mb : ClusterMember) : effect cycle unit := fun s =>
  (Ok tt, mkCycle (cy_store s) (cy_clusters s) (cy_io s) (cy_members s ++ [mb]) (cy_matched s) (cy_fresh s) (cy_updated s)
            (cy_skippedUnknown s)).
Definition count_deal (matched fresh updated skipped : N) : effect cycle unit := fun s =>
  (Ok tt, mkCycle (cy_store s) (cy_clusters s) (cy_io s) (cy_members s) (cy_matched s + matched) (cy_fresh s + fresh)
            (cy_updated s + updated) (cy_skippedUnknown s + skipped)).
Definition reset_cycle : effect cycle unit := fun s => (Ok tt, mkCycle (cy_store s) (cy_clusters s) (cy_io s) [] 0 0 0 0).

Definition report_json (function action status details : string) (seconds : Z) : json :=
  json_object
    [("function", JString function); ("action", JString action); ("status", JString status);
     ("details", JString details); ("date", JString (nowIsoUtc seconds))].

(** The document is queued for the publisher, in the order of the calls. *)
Definition reportFunction (function action status : string) (details : result string) : effect cycle unit :=
  details <-- lift details ;;
  now <-- nowMicros ;;
  body <-- lift (dump (report_json function action status details (now / 1000000))) ;;
  (fun s =>
     let x := cy_io s in
     (Ok tt, set_net (mkIo (redis x) (exchanges x) (pulls x) (sent x) (audited x ++ [body])) s)).

(** Whom the receipt of the deal names. *)
Definition attribution (receipt : option string) : string * string :=
  let known s := if String.eqb s "" then "Unknown" else s in
  match receipt with
  | None => ("Unknown", "Unknown")
  | Some text =>
      match decodeDealReceipt text with
      | Some r => (known (dr_strategyId r), known (dr_strategyName r))
      | None => ("Unknown", "Unknown")
      end
  end.

Definition update_record (position : IgPosition) (strategyId : string) (record : PositionRecord) : effect cycle unit :=
  let record := applyBrokerUpdate record position strategyId in
  now <-- nowMicros ;;
  _ <-- on_store (savePosition (ip_dealReference position) (encodePositionRecord record) (updateTtl (now / 1000000))) ;;
  _ <-- on_store_result (addPosition (pr_strategyId record) (pr_dealReference record)) ;;
  count_deal 0 0 1 0.

Definition save_fresh (position : IgPosition) (symbol strategyId strategyName : string) : effect cycle unit :=
  now <-- nowMicros ;;
  record <-- lift (makeFreshRecord position symbol strategyId strategyName (SymbolScale.getPriceScale symbol) now) ;;
  let payload := encodePositionRecord record in
  _ <-- on_store (savePosition (ip_dealReference position) payload kFreshPositionTtl) ;;
  _ <-- on_store_result (addPosition (pr_strategyId record) (pr_dealReference record)) ;;
  _ <-- reportFunction "PositionRequest" "Position Update" "New" (Ok payload) ;;
  count_deal 0 1 0 0.

Definition applyPosition (position : IgPosition) : effect cycle unit :=
  match Markets.findMarketByEpicMini (ip_epic position) with
  | None => step_ret tt
  | Some market =>
      if String.eqb (ip_dealReference position) "" then step_ret tt
      else
        let symbol := Markets.market_symbol market in
        _ <-- count_deal 1 0 0 0 ;;
        receipt <-- on_store (getDealReceipt (ip_dealReference position) symbol) ;;
        let '(strategyId, strategyName) := attribution receipt in
        _ <-- collect_member (mkMember symbol strategyName (ip_dealReference position)) ;;
        payload <-- on_store (getPositionPayload (ip_dealReference position)) ;;
        match payload with
        | None => count_deal 0 0 0 1
        | Some payload =>
            record <-- lift (match payload with Some p => decodePositionRecord p | None => Ok None end) ;;
            match record with
            | Some record => update_record position strategyId record
            | None => save_fresh position symbol strategyId strategyName
            end
        end
  end.

Fixpoint apply_book (book : list IgPosition) : effect cycle unit :=
  match book with [] => step_ret tt | p :: book => _ <-- applyPosition p ;; apply_book book end.

Fixpoint refresh_lists (ids : list string) (refreshed : N) : effect cycle N :=
  match ids with
  | [] => step_ret refreshed
  | id :: ids =>
      ok <-- on_store_result (refreshPositionList id) ;;
      refresh_lists ids (if (ok : bool) then refreshed + 1 else refreshed)%N
  end.

Definition session : effect cycle (option Auth) := fun s =>
  let '(auth, x) := pullAuthWithRetry (cy_io s) in (Ok auth, set_net x s).
Definition fetch (auth : Auth) : effect cycle (option HttpResponse) := fun s =>
  let '(response, x) := execute auth "/positions" "GET" "" [] 2 (cy_io s) in (Ok response, set_net x s).

(** The lifetime of a cluster's set, in milliseconds. *)
Definition kClusterTtl : Z := 5 * 60 * 1000.

Definition mirror_book (book : list IgPosition) (response : string) : effect cycle unit :=
  _ <-- apply_book book ;;
  members <-- (fun s => (Ok (cy_members s), s)) ;;
  _ <-- clustered (syncAllClusters processNonce members kClusterTtl) ;;
  _ <-- reportFunction "IG-Account" "PositionRequest" "Success" (Ok response) ;;
  strategyIds <-- on_store_result listStrategyIds ;;
  match strategyIds with
  | Some ids => _ <-- refresh_lists ids 0 ;; step_ret tt
  | None => step_ret tt
  end.

Definition failed_request (members : list (string * json)) : effect cycle unit :=
  reportFunction "IG-Account" "PositionRequest" "FAILED-REQUEST" (dump (json_object members)).

Definition syncOnce : effect cycle unit :=
  _ <-- reset_cycle ;;
  auth <-- session ;;
  match auth with
  | None => failed_request [("responseWasNull", JBoolean true); ("reason", JString "no IG session credentials")]
  | Some auth =>
      response <-- fetch auth ;;
      match response with
      | None =>
          failed_request [("statusCode", JInteger 500); ("responseWasNull", JBoolean true);
                          ("content", JString "No response content")]
      | Some r =>
          if negb (status r =? 200) then
            failed_request [("statusCode", JInteger (status r)); ("responseWasNull", JBoolean false);
                            ("content", JString (http_body r))]
          else
            book <-- lift (decodeAccountPositions (http_body r)) ;;
            match book with
            | None =>
                reportFunction "IG-Account" "PositionRequest" "FAILED-DESERIALIZE"
                  (dump (json_object [("statusCode", JInteger (status r)); ("content", JString (http_body r))]))
            | Some book => mirror_book book (http_body r)
            end
      end
  end.

(** * Lemmas: what a step leaves alone *)

Definition cycle_tally (s : cycle) : list ClusterMember * N * N * N * N :=
  (cy_members s, cy_matched s, cy_fresh s, cy_updated s, cy_skippedUnknown s).
Definition same_tally : relation cycle := fun s s' => cycle_tally s' = cycle_tally s.

#[local] Instance same_tally_preorder : PreOrder same_tally.
Proof. split; [now intros s|]. intros s1 s2 s3. unfold same_tally. congruence. Qed.

Lemma on_store_tally {A} (m : method (server := server) A) : keeps same_tally (on_store m).
Proof. intros s. unfold on_store. now destruct (m _ _) as [[a c] w]. Qed.
Lemma nowMicros_tally : keeps same_tally nowMicros.
Proof. now intros s. Qed.
Lemma on_store_result_tally {A} (m : method (server := server) (result A)) : keeps same_tally (on_store_result m).
Proof. apply keeps_bind; [exact _|apply on_store_tally|]. intros r. apply keeps_lift. exact _. Qed.
Lemma report_tally function action status details : keeps same_tally (reportFunction function action status details).
Proof.
  unfold reportFunction. repeat (apply keeps_bind; [exact _|first [apply keeps_lift; exact _|apply nowMicros_tally]|intros ?]).
  now intros s.
Qed.

Lemma step_bind_ok {St A B} (m : effect St A) (k : A -> effect St B) s b s' :
  step_bind m k s = (Ok b, s') -> exists a s1, m s = (Ok a, s1) /\ k a s1 = (Ok b, s').
Proof. unfold step_bind. destruct (m s) as [[a|e] s1]; [eauto|done]. Qed.

(** The symbol a position is traded under, when it is one of ours. *)
Definition deal_of (p : IgPosition) : option (string * string) :=
  match Markets.findMarketByEpicMini (ip_epic p) with
  | Some market => if String.eqb (ip_dealReference p) "" then None else Some (Markets.market_symbol market, ip_dealReference p)
  | None => None
  end.

Definition handled (s : cycle) : N := (cy_fresh s + cy_updated s + cy_skippedUnknown s)%N.
Definition deal_key (mb : ClusterMember) : string * string := (cm_symbol mb, cm_dealReference mb).

(** A step that counts one more deal handled and collects nothing. *)
Definition handles : relation cycle := fun s s' =>
  cy_members s' = cy_members s /\ cy_matched s' = cy_matched s /\ handled s' = (handled s + 1)%N.

Lemma tally_handles s1 s2 s3 : same_tally s1 s2 -> handles s2 s3 -> handles s1 s3.
Proof. unfold same_tally, cycle_tally, handles, handled. intros [= E1 E2 E3 E4 E5] (H1 & H2 & H3). split_and!; [congruence|congruence|lia]. Qed.

Lemma update_record_handles p strategyId record s s' :
  update_record p strategyId record s = (Ok tt, s') -> handles s s'.
Proof.
  unfold update_record. intros (now & s1 & E1 & E)%step_bind_ok.
  apply step_bind_ok in E as (b & s2 & E2 & E). apply step_bind_ok in E as (b' & s3 & E3 & E).
  apply (keeps_ret_inv _ _ _ _ _ nowMicros_tally) in E1. apply (keeps_ret_inv _ _ _ _ _ (on_store_tally _)) in E2.
  apply (keeps_ret_inv _ _ _ _ _ (on_store_result_tally _)) in E3. injection E as <-.
  do 3 (eapply tally_handles; [eassumption|]). unfold handles, handled. cbn. split_and!; [done|lia|lia].
Qed.

Lemma save_fresh_handles p symbol strategyId strategyName s s' :
  save_fresh p symbol strategyId strategyName s = (Ok tt, s') -> handles s s'.
Proof.
  unfold save_fresh. intros (now & s1 & E1 & E)%step_bind_ok. apply step_bind_ok in E as (record & s2 & E2 & E).
  cbv zeta in E. apply step_bind_ok in E as (b & s3 & E3 & E). apply step_bind_ok in E as (b' & s4 & E4 & E).
  apply step_bind_ok in E as (u & s5 & E5 & E).
  apply (keeps_ret_inv _ _ _ _ _ nowMicros_tally) in E1. apply (keeps_ret_inv _ _ _ _ _ (keeps_lift same_tally _)) in E2.
  apply (keeps_ret_inv _ _ _ _ _ (on_store_tally _)) in E3. apply (keeps_ret_inv _ _ _ _ _ (on_store_result_tally _)) in E4.
  apply (keeps_ret_inv _ _ _ _ _ (report_tally _ _ _ _)) in E5. injection E as <-.
  do 5 (eapply tally_handles; [eassumption|]). unfold handles, handled. cbn. split_and!; [done|lia|lia].
Qed.

(** A deal of ours is collected and handled; what is not leaves the tally alone. *)
Definition applied (p : IgPosition) (s s' : cycle) : Prop :=
  match deal_of p with
  | Some d => exists mb, deal_key mb = d /\ cy_members s' = cy_members s ++ [mb] /\
      cy_matched s' = (cy_matched s + 1)%N /\ handled s' = (handled s + 1)%N
  | None => same_tally s s'
  end.

Lemma apply_position_applied p s s' : applyPosition p s = (Ok tt, s') -> applied p s s'.
Proof.
  unfold applyPosition, applied, deal_of. destruct (Markets.findMarketByEpicMini _) as [market|]; [|now intros [= <-]].
  destruct (String.eqb _ _); [now intros [= <-]|]. cbv zeta.
  intros (u & s1 & E1 & E)%step_bind_ok. apply step_bind_ok in E as (receipt & s2 & E2 & E).
  destruct (attribution receipt) as [strategyId strategyName].
  apply step_bind_ok in E as (v & s3 & E3 & E). apply step_bind_ok in E as (payload & s4 & E4 & E).
  apply (keeps_ret_inv _ _ _ _ _ (on_store_tally _)) in E2, E4. injection E1 as <- <-. injection E3 as <- <-.
  assert (handles s4 s') as (H1 & H2 & H3).
  { destruct payload as [payload|]; [|injection E as <-; unfold handles, handled; cbn; split_and!; [done|lia|lia]].
    apply step_bind_ok in E as (record & s5 & E5 & E).
    apply (keeps_ret_inv _ _ _ _ _ (keeps_lift same_tally _)) in E5. apply (tally_handles _ s5); [done|].
    destruct record as [r|]; [now apply (update_record_handles p strategyId r)|now apply (save_fresh_handles p (Markets.market_symbol market) strategyId strategyName)]. }
  unfold same_tally, cycle_tally in *. cbn in *. injection E2 as F1 F2 F3 F4 F5. injection E4 as G1 G2 G3 G4 G5.
  exists (mkMember (Markets.market_symbol market) strategyName (ip_dealReference p)). split; [reflexivity|].
  unfold handled in *.
  split_and!; [congruence|lia|lia].
Qed.

Lemma apply_book_applied book s s' :
  apply_book book s = (Ok tt, s') ->
  exists ms, cy_members s' = cy_members s ++ ms /\ map deal_key ms = omap deal_of book /\
    cy_matched s' = (cy_matched s + N.of_nat (length ms))%N /\ handled s' = (handled s + N.of_nat (length ms))%N.
Proof.
  revert s. induction book as [|p book IH]; intros s; cbn [apply_book].
  { intros [= <-]. exists []. rewrite app_nil_r. split_and!; [done|done|cbn; lia|cbn; lia]. }
  intros (u & s1 & E1 & E)%step_bind_ok. destruct u. apply apply_position_applied in E1.
  apply IH in E as (ms & H1 & H2 & H3 & H4). unfold applied in E1.
  change (omap deal_of (p :: book)) with (match deal_of p with Some d => d :: omap deal_of book | None => omap deal_of book end).
  destruct (deal_of p) as [d|].
  - destruct E1 as (mb & <- & G1 & G2 & G3). exists (mb :: ms). rewrite H1, G1, <- app_assoc. cbn [map length].
    split_and!; [done|now rewrite H2|lia|lia].
  - unfold same_tally, cycle_tally in E1. injection E1 as G1 G2 G3 G4 G5. exists ms. unfold handled in *.
    split_and!; [congruence|done|lia|lia].
Qed.

Lemma refresh_tally ids n : keeps same_tally (refresh_lists ids n).
Proof.
  revert n. induction ids as [|id ids IH]; intros n; cbn [refresh_lists]; [apply keeps_ret; exact _|].
  apply keeps_bind; [exact _|apply on_store_result_tally|intros ok; apply IH].
Qed.

(** From an empty tally, the mirror ends with the whole book. *)
Lemma mirror_handled book response c1 c2 x s' :
  mirror_book book response (mkCycle c1 c2 x [] 0 0 0 0) = (Ok tt, s') ->
  map deal_key (cy_members s') = omap deal_of book /\ cy_matched s' = N.of_nat (length (cy_members s')) /\
  (cy_fresh s' + cy_updated s' + cy_skippedUnknown s' = cy_matched s')%N.
Proof.
  unfold mirror_book. intros (u & s1 & E1 & E)%step_bind_ok. destruct u.
  apply apply_book_applied in E1 as (ms & H1 & H2 & H3 & H4). unfold handled in H4. cbn in H1, H3, H4.
  assert (same_tally s1 s') as K.
  { revert E. apply keeps_ret_inv with (m := step_bind _ _). clear.
    apply keeps_bind; [exact _|now intros s|intros members].
    apply keeps_bind; [exact _| |intros synced].
    { intros s. unfold clustered. now destruct (syncAllClusters _ _ _ _ _) as [[a c] w]. }
    apply keeps_bind; [exact _|apply report_tally|intros u].
    apply keeps_bind; [exact _|apply on_store_result_tally|intros ids].
    destruct ids as [ids|]; [|apply keeps_ret; exact _].
    apply keeps_bind; [exact _|apply refresh_tally|intros n]. apply keeps_ret. exact _. }
  unfold same_tally, cycle_tally in K. injection K as K1 K2 K3 K4 K5. rewrite K1, H1. split_and!; [done|cbn [app]; lia|lia].
Qed.

(** * Lemmas: the exchange with the broker *)

(** What an exchange with the broker leaves alone: the books in Redis, and the
    documents queued. *)
Definition still : relation (io server) := fun x x' =>
  w_server (redis x') = w_server (redis x) /\ w_net (redis x') = w_net (redis x) /\ audited x' = audited x.

Lemma still_trans x1 x2 x3 : still x1 x2 -> still x2 x3 -> still x1 x3.
Proof. unfold still. intuition congruence. Qed.

Lemma pull_still x : still x (pullAuthWithRetry x).2.
Proof.
  unfold pullAuthWithRetry, pullOnce. destruct (pulls x) as [|[|fields] rest]; cbn.
  - now split.
  - destruct rest as [|[|f] rest]; now split.
  - now destruct (if bool_decide _ then _ else _).
Qed.

Lemma attempt_still auth path meth body extra x : still x (attempt auth path meth body extra x).2.
Proof. unfold attempt. destruct (next_exchange x) as [[| |] rest]; now split. Qed.

Lemma execute_still n k response auth path meth body extra x :
  still x (execute_from n k response auth path meth body extra x).2.
Proof.
  revert k response x. induction n as [|n IH]; intros k response x; cbn [execute_from]; [now split|].
  assert (still x (if 0 <? k then sleep (1000000 * 2 ^ k) x else x)) as H by (destruct (0 <? k); now split).
  apply (still_trans _ _ _ H). pose proof (attempt_still auth path meth body extra (if 0 <? k then sleep (1000000 * 2 ^ k) x else x)) as H'.
  destruct (attempt _ _ _ _ _ _) as [r x']. apply (still_trans _ _ _ H'). cbn [snd].
  destruct r as [r|]; [destruct (transient r)|]; [apply IH|now split|apply IH].
Qed.

Lemma exchange_still auth path meth body extra retries x : still x (execute auth path meth body extra retries x).2.
Proof. apply execute_still. Qed.

(** A step that only files a report, if it does not throw. *)
Definition files (status : string) (s : cycle) (r : result unit) (s' : cycle) : Prop :=
  w_server (redis (cy_io s')) = w_server (redis (cy_io s)) /\ w_net (redis (cy_io s')) = w_net (redis (cy_io s)) /\
  cy_store s' = cy_store s /\ cy_clusters s' = cy_clusters s /\
  match r with
  | Ok _ => exists details seconds body,
      dump (report_json "IG-Account" "PositionRequest" status details seconds) = Ok body /\
      audited (cy_io s') = audited (cy_io s) ++ [body]
  | Throw _ => audited (cy_io s') = audited (cy_io s)
  end.

Lemma report_files status details s r s' :
  reportFunction "IG-Account" "PositionRequest" status details s = (r, s') -> files status s r s'.
Proof.
  unfold reportFunction, step_bind, lift, nowMicros, files. destruct details as [d|e]; [|now intros [= <- <-]].
  remember (report_json "IG-Account" "PositionRequest" status d (w_clock (redis (cy_io s)) / 1000000)) as j eqn:Hj.
  destruct (dump j) as [body|e] eqn:E; intros [= <- <-]; [|repeat split].
  do 4 (split; [reflexivity|]). exists d, (w_clock (redis (cy_io s)) / 1000000), body. rewrite <- Hj. split; [exact E|reflexivity].
Qed.

Lemma failed_files members s r s' : failed_request members s = (r, s') -> files "FAILED-REQUEST" s r s'.
Proof. unfold failed_request. apply report_files. Qed.

Lemma files_still status s x r s' : still (cy_io s) x -> files status (set_net x s) r s' -> files status s r s'.
Proof.
  unfold still, files, set_net. cbn. intros (H1 & H2 & H3) (G1 & G2 & G3 & G4 & G5). rewrite H1, H2, H3 in *. auto.
Qed.

(** What the broker answered, when it answered. *)
Definition fetched (s : cycle) : option HttpResponse :=
  let '(auth, x) := pullAuthWithRetry (cy_io s) in
  match auth with Some auth => (execute auth "/positions" "GET" "" [] 2 x).1 | None => None end.

(** The book, when the answer has one. *)
Definition readable (s : cycle) : result (option (list IgPosition)) :=
  match fetched s with
  | Some r => if status r =? 200 then decodeAccountPositions (http_body r) else Ok None
  | None => Ok None
  end.

(** C12: a book that could not be read is not an empty one: without a session, a
    response, the status 200 or a body that decodes, a cycle changes nothing in Redis
    and files one report of the failure; the only other end is an exception. *)
Theorem unreadable_book_untouched s r s' :
  readable s = Ok None -> syncOnce s = (r, s') ->
  exists status, status ∈ ["FAILED-REQUEST"; "FAILED-DESERIALIZE"] /\ files status s r s'.
Proof.
  unfold readable, fetched, syncOnce. intros Hr. unfold step_bind at 1. cbn [reset_cycle].
  unfold step_bind at 1, session. cbn [cy_io]. pose proof (pull_still (cy_io s)) as Hp.
  destruct (pullAuthWithRetry (cy_io s)) as [[auth|] x]; cbn [snd] in Hp.
  2:{ intros E%failed_files. exists "FAILED-REQUEST". split; [left|]. exact (files_still _ _ _ _ _ Hp E). }
  unfold step_bind at 1, fetch. cbn [cy_io set_net].
  pose proof (exchange_still auth "/positions" "GET" "" [] 2 x) as He.
  destruct (execute _ _ _ _ _ _ _) as [response x']. cbn [fst snd] in *.
  pose proof (still_trans _ _ _ Hp He) as Hx. destruct response as [response|].
  2:{ intros E%failed_files. exists "FAILED-REQUEST". split; [left|]. exact (files_still _ _ _ _ _ Hx E). }
  destruct (status response =? 200); cbn [negb].
  2:{ intros E%failed_files. exists "FAILED-REQUEST". split; [left|]. exact (files_still _ _ _ _ _ Hx E). }
  unfold step_bind at 1, lift. rewrite Hr. intros E%report_files. exists "FAILED-DESERIALIZE".
  split; [right; left|]. exact (files_still _ _ _ _ _ Hx E).
Qed.


End Sync.

(** * Witnesses *)

Definition json_number (v : Z) : json := JFloat (dbl_of_Z v).

(** A deal of ours, one of nobody's and one without a reference. *)
Definition demo_answer : string :=
  let entry epic reference :=
    json_object [("market", json_object [("epic", JString epic)]);
                 ("position", json_object [("dealReference", JString reference); ("dealId", JString "DI1");
                    ("direction", JString "BUY"); ("createdDate", JString "2026/01/02 10:20:30:456");
                    ("dealSize", json_number 2); ("openLevel", json_number 1); ("stopLevel", JNull)])] in
  text_of (dump (json_object
    [("positions", JArray [entry "CS.D.EURUSD.MINI.IP" "R1"; entry "CS.D.OTHER.IP" "R2"; entry "CS.D.EURUSD.MINI.IP" ""])])).

Definition demo_cycle (answers : list Exchange) : cycle (server := store) :=
  mkCycle makeClient makeClient (demo_requests answers).2 [] 0 0 0 0.


(** No answer, three times. *)
Lemma unreadable_book_untouched_witness :
  let s := demo_cycle [NoHandle; NoHandle; NoHandle] in
  length (audited (cy_io (syncOnce "n1" s).2)) = 1%nat /\
  exists status, status ∈ ["FAILED-REQUEST"; "FAILED-DESERIALIZE"] /\
    files status s (syncOnce "n1" s).1 (syncOnce "n1" s).2.
Proof.
  cbv zeta. split; [vm_compute; reflexivity|].
  apply (unreadable_book_untouched "n1" (demo_cycle [NoHandle; NoHandle; NoHandle])); [vm_compute; reflexivity|].
  now destruct (syncOnce _ _).
Defined.

(** A cycle can throw: the report of a failure quotes the answer, and a body that is
    not UTF-8 cannot be quoted. *)
Example sync_can_throw :
  (syncOnce "n1" (demo_cycle [Answered 9 (mkHttp 404 (text [char_of 255]))])).1 = Throw (JsonError 316).
Proof. vm_compute. reflexivity. Qed.

(** A date with a signed hour is taken for an instant. *)
Example signed_hour_parses :
  parseCreatedDateMicros "2026/01/02 -1:00:00:000" 0 = micros_of 2026 1 1 23 0 0 0.
Proof. vm_compute. reflexivity. Qed.

Example created_date_parses :
  parseCreatedDateMicros "2026/01/02 10:20:30:456" 0 = 1767349230456000.
Proof. vm_compute. reflexivity. Qed.

(** The weekend hold is a five-minute window. *)
Example weekend_hold :
  updateTtl (micros_of 2026 1 2 21 55 0 0 / 1000000) = 180000000 /\
  updateTtl (micros_of 2026 1 2 21 54 59 0 / 1000000) = 600000 /\
  updateTtl (micros_of 2026 1 2 22 0 0 0 / 1000000) = 600000.
Proof. vm_compute. auto. Qed.
