(* ===== verification/DealTracking.v ===== *)
(** tracking/dealPacket.cppm, trackingReport.cppm and trackingCommand.cppm: the
    256-byte datagram of an account update, and the process that follows them. *)
From Stdlib Require Import SpecFloat.
From S2P Require Import Prelude Double Json JsonDump JsonParse IsoTime Redis RedisStore Positions IgRest IgRequests Effects TickPacket.
From S2P Require SymbolScale Markets.

(** * The datagram *)

Definition kDealPacketSize : nat := 256.

Record Deal : Type := mkDeal {
  dl_level : option double;
  dl_size : option double;
  dl_stopLevel : option double;
  dl_limitLevel : option double;
  dl_dealReference : string;
  dl_dealId : string;
  dl_dealIdOrigin : string;
  dl_epic : string;
  dl_direction : string;
  dl_status : string;
  dl_dealStatus : string;
  dl_currency : string;
  dl_channel : string;
  dl_expiry : string;
  dl_timestamp : string;
  dl_guaranteedStop : string }.

Definition presentOrNullopt (value : double) : option double :=
  match value with S754_nan => None | _ => Some value end.

(** [toString] of the field at an offset. *)
Definition text_field_at (offset width : nat) (bytes : list Z) : string :=
  text (until_nul (take width (drop offset bytes))).

Definition decodeDeal (bytes : list Z) : option Deal :=
  if negb (length bytes =? kDealPacketSize)%nat then None
  else
    let number offset := presentOrNullopt (read_double offset bytes) in
    let field offset width := text_field_at offset width bytes in
    Some (mkDeal (number 0%nat) (number 8%nat) (number 16%nat) (number 24%nat)
            (field 32%nat 32%nat) (field 64%nat 32%nat) (field 96%nat 32%nat) (field 128%nat 32%nat)
            (field 160%nat 8%nat) (field 168%nat 12%nat) (field 180%nat 12%nat) (field 192%nat 4%nat)
            (field 196%nat 16%nat) (field 212%nat 8%nat) (field 220%nat 24%nat) (field 244%nat 8%nat)).

(** * The documented layout, as the producer writes it *)

(** A text in a field of [width] bytes, padded with NULs. *)
Definition padded_field (width : nat) (s : string) : list Z :=
  let bytes := map byte_of (chars s) in (bytes ++ replicate (width - length bytes) 0)%list.

(** The bits of a number: those of a NaN when it is absent. *)
Definition nan_bits : Z := 9221120237041090560.
Definition number_bits (bits : option Z) : Z := default nan_bits bits.

(** The fields of a packet, in order, and the four reserved bytes. *)
Definition deal_chunks (level size stop limit : option Z) (d : Deal) : list (list Z) :=
  [to_little_endian 8 (number_bits level); to_little_endian 8 (number_bits size);
   to_little_endian 8 (number_bits stop); to_little_endian 8 (number_bits limit);
   padded_field 32 (dl_dealReference d); padded_field 32 (dl_dealId d); padded_field 32 (dl_dealIdOrigin d);
   padded_field 32 (dl_epic d); padded_field 8 (dl_direction d); padded_field 12 (dl_status d);
   padded_field 12 (dl_dealStatus d); padded_field 4 (dl_currency d); padded_field 16 (dl_channel d);
   padded_field 8 (dl_expiry d); padded_field 24 (dl_timestamp d); padded_field 8 (dl_guaranteedStop d);
   [0; 0; 0; 0]].
Definition deal_packet (level size stop limit : option Z) (d : Deal) : list Z :=
  concat (deal_chunks level size stop limit d).

(** A text the producer does not truncate. *)
Definition fits (width : nat) (s : string) : Prop :=
  (length (chars s) < width)%nat /\ Forall (fun c => byte_of c <> 0) (chars s).

Definition deal_fits (d : Deal) : Prop :=
  fits 32 (dl_dealReference d) /\ fits 32 (dl_dealId d) /\ fits 32 (dl_dealIdOrigin d) /\ fits 32 (dl_epic d) /\
  fits 8 (dl_direction d) /\ fits 12 (dl_status d) /\ fits 12 (dl_dealStatus d) /\ fits 4 (dl_currency d) /\
  fits 16 (dl_channel d) /\ fits 8 (dl_expiry d) /\ fits 24 (dl_timestamp d) /\ fits 8 (dl_guaranteedStop d).

(** The bits of a number that is not a NaN, and the number. *)
Definition carries (bits : option Z) (value : option double) : Prop :=
  match bits with
  | Some b => 0 <= b < 2 ^ 64 /\ exists v, value = Some v /\ double_of_bits b = v /\ v <> S754_nan
  | None => value = None
  end.

(** * Facts *)

(** The chunk at a place of a concatenation. *)
Lemma concat_chunk (l : list (list Z)) i c :
  l !! i = Some c -> take (length c) (drop (length (concat (take i l))) (concat l)) = c.
Proof.
  revert i. induction l as [|x l IH]; intros i H; [done|]. destruct i as [|i]; cbn in *.
  - injection H as ->. change (take (length c) (c ++ concat l) = c). apply take_app_length.
  - rewrite length_app, <- drop_drop, drop_app_length. now apply IH.
Qed.

Lemma padded_field_length width s : (length (chars s) < width)%nat -> length (padded_field width s) = width.
Proof. intros H. unfold padded_field. rewrite length_app, length_replicate, length_map. lia. Qed.

Lemma until_nul_field width s : fits width s -> text (until_nul (padded_field width s)) = s.
Proof. intros [_ H]. unfold padded_field. rewrite until_nul_padded by done. apply text_chars. Qed.

Lemma carried bits value : carries bits value -> presentOrNullopt (double_of_bits (little_endian (to_little_endian 8 (number_bits bits)))) = value.
Proof.
  destruct bits as [b|]; cbn [carries].
  - intros (Hb & v & -> & Hv & Hn). change (number_bits (Some b)) with b. rewrite little_endian_round_trip by exact Hb. rewrite Hv. now destruct v.
  - intros ->. vm_compute. reflexivity.
Qed.

Definition deal_widths : list nat := [8; 8; 8; 8; 32; 32; 32; 32; 8; 12; 12; 4; 16; 8; 24; 8; 4]%nat.

Lemma deal_chunks_widths level size stop limit d :
  deal_fits d -> map length (deal_chunks level size stop limit d) = deal_widths.
Proof.
  intros (H1 & H2 & H3 & H4 & H5 & H6 & H7 & H8 & H9 & H10 & H11 & H12). unfold deal_chunks. cbn [map].
  rewrite !to_little_endian_length.
  rewrite (padded_field_length _ _ (proj1 H1)), (padded_field_length _ _ (proj1 H2)), (padded_field_length _ _ (proj1 H3)),
    (padded_field_length _ _ (proj1 H4)), (padded_field_length _ _ (proj1 H5)), (padded_field_length _ _ (proj1 H6)),
    (padded_field_length _ _ (proj1 H7)), (padded_field_length _ _ (proj1 H8)), (padded_field_length _ _ (proj1 H9)),
    (padded_field_length _ _ (proj1 H10)), (padded_field_length _ _ (proj1 H11)), (padded_field_length _ _ (proj1 H12)).
  reflexivity.
Qed.

(** The bytes at the place of the [i]-th field. *)
Lemma deal_chunk level size stop limit d i c :
  deal_fits d -> deal_chunks level size stop limit d !! i = Some c ->
  take (nth i deal_widths 0%nat) (drop (list_sum (take i deal_widths)) (deal_packet level size stop limit d)) = c.
Proof.
  intros Hf Hi. pose proof (deal_chunks_widths level size stop limit d Hf) as Hw.
  assert (list_sum (take i deal_widths) = length (concat (take i (deal_chunks level size stop limit d)))) as ->.
  { rewrite length_concat, <- Hw. f_equal. apply firstn_map. }
  assert (nth i deal_widths 0%nat = length c) as ->.
  { apply nth_lookup_Some. rewrite <- Hw. change (map length ?l) with (length <$> l). now rewrite list_lookup_fmap, Hi. }
  now apply concat_chunk.
Qed.

Lemma text_chunk level size stop limit d i offset width s :
  deal_fits d -> deal_chunks level size stop limit d !! i = Some (padded_field width s) -> fits width s ->
  list_sum (take i deal_widths) = offset -> nth i deal_widths 0%nat = width ->
  text_field_at offset width (deal_packet level size stop limit d) = s.
Proof.
  intros Hf Hi Hs <- <-. unfold text_field_at. rewrite (deal_chunk _ _ _ _ _ _ _ Hf Hi). now apply until_nul_field.
Qed.

Lemma number_chunk level size stop limit d i offset bits value :
  deal_fits d -> deal_chunks level size stop limit d !! i = Some (to_little_endian 8 (number_bits bits)) ->
  carries bits value -> list_sum (take i deal_widths) = offset -> nth i deal_widths 0%nat = 8%nat ->
  presentOrNullopt (read_double offset (deal_packet level size stop limit d)) = value.
Proof.
  intros Hf Hi Hc <- Hw. unfold read_double. rewrite <- Hw, (deal_chunk _ _ _ _ _ _ _ Hf Hi). now apply carried.
Qed.

(** A deal's datagram decodes to the deal. The documented 256 bytes, whatever the
    four numbers and with texts the producer does not truncate, decode to those fields,
    a NaN as a number that is absent; bytes of any other number decode to nothing. *)
Theorem deal_packet_exact level size stop limit d :
  deal_fits d -> carries level (dl_level d) -> carries size (dl_size d) -> carries stop (dl_stopLevel d) ->
  carries limit (dl_limitLevel d) ->
  decodeDeal (deal_packet level size stop limit d) = Some d /\
  forall bytes, length bytes <> kDealPacketSize -> decodeDeal bytes = None.
Proof.
  intros Hf H1 H2 H3 H4. split; [|intros bytes H; unfold decodeDeal; now rewrite (proj2 (Nat.eqb_neq _ _) H)].
  pose proof Hf as (F1 & F2 & F3 & F4 & F5 & F6 & F7 & F8 & F9 & F10 & F11 & F12). unfold decodeDeal.
  assert (length (deal_packet level size stop limit d) = kDealPacketSize) as ->.
  { unfold deal_packet. rewrite length_concat, (deal_chunks_widths level size stop limit d Hf). reflexivity. }
  cbn [Nat.eqb negb kDealPacketSize]. cbv zeta. f_equal.
  rewrite (number_chunk level size stop limit d 0 0 level (dl_level d)) by done.
  rewrite (number_chunk level size stop limit d 1 8 size (dl_size d)) by done.
  rewrite (number_chunk level size stop limit d 2 16 stop (dl_stopLevel d)) by done.
  rewrite (number_chunk level size stop limit d 3 24 limit (dl_limitLevel d)) by done.
  rewrite (text_chunk level size stop limit d 4 32 32 (dl_dealReference d)) by done.
  rewrite (text_chunk level size stop limit d 5 64 32 (dl_dealId d)) by done.
  rewrite (text_chunk level size stop limit d 6 96 32 (dl_dealIdOrigin d)) by done.
  rewrite (text_chunk level size stop limit d 7 128 32 (dl_epic d)) by done.
  rewrite (text_chunk level size stop limit d 8 160 8 (dl_direction d)) by done.
  rewrite (text_chunk level size stop limit d 9 168 12 (dl_status d)) by done.
  rewrite (text_chunk level size stop limit d 10 180 12 (dl_dealStatus d)) by done.
  rewrite (text_chunk level size stop limit d 11 192 4 (dl_currency d)) by done.
  rewrite (text_chunk level size stop limit d 12 196 16 (dl_channel d)) by done.
  rewrite (text_chunk level size stop limit d 13 212 8 (dl_expiry d)) by done.
  rewrite (text_chunk level size stop limit d 14 220 24 (dl_timestamp d)) by done.
  rewrite (text_chunk level size stop limit d 15 244 8 (dl_guaranteedStop d)) by done.
  now destruct d.
Qed.

(** A deleted deal without a size. *)
Definition demo_deal (level : double) : Deal :=
  mkDeal (Some level) None None None "R1" "DI1" "" "CS.D.EURUSD.MINI.IP" "SELL" "DELETED" "ACCEPTED" "GBP" "WTP" "-"
    "2026-01-02T10:20:30.456" "false".

Lemma deal_packet_exact_witness :
  decodeDeal (deal_packet (Some 4607182418800017408) None None None (demo_deal (double_of_bits 4607182418800017408)))
    = Some (demo_deal (dbl_of_Z 1)).
Proof.
  rewrite (proj1 (deal_packet_exact (Some 4607182418800017408) None None None (demo_deal (double_of_bits 4607182418800017408))
    ltac:(repeat split; first [cbn; lia | repeat (constructor; [vm_compute; discriminate|]); constructor])
    ltac:(split; [lia|]; eexists; repeat split; vm_compute; discriminate) eq_refl eq_refl eq_refl)).
  vm_compute. reflexivity.
Defined.

(** * The report's helpers *)

Definition numberOrNull (value : option double) : json :=
  match value with Some v => JFloat v | None => JNull end.
(** [dumpSafe]: a text that is not UTF-8 loses the bytes that are not. *)
Definition dumpSafe (doc : json) : result string := t <~ dump_json replace false doc ; Ok (text t).

(** A close that [llround] cannot represent is unspecified. *)
Definition computeClosePips (closeLevel : double) (openLevelPoints : Z) (direction : string) (size : double)
    (priceScale pointsPerPip : Z) : result (option double) :=
  if (priceScale <=? 0) || (pointsPerPip <=? 0) then Ok None
  else match dbl_llround (dbl_mul closeLevel (dbl_of_Z priceScale)) with
       | None => Throw UndefinedRead
       | Some closePoints =>
           let dirSign := if String.eqb direction "BUY" then dbl_of_Z 1 else dbl_of_Z (-1) in
           Ok (Some (dbl_mul (dbl_mul (dbl_div (dbl_sub (dbl_of_Z closePoints) (dbl_of_Z openLevelPoints))
                                         (dbl_of_Z pointsPerPip)) dirSign) size))
       end.

Definition serializeDeal (deal : Deal) : result string :=
  dumpSafe (json_object
    [("level", numberOrNull (dl_level deal)); ("size", numberOrNull (dl_size deal));
     ("stopLevel", numberOrNull (dl_stopLevel deal)); ("limitLevel", numberOrNull (dl_limitLevel deal));
     ("dealReference", JString (dl_dealReference deal)); ("dealId", JString (dl_dealId deal));
     ("dealIdOrigin", JString (dl_dealIdOrigin deal)); ("epic", JString (dl_epic deal));
     ("direction", JString (dl_direction deal)); ("status", JString (dl_status deal));
     ("dealStatus", JString (dl_dealStatus deal)); ("currency", JString (dl_currency deal));
     ("channel", JString (dl_channel deal)); ("expiry", JString (dl_expiry deal));
     ("timestamp", JString (dl_timestamp deal)); ("guaranteedStop", JString (dl_guaranteedStop deal))]).

(** A field of the position, or what stands for one that is missing or empty. *)
Definition field_or (get : PositionRecord -> string) (fallback : string) (position : option PositionRecord) : string :=
  match position with Some p => if String.eqb (get p) "" then fallback else get p | None => fallback end.

(** A level of zero is not a level. *)
Definition real_level (deal : Deal) : option double :=
  match dl_level deal with Some v => if dbl_eqb v (dbl_of_Z 0) then None else Some v | None => None end.

Definition live_trade_json (deal : Deal) (position : option PositionRecord) (fallbackSymbol env dateIso raw : string)
    (pips : option double) : json :=
  json_object
    ([("date", JString dateIso); ("env", JString env);
      ("symbol", JString (field_or pr_symbol fallbackSymbol position)); ("action", JString (dl_status deal));
      ("strategy", JString (field_or pr_strategyId "Unknown" position));
      ("dealReference", JString (dl_dealReference deal)); ("json", JString raw)] ++
     (if String.eqb (dl_dealId deal) "" then [] else [("dealId", JString (dl_dealId deal))]) ++
     match real_level deal with Some v => [("level", JFloat v)] | None => [] end ++
     match pips with Some v => [("pips", JFloat v)] | None => [] end).

Definition buildLiveTradeDocument (deal : Deal) (position : option PositionRecord) (fallbackSymbol env dateIso : string)
    (pips : option double) : result string :=
  raw <~ serializeDeal deal ; dumpSafe (live_trade_json deal position fallbackSymbol env dateIso raw pips).

(** * The process *)

Section Tracking.
Context {server : Type} {R : RedisServer server}.
Context (tradingEnv : string).

(** The client of the position book, what the process talks to, and its counters;
    the documents queued are those of [audited]. *)
Record tracking : Type := mkTracking {
  tk_positions : client;
  tk_io : io server;
  tk_received : N;
  tk_dropped : N }.

Definition on_book {A} (m : method (server := server) A) : effect tracking A := fun s =>
  let '(a, c, w) := m (tk_positions s) (redis (tk_io s)) in
  (Ok a, mkTracking c (with_redis w (tk_io s)) (tk_received s) (tk_dropped s)).

(** A getter that fails, misses or has a payload that does not decode is passed over. *)
Definition decoded_payload (payload : option (option string)) : result (option PositionRecord) :=
  match payload with Some (Some p) => decodePositionRecord p | _ => Ok None end.

Definition lookupPosition (dealReference : string) (getHistory getLive : string -> effect tracking (option (option string)))
    : effect tracking (option PositionRecord) :=
  history <-- getHistory dealReference ;;
  record <-- lift (decoded_payload history) ;;
  match record with
  | Some record => step_ret (Some record)
  | None => live <-- getLive dealReference ;; lift (decoded_payload live)
  end.

Definition fallback_symbol (deal : Deal) : string :=
  match Markets.findMarketByEpicMini (dl_epic deal) with Some market => Markets.market_symbol market | None => dl_epic deal end.

Definition is_deleted (deal : Deal) : bool := String.eqb (dl_status deal) "DELETED".

Definition close_pips (deal : Deal) (record : option PositionRecord) : result (option double) :=
  match record, real_level deal with
  | Some r, Some level =>
      if is_deleted deal then
        let symbol := field_or pr_symbol (fallback_symbol deal) record in
        computeClosePips level (pr_level r) (pr_direction r) (pr_size r) (SymbolScale.getPriceScale symbol)
          (SymbolScale.get symbol)
      else Ok None
  | _, _ => Ok None
  end.

Definition archive (deal : Deal) (record : option PositionRecord) : effect tracking unit :=
  match record with
  | Some r =>
      if is_deleted deal && negb (String.eqb (pr_strategyId r) "") then
        archived <-- on_book (removePosition (pr_strategyId r) (dl_dealReference deal)) ;;
        _ <-- lift archived ;; step_ret tt
      else step_ret tt
  | None => step_ret tt
  end.

Definition queue_trade (body : string) : effect tracking unit := fun s =>
  let x := tk_io s in
  (Ok tt, mkTracking (tk_positions s) (mkIo (redis x) (exchanges x) (pulls x) (sent x) (audited x ++ [body]))
            (tk_received s) (tk_dropped s)).

Definition record_document (deal : Deal) (record : option PositionRecord) (pips : option double) : effect tracking unit :=
  now <-- (fun s => (Ok (w_clock (redis (tk_io s))), s)) ;;
  body <-- lift (buildLiveTradeDocument deal record (fallback_symbol deal) tradingEnv (nowIsoUtc (now / 1000000)) pips) ;;
  queue_trade body.

Definition report (deal : Deal) : effect tracking unit :=
  record <-- lookupPosition (dl_dealReference deal) (fun ref => on_book (getHistoryPositionPayload ref))
               (fun ref => on_book (getPositionPayload ref)) ;;
  pips <-- lift (close_pips deal record) ;;
  _ <-- archive deal record ;;
  record_document deal record pips.

Definition count_packet (received dropped : N) : effect tracking unit := fun s =>
  (Ok tt, mkTracking (tk_positions s) (tk_io s) (tk_received s + received) (tk_dropped s + dropped)).

(** The receiver's handler; what the report throws is logged, an unspecified value is
    not an exception. *)
Definition onDatagram (bytes : list Z) : effect tracking unit :=
  match decodeDeal bytes with
  | None => count_packet 0 1
  | Some deal =>
      _ <-- count_packet 1 0 ;;
      (fun s => match report deal s with
                | (Throw UndefinedRead, s) => (Throw UndefinedRead, s)
                | (_, s) => (Ok tt, s)
                end)
  end.

End Tracking.

(** * Lemmas: the document's text *)

Lemma put_throws cs st x : put cs st = Throw x -> x = UndefinedRead.
Proof. unfold put. destruct (_ <=? _)%nat; [done|]. now intros [= <-]. Qed.
Lemma put_printf_throws cs st x : put_printf cs st = Throw x -> x = UndefinedRead.
Proof. unfold put_printf. destruct (_ <=? _)%nat; [done|]. now intros [= <-]. Qed.

Lemma accept_throws ensure_ascii c st x : accept_codepoint ensure_ascii c st = Throw x -> x = UndefinedRead.
Proof.
  unfold accept_codepoint. cbv zeta. repeat match goal with |- context [if ?b then _ else _] => destruct b end;
    first [apply put_throws|apply put_printf_throws].
Qed.

(** Replacing what is not UTF-8, the printer never refuses. *)
Lemma replace_step_total ensure_ascii c st :
  escape_inv ensure_ascii st -> exists r, escape_step replace ensure_ascii c st = Ok r /\ escape_inv ensure_ascii r.1.
Proof.
  intros Hst. pose proof (escape_step_inv replace ensure_ascii c st Hst) as H.
  destruct (escape_step replace ensure_ascii c st) as [[st' again]|x] eqn:E; [now exists (st', again)|].
  exfalso. subst x. revert E. unfold escape_step. destruct (decode _ _ _) as [s cp]. cbv zeta.
  destruct (s =? UTF8_ACCEPT).
  - destruct (accept_codepoint _ _ _) eqn:A; [done|]. apply accept_throws in A. subst. done.
  - destruct (s =? UTF8_REJECT).
    + destruct (put _ _) eqn:A; [done|]. apply put_throws in A. subst. done.
    + destruct ensure_ascii; cbn [negb result_bind]; [done|].
      destruct (put _ _) eqn:A; [done|]. apply put_throws in A. subst. done.
Qed.

Lemma replace_loop_total ensure_ascii l st :
  escape_inv ensure_ascii st -> exists st', escape_loop replace ensure_ascii l st = Ok st'.
Proof.
  revert st. induction l as [|c l IH]; intros st Hst; cbn [escape_loop]; [eauto|].
  destruct (replace_step_total ensure_ascii c st Hst) as ([st1 again] & -> & H1). cbn [result_bind].
  destruct again; [|now apply IH].
  destruct (replace_step_total ensure_ascii c st1 H1) as ([st2 again2] & -> & H2). cbn [result_bind]. now apply IH.
Qed.

Lemma replace_escaped_total l : exists t, dump_escaped replace false l = Ok t.
Proof.
  unfold dump_escaped. destruct (replace_loop_total false l _ (escape_start_inv false)) as (st & ->). cbn [result_bind].
  destruct (_ =? _); eauto.
Qed.

(** A member of the documents: a text, a number or nothing. *)
Definition flat (j : json) : Prop := match j with JString _ | JFloat _ | JNull => True | _ => False end.

Lemma flat_total j : flat j -> exists t, dump_json replace false j = Ok t.
Proof.
  destruct j as [| | | | |s| |]; try done; intros _; cbn [dump_json]; eauto.
  destruct (replace_escaped_total (chars s)) as (t & ->). cbn [result_bind]. eauto.
Qed.

Lemma flat_members_total m : Forall (fun kv => flat kv.2) m ->
  exists t, dump_members false replace (dump_json replace false) m = Ok t.
Proof.
  induction 1 as [|[k v] m Hv Hm (ts & IH)]; cbn [dump_members]; [eauto|].
  assert (exists t, dump_member false replace (dump_json replace false) k v = Ok t) as (t & ->).
  { unfold dump_member. destruct (replace_escaped_total (chars k)) as (tk & ->). cbn [result_bind].
    destruct (flat_total v Hv) as (tv & ->). cbn [result_bind]. eauto. }
  cbn [result_bind]. destruct m; [eauto|]. rewrite IH. cbn [result_bind]. eauto.
Qed.

Lemma obj_set_flat k v m : flat v -> Forall (fun kv => flat kv.2) m -> Forall (fun kv => flat kv.2) (obj_set k v m).
Proof.
  intros Hv. induction 1 as [|[k' v'] m Hv' Hm IH]; cbn [obj_set]; [repeat constructor; done|].
  destruct (String.eqb _ _); [now constructor|]. destruct (String.ltb _ _); repeat (constructor; try done).
Qed.

Lemma dumpSafe_total pairs : Forall (fun kv => flat kv.2) pairs -> exists t, dumpSafe (json_object pairs) = Ok t.
Proof.
  intros Hp. unfold dumpSafe, json_object.
  enough (forall acc, Forall (fun kv => flat kv.2) acc ->
    Forall (fun kv => flat kv.2) (foldl (fun m kv => obj_emplace kv.1 kv.2 m) acc pairs)) as H.
  { specialize (H [] (Forall_nil_2 _)). destruct (foldl _ [] pairs) as [|kv m] eqn:E; [cbn; eauto|].
    destruct (flat_members_total _ H) as (t & Ht). cbn [dump_json]. rewrite Ht. cbn [result_bind]. eauto. }
  induction Hp as [|[k v] pairs Hv Hp IH]; intros acc Ha; [done|]. cbn [foldl]. apply IH.
  unfold obj_emplace. destruct (obj_find _ _); [done|now apply obj_set_flat].
Qed.

Lemma document_total deal position symbol env now pips :
  exists t, buildLiveTradeDocument deal position symbol env now pips = Ok t.
Proof.
  unfold buildLiveTradeDocument, serializeDeal.
  edestruct dumpSafe_total as (raw & ->).
  2:{ cbn [result_bind]. unfold live_trade_json. apply dumpSafe_total. repeat apply Forall_app_2.
      - repeat constructor.
      - destruct (String.eqb _ _); repeat constructor.
      - destruct (real_level _); repeat constructor.
      - destruct pips; repeat constructor. }
  unfold numberOrNull. repeat constructor; cbn; repeat match goal with |- context [match ?x with _ => _ end] => destruct x end; done.
Qed.

(** * Lemmas: reading the book *)

Section Reading.
Context {server : Type} {R : RedisServer server} {L : RedisLaws server}.
Context (tradingEnv : string).

(** A read changes nothing that can be seen once it can no longer be executed. *)
Lemma run_reads {T} (op : operation (server := server) T) c w x c' w' :
  (forall t s, unchanged t s (op t s).2) -> run op c w = (x, c', w') ->
  unchanged (w_clock w' + opTimeout) (w_server w) (w_server w') /\ w_clock w <= w_clock w'.
Proof.
  intros Ho E. pose proof (run_bounded _ _ _ _ _ _ E) as [Hc _]. split; [|done].
  assert (w_server w' = w_server w \/ exists t, t <= w_clock w + opTimeout /\ (op t (w_server w)).2 = w_server w') as [->|(t & Ht & <-)].
  { revert E. unfold run. destruct (breakerOpen _ c); [intros [= <- <- <-]; auto|].
    assert (w_server (pumpUntil op w).2 = w_server w \/ exists t, t <= w_clock w + opTimeout /\ (op t (w_server w)).2 = w_server (pumpUntil op w).2) as H.
    { unfold pumpUntil. destruct (next_event w) as [[e b|a e] net].
      - destruct (Z.ltb_spec (Z.of_N e) opTimeout); [|auto]. right. exists (w_clock w + Z.of_N e). split; [lia|].
        destruct (op _ _) as [o s]. destruct (_ <? _); reflexivity.
      - destruct e as [d|]; [|left; destruct (_ <? _); reflexivity].
        destruct (Z.ltb_spec (Z.of_N d) opTimeout); [|left; destruct (Z.of_N a <? _); reflexivity].
        right. exists (w_clock w + Z.of_N d). split; [lia|]. destruct (Z.of_N a <? _); reflexivity. }
    destruct (pumpUntil op w) as [[[y|ex]|reason] w1]; cbn [snd] in H; intros [= <- <- <-]; exact H. }
  - intros t k Ht. reflexivity.
  - intros t' k Ht'. apply Ho. lia.
Qed.

Definition book_kept : relation (tracking (server := server)) := fun s s' =>
  unchanged (w_clock (redis (tk_io s')) + opTimeout) (w_server (redis (tk_io s))) (w_server (redis (tk_io s'))) /\
  w_clock (redis (tk_io s)) <= w_clock (redis (tk_io s')) /\ audited (tk_io s') = audited (tk_io s) /\
  tk_received s' = tk_received s /\ tk_dropped s' = tk_dropped s.

#[local] Instance book_kept_preorder : PreOrder book_kept.
Proof.
  split; [intros s; repeat split; done || lia|].
  intros s1 s2 s3 (U1 & C1 & A1 & R1 & D1) (U2 & C2 & A2 & R2 & D2). split; [|split_and!; (congruence || lia)].
  intros t k Ht. rewrite (U2 t k Ht). apply U1. lia.
Qed.

Lemma read_key_kept key : keeps book_kept (on_book (read_key (server := server) key)).
Proof.
  intros s. unfold on_book, read_key. destruct (run _ _ _) as [[v c] w] eqn:E.
  apply run_reads in E as [U C]; [split_and!; done|]. intros t x.
  pose proof (getString_spec t key x) as H. destruct (getString key t x) as [r x']. apply H.
Qed.

Lemma lookup_kept ref :
  keeps book_kept (lookupPosition ref (fun ref => on_book (getHistoryPositionPayload ref)) (fun ref => on_book (getPositionPayload ref))).
Proof.
  unfold lookupPosition. apply keeps_bind; [exact _|apply read_key_kept|intros history].
  apply keeps_bind; [exact _|apply keeps_lift; exact _|intros record]. destruct record as [r|]; [apply keeps_ret; exact _|].
  apply keeps_bind; [exact _|apply read_key_kept|intros live]. apply keeps_lift. exact _.
Qed.

Lemma lift_ok {St A B} (a : A) (k : A -> effect St B) s : step_bind (lift (Ok a)) k s = k a s.
Proof. reflexivity. Qed.
Lemma ret_ok {St A B} (a : A) (k : A -> effect St B) s : step_bind (step_ret a) k s = k a s.
Proof. reflexivity. Qed.

Lemma bind_ok {St A B} (m : effect St A) (k : A -> effect St B) s r s' :
  step_bind m k s = (r, s') ->
  (exists a s1, m s = (Ok a, s1) /\ k a s1 = (r, s')) \/ (exists e, r = Throw e /\ m s = (Throw e, s')).
Proof. unfold step_bind. destruct (m s) as [[a|e] s1]; [left; eauto|]. intros [= <- <-]. right. eauto. Qed.

Lemma readNumber_throws {A} (get : json -> result A) d key parsed e :
  (forall v e, is_number v = true -> get v = Throw e -> e = UndefinedRead) -> readNumber get d key parsed = Throw e -> e = UndefinedRead.
Proof.
  intros Hg. unfold readNumber. destruct (json_find key parsed) as [v|]; [|done].
  destruct (is_number v) eqn:N; [|done]. now apply Hg.
Qed.

Lemma result_bind_throws {A B} (m : result A) (k : A -> result B) e :
  result_bind m k = Throw e -> m = Throw e \/ exists a, m = Ok a /\ k a = Throw e.
Proof. destruct m as [a|x]; intros H; [right; exists a; now split|left; now injection H as ->]. Qed.

Lemma cast_float_throws w d e : cast_float w d = Throw e -> e = UndefinedRead.
Proof. unfold cast_float. destruct (dbl_trunc d) as [z|]; [destruct (_ && _)|]; intros [=]; done. Qed.

Lemma decode_throws p e : decodePositionRecord p = Throw e -> e = UndefinedRead.
Proof.
  unfold decodePositionRecord. destruct (parse p) as [parsed|]; [|done]. destruct (negb _); [done|]. intros H.
  assert (forall v e, is_number v = true -> get_int v = Throw e -> e = UndefinedRead) as G1
    by (intros [] e' N; try done; apply cast_float_throws).
  assert (forall v e, is_number v = true -> get_double v = Throw e -> e = UndefinedRead) as G2 by (intros [] e' N; done).
  assert (forall v e, is_number v = true -> get_int64 v = Throw e -> e = UndefinedRead) as G3
    by (intros [] e' N; try done; apply cast_float_throws).
  do 5 (let v := fresh "v" in apply result_bind_throws in H as [H|(v & _ & H)]; [eapply readNumber_throws; [|exact H]; assumption|]).
  cbv zeta in H. destruct (_ || _) in H; done.
Qed.

Lemma lookup_throws ref s e s' :
  lookupPosition ref (fun ref => on_book (getHistoryPositionPayload ref)) (fun ref => on_book (getPositionPayload ref)) s
    = (Throw e, s') -> e = UndefinedRead.
Proof.
  assert (forall payload e, decoded_payload payload = Throw e -> e = UndefinedRead) as Hp.
  { intros [[p|]|] e'; try done. apply decode_throws. }
  assert (forall key s e s', on_book (read_key (server := server) key) s <> (Throw e, s')) as Hr.
  { intros key x e' x'. unfold on_book. now destruct (read_key key _ _) as [[a c] w]. }
  unfold lookupPosition. intros [(h & s1 & _ & E)|(e' & _ & E)]%bind_ok; [|now apply Hr in E].
  apply bind_ok in E as [(record & s2 & _ & E)|(e' & [= <-] & E)]; [|injection E as E _; now apply Hp in E].
  destruct record as [r|]; [done|].
  apply bind_ok in E as [(l & s3 & _ & E)|(e' & _ & E)]; [|now apply Hr in E]. injection E as E _. now apply Hp in E.
Qed.

(** The end of a report always queues its document. *)
Lemma record_document_adds deal record pips (s : tracking (server := server)) :
  exists now body, buildLiveTradeDocument deal record (fallback_symbol deal) tradingEnv (nowIsoUtc now) pips = Ok body /\
    record_document tradingEnv deal record pips s =
      (Ok tt, mkTracking (tk_positions s) (mkIo (redis (tk_io s)) (exchanges (tk_io s)) (pulls (tk_io s)) (sent (tk_io s))
                (audited (tk_io s) ++ [body])) (tk_received s) (tk_dropped s)).
Proof.
  destruct (document_total deal record (fallback_symbol deal) tradingEnv (nowIsoUtc (w_clock (redis (tk_io s)) / 1000000)) pips)
    as (body & Hb).
  exists (w_clock (redis (tk_io s)) / 1000000), body. split; [exact Hb|].
  unfold record_document, step_bind, lift, queue_trade. now rewrite Hb.
Qed.

(** C16: an update that closes nothing is recorded and changes nothing. For a decoded
    deal that is not deleted, the handler leaves every key of Redis as it was and counts
    the datagram, and it queues one document, the deal's own; the only other end is a
    position record with a number its field cannot hold. *)
Theorem update_recorded bytes deal s r s' :
  decodeDeal bytes = Some deal -> is_deleted deal = false -> onDatagram tradingEnv bytes s = (r, s') ->
  unchanged (w_clock (redis (tk_io s')) + opTimeout) (w_server (redis (tk_io s))) (w_server (redis (tk_io s'))) /\
  tk_received s' = (tk_received s + 1)%N /\ tk_dropped s' = tk_dropped s /\
  match r with
  | Ok _ => exists position now body,
      buildLiveTradeDocument deal position (fallback_symbol deal) tradingEnv (nowIsoUtc now) None = Ok body /\
      audited (tk_io s') = audited (tk_io s) ++ [body]
  | Throw e => e = UndefinedRead /\ audited (tk_io s') = audited (tk_io s)
  end.
Proof.
  intros Hd Hn. unfold onDatagram. rewrite Hd. unfold step_bind at 1, count_packet.
  set (s1 := mkTracking _ _ _ _). destruct (report tradingEnv deal s1) as [r1 s2] eqn:E.
  enough (unchanged (w_clock (redis (tk_io s2)) + opTimeout) (w_server (redis (tk_io s1))) (w_server (redis (tk_io s2))) /\
    tk_received s2 = tk_received s1 /\ tk_dropped s2 = tk_dropped s1 /\
    match r1 with
    | Ok _ => exists position now body,
        buildLiveTradeDocument deal position (fallback_symbol deal) tradingEnv (nowIsoUtc now) None = Ok body /\
        audited (tk_io s2) = audited (tk_io s1) ++ [body]
    | Throw e => e = UndefinedRead /\ audited (tk_io s2) = audited (tk_io s1)
    end) as (U & Hr & Hdr & H).
  { cbn in U, Hr, Hdr, H. rewrite N.add_0_r in Hdr. destruct r1 as [u|e].
    - intros [= <- <-]. destruct u. split_and!; done.
    - destruct H as [-> Ha]. intros [= <- <-]. split_and!; done. }
  revert E. unfold report. intros [(record & s3 & E1 & E)|(e & -> & E1)]%bind_ok.
  2:{ pose proof (lookup_kept (dl_dealReference deal) s1) as K. rewrite E1 in K. destruct K as (U & _ & A & K1 & K2).
      apply lookup_throws in E1 as ->. split_and!; done. }
  pose proof (lookup_kept (dl_dealReference deal) s1) as K. rewrite E1 in K. cbn [snd] in K.
  assert (close_pips deal record = Ok None) as Hp.
  { unfold close_pips. rewrite Hn. destruct record; [|done]. now destruct (real_level deal). }
  assert (archive deal record = step_ret tt) as Ha by (unfold archive; rewrite Hn; now destruct record).
  rewrite Hp, Ha, lift_ok, ret_ok in E.
  destruct (record_document_adds deal record None s3) as (now & body & Hb & Hd'). rewrite Hd' in E.
  injection E as <- <-. destruct K as (U & _ & A & K1 & K2). split; [exact U|]. split; [exact K1|]. split; [exact K2|].
  exists record, now, body. split; [exact Hb|]. cbn [tk_io audited]. now rewrite A.
Qed.

End Reading.

(** * Witness *)

Definition demo_tracking : tracking (server := store) := mkTracking makeClient (demo_requests []).2 0 0.
Definition demo_update : Deal :=
  mkDeal (Some (dbl_of_Z 1)) None None None "R1" "DI1" "" "CS.D.EURUSD.MINI.IP" "SELL" "UPDATED" "ACCEPTED" "GBP" "WTP" "-"
    "2026-01-02T10:20:30.456" "false".
Definition demo_datagram : list Z := deal_packet (Some 4607182418800017408) None None None demo_update.

Lemma update_recorded_witness :
  (onDatagram "demo" demo_datagram demo_tracking).1 = Ok tt /\
  tk_received (onDatagram "demo" demo_datagram demo_tracking).2 = 1%N /\
  length (audited (tk_io (onDatagram "demo" demo_datagram demo_tracking).2)) = 1%nat.
Proof.
  assert (decodeDeal demo_datagram = Some demo_update) as Hd by (vm_compute; reflexivity).
  assert ((onDatagram "demo" demo_datagram demo_tracking).1 = Ok tt) as Hr by (vm_compute; reflexivity).
  pose proof (update_recorded "demo" demo_datagram demo_update demo_tracking (onDatagram "demo" demo_datagram demo_tracking).1
    (onDatagram "demo" demo_datagram demo_tracking).2 Hd eq_refl (surjective_pairing _)) as (_ & H1 & _ & H2).
  rewrite Hr in H2. destruct H2 as (position & now & body & _ & Ha). split; [exact Hr|]. split; [exact H1|].
  rewrite Ha. reflexivity.
Defined.

(** A closed deal with a record: the pips of the close, and the record archived. *)
Definition closed_record : PositionRecord :=
  mkPosition "DI1" "R1" "EURUSD" "CS.D.EURUSD.MINI.IP" "BUY" (dbl_of_Z 2) 99000 0 0 "s1" "FvgStrategy" 5.

Example closing_pips :
  close_pips (demo_deal (dbl_of_Z 1)) (Some closed_record) = Ok (Some (dbl_of_Z 200)).
Proof. vm_compute. reflexivity. Qed.
