(* ===== verification/LiveCommand.v ===== *)
(** live/winners/liveStrategyCache.cppm, live/config/liveSettings.cppm, the start-up of
    live/liveCommand.cppm and live/monitoring/liveTrace.cppm: the workers built for the
    winners, the settings, what the process starts with, and its trace documents. *)
From S2P Require Import Prelude Models Double Json JsonFloat JsonDump StdText IsoTime Env Elastic Ingest Config Winners BarStore LiveWorker.
From S2P Require SymbolScale Markets RangeBar EntryConditions StrategyFactory DealTracking.

(** * The workers *)

Section StrategyCache.
Context {G : Type} (seed : G).

Definition bar_series (config : StrategyConfig) : list SeriesSpec :=
  omap (fun v => if (1 <=? OHLC_MINUTES v) && (1 <=? OHLC_COUNT v)
                 then Some (mkSeriesSpec (OHLC_MINUTES v) (OHLC_COUNT v)) else None) (OHLC_VARIABLES config).
Definition range_series (config : StrategyConfig) : list RangeBar.RangeBarSpec :=
  omap (fun v => if (1 <=? RANGE_ATR_TICK_WINDOW v) && (1 <=? RANGE_ATR_PERCENT v) && (1 <=? RANGE_COUNT v)
                 then Some (RangeBar.mkRangeBarSpec (RANGE_ATR_TICK_WINDOW v) (RANGE_ATR_PERCENT v) (RANGE_COUNT v)) else None)
    (RANGE_VARIABLES config).

Definition worker_spec (w : Winner) : WorkerSpec :=
  mkSpec (win_symbol w) (win_strategyName w) (UUID (win_config w)) (TRADING_VARIABLES (win_config w))
    (win_maxOpenTrades w) (win_maxTradesPerMinute w) (win_peakHoursOnly w) (bar_series (win_config w))
    (range_series (win_config w)) (Some (EntryConditions.gateSeriesFor (win_config w))).

(** [StrategyCache::build]: winners nobody could quote, lock or build are skipped. *)
Definition cache_worker (w : Winner) : option (WorkerSpec * StrategyFactory.AnyStrategy) :=
  if SymbolScale.get (win_symbol w) =? SymbolScale.kUnknown then None
  else if String.eqb (UUID (win_config w)) "" then None
  else match StrategyFactory.makeStrategy seed (win_config w) with
       | Ok strategy => Some (worker_spec w, strategy)
       | Throw _ => None
       end.
Definition build (winners : list Winner) : list (WorkerSpec * StrategyFactory.AnyStrategy) := omap cache_worker winners.

End StrategyCache.

(** * Lemmas: the series of a worker *)

(** A series is kept at least as long as asked. *)
Definition covers (store : BarStore) (s : SeriesSpec) : Prop :=
  exists s', s' ∈ specs_ store /\ ssMinutes s' = ssMinutes s /\ ssCount s <= ssCount s'.

Lemma merge_spec_covers specs m c :
  exists s', s' ∈ merge_spec specs m c /\ ssMinutes s' = m /\ c <= ssCount s'.
Proof.
  induction specs as [|s specs (s' & Hs & Hm & Hc)]; cbn [merge_spec].
  { exists (mkSeriesSpec m c). repeat split; [now apply list_elem_of_singleton|cbn; lia]. }
  destruct (Z.eqb_spec (ssMinutes s) m) as [E|E].
  - exists (mkSeriesSpec (ssMinutes s) (Z.max (ssCount s) c)). repeat split; [left|done|cbn; lia].
  - exists s'. repeat split; [now right|done|done].
Qed.

Lemma merge_spec_grows specs m c s :
  s ∈ specs -> exists s', s' ∈ merge_spec specs m c /\ ssMinutes s' = ssMinutes s /\ ssCount s <= ssCount s'.
Proof.
  intros Hs. induction Hs as [s specs|s s0 specs Hs (s' & Hs' & Hm & Hc)]; cbn [merge_spec];
    match goal with |- context [?a =? m] => destruct (Z.eqb_spec a m) as [E|E] end.
  - exists (mkSeriesSpec (ssMinutes s) (Z.max (ssCount s) c)). repeat split; [left|cbn; lia].
  - exists s. repeat split; [left|lia].
  - exists s. repeat split; [now right|lia].
  - exists s'. repeat split; [now right|done|done].
Qed.

Definition positive_series (s : SeriesSpec) : Prop := 1 <= ssMinutes s /\ 1 <= ssCount s.

Lemma registerSeries_covers store s :
  positive_series s ->
  exists store', registerSeries store (ssMinutes s) (ssCount s) = Ok store' /\ covers store' s /\
    forall s0, covers store s0 -> covers store' s0.
Proof.
  intros [Hm Hc]. unfold registerSeries.
  rewrite (proj2 (Z.ltb_ge _ _)), (proj2 (Z.ltb_ge _ _)) by done. cbn [orb]. eexists. split; [done|]. split.
  - apply merge_spec_covers.
  - intros s0 (s' & Hs & Hm' & Hc'). destruct (merge_spec_grows _ (ssMinutes s) (ssCount s) _ Hs) as (s'' & H1 & H2 & H3).
    exists s''. repeat split; [done|congruence|lia].
Qed.

Lemma register_series_covers specs store :
  Forall positive_series specs ->
  exists store', register_series specs store = Ok store' /\ Forall (covers store') specs /\
    forall s0, covers store s0 -> covers store' s0.
Proof.
  intros H. revert store. induction H as [|s specs Hs H IH]; intros store; cbn [register_series]; [eauto|].
  destruct (registerSeries_covers store s Hs) as (store1 & -> & C1 & K1). cbn [result_bind].
  destruct (IH store1) as (store2 & -> & C2 & K2). exists store2. repeat split; auto.
Qed.

Lemma register_ranges_positive specs store :
  Forall (fun s => RangeBar.spec_positive s = true) specs ->
  exists store', register_ranges specs store = Ok store' /\ specs_ store' = specs_ store.
Proof.
  intros H. revert store. induction H as [|s specs Hs H IH]; intros store; cbn [register_ranges]; [eauto|].
  unfold registerRangeSeries. rewrite Hs. cbn [negb result_bind].
  destruct (IH (mkBarStore (specs_ store) (bySymbol_ store) (merge_range_spec (rangeSpecs_ store) s)
    (rangeBySymbol_ store))) as (store' & -> & E). eauto.
Qed.

Lemma bar_series_positive config : Forall positive_series (bar_series config).
Proof.
  apply Forall_forall. intros s (v & _ & H)%list_elem_of_omap. destruct (_ && _) eqn:E; [|done].
  injection H as <-. rewrite andb_true_iff, !Z.leb_le in E. exact E.
Qed.

Lemma range_series_positive config : Forall (fun s => RangeBar.spec_positive s = true) (range_series config).
Proof.
  apply Forall_forall. intros s (v & _ & H)%list_elem_of_omap. destruct (_ && _) eqn:E; [|done].
  injection H as <-. rewrite !andb_true_iff, !Z.leb_le in E. destruct E as [[E1 E2] E3].
  unfold RangeBar.spec_positive. cbn. now rewrite !(proj2 (Z.ltb_ge _ _)) by done.
Qed.

Lemma gate_positive config : positive_series (EntryConditions.gateSeriesFor config).
Proof.
  unfold EntryConditions.gateSeriesFor, positive_series. destruct (OHLC_VARIABLES config) as [|v vs]; [done|].
  destruct (1 <=? OHLC_MINUTES v) eqn:E; cbn [ssMinutes ssCount]; [|done]. apply Z.leb_le in E.
  unfold EntryConditions.kAtrPeriod. lia.
Qed.

Lemma cache_worker_cases {G} (seed : G) w spec strategy :
  cache_worker seed w = Some (spec, strategy) ->
  spec = worker_spec w /\ StrategyFactory.makeStrategy seed (win_config w) = Ok strategy /\
  SymbolScale.get (win_symbol w) <> SymbolScale.kUnknown /\ UUID (win_config w) <> "".
Proof.
  unfold cache_worker. destruct (Z.eqb_spec (SymbolScale.get (win_symbol w)) SymbolScale.kUnknown) as [|Hk]; [done|].
  destruct (String.eqb_spec (UUID (win_config w)) "") as [|Hu]; [done|].
  destruct (StrategyFactory.makeStrategy _ _) as [s|] eqn:E; [|done]. intros [= <- <-]. auto.
Qed.

Lemma cached_starts {G} (seed : G) ws spec strategy :
  (spec, strategy) ∈ build seed ws ->
  (exists w, w ∈ ws /\ spec = worker_spec w /\ StrategyFactory.makeStrategy seed (win_config w) = Ok strategy) /\
  Markets.findMarket (ws_symbol spec) <> None /\ ws_strategyUuid spec <> "" /\
  exists worker, makeWorker spec strategy = Ok worker /\ Forall (covers (barStore worker)) (ws_barSeries spec) /\
    exists gate, ws_gateSeries spec = Some gate /\ covers (barStore worker) gate.
Proof.
  intros (w & Hw & (-> & Hf & Hk & Hu)%cache_worker_cases)%list_elem_of_omap.
  split; [eauto|]. split; [now apply Markets.tradable_iff_priced|]. split; [done|]. unfold makeWorker, worker_spec.
  cbn [ws_barSeries ws_rangeSeries ws_gateSeries].
  destruct (register_series_covers _ emptyStore (bar_series_positive (win_config w))) as (s1 & -> & C1 & _).
  cbn [result_bind].
  destruct (register_ranges_positive _ s1 (range_series_positive (win_config w))) as (s2 & -> & E2). cbn [result_bind].
  destruct (registerSeries_covers s2 _ (gate_positive (win_config w))) as (s3 & -> & C3 & K3). cbn [result_bind].
  eexists. split; [done|]. cbn [barStore]. split; [|eauto].
  eapply Forall_impl; [exact C1|]. intros s Hs. apply K3. unfold covers in *. now rewrite E2.
Qed.



(** * Settings *)

Definition kLive : Z := 11110.

Record Settings : Type := mkSettings {
  bindAddr : string;
  bindPort : Z;
  minScore : double;
  maxDrawdownPercent : double;
  minCalmarScore : double;
  lockTtl : Z;
  redisHost : string;
  redisPort : Z;
  topPerGroup : nat;
  tradingEnv : string;
  ohlcPrepopulate : bool }.

(** [std::from_chars] to a [long]. *)
Definition from_chars_long (l : list Ascii.ascii) : option Z :=
  let '(negative, l) := match l with
                        | c :: l => if byte_of c =? 45 then (true, l) else (false, c :: l)
                        | [] => (false, [])
                        end in
  match span_digits l with
  | ([], _) => None
  | (ds, _) =>
      let v := if (negative : bool) then - digits_value ds else digits_value ds in
      if (- 2 ^ 63 <=? v) && (v <? 2 ^ 63) then Some v else None
  end.

Definition parseScore (s : string) (fallback : double) : double :=
  match stod s with Ok value => if dbl_isfinite value then value else fallback | Throw _ => fallback end.

Definition parseTtlSeconds (s : string) (fallback : Z) : Z :=
  match from_chars_long (chars s) with Some value => if value <=? 0 then fallback else value | None => fallback end.

(** [std::tolower] in the C locale. *)
Definition to_lower (c : Ascii.ascii) : Ascii.ascii :=
  let b := byte_of c in if (65 <=? b) && (b <=? 90) then char_of (b + 32) else c.

Definition fromEnv {E : Environment} (argv : list string) : Settings :=
  let port := parsePort (getOr "LIVE_UDP_PORT" "") kLive in
  mkSettings (getOr "LIVE_BIND_ADDR" "127.0.0.1")
    (match argv !! 2%nat with Some arg => parsePort arg port | None => port end)
    (parseScore (getOr "LIVE_MIN_SCORE" "") (dbl_of_Z 20))
    (parseScore (getOr "LIVE_MAX_DRAWDOWN_PERCENT" "") (dbl_of_Z 10))
    (parseScore (getOr "LIVE_MIN_CALMAR_SCORE" "") (dbl_of_Z 30))
    (parseTtlSeconds (getOr "LIVE_TRADE_LOCK_SECONDS" "") 30)
    (getOr "REDIS_HOST" "127.0.0.1") 6379 3
    (text (map to_lower (chars (getOr "TRADING_ENVIRONMENT" "demo"))))
    (String.eqb (getOr "OHLC_PREPOPULATE" "1") "1").

Lemma parseScore_finite s fallback : dbl_isfinite fallback = true -> dbl_isfinite (parseScore s fallback) = true.
Proof. intros H. unfold parseScore. destruct (stod s) as [v|]; [|done]. now destruct (dbl_isfinite v) eqn:E. Qed.

Lemma parseTtl_positive s fallback : 0 < fallback -> 0 < parseTtlSeconds s fallback.
Proof.
  intros H. unfold parseTtlSeconds. destruct (from_chars_long _) as [v|]; [|done].
  destruct (Z.leb_spec v 0); lia.
Qed.

(** Whatever the environment and the arguments, the settings can be used: a port, floors
    and a ceiling that are numbers, and a lock that ends. *)
Lemma settings_usable {E : Environment} argv :
  let s := fromEnv argv in
  1 <= bindPort s <= 65535 /\ dbl_isfinite (minScore s) = true /\ dbl_isfinite (maxDrawdownPercent s) = true /\
  dbl_isfinite (minCalmarScore s) = true /\ 0 < lockTtl s.
Proof.
  cbv zeta. unfold fromEnv. cbn [bindPort minScore maxDrawdownPercent minCalmarScore lockTtl].
  assert (1 <= parsePort (getOr "LIVE_UDP_PORT" "") kLive <= 65535) as Hp by (apply parsePort_range; unfold kLive; lia).
  split; [destruct (argv !! 2%nat); [now apply parsePort_range|done]|].
  split_and!; try (apply parseScore_finite; vm_compute; reflexivity). apply parseTtl_positive. lia.
Qed.

(** * The start *)

Section Start.
Context {D : Decimal64} {P : Process} {G : Type} (seed : G).

(** The workers' specifications, or none when there is nothing to trade, which ends the
    process. *)
Definition start_workers (argv : list string) (w : net)
    : result (option (Settings * list (WorkerSpec * StrategyFactory.AnyStrategy))) * net :=
  let settings := fromEnv argv in
  let '(winners, w) :=
    fetchWinners (minScore settings) (maxDrawdownPercent settings) (minCalmarScore settings) (topPerGroup settings)
      StrategyFactory.kActiveStrategies Markets.kTradableSymbols w in
  (winners <~ winners ;
   match winners with
   | [] => Ok None
   | _ => match build seed winners with [] => Ok None | specs => Ok (Some (settings, specs)) end
   end, w).

(** A process that starts has workers, and each of them starts, on a market that can be
    traded and under an identity. *)
Lemma started_workers argv w settings specs w' :
  start_workers argv w = (Ok (Some (settings, specs)), w') ->
  specs <> [] /\ settings = fromEnv argv /\
  Forall (fun x => Markets.findMarket (ws_symbol x.1) <> None /\ ws_strategyUuid x.1 <> "" /\
                   exists worker, makeWorker x.1 x.2 = Ok worker) specs.
Proof.
  unfold start_workers. destruct (fetchWinners _ _ _ _ _ _ w) as [[winners|e] w1]; [|done]. cbn [result_bind].
  destruct winners as [|x winners]; [done|]. destruct (build seed (x :: winners)) as [|b bs] eqn:E; [done|].
  intros [= <- <- _]. split; [done|]. split; [done|]. apply Forall_forall. intros [spec strategy] Hin. rewrite <- E in Hin.
  destruct (cached_starts seed _ _ _ Hin) as (_ & Hm & Hu & worker & Hw & _). cbn. eauto.
Qed.

End Start.

(** * The trace *)

Module LiveTrace.

Record Common : Type := mkCommon {
  co_strategyUuid : string;
  co_strategyName : string;
  co_symbol : string;
  co_dealReference : string;
  co_dealId : string }.
Definition noCommon : Common := mkCommon "" "" "" "" "".

Inductive FieldValue : Type :=
  | FBool (b : bool)
  | FInt (z : Z)
  | FUnsigned (z : Z)
  | FDouble (d : double)
  | FText (s : string).

Definition Field : Type := string * FieldValue.

(** The channel: what [init] set, whether the sink of the log is registered, and the
    documents queued, each with its index. *)
Record Channel : Type := mkChannel {
  ch_env : string;
  ch_host : string;
  ch_armed : bool;
  ch_sink : bool;
  ch_queued : list (string * string) }.

Definition unarmed : Channel := mkChannel "unknown" "unknown" false false [].

Section Trace.
Context {E : Environment}.

Definition init (tradingEnv localHostname : string) (ch : Channel) : Channel :=
  mkChannel tradingEnv localHostname (negb (String.eqb (getOr "LIVE_TRACE_ENABLED" "1") "0"))
    (negb (String.eqb (getOr "LIVE_LOG_SHIP_ENABLED" "1") "0")) (ch_queued ch).
Definition disarm (ch : Channel) : Channel := mkChannel (ch_env ch) (ch_host ch) false false (ch_queued ch).

(** [doc[key] = value], over the members so far. *)
Definition put_text (key value : string) (m : list (string * json)) : list (string * json) :=
  if String.eqb value "" then m else obj_set key (JString value) m.
Definition put_field (m : list (string * json)) (f : Field) : list (string * json) :=
  match f.2 with
  | FText s => put_text f.1 s m
  | FBool b => obj_set f.1 (JBoolean b) m
  | FInt z => obj_set f.1 (JInteger z) m
  | FUnsigned z => obj_set f.1 (JUnsigned z) m
  | FDouble d => obj_set f.1 (JFloat d) m
  end.

Definition envelope (ch : Channel) (now : Z) (rest : list (string * json)) : list (string * json) :=
  foldl (fun m kv => obj_emplace kv.1 kv.2 m) []
    ([("@timestamp", JString (isoUtcMillis now)); ("env", JString (ch_env ch)); ("hostname", JString (ch_host ch))] ++ rest).

Definition trace_members (event : string) (common : Common) (fields : list Field) (ch : Channel) (now : Z)
    : list (string * json) :=
  let m := envelope ch now [("event", JString event)] in
  let m := put_text "strategyUuid" (co_strategyUuid common) m in
  let m := put_text "strategyName" (co_strategyName common) m in
  let m := put_text "symbol" (co_symbol common) m in
  let m := put_text "dealReference" (co_dealReference common) m in
  let m := put_text "dealId" (co_dealId common) m in
  foldl put_field m fields.

Definition buildDocumentJson (event : string) (common : Common) (fields : list Field) (ch : Channel) (now : Z)
    : result string :=
  dump (JObject (trace_members event common fields ch now)).

Definition kMaxMessageBytes : nat := 4096.

Definition buildLogDocumentJson (isError : bool) (message : string) (ch : Channel) (now : Z) : result string :=
  DealTracking.dumpSafe (JObject (envelope ch now
    [("level", JString (if isError then "error" else "info"));
     ("message", JString (text (take kMaxMessageBytes (chars message))))])).

Definition queue_document (index : string) (body : result string) (ch : Channel) : Channel :=
  match body with
  | Ok body => mkChannel (ch_env ch) (ch_host ch) (ch_armed ch) (ch_sink ch) (ch_queued ch ++ [(index, body)])
  | Throw _ => ch
  end.

(** The sink of the log: what cannot be printed is dropped without a line. *)
Definition shipLogLine (isError : bool) (message : string) (now : Z) (ch : Channel) : Channel :=
  queue_document "live-logs" (buildLogDocumentJson isError message ch now) ch.

(** [backtest_log::error] and [logLine], as far as the sink goes. *)
Definition log_line (isError : bool) (message : string) (now : Z) (ch : Channel) : Channel :=
  if ch_sink ch then shipLogLine isError message now ch else ch.

Definition emit (event : string) (common : Common) (fields : list Field) (now : Z) (ch : Channel) : Channel :=
  if negb (ch_armed ch) then ch
  else
    let body := buildDocumentJson event common fields ch now in
    match body with
    | Ok _ => queue_document "live-traces" body ch
    | Throw _ => log_line true "liveTrace: failed to build/queue a trace document — dropping it" now ch
    end.

(** * Facts *)

(** Every line of the log becomes a document, whatever its bytes, as long as the sink is
    registered. *)
Lemma log_line_queued isError message now ch :
  ch_sink ch = true ->
  exists body, buildLogDocumentJson isError message ch now = Ok body /\
    ch_queued (log_line isError message now ch) = ch_queued ch ++ [("live-logs", body)].
Proof.
  intros Hs. unfold log_line. rewrite Hs. unfold shipLogLine.
  assert (exists body, buildLogDocumentJson isError message ch now = Ok body) as (body & ->); [|eauto].
  unfold buildLogDocumentJson, envelope. apply (DealTracking.dumpSafe_total ([_; _; _] ++ [_; _])). repeat constructor.
Qed.

(** A trace adds at most one document, and none while the channel is unarmed. *)
Lemma emit_adds event common fields now ch :
  (ch_armed ch = false -> emit event common fields now ch = ch) /\
  (length (ch_queued (emit event common fields now ch)) <= length (ch_queued ch) + 1)%nat.
Proof.
  unfold emit. split; [now intros ->|]. destruct (ch_armed ch); cbn [negb]; [|lia].
  destruct (buildDocumentJson _ _ _ _ _); cbn [queue_document].
  - cbn [ch_queued]. rewrite length_app. cbn. lia.
  - unfold log_line, shipLogLine, queue_document. destruct (ch_sink ch); [|lia].
    destruct (buildLogDocumentJson _ _ _ _); cbn [ch_queued]; rewrite ?length_app; cbn; lia.
Qed.

(** What the order path hands over as text is in the document, unless it is empty. *)
Example trace_document :
  buildDocumentJson "orderPlaced" (mkCommon "u" "" "EURUSD" "" "") [("size", FInt 2); ("reason", FText "")]
    (mkChannel "demo" "h" true true []) 1767349230456000
  = dump (json_object
      [("@timestamp", JString "2026-01-02T10:20:30.456Z"); ("env", JString "demo"); ("hostname", JString "h");
       ("event", JString "orderPlaced"); ("strategyUuid", JString "u"); ("symbol", JString "EURUSD");
       ("size", JInteger 2)]).
Proof. vm_compute. reflexivity. Qed.

End Trace.

End LiveTrace.
